(* ===== verification/_CoqProject ===== *)
-Q . S2P
Prelude.v
Bytes.v
Text.v
Py.v
Json.v
JsonProps.v
PyJson.v
JsonBytes.v
Ed25519.v
Sha256.v
MmrPos.v
Mmr.v
Commitment.v
Cbor.v
CborLoads.v
MmrSpec.v
MmrProof.v
MmrPath.v
Inclusion.v
Consistency.v
Range.v
Index.v
Cll.v
Engine.v
EngineValid.v
EngineProps.v
EngineCommit.v
EngineSteps.v
Backend.v
Memory.v
Calendar.v
Base64.v
Emit.v
EmitProps.v
CoseWire.v
CoseProps.v
Runner.v
RunnerProps.v
Delivery.v
DeliveryProps.v
Bundle.v
BundleProps.v
Wire.v
Jsonl.v
JsonlProps.v
Sql.v
Sqlite.v
SqlRows.v
SqlProps.v
SqlCommit.v
SqliteProps.v
SqliteOpen.v
Mysql.v
MysqlProps.v
MysqlRuns.v
MysqlExact.v
Signing.v
HmacCheckpoint.v
HmacCheckpointProps.v
Admission.v
Revocation.v
LogLedger.v
Segments.v
Lookup.v
Store.v
StoreReads.v
StoreLogic.v
StoreSpec.v
StoreAppend.v
StoreRecover.v
StoreReindex.v
StoreReadsProps.v
StoreProps.v
StoreExamples.v
StoreRotation.v
Profile.v
ProfileProps.v
Cll02.v
Cll02Cbor.v
Cll02Props.v
