(* ===== verification/Prelude.v ===== *)
(** * Checkpointed Local Log: a verification library for the Python package

    The package keeps an append-only log of 32-byte values, indexes it in a
    Merkle Mountain Range (MMR), signs checkpoints of the MMR root, has them
    counter-signed by witnesses and hands out evidence that others check
    offline. This library models the Python implementation under
    [src/python], and the reference of the -02 draft under
    [src/cll-02-vectors], and proves what its parts promise. Definitions carry the
    names of the source; where two classes share a method name, the method is
    in a [Module] named after its class.

    ** Parts and files

    Foundations. [Prelude] (exceptions, the [result] monad and its notation
    [let! x := m in k], automation, generic lemmas); [Bytes] and [Text]
    (bytes, code points, hexadecimal, UTF-8); [Py] (the universe [pyval] of
    arguments of any type, slices and indexing with Python's out-of-range
    behaviour); [Json], [JsonProps] and [PyJson] (the [json] module's reader
    and writer, and how JSON values behave as Python objects); [Calendar] and
    [Base64] (the standard library's dates and RFC 4648); [Sha256] (the class
    [Hashlib] of a 32-byte digest and SHA-256 itself, on which examples run).

    The range ([checkpoint/core.py], [checkpoint/store.py]). [MmrPos]:
    position arithmetic. [Mmr]: hashing, node stores and [add_leaf].
    [MmrSpec]: [represents nodes leaves], the node array of a list of leaves,
    which [add_leaf] refines to appending. [MmrProof], [MmrPath],
    [Inclusion], [Consistency], [Range]: the generators and the
    verifiers of inclusion, consistency and range proofs, each proved complete
    (an honest proof is accepted) and binding (an accepted one names what the
    log holds, or exhibits two different hashed strings with one digest).
    [Commitment]: the CBOR commitment object. [Index]
    ([checkpoint/index.py]): [MmrLedger], which folds a log into an MMR.

    Encodings. [Cbor] and [CborLoads] ([cbor.py]): the receipt encoding rule
    against a grammar of items, and the walk that refuses colliding keys
    against a grammar of all well-formed encodings (heads of any width,
    indefinite lengths, floats, tags).
    [Wire] ([log/wire.py]): entries, witness rows and states
    as portable text. [Ed25519] ([ed25519.py]): the acceptance rules put in
    front of OpenSSL.

    The backends ([log/]). [Cll]: the value records and limits of
    [log/__init__.py]. [Engine] with [EngineValid], [EngineProps],
    [EngineCommit], [EngineSteps]: [log/engine.py] as a state machine,
    [Inductive step], with its invariant [wf] and the order [extends] every
    history follows. [Backend]: the contract of a backend as a class; a
    client proved against it holds over each instance. [Memory]
    ([log/memory.py]) is one. [Jsonl], [JsonlProps] ([log/jsonl.py]) is
    another: a journal on a disk whose system calls may fail and keep what is
    not synced from stable storage, so that the loss of power may leave less
    than was written, and its recovery from a crash at any byte. [Sql] ([log/sql.py]): the relational
    operations as programs of statements over four tables shared by several
    logs; [Sqlite] ([log/sqlite.py]): their transactions, in which any
    statement may fail, and opening; [SqlRows], [SqlProps], [SqlCommit],
    [SqliteProps], [SqliteOpen]: they refine the engine. [Mysql]
    ([log/mysql.py]): the same operations as clients of a server, a tree of
    requests each; several handles advance one request at a time, and
    [answers] relates a request to what the server may answer: what InnoDB
    documents of snapshots, locking reads, row locks, commits and rollbacks,
    or a failure with any error number, at any request. The tables name no
    collation: how the server compares texts is a parameter, the class
    [Collation], and the theorems are of a [BinaryCollation], which tells all
    texts apart; an example shows two logs confused by one that does not. [MysqlProps]: a
    transaction among the commits of others; [MysqlRuns]: the invariant of all
    handles, and linearizability over every [history]; [MysqlExact]: the
    executable server, one of those of the model, and a handle alone on it.

    Checkpoints ([checkpoint/]). [Emit], [EmitProps] ([emit.py]): records,
    the signed body, emission, stamps and grades. [CoseWire], [CoseProps]
    ([cose_wire.py]): the COSE statement and its offline verifier. [Runner],
    [RunnerProps] ([runner.py]): the pass that indexes entries and commits
    checkpoints by compare-and-set, over any [Backend] that other callers also
    use between its calls, appending entries and committing states of their
    own; what the stored state then is depends on what they commit. [Delivery], [DeliveryProps] ([witness.py]): the
    delivery of checkpoints to witnesses, one thread for each witness, in any
    interleaving. [Bundle], [BundleProps] ([bundle.py]): offline evidence for
    one record.

    The ledger ([ledger/], [revocation.py], [signing.py]). [Admission]
    ([admission.py], [records.py]): the declared mode of an append and the
    envelopes it must carry. [Segments] ([segments.py]):
    manifests and the standalone verification of a closed segment.
    [Revocation]: the fence of a rotated key. [Signing]:
    local signatures and fingerprints. [LogLedger]
    ([log/ledger.py]): the adapters that show a ledger as an entry log.
    [JsonBytes]: [json.loads] on bytes. [HmacCheckpoint] and
    [HmacCheckpointProps] ([checkpoint.py]): the ledger's own checkpoints,
    which chain, their registration with a transparency service and the
    files they are kept in.

    The ledger store ([ledger/store.py], [ledger/lookup.py]). [Lookup]: the
    secondary index by time, digest and correlation id. [Store]: segments of
    JSON lines on a disk, an index of rows, the store's own operations as
    programs of a monad in which each step of the operating system or of
    SQLite may fail or be the last before the process ends; [append],
    rotation, [recover], [reindex], [rebuild_lookup_index], opening.
    [StoreReads]: [scan], [fetch], the lookups, archiving and verification.
    [StoreLogic]: postconditions with a clause for each outcome (done,
    raised, ended). [StoreSpec]: the abstract ledger, a list of entries,
    [represents], which says that a store holds it, and what the lookup index
    then holds. [StoreAppend], [StoreRecover], [StoreReindex], [StoreReadsProps],
    [StoreRotation]: each operation against that specification; [StoreProps]:
    what they give together. [StoreExamples]: runs.

    The -02 reference ([src/cll-02-vectors]), which shares no code with the
    package. [Profile], [ProfileProps] ([profile_main.py]): the pseudocode of
    the MMR profile, each function against the mountains of [MmrPos] and
    [MmrSpec]. [Cll02] ([cll02.py], and the loops of [generate.py]):
    deterministic CBOR, the claims of a checkpoint, its checks and the
    registration policy. [Cll02Cbor]: the encoding is canonical. [Cll02Props]:
    a producer's chain is registered, a registered history is that of one log,
    and the reference builds the log of the package.

    Each file of properties ends with examples, which run the definitions on
    concrete values and apply each theorem that has hypotheses to them.

    ** State and operations

    A class with mutable state is a [Record] of its fields; a method takes
    the record and returns the new one with its [result]. A check that raises
    does so before any change, in the order of the source, so each exception
    is a value and every branch is a branch of the definition. A lock held for
    a whole method makes the method one step. Code that runs between calls of
    others ([runner.py], [witness.py]) is a program of such steps: the
    surroundings may act between any two of them. A store of the ledger
    carries the list of what its next steps meet ([fault]): nothing, a
    failure, or the end of the process; an empty list means no more failures. An argument or a stored
    value that the source checks with [isinstance] is a [pyval] or a [json];
    one it has checked has its own record type.

    ** What the theorems show

    Proofs of the range: soundness and completeness of the three proof
    systems, and of the fold of a log into the MMR. Backends: the engine's
    invariant over all histories; each backend acknowledges only what the
    engine did, loses nothing it acknowledged, and does not change when it
    fails; recovery after a crash; what the journal acknowledged survives the
    loss of power. Encodings: what is written is read back,
    the receipt rule accepts exactly the encodings of valid items.
    Checkpoints: digests commit to the signed fields, a rollback is detected,
    a chain or a statement or a bundle that verifies proves what it names.
    Runner and delivery: their invariants in any interleaving, termination of
    catching up, bounds of the retry delay. Ledger store: what an append
    leaves under any failure, recovery and reopening after a crash (of a
    managed store, with capsules without floats or lone surrogates, while no
    rotation is due), the
    rebuilt indexes, lookups with and without the index, archiving, and
    rotation, after which every closed segment verifies on its own. The -02
    reference: encodings, what its verifier and its service accept, and its
    agreement with the package. Each claim's comment gives its
    number, and the checked examples its hypotheses at a concrete input.

    ** Bounds and fuel

    [height_climb], [largest_mountain] and [peaks_loop] run at most
    [log2] of their argument plus two rounds, because each round halves what
    is left (the completeness theorems use that no round is missing);
    [leaf_count_loop] takes the source's own [bit_length] rounds.
    [scan_value] has twice the text's length: each call consumes a character
    or is followed by one that does ([JsonProps]). [until_break] and
    [walk_elements] of [CborLoads] have the input's length, and items nest at
    most as deep as they are long. [decode_ignore] drops a byte per round;
    [month_of] has twelve. [catch_up_loop] takes its fuel from the caller:
    [catch_up_terminates] gives an amount that is enough. The loops of
    [Profile] have the bit length of their argument, which every round
    shortens; [_dec] has the depth that Python's recursion may reach, a
    parameter: the theorems say from which depth on they hold. Integers are
    Python's, unbounded, with the source's limits ([MAX_MMR_SIZE],
    [MAX_SEQUENCE], ...) as it checks them.

    ** Parameters

    Code outside the repository is a class or a field: [Hashlib]; [Cbor2]
    ([cbor2.loads] and [dumps]); [Crypto] (OpenSSL's Ed25519);
    [ScittReceipts] and [ScittCose] ([scitt_cose]); [Interp] (floats and the
    Unicode tables); the HTTP exchange of a witness, and which of its answers
    [json.loads] finds too deep; the collation of a MySQL database; the results of
    [os.write], [fsync] and [ftruncate] ([Faults]); the failures of SQL
    statements ([SqliteFaults], [OpenFaults]); the answers of a MySQL server, of which
    [answers] is all that is assumed, so that any server that gives only such
    answers has histories the theorems cover; [AgentActionCapsule] (capsule ids
    and producer envelopes, with the laws [CapsuleLaws] and [CapsuleErrors]).
    Laws a theorem relies on are
    fields of its hypotheses and hold of the examples' instances.

    ** Not modelled

    MySQL connection URLs; the conformance runner
    ([log/conformance.py]) and the command line ([cli.py]), which only call
    modelled operations; the text of the JSON files of the ledger (a file is
    the value it parses to) and the layout of SQLite's own files; the waiting loops of the threads and the key and URL
    parsing in constructors; the COSE envelope of the -02 reference; the recursion limit of [json.loads] but for a witness's answers; signals. *)
From stdpp Require Export base tactics list numbers strings gmap.
From Stdlib Require Export ZArith Lia.

(** ** Exceptions and results

    [exn] lists the exception classes the modelled code raises or catches;
    [result] is a computation that returns or raises. *)
(** Why [resolve_admission] refuses: the [code] of its exception. *)
Inductive rejection := envelope_missing | envelope_invalid.

#[export] Instance rejection_eq_dec : EqDecision rejection.
Proof. solve_decision. Defined.

(** Which rule of the -02 draft a checkpoint breaks: the [code] of
    [CheckpointError] in [src/cll-02-vectors/cll02.py]. *)
Inductive draft02_code :=
| cbor_not_deterministic | wrong_kind | claim_type | size_incomplete | size_decreased
| commitment_length | prev_commitment_length | leaf_count_mismatch | proof_unexpected
| commitment_changed_without_growth | proof_missing | proof_not_profile_encoding
| proof_sizes | proof_invalid | not_continuous.

#[export] Instance draft02_code_eq_dec : EqDecision draft02_code.
Proof. solve_decision. Defined.

Inductive exn : Type :=
| TypeError | ValueError | IndexError | KeyError | OverflowError
| AttributeError | UnicodeError | RecursionError
| InvalidArgumentError | IntegrityError
| NotFoundError | InvalidError | CorruptError | ClosedError
| ContentionError | RejectedError | UnsupportedError | OSError
| ReceiptEncodingError | DuplicateMapKeyError
| CheckpointError | RollbackError | WitnessContinuityRefused | BundleError
| AdmissionRejected (code : rejection) | DuplicateRecord | LedgerCorrupt
| SegmentRotationError | SegmentUnmounted
| SqliteError | SqliteBusy  (* any database error but one that reports a locked database; that one *)
| MySQLError (number : Z)
| ProofError | Draft02Error (code : draft02_code)  (* of the -02 reference verifier *)
| LibraryError  (* an exception class of a third-party library *)
| OutOfFuel.  (* not a Python exception: the bound of a loop was reached *)

#[export] Instance exn_eq_dec : EqDecision exn.
Proof. solve_decision. Defined.

Inductive result (A : Type) : Type :=
| Ok (a : A)
| Raise (e : exn).
Arguments Ok {A} a.
Arguments Raise {A} e.

#[export] Instance result_eq_dec `{EqDecision A} : EqDecision (result A).
Proof. solve_decision. Defined.

(** Notations of the error monad, in a scope of their own. *)
Declare Scope py_scope.
Delimit Scope py_scope with py.

Notation "'let!' x ':=' e 'in' k" :=
  (match e with Ok x => k | Raise err => Raise err end)
  (at level 10, x pattern, e at level 100, k at level 200,
   format "'[v' 'let!'  x  ':='  e  'in' '/' k ']'") : py_scope.
Notation "'check!' b 'else' e 'in' k" :=
  (if b then k else Raise e)
  (at level 10, b at level 100, e at level 100, k at level 200,
   format "'[v' 'check!'  b  'else'  e  'in' '/' k ']'") : py_scope.
Open Scope py_scope.

Lemma Ok_inj {A} (a b : A) : Ok a = Ok b -> a = b.
Proof. congruence. Qed.

Definition is_ok {A} (r : result A) : bool :=
  match r with Ok _ => true | Raise _ => false end.

(** [try ... except Exception: return False] around a verifier. *)
Definition catch_false (r : result bool) : bool :=
  match r with Ok b => b | Raise _ => false end.

(** A list comprehension whose element expression may raise. *)
Fixpoint map_result {A B} (f : A -> result B) (l : list A) : result (list B) :=
  match l with
  | [] => Ok []
  | x :: l =>
      let! y := f x in
      let! ys := map_result f l in
      Ok (y :: ys)
  end.

(** ** Python sequences: [len] and indexing with negative indices *)
Definition zlen {A} (l : list A) : Z := Z.of_nat (length l).

Definition py_index {A} (l : list A) (i : Z) : result A :=
  let j := if (i <? 0)%Z then (i + zlen l)%Z else i in
  if (j <? 0)%Z then Raise IndexError
  else match l !! Z.to_nat j with
       | Some x => Ok x
       | None => Raise IndexError
       end.

(** [l[i:j]] for indices that are not negative. *)
Definition py_slice {A} (l : list A) (i j : Z) : list A :=
  take (Z.to_nat (j - i)) (drop (Z.to_nat i) l).

(** [[x for x in l if test(x)]] *)
Fixpoint filter_result {A} (test : A -> result bool) (l : list A) : result (list A) :=
  match l with
  | [] => Ok []
  | x :: l =>
      let! b := test x in
      let! rest := filter_result test l in
      Ok (if b : bool then x :: rest else rest)
  end.

(** ** Automation *)
Create HintDb cll.
Create Rewrite HintDb cll.

(** Case analysis on the scrutinee of an error-monad computation in a
    hypothesis or in the goal, discarding the raising branches. *)
Ltac inv_result :=
  repeat match goal with
  | H : Ok _ = Ok _ |- _ => injection H as H
  | H : Raise _ = Raise _ |- _ => injection H as H
  | H : Ok _ = Raise _ |- _ => discriminate H
  | H : Raise _ = Ok _ |- _ => discriminate H
  | H : context [match ?e with Ok _ => _ | Raise _ => _ end] |- _ =>
      let E := fresh "E" in destruct e eqn:E; try discriminate H
  | H : context [if ?b then _ else _] |- _ =>
      let E := fresh "E" in destruct b eqn:E; try discriminate H
  end; subst.

(** Turn boolean comparisons into propositions. *)
Ltac zbool :=
  repeat match goal with
  | H : (_ && _)%bool = true |- _ => apply andb_prop in H as [? ?]
  | H : (_ || _)%bool = false |- _ => apply orb_false_elim in H as [? ?]
  | H : negb _ = true |- _ => apply negb_true_iff in H
  | H : negb _ = false |- _ => apply negb_false_iff in H
  | H : (_ <? _)%Z = true |- _ => apply Z.ltb_lt in H
  | H : (_ <? _)%Z = false |- _ => apply Z.ltb_ge in H
  | H : (_ <=? _)%Z = true |- _ => apply Z.leb_le in H
  | H : (_ <=? _)%Z = false |- _ => apply Z.leb_gt in H
  | H : (_ =? _)%Z = true |- _ => apply Z.eqb_eq in H
  | H : (_ =? _)%Z = false |- _ => apply Z.eqb_neq in H
  | H : bool_decide _ = true |- _ => apply bool_decide_eq_true_1 in H
  | H : bool_decide _ = false |- _ => apply bool_decide_eq_false_1 in H
  end.

(** Replace the comparison [b] by the boolean [v], by arithmetic. *)
Ltac rw_bool b v := replace b with v by
  (symmetry; first [apply Z.ltb_lt|apply Z.ltb_ge|apply Z.leb_le|apply Z.leb_gt]; lia).

(** ** Generic lemmas *)
Lemma zlen_nil {A} : zlen (@nil A) = 0%Z.
Proof. done. Qed.

Lemma zlen_cons {A} (x : A) l : zlen (x :: l) = (1 + zlen l)%Z.
Proof. unfold zlen. cbn [length]. lia. Qed.

Lemma zlen_app {A} (l k : list A) : zlen (l ++ k) = (zlen l + zlen k)%Z.
Proof. unfold zlen. rewrite length_app. lia. Qed.

Lemma zlen_nonneg {A} (l : list A) : (0 <= zlen l)%Z.
Proof. unfold zlen. lia. Qed.

Lemma zlen_map {A B} (f : A -> B) l : zlen (map f l) = zlen l.
Proof. unfold zlen. by rewrite length_map. Qed.

#[export] Hint Rewrite @zlen_nil @zlen_cons @zlen_app @zlen_map : cll.
#[export] Hint Resolve zlen_nonneg : cll.

Lemma py_index_nonneg {A} (l : list A) i :
  (0 <= i)%Z ->
  py_index l i = match l !! Z.to_nat i with Some x => Ok x | None => Raise IndexError end.
Proof.
  intros Hi. unfold py_index. replace (i <? 0)%Z with false by (symmetry; by apply Z.ltb_ge).
  by replace (i <? 0)%Z with false by (symmetry; by apply Z.ltb_ge).
Qed.

Lemma py_index_app_l {A} (l k : list A) i :
  (0 <= i < zlen l)%Z -> py_index (l ++ k) i = py_index l i.
Proof.
  unfold zlen. intros Hi. rewrite !py_index_nonneg by lia.
  by rewrite lookup_app_l by lia.
Qed.

Lemma py_index_app_r {A} (l k : list A) i :
  (zlen l <= i)%Z -> py_index (l ++ k) i = py_index k (i - zlen l).
Proof.
  unfold zlen. intros Hi. rewrite !py_index_nonneg by lia.
  rewrite lookup_app_r by lia.
  by replace (Z.to_nat (i - Z.of_nat (length l)))
    with (Z.to_nat i - length l)%nat by lia.
Qed.

Lemma py_index_Ok_range {A} (l : list A) i :
  (0 <= i < zlen l)%Z -> exists x, py_index l i = Ok x.
Proof.
  unfold zlen. intros Hi. rewrite py_index_nonneg by lia.
  destruct (lookup_lt_is_Some_2 l (Z.to_nat i)) as [x Hx]; [lia|].
  exists x. by rewrite Hx.
Qed.

Lemma map_result_length {A B} (f : A -> result B) l l' :
  map_result f l = Ok l' -> length l' = length l.
Proof.
  revert l'. induction l as [|x l IH]; intros l' H; cbn in H; inv_result; [done|].
  cbn. f_equal. by apply IH.
Qed.

Lemma map_result_Ok {A B} (f : A -> result B) (g : A -> B) l :
  (forall x, x ∈ l -> f x = Ok (g x)) -> map_result f l = Ok (map g l).
Proof.
  induction l as [|x l IH]; intros H; [done|].
  cbn. rewrite H by left. rewrite IH; [done|]. intros y Hy. apply H. by right.
Qed.

Lemma map_result_cons_Ok {A B} (f : A -> result B) x l ys :
  map_result f (x :: l) = Ok ys <->
  exists y ys', f x = Ok y /\ map_result f l = Ok ys' /\ ys = y :: ys'.
Proof.
  cbn. destruct (f x) as [y|e]; [|naive_solver].
  destruct (map_result f l) as [ys'|e]; naive_solver.
Qed.

Lemma map_result_app {A B} (f : A -> result B) l k l' k' :
  map_result f l = Ok l' -> map_result f k = Ok k' ->
  map_result f (l ++ k) = Ok (l' ++ k').
Proof.
  revert l'. induction l as [|x l IH]; intros l' Hl Hk.
  - by cbn in Hl; simplify_eq.
  - apply map_result_cons_Ok in Hl as (y & ys & Hy & Hys & ->).
    cbn. by rewrite Hy, (IH _ Hys Hk).
Qed.

Lemma map_result_lookup {A B} (f : A -> result B) l l' i x :
  map_result f l = Ok l' -> l !! i = Some x ->
  exists y, l' !! i = Some y /\ f x = Ok y.
Proof.
  revert l' i. induction l as [|x0 l IH]; intros l' i H Hi; [done|].
  apply map_result_cons_Ok in H as (y & ys & Hy & Hys & ->).
  destruct i as [|i]; cbn in Hi; simplify_eq; [by eauto|]. cbn. eauto.
Qed.

Lemma map_result_total {A B} (f : A -> result B) l :
  (forall x, x ∈ l -> exists y, f x = Ok y) -> exists ys, map_result f l = Ok ys.
Proof.
  induction l as [|x l IH]; intros Hf; [by exists []|].
  destruct (Hf x ltac:(by left)) as [y Hy]. destruct IH as [ys Hys]; [intros z Hz; apply Hf; by right|].
  exists (y :: ys). cbn [map_result]. by rewrite Hy, Hys.
Qed.

Lemma map_result_map {A B C} (f : B -> result C) (g : A -> B) l :
  map_result f (map g l) = map_result (fun x => f (g x)) l.
Proof. induction l as [|x l IH]; [done|]. cbn [map map_result]. by rewrite IH. Qed.

Lemma filter_agree {A} (P Q : A -> Prop) `{forall x, Decision (P x)} `{forall x, Decision (Q x)} (l : list A) :
  (forall x, x ∈ l -> P x <-> Q x) -> filter P l = filter Q l.
Proof.
  induction l as [|x l IH]; intros Hl; [done|].
  assert (filter P l = filter Q l) as E by (apply IH; intros y Hy; apply Hl; by right).
  pose proof (Hl x ltac:(by left)). rewrite !filter_cons, E.
  destruct (decide (P x)), (decide (Q x)); tauto.
Qed.

Lemma filter_none {A} (P : A -> Prop) `{forall x, Decision (P x)} (l : list A) :
  (forall x, x ∈ l -> ~ P x) -> filter P l = [].
Proof.
  induction l as [|x l IH]; intros Hl; [done|]. rewrite filter_cons_False by (apply Hl; by left).
  apply IH. intros y Hy. apply Hl. by right.
Qed.
