(* ===== verification/Bytes.v ===== *)
(** * Bytes and strings of the Python standard library

    [bytes] values, text as lists of code points, [int.to_bytes] and
    [int.from_bytes] in big-endian order, [bytes.hex] and [bytes.fromhex]. *)
From S2P Require Import Prelude.
From Stdlib Require Import Strings.Byte.
From Stdlib Require Strings.Ascii.
Open Scope Z_scope.

(** ** Bytes *)
Abbreviation byte := Byte.byte.
Abbreviation bytes := (list Byte.byte).

#[export] Instance byte_eq_dec : EqDecision byte := Byte.byte_eq_dec.
#[export] Instance byte_countable : Countable byte.
Proof. apply (inj_countable Byte.to_N Byte.of_N). apply Byte.of_to_N. Defined.

Definition b2z (b : byte) : Z := Z.of_N (Byte.to_N b).
Definition z2b (z : Z) : byte :=
  match Byte.of_N (Z.to_N (z mod 256)) with Some b => b | None => Byte.x00 end.

Lemma b2z_range b : 0 <= b2z b < 256.
Proof. unfold b2z. pose proof (Byte.to_N_bounded b). lia. Qed.

Lemma z2b_b2z b : z2b (b2z b) = b.
Proof.
  unfold z2b. rewrite Z.mod_small by apply b2z_range.
  unfold b2z. by rewrite N2Z.id, Byte.of_to_N.
Qed.

Lemma b2z_z2b z : b2z (z2b z) = z mod 256.
Proof.
  unfold z2b. pose proof (Z.mod_pos_bound z 256 eq_refl) as Hm.
  destruct (Byte.of_N (Z.to_N (z mod 256))) as [b|] eqn:E.
  - unfold b2z. rewrite (Byte.to_of_N _ E). lia.
  - apply Byte.of_N_None_iff in E. lia.
Qed.

Lemma b2z_inj b c : b2z b = b2z c -> b = c.
Proof. intros H. rewrite <- (z2b_b2z b), <- (z2b_b2z c). by rewrite H. Qed.

(** [n] zero bytes: [bytes(n)]. *)
Definition zeros (n : nat) : bytes := repeat Byte.x00 n.

(** ** Big-endian integers

    [be_bytes k v] is the low [k] bytes of [v], most significant first;
    [int.to_bytes] raises [OverflowError] when [v] does not fit. *)
Fixpoint be_bytes (k : nat) (v : Z) : bytes :=
  match k with
  | O => []
  | S k => be_bytes k (v / 256) ++ [z2b v]
  end.

Definition to_bytes (v : Z) (k : nat) : result bytes :=
  if (0 <=? v) && (v <? 256 ^ Z.of_nat k) then Ok (be_bytes k v)
  else Raise OverflowError.

Definition from_bytes (bs : bytes) : Z :=
  fold_left (fun acc b => acc * 256 + b2z b) bs 0.

Lemma length_be_bytes k v : length (be_bytes k v) = k.
Proof.
  revert v. induction k as [|k IH]; intros v; cbn; [done|].
  rewrite length_app, IH. cbn. lia.
Qed.

Lemma from_bytes_snoc bs b : from_bytes (bs ++ [b]) = from_bytes bs * 256 + b2z b.
Proof. unfold from_bytes. by rewrite fold_left_app. Qed.

Lemma from_be_bytes k v : 0 <= v < 256 ^ Z.of_nat k -> from_bytes (be_bytes k v) = v.
Proof.
  revert v. induction k as [|k IH]; intros v Hv.
  - cbn in *. lia.
  - cbn [be_bytes]. rewrite from_bytes_snoc, b2z_z2b.
    rewrite Nat2Z.inj_succ, Z.pow_succ_r in Hv by lia.
    assert (0 <= v / 256 < 256 ^ Z.of_nat k) as Hd
      by (split; [apply Z.div_pos|apply Z.div_lt_upper_bound]; lia).
    rewrite IH by done. pose proof (Z.div_mod v 256). lia.
Qed.

Lemma be_bytes_inj k v w :
  0 <= v < 256 ^ Z.of_nat k -> 0 <= w < 256 ^ Z.of_nat k ->
  be_bytes k v = be_bytes k w -> v = w.
Proof. intros Hv Hw E. rewrite <- (from_be_bytes k v), <- (from_be_bytes k w) by done. by f_equal. Qed.

Lemma from_bytes_range bs : 0 <= from_bytes bs < 256 ^ zlen bs.
Proof.
  induction bs as [|b bs IH] using rev_ind; [done|].
  rewrite from_bytes_snoc, zlen_app. pose proof (b2z_range b).
  replace (zlen [b]) with 1 by done. rewrite Z.add_1_r, Z.pow_succ_r by apply zlen_nonneg. lia.
Qed.

Lemma be_from_bytes bs : be_bytes (length bs) (from_bytes bs) = bs.
Proof.
  induction bs as [|b bs IH] using rev_ind; [done|].
  rewrite length_app, Nat.add_1_r, from_bytes_snoc. cbn [be_bytes].
  pose proof (b2z_range b). f_equal.
  - rewrite Z.div_add_l by lia. rewrite Z.div_small by lia. by rewrite Z.add_0_r.
  - f_equal. apply b2z_inj. rewrite b2z_z2b, Z.add_comm, Z.mod_add by lia.
    by apply Z.mod_small.
Qed.

Lemma to_bytes_Ok v k bs :
  to_bytes v k = Ok bs <-> 0 <= v < 256 ^ Z.of_nat k /\ bs = be_bytes k v.
Proof.
  unfold to_bytes. destruct (0 <=? v) eqn:E1, (v <? 256 ^ Z.of_nat k) eqn:E2; zbool; cbn;
    split; intros H; simplify_eq; try done; try (destruct H; lia); destruct H as [? ->]; done.
Qed.

(** ** Lexicographic order *)
Fixpoint bytes_leb (l k : bytes) : bool :=
  match l, k with
  | [], _ => true
  | _ :: _, [] => false
  | a :: l, b :: k => (b2z a <? b2z b) || ((b2z a =? b2z b) && bytes_leb l k)
  end.

Lemma bytes_leb_total l k : bytes_leb l k = true \/ bytes_leb k l = true.
Proof.
  revert k. induction l as [|a l IH]; intros [|b k]; cbn [bytes_leb]; try tauto.
  destruct (Z.lt_trichotomy (b2z a) (b2z b)) as [H|[H|H]].
  - left. by rw_bool (b2z a <? b2z b) true.
  - rewrite H, Z.ltb_irrefl, Z.eqb_refl. apply IH.
  - right. by rw_bool (b2z b <? b2z a) true.
Qed.

Lemma bytes_leb_trans l k m : bytes_leb l k = true -> bytes_leb k m = true -> bytes_leb l m = true.
Proof.
  revert k m. induction l as [|a l IH]; intros [|b k] [|c m]; cbn [bytes_leb]; try done.
  intros [H1|[H1 H1']%andb_prop]%orb_prop [H2|[H2 H2']%andb_prop]%orb_prop; zbool; apply orb_true_iff.
  - left. apply Z.ltb_lt. lia.
  - left. apply Z.ltb_lt. lia.
  - left. apply Z.ltb_lt. lia.
  - right. rewrite H1, H2, Z.eqb_refl. by apply (IH k).
Qed.

Lemma bytes_leb_antisym l k : bytes_leb l k = true -> bytes_leb k l = true -> l = k.
Proof.
  revert k. induction l as [|a l IH]; intros [|b k]; try done. cbn. rewrite !orb_true_iff, !andb_true_iff, !Z.ltb_lt, !Z.eqb_eq.
  intros [H|[H1 H2]] [H'|[H1' H2']]; try lia. f_equal; [|by apply IH].
  rewrite <- (z2b_b2z a), <- (z2b_b2z b). by f_equal.
Qed.

(** ** Text

    A Python [str] is a sequence of code points. [str "..."] writes one from
    an ASCII literal. *)
Abbreviation pystr := (list Z).
Fixpoint str (s : string) : pystr :=
  match s with
  | EmptyString => []
  | String a s => Z.of_N (Ascii.N_of_ascii a) :: str s
  end.

(** ** Hexadecimal: [bytes.hex] and [bytes.fromhex] *)
Definition hex_digit (n : Z) : Z := if n <? 10 then 48 + n else 87 + n.

Definition hex_value (c : Z) : option Z :=
  if (48 <=? c) && (c <=? 57) then Some (c - 48)
  else if (97 <=? c) && (c <=? 102) then Some (c - 87)
  else if (65 <=? c) && (c <=? 70) then Some (c - 55)
  else None.

Fixpoint hex (bs : bytes) : pystr :=
  match bs with
  | [] => []
  | b :: bs => hex_digit (b2z b / 16) :: hex_digit (b2z b mod 16) :: hex bs
  end.

(** ASCII whitespace, which [fromhex] skips between bytes. *)
Definition is_space (c : Z) : bool := (c =? 32) || ((9 <=? c) && (c <=? 13)).

Fixpoint fromhex (s : pystr) : result bytes :=
  match s with
  | [] => Ok []
  | c :: s1 =>
      if is_space c then fromhex s1
      else match hex_value c, s1 with
           | Some hi, d :: s2 =>
               match hex_value d with
               | Some lo => let! bs := fromhex s2 in Ok (z2b (hi * 16 + lo) :: bs)
               | None => Raise ValueError
               end
           | _, _ => Raise ValueError
           end
  end.

Lemma hex_value_digit n : 0 <= n < 16 -> hex_value (hex_digit n) = Some n.
Proof.
  intros Hn. unfold hex_value, hex_digit. destruct (n <? 10) eqn:E; zbool;
    repeat match goal with |- context [if ?b then _ else _] => destruct b eqn:? end;
    zbool; try (f_equal; lia); exfalso; repeat (match goal with H : (_ && _) = false |- _ =>
      apply andb_false_iff in H as [H|H] end); zbool; lia.
Qed.

Lemma hex_digit_not_space n : 0 <= n < 16 -> is_space (hex_digit n) = false.
Proof. intros Hn. unfold is_space, hex_digit. destruct (n <? 10) eqn:E; zbool; lia. Qed.

Lemma fromhex_hex bs : fromhex (hex bs) = Ok bs.
Proof.
  induction bs as [|b bs IH]; [done|].
  pose proof (b2z_range b) as Hb. cbn [hex fromhex].
  assert (0 <= b2z b / 16 < 16) by (split; [apply Z.div_pos|apply Z.div_lt_upper_bound]; lia).
  assert (0 <= b2z b mod 16 < 16) by (apply Z.mod_pos_bound; lia).
  rewrite hex_digit_not_space, !hex_value_digit by done. rewrite IH.
  do 2 f_equal. replace (b2z b / 16 * 16 + b2z b mod 16) with (b2z b); [apply z2b_b2z|].
  rewrite (Z.div_mod (b2z b) 16) at 1; lia.
Qed.

Lemma hex_length bs : length (hex bs) = (2 * length bs)%nat.
Proof. induction bs; cbn; lia. Qed.

#[export] Hint Rewrite length_be_bytes fromhex_hex hex_length : cll.
