(* ===== verification/Text.v ===== *)
(** * UTF-8

    [str.encode("utf-8")] and [bytes.decode("utf-8")] in strict mode: an
    unpaired surrogate has no encoding, and overlong forms, surrogates and
    values above U+10FFFF are refused when decoding. *)
From S2P Require Import Prelude Bytes.
Open Scope Z_scope.

Definition is_surrogate (c : Z) : bool := (0xD800 <=? c) && (c <=? 0xDFFF).

Definition utf8_char (c : Z) : option bytes :=
  if c <? 0 then None
  else if c <? 0x80 then Some [z2b c]
  else if c <? 0x800 then Some [z2b (0xC0 + c / 64); z2b (0x80 + c mod 64)]
  else if is_surrogate c then None
  else if c <? 0x10000 then
    Some [z2b (0xE0 + c / 4096); z2b (0x80 + c / 64 mod 64); z2b (0x80 + c mod 64)]
  else if c <? 0x110000 then
    Some [z2b (0xF0 + c / 262144); z2b (0x80 + c / 4096 mod 64);
          z2b (0x80 + c / 64 mod 64); z2b (0x80 + c mod 64)]
  else None.

Fixpoint utf8_encode (s : pystr) : option bytes :=
  match s with
  | [] => Some []
  | c :: s =>
      match utf8_char c, utf8_encode s with
      | Some bs, Some rest => Some (bs ++ rest)
      | _, _ => None
      end
  end.

Definition continuation (x : Z) : bool := (0x80 <=? x) && (x <=? 0xBF).

Definition cons_char (ok : bool) (c : Z) (rest : option pystr) : option pystr :=
  if ok then option_map (cons c) rest else None.

Fixpoint utf8_decode (bs : bytes) : option pystr :=
  match bs with
  | [] => Some []
  | b0 :: r0 =>
      let x0 := b2z b0 in
      if x0 <? 0x80 then cons_char true x0 (utf8_decode r0)
      else
        match r0 with
        | [] => None
        | b1 :: r1 =>
            let x1 := b2z b1 in
            if x0 <? 0xE0 then
              let c := (x0 - 0xC0) * 64 + (x1 - 0x80) in
              cons_char ((0xC2 <=? x0) && continuation x1) c (utf8_decode r1)
            else
              match r1 with
              | [] => None
              | b2 :: r2 =>
                  let x2 := b2z b2 in
                  if x0 <? 0xF0 then
                    let c := (x0 - 0xE0) * 4096 + (x1 - 0x80) * 64 + (x2 - 0x80) in
                    cons_char (continuation x1 && continuation x2 && (0x800 <=? c)
                               && negb (is_surrogate c)) c (utf8_decode r2)
                  else
                    match r2 with
                    | [] => None
                    | b3 :: r3 =>
                        let x3 := b2z b3 in
                        let c := (x0 - 0xF0) * 262144 + (x1 - 0x80) * 4096
                                 + (x2 - 0x80) * 64 + (x3 - 0x80) in
                        cons_char (continuation x1 && continuation x2 && continuation x3
                                   && (0x10000 <=? c) && (c <? 0x110000)) c (utf8_decode r3)
                    end
              end
        end
  end.

Lemma b2z_small z : 0 <= z < 256 -> b2z (z2b z) = z.
Proof. intros. rewrite b2z_z2b. by apply Z.mod_small. Qed.

Lemma utf8_decode_char c bs rest :
  utf8_char c = Some bs -> utf8_decode (bs ++ rest) = option_map (cons c) (utf8_decode rest).
Proof.
  unfold utf8_char.
  destruct (c <? 0) eqn:E0; [done|]. destruct (c <? 128) eqn:E1; zbool.
  { intros [= <-]. cbn [app utf8_decode]. rewrite b2z_small by lia.
    by rw_bool (c <? 128) true. }
  pose proof (Z.div_mod c 64 ltac:(lia)). pose proof (Z.mod_pos_bound c 64 ltac:(lia)).
  destruct (c <? 2048) eqn:E2; zbool.
  { assert (2 <= c / 64 < 32) by (split; [apply Z.div_le_lower_bound|apply Z.div_lt_upper_bound]; lia).
    intros [= <-]. cbn [app utf8_decode]. rewrite !b2z_small by lia.
    rw_bool (192 + c / 64 <? 128) false. rw_bool (192 + c / 64 <? 224) true.
    unfold continuation. rw_bool (194 <=? 192 + c / 64) true. rw_bool (128 <=? 128 + c mod 64) true.
    rw_bool (128 + c mod 64 <=? 191) true. cbn [andb cons_char]. do 2 f_equal. lia. }
  destruct (is_surrogate c) eqn:Es; [done|].
  pose proof (Z.div_div c 64 64 ltac:(lia) ltac:(lia)) as Hdd. change (64 * 64) with 4096 in Hdd.
  pose proof (Z.div_mod (c / 64) 64 ltac:(lia)). pose proof (Z.mod_pos_bound (c / 64) 64 ltac:(lia)).
  destruct (c <? 65536) eqn:E3; zbool.
  { assert (0 <= c / 4096 < 16) by (split; [apply Z.div_pos|apply Z.div_lt_upper_bound]; lia).
    intros [= <-]. cbn [app utf8_decode]. rewrite !b2z_small by lia.
    replace ((224 + c / 4096 - 224) * 4096 + (128 + c / 64 mod 64 - 128) * 64 + (128 + c mod 64 - 128))
      with c by lia.
    rw_bool (224 + c / 4096 <? 128) false. rw_bool (224 + c / 4096 <? 224) false.
    rw_bool (224 + c / 4096 <? 240) true. unfold continuation.
    rw_bool (128 <=? 128 + c / 64 mod 64) true. rw_bool (128 + c / 64 mod 64 <=? 191) true.
    rw_bool (128 <=? 128 + c mod 64) true. rw_bool (128 + c mod 64 <=? 191) true.
    rw_bool (2048 <=? c) true. by rewrite Es. }
  destruct (c <? 1114112) eqn:E4; zbool; [|done].
  pose proof (Z.div_div c 4096 64 ltac:(lia) ltac:(lia)) as Hddd. change (4096 * 64) with 262144 in Hddd.
  pose proof (Z.div_mod (c / 4096) 64 ltac:(lia)). pose proof (Z.mod_pos_bound (c / 4096) 64 ltac:(lia)).
  assert (0 <= c / 262144 < 5) by (split; [apply Z.div_pos|apply Z.div_lt_upper_bound]; lia).
  intros [= <-]. cbn [app utf8_decode]. rewrite !b2z_small by lia.
  replace ((240 + c / 262144 - 240) * 262144 + (128 + c / 4096 mod 64 - 128) * 4096
           + (128 + c / 64 mod 64 - 128) * 64 + (128 + c mod 64 - 128)) with c by lia.
  rw_bool (240 + c / 262144 <? 128) false. rw_bool (240 + c / 262144 <? 224) false.
  rw_bool (240 + c / 262144 <? 240) false. unfold continuation.
  rw_bool (128 <=? 128 + c / 4096 mod 64) true. rw_bool (128 + c / 4096 mod 64 <=? 191) true.
  rw_bool (128 <=? 128 + c / 64 mod 64) true. rw_bool (128 + c / 64 mod 64 <=? 191) true.
  rw_bool (128 <=? 128 + c mod 64) true. rw_bool (128 + c mod 64 <=? 191) true.
  rw_bool (65536 <=? c) true. by rw_bool (c <? 1114112) true.
Qed.

Lemma utf8_roundtrip s bs : utf8_encode s = Some bs -> utf8_decode bs = Some s.
Proof.
  revert bs. induction s as [|c s IH]; intros bs Hs; [by injection Hs as <-|].
  cbn [utf8_encode] in Hs. destruct (utf8_char c) as [cs|] eqn:Ec; [|done].
  destruct (utf8_encode s) as [rest|]; [|done]. injection Hs as <-.
  by rewrite (utf8_decode_char _ _ _ Ec), (IH rest).
Qed.

(** Decoding accepts only what encoding writes. *)
Lemma digits64 a r : 0 <= r < 64 -> (a * 64 + r) / 64 = a /\ (a * 64 + r) mod 64 = r.
Proof.
  intros Hr. rewrite Z.add_comm, Z.div_add, Z.mod_add by lia.
  rewrite Z.div_small, Z.mod_small by lia. lia.
Qed.

Lemma cons_char_Some ok c rest s :
  cons_char ok c rest = Some s -> ok = true /\ exists t, rest = Some t /\ s = c :: t.
Proof. unfold cons_char. destruct ok; [|done]. destruct rest; [|done]. intros [= <-]. eauto. Qed.

Lemma utf8_decode_encode_len n bs s :
  (length bs <= n)%nat -> utf8_decode bs = Some s -> utf8_encode s = Some bs.
Proof.
  revert bs s. induction n as [|n IH]; intros bs s Hlen.
  { destruct bs; [|cbn in Hlen; lia]. by intros [= <-]. }
  destruct bs as [|b0 r0]; [by intros [= <-]|]. cbn [utf8_decode length] in *. pose proof (b2z_range b0).
  destruct (b2z b0 <? 128) eqn:E0; zbool.
  { intros (_ & t & Et & ->)%cons_char_Some. apply IH in Et; [|lia]. cbn [utf8_encode]. rewrite Et.
    unfold utf8_char. rw_bool (b2z b0 <? 0) false. rw_bool (b2z b0 <? 128) true. by rewrite z2b_b2z. }
  destruct r0 as [|b1 r1]; [done|]. cbn [length] in *. pose proof (b2z_range b1).
  destruct (b2z b0 <? 224) eqn:E1; zbool.
  { intros (Hok & t & Et & ->)%cons_char_Some. unfold continuation in Hok. zbool. apply IH in Et; [|lia].
    cbn [utf8_encode]. rewrite Et. destruct (digits64 (b2z b0 - 192) (b2z b1 - 128)) as [Ed Em]; [lia|].
    set (c := (b2z b0 - 192) * 64 + (b2z b1 - 128)) in *. unfold utf8_char.
    rw_bool (c <? 0) false. rw_bool (c <? 128) false. rw_bool (c <? 2048) true. rewrite Ed, Em.
    replace (192 + (b2z b0 - 192)) with (b2z b0) by lia. replace (128 + (b2z b1 - 128)) with (b2z b1) by lia.
    by rewrite !z2b_b2z. }
  destruct r1 as [|b2 r2]; [done|]. cbn [length] in *. pose proof (b2z_range b2).
  destruct (b2z b0 <? 240) eqn:E2; zbool.
  { intros (Hok & t & Et & ->)%cons_char_Some. unfold continuation in Hok. zbool. apply IH in Et; [|lia].
    cbn [utf8_encode]. rewrite Et.
    destruct (digits64 ((b2z b0 - 224) * 64 + (b2z b1 - 128)) (b2z b2 - 128)) as [Ed Em]; [lia|].
    destruct (digits64 (b2z b0 - 224) (b2z b1 - 128)) as [Ed' Em']; [lia|].
    replace (((b2z b0 - 224) * 64 + (b2z b1 - 128)) * 64 + (b2z b2 - 128))
      with ((b2z b0 - 224) * 4096 + (b2z b1 - 128) * 64 + (b2z b2 - 128)) in Ed, Em by lia.
    set (c := (b2z b0 - 224) * 4096 + (b2z b1 - 128) * 64 + (b2z b2 - 128)) in *. unfold utf8_char.
    pose proof (Z.div_div c 64 64 ltac:(lia) ltac:(lia)) as Hdd. change (64 * 64) with 4096 in Hdd.
    rewrite Ed, Ed' in Hdd.
    rw_bool (c <? 0) false. rw_bool (c <? 128) false. rw_bool (c <? 2048) false. rw_bool (c <? 65536) true.
    destruct (is_surrogate c); [done|]. rewrite <- Hdd, Ed, Em, Em'.
    replace (224 + (b2z b0 - 224)) with (b2z b0) by lia. replace (128 + (b2z b1 - 128)) with (b2z b1) by lia.
    replace (128 + (b2z b2 - 128)) with (b2z b2) by lia. by rewrite !z2b_b2z. }
  destruct r2 as [|b3 r3]; [done|]. cbn [length] in *. pose proof (b2z_range b3).
  intros (Hok & t & Et & ->)%cons_char_Some. unfold continuation in Hok. zbool. apply IH in Et; [|lia].
  cbn [utf8_encode]. rewrite Et.
  destruct (digits64 (((b2z b0 - 240) * 64 + (b2z b1 - 128)) * 64 + (b2z b2 - 128)) (b2z b3 - 128)) as [Ed Em]; [lia|].
  destruct (digits64 ((b2z b0 - 240) * 64 + (b2z b1 - 128)) (b2z b2 - 128)) as [Ed' Em']; [lia|].
  destruct (digits64 (b2z b0 - 240) (b2z b1 - 128)) as [Ed'' Em'']; [lia|].
  replace ((((b2z b0 - 240) * 64 + (b2z b1 - 128)) * 64 + (b2z b2 - 128)) * 64 + (b2z b3 - 128))
    with ((b2z b0 - 240) * 262144 + (b2z b1 - 128) * 4096 + (b2z b2 - 128) * 64 + (b2z b3 - 128)) in Ed, Em by lia.
  set (c := (b2z b0 - 240) * 262144 + (b2z b1 - 128) * 4096 + (b2z b2 - 128) * 64 + (b2z b3 - 128)) in *.
  unfold utf8_char.
  pose proof (Z.div_div c 64 64 ltac:(lia) ltac:(lia)) as Hdd. change (64 * 64) with 4096 in Hdd.
  pose proof (Z.div_div c 4096 64 ltac:(lia) ltac:(lia)) as Hddd. change (4096 * 64) with 262144 in Hddd.
  rewrite Ed, Ed' in Hdd. rewrite <- Hdd, Ed'' in Hddd.
  rw_bool (c <? 0) false. rw_bool (c <? 128) false. rw_bool (c <? 2048) false. rw_bool (c <? 65536) false.
  rw_bool (c <? 1114112) true. assert (is_surrogate c = false) as ->.
  { unfold is_surrogate. by rw_bool (c <=? 57343) false; rewrite andb_false_r. }
  rewrite <- Hddd, <- Hdd, Ed, Em, Em', Em''.
  replace (240 + (b2z b0 - 240)) with (b2z b0) by lia. replace (128 + (b2z b1 - 128)) with (b2z b1) by lia.
  replace (128 + (b2z b2 - 128)) with (b2z b2) by lia. replace (128 + (b2z b3 - 128)) with (b2z b3) by lia.
  by rewrite !z2b_b2z.
Qed.

Lemma utf8_decode_encode bs s : utf8_decode bs = Some s -> utf8_encode s = Some bs.
Proof. by apply (utf8_decode_encode_len (length bs)). Qed.

(** Length in bytes of the encoding; ASCII text is its own encoding. *)
Definition utf8_length (s : pystr) : option Z := option_map zlen (utf8_encode s).

Lemma utf8_encode_ascii s :
  Forall (fun c => 0 <= c < 128) s -> utf8_encode s = Some (map z2b s).
Proof.
  induction 1 as [|c s Hc Hs IH]; [done|]. cbn [utf8_encode map]. rewrite IH. unfold utf8_char.
  rw_bool (c <? 0) false. by rw_bool (c <? 128) true.
Qed.

(** Text without control characters encodes to bytes without them. *)
Lemma utf8_char_bytes c bs : 32 <= c -> utf8_char c = Some bs -> Forall (fun b => 32 <= b2z b) bs.
Proof.
  unfold utf8_char. intros Hc.
  assert (forall z, 128 <= z < 256 -> 32 <= b2z (z2b z)) as Hz by (intros z Hz; rewrite b2z_small by lia; lia).
  pose proof (Z.mod_pos_bound c 64 ltac:(lia)). pose proof (Z.mod_pos_bound (c / 64) 64 ltac:(lia)).
  pose proof (Z.mod_pos_bound (c / 4096) 64 ltac:(lia)).
  destruct (c <? 0); [done|]. destruct (c <? 128) eqn:E1; zbool.
  { intros [= <-]. repeat constructor. rewrite b2z_small; lia. }
  destruct (c <? 2048) eqn:E2; zbool.
  { assert (0 <= c / 64 < 32) by (split; [apply Z.div_pos|apply Z.div_lt_upper_bound]; lia).
    intros [= <-]. repeat constructor; apply Hz; lia. }
  destruct (is_surrogate c); [done|]. destruct (c <? 65536) eqn:E3; zbool.
  { assert (0 <= c / 4096 < 16) by (split; [apply Z.div_pos|apply Z.div_lt_upper_bound]; lia).
    intros [= <-]. repeat constructor; apply Hz; lia. }
  destruct (c <? 1114112) eqn:E4; zbool; [|done].
  assert (0 <= c / 262144 < 5) by (split; [apply Z.div_pos|apply Z.div_lt_upper_bound]; lia).
  intros [= <-]. repeat constructor; apply Hz; lia.
Qed.

Lemma utf8_encode_bytes s bs :
  Forall (fun c => 32 <= c) s -> utf8_encode s = Some bs -> Forall (fun b => 32 <= b2z b) bs.
Proof.
  intros Hs. revert bs. induction Hs as [|c s Hc Hs IH]; intros bs H; [injection H as <-; constructor|].
  cbn [utf8_encode] in H. destruct (utf8_char c) eqn:Ec; [|done]. destruct (utf8_encode s); [|done].
  injection H as <-. apply Forall_app_2; [by eapply utf8_char_bytes|by apply IH].
Qed.
