(* ===== verification/Py.v ===== *)
(** * Python values seen by the validators

    The verifiers and validators of the package take arguments of any type
    and test them with [isinstance]; [pyval] is the universe of values those
    tests distinguish. [True] and [False] are instances of [int], and [==]
    compares numbers of different types by value, as in Python. *)
From S2P Require Import Prelude Bytes.
From Stdlib Require Import QArith.
Open Scope Z_scope.

(** A [datetime]: microseconds since 0001-01-01T00:00:00 on its own clock,
    and its [utcoffset()] in microseconds ([None] for a naive value). *)
Record datetime := Datetime { dt_local : Z; dt_offset : option Z }.

#[export] Instance datetime_eq_dec : EqDecision datetime.
Proof. solve_decision. Defined.

Inductive pyval : Type :=
| PNone
| PBool (b : bool)
| PInt (n : Z)
| PFloat (q : Q)
| PStr (s : pystr)
| PBytes (bs : bytes)
| PByteArray (bs : bytes)
| PMemoryView (bs : bytes)
| PDatetime (d : datetime)
| PList (l : list pyval)
| PTuple (l : list pyval)
| PDict (l : list (pyval * pyval))
| POther (tag : Z)
| PTag (tag : Z) (v : pyval)  (* a CBOR tag the decoder left as it is *)
| PSet (l : list pyval)
| PNaN.

(** ** Type tests *)

(** [isinstance(v, int)]: the integer value of an [int] or a [bool]. *)
Definition as_int (v : pyval) : option Z :=
  match v with
  | PInt n => Some n
  | PBool b => Some (Z.b2z b)
  | _ => None
  end.

(** [isinstance(v, int) and not isinstance(v, bool)]. *)
Definition as_strict_int (v : pyval) : option Z :=
  match v with PInt n => Some n | _ => None end.

(** [isinstance(v, (bytes, bytearray))]. *)
Definition as_bytes (v : pyval) : option bytes :=
  match v with PBytes bs | PByteArray bs => Some bs | _ => None end.

(** [isinstance(v, (list, tuple))]. *)
Definition as_sequence (v : pyval) : option (list pyval) :=
  match v with PList l | PTuple l => Some l | _ => None end.

Definition as_str (v : pyval) : option pystr :=
  match v with PStr s => Some s | _ => None end.

Definition as_bool (v : pyval) : option bool :=
  match v with PBool b => Some b | _ => None end.

Definition is_none (v : pyval) : bool :=
  match v with PNone => true | _ => false end.

(** ** Equality [==] of the values the code compares *)
Definition as_number (v : pyval) : option Q :=
  match v with
  | PInt n => Some (inject_Z n)
  | PBool b => Some (inject_Z (Z.b2z b))
  | PFloat q => Some q
  | _ => None
  end.

Definition as_buffer (v : pyval) : option bytes :=
  match v with
  | PBytes bs | PByteArray bs | PMemoryView bs => Some bs
  | _ => None
  end.

(** Aware values compare as instants, naive ones on their own clock. *)
Definition dt_eq (d e : datetime) : bool :=
  match dt_offset d, dt_offset e with
  | Some x, Some y => dt_local d - x =? dt_local e - y
  | None, None => dt_local d =? dt_local e
  | _, _ => false
  end.

Fixpoint py_eq (v w : pyval) {struct v} : bool :=
  let fix eq_list (l k : list pyval) {struct l} :=
    match l, k with
    | [], [] => true
    | x :: l, y :: k => py_eq x y && eq_list l k
    | _, _ => false
    end in
  match v, w with
  | PNone, PNone => true
  | PStr s, PStr t => bool_decide (s = t)
  | PDatetime d, PDatetime e => dt_eq d e
  | PList l, PList k | PTuple l, PTuple k => eq_list l k
  | POther m, POther n => m =? n
  | _, _ =>
      match as_number v, as_number w with
      | Some q, Some r => Qeq_bool q r
      | _, _ =>
          match as_buffer v, as_buffer w with
          | Some b, Some c => bool_decide (b = c)
          | _, _ => false
          end
      end
  end.

(** ** Containers *)

(** [iter(v)] *)
Definition py_iter (v : pyval) : result (list pyval) :=
  match v with
  | PList l | PTuple l | PSet l => Ok l
  | PDict d => Ok (map fst d)
  | PStr s => Ok (map (fun c => PStr [c]) s)
  | PBytes bs | PByteArray bs | PMemoryView bs => Ok (map (fun b => PInt (b2z b)) bs)
  | _ => Raise TypeError
  end.

(** [len(v)] *)
Definition py_len (v : pyval) : result Z :=
  match v with
  | PList l | PTuple l | PSet l => Ok (zlen l)
  | PDict d => Ok (zlen d)
  | PStr s => Ok (zlen s)
  | PBytes bs | PByteArray bs | PMemoryView bs => Ok (zlen bs)
  | _ => Raise TypeError
  end.

(** [d.get(key)] on a dict, whose keys compare by [==]. *)
Fixpoint dict_find (d : list (pyval * pyval)) (key : pyval) : option pyval :=
  match d with
  | [] => None
  | (k, v) :: d => if py_eq k key then Some v else dict_find d key
  end.

Lemma Qeq_bool_inject m n : Qeq_bool (inject_Z m) (inject_Z n) = (m =? n).
Proof. unfold Qeq_bool. cbn. by rewrite !Z.mul_1_r. Qed.

Lemma Qle_bool_inject m n : Qle_bool (inject_Z m) (inject_Z n) = (m <=? n).
Proof. unfold Qle_bool. cbn. by rewrite !Z.mul_1_r. Qed.

Lemma py_eq_int m n : py_eq (PInt m) (PInt n) = (m =? n).
Proof. cbn. apply Qeq_bool_inject. Qed.

Lemma py_eq_int_refl n : py_eq (PInt n) (PInt n) = true.
Proof. rewrite py_eq_int. apply Z.eqb_refl. Qed.

Lemma py_eq_str s t : py_eq (PStr s) (PStr t) = bool_decide (s = t).
Proof. done. Qed.

#[export] Hint Rewrite py_eq_int py_eq_str : cll.
