(* ===== verification/Json.v ===== *)
(** * JSON text

    The standard library's [json.dumps] with compact separators and
    [ensure_ascii=False], and [json.loads], on lists of code points. A float
    is kept as its literal: the package reads none and writes none. *)
From S2P Require Import Prelude Bytes.
Open Scope Z_scope.

Inductive json : Type :=
| JNull
| JBool (b : bool)
| JInt (n : Z)
| JFloat (literal : pystr)
| JStr (s : pystr)
| JList (l : list json)
| JDict (d : list (pystr * json)).

(** ** Decimal numbers: [str(n)] and [int(text)] *)
Fixpoint dec_digits (fuel : nat) (n : Z) : pystr :=
  match fuel with
  | O => []
  | S fuel => if n <? 10 then [48 + n] else dec_digits fuel (n / 10) ++ [48 + n mod 10]
  end.

Definition str_nat (n : Z) : pystr := dec_digits (S (Z.to_nat (Z.log2 n))) n.
Definition str_int (n : Z) : pystr := if n <? 0 then 45 :: str_nat (- n) else str_nat n.

Definition is_digit (c : Z) : bool := (48 <=? c) && (c <=? 57).
Definition dec_value (s : pystr) : Z := fold_left (fun acc c => acc * 10 + (c - 48)) s 0.

(** Longer digit strings are refused in both directions. *)
Definition MAX_STR_DIGITS : Z := 4300.

(** ** Writing *)
Definition escape (c : Z) : pystr :=
  if c =? 34 then [92; 34]
  else if c =? 92 then [92; 92]
  else if c =? 10 then [92; 110]
  else if c =? 13 then [92; 114]
  else if c =? 9 then [92; 116]
  else if c =? 8 then [92; 98]
  else if c =? 12 then [92; 102]
  else if c <? 32 then [92; 117; 48; 48; hex_digit (c / 16); hex_digit (c mod 16)]
  else [c].

(** The text between the quotes depends on [ensure_ascii]. *)
Definition quote_with (esc : Z -> pystr) (s : pystr) : pystr := [34] ++ concat (map esc s) ++ [34].

Fixpoint join (sep : pystr) (parts : list pystr) : pystr :=
  match parts with
  | [] => []
  | [p] => p
  | p :: parts => p ++ sep ++ join sep parts
  end.

Fixpoint dumps_with (esc : Z -> pystr) (float_text : pystr -> result pystr) (v : json) : result pystr :=
  match v with
  | JNull => Ok (str "null")
  | JBool b => Ok (if b then str "true" else str "false")
  | JInt n => if MAX_STR_DIGITS <? zlen (str_nat (Z.abs n)) then Raise ValueError else Ok (str_int n)
  | JFloat literal => float_text literal
  | JStr s => Ok (quote_with esc s)
  | JList l =>
      let! parts := map_result (dumps_with esc float_text) l in
      Ok ([91] ++ join [44] parts ++ [93])
  | JDict d =>
      let! parts := map_result (fun '(k, v) => let! t := dumps_with esc float_text v in Ok (quote_with esc k ++ [58] ++ t)) d in
      Ok ([123] ++ join [44] parts ++ [125])
  end.

Definition no_float (literal : pystr) : result pystr := Raise TypeError.
Definition dumps : json -> result pystr := dumps_with escape no_float.

(** ** Reading *)
Definition is_ws (c : Z) : bool := bool_decide (c ∈ [32; 9; 10; 13]).
Fixpoint skip_ws (s : pystr) : pystr :=
  match s with
  | c :: s' => if is_ws c then skip_ws s' else s
  | [] => []
  end.

Fixpoint span_digits (s : pystr) : pystr * pystr :=
  match s with
  | c :: s' => if is_digit c then let '(d, r) := span_digits s' in (c :: d, r) else ([], s)
  | [] => ([], [])
  end.

Definition eat (p s : pystr) : option pystr :=
  if bool_decide (take (length p) s = p) then Some (drop (length p) s) else None.

(** The integer part, then an optional fraction and an optional exponent. *)
Definition scan_fraction (s : pystr) : pystr * pystr :=
  match s with
  | c :: r =>
      if c =? 46 then match span_digits r with ([], _) => ([], s) | (d, r) => (46 :: d, r) end
      else ([], s)
  | [] => ([], [])
  end.

Definition scan_exponent (s : pystr) : pystr * pystr :=
  match s with
  | c :: r =>
      if (c =? 101) || (c =? 69) then
        let '(sign, r') := match r with x :: r' => if (x =? 43) || (x =? 45) then ([x], r') else ([], r) | [] => ([], r) end in
        match span_digits r' with ([], _) => ([], s) | (d, rest) => (c :: sign ++ d, rest) end
      else ([], s)
  | [] => ([], [])
  end.

Definition scan_integer (s : pystr) : option (pystr * pystr) :=
  match s with
  | c :: r =>
      if c =? 48 then Some ([48], r)
      else if is_digit c then Some (span_digits s)
      else None
  | [] => None
  end.

Definition scan_number (s : pystr) : result (json * pystr) :=
  let '(sign, s1) := match s with c :: r => if c =? 45 then ([45], r) else ([], s) | [] => ([], s) end in
  match scan_integer s1 with
  | None => Raise ValueError
  | Some (digits, r) =>
      let '(fraction, r) := scan_fraction r in
      let '(exponent, r) := scan_exponent r in
      match fraction ++ exponent with
      | [] =>
          if MAX_STR_DIGITS <? zlen digits then Raise ValueError
          else Ok (JInt (match sign with [] => dec_value digits | _ => - dec_value digits end), r)
      | tail => Ok (JFloat (sign ++ digits ++ tail), r)
      end
  end.

(** String contents: each code with whether it was written as [\uXXXX]. *)
Definition simple_escape (c : Z) : option Z :=
  if c =? 34 then Some 34 else if c =? 92 then Some 92 else if c =? 47 then Some 47
  else if c =? 98 then Some 8 else if c =? 102 then Some 12 else if c =? 110 then Some 10
  else if c =? 114 then Some 13 else if c =? 116 then Some 9 else None.

Definition hex4 (a b c d : Z) : option Z :=
  match hex_value a, hex_value b, hex_value c, hex_value d with
  | Some a, Some b, Some c, Some d => Some (((a * 16 + b) * 16 + c) * 16 + d)
  | _, _, _, _ => None
  end.

Definition more (c : Z * bool) (r : result (list (Z * bool) * pystr)) : result (list (Z * bool) * pystr) :=
  let! (l, rest) := r in Ok (c :: l, rest).

Fixpoint scan_string (s : pystr) : result (list (Z * bool) * pystr) :=
  match s with
  | [] => Raise ValueError
  | c :: s1 =>
      if c =? 34 then Ok ([], s1)
      else if c =? 92 then
        match s1 with
        | [] => Raise ValueError
        | e :: s2 =>
            if e =? 117 then
              match s2 with
              | a :: b :: c :: d :: s3 =>
                  match hex4 a b c d with
                  | Some u => more (u, true) (scan_string s3)
                  | None => Raise ValueError
                  end
              | _ => Raise ValueError
              end
            else
              match simple_escape e with
              | Some u => more (u, false) (scan_string s2)
              | None => Raise ValueError
              end
        end
      else if c <? 32 then Raise ValueError
      else more (c, false) (scan_string s1)
  end.

(** An escaped high surrogate joins the escaped low one after it. *)
Definition is_high (c : Z) : bool := (0xD800 <=? c) && (c <=? 0xDBFF).
Definition is_low (c : Z) : bool := (0xDC00 <=? c) && (c <=? 0xDFFF).
Fixpoint join_surrogates (l : list (Z * bool)) : pystr :=
  match l with
  | [] => []
  | (u, true) :: (((w, true) :: rest) as tail) =>
      if is_high u && is_low w then (0x10000 + (u - 0xD800) * 1024 + (w - 0xDC00)) :: join_surrogates rest
      else u :: join_surrogates tail
  | (u, _) :: tail => u :: join_surrogates tail
  end.

Definition scan_str (s : pystr) : result (pystr * pystr) :=
  let! (l, rest) := scan_string s in Ok (join_surrogates l, rest).

(** [d[key] = value] *)
Fixpoint dict_set (d : list (pystr * json)) (k : pystr) (v : json) : list (pystr * json) :=
  match d with
  | [] => [(k, v)]
  | (k', v') :: d => if bool_decide (k' = k) then (k, v) :: d else (k', v') :: dict_set d k v
  end.

Definition first_is (c : Z) (s : pystr) : bool :=
  match s with x :: _ => x =? c | [] => false end.

(** The scanner; each call on a value, an item or a member takes one unit of
    fuel and at least one character. *)
Fixpoint scan_value (fuel : nat) (s : pystr) : result (json * pystr) :=
  match fuel with
  | O => Raise OutOfFuel
  | S fuel =>
      match s with
      | [] => Raise ValueError
      | c :: r =>
          if c =? 34 then let! (t, r) := scan_str r in Ok (JStr t, r)
          else if c =? 123 then
            let r := skip_ws r in
            if first_is 125 r then Ok (JDict [], tail r)
            else let! (d, r) := scan_members fuel r [] in Ok (JDict d, r)
          else if c =? 91 then
            let r := skip_ws r in
            if first_is 93 r then Ok (JList [], tail r)
            else let! (l, r) := scan_items fuel r in Ok (JList l, r)
          else
            match eat (str "null") s, eat (str "true") s, eat (str "false") s,
                  eat (str "NaN") s, eat (str "Infinity") s, eat (str "-Infinity") s with
            | Some r, _, _, _, _, _ => Ok (JNull, r)
            | _, Some r, _, _, _, _ => Ok (JBool true, r)
            | _, _, Some r, _, _, _ => Ok (JBool false, r)
            | _, _, _, Some r, _, _ => Ok (JFloat (str "NaN"), r)
            | _, _, _, _, Some r, _ => Ok (JFloat (str "Infinity"), r)
            | _, _, _, _, _, Some r => Ok (JFloat (str "-Infinity"), r)
            | _, _, _, _, _, _ => scan_number s
            end
      end
  end
with scan_items (fuel : nat) (s : pystr) : result (list json * pystr) :=
  match fuel with
  | O => Raise OutOfFuel
  | S fuel =>
      let! (v, r) := scan_value fuel s in
      match skip_ws r with
      | c :: r =>
          if c =? 93 then Ok ([v], r)
          else if c =? 44 then let! (l, r) := scan_items fuel (skip_ws r) in Ok (v :: l, r)
          else Raise ValueError
      | [] => Raise ValueError
      end
  end
with scan_members (fuel : nat) (s : pystr) (acc : list (pystr * json))
    : result (list (pystr * json) * pystr) :=
  match fuel with
  | O => Raise OutOfFuel
  | S fuel =>
      match s with
      | q :: r =>
          if negb (q =? 34) then Raise ValueError
          else
            let! (k, r) := scan_str r in
            match skip_ws r with
            | colon :: r =>
                if negb (colon =? 58) then Raise ValueError
                else
                  let! (v, r) := scan_value fuel (skip_ws r) in
                  match skip_ws r with
                  | c :: r =>
                      if c =? 125 then Ok (dict_set acc k v, r)
                      else if c =? 44 then scan_members fuel (skip_ws r) (dict_set acc k v)
                      else Raise ValueError
                  | [] => Raise ValueError
                  end
            | [] => Raise ValueError
            end
      | [] => Raise ValueError
      end
  end.

Definition loads (s : pystr) : result json :=
  let s := skip_ws s in
  let! (v, r) := scan_value (S (2 * length s)) s in
  match skip_ws r with
  | [] => Ok v
  | _ => Raise ValueError
  end.
