(* ===== verification/JsonProps.v ===== *)
(** * JSON round trips

    What [loads] reads back from [dumps], the characters [dumps] writes, and
    that the reader always has enough fuel. *)
From S2P Require Import Prelude Bytes Text Json.
Open Scope Z_scope.

(** ** Induction over nested values *)
Lemma json_nested_ind (P : json -> Prop) :
  P JNull -> (forall b, P (JBool b)) -> (forall n, P (JInt n)) -> (forall l, P (JFloat l)) ->
  (forall s, P (JStr s)) -> (forall l, Forall P l -> P (JList l)) ->
  (forall d, Forall (fun kv => P kv.2) d -> P (JDict d)) -> forall v, P v.
Proof.
  intros Hn Hb Hi Hf Hs Hl Hd. fix IH 1. intros [| b | n | l | s | l | d].
  - exact Hn.
  - exact (Hb b).
  - exact (Hi n).
  - exact (Hf l).
  - exact (Hs s).
  - apply Hl. induction l as [|v l IHl]; constructor; [apply IH|exact IHl].
  - apply Hd. induction d as [|[k v] d IHd]; constructor; [apply IH|exact IHd].
Qed.

(** ** Decimal digits *)
Lemma dec_value_snoc s c : dec_value (s ++ [c]) = dec_value s * 10 + (c - 48).
Proof. unfold dec_value. by rewrite fold_left_app. Qed.

Lemma dec_digits_spec fuel n :
  0 <= n < 2 ^ Z.of_nat fuel ->
  dec_value (dec_digits fuel n) = n /\ Forall (fun c => is_digit c = true) (dec_digits fuel n) /\
  (forall k, n < 10 ^ Z.of_nat k -> (length (dec_digits fuel n) <= Nat.max 1 k)%nat).
Proof.
  revert n. induction fuel as [|fuel IH]; intros n Hn.
  { assert (n = 0) as -> by (cbn in Hn; lia). split_and!; [done|constructor|cbn; lia]. }
  cbn [dec_digits]. destruct (n <? 10) eqn:E; zbool.
  - split_and!; [unfold dec_value; cbn; lia| |cbn; lia].
    repeat constructor. unfold is_digit. apply andb_true_intro. split; apply Z.leb_le; lia.
  - pose proof (Z.div_mod n 10 ltac:(lia)). pose proof (Z.mod_pos_bound n 10 ltac:(lia)).
    assert (0 <= n / 10 < 2 ^ Z.of_nat fuel) as Hq.
    { rewrite Nat2Z.inj_succ, Z.pow_succ_r in Hn by lia. split; [apply Z.div_pos; lia|].
      apply Z.div_lt_upper_bound; lia. }
    destruct (IH _ Hq) as (Hv & Hd & Hl). split_and!.
    + rewrite dec_value_snoc, Hv. lia.
    + apply Forall_app. split; [done|]. repeat constructor. unfold is_digit.
      apply andb_true_intro. split; apply Z.leb_le; lia.
    + intros k Hk. rewrite length_app. cbn [length]. destruct k as [|k]; [cbn in Hk; lia|].
      rewrite Nat2Z.inj_succ, Z.pow_succ_r in Hk by lia.
      assert (n / 10 < 10 ^ Z.of_nat k) as Hk' by (apply Z.div_lt_upper_bound; lia).
      specialize (Hl k Hk'). destruct k as [|k]; [cbn in Hk; lia|]. lia.
Qed.

Lemma log2_fuel n : 0 <= n -> 0 <= n < 2 ^ Z.of_nat (S (Z.to_nat (Z.log2 n))).
Proof.
  intros Hn. split; [done|]. pose proof (Z.log2_nonneg n). rewrite Nat2Z.inj_succ, Z2Nat.id by lia.
  destruct (decide (n = 0)) as [->|]; [done|]. apply Z.log2_spec. lia.
Qed.

Lemma str_nat_value n : 0 <= n -> dec_value (str_nat n) = n.
Proof. intros Hn. by apply dec_digits_spec, log2_fuel. Qed.

Lemma str_nat_digits n : 0 <= n -> Forall (fun c => is_digit c = true) (str_nat n).
Proof. intros Hn. by apply dec_digits_spec, log2_fuel. Qed.

Lemma str_nat_length n k : 0 <= n < 10 ^ Z.of_nat k -> (length (str_nat n) <= Nat.max 1 k)%nat.
Proof. intros Hn. destruct (dec_digits_spec _ n (log2_fuel n (proj1 Hn))) as (_ & _ & H). apply H, Hn. Qed.

(** No leading zero: the only numeral starting with [0] is ["0"]. *)
Lemma dec_digits_head fuel n :
  0 <= n < 2 ^ Z.of_nat fuel -> fuel <> O -> exists c r, dec_digits fuel n = c :: r /\ is_digit c = true /\
  (c = 48 -> n = 0 /\ r = []).
Proof.
  revert n. induction fuel as [|fuel IH]; intros n Hn Hf; [done|]. cbn [dec_digits].
  destruct (n <? 10) eqn:E; zbool.
  - exists (48 + n), []. split_and!; [done| |intros; split; [lia|done]].
    unfold is_digit. apply andb_true_intro. split; apply Z.leb_le; lia.
  - pose proof (Z.div_mod n 10 ltac:(lia)). pose proof (Z.mod_pos_bound n 10 ltac:(lia)).
    assert (0 <= n / 10 < 2 ^ Z.of_nat fuel) as Hq.
    { rewrite Nat2Z.inj_succ, Z.pow_succ_r in Hn by lia. split; [apply Z.div_pos; lia|].
      apply Z.div_lt_upper_bound; lia. }
    destruct (IH (n / 10) Hq) as (c & r & -> & Hc & H48); [destruct fuel; [cbn in Hq; lia|done]|].
    exists c, (r ++ [48 + n mod 10]). split_and!; [done|done|]. intros [H' _]%H48. lia.
Qed.

Lemma str_nat_head n : 0 <= n -> exists c r, str_nat n = c :: r /\ is_digit c = true /\ (c = 48 -> n = 0 /\ r = []).
Proof. intros Hn. apply dec_digits_head; [by apply log2_fuel|done]. Qed.

(** ** Characters that end a number or are no whitespace *)
Definition stops (s : pystr) : Prop :=
  match s with c :: _ => is_digit c = false /\ c <> 46 /\ c <> 101 /\ c <> 69 | [] => True end.

Lemma span_digits_app d s :
  Forall (fun c => is_digit c = true) d -> stops s -> span_digits (d ++ s) = (d, s).
Proof.
  intros Hd Hs. induction Hd as [|c d Hc Hd IH]; cbn [app span_digits].
  - destruct s as [|c s]; [done|]. cbn. by destruct Hs as [-> _].
  - by rewrite Hc, IH.
Qed.

Lemma scan_fraction_stops s : stops s -> scan_fraction s = ([], s).
Proof. destruct s as [|c s]; [done|]. intros (_ & H & _). cbn. by rewrite (proj2 (Z.eqb_neq c 46)). Qed.

Lemma scan_exponent_stops s : stops s -> scan_exponent s = ([], s).
Proof.
  destruct s as [|c s]; [done|]. intros (_ & _ & H1 & H2). cbn.
  by rewrite (proj2 (Z.eqb_neq c 101)), (proj2 (Z.eqb_neq c 69)).
Qed.

Lemma scan_integer_str n s : 0 <= n -> stops s -> scan_integer (str_nat n ++ s) = Some (str_nat n, s).
Proof.
  intros Hn Hs. destruct (str_nat_head n Hn) as (c & r & E & Hc & H48). pose proof (str_nat_digits n Hn) as Hd.
  unfold scan_integer. rewrite E in *. cbn [app]. destruct (c =? 48) eqn:E0; zbool.
  - destruct (H48 E0) as [_ ->]. by rewrite E0.
  - rewrite Hc. change (c :: r ++ s) with ((c :: r) ++ s). by rewrite span_digits_app.
Qed.

Lemma scan_number_str n s :
  zlen (str_nat (Z.abs n)) <= MAX_STR_DIGITS -> stops s -> scan_number (str_int n ++ s) = Ok (JInt n, s).
Proof.
  intros Hlen Hs. unfold scan_number, str_int. destruct (n <? 0) eqn:E; zbool.
  - cbn [app]. rewrite Z.eqb_refl. rewrite Z.abs_neq in Hlen by lia.
    rewrite scan_integer_str, scan_fraction_stops, scan_exponent_stops by (done || lia). cbn [app].
    rw_bool (MAX_STR_DIGITS <? zlen (str_nat (- n))) false. rewrite str_nat_value by lia.
    do 3 f_equal. lia.
  - rewrite Z.abs_eq in Hlen by lia. destruct (str_nat_head n ltac:(lia)) as (c & r & Ec & Hc & _).
    assert (c <> 45) by (intros ->; done).
    assert (match str_nat n ++ s with c :: r => if c =? 45 then ([45], r) else ([], str_nat n ++ s)
            | [] => ([], str_nat n ++ s) end = ([], str_nat n ++ s)) as ->.
    { rewrite Ec. cbn [app]. by rewrite (proj2 (Z.eqb_neq c 45)). }
    rewrite scan_integer_str, scan_fraction_stops, scan_exponent_stops by (done || lia). cbn [app].
    rw_bool (MAX_STR_DIGITS <? zlen (str_nat n)) false. by rewrite str_nat_value by lia.
Qed.

(** ** Strings *)
Definition codes (s : pystr) : Prop := Forall (fun c => 0 <= c) s.

(** Text with a UTF-8 encoding: no unpaired surrogate. *)
Definition text (s : pystr) : Prop := is_Some (utf8_encode s).

Lemma text_codes s : text s -> codes s.
Proof.
  intros [bs Hs]. revert bs Hs. induction s as [|c s IH]; intros bs Hs; [constructor|]. cbn [utf8_encode] in Hs.
  destruct (utf8_char c) eqn:Ec; [|done]. destruct (utf8_encode s) eqn:Es; [|done]. constructor; [|by eapply IH].
  unfold utf8_char in Ec. destruct (c <? 0) eqn:E; [done|]. by apply Z.ltb_ge in E.
Qed.

Lemma text_app s k : text s -> text k -> text (s ++ k).
Proof.
  intros [b Hs] [b' Hk]. revert b Hs. induction s as [|c s IH]; intros b Hs; [by exists b'|].
  cbn [app utf8_encode] in Hs. unfold text. cbn [app utf8_encode]. destruct (utf8_char c); [|done].
  destruct (utf8_encode s) as [b0|] eqn:Es; [|done]. destruct (IH _ eq_refl) as [b1 ->]. by eexists.
Qed.

Lemma text_cons c s : text [c] -> text s -> text (c :: s).
Proof. apply (text_app [c]). Qed.

Lemma text_ascii s : Forall (fun c => 0 <= c < 128) s -> text s.
Proof. intros H. exists (map z2b s). by apply utf8_encode_ascii. Qed.

Lemma text_cons_inv c s : text (c :: s) -> text [c] /\ text s.
Proof.
  intros [b Hs]. cbn [utf8_encode] in Hs. unfold text. cbn [utf8_encode]. destruct (utf8_char c); [|done].
  destruct (utf8_encode s); [|done]. split; by eexists.
Qed.

(** Control characters without a short escape are written as [\u00XX]. *)
Definition as_unicode (c : Z) : bool :=
  (c <? 32) && negb (bool_decide (c ∈ [8; 9; 10; 12; 13])).

Lemma scan_escape c rest :
  0 <= c -> scan_string (escape c ++ rest) = more (c, as_unicode c) (scan_string rest).
Proof.
  intros Hc. unfold escape, as_unicode.
  destruct (c =? 34) eqn:E1; zbool; [by subst c|]. destruct (c =? 92) eqn:E2; zbool; [by subst c|].
  destruct (c =? 10) eqn:E3; zbool; [by subst c|]. destruct (c =? 13) eqn:E4; zbool; [by subst c|].
  destruct (c =? 9) eqn:E5; zbool; [by subst c|]. destruct (c =? 8) eqn:E6; zbool; [by subst c|].
  destruct (c =? 12) eqn:E7; zbool; [by subst c|].
  rewrite (bool_decide_false (c ∈ _)) by (set_unfold; lia).
  destruct (c <? 32) eqn:E8; zbool; cbn [andb negb].
  - assert (0 <= c / 16 < 16) by (split; [apply Z.div_pos|apply Z.div_lt_upper_bound]; lia).
    pose proof (Z.mod_pos_bound c 16 ltac:(lia)). pose proof (Z.div_mod c 16 ltac:(lia)).
    change (scan_string ([92; 117; 48; 48; hex_digit (c / 16); hex_digit (c mod 16)] ++ rest)) with
      (match hex4 48 48 (hex_digit (c / 16)) (hex_digit (c mod 16)) with
       | Some u => more (u, true) (scan_string rest) | None => Raise ValueError end).
    unfold hex4. rewrite !hex_value_digit by done. cbn [hex_value Z.leb Z.compare andb].
    change (hex_value 48) with (Some 0). do 3 f_equal. lia.
  - cbn [app scan_string]. rewrite (proj2 (Z.eqb_neq c 34)), (proj2 (Z.eqb_neq c 92)) by done.
    by rw_bool (c <? 32) false.
Qed.

Lemma scan_string_quoted s rest :
  codes s -> scan_string (concat (map escape s) ++ 34 :: rest) = Ok (map (fun c => (c, as_unicode c)) s, rest).
Proof.
  induction 1 as [|c s Hc Hs IH]; [done|]. cbn [map concat]. rewrite <- app_assoc, scan_escape by done.
  by rewrite IH.
Qed.

Lemma join_surrogates_cons u b l :
  b = false \/ is_high u = false -> join_surrogates ((u, b) :: l) = u :: join_surrogates l.
Proof.
  intros H. destruct b; [|done]. destruct H as [|H]; [done|].
  destruct l as [|[w []] l]; cbn; [done| |done]. by rewrite H.
Qed.

Lemma as_unicode_low c : as_unicode c = false \/ is_high c = false.
Proof.
  destruct (as_unicode c) eqn:E; [right|by left]. unfold as_unicode in E. zbool. unfold is_high.
  by rw_bool (0xD800 <=? c) false.
Qed.

Lemma join_surrogates_escaped s : join_surrogates (map (fun c => (c, as_unicode c)) s) = s.
Proof.
  induction s as [|c s IH]; [done|]. cbn [map]. by rewrite join_surrogates_cons, IH by apply as_unicode_low.
Qed.

Lemma scan_str_quoted s rest : codes s -> scan_str (concat (map escape s) ++ 34 :: rest) = Ok (s, rest).
Proof. intros Hs. unfold scan_str. by rewrite scan_string_quoted, join_surrogates_escaped. Qed.

Lemma quote_eq esc s rest : quote_with esc s ++ rest = 34 :: concat (map esc s) ++ 34 :: rest.
Proof. unfold quote_with. by rewrite <- !app_assoc. Qed.

(** ** Values *)

(** What survives a round trip: no float, integers of at most
    [MAX_STR_DIGITS] digits, text, distinct keys. *)
Inductive writable : json -> Prop :=
| w_null : writable JNull
| w_bool b : writable (JBool b)
| w_int n : zlen (str_nat (Z.abs n)) <= MAX_STR_DIGITS -> writable (JInt n)
| w_str s : text s -> writable (JStr s)
| w_list l : Forall writable l -> writable (JList l)
| w_dict d : NoDup (map fst d) -> Forall (fun kv => text kv.1 /\ writable kv.2) d -> writable (JDict d).

Lemma eat_ne x p c s : x <> c -> eat (x :: p) (c :: s) = None.
Proof. intros H. unfold eat. cbn [length firstn]. rewrite bool_decide_false; [done|]. congruence. Qed.

Definition starts (s : pystr) : Prop :=
  match s with c :: _ => is_ws c = false /\ c <> 93 /\ c <> 125 | [] => False end.

Lemma digit_range c : is_digit c = true <-> 48 <= c <= 57.
Proof. unfold is_digit. rewrite andb_true_iff, !Z.leb_le. done. Qed.

Lemma str_int_head n : exists c r, str_int n = c :: r /\ (c = 45 /\ 0 < - n \/ 48 <= c <= 57).
Proof.
  unfold str_int. destruct (n <? 0) eqn:E; zbool.
  - exists 45, (str_nat (- n)). split; [done|]. left. split; [done|lia].
  - destruct (str_nat_head n ltac:(lia)) as (c & r & -> & Hc & _). exists c, r. split; [done|].
    right. by apply digit_range.
Qed.

Lemma is_ws_false c : c <> 32 -> c <> 9 -> c <> 10 -> c <> 13 -> is_ws c = false.
Proof. intros. unfold is_ws. apply bool_decide_false. set_unfold. lia. Qed.

(** The writer with any escaping of characters that the reader undoes. *)
Section writer.
Context (esc : Z -> pystr).
Hypothesis scan_str_quoted : forall s rest, text s -> scan_str (concat (map esc s) ++ 34 :: rest) = Ok (s, rest).
#[local] Abbreviation dumps := (dumps_with esc no_float).
#[local] Abbreviation quote := (quote_with esc).

Lemma dumps_starts v t : dumps v = Ok t -> starts t.
Proof.
  destruct v as [| [] | n | l | s | l | d]; cbn [dumps_with].
  - by intros [= <-].
  - by intros [= <-].
  - by intros [= <-].
  - case_match; [done|]. intros [= <-]. destruct (str_int_head n) as (c & r & -> & Hc).
    split; [apply is_ws_false; lia|lia].
  - done.
  - by intros [= <-].
  - destruct (map_result _ l); [|done]. by intros [= <-].
  - destruct (map_result _ d); [|done]. by intros [= <-].
Qed.

Lemma skip_ws_starts s : starts s -> skip_ws s = s.
Proof. destruct s as [|c s]; [done|]. intros [H _]. cbn. by rewrite H. Qed.

Lemma starts_app s k : starts s -> starts (s ++ k).
Proof. by destruct s. Qed.

Lemma stops_sep c s : (c = 44 \/ c = 93 \/ c = 125) -> stops (c :: s).
Proof.
  intros Hc. split_and!; try lia. destruct (is_digit c) eqn:E; [|done]. apply digit_range in E. lia.
Qed.

Lemma scan_value_num fuel n s :
  zlen (str_nat (Z.abs n)) <= MAX_STR_DIGITS -> stops s ->
  scan_value (S fuel) (str_int n ++ s) = Ok (JInt n, s).
Proof.
  intros Hlen Hs. rewrite <- (scan_number_str n s) by done. destruct (str_int_head n) as (c & r & E & Hc).
  rewrite E. cbn [app scan_value].
  rewrite (proj2 (Z.eqb_neq c 34)), (proj2 (Z.eqb_neq c 123)), (proj2 (Z.eqb_neq c 91)) by lia.
  change (str "null") with (110 :: str "ull"). change (str "true") with (116 :: str "rue").
  change (str "false") with (102 :: str "alse"). change (str "NaN") with (78 :: str "aN").
  change (str "Infinity") with (73 :: str "nfinity"). rewrite !eat_ne by lia.
  destruct Hc as [[-> Hn]|Hc].
  - change (str "-Infinity") with (45 :: str "Infinity").
    assert (exists d r', r = d :: r' /\ 48 <= d <= 57) as (d & r' & -> & Hd).
    { unfold str_int in E. rewrite (proj2 (Z.ltb_lt n 0)) in E by lia. injection E as <-.
      destruct (str_nat_head (- n) ltac:(lia)) as (d & r' & -> & Hd & _). exists d, r'.
      split; [done|]. by apply digit_range. }
    assert (eat (45 :: str "Infinity") (45 :: (d :: r') ++ s) = None) as ->; [|done].
    unfold eat. cbn [str length firstn app]. rewrite bool_decide_false; [done|]. intros [= -> _]. lia.
  - change (str "-Infinity") with (45 :: str "Infinity"). by rewrite eat_ne by lia.
Qed.

(** [scan_value] reads back what [dumps] wrote for [v], before anything that
    ends a number. *)
Definition reads_back (v : json) : Prop :=
  forall t fuel rest, dumps v = Ok t -> writable v -> stops rest -> (2 * length t <= fuel)%nat ->
  scan_value fuel (t ++ rest) = Ok (v, rest).

Lemma join_cons sep p parts : parts <> [] -> join sep (p :: parts) = p ++ sep ++ join sep parts.
Proof. by destruct parts. Qed.

Lemma items_read_back l parts fuel rest :
  Forall reads_back l -> Forall writable l -> l <> [] -> map_result dumps l = Ok parts ->
  (2 * length (join [44%Z] parts) < fuel)%nat ->
  scan_items fuel (join [44] parts ++ 93 :: rest) = Ok (l, rest).
Proof.
  revert parts fuel. induction l as [|v l IH]; intros parts fuel Hr Hw Hne Hp Hf; [done|].
  apply Forall_cons in Hr as [Hv Hr], Hw as [Hwv Hw].
  apply map_result_cons_Ok in Hp as (t & parts' & Ht & Hp & ->).
  destruct fuel as [|fuel]; [lia|]. cbn [scan_items]. destruct l as [|v' l].
  - cbn in Hp. injection Hp as <-. cbn [join] in *. rewrite (Hv t) by (done || lia || apply stops_sep; lia). done.
  - assert (parts' <> []) as Hne'.
    { intros ->. apply map_result_length in Hp. done. }
    rewrite join_cons in Hf |- * by done. rewrite !length_app in Hf. cbn [length] in Hf.
    rewrite <- app_assoc, (Hv t); [|done|done|apply stops_sep; lia|lia].
    assert (starts (join [44] parts')) as Hs.
    { apply map_result_cons_Ok in Hp as (t' & parts'' & Ht' & _ & ->). apply dumps_starts in Ht'.
      destruct parts''; [done|]. by apply starts_app. }
    cbn [app skip_ws]. rewrite is_ws_false by lia. cbn [Z.eqb]. change (44 =? 93) with false.
    change (44 =? 44) with true. cbv iota. rewrite skip_ws_starts by by apply starts_app.
    rewrite IH; [done|done|done|done|done|lia].
Qed.

Lemma dict_set_new d k v : k ∉ map fst d -> dict_set d k v = d ++ [(k, v)].
Proof.
  induction d as [|[k' v'] d IH]; intros Hk; [done|]. cbn [map fst] in Hk. apply not_elem_of_cons in Hk as [Hne Hk].
  cbn [dict_set]. rewrite bool_decide_false by congruence. by rewrite IH.
Qed.

#[local] Arguments quote_with : simpl never.
Definition member (kv : pystr * json) : result pystr :=
  let '(k, v) := kv in let! t := dumps v in Ok (quote k ++ [58] ++ t).

Lemma members_read_back d parts fuel rest acc :
  Forall (fun kv => reads_back kv.2) d -> Forall (fun kv => text kv.1 /\ writable kv.2) d -> d <> [] ->
  NoDup (map fst (acc ++ d)) -> map_result member d = Ok parts ->
  (2 * length (join [44%Z] parts) < fuel)%nat ->
  scan_members fuel (join [44] parts ++ 125 :: rest) acc = Ok (acc ++ d, rest).
Proof.
  revert parts fuel acc. induction d as [|[k v] d IH]; intros parts fuel acc Hr Hw Hne Hnd Hp Hf; [done|].
  apply Forall_cons in Hr as [Hv Hr], Hw as [[Hk Hwv] Hw]. cbn [fst snd] in *.
  apply map_result_cons_Ok in Hp as (m & parts' & Hm & Hp & ->). cbn [member] in Hm.
  destruct (dumps v) as [t|] eqn:Ht; [|done]. assert (m = quote k ++ [58] ++ t) as -> by congruence.
  assert (k ∉ map fst acc) as Hk'.
  { rewrite map_app in Hnd. apply NoDup_app in Hnd as (_ & Hd & _). intros Hin.
    apply (Hd k Hin). cbn [map fst]. by left. }
  destruct fuel as [|fuel]; [lia|]. cbn [scan_members].
  assert (forall tail, scan_value fuel (skip_ws ((t ++ tail))) = scan_value fuel (t ++ tail)) as Hskip.
  { intros tail. apply dumps_starts in Ht. by rewrite skip_ws_starts by by apply starts_app. }
  destruct d as [|kv d].
  - cbn in Hp. injection Hp as <-. cbn [join] in *. repeat (rewrite ?length_app in Hf; cbn [length] in Hf).
    rewrite <- !app_assoc, quote_eq. change (34 =? 34) with true. cbn [negb].
    rewrite scan_str_quoted by done. cbn [app skip_ws]. rewrite is_ws_false by lia.
    change (58 =? 58) with true. cbn [negb]. rewrite Hskip, (Hv t) by (done || lia || apply stops_sep; lia).
    cbn [skip_ws]. rewrite is_ws_false by lia. change (125 =? 125) with true. by rewrite dict_set_new.
  - assert (parts' <> []) as Hne' by (intros ->; by apply map_result_length in Hp).
    rewrite join_cons in Hf |- * by done. rewrite !length_app in Hf. cbn [length] in Hf.
    rewrite <- !app_assoc, quote_eq. change (34 =? 34) with true. cbn [negb].
    rewrite scan_str_quoted by done. cbn [app skip_ws]. rewrite is_ws_false by lia.
    change (58 =? 58) with true. cbn [negb]. rewrite Hskip, (Hv t); [|done|done|apply stops_sep; lia|lia].
    cbn [skip_ws]. rewrite is_ws_false by lia. change (44 =? 125) with false. change (44 =? 44) with true. cbv iota.
    assert (starts (join [44] parts')) as Hs.
    { destruct kv as [k' v']. apply map_result_cons_Ok in Hp as (m' & parts'' & Hm' & _ & ->).
      cbn [member] in Hm'. destruct (dumps v'); [|done]. injection Hm' as <-.
      destruct parts''; unfold quote_with; cbn; (split; [apply is_ws_false; lia|lia]). }
    rewrite skip_ws_starts, dict_set_new by (done || by apply starts_app).
    rewrite IH; [by rewrite <- app_assoc|done|done|done|by rewrite <- app_assoc|done|lia].
Qed.

Lemma dumps_nonempty v t : dumps v = Ok t -> (0 < length t)%nat.
Proof. intros H. apply dumps_starts in H. destruct t; [done|cbn; lia]. Qed.

Lemma first_is_ne c s : starts s -> c = 93 \/ c = 125 -> first_is c s = false.
Proof. destruct s as [|x s]; [done|]. intros (_ & H1 & H2) Hc. cbn. apply Z.eqb_neq. lia. Qed.

Lemma join_starts sep p parts : starts p -> starts (join sep (p :: parts)).
Proof. intros Hp. destruct parts; [done|]. by apply starts_app. Qed.

Lemma member_starts kv m : member kv = Ok m -> starts m.
Proof. destruct kv as [k v]. cbn. destruct (dumps v); [|done]. by intros [= <-]. Qed.

Lemma scan_dumps v : reads_back v.
Proof.
  induction v as [| b | n | l | s | l IH | d IH] using json_nested_ind; intros t fuel rest Ht Hw Hs Hf;
    pose proof (dumps_nonempty _ _ Ht); (destruct fuel as [|fuel]; [lia|]); cbn [dumps_with] in Ht.
  - by injection Ht as <-.
  - by destruct b; injection Ht as <-.
  - case_match; [done|]. injection Ht as <-. zbool. by apply scan_value_num.
  - done.
  - injection Ht as <-. inversion Hw; subst. rewrite quote_eq. cbn [scan_value Z.eqb Pos.eqb].
    by rewrite scan_str_quoted.
  - destruct (map_result dumps l) as [parts|] eqn:Hp; [|done]. injection Ht as <-. inversion Hw; subst.
    cbn [app scan_value Z.eqb Pos.eqb]. destruct l as [|v l]; [cbn in Hp; by injection Hp as <-|].
    apply map_result_cons_Ok in Hp as Hp'. destruct Hp' as (p & parts' & Hd & _ & ->).
    assert (starts (join [44] (p :: parts'))) as Hst by (apply join_starts; by eapply dumps_starts).
    repeat (rewrite ?length_app in Hf; cbn [length] in Hf). rewrite <- app_assoc. cbn [app].
    rewrite skip_ws_starts, first_is_ne by (lia || by apply starts_app).
    rewrite (items_read_back (v :: l)); [done|done|done|done|done|lia].
  - change (map_result _ d) with (map_result member d) in Ht.
    destruct (map_result member d) as [parts|] eqn:Hp; [|done]. injection Ht as <-. inversion Hw; subst.
    cbn [app scan_value Z.eqb Pos.eqb]. destruct d as [|kv d]; [cbn in Hp; by injection Hp as <-|].
    apply map_result_cons_Ok in Hp as Hp'. destruct Hp' as (p & parts' & Hd & _ & ->).
    assert (starts (join [44] (p :: parts'))) as Hst by (apply join_starts; by eapply member_starts).
    repeat (rewrite ?length_app in Hf; cbn [length] in Hf). rewrite <- app_assoc. cbn [app].
    rewrite skip_ws_starts, first_is_ne by (lia || by apply starts_app).
    rewrite (members_read_back (kv :: d)); [done|done|done|done|done|done|lia].
Qed.

(** [loads] inverts [dumps]. *)
Lemma loads_dumps_with v t : dumps v = Ok t -> writable v -> loads t = Ok v.
Proof.
  intros Ht Hw. unfold loads. rewrite skip_ws_starts by by eapply dumps_starts.
  rewrite <- (app_nil_r t) at 2. by rewrite (scan_dumps v t) by (done || lia).
Qed.
End writer.

Lemma loads_dumps v t : dumps v = Ok t -> writable v -> loads t = Ok v.
Proof. apply loads_dumps_with. intros s rest Hs%text_codes. by apply scan_str_quoted. Qed.

(** ** Fuel *)

(** Every scan consumes input, and twice the length is enough fuel. *)
Definition scans {A} (s : pystr) (r : result (A * pystr)) : Prop :=
  match r with
  | Ok (_, rest) => (length rest < length s)%nat
  | Raise e => e = ValueError
  end.

Lemma skip_ws_length s : (length (skip_ws s) <= length s)%nat.
Proof. induction s as [|c s IH]; [done|]. cbn. destruct (is_ws c); cbn; lia. Qed.

Lemma scan_string_scans s : scans s (scan_string s).
Proof.
  induction s as [[|c s] IH] using (induction_ltof1 _ (@length Z)); unfold ltof in IH; cbn [scan_string]; [done|].
  assert (forall k u, (length k < length (c :: s))%nat -> scans (c :: s) (more u (scan_string k))) as Hmore.
  { intros k u Hk. specialize (IH k Hk). unfold scans, more in *.
    destruct (scan_string k) as [[l rest]|]; [lia|done]. }
  destruct (c =? 34); [cbn; lia|]. destruct (c =? 92); [|destruct (c <? 32); [done|apply Hmore; cbn; lia]].
  destruct s as [|e s]; [done|]. destruct (e =? 117).
  - destruct s as [|a [|b [|c' [|d s]]]]; try done. destruct (hex4 a b c' d); [|done]. apply Hmore. cbn. lia.
  - destruct (simple_escape e); [|done]. apply Hmore. cbn. lia.
Qed.

Lemma scan_str_scans s : scans s (scan_str s).
Proof.
  unfold scan_str. pose proof (scan_string_scans s) as H. by destruct (scan_string s) as [[l rest]|].
Qed.

Lemma eat_length p s r : eat p s = Some r -> p <> [] -> (length r < length s)%nat.
Proof.
  unfold eat. case_bool_decide as E; [|done]. intros [= <-] Hp. rewrite length_drop.
  assert (length (take (length p) s) = length p) as Hl by by rewrite E. rewrite length_take in Hl.
  destruct p; [done|]. cbn [length] in *. lia.
Qed.

Lemma span_digits_length s : (length (span_digits s).1 + length (span_digits s).2 = length s)%nat.
Proof.
  induction s as [|c s IH]; [done|]. cbn. destruct (is_digit c); [|done].
  destruct (span_digits s). cbn in *. lia.
Qed.

Lemma scan_fraction_length s : (length (scan_fraction s).2 <= length s)%nat.
Proof.
  destruct s as [|c s]; [done|]. cbn. destruct (c =? 46); [|done]. pose proof (span_digits_length s).
  destruct (span_digits s) as [[|? ?] ?]; cbn in *; lia.
Qed.

Lemma scan_exponent_length s : (length (scan_exponent s).2 <= length s)%nat.
Proof.
  destruct s as [|c s]; [done|]. cbn. destruct (_ || _); [|done].
  assert (forall sign k, (length k <= length s)%nat ->
    (length (match span_digits k with ([], _) => ([], c :: s) | (d, rest) => (c :: sign ++ d, rest) end).2
     <= S (length s))%nat) as H.
  { intros sign k Hk. pose proof (span_digits_length k). destruct (span_digits k) as [[|? ?] ?]; cbn in *; lia. }
  destruct s as [|x s]; [exact (H [] [] (le_n _))|]. destruct (_ || _); apply H; cbn; lia.
Qed.

Lemma scan_number_scans s : scans s (scan_number s).
Proof.
  unfold scan_number. set (p := match s with [] => _ | _ => _ end).
  assert (length p.2 <= length s)%nat as Hp.
  { subst p. destruct s as [|c s]; [done|]. destruct (c =? 45); cbn; lia. }
  destruct p as [sign s1]. cbn [snd] in Hp. destruct (scan_integer s1) as [[digits r]|] eqn:Ei; [|done].
  assert (length r < length s1)%nat as Hr.
  { unfold scan_integer in Ei. destruct s1 as [|c s1]; [done|]. destruct (c =? 48).
    - injection Ei as <- <-. cbn. lia.
    - destruct (is_digit c) eqn:Ed; [|done]. pose proof (span_digits_length (c :: s1)) as Hl.
      assert (span_digits (c :: s1) = (digits, r)) as Ei' by congruence. clear Ei. rename Ei' into Ei.
      rewrite Ei in Hl. cbn [fst snd] in Hl. cbn [span_digits] in Ei. rewrite Ed in Ei. destruct (span_digits s1). injection Ei as <- <-. cbn in *. lia. }
  pose proof (scan_fraction_length r) as H1. destruct (scan_fraction r) as [fr r1]. cbn [snd] in H1.
  pose proof (scan_exponent_length r1) as H2. destruct (scan_exponent r1) as [ex r2]. cbn [snd] in H2.
  destruct (fr ++ ex); [destruct (_ <? _); [done|cbn; lia]|cbn; lia].
Qed.

Lemma scan_total fuel :
  (forall s, (2 * length s < fuel)%nat -> scans s (scan_value fuel s)) /\
  (forall s, (2 * length s + 1 < fuel)%nat -> scans s (scan_items fuel s)) /\
  (forall s acc, (2 * length s < fuel)%nat -> scans s (scan_members fuel s acc)).
Proof.
  induction fuel as [|fuel (IHv & IHi & IHm)]; [split_and!; intros; lia|]. split_and!.
  - intros [|c s] Hf; cbn [scan_value]; [done|]. cbn [length] in Hf. destruct (c =? 34).
    { pose proof (scan_str_scans s) as H. destruct (scan_str s) as [[t r]|]; [cbn in *; lia|done]. }
    pose proof (skip_ws_length s) as Hws. destruct (c =? 123).
    { destruct (first_is 125 (skip_ws s)); [destruct (skip_ws s); cbn in *; lia|].
      specialize (IHm (skip_ws s) [] ltac:(lia)).
      destruct (scan_members _ _ _) as [[d r]|]; [cbn in *; lia|done]. }
    destruct (c =? 91).
    { destruct (first_is 93 (skip_ws s)); [destruct (skip_ws s); cbn in *; lia|].
      specialize (IHi (skip_ws s) ltac:(lia)).
      destruct (scan_items _ _) as [[d r]|]; [cbn in *; lia|done]. }
    repeat (match goal with |- context [match eat ?p ?s with _ => _ end] =>
      let E := fresh in destruct (eat p s) eqn:E end; [by eapply eat_length|]).
    apply scan_number_scans.
  - intros s Hf. cbn [scan_items]. specialize (IHv s ltac:(lia)).
    destruct (scan_value fuel s) as [[v r]|]; [|done]. cbn in IHv. pose proof (skip_ws_length r).
    destruct (skip_ws r) as [|c r'] eqn:Er; [done|]. cbn [length] in *. destruct (c =? 93); [cbn; lia|].
    destruct (c =? 44); [|done]. pose proof (skip_ws_length r'). specialize (IHi (skip_ws r') ltac:(lia)).
    destruct (scan_items _ _) as [[l r'']|]; [cbn in *; lia|done].
  - intros [|q s] acc Hf; cbn [scan_members]; [done|]. cbn [length] in Hf. destruct (negb (q =? 34)); [done|].
    pose proof (scan_str_scans s) as Hs. destruct (scan_str s) as [[k r]|]; [|done]. cbn in Hs.
    pose proof (skip_ws_length r). destruct (skip_ws r) as [|colon r1]; [done|]. cbn [length] in *.
    destruct (negb (colon =? 58)); [done|]. pose proof (skip_ws_length r1).
    specialize (IHv (skip_ws r1) ltac:(lia)). destruct (scan_value fuel _) as [[v r2]|]; [|done]. cbn in IHv.
    pose proof (skip_ws_length r2). destruct (skip_ws r2) as [|c r3]; [done|]. cbn [length] in *.
    destruct (c =? 125); [cbn; lia|]. destruct (c =? 44); [|done]. pose proof (skip_ws_length r3).
    specialize (IHm (skip_ws r3) (dict_set acc k v) ltac:(lia)).
    destruct (scan_members _ _ _) as [[d r4]|]; [cbn in *; lia|done].
Qed.

Lemma loads_raise s e : loads s = Raise e -> e = ValueError.
Proof.
  unfold loads. destruct (scan_total (S (2 * length (skip_ws s)))) as [H _].
  specialize (H (skip_ws s) ltac:(lia)). destruct (scan_value _ _) as [[v r]|]; [|by intros [= <-]].
  destruct (skip_ws r); [done|by intros [= <-]].
Qed.

Lemma loads_total s : loads s <> Raise OutOfFuel.
Proof.
  unfold loads. destruct (scan_total (S (2 * length (skip_ws s)))) as [H _].
  specialize (H (skip_ws s) ltac:(lia)). destruct (scan_value _ _) as [[v r]|]; [by destruct (skip_ws r)|].
  cbn in H. congruence.
Qed.

(** ** Texts that are read are no longer than the input *)

(** A text, or a text that is a member's value, of at most [n] characters. *)
Definition text_le (n : nat) (v : json) : Prop := match v with JStr s => (length s <= n)%nat | _ => True end.
Definition texts_le (n : nat) (v : json) : Prop :=
  match v with JDict d => Forall (fun m : pystr * json => text_le n m.2) d | v => text_le n v end.

Lemma join_surrogates_length l : (length (join_surrogates l) <= length l)%nat.
Proof.
  induction l as [[|[u b] l] IH] using (induction_ltof1 _ (@length (Z * bool))); unfold ltof in IH; [done|].
  assert (length (join_surrogates l) <= length l)%nat as Hl by (apply IH; cbn; lia).
  destruct b; cbn [join_surrogates length]; [|lia]. destruct l as [|[w []] l]; [cbn in *; lia| |cbn [length] in *; lia].
  destruct (is_high u && is_low w); [|cbn [length] in *; lia].
  assert (length (join_surrogates l) <= length l)%nat by (apply IH; cbn; lia). cbn [length]. lia.
Qed.

Lemma scan_string_text s l r : scan_string s = Ok (l, r) -> (length l + length r < length s)%nat.
Proof.
  revert l r. induction s as [[|c s] IH] using (induction_ltof1 _ (@length Z)); unfold ltof in IH; intros l r; cbn [scan_string]; [done|].
  assert (forall k u, (length k < length (c :: s))%nat -> more u (scan_string k) = Ok (l, r) ->
    (length l + length r < S (length k))%nat) as Hmore.
  { intros k u Hk. unfold more. destruct (scan_string k) as [[l' r']|] eqn:E; [|done]. intros [= <- <-].
    specialize (IH k Hk _ _ E). cbn. lia. }
  destruct (c =? 34); [intros [= <- <-]; cbn; lia|].
  destruct (c =? 92); [|destruct (c <? 32); [done|intros H; apply Hmore in H; cbn in *; lia]].
  destruct s as [|e s]; [done|]. destruct (e =? 117).
  - destruct s as [|a [|b [|c' [|d s]]]]; try done. destruct (hex4 a b c' d); [|done].
    intros H; apply Hmore in H; cbn in *; lia.
  - destruct (simple_escape e); [|done]. intros H; apply Hmore in H; cbn in *; lia.
Qed.

Lemma scan_str_text s t r : scan_str s = Ok (t, r) -> (length t + length r < length s)%nat.
Proof.
  unfold scan_str. destruct (scan_string s) as [[l r']|] eqn:E; [|done]. intros [= <- <-].
  apply scan_string_text in E. pose proof (join_surrogates_length l). lia.
Qed.

Lemma dict_set_Forall (P : pystr * json -> Prop) d k v : Forall P d -> P (k, v) -> Forall P (dict_set d k v).
Proof.
  intros Hd Hv. induction Hd as [|[k' v'] d Hk Hd IH]; cbn [dict_set]; [by repeat constructor|].
  case_bool_decide; by constructor.
Qed.

Lemma texts_le_text n v : texts_le n v -> text_le n v.
Proof. by destruct v. Qed.

Lemma scan_texts fuel n :
  (forall s v r, (length s <= n)%nat -> scan_value fuel s = Ok (v, r) -> texts_le n v /\ (length r <= length s)%nat) /\
  (forall s l r, (length s <= n)%nat -> scan_items fuel s = Ok (l, r) -> (length r <= length s)%nat) /\
  (forall s acc d r, (length s <= n)%nat -> Forall (fun m => text_le n m.2) acc -> scan_members fuel s acc = Ok (d, r) ->
     Forall (fun m => text_le n m.2) d /\ (length r <= length s)%nat).
Proof.
  induction fuel as [|fuel (IHv & IHi & IHm)]; [done|]. split_and!.
  - intros [|c s] v r Hn; cbn [scan_value]; [done|]. cbn [length] in *. destruct (c =? 34).
    { destruct (scan_str s) as [[t r']|] eqn:E; [|done]. intros [= <- <-]. apply scan_str_text in E. cbn. lia. }
    pose proof (skip_ws_length s) as Hws. destruct (c =? 123).
    { destruct (first_is 125 (skip_ws s)).
      { intros [= <- <-]. split; [constructor|]. destruct (skip_ws s); cbn in *; lia. }
      destruct (scan_members _ _ _) as [[d r']|] eqn:E; [|done]. intros [= <- <-].
      apply IHm in E as [? ?]; [split; [done|lia]|lia|constructor]. }
    destruct (c =? 91).
    { destruct (first_is 93 (skip_ws s)).
      { intros [= <- <-]. split; [done|]. destruct (skip_ws s); cbn in *; lia. }
      destruct (scan_items _ _) as [[l r']|] eqn:E; [|done]. intros [= <- <-]. apply IHi in E; [split; [done|lia]|lia]. }
    repeat (match goal with |- context [match eat ?p ?s with _ => _ end] =>
      let E := fresh in destruct (eat p s) eqn:E end;
      [intros [= <- <-]; split; [done|]; match goal with H : eat _ _ = Some _ |- _ => apply eat_length in H; [cbn in *; lia|done] end|]).
    intros E. pose proof (scan_number_scans (c :: s)) as Hs. rewrite E in Hs. cbn in Hs. split; [|lia].
    revert E. unfold scan_number. destruct (if c =? 45 then _ else _) as [sg s1]. destruct (scan_integer s1) as [[ds r1]|]; [|done].
    destruct (scan_fraction r1). destruct (scan_exponent _). destruct (_ ++ _); [destruct (_ <? _); [done|]|]; by intros [= <- _].
  - intros s l r Hn. cbn [scan_items]. destruct (scan_value fuel s) as [[v r1]|] eqn:Ev; [|done].
    apply IHv in Ev as [_ Hr]; [|done]. pose proof (skip_ws_length r1). destruct (skip_ws r1) as [|c r2]; [done|].
    cbn [length] in *. destruct (c =? 93); [intros [= <- <-]; lia|]. destruct (c =? 44); [|done].
    pose proof (skip_ws_length r2). destruct (scan_items _ _) as [[l' r']|] eqn:Ei; [|done]. intros [= <- <-].
    apply IHi in Ei; lia.
  - intros [|q s] acc d r Hn Hacc; cbn [scan_members]; [done|]. cbn [length] in *. destruct (negb (q =? 34)); [done|].
    destruct (scan_str s) as [[k r1]|] eqn:Ek; [|done]. apply scan_str_text in Ek. pose proof (skip_ws_length r1).
    destruct (skip_ws r1) as [|colon r2]; [done|]. cbn [length] in *. destruct (negb (colon =? 58)); [done|].
    pose proof (skip_ws_length r2). destruct (scan_value fuel _) as [[v r3]|] eqn:Ev; [|done].
    apply IHv in Ev as [Hv Hr3]; [|lia]. pose proof (skip_ws_length r3). destruct (skip_ws r3) as [|c r4]; [done|].
    cbn [length] in *. pose proof (skip_ws_length r4).
    assert (Forall (fun m => text_le n m.2) (dict_set acc k v)) as Hset by (apply dict_set_Forall; [done|by apply texts_le_text]).
    destruct (c =? 125); [intros [= <- <-]; split; [done|lia]|]. destruct (c =? 44); [|done].
    intros Em. apply IHm in Em as [? ?]; [split; [done|lia]|lia|done].
Qed.

Lemma loads_texts s v : loads s = Ok v -> texts_le (length s) v.
Proof.
  unfold loads. destruct (scan_value _ _) as [[v' r]|] eqn:E; [|done]. pose proof (skip_ws_length s).
  apply (proj1 (scan_texts _ (length s))) in E as [Hv _]; [|done]. destruct (skip_ws r); [|done]. by intros [= <-].
Qed.

(** ** What the output is made of *)
Lemma map_result_Forall {A B} (f : A -> result B) (P : B -> Prop) l l' :
  (forall x y, x ∈ l -> f x = Ok y -> P y) -> map_result f l = Ok l' -> Forall P l'.
Proof.
  revert l'. induction l as [|x l IH]; intros l' Hf H; [by injection H as <-; constructor|].
  apply map_result_cons_Ok in H as (y & ys & Hy & Hys & ->). constructor; [eapply Hf; [by left|done]|].
  apply IH; [|done]. intros x' y' Hx'. apply Hf. by right.
Qed.

(** A property of texts that holds of printable ASCII characters and of
    quoted strings, and that concatenation keeps, holds of the output. *)
Section closed.
Context (esc : Z -> pystr) (P : pystr -> Prop).
#[local] Abbreviation dumps := (dumps_with esc no_float).
#[local] Abbreviation quote := (quote_with esc).
#[local] Abbreviation member := (member esc).
Hypothesis P_nil : P [].
Hypothesis P_app : forall s k, P s -> P k -> P (s ++ k).
Hypothesis P_char : forall c, 32 <= c < 127 -> P [c].
Hypothesis P_quote : forall s, text s -> P (quote s).

Lemma P_ascii s : Forall (fun c => 32 <= c < 127) s -> P s.
Proof. induction 1 as [|c s Hc Hs IH]; [done|]. apply (P_app [c]); auto. Qed.

Lemma P_digits s : Forall (fun c => is_digit c = true) s -> P s.
Proof. intros H. apply P_ascii. eapply Forall_impl; [exact H|]. intros c Hc%digit_range. lia. Qed.

Lemma P_join sep parts : P sep -> Forall P parts -> P (join sep parts).
Proof.
  intros Hs Hp. induction Hp as [|p parts Hp Hps IH]; [done|].
  destruct parts; [done|]. rewrite join_cons by done. auto.
Qed.

Lemma P_dumps v t : dumps v = Ok t -> writable v -> P t.
Proof.
  assert (forall c s, 32 <= c < 127 -> P s -> P (c :: s)) as P_cons by (intros c s Hc Hs; apply (P_app [c]); auto).
  revert t. induction v as [| b | n | l | s | l IH | d IH] using json_nested_ind; intros t Ht Hw; cbn [dumps_with] in Ht.
  - injection Ht as <-. apply P_ascii. repeat constructor; lia.
  - destruct b; injection Ht as <-; apply P_ascii; repeat constructor; lia.
  - case_match; [done|]. injection Ht as <-. unfold str_int. destruct (n <? 0) eqn:E; zbool.
    + apply P_cons; [lia|]. apply P_digits, str_nat_digits. lia.
    + by apply P_digits, str_nat_digits.
  - done.
  - injection Ht as <-. inversion Hw; subst. by apply P_quote.
  - destruct (map_result dumps l) as [parts|] eqn:Hp; [|done]. injection Ht as <-. inversion Hw as [| | | |? Hl|]; subst.
    apply P_cons; [lia|]. apply P_app; [|apply P_char; lia].
    apply P_join; [apply P_char; lia|]. eapply map_result_Forall; [|done].
    intros x y Hx Hy. rewrite Forall_forall in IH, Hl. by eapply IH; [| |apply Hl].
  - change (map_result _ d) with (map_result member d) in Ht.
    destruct (map_result member d) as [parts|] eqn:Hp; [|done]. injection Ht as <-. inversion Hw as [| | | | |? _ Hl]; subst.
    apply P_cons; [lia|]. apply P_app; [|apply P_char; lia].
    apply P_join; [apply P_char; lia|]. eapply map_result_Forall; [|done].
    intros [k x] y Hx Hy. rewrite Forall_forall in IH, Hl. destruct (Hl _ Hx) as [Hk Hwx]. cbn in Hy.
    destruct (dumps x) as [tx|] eqn:Ex; [|done]. injection Hy as <-.
    change (P (quote k ++ 58 :: tx)). apply P_app; [by apply P_quote|]. apply P_cons; [lia|]. exact (IH _ Hx _ Ex Hwx).
Qed.
End closed.

(** No control characters: a line holds a whole value. *)
Definition printable (s : pystr) : Prop := Forall (fun c => 32 <= c) s.

Lemma escape_printable c : 0 <= c -> printable (escape c).
Proof.
  intros Hc. unfold escape, printable. repeat (case_match; [repeat constructor; lia|]).
  destruct (c <? 32) eqn:E; zbool; [|by repeat constructor].
  assert (forall n, 0 <= n -> 32 <= hex_digit n) as Hh by (intros n Hn; unfold hex_digit; case_match; lia).
  repeat constructor; (lia || apply Hh); [apply Z.div_pos|apply Z.mod_pos_bound]; lia.
Qed.

Lemma quote_printable s : codes s -> printable (quote_with escape s).
Proof.
  intros Hs. unfold quote_with, printable. repeat apply Forall_app_2; [by repeat constructor| |by repeat constructor].
  induction Hs as [|c s Hc Hs IH]; [constructor|]. cbn. apply Forall_app_2; [by apply escape_printable|done].
Qed.

Lemma dumps_printable v t : dumps v = Ok t -> writable v -> printable t.
Proof.
  apply P_dumps; [constructor|intros; by apply Forall_app_2|intros c Hc; repeat constructor; lia|].
  intros s Hs. by apply quote_printable, text_codes.
Qed.

(** A UTF-8 encoding. *)
Lemma escape_text c : text [c] -> text (escape c).
Proof.
  intros Hc. pose proof (text_codes _ Hc) as Hp. apply Forall_cons in Hp as [Hp _]. unfold escape.
  repeat (case_match; [apply text_ascii; repeat constructor; lia|]).
  destruct (c <? 32) eqn:E; zbool; [|done]. apply text_ascii.
  assert (forall n, 0 <= n < 16 -> 0 <= hex_digit n < 128) as Hh by (intros n Hn; unfold hex_digit; case_match; lia).
  repeat constructor; try lia; apply Hh; Z.to_euclidean_division_equations; lia.
Qed.

Lemma quote_text s : text s -> text (quote_with escape s).
Proof.
  intros Hs. unfold quote_with. repeat apply text_app; [by eexists| |by eexists].
  induction s as [|c s IH]; [by eexists|]. apply text_cons_inv in Hs as [Hc Hs]. cbn.
  apply text_app; [by apply escape_text|by apply IH].
Qed.

Lemma dumps_text v t : dumps v = Ok t -> writable v -> text t.
Proof.
  apply P_dumps; [by eexists|intros; by apply text_app| |apply quote_text].
  intros c Hc. apply text_ascii. repeat constructor; lia.
Qed.

(** ** Writing a writable value succeeds *)

Lemma dumps_total_with esc v : writable v -> exists t, dumps_with esc no_float v = Ok t.
Proof.
  induction v as [| b | n | l | s | l IH | d IH] using json_nested_ind; intros Hw; inversion Hw; subst; cbn [dumps_with].
  - by eexists.
  - by eexists.
  - rw_bool (MAX_STR_DIGITS <? zlen (str_nat (Z.abs n))) false. by eexists.
  - by eexists.
  - destruct (map_result_total (dumps_with esc no_float) l) as [ys ->]; [|by eexists]. rewrite !Forall_forall in *. auto.
  - destruct (map_result_total (member esc) d) as [ys Hys]; [|unfold member in Hys; rewrite Hys; by eexists].
    intros [k x] Hx. rewrite !Forall_forall in *. destruct (IH _ Hx) as [t Ht]; [by apply H1|].
    exists (quote_with esc k ++ [58] ++ t). cbn [member]. cbn in Ht. by rewrite Ht.
Qed.

Lemma dumps_total v : writable v -> exists t, dumps v = Ok t.
Proof. apply dumps_total_with. Qed.

Lemma small_int_writable n : -(2 ^ 64) < n < 2 ^ 64 -> writable (JInt n).
Proof.
  intros Hn. constructor. pose proof (str_nat_length (Z.abs n) 20 ltac:(lia)). unfold zlen, MAX_STR_DIGITS. lia.
Qed.
