(* ===== verification/PyJson.v ===== *)
(** * JSON values as Python objects

    What the package does with decoded JSON beyond [wire.py]: indexing,
    [dict.get], [int], truth, iteration and [==] on values of any shape, and
    [json.dumps] with its default [ensure_ascii=True] and with
    [sort_keys=True]. *)
From S2P Require Import Prelude Bytes Text Json JsonProps.
From stdpp Require Import sorting.
From Stdlib Require Import QArith.
Open Scope Z_scope.

(** ** The interpreter

    A double is the rational it holds, an infinity or NaN. Which double a
    literal denotes, how it is written back, and the digits and spaces beyond
    ASCII are the interpreter's tables. *)
Inductive double := Finite (q : Q) | Infinite (negative : bool) | NaN.

Class Interp := {
  float_of : pystr -> double;
  float_repr : pystr -> pystr;
  unicode_digit : Z -> option Z;
  unicode_space : Z -> bool
}.

(** Tables that know no float but zero and no character beyond ASCII. *)
Definition plain_interp : Interp := {|
  float_of := fun _ => Finite 0; float_repr := fun s => s;
  unicode_digit := fun _ => None; unicode_space := fun _ => false
|}.

(** ** [json.dumps] with [ensure_ascii] *)
Definition unicode_escape (u : Z) : pystr :=
  [92; 117; hex_digit (u / 4096); hex_digit (u / 256 mod 16); hex_digit (u / 16 mod 16); hex_digit (u mod 16)].

Definition escape_ascii (c : Z) : pystr :=
  if c =? 34 then [92; 34]
  else if c =? 92 then [92; 92]
  else if c =? 10 then [92; 110]
  else if c =? 13 then [92; 114]
  else if c =? 9 then [92; 116]
  else if c =? 8 then [92; 98]
  else if c =? 12 then [92; 102]
  else if (32 <=? c) && (c <=? 126) then [c]
  else if c <? 0x10000 then unicode_escape c
  else unicode_escape (0xD800 + (c - 0x10000) / 1024) ++ unicode_escape (0xDC00 + (c - 0x10000) mod 1024).

(** The order of text: by code point. *)
Fixpoint str_leb (s t : pystr) : bool :=
  match s, t with
  | [], _ => true
  | _, [] => false
  | c :: s, d :: t => (c <? d) || (c =? d) && str_leb s t
  end.

Definition member_le (x y : pystr * json) : Prop := Is_true (str_leb x.1 y.1).
#[export] Instance member_le_dec x y : Decision (member_le x y).
Proof. unfold member_le. apply _. Defined.

Fixpoint sort_keys (v : json) : json :=
  match v with
  | JList l => JList (map sort_keys l)
  | JDict d => JDict (merge_sort member_le (map (fun '(k, v) => (k, sort_keys v)) d))
  | v => v
  end.

Section interp.
Context {PI : Interp}.

Definition dumps_ascii : json -> result pystr := dumps_with escape_ascii (fun literal => Ok (float_repr literal)).
Definition dumps_sorted (v : json) : result pystr := dumps_ascii (sort_keys v).

(** ** Operations on decoded values *)

(** [d[key]] and [d.get(key, default)] *)
Fixpoint find_key (d : list (pystr * json)) (key : pystr) : option json :=
  match d with
  | [] => None
  | (k, v) :: d => if bool_decide (k = key) then Some v else find_key d key
  end.

Definition subscript (d : json) (key : pystr) : result json :=
  match d with
  | JDict d => match find_key d key with Some v => Ok v | None => Raise KeyError end
  | _ => Raise TypeError
  end.

Definition get_or (d : json) (key : pystr) (default : json) : result json :=
  match d with
  | JDict d => Ok (match find_key d key with Some v => v | None => default end)
  | _ => Raise AttributeError
  end.

(** [int(text)]: spaces around, a sign, digits with single underscores. *)
Definition space_char (c : Z) : bool := is_space c || ((28 <=? c) && (c <=? 31)) || (127 <? c) && unicode_space c.

Fixpoint lstrip (s : pystr) : pystr :=
  match s with
  | c :: s' => if space_char c then lstrip s' else s
  | [] => []
  end.
Definition strip (s : pystr) : pystr := rev (lstrip (rev (lstrip s))).

Definition digit_of (c : Z) : option Z := if is_digit c then Some (c - 48) else if 127 <? c then unicode_digit c else None.

(** The digits' values, [under] telling that an underscore may come. *)
Fixpoint int_digits (s : pystr) (under : bool) : option (list Z) :=
  match s with
  | [] => if under then Some [] else None
  | c :: s =>
      if c =? 95 then if under then int_digits s false else None
      else match digit_of c with
           | Some d => option_map (cons d) (int_digits s true)
           | None => None
           end
  end.

Definition int_of_text (s : pystr) : result Z :=
  let '(sign, s) :=
    match strip s with
    | c :: r => if c =? 45 then (-1, r) else if c =? 43 then (1, r) else (1, c :: r)
    | [] => (1, [])
    end in
  match int_digits s false with
  | Some ds =>
      if MAX_STR_DIGITS <? zlen ds then Raise ValueError
      else Ok (sign * fold_left (fun acc d => acc * 10 + d) ds 0)
  | None => Raise ValueError
  end.

(** [int(v)] *)
Definition int_of (v : json) : result Z :=
  match v with
  | JInt n => Ok n
  | JBool b => Ok (Z.b2z b)
  | JStr s => int_of_text s
  | JFloat literal =>
      match float_of literal with
      | Finite q => Ok (Z.quot (Qnum q) (Zpos (Qden q)))
      | Infinite _ => Raise OverflowError
      | NaN => Raise ValueError
      end
  | _ => Raise TypeError
  end.

(** [bool(v)] *)
Definition truthy (v : json) : bool :=
  match v with
  | JNull => false
  | JBool b => b
  | JInt n => negb (n =? 0)
  | JFloat literal => match float_of literal with Finite q => negb (Qeq_bool q 0) | _ => true end
  | JStr s => negb (bool_decide (s = []))
  | JList l => match l with [] => false | _ => true end
  | JDict d => match d with [] => false | _ => true end
  end.

(** [iter(v)] *)
Definition iterate (v : json) : result (list json) :=
  match v with
  | JList l => Ok l
  | JDict d => Ok (map (fun kv => JStr kv.1) d)
  | JStr s => Ok (map (fun c => JStr [c]) s)
  | _ => Raise TypeError
  end.

Definition is_text (v : json) (s : pystr) : bool :=
  match v with JStr t => bool_decide (t = s) | _ => false end.

Definition number_of (v : json) : option double :=
  match v with
  | JInt n => Some (Finite (inject_Z n))
  | JBool b => Some (Finite (inject_Z (Z.b2z b)))
  | JFloat literal => Some (float_of literal)
  | _ => None
  end.

Definition double_eq (x y : double) : bool :=
  match x, y with
  | Finite q, Finite r => Qeq_bool q r
  | Infinite a, Infinite b => Bool.eqb a b
  | _, _ => false
  end.

(** [v == w] *)
Fixpoint json_eq (v w : json) {struct v} : bool :=
  let fix eq_list (l k : list json) {struct l} :=
    match l, k with
    | [], [] => true
    | x :: l, y :: k => json_eq x y && eq_list l k
    | _, _ => false
    end in
  let fix eq_members (d : list (pystr * json)) (w : list (pystr * json)) {struct d} :=
    match d with
    | [] => true
    | (k, x) :: d => match find_key w k with Some y => json_eq x y | None => false end && eq_members d w
    end in
  match v, w with
  | JNull, JNull => true
  | JStr s, JStr t => bool_decide (s = t)
  | JList l, JList k => eq_list l k
  | JDict d, JDict e => (length d =? length e)%nat && eq_members d e
  | _, _ =>
      match number_of v, number_of w with
      | Some x, Some y => double_eq x y
      | _, _ => false
      end
  end.
End interp.

(** ** Reading back what [ensure_ascii] writes *)
Definition units (c : Z) : list (Z * bool) :=
  if bool_decide (c ∈ [34; 92; 10; 13; 9; 8; 12]) || ((32 <=? c) && (c <=? 126)) then [(c, false)]
  else if c <? 0x10000 then [(c, true)]
  else [(0xD800 + (c - 0x10000) / 1024, true); (0xDC00 + (c - 0x10000) mod 1024, true)].

Lemma scan_unicode_escape u rest :
  0 <= u < 0x10000 -> scan_string (unicode_escape u ++ rest) = more (u, true) (scan_string rest).
Proof.
  intros Hu.
  change (scan_string (unicode_escape u ++ rest)) with
    (match hex4 (hex_digit (u / 4096)) (hex_digit (u / 256 mod 16)) (hex_digit (u / 16 mod 16)) (hex_digit (u mod 16)) with
     | Some u => more (u, true) (scan_string rest) | None => Raise ValueError end).
  unfold hex4. rewrite !hex_value_digit by (Z.to_euclidean_division_equations; lia).
  do 3 f_equal. Z.to_euclidean_division_equations. lia.
Qed.

Definition more_all (l : list (Z * bool)) (r : result (list (Z * bool) * pystr)) : result (list (Z * bool) * pystr) :=
  let! (k, rest) := r in Ok (l ++ k, rest).

Lemma scan_escape_ascii c rest :
  0 <= c < 0x110000 -> scan_string (escape_ascii c ++ rest) = more_all (units c) (scan_string rest).
Proof.
  intros Hc. unfold escape_ascii, units.
  destruct (c =? 34) eqn:E1; zbool; [by subst c|]. destruct (c =? 92) eqn:E2; zbool; [by subst c|].
  destruct (c =? 10) eqn:E3; zbool; [by subst c|]. destruct (c =? 13) eqn:E4; zbool; [by subst c|].
  destruct (c =? 9) eqn:E5; zbool; [by subst c|]. destruct (c =? 8) eqn:E6; zbool; [by subst c|].
  destruct (c =? 12) eqn:E7; zbool; [by subst c|].
  rewrite (bool_decide_false (c ∈ _)) by (set_unfold; lia). cbn [orb].
  destruct ((32 <=? c) && (c <=? 126)) eqn:E8.
  - zbool. cbn [app scan_string]. rewrite (proj2 (Z.eqb_neq c 34)), (proj2 (Z.eqb_neq c 92)) by done.
    rw_bool (c <? 32) false. by destruct (scan_string rest) as [[]|].
  - destruct (c <? 65536) eqn:E9; zbool.
    + rewrite scan_unicode_escape by lia. by destruct (scan_string rest) as [[]|].
    + rewrite <- app_assoc, !scan_unicode_escape by (Z.to_euclidean_division_equations; lia).
      by destruct (scan_string rest) as [[]|].
Qed.

Lemma text_range c : text [c] -> 0 <= c < 0x110000 /\ is_surrogate c = false.
Proof.
  intros [bs H]. cbn [utf8_encode] in H. destruct (utf8_char c) as [b|] eqn:E; [|done]. unfold utf8_char in E.
  destruct (c <? 0) eqn:E0; [done|]. unfold is_surrogate in *. zbool.
  repeat (destruct (c <? _) eqn:?; zbool; [split; [lia|];
    first [done | apply andb_false_iff; left; apply Z.leb_gt; lia | apply andb_false_iff; right; apply Z.leb_gt; lia]|]).
  all: destruct ((55296 <=? c) && (c <=? 57343)) eqn:Es; [done|].
  all: repeat (destruct (c <? _) eqn:?; zbool; [split; [lia|done]|]); done.
Qed.

Lemma join_units c l : text [c] -> join_surrogates (units c ++ l) = c :: join_surrogates l.
Proof.
  intros [Hc Hs]%text_range. unfold is_surrogate in Hs. unfold units.
  destruct (_ || _); [done|]. destruct (c <? 65536) eqn:E; zbool.
  - cbn [app]. rewrite join_surrogates_cons; [done|]. right. unfold is_high.
    apply andb_false_iff in Hs as [Hs|Hs]; zbool.
    + by rw_bool (55296 <=? c) false.
    + rw_bool (c <=? 56319) false. by rewrite andb_false_r.
  - cbn [app join_surrogates].
    assert (is_high (55296 + (c - 65536) / 1024) = true) as ->.
    { unfold is_high. apply andb_true_intro. rewrite !Z.leb_le. Z.to_euclidean_division_equations. lia. }
    assert (is_low (56320 + (c - 65536) mod 1024) = true) as ->.
    { unfold is_low. apply andb_true_intro. rewrite !Z.leb_le. Z.to_euclidean_division_equations. lia. }
    cbn [andb]. f_equal. Z.to_euclidean_division_equations. lia.
Qed.

Lemma scan_string_ascii s rest :
  text s -> scan_string (concat (map escape_ascii s) ++ 34 :: rest) = Ok (concat (map units s), rest).
Proof.
  induction s as [|c s IH]; intros Hs; [done|]. apply text_cons_inv in Hs as [Hc Hs]. cbn [map concat].
  rewrite <- app_assoc, scan_escape_ascii by (by apply text_range in Hc as []). by rewrite IH.
Qed.

Lemma join_all_units s : text s -> join_surrogates (concat (map units s)) = s.
Proof.
  induction s as [|c s IH]; intros Hs; [done|]. apply text_cons_inv in Hs as [Hc Hs]. cbn [map concat].
  by rewrite join_units, IH.
Qed.

Lemma scan_str_ascii s rest : text s -> scan_str (concat (map escape_ascii s) ++ 34 :: rest) = Ok (s, rest).
Proof. intros Hs. unfold scan_str. by rewrite scan_string_ascii, join_all_units. Qed.

(** ** What it writes *)
Definition ascii (s : pystr) : Prop := Forall (fun c => 32 <= c < 127) s.

Lemma hex_digit_ascii n : 0 <= n < 16 -> 32 <= hex_digit n < 127.
Proof. intros Hn. unfold hex_digit. case_match; lia. Qed.

Lemma hex_ascii bs : ascii (hex bs).
Proof.
  induction bs as [|b bs IH]; [constructor|]. pose proof (b2z_range b). cbn [hex].
  repeat (constructor; [apply hex_digit_ascii; Z.to_euclidean_division_equations; lia|]). exact IH.
Qed.

Lemma hex_text bs : text (hex bs).
Proof. apply text_ascii. eapply Forall_impl; [apply hex_ascii|]. cbn. lia. Qed.

Lemma unicode_escape_ascii u : 0 <= u < 0x10000 -> ascii (unicode_escape u).
Proof.
  intros Hu. unfold ascii, unicode_escape.
  repeat constructor; try lia; apply hex_digit_ascii; Z.to_euclidean_division_equations; lia.
Qed.

Lemma escape_ascii_ascii c : 0 <= c < 0x110000 -> ascii (escape_ascii c).
Proof.
  intros Hc. unfold escape_ascii, ascii. repeat (destruct (c =? _); [repeat constructor; lia|]).
  destruct ((32 <=? c) && (c <=? 126)) eqn:E; [zbool; constructor; [lia|constructor]|].
  destruct (c <? 65536) eqn:E'; zbool; [apply unicode_escape_ascii; lia|].
  apply Forall_app_2; apply unicode_escape_ascii; Z.to_euclidean_division_equations; lia.
Qed.

Lemma quote_ascii s : text s -> ascii (quote_with escape_ascii s).
Proof.
  intros Hs. unfold quote_with. repeat apply Forall_app_2; [repeat constructor; lia| |repeat constructor; lia].
  induction s as [|c s IH]; [constructor|]. apply text_cons_inv in Hs as [Hc Hs]. cbn [map concat].
  apply Forall_app_2; [|by apply IH]. apply escape_ascii_ascii. by apply text_range in Hc as [].
Qed.

Lemma dumps_with_no_float esc f v : writable v -> dumps_with esc f v = dumps_with esc no_float v.
Proof.
  induction v as [| | | | |l IH|d IH] using json_nested_ind; intros Hw; try done; inversion Hw; subst; cbn [dumps_with].
  - assert (map_result (dumps_with esc f) l = map_result (dumps_with esc no_float) l) as ->; [|done].
    induction l as [|x l IHl]; [done|]. apply Forall_cons in IH as [Hx IH]. inversion H0; subst.
    cbn [map_result]. rewrite Hx, IHl; try done. by constructor.
  - match goal with |- (let! _ := ?A in _) = (let! _ := ?B in _) => assert (A = B) as -> end; [|done].
    clear Hw H0. induction d as [|[k x] d IHd]; [done|]. apply Forall_cons in IH as [Hx IH], H1 as [[_ Hwx] Hd].
    cbn [map_result]. cbn in Hx, Hwx. by rewrite Hx, IHd.
Qed.

Lemma map_result_raise_in {A B} (f : A -> result B) l e :
  map_result f l = Raise e -> exists x, x ∈ l /\ f x = Raise e.
Proof.
  induction l as [|x l IH]; [done|]. cbn [map_result]. destruct (f x) eqn:E; [|intros [= <-]; exists x; split; [left|done]].
  destruct (map_result f l); [done|]. intros [= <-]. destruct (IH eq_refl) as (y & Hy & Ey). exists y. split; [by right|done].
Qed.

Section interp_props.
Context {PI : Interp}.

Lemma dumps_ascii_eq v : writable v -> dumps_ascii v = dumps_with escape_ascii no_float v.
Proof. apply dumps_with_no_float. Qed.

Lemma loads_dumps_ascii v t : writable v -> dumps_ascii v = Ok t -> loads t = Ok v.
Proof.
  intros Hw. rewrite dumps_ascii_eq by done. intros Ht.
  by apply (loads_dumps_with escape_ascii scan_str_ascii v t).
Qed.

Lemma dumps_ascii_total v : writable v -> exists t, dumps_ascii v = Ok t /\ ascii t.
Proof.
  intros Hw. destruct (dumps_total_with escape_ascii v Hw) as [t Ht]. exists t. rewrite dumps_ascii_eq by done.
  split; [done|]. refine (P_dumps escape_ascii ascii _ _ _ _ v t Ht Hw).
  - constructor.
  - intros; by apply Forall_app_2.
  - intros c Hc. constructor; [done|constructor].
  - apply quote_ascii.
Qed.

Lemma dumps_ascii_raise v e : dumps_ascii v = Raise e -> e = ValueError.
Proof.
  revert e. induction v as [| | | | |l IH|d IH] using json_nested_ind; intros e; unfold dumps_ascii; cbn [dumps_with]; try done.
  - destruct (_ <? _); congruence.
  - destruct (map_result _ l) as [|e'] eqn:E; [done|]. intros [= <-].
    apply map_result_raise_in in E as (x & Hx & E). by apply (proj1 (Forall_forall _ _) IH x Hx).
  - destruct (map_result _ d) as [|e'] eqn:E; [done|]. intros [= <-].
    apply map_result_raise_in in E as ([k x] & Hx & E).
    destruct (dumps_with _ _ x) as [|e0] eqn:Ed; [done|]. injection E as ->.
    by apply (proj1 (Forall_forall _ _) IH (k, x) Hx).
Qed.
End interp_props.
