(* ===== verification/JsonBytes.v ===== *)
(** * JSON from bytes

    [json.loads] on bytes: it guesses UTF-8, UTF-16 or UTF-32 from the first
    bytes and decodes with [surrogatepass], which lets lone surrogates
    through. *)
From S2P Require Import Prelude Bytes Text Json JsonProps PyJson.
Open Scope Z_scope.

(** ** Codecs with [surrogatepass] *)
Fixpoint utf8_decode_pass (bs : bytes) : option pystr :=
  match bs with
  | [] => Some []
  | b0 :: r0 =>
      let x0 := b2z b0 in
      if x0 <? 0x80 then cons_char true x0 (utf8_decode_pass r0)
      else
        match r0 with
        | [] => None
        | b1 :: r1 =>
            let x1 := b2z b1 in
            if x0 <? 0xE0 then
              cons_char ((0xC2 <=? x0) && continuation x1) ((x0 - 0xC0) * 64 + (x1 - 0x80)) (utf8_decode_pass r1)
            else
              match r1 with
              | [] => None
              | b2 :: r2 =>
                  let x2 := b2z b2 in
                  if x0 <? 0xF0 then
                    let c := (x0 - 0xE0) * 4096 + (x1 - 0x80) * 64 + (x2 - 0x80) in
                    cons_char (continuation x1 && continuation x2 && (0x800 <=? c)) c (utf8_decode_pass r2)
                  else
                    match r2 with
                    | [] => None
                    | b3 :: r3 =>
                        let x3 := b2z b3 in
                        let c := (x0 - 0xF0) * 262144 + (x1 - 0x80) * 4096 + (x2 - 0x80) * 64 + (x3 - 0x80) in
                        cons_char (continuation x1 && continuation x2 && continuation x3
                                   && (0x10000 <=? c) && (c <? 0x110000)) c (utf8_decode_pass r3)
                    end
              end
        end
  end.

(** The code units of UTF-16: [None] when a byte is left over. *)
Fixpoint units16 (little : bool) (bs : bytes) : option (list Z) :=
  match bs with
  | [] => Some []
  | [_] => None
  | b :: c :: bs =>
      option_map (cons (if little then b2z c * 256 + b2z b else b2z b * 256 + b2z c)) (units16 little bs)
  end.

Definition utf16_decode_pass (little : bool) (bs : bytes) : option pystr :=
  option_map (fun us => join_surrogates (map (fun u => (u, true)) us)) (units16 little bs).

Fixpoint utf32_decode_pass (little : bool) (bs : bytes) : option pystr :=
  match bs with
  | [] => Some []
  | b :: c :: d :: e :: bs =>
      let u := from_bytes (if little then [e; d; c; b] else [b; c; d; e]) in
      cons_char (u <? 0x110000) u (utf32_decode_pass little bs)
  | _ => None
  end.

(** ** [detect_encoding] and [json.loads] *)
Definition begins (codes : list Z) (bs : bytes) : bool := bool_decide (map b2z (firstn (length codes) bs) = codes).

Definition detect_encoding_decode (bs : bytes) : option pystr :=
  if begins [0; 0; 0xFE; 0xFF] bs then utf32_decode_pass false (skipn 4 bs)
  else if begins [0xFF; 0xFE; 0; 0] bs then utf32_decode_pass true (skipn 4 bs)
  else if begins [0xFE; 0xFF] bs then utf16_decode_pass false (skipn 2 bs)
  else if begins [0xFF; 0xFE] bs then utf16_decode_pass true (skipn 2 bs)
  else if begins [0xEF; 0xBB; 0xBF] bs then utf8_decode_pass (skipn 3 bs)
  else
    match map b2z bs with
    | [b0; b1] =>
        if b0 =? 0 then utf16_decode_pass false bs
        else if b1 =? 0 then utf16_decode_pass true bs
        else utf8_decode_pass bs
    | b0 :: b1 :: b2 :: b3 :: _ =>
        if b0 =? 0 then (if b1 =? 0 then utf32_decode_pass false bs else utf16_decode_pass false bs)
        else if b1 =? 0 then
          (if (b2 =? 0) && (b3 =? 0) then utf32_decode_pass true bs else utf16_decode_pass true bs)
        else utf8_decode_pass bs
    | _ => utf8_decode_pass bs
    end.

Definition loads_bytes (bs : bytes) : result json :=
  match detect_encoding_decode bs with
  | Some text => loads text
  | None => Raise UnicodeError
  end.

(** ** ASCII lines *)
Definition ascii_bytes (s : pystr) : bytes := map z2b s.

(** Characters of one byte that are not zero: printable text and newlines. *)
Definition narrow (s : pystr) : Prop := Forall (fun c => 0 < c < 128) s.

Lemma ascii_narrow s : ascii s -> narrow s.
Proof. intros H. eapply Forall_impl; [exact H|]. cbn. lia. Qed.

Lemma ascii_codes s : narrow s -> map b2z (ascii_bytes s) = s.
Proof.
  unfold ascii_bytes. intros Hs. induction Hs as [|c s Hc Hs IH]; [done|].
  cbn [map]. rewrite IH, b2z_small by lia. done.
Qed.

Lemma utf8_decode_pass_ascii s : narrow s -> utf8_decode_pass (ascii_bytes s) = Some s.
Proof.
  intros Hs. induction Hs as [|c s Hc Hs IH]; [done|].
  cbn [utf8_decode_pass ascii_bytes map]. rewrite b2z_small by lia.
  destruct (Z.ltb_spec c 128); [|lia]. fold (ascii_bytes s). rewrite IH. done.
Qed.

Lemma begins_ascii codes s :
  narrow s -> match codes with c :: _ => c = 0 \/ 128 <= c | [] => False end -> begins codes (ascii_bytes s) = false.
Proof.
  intros Hs Hc. destruct codes as [|c codes]; [done|]. unfold begins. apply bool_decide_eq_false. cbn.
  destruct Hs as [|x s Hx Hs]; [done|]. cbn. rewrite b2z_small by lia. intros [= ->]. lia.
Qed.

Lemma decode_ascii s : narrow s -> detect_encoding_decode (ascii_bytes s) = Some s.
Proof.
  intros Hs. unfold detect_encoding_decode.
  rewrite !begins_ascii by (done || cbn; lia).
  rewrite (ascii_codes s Hs), utf8_decode_pass_ascii by done.
  destruct Hs as [|c s Hc Hs]; [done|]. destruct Hs as [|d s Hd Hs]; [done|].
  destruct (Z.eqb_spec c 0); [lia|]. destruct (Z.eqb_spec d 0); [lia|]. by destruct s as [|? [|? ?]].
Qed.

Lemma loads_bytes_ascii s : narrow s -> loads_bytes (ascii_bytes s) = loads s.
Proof. intros Hs. unfold loads_bytes. by rewrite decode_ascii. Qed.

Lemma utf8_decode_ascii s : narrow s -> utf8_decode (ascii_bytes s) = Some s.
Proof.
  intros Hs. apply utf8_roundtrip, utf8_encode_ascii. eapply Forall_impl; [exact Hs|]. cbn. lia.
Qed.
