(* ===== verification/Ed25519.v ===== *)
(** * Ed25519 checks and CBOR decoding of signed messages

    [src/python/ed25519.py]: the checks on a key and a signature that OpenSSL
    leaves out; and [loads] of [src/python/cbor.py], which refuses a map whose
    keys collide as Python values. The signature library, [cbor2] and
    [scitt_cose] are third-party code, given as classes. *)
From S2P Require Import Prelude Bytes Text Py.
Open Scope Z_scope.

(** ** Third-party code *)

(** What [scitt_cose.verify_receipt] answers. *)
Record ReceiptResult := {
  rr_ok : bool; rr_failed_at : option pystr; rr_errors : list pystr;
  rr_tree_size : option Z; rr_leaf_index : option Z
}.

Class Crypto := {
  (** [Ed25519PublicKey.from_public_bytes(key).verify(signature, message)] *)
  openssl_verify : bytes -> bytes -> bytes -> bool;
  (** The PEM text of a raw key, or an exception when it is no key. *)
  ed25519_pem : bytes -> result bytes;
  (** The raw key in a PEM text, [None] for a key of another type. *)
  load_ed25519_pem : bytes -> result (option bytes)
}.

Class Cbor2 := {
  cbor2_loads : bytes -> result pyval;
  (** [cbor2.dumps(value, canonical=True)] *)
  cbor2_dumps : pyval -> result bytes
}.

Class ScittReceipts := {
  scitt_verify_receipt : bytes -> pystr -> bytes -> result ReceiptResult
}.

(** ** [cbor.loads] *)
Section loads.
Context {CB : Cbor2}.

(** Major type, argument ([None] for an indefinite length), offset after. *)
Definition _head (data : bytes) (i : Z) : result (Z * option Z * Z) :=
  let! b := py_index data i in
  let initial := b2z b in
  let major := Z.shiftr initial 5 in
  let info := Z.land initial 0x1F in
  if info <? 24 then Ok (major, Some info, i + 1)
  else if info =? 31 then Ok (major, None, i + 1)
  else if 27 <? info then Raise ValueError
  else
    let width := Z.shiftl 1 (info - 24) in
    let end_ := i + 1 + width in
    if zlen data <? end_ then Raise ValueError
    else Ok (major, Some (from_bytes (py_slice data (i + 1) end_)), end_).

Definition _CONTEXT_TAGS : list Z := [25; 28; 29; 256].

(** A key as the value it is compared by. *)
Inductive frozen : Type :=
| FValue (v : pyval)
| FTuple (l : list frozen)
| FMap (l : list (frozen * frozen))
| FSet (l : list frozen)
| FTag (tag : Z) (v : frozen)
| FNaN.

Fixpoint _frozen (value : pyval) : frozen :=
  match value with
  | PList l | PTuple l => FTuple (map _frozen l)
  | PDict d => FMap (map (fun '(k, v) => (_frozen k, _frozen v)) d)
  | PSet l => FSet (map _frozen l)
  | PTag tag v => FTag tag (_frozen v)
  | PNaN => FNaN
  | v => FValue v
  end.

(** Equality of frozen keys; sets and maps do not depend on the order. *)
Fixpoint frozen_eq (x y : frozen) {struct x} : bool :=
  let fix eq_list (l k : list frozen) {struct l} :=
    match l, k with
    | [], [] => true
    | a :: l, b :: k => frozen_eq a b && eq_list l k
    | _, _ => false
    end in
  match x, y with
  | FValue v, FValue w => py_eq v w
  | FTuple l, FTuple k => eq_list l k
  | FMap l, FMap k =>
      (length l =? length k)%nat
      && forallb (fun '(a, v) => existsb (fun '(b, w) => frozen_eq a b && frozen_eq v w) k) l
  | FSet l, FSet k => (length l =? length k)%nat && forallb (fun a => existsb (frozen_eq a) k) l
  | FTag t v, FTag u w => (t =? u) && frozen_eq v w
  | FNaN, FNaN => true
  | _, _ => false
  end.

Definition _key (raw : bytes) : result frozen :=
  match cbor2_loads raw with
  | Ok v => Ok (_frozen v)
  | Raise _ => Raise DuplicateMapKeyError
  end.

(** [while data[i] != 0xFF: i = step(i)]; every step takes a byte, so the
    length of the data bounds the loop. *)
Fixpoint until_break (data : bytes) (step : Z -> result Z) (fuel : nat) (i : Z) : result Z :=
  match fuel with
  | O => Raise OutOfFuel
  | S fuel =>
      let! b := py_index data i in
      if b2z b =? 0xFF then Ok (i + 1)
      else let! i := step i in until_break data step fuel i
  end.

(** The chunks of a string of indefinite length. *)
Definition skip_chunk (data : bytes) (i : Z) : result Z :=
  let! (_, n, i) := _head data i in
  match n with Some n => Ok (i + n) | None => Raise TypeError end.

(** An array or a map: [arg] items, or items up to a break; [keys] are those
    seen, and an item tells whether its key is new. *)
Fixpoint walk_elements {K} (data : bytes) (step : Z -> K -> result (Z * K)) (fuel : nat) (arg : option Z)
    (count i : Z) (keys : K) : result Z :=
  match fuel with
  | O => Raise OutOfFuel
  | S fuel =>
      let! more :=
        match arg with
        | None => let! b := py_index data i in Ok (negb (b2z b =? 0xFF))
        | Some n => Ok (count <? n)
        end in
      if more then let! (i, keys) := step i keys in walk_elements data step fuel arg (count + 1) i keys
      else Ok (match arg with None => i + 1 | Some _ => i end)
  end.

(** [room] is what is left of the interpreter's recursion limit. *)
Fixpoint _walk (room : nat) (data : bytes) (i : Z) (in_key : bool) : result Z :=
  match room with
  | O => Raise RecursionError
  | S room =>
      let! (major, arg, i) := _head data i in
      if bool_decide (major ∈ [0; 1; 7]) then Ok i
      else if bool_decide (major ∈ [2; 3]) then
        match arg with
        | Some n => Ok (i + n)
        | None => until_break data (skip_chunk data) (S (length data)) i
        end
      else if major =? 6 then
        if in_key && match arg with Some tag => bool_decide (tag ∈ _CONTEXT_TAGS) | None => false end
        then Raise DuplicateMapKeyError
        else _walk room data i in_key
      else if major =? 4 then
        walk_elements data (fun i keys => let! i := _walk room data i in_key in Ok (i, keys))
          (S (length data)) arg 0 i ()
      else
        walk_elements data
          (fun i keys =>
             let start := i in
             let! i := _walk room data i true in
             let! key := _key (py_slice data start i) in
             if existsb (frozen_eq key) keys then Raise DuplicateMapKeyError
             else let! i := _walk room data i in_key in Ok (i, key :: keys))
          (S (length data)) arg 0 i []
  end.

Definition cbor_loads (room : nat) (data : bytes) : result pyval :=
  let! value := cbor2_loads data in
  match _walk room data 0 false with
  | Raise RecursionError => Raise DuplicateMapKeyError
  | Raise e => Raise e
  | Ok _ => Ok value
  end.
End loads.

(** ** Signatures *)
Definition _P : Z := 2 ^ 255 - 19.
Definition _L : Z := 2 ^ 252 + 27742317777372353535851937790883648493.
Definition _ORDER_8_Y : Z := 0x05FC536D880238B13933C6D305ACDFD5F098EFF289F4C345B027B2C28F95E826.
Definition _SMALL_ORDER_Y : list Z := [0; 1; _P - 1; _ORDER_8_Y; _P - _ORDER_8_Y].

(** [int.from_bytes(encoded, "little")] *)
Definition from_bytes_little (bs : bytes) : Z := from_bytes (rev bs).

Definition _acceptable_point (encoded : bytes) : bool :=
  let y := Z.land (from_bytes_little encoded) (Z.shiftl 1 255 - 1) in
  (y <? _P) && negb (bool_decide (y ∈ _SMALL_ORDER_Y)).

Definition acceptable_signature (public_key signature : pyval) : bool :=
  match as_bytes public_key, as_bytes signature with
  | Some key, Some sig =>
      (zlen key =? 32) && (zlen sig =? 64)
      && _acceptable_point key && _acceptable_point (py_slice sig 0 32)
      && (from_bytes_little (py_slice sig 32 64) <? _L)
  | _, _ => false
  end.

Section crypto.
Context {CR : Crypto}.

Definition verify (public_key message signature : bytes) : bool :=
  acceptable_signature (PBytes public_key) (PBytes signature) && openssl_verify public_key message signature.
End crypto.

Section receipts.
Context {CR : Crypto} {CB : Cbor2} {SR : ScittReceipts} (room : nat).

Definition cose_sign1_signature (cose_bytes : bytes) : option bytes :=
  match cbor_loads room cose_bytes with
  | Raise _ => None
  | Ok item =>
      let item := match item with PTag tag v => if tag =? 18 then v else item | _ => item end in
      match as_sequence item with
      | Some [_; _; _; PBytes signature] => Some signature
      | _ => None
      end
  end.

Definition or_none (o : option bytes) : pyval := match o with Some b => PBytes b | None => PNone end.

Definition verify_receipt (receipt : bytes) (leaf_entry_hex : pystr) (log_public_key_pem : bytes)
  : result ReceiptResult :=
  let! r := scitt_verify_receipt receipt leaf_entry_hex log_public_key_pem in
  if negb (rr_ok r) then Ok r
  else
    let public_key := match load_ed25519_pem log_public_key_pem with Ok key => key | Raise _ => Some [] end in
    match public_key with
    | Some key =>
        if negb (acceptable_signature (PBytes key) (or_none (cose_sign1_signature receipt)))
        then Ok {| rr_ok := false; rr_failed_at := Some (str "signature");
                   rr_errors := rr_errors r ++ [str "receipt signature is refused: the key or R is not canonical or is of small order, or S >= L"];
                   rr_tree_size := rr_tree_size r; rr_leaf_index := rr_leaf_index r |}
        else Ok r
    | None => Ok r
    end.
End receipts.

(** ** What acceptance means *)

(** Little-endian encodings of field elements. *)
Lemma acceptable_point_spec encoded :
  length encoded = 32%nat ->
  _acceptable_point encoded = true <->
  let y := from_bytes_little encoded mod 2 ^ 255 in y < _P /\ y ∉ _SMALL_ORDER_Y.
Proof.
  intros _. unfold _acceptable_point. rewrite Z.shiftl_1_l. change (2 ^ 255 - 1) with (Z.ones 255).
  rewrite Z.land_ones by lia. cbv zeta. rewrite andb_true_iff, negb_true_iff, Z.ltb_lt, bool_decide_eq_false. done.
Qed.

Lemma acceptable_signature_inv key sig :
  acceptable_signature (PBytes key) (PBytes sig) = true ->
  length key = 32%nat /\ length sig = 64%nat /\ _acceptable_point key = true /\
  _acceptable_point (take 32 sig) = true /\ from_bytes_little (drop 32 sig) < _L.
Proof.
  unfold acceptable_signature. cbn [as_bytes]. rewrite !andb_true_iff, !Z.eqb_eq, Z.ltb_lt. unfold zlen, py_slice.
  intros [[[[Hk Hs] Hp] Hr] Hl]. change (Z.to_nat (32 - 0)) with 32%nat in Hr. change (Z.to_nat 0) with 0%nat in Hr.
  change (Z.to_nat (64 - 32)) with 32%nat in Hl. change (Z.to_nat 32) with 32%nat in Hl.
  rewrite drop_0 in Hr. rewrite take_ge in Hl by (rewrite length_drop; lia). split_and!; (done || lia).
Qed.
