(* ===== verification/Sha256.v ===== *)
(** * [hashlib.sha256]

    The hash the package uses, as an interface ([Hashlib]) the Merkle code is
    written against, and FIPS 180-4 SHA-256 as its executable instance. The
    interface promises only what the proofs use: a 32-byte digest. *)
From S2P Require Import Prelude Bytes.
Open Scope Z_scope.

Class Hashlib := {
  sha256 : bytes -> bytes;
  length_sha256 : forall bs, length (sha256 bs) = 32%nat
}.

(** Two different strings with one digest. *)
Definition collision `{Hashlib} (x y : bytes) : Prop := x <> y /\ sha256 x = sha256 y.

(** A collision between a string of [xs] and a string of [ys], both finite
    lists: what a failure of the binding theorems exhibits. *)
Definition collides `{Hashlib} (xs ys : list bytes) : Prop :=
  exists x y, x ∈ xs /\ y ∈ ys /\ collision x y.

Lemma collides_mono `{Hashlib} xs ys xs' ys' :
  xs ⊆ xs' -> ys ⊆ ys' -> collides xs ys -> collides xs' ys'.
Proof. intros Hx Hy (x & y & Hin & Hin' & Hc). exists x, y. eauto. Qed.

Lemma sha256_eq_or_collides `{Hashlib} x y xs ys :
  sha256 x = sha256 y -> x ∈ xs -> y ∈ ys -> x = y \/ collides xs ys.
Proof.
  intros Hxy Hx Hy. destruct (decide (x = y)) as [->|Hne]; [by left|].
  right. exists x, y. done.
Qed.

(** ** SHA-256 *)
Module Sha256.
Definition w32 (z : Z) : Z := Z.land z 0xffffffff.
Definition rotr (n x : Z) : Z :=
  Z.lor (Z.shiftr x n) (w32 (Z.shiftl x (32 - n))).
Definition ch (x y z : Z) : Z := Z.lxor (Z.land x y) (Z.land (Z.lxor x 0xffffffff) z).
Definition maj (x y z : Z) : Z :=
  Z.lxor (Z.lxor (Z.land x y) (Z.land x z)) (Z.land y z).
Definition bsig0 (x : Z) : Z := Z.lxor (Z.lxor (rotr 2 x) (rotr 13 x)) (rotr 22 x).
Definition bsig1 (x : Z) : Z := Z.lxor (Z.lxor (rotr 6 x) (rotr 11 x)) (rotr 25 x).
Definition ssig0 (x : Z) : Z := Z.lxor (Z.lxor (rotr 7 x) (rotr 18 x)) (Z.shiftr x 3).
Definition ssig1 (x : Z) : Z := Z.lxor (Z.lxor (rotr 17 x) (rotr 19 x)) (Z.shiftr x 10).

(** The constants of FIPS 180-4: the first 32 bits of the fractional parts of
    the cube roots (rounds) and square roots (initial value) of the first
    primes, computed here rather than listed. *)
Definition is_prime (n : nat) : bool :=
  forallb (fun d => negb (n mod d =? 0)%nat) (seq 2 (n - 2)).
Definition primes : list Z := map Z.of_nat (List.filter is_prime (seq 2 310)).

(** The integer cube root of [n], one bit at a time from bit [k - 1] down. *)
Fixpoint cube_root (k : nat) (root n : Z) : Z :=
  match k with
  | O => root
  | S k =>
      let next := root + 2 ^ Z.of_nat k in
      cube_root k (if next ^ 3 <=? n then next else root) n
  end.

Definition round_constants : list Z :=
  Eval vm_compute in map (fun p => w32 (cube_root 36 0 (p * 2 ^ 96))) primes.

(** The working variables a..h, which are also the chaining value. *)
Record words := W { wa : Z; wb : Z; wc : Z; wd : Z; we : Z; wf : Z; wg : Z; wh : Z }.

Definition initial : words := Eval vm_compute in
  match map (fun p => w32 (Z.sqrt (p * 2 ^ 64))) primes with
  | a :: b :: c :: d :: e :: f :: g :: h :: _ => W a b c d e f g h
  | _ => W 0 0 0 0 0 0 0 0
  end.

Definition round (s : words) (kw : Z) : words :=
  let t1 := wh s + bsig1 (we s) + ch (we s) (wf s) (wg s) + kw in
  let t2 := bsig0 (wa s) + maj (wa s) (wb s) (wc s) in
  W (w32 (t1 + t2)) (wa s) (wb s) (wc s) (w32 (wd s + t1)) (we s) (wf s) (wg s).

(** The message schedule, newest word first. *)
Fixpoint extend (n : nat) (ws : list Z) : list Z :=
  match n with
  | O => ws
  | S n =>
      let at_ i := default 0 (ws !! i) in
      extend n (w32 (ssig1 (at_ 1%nat) + at_ 6%nat + ssig0 (at_ 14%nat) + at_ 15%nat) :: ws)
  end.

Definition add_words (s t : words) : words :=
  W (w32 (wa s + wa t)) (w32 (wb s + wb t)) (w32 (wc s + wc t)) (w32 (wd s + wd t))
    (w32 (we s + we t)) (w32 (wf s + wf t)) (w32 (wg s + wg t)) (w32 (wh s + wh t)).

Definition compress (s : words) (block : list Z) : words :=
  let ws := rev (extend 48 (rev block)) in
  let kws := zip_with Z.add round_constants ws in
  add_words s (fold_left round kws s).

(** Big-endian 32-bit words of a byte string, four bytes at a time. *)
Fixpoint be_words (bs : bytes) : list Z :=
  match bs with
  | a :: b :: c :: d :: bs => from_bytes [a; b; c; d] :: be_words bs
  | _ => []
  end.

Definition pad (bs : bytes) : bytes :=
  let n := length bs in
  bs ++ [Byte.x80] ++ zeros (Z.to_nat ((55 - Z.of_nat n) mod 64))
     ++ be_bytes 8 (8 * Z.of_nat n).

Fixpoint blocks (n : nat) (ws : list Z) (s : words) : words :=
  match n with
  | O => s
  | S n => blocks n (drop 16 ws) (compress s (take 16 ws))
  end.

Definition digest (bs : bytes) : bytes :=
  let ws := be_words (pad bs) in
  let s := blocks (length ws / 16)%nat ws initial in
  concat (map (be_bytes 4) [wa s; wb s; wc s; wd s; we s; wf s; wg s; wh s]).

Lemma length_digest bs : length (digest bs) = 32%nat.
Proof. unfold digest. cbn -[be_bytes blocks pad]. by rewrite !length_app, !length_be_bytes. Qed.

#[export] Instance hashlib : Hashlib := {
  sha256 := digest;
  length_sha256 := length_digest
}.

(** FIPS 180-4 test vectors: the empty string and "abc". *)
Example digest_empty :
  Ok (digest []) =
  fromhex (str "e3b0c44298fc1c149afbf4c8996fb92427ae41e4649b934ca495991b7852b855").
Proof. vm_compute. reflexivity. Qed.

Example digest_abc :
  Ok (digest [Byte.x61; Byte.x62; Byte.x63]) =
  fromhex (str "ba7816bf8f01cfea414140de5dae2223b00361a396177a9cb410ff61f20015ad").
Proof. vm_compute. reflexivity. Qed.
End Sha256.
