(* ===== verification/MmrPos.v ===== *)
(** * Position arithmetic of the Merkle Mountain Range

    [src/python/checkpoint/core.py], section "position math": the height of a
    flat-array position, the node count of a number of leaves, the peaks of a
    size, and the two directions between leaf indices and positions. *)
From S2P Require Import Prelude.
Open Scope Z_scope.

Definition DIGEST_LEN : Z := 32.
Definition MAX_MMR_SIZE : Z := 2 ^ 50.

Definition _require_nonneg_int (n : Z) : result unit :=
  if n <? 0 then Raise InvalidArgumentError else Ok tt.

(** ** [height_at]

    [height_climb] is the first loop: the smallest [h] whose perfect tree
    holds [pos1] nodes. [height_descend] is the second, one step per level. *)
Fixpoint height_climb (fuel : nat) (pos1 h : Z) : Z :=
  match fuel with
  | O => h
  | S fuel => if 2 ^ (h + 1) - 1 <? pos1 then height_climb fuel pos1 (h + 1) else h
  end.

Fixpoint height_descend (h : nat) (pos1 : Z) : Z :=
  match h with
  | O => 0
  | S h' =>
      let size := 2 ^ (Z.of_nat h + 1) - 1 in
      if pos1 =? size then Z.of_nat h
      else
        let left_size := 2 ^ Z.of_nat h - 1 in
        let pos1 := if left_size <? pos1 then pos1 - left_size else pos1 in
        height_descend h' pos1
  end.

Definition height_at (pos : Z) : result Z :=
  let! _ := _require_nonneg_int pos in
  let pos1 := pos + 1 in
  let h := height_climb (Z.to_nat (Z.log2 pos1)) pos1 0 in
  Ok (height_descend (Z.to_nat h) pos1).

(** ** [node_count]: [2f - popcount(f)] *)
Fixpoint ones (p : positive) : Z :=
  match p with
  | xH => 1
  | xO p => ones p
  | xI p => 1 + ones p
  end.

(** [bin(n).count("1")] *)
Definition popcount (n : Z) : Z :=
  match n with Z0 => 0 | Zpos p | Zneg p => ones p end.

Definition node_count (leaf_count_ : Z) : result Z :=
  let! _ := _require_nonneg_int leaf_count_ in
  Ok (2 * leaf_count_ - popcount leaf_count_).

(** ** [peaks] *)
Fixpoint largest_mountain (fuel : nat) (remaining h : Z) : Z :=
  match fuel with
  | O => h
  | S fuel =>
      if 2 ^ (h + 2) - 1 <=? remaining then largest_mountain fuel remaining (h + 1) else h
  end.

(** [prev_height] starts as [float("inf")], here [None]. *)
Fixpoint peaks_loop (fuel : nat) (remaining offset : Z) (prev_height : option Z)
  : result (list Z) :=
  if 0 <? remaining then
    match fuel with
    | O => Raise OutOfFuel
    | S fuel =>
        let h := largest_mountain (Z.to_nat (Z.log2 remaining)) remaining 0 in
        if match prev_height with Some p => p <=? h | None => false end
        then Raise InvalidArgumentError
        else
          let m_size := 2 ^ (h + 1) - 1 in
          let offset := offset + m_size in
          let! rest := peaks_loop fuel (remaining - m_size) offset (Some h) in
          Ok (offset - 1 :: rest)
    end
  else Ok [].

Definition peaks (size : Z) : result (list Z) :=
  if (size <? 0) || (MAX_MMR_SIZE <=? size) then Raise InvalidArgumentError
  else peaks_loop (Z.to_nat (Z.log2 size + 2)) size 0 None.

Definition sum_list (l : list Z) : Z := fold_right Z.add 0 l.

Definition leaf_count (size : Z) : result Z :=
  let! pks := peaks size in
  let! hs := map_result height_at pks in
  Ok (sum_list (map (fun h => 2 ^ h) hs)).

Definition leaf_index_to_pos (leaf_index : Z) : result Z :=
  let! _ := _require_nonneg_int leaf_index in
  let! pos := node_count leaf_index in
  if MAX_MMR_SIZE <=? pos then Raise InvalidArgumentError else Ok pos.

Definition pos_to_leaf_index (pos : Z) : result Z :=
  let! h := height_at pos in
  if negb (h =? 0) then Raise InvalidArgumentError else leaf_count pos.

Example peaks_39 : peaks 39 = Ok [30; 37; 38].
Proof. reflexivity. Qed.
Example leaf_count_39 : leaf_count 39 = Ok 21.
Proof. reflexivity. Qed.
Example peaks_2 : peaks 2 = Raise InvalidArgumentError.
Proof. reflexivity. Qed.
Example heights_15 :
  map_result height_at [0; 1; 2; 3; 4; 5; 6; 7; 8; 9; 10; 11; 12; 13; 14]
  = Ok [0; 0; 1; 0; 0; 1; 2; 0; 0; 1; 0; 0; 1; 2; 3].
Proof. reflexivity. Qed.

(** ** The closed form of a node's position

    A node of height [h] whose leaves start at index [s] sits at position
    [nc s + 2^(h+1) - 2]; it exists when [s] is a multiple of [2^h]. *)
Definition p2 (h : nat) : Z := 2 ^ Z.of_nat h.
Definition nc (f : Z) : Z := 2 * f - popcount f.
Definition node_pos (h : nat) (s : Z) : Z := nc s + p2 (S h) - 2.
Definition aligned (h : nat) (s : Z) : Prop := exists k, 0 <= k /\ s = k * p2 h.

Lemma p2_0 : p2 0 = 1.
Proof. done. Qed.
Lemma p2_S h : p2 (S h) = 2 * p2 h.
Proof. unfold p2. rewrite Nat2Z.inj_succ, Z.pow_succ_r; lia. Qed.
Lemma p2_pos h : 0 < p2 h.
Proof. unfold p2. apply Z.pow_pos_nonneg; lia. Qed.
Lemma p2_add g h : p2 (g + h) = p2 g * p2 h.
Proof. unfold p2. rewrite Nat2Z.inj_add, Z.pow_add_r; lia. Qed.
Lemma p2_le g h : (g <= h)%nat -> p2 g <= p2 h.
Proof. intros. unfold p2. apply Z.pow_le_mono_r; lia. Qed.
Lemma p2_lt g h : (g < h)%nat -> 2 * p2 g <= p2 h.
Proof. intros. rewrite <- p2_S. apply p2_le. lia. Qed.
Lemma p2_Z h : 2 ^ Z.of_nat h = p2 h.
Proof. done. Qed.
Lemma p2_Z1 h : 2 ^ (Z.of_nat h + 1) = 2 * p2 h.
Proof. rewrite <- p2_S. unfold p2. f_equal. lia. Qed.
Lemma p2_Z2 h : 2 ^ (Z.of_nat h + 2) = 4 * p2 h.
Proof. replace (Z.of_nat h + 2) with (Z.of_nat (S h) + 1) by lia. rewrite p2_Z1, p2_S. lia. Qed.
Lemma p2_gt h : Z.of_nat h < p2 h.
Proof. unfold p2. apply Z.pow_gt_lin_r; lia. Qed.

(** Popcount *)
Lemma popcount_double a : popcount (2 * a) = popcount a.
Proof. by destruct a. Qed.
Lemma popcount_succ_double a : 0 <= a -> popcount (2 * a + 1) = popcount a + 1.
Proof.
  destruct a as [|p|p]; [done|intros _|lia].
  change (popcount (2 * Z.pos p + 1)) with (1 + ones p). cbn [popcount]. lia.
Qed.
Lemma ones_range p : 1 <= ones p <= Z.pos p.
Proof. induction p; cbn [ones]; lia. Qed.
Lemma ones_succ p : ones (Pos.succ p) <= ones p + 1.
Proof.
  induction p as [p IH|p IH|];
    [change (ones (Pos.succ p) <= 1 + ones p + 1)|change (1 + ones p <= ones p + 1)|done]; lia.
Qed.
Lemma popcount_nonneg a : 0 <= popcount a.
Proof. destruct a as [|p|p]; cbn [popcount]; [lia|..]; pose proof (ones_range p); lia. Qed.
Lemma popcount_pos a : 0 < a -> 1 <= popcount a.
Proof. destruct a as [|p|p]; cbn [popcount]; [lia|..]; pose proof (ones_range p); lia. Qed.
Lemma popcount_le a : 0 <= a -> popcount a <= a.
Proof. destruct a as [|p|p]; cbn [popcount]; [lia|..]; pose proof (ones_range p); lia. Qed.
Lemma popcount_succ a : 0 <= a -> popcount (a + 1) <= popcount a + 1.
Proof.
  destruct a as [|p|p]; [done|intros _|lia].
  change (Z.pos p + 1) with (Z.pos (p + 1)). rewrite Pos.add_1_r.
  cbn [popcount]. apply ones_succ.
Qed.

Lemma popcount_split a h b :
  0 <= a -> 0 <= b < p2 h -> popcount (a * p2 h + b) = popcount a + popcount b.
Proof.
  intros Ha. revert b. induction h as [|h IH]; intros b Hb.
  - change (p2 0) with 1 in *. replace b with 0 by lia.
    rewrite Z.mul_1_r, Z.add_0_r. cbn. lia.
  - rewrite p2_S in *. pose proof (p2_pos h).
    destruct (Z.Even_or_Odd b) as [[c ->]|[c ->]].
    + replace (a * (2 * p2 h) + 2 * c) with (2 * (a * p2 h + c)) by lia.
      rewrite !popcount_double. apply IH. lia.
    + replace (a * (2 * p2 h) + (2 * c + 1)) with (2 * (a * p2 h + c) + 1) by lia.
      rewrite !popcount_succ_double by nia. rewrite IH by lia. lia.
Qed.

Lemma popcount_p2 h : popcount (p2 h) = 1.
Proof.
  pose proof (p2_pos h). replace (p2 h) with (1 * p2 h + 0) by lia.
  rewrite popcount_split; [done|lia..].
Qed.

(** [node_count] as a function *)
Lemma node_count_nc f : 0 <= f -> node_count f = Ok (nc f).
Proof.
  intros. unfold node_count, _require_nonneg_int.
  by replace (f <? 0) with false by (symmetry; apply Z.ltb_ge; lia).
Qed.

Lemma nc_0 : nc 0 = 0.
Proof. done. Qed.
Lemma nc_split a h b : 0 <= a -> 0 <= b < p2 h -> nc (a * p2 h + b) = nc (a * p2 h) + nc b.
Proof.
  intros. pose proof (p2_pos h). unfold nc. rewrite popcount_split by lia.
  replace (a * p2 h) with (a * p2 h + 0) at 3 by lia. rewrite popcount_split by lia. cbn. lia.
Qed.
Lemma nc_p2 h : nc (p2 h) = 2 * p2 h - 1.
Proof. unfold nc. by rewrite popcount_p2. Qed.
Lemma nc_succ f : 0 <= f -> nc f + 1 <= nc (f + 1).
Proof. intros. unfold nc. pose proof (popcount_succ f). lia. Qed.
Lemma nc_ge f : 0 <= f -> f <= nc f.
Proof. intros. unfold nc. pose proof (popcount_le f). lia. Qed.
Lemma nc_le f : 0 <= f -> nc f <= 2 * f.
Proof. intros. unfold nc. pose proof (popcount_nonneg f). lia. Qed.

Lemma nc_lt f g : 0 <= f < g -> nc f < nc g.
Proof.
  intros Hfg. replace g with (f + 1 + Z.of_nat (Z.to_nat (g - f - 1))) by lia.
  generalize (Z.to_nat (g - f - 1)). intros n. induction n as [|n IH].
  - rewrite Z.add_0_r. pose proof (nc_succ f). lia.
  - pose proof (nc_succ (f + 1 + Z.of_nat n)).
    replace (f + 1 + Z.of_nat (S n)) with (f + 1 + Z.of_nat n + 1) by lia. lia.
Qed.
Lemma nc_lt_iff f g : 0 <= f -> 0 <= g -> nc f < nc g <-> f < g.
Proof.
  intros. split; intros; [|by apply nc_lt].
  destruct (decide (f < g)); [done|]. destruct (decide (f = g)) as [->|]; [lia|].
  pose proof (nc_lt g f). lia.
Qed.
Lemma nc_inj f g : 0 <= f -> 0 <= g -> nc f = nc g -> f = g.
Proof.
  intros Hf Hg E. pose proof (nc_lt_iff f g Hf Hg). pose proof (nc_lt_iff g f Hg Hf). lia.
Qed.

(** Alignment *)
Lemma aligned_0 h : aligned h 0.
Proof. exists 0. lia. Qed.
Lemma aligned_nonneg h s : aligned h s -> 0 <= s.
Proof. intros (k & Hk & ->). pose proof (p2_pos h). nia. Qed.
Lemma aligned_zero s : 0 <= s -> aligned 0 s.
Proof. exists s. rewrite p2_0. lia. Qed.
Lemma aligned_pred h s : aligned (S h) s -> aligned h s.
Proof. intros (k & Hk & ->). exists (2 * k). rewrite p2_S. lia. Qed.
Lemma aligned_le g h s : (g <= h)%nat -> aligned h s -> aligned g s.
Proof. induction 1; [done|]. intros. auto using aligned_pred. Qed.
Lemma aligned_add h s : aligned h s -> aligned h (s + p2 h).
Proof. intros (k & Hk & ->). exists (k + 1). lia. Qed.
Lemma aligned_sub h s t : aligned h s -> aligned h t -> t <= s -> aligned h (s - t).
Proof.
  intros (k & Hk & ->) (l & Hl & ->) Hle. pose proof (p2_pos h).
  exists (k - l). nia.
Qed.
Lemma aligned_p2 g h : (g <= h)%nat -> aligned g (p2 h).
Proof.
  intros. exists (p2 (h - g)). split; [pose proof (p2_pos (h - g)); lia|].
  rewrite <- p2_add. f_equal. lia.
Qed.
Lemma aligned_lt_le h s t : aligned h s -> aligned h t -> s < t -> s + p2 h <= t.
Proof.
  intros (k & Hk & ->) (l & Hl & ->) Hlt. pose proof (p2_pos h).
  assert (k < l) by (apply (Z.mul_lt_mono_pos_r (p2 h)); lia). nia.
Qed.
#[export] Hint Resolve aligned_0 aligned_nonneg aligned_zero aligned_pred aligned_add p2_pos : cll.

Lemma nc_add h s b : aligned h s -> 0 <= b < p2 h -> nc (s + b) = nc s + nc b.
Proof. intros (k & Hk & ->) Hb. by apply nc_split. Qed.
Lemma nc_add_p2 h s : aligned (S h) s -> nc (s + p2 h) = nc s + 2 * p2 h - 1.
Proof.
  intros. pose proof (p2_pos h). rewrite (nc_add (S h)); [|done|rewrite p2_S; lia].
  rewrite nc_p2. lia.
Qed.
(** A mountain starting at [s] fits between the nodes before its leaves and
    those before the leaf after it. *)
Lemma nc_add_p2_ge h s : aligned h s -> nc s + 2 * p2 h - 1 <= nc (s + p2 h).
Proof.
  intros (k & Hk & ->). pose proof (p2_pos h).
  replace (k * p2 h + p2 h) with ((k + 1) * p2 h) by lia. unfold nc.
  replace ((k + 1) * p2 h) with ((k + 1) * p2 h + 0) by lia.
  replace (k * p2 h) with (k * p2 h + 0) by lia.
  rewrite !popcount_split by lia. pose proof (popcount_succ k). cbn [popcount]. lia.
Qed.

(** ** [height_at] computes the height of every node *)
Lemma height_climb_spec fuel pos1 (h : nat) :
  1 <= pos1 ->
  Z.log2 pos1 <= Z.of_nat h + Z.of_nat fuel ->
  (forall g, (g < h)%nat -> 2 * p2 g - 1 < pos1) ->
  exists h' : nat,
    height_climb fuel pos1 (Z.of_nat h) = Z.of_nat h' /\
    pos1 <= 2 * p2 h' - 1 /\ (forall g, (g < h')%nat -> 2 * p2 g - 1 < pos1).
Proof.
  intros Hpos. revert h. induction fuel as [|fuel IH]; intros h Hfuel Hlow.
  - exists h. split; [done|]. split; [|done].
    assert (pos1 < p2 (S h)) by (unfold p2; apply Z.log2_lt_pow2; lia).
    rewrite p2_S in *. lia.
  - cbn [height_climb]. rewrite p2_Z1. destruct (2 * p2 h - 1 <? pos1) eqn:E; zbool.
    + replace (Z.of_nat h + 1) with (Z.of_nat (S h)) by lia. apply IH; [lia|].
      intros g Hg. destruct (decide (g = h)) as [->|]; [done|]. apply Hlow. lia.
    + exists h. split; [done|]. split; [lia|done].
Qed.

Lemma height_descend_node H h s :
  aligned h s -> s + p2 h <= p2 H ->
  height_descend H (nc s + 2 * p2 h - 1) = Z.of_nat h.
Proof.
  revert s. induction H as [|H IH]; intros s Hal Hle.
  - pose proof (aligned_nonneg h s Hal). pose proof (p2_gt h). rewrite p2_0 in Hle.
    cbn [height_descend]. lia.
  - cbn [height_descend]. rewrite p2_Z1, p2_Z. pose proof (p2_pos h).
    pose proof (aligned_nonneg h s Hal) as Hs.
    assert (h <= S H)%nat as HhH.
    { destruct (decide (h <= S H)%nat) as [|n]; [done|].
      pose proof (p2_lt (S H) h). pose proof (p2_pos (S H)). lia. }
    destruct (decide (h = S H)) as [->|Hne].
    { assert (s = 0) as -> by lia. rewrite nc_0.
      replace (0 + 2 * p2 (S H) - 1 =? 2 * p2 (S H) - 1) with true; [done|].
      symmetry. apply Z.eqb_eq. lia. }
    assert (aligned h (p2 H)) as HalH by (apply aligned_p2; lia).
    pose proof (nc_p2 H) as HncH. rewrite (p2_S H) in *.
    destruct (decide (s < p2 H)) as [Hlt|Hge].
    + pose proof (aligned_lt_le _ _ _ Hal HalH Hlt) as Hle'.
      pose proof (nc_add_p2_ge h s Hal).
      assert (nc (s + p2 h) <= nc (p2 H)).
      { destruct (decide (s + p2 h = p2 H)) as [->|]; [lia|].
        pose proof (nc_lt (s + p2 h) (p2 H)). lia. }
      replace (_ =? _) with false by (symmetry; apply Z.eqb_neq; lia).
      replace (2 * p2 H - 1 <? _) with false by (symmetry; apply Z.ltb_ge; lia).
      by apply IH.
    + set (t := s - p2 H). assert (s = p2 H + t) as Est by (unfold t; lia).
      assert (aligned h t) as Halt by (apply aligned_sub; [done..|lia]).
      assert (0 <= t < p2 H) as Ht by (unfold t; lia).
      assert (nc s = 2 * p2 H - 1 + nc t) as Enc.
      { rewrite Est, (nc_add H); [by rewrite nc_p2| |done].
        apply aligned_p2. lia. }
      pose proof (nc_add_p2_ge h t Halt). pose proof (nc_ge t).
      assert (nc (t + p2 h) <= nc (p2 H)).
      { destruct (decide (t + p2 h = p2 H)) as [->|]; [lia|].
        pose proof (nc_lt (t + p2 h) (p2 H)). unfold t in *. lia. }
      replace (_ =? _) with false by (symmetry; apply Z.eqb_neq; lia).
      replace (2 * p2 H - 1 <? _) with true by (symmetry; apply Z.ltb_lt; lia).
      replace (nc s + 2 * p2 h - 1 - (2 * p2 H - 1)) with (nc t + 2 * p2 h - 1) by lia.
      apply IH; [done|]. unfold t. lia.
Qed.

Lemma height_at_node_pos h s : aligned h s -> height_at (node_pos h s) = Ok (Z.of_nat h).
Proof.
  intros Hal. pose proof (aligned_nonneg _ _ Hal) as Hs. pose proof (p2_pos h).
  pose proof (nc_ge s Hs). unfold height_at, _require_nonneg_int, node_pos. rewrite p2_S.
  replace (_ <? 0) with false by (symmetry; apply Z.ltb_ge; lia).
  replace (nc s + 2 * p2 h - 2 + 1) with (nc s + 2 * p2 h - 1) by lia.
  set (pos1 := nc s + 2 * p2 h - 1).
  destruct (height_climb_spec (Z.to_nat (Z.log2 pos1)) pos1 0) as (H' & E & Hhi & Hlow);
    [unfold pos1; lia|pose proof (Z.log2_nonneg pos1); lia|intros; lia|].
  change 0 with (Z.of_nat 0). rewrite E, Nat2Z.id. f_equal. apply height_descend_node; [done|].
  destruct (decide (s + p2 h <= p2 H')) as [|Hgt]; [done|exfalso].
  destruct (decide (h <= H')%nat) as [HhH|HhH].
  - assert (p2 H' <= s) as Hle.
    { destruct (decide (s < p2 H')) as [Hlt|]; [|lia].
      pose proof (aligned_lt_le h s (p2 H') Hal (aligned_p2 h H' HhH) Hlt). lia. }
    assert (nc (p2 H') <= nc s).
    { destruct (decide (s = p2 H')) as [->|]; [lia|].
      pose proof (p2_pos H'). pose proof (nc_lt (p2 H') s). lia. }
    rewrite nc_p2 in *. unfold pos1 in *. lia.
  - pose proof (p2_lt H' h). unfold pos1 in *. lia.
Qed.

(** ** Mountains

    The mountains of an MMR of [f] leaves, tallest first: one perfect tree of
    height [h] per set bit [h] of [f], with the index [s] of its first leaf. *)
Fixpoint mts (H : nat) (f s : Z) : list (nat * Z) :=
  match H with
  | O => []
  | S h => if p2 h <=? f then (h, s) :: mts h (f - p2 h) (s + p2 h) else mts h f s
  end.
Definition bits (f : Z) : nat := Z.to_nat (Z.log2 f + 1).
Definition mountains (f : Z) : list (nat * Z) := mts (bits f) f 0.
Definition peak_of (m : nat * Z) : Z := node_pos m.1 m.2.

Lemma bits_spec f : 0 <= f -> f < p2 (bits f).
Proof.
  intros. unfold bits, p2. pose proof (Z.log2_nonneg f). rewrite Z2Nat.id by lia.
  destruct (decide (f = 0)) as [->|]; [done|]. apply Z.log2_lt_pow2; lia.
Qed.

Lemma mts_extend H f s : 0 <= f < p2 H -> mts (S H) f s = mts H f s.
Proof. intros. cbn [mts]. by replace (p2 H <=? f) with false by (symmetry; apply Z.leb_gt; lia). Qed.

Lemma mts_ge H K f s : 0 <= f < p2 H -> (H <= K)%nat -> mts K f s = mts H f s.
Proof.
  intros Hf HK. induction HK as [|K HK IH]; [done|].
  rewrite mts_extend; [done|]. pose proof (p2_le H K). lia.
Qed.

Lemma mountains_mts H f : 0 <= f < p2 H -> mountains f = mts H f 0.
Proof.
  intros Hf. pose proof (bits_spec f). unfold mountains.
  destruct (decide (H <= bits f)%nat); [|symmetry]; apply mts_ge; lia.
Qed.

Lemma mts_0 H s : mts H 0 s = [].
Proof.
  revert s. induction H as [|H IH]; intros s; cbn [mts]; [done|].
  pose proof (p2_pos H). by replace (p2 H <=? 0) with false by (symmetry; apply Z.leb_gt; lia).
Qed.

(** Every mountain lies inside the leaf range and is aligned. *)
Lemma mts_elem H f s h t :
  aligned H s -> 0 <= f < p2 H -> (h, t) ∈ mts H f s ->
  (h < H)%nat /\ aligned (S h) t /\ s <= t /\ t + p2 h <= s + f.
Proof.
  revert f s. induction H as [|H IH]; intros f s Hal Hf Hin; cbn [mts] in Hin.
  { by apply not_elem_of_nil in Hin. }
  rewrite p2_S in Hf. pose proof (p2_pos H). destruct (p2 H <=? f) eqn:E; zbool.
  - apply elem_of_cons in Hin as [Heq|Hin].
    + simplify_eq. split_and!; [lia|done|lia..].
    + apply IH in Hin as (? & ? & ? & ?); [|auto with cll|lia]. split_and!; [lia|done|lia..].
  - apply IH in Hin as (? & ? & ? & ?); [|auto with cll|lia]. split_and!; [lia|done|lia..].
Qed.

Lemma mountains_elem f h t :
  0 <= f -> (h, t) ∈ mountains f -> aligned (S h) t /\ 0 <= t /\ t + p2 h <= f.
Proof.
  intros Hf Hin. apply mts_elem in Hin as (? & ? & ? & ?); [done|apply aligned_0|].
  pose proof (bits_spec f). lia.
Qed.

(** ** [peaks] returns the peaks of the mountains *)
Lemma largest_mountain_spec fuel remaining (h : nat) :
  2 * p2 h - 1 <= remaining ->
  Z.log2 remaining <= Z.of_nat h + Z.of_nat fuel ->
  exists h' : nat,
    largest_mountain fuel remaining (Z.of_nat h) = Z.of_nat h' /\
    2 * p2 h' - 1 <= remaining < 4 * p2 h' - 1.
Proof.
  revert h. induction fuel as [|fuel IH]; intros h Hle Hfuel; cbn [largest_mountain].
  - exists h. split; [done|]. pose proof (p2_pos h).
    assert (remaining < p2 (S h)) by (unfold p2; apply Z.log2_lt_pow2; lia).
    rewrite p2_S in *. lia.
  - rewrite p2_Z2. destruct (4 * p2 h - 1 <=? remaining) eqn:E; zbool.
    + replace (Z.of_nat h + 1) with (Z.of_nat (S h)) by lia. apply IH; rewrite ?p2_S; lia.
    + exists h. split; [done|]. lia.
Qed.

Lemma largest_mountain_0 remaining :
  0 < remaining ->
  exists h : nat,
    largest_mountain (Z.to_nat (Z.log2 remaining)) remaining 0 = Z.of_nat h /\
    2 * p2 h - 1 <= remaining < 4 * p2 h - 1.
Proof.
  intros. apply (largest_mountain_spec _ remaining 0); [rewrite p2_0; lia|].
  pose proof (Z.log2_nonneg remaining). lia.
Qed.

(** Two mountains bracketing one number have one height. *)
Lemma bracket_unique g h n :
  2 * p2 g - 1 <= n < 4 * p2 g - 1 -> 2 * p2 h - 1 <= n < 4 * p2 h - 1 -> g = h.
Proof.
  intros. destruct (decide (g < h)%nat) as [Hlt|]; [pose proof (p2_lt g h Hlt); lia|].
  destruct (decide (h < g)%nat) as [Hlt|]; [pose proof (p2_lt h g Hlt); lia|]. lia.
Qed.

Lemma nc_bracket H f : p2 H <= f < 2 * p2 H -> 2 * p2 H - 1 <= nc f < 4 * p2 H - 1.
Proof.
  intros. pose proof (p2_pos H). replace f with (p2 H + (f - p2 H)) by lia.
  rewrite (nc_add H); [|by apply aligned_p2|lia]. rewrite nc_p2.
  pose proof (nc_ge (f - p2 H)). pose proof (nc_le (f - p2 H)). lia.
Qed.

Lemma peaks_loop_mts H f s fuel prev :
  0 <= f < p2 H -> aligned H s -> (H <= fuel)%nat ->
  (forall q, prev = Some q -> Z.of_nat H <= q) ->
  peaks_loop fuel (nc f) (nc s) prev = Ok (map peak_of (mts H f s)).
Proof.
  revert f s fuel prev. induction H as [|H IH]; intros f s fuel prev Hf Hal Hfuel Hprev.
  { rewrite p2_0 in Hf. replace f with 0 by lia. by destruct fuel. }
  pose proof (p2_pos H). rewrite p2_S in Hf. cbn [mts].
  destruct (p2 H <=? f) eqn:E; zbool; cycle 1.
  { apply IH; [lia|auto with cll|lia|]. intros q Hq. apply Hprev in Hq. lia. }
  destruct fuel as [|fuel]; [lia|]. cbn [peaks_loop].
  pose proof (nc_ge f ltac:(lia)).
  replace (0 <? nc f) with true by (symmetry; apply Z.ltb_lt; lia).
  destruct (largest_mountain_0 (nc f)) as (h & -> & Hh); [lia|].
  rewrite (bracket_unique h H _ Hh (nc_bracket H f ltac:(lia))). clear h Hh.
  replace (match prev with Some p => p <=? Z.of_nat H | None => false end) with false; cycle 1.
  { destruct prev as [q|]; [|done]. specialize (Hprev q eq_refl).
    symmetry. apply Z.leb_gt. lia. }
  rewrite p2_Z1. assert (nc f = 2 * p2 H - 1 + nc (f - p2 H)) as Enc.
  { rewrite <- nc_p2, <- (nc_add H); [f_equal; lia|by apply aligned_p2|lia]. }
  replace (nc f - (2 * p2 H - 1)) with (nc (f - p2 H)) by lia.
  replace (nc s + (2 * p2 H - 1)) with (nc (s + p2 H)) by (rewrite nc_add_p2 by done; lia).
  rewrite IH; [|lia|auto with cll|lia|intros q [= <-]; lia].
  cbn [map]. do 2 f_equal. unfold peak_of, node_pos. cbn [fst snd].
  rewrite nc_add_p2, p2_S by done. lia.
Qed.

Lemma peaks_nc f : 0 <= f -> nc f < MAX_MMR_SIZE -> peaks (nc f) = Ok (map peak_of (mountains f)).
Proof.
  intros Hf Hmax. pose proof (nc_ge f Hf). unfold peaks.
  replace ((nc f <? 0) || (MAX_MMR_SIZE <=? nc f)) with false; cycle 1.
  { symmetry. apply orb_false_iff. split; [apply Z.ltb_ge|apply Z.leb_gt]; lia. }
  change 0 with (nc 0) at 1. apply peaks_loop_mts; [|apply aligned_0| |done].
  - split; [done|]. by apply bits_spec.
  - unfold bits. pose proof (Z.log2_le_mono f (nc f) ltac:(lia)). pose proof (Z.log2_nonneg f). lia.
Qed.

Lemma peaks_loop_inv fuel remaining offset prev l :
  0 <= remaining -> (forall q, prev = Some q -> 0 <= q) ->
  peaks_loop fuel remaining offset prev = Ok l ->
  exists f, 0 <= f /\ remaining = nc f /\ (forall q, prev = Some q -> f < 2 ^ q).
Proof.
  revert remaining offset prev l.
  induction fuel as [|fuel IH]; intros remaining offset prev l Hrem Hprev; cbn [peaks_loop];
    destruct (0 <? remaining) eqn:E; zbool; intros Hl; try done;
    try (exists 0; split_and!; [lia|rewrite nc_0; lia|intros q Hq; apply Z.pow_pos_nonneg; [lia|by apply Hprev]]).
  destruct (largest_mountain_0 remaining E) as (h & Eh & Hh). rewrite Eh, p2_Z1 in Hl.
  destruct (match prev with Some p => p <=? Z.of_nat h | None => false end) eqn:Ep; [done|].
  destruct (peaks_loop fuel _ _ _) as [rest|] eqn:Er; [|done].
  apply IH in Er as (f & Hf & Ef & Hlt); [|lia|intros q [= <-]; lia].
  specialize (Hlt _ eq_refl). rewrite p2_Z in Hlt.
  exists (p2 h + f). pose proof (p2_pos h). split_and!; [lia| |].
  - rewrite (nc_add h), nc_p2 by (by apply aligned_p2 || lia). lia.
  - intros q ->. zbool. specialize (Hprev q eq_refl).
    rewrite <- (Z2Nat.id q) in * by lia. rewrite p2_Z.
    pose proof (p2_lt h (Z.to_nat q) ltac:(lia)). lia.
Qed.

Lemma peaks_Ok_inv size l : peaks size = Ok l -> exists f, 0 <= f /\ size = nc f /\ size < MAX_MMR_SIZE.
Proof.
  unfold peaks. destruct (_ || _) eqn:E; [done|]. zbool. intros Hl.
  apply peaks_loop_inv in Hl as (f & Hf & Ef & _); [|lia|done]. eauto.
Qed.

Lemma peaks_loop_fuel fuel remaining offset prev :
  0 <= remaining ->
  match prev with Some p => 0 <= p < Z.of_nat fuel | None => Z.log2 remaining + 2 <= Z.of_nat fuel end ->
  peaks_loop fuel remaining offset prev <> Raise OutOfFuel.
Proof.
  revert remaining offset prev. induction fuel as [|fuel IH]; intros remaining offset prev Hr Hf.
  - destruct prev; [lia|]. pose proof (Z.log2_nonneg remaining). lia.
  - cbn [peaks_loop]. destruct (0 <? remaining) eqn:E; zbool; [|done].
    destruct (largest_mountain_0 remaining E) as (h & Eh & Hh). rewrite Eh, p2_Z1.
    destruct (match prev with Some p => p <=? Z.of_nat h | None => false end) eqn:Ep; [done|].
    specialize (IH (remaining - (2 * p2 h - 1)) (offset + (2 * p2 h - 1)) (Some (Z.of_nat h))).
    destruct (peaks_loop fuel _ _ _) as [rest|e]; [done|]. intros [= ->]. apply IH; [lia| |done].
    split; [lia|]. destruct prev as [p|]; zbool; [lia|].
    assert (Z.of_nat h <= Z.log2 remaining); [|lia].
    pose proof (p2_pos h). rewrite <- (Z.log2_pow2 (Z.of_nat h)) by lia. apply Z.log2_le_mono.
    rewrite p2_Z. lia.
Qed.

Lemma peaks_raise size e : peaks size = Raise e -> e = InvalidArgumentError.
Proof.
  unfold peaks. destruct (_ || _) eqn:E; [congruence|]. zbool.
  assert (forall fuel r o p e', peaks_loop fuel r o p = Raise e' ->
    e' = InvalidArgumentError \/ e' = OutOfFuel) as Hcases.
  { clear. induction fuel as [|fuel IH]; intros r o p e'; cbn [peaks_loop];
      destruct (0 <? r); try naive_solver.
    destruct (match p with Some _ => _ | None => _ end); [naive_solver|].
    destruct (peaks_loop fuel _ _ _) eqn:Er; naive_solver. }
  intros He. destruct (Hcases _ _ _ _ _ He) as [| ->]; [done|]. exfalso.
  revert He. apply peaks_loop_fuel; [lia|]. pose proof (Z.log2_nonneg size). lia.
Qed.

(** ** [leaf_count] inverts [node_count] *)
Lemma mountains_heights f :
  0 <= f ->
  map_result height_at (map peak_of (mountains f))
  = Ok (map (fun m => Z.of_nat m.1) (mountains f)).
Proof.
  intros Hf. assert (forall m, m ∈ mountains f -> height_at (peak_of m) = Ok (Z.of_nat m.1)) as Hm.
  { intros [h t] Hin. apply height_at_node_pos. apply mountains_elem in Hin as (Hal & _ & _); [|done].
    auto with cll. }
  revert Hm. generalize (mountains f). intros l Hm. induction l as [|m l IH]; [done|].
  cbn [map map_result]. rewrite Hm by left. rewrite IH; [done|]. intros m' Hin. apply Hm. by right.
Qed.

Lemma sum_mts H f s : 0 <= f < p2 H -> sum_list (map (fun m => p2 m.1) (mts H f s)) = f.
Proof.
  revert f s. induction H as [|H IH]; intros f s Hf; cbn [mts].
  - change (p2 0) with 1 in Hf. cbn. lia.
  - rewrite p2_S in Hf. destruct (p2 H <=? f) eqn:E; zbool; [|apply IH; lia].
    cbn [map sum_list fold_right fst]. fold (sum_list (map (fun m => p2 m.1) (mts H (f - p2 H) (s + p2 H)))).
    rewrite IH; lia.
Qed.

Lemma leaf_count_nc f : 0 <= f -> nc f < MAX_MMR_SIZE -> leaf_count (nc f) = Ok f.
Proof.
  intros Hf Hmax. unfold leaf_count. rewrite peaks_nc by done. rewrite mountains_heights by done.
  f_equal. rewrite map_map. rewrite <- (sum_mts (bits f) f 0) at 2; [done|].
  split; [done|]. by apply bits_spec.
Qed.

Lemma leaf_count_Ok_inv size f :
  leaf_count size = Ok f -> 0 <= f /\ size = nc f /\ size < MAX_MMR_SIZE.
Proof.
  unfold leaf_count. destruct (peaks size) as [pks|] eqn:E; [|done].
  intros Hl. destruct (peaks_Ok_inv _ _ E) as (g & Hg & -> & Hmax).
  rewrite peaks_nc in E by done. injection E as <-.
  pose proof (leaf_count_nc g Hg Hmax) as Hlc. unfold leaf_count in Hlc.
  rewrite peaks_nc in Hlc by done. simplify_eq. rewrite Hlc in Hl. by simplify_eq.
Qed.

Lemma leaf_count_raise size e : leaf_count size = Raise e -> e = InvalidArgumentError.
Proof.
  unfold leaf_count. destruct (peaks size) as [pks|] eqn:E.
  - destruct (peaks_Ok_inv _ _ E) as (g & Hg & -> & Hmax).
    rewrite peaks_nc in E by done. injection E as <-. by rewrite mountains_heights.
  - intros [= <-]. by apply peaks_raise in E.
Qed.

(** ** [height_at] and the traversal of a perfect tree *)
Fixpoint traversal (H : nat) : list Z :=
  match H with
  | O => [0]
  | S h => traversal h ++ traversal h ++ [Z.of_nat H]
  end.

Lemma zlen_traversal H : zlen (traversal H) = 2 * p2 H - 1.
Proof.
  induction H as [|H IH]; [done|]. cbn [traversal].
  rewrite !zlen_app, IH, p2_S. change (zlen [_]) with 1. lia.
Qed.

Lemma traversal_descend H (p : nat) :
  Z.of_nat p < 2 * p2 H - 1 ->
  traversal H !! p = Some (height_descend H (Z.of_nat p + 1)).
Proof.
  revert p. induction H as [|H IH]; intros p Hp.
  { change (p2 0) with 1 in Hp. by replace p with 0%nat by lia. }
  pose proof (zlen_traversal H) as Hlen. unfold zlen in Hlen. pose proof (p2_pos H).
  cbn [traversal height_descend]. rewrite p2_Z1, p2_Z, p2_S in *.
  destruct (decide (Z.of_nat p < 2 * p2 H - 1)).
  - rewrite lookup_app_l by lia.
    replace (_ =? _) with false by (symmetry; apply Z.eqb_neq; lia).
    replace (_ <? _) with false by (symmetry; apply Z.ltb_ge; lia). by apply IH.
  - rewrite lookup_app_r by lia.
    destruct (decide (Z.of_nat p + 1 = 2 * (2 * p2 H) - 1)).
    + replace (_ =? _) with true by (symmetry; by apply Z.eqb_eq).
      rewrite lookup_app_r by lia.
      by replace (p - length (traversal H) - length (traversal H))%nat with 0%nat by lia.
    + replace (_ =? _) with false by (symmetry; by apply Z.eqb_neq).
      replace (_ <? _) with true by (symmetry; apply Z.ltb_lt; lia).
      rewrite lookup_app_l by lia. rewrite IH by lia. do 2 f_equal. lia.
Qed.

Lemma traversal_prefix H K : (H <= K)%nat -> exists l, traversal K = traversal H ++ l.
Proof.
  induction 1 as [|K HK [l IH]]; [exists []; by rewrite app_nil_r|].
  eexists. cbn [traversal]. rewrite IH at 1. by rewrite <- app_assoc.
Qed.

Lemma traversal_lookup_any H K p x y :
  traversal H !! p = Some x -> traversal K !! p = Some y -> x = y.
Proof.
  intros Hx Hy. destruct (decide (H <= K)%nat) as [Hle|Hgt].
  - destruct (traversal_prefix H K Hle) as [l E].
    rewrite E, lookup_app_l in Hy by (by eapply lookup_lt_Some). congruence.
  - destruct (traversal_prefix K H ltac:(lia)) as [l E].
    rewrite E, lookup_app_l in Hx by (by eapply lookup_lt_Some). congruence.
Qed.

Lemma height_at_lookup H p x : traversal H !! p = Some x -> height_at (Z.of_nat p) = Ok x.
Proof.
  intros Hx. unfold height_at, _require_nonneg_int.
  replace (_ <? 0) with false by (symmetry; apply Z.ltb_ge; lia). set (pos1 := Z.of_nat p + 1).
  destruct (height_climb_spec (Z.to_nat (Z.log2 pos1)) pos1 0) as (K & E & Hhi & _);
    [unfold pos1; lia|pose proof (Z.log2_nonneg pos1); lia|intros; lia|].
  change 0 with (Z.of_nat 0). rewrite E, Nat2Z.id. f_equal.
  eapply traversal_lookup_any; [apply (traversal_descend K); unfold pos1 in *; lia|done].
Qed.

(** [height_at] lists the heights of a perfect tree in post order: on the
    positions of the tree [T(H) = T(H-1) ++ T(H-1) ++ [H]] of the docstring it
    returns exactly that list. *)
Theorem height_at_traversal (H : nat) :
  map_result height_at (map Z.of_nat (seq 0 (length (traversal H)))) = Ok (traversal H).
Proof.
  assert (forall l k, (forall i x, l !! i = Some x -> height_at (Z.of_nat (k + i)) = Ok x) ->
    map_result height_at (map Z.of_nat (seq k (length l))) = Ok l) as Hgen.
  { induction l as [|x l IH]; intros k Hl; [done|]. cbn [length seq map map_result].
    pose proof (Hl 0%nat x eq_refl) as H0. rewrite Nat.add_0_r in H0. rewrite H0.
    rewrite IH; [done|]. intros i y Hy. rewrite Nat.add_succ_comm. by apply Hl. }
  apply Hgen. intros i x. apply height_at_lookup.
Qed.

(** [leaf_count] is the inverse of [node_count] and rejects everything
    else: on any size it either returns the [f] with [node_count f = size], for
    a size below [MAX_MMR_SIZE], or raises [InvalidArgumentError], and then no
    number of leaves has that many nodes (or the size is out of range). *)
Theorem leaf_count_correct (size : Z) :
  match leaf_count size with
  | Ok f => 0 <= f /\ node_count f = Ok size /\ size < MAX_MMR_SIZE
  | Raise e =>
      e = InvalidArgumentError /\
      forall f, node_count f = Ok size -> MAX_MMR_SIZE <= size
  end.
Proof.
  destruct (leaf_count size) as [f|e] eqn:E.
  - apply leaf_count_Ok_inv in E as (Hf & -> & Hmax). by rewrite node_count_nc.
  - split; [by eapply leaf_count_raise|]. intros f Hnc.
    destruct (decide (MAX_MMR_SIZE <= size)) as [|Hlt]; [done|exfalso].
    destruct (decide (0 <= f)).
    + rewrite node_count_nc in Hnc by done. simplify_eq. rewrite leaf_count_nc in E by lia. done.
    + unfold node_count, _require_nonneg_int in Hnc.
      by replace (f <? 0) with true in Hnc by (symmetry; apply Z.ltb_lt; lia).
Qed.

(** ** Leaf indices and positions *)
Lemma node_pos_leaf i : node_pos 0 i = nc i.
Proof. unfold node_pos. rewrite p2_S, p2_0. lia. Qed.

Lemma leaf_index_to_pos_nc i :
  0 <= i -> nc i < MAX_MMR_SIZE -> leaf_index_to_pos i = Ok (nc i).
Proof.
  intros Hi Hmax. unfold leaf_index_to_pos, _require_nonneg_int.
  replace (i <? 0) with false by (symmetry; apply Z.ltb_ge; lia).
  rewrite node_count_nc by done. by replace (_ <=? _) with false by (symmetry; apply Z.leb_gt; lia).
Qed.

(** [leaf_index_to_pos] and [pos_to_leaf_index] are inverse to each other:
    the position of a leaf index has height 0 and maps back to the index, the
    index of a position maps back to the position, and the only failure of
    [leaf_index_to_pos] is an index that is negative or too large. *)
Theorem leaf_index_pos_roundtrip (n : Z) :
  match leaf_index_to_pos n with
  | Ok p => height_at p = Ok 0 /\ pos_to_leaf_index p = Ok n
  | Raise e => e = InvalidArgumentError /\ (n < 0 \/ MAX_MMR_SIZE <= nc n)
  end /\
  match pos_to_leaf_index n with
  | Ok i => leaf_index_to_pos i = Ok n
  | Raise e => e = InvalidArgumentError
  end.
Proof.
  split.
  - destruct (decide (n < 0)) as [Hneg|Hn].
    { unfold leaf_index_to_pos, _require_nonneg_int.
      replace (n <? 0) with true by (symmetry; apply Z.ltb_lt; lia). auto. }
    destruct (decide (MAX_MMR_SIZE <= nc n)) as [Hbig|Hmax].
    { unfold leaf_index_to_pos, _require_nonneg_int.
      replace (n <? 0) with false by (symmetry; apply Z.ltb_ge; lia).
      rewrite node_count_nc by lia. replace (_ <=? _) with true by (symmetry; by apply Z.leb_le).
      auto. }
    rewrite leaf_index_to_pos_nc by lia.
    assert (height_at (nc n) = Ok 0) as Hh.
    { rewrite <- node_pos_leaf. apply (height_at_node_pos 0). apply aligned_zero. lia. }
    split; [done|]. unfold pos_to_leaf_index. rewrite Hh. cbn [Z.eqb negb].
    apply leaf_count_nc; lia.
  - unfold pos_to_leaf_index. destruct (height_at n) as [h|e] eqn:Eh.
    + destruct (negb (h =? 0)); [done|]. destruct (leaf_count n) as [i|e] eqn:El.
      * apply leaf_count_Ok_inv in El as (Hi & -> & Hmax). by apply leaf_index_to_pos_nc.
      * by apply leaf_count_raise in El.
    + unfold height_at, _require_nonneg_int in Eh. by destruct (n <? 0); simplify_eq.
Qed.

(** ** Adding a leaf

    The last mountains of equal height merge, like the carries of a binary
    counter: [carry stack h s] pushes the mountain [(h, s)] on the stack of
    mountains, smallest first. *)
Fixpoint carry (stack : list (nat * Z)) (h : nat) (s : Z) : list (nat * Z) :=
  match stack with
  | (h', s') :: rest => if (h' =? h)%nat then carry rest (S h) s' else (h, s) :: stack
  | [] => [(h, s)]
  end.

Definition taller (H : nat) (stack : list (nat * Z)) : Prop :=
  match stack with (h, _) :: _ => (H <= h)%nat | [] => True end.

Lemma carry_taller H s stack : taller (S H) stack -> carry stack H s = (H, s) :: stack.
Proof.
  destruct stack as [|[h t] stack]; [done|]. cbn. intros Hle.
  by replace (h =? H)%nat with false by (symmetry; apply Nat.eqb_neq; lia).
Qed.

Lemma carry_mts H f s stack :
  0 <= f < p2 H -> taller H stack ->
  carry (rev (mts H f s) ++ stack) 0 (s + f) =
  if decide (f + 1 < p2 H) then rev (mts H (f + 1) s) ++ stack else carry stack H s.
Proof.
  revert f s stack. induction H as [|H IH]; intros f s stack Hf Ht.
  { change (p2 0) with 1 in *. replace f with 0 by lia. cbn [mts rev app]. by rewrite Z.add_0_r. }
  pose proof (p2_pos H). rewrite p2_S in *. cbn [mts].
  destruct (p2 H <=? f) eqn:E; zbool.
  - replace (p2 H <=? f + 1) with true by (symmetry; apply Z.leb_le; lia).
    cbn [rev]. rewrite <- !app_assoc. cbn [app].
    replace (s + f) with (s + p2 H + (f - p2 H)) by lia. rewrite IH; [|lia|cbn; lia].
    replace (f + 1 - p2 H) with (f - p2 H + 1) by lia.
    destruct (decide (f - p2 H + 1 < p2 H)).
    + by rewrite decide_True by lia.
    + rewrite decide_False by lia. cbn [carry]. by rewrite Nat.eqb_refl.
  - rewrite IH; [|lia|destruct stack as [|[]]; cbn in *; lia].
    rewrite (decide_True (P := f + 1 < 2 * p2 H)) by lia.
    destruct (decide (f + 1 < p2 H)).
    + by replace (p2 H <=? f + 1) with false by (symmetry; apply Z.leb_gt; lia).
    + replace (p2 H <=? f + 1) with true by (symmetry; apply Z.leb_le; lia).
      replace (f + 1 - p2 H) with 0 by lia. rewrite mts_0. cbn [rev app].
      by apply carry_taller.
Qed.

Lemma mountains_succ f : 0 <= f -> rev (mountains (f + 1)) = carry (rev (mountains f)) 0 f.
Proof.
  intros Hf. set (H := bits (f + 1)). pose proof (bits_spec (f + 1) ltac:(lia)) as Hb.
  rewrite !(mountains_mts H) by (unfold H; lia).
  pose proof (carry_mts H f 0 [] ltac:(unfold H; lia) I) as E.
  rewrite app_nil_r, Z.add_0_l in E. rewrite E, decide_True by done. by rewrite app_nil_r.
Qed.
