(* ===== verification/Mmr.v ===== *)
(** * The Merkle Mountain Range: hashing, storage and appending

    [src/python/checkpoint/core.py], sections "hashing", "conformant
    commitment object" and "node storage protocol + appending", with
    [src/python/checkpoint/store.py], the in-memory node store. *)
From S2P Require Import Prelude Bytes Py Sha256 MmrPos.
Open Scope Z_scope.

(** ** Hashing *)
Section hashing.
Context {HL : Hashlib}.

(** [_assert_digest] returns the digest's content when it is one. *)
Definition _assert_digest (d : pyval) : result bytes :=
  match as_bytes d with
  | Some bs => if zlen bs =? DIGEST_LEN then Ok bs else Raise InvalidArgumentError
  | None => Raise InvalidArgumentError
  end.

Definition leaf_hash (body_digest : bytes) : result bytes :=
  let! body := _assert_digest (PBytes body_digest) in
  Ok (sha256 (Byte.x00 :: body)).

Definition interior_hash (left right : bytes) (position : Z) : result bytes :=
  let! _ := _assert_digest (PBytes left) in
  let! _ := _assert_digest (PBytes right) in
  let! _ := _require_nonneg_int position in
  let! pos_bytes := to_bytes (position + 1) 8 in
  Ok (sha256 (pos_bytes ++ left ++ right)).

(** The bagging loop; the list is the [hashes] stack, top first. *)
Fixpoint bag (right : bytes) (stack : list bytes) : bytes :=
  match stack with
  | [] => right
  | left_ :: stack => bag (sha256 (right ++ left_)) stack
  end.

Definition root_from_peaks (peak_hashes : list bytes) : result bytes :=
  let! _ := map_result (fun p => _assert_digest (PBytes p)) peak_hashes in
  match rev peak_hashes with
  | [] => Ok (zeros 32)
  | last :: stack => Ok (bag last stack)
  end.

(** The hash values themselves, for arguments that pass the checks. *)
Definition lh (body : bytes) : bytes := sha256 (Byte.x00 :: body).
Definition interior_preimage (left right : bytes) (position : Z) : bytes :=
  be_bytes 8 (position + 1) ++ left ++ right.
Definition ih (left right : bytes) (position : Z) : bytes :=
  sha256 (interior_preimage left right position).
Definition bag_peaks (peak_hashes : list bytes) : bytes :=
  match rev peak_hashes with
  | [] => zeros 32
  | last :: stack => bag last stack
  end.
End hashing.

Definition is_digest (bs : bytes) : Prop := length bs = 32%nat.

Lemma assert_digest_bytes bs :
  _assert_digest (PBytes bs) = if decide (is_digest bs) then Ok bs else Raise InvalidArgumentError.
Proof.
  unfold _assert_digest, is_digest, DIGEST_LEN, zlen. cbn [as_bytes].
  destruct (Z.of_nat (length bs) =? 32) eqn:E; zbool;
    destruct (decide (length bs = 32%nat)); (done || lia).
Qed.

Lemma assert_digest_Ok d bs : _assert_digest d = Ok bs -> is_digest bs /\ as_bytes d = Some bs.
Proof.
  unfold _assert_digest, is_digest, DIGEST_LEN, zlen. destruct (as_bytes d) as [b|]; [|done].
  destruct (Z.of_nat (length b) =? 32) eqn:E; [|done]. intros [= <-]. zbool. split; [lia|done].
Qed.

Lemma assert_digest_digest bs : is_digest bs -> _assert_digest (PBytes bs) = Ok bs.
Proof. intros. rewrite assert_digest_bytes. by rewrite decide_True. Qed.

Lemma assert_digests l :
  Forall is_digest l -> map_result (fun p => _assert_digest (PBytes p)) l = Ok l.
Proof. induction 1 as [|x l Hx Hl IH]; [done|]. cbn [map_result]. by rewrite assert_digest_digest, IH. Qed.

Section hashing_lemmas.
Context {HL : Hashlib}.

Lemma sha256_digest bs : is_digest (sha256 bs).
Proof. apply length_sha256. Qed.

Lemma leaf_hash_digest body : is_digest body -> leaf_hash body = Ok (lh body).
Proof. intros. unfold leaf_hash. by rewrite assert_digest_digest. Qed.

Lemma interior_hash_digest l r p :
  is_digest l -> is_digest r -> 0 <= p < 2 ^ 64 - 1 -> interior_hash l r p = Ok (ih l r p).
Proof.
  intros Hl Hr Hp. unfold interior_hash, _require_nonneg_int, to_bytes.
  rewrite !assert_digest_digest by done.
  replace (p <? 0) with false by (symmetry; apply Z.ltb_ge; lia).
  replace (0 <=? p + 1) with true by (symmetry; apply Z.leb_le; lia).
  change (256 ^ Z.of_nat 8) with (2 ^ 64).
  by replace (p + 1 <? 2 ^ 64) with true by (symmetry; apply Z.ltb_lt; lia).
Qed.

Lemma root_from_peaks_digests l : Forall is_digest l -> root_from_peaks l = Ok (bag_peaks l).
Proof.
  intros Hl. unfold root_from_peaks, bag_peaks. rewrite assert_digests by done. by destruct (rev l).
Qed.

Lemma bag_digest x l : is_digest x -> is_digest (bag x l).
Proof.
  revert x. induction l as [|y l IH]; intros x Hx; [done|]. cbn. apply IH, sha256_digest.
Qed.

Lemma bag_peaks_digest l : Forall is_digest l -> is_digest (bag_peaks l).
Proof.
  intros Hl. apply Forall_rev in Hl. unfold bag_peaks. destruct (rev l) as [|x k]; [done|].
  apply bag_digest. by apply Forall_inv in Hl.
Qed.

Lemma ih_digest l r p : is_digest (ih l r p).
Proof. apply sha256_digest. Qed.
Lemma lh_digest b : is_digest (lh b).
Proof. apply sha256_digest. Qed.
End hashing_lemmas.
#[export] Hint Resolve sha256_digest ih_digest lh_digest bag_digest bag_peaks_digest : cll.

(** ** Node storage

    The protocols [NodeReader] and [NodeAppender]; [NodeStoreLaws] states what
    the MMR relies on: a store is an append-only array of hashes. *)
Class NodeStore (S : Type) := {
  ns_size : S -> Z;
  ns_node : S -> Z -> result bytes;
  ns_append_nodes : S -> list bytes -> S
}.

Class NodeStoreLaws (S : Type) `{NodeStore S} := {
  ns_view : S -> list bytes;
  ns_size_view : forall s, ns_size s = zlen (ns_view s);
  ns_node_view : forall s p, 0 <= p < ns_size s -> ns_node s p = py_index (ns_view s) p;
  ns_append_view : forall s hs, ns_view (ns_append_nodes s hs) = ns_view s ++ hs
}.

(** [MemoryNodeStore]: a Python list. *)
Record MemoryNodeStore := { _nodes : list bytes }.

Module MemoryNodeStore.
Definition __init__ : MemoryNodeStore := {| _nodes := [] |}.
Definition size (self : MemoryNodeStore) : Z := zlen (_nodes self).
Definition node (self : MemoryNodeStore) (pos : Z) : result bytes :=
  match py_index (_nodes self) pos with
  | Raise IndexError => Raise IndexError
  | r => r
  end.
Definition append_nodes (self : MemoryNodeStore) (hashes : list bytes) : MemoryNodeStore :=
  {| _nodes := _nodes self ++ hashes |}.
End MemoryNodeStore.

#[export] Instance memory_node_store : NodeStore MemoryNodeStore := {
  ns_size := MemoryNodeStore.size;
  ns_node := MemoryNodeStore.node;
  ns_append_nodes := MemoryNodeStore.append_nodes
}.

#[export] Instance memory_node_store_laws : NodeStoreLaws MemoryNodeStore.
Proof.
  refine {| ns_view := _nodes |}; [done| |done].
  intros s p _. cbn. unfold MemoryNodeStore.node.
  by destruct (py_index (_nodes s) p) as [|[]].
Defined.

(** ** [add_leaf] *)
Section add_leaf.
Context {HL : Hashlib} {St} {NS : NodeStore St}.

(** The merge loop, over the existing peaks from the right. *)
Fixpoint add_leaf_loop (nodes : St) (leaf_pos : Z) (peaks_right_to_left : list Z)
    (height : Z) (cur_hash : bytes) (new_nodes : list bytes) : result (list bytes) :=
  match peaks_right_to_left with
  | [] => Ok new_nodes
  | left_pos :: rest =>
      let! h := height_at left_pos in
      if h =? height then
        let! left_hash := ns_node nodes left_pos in
        let parent_pos := leaf_pos + zlen new_nodes in
        let! parent_hash := interior_hash left_hash cur_hash parent_pos in
        add_leaf_loop nodes leaf_pos rest (height + 1) parent_hash (new_nodes ++ [parent_hash])
      else Ok new_nodes
  end.

Definition add_leaf (nodes : St) (leaf : bytes) : result ((Z * list bytes) * St) :=
  let! _ := _assert_digest (PBytes leaf) in
  let size := ns_size nodes in
  let leaf_pos := size in
  let! existing_peaks := if size =? 0 then Ok [] else peaks size in
  let! new_nodes := add_leaf_loop nodes leaf_pos (rev existing_peaks) 0 leaf [leaf] in
  Ok ((leaf_pos, new_nodes), ns_append_nodes nodes new_nodes).
End add_leaf.
