(* ===== verification/Commitment.v ===== *)
(** * The commitment object

    [src/python/checkpoint/core.py], sections "conformant commitment object"
    and "massifdb cross-check": the CBOR encoding of the ordered peak hashes
    that external tools check, and the original hashing kept beside the
    production one. *)
From S2P Require Import Prelude Bytes Py Sha256 MmrPos Mmr.
Open Scope Z_scope.

(** [bytes([x, y, ...])] *)
Definition bytes_of_ints (l : list Z) : result bytes :=
  if forallb (fun x => (0 <=? x) && (x <? 256)) l then Ok (map z2b l) else Raise ValueError.

Definition _cbor_uint_header (major_type n : Z) : result bytes :=
  let prefix := Z.shiftl major_type 5 in
  if n <? 24 then bytes_of_ints [Z.lor prefix n]
  else if n <? 2 ^ 8 then bytes_of_ints [Z.lor prefix 24; n]
  else if n <? 2 ^ 16 then
    let! h := bytes_of_ints [Z.lor prefix 25] in let! b := to_bytes n 2 in Ok (h ++ b)
  else if n <? 2 ^ 32 then
    let! h := bytes_of_ints [Z.lor prefix 26] in let! b := to_bytes n 4 in Ok (h ++ b)
  else
    let! h := bytes_of_ints [Z.lor prefix 27] in let! b := to_bytes n 8 in Ok (h ++ b).

(** The loop that appends each peak, header first. *)
Fixpoint commitment_body (peak_hashes : list bytes) (body : bytes) : result bytes :=
  match peak_hashes with
  | [] => Ok body
  | p :: peak_hashes =>
      let! h := _cbor_uint_header 2 (zlen p) in
      commitment_body peak_hashes ((body ++ h) ++ p)
  end.

Definition commitment_object (peak_hashes : list bytes) : result bytes :=
  let! _ := map_result (fun p => _assert_digest (PBytes p)) peak_hashes in
  let! h := _cbor_uint_header 4 (zlen peak_hashes) in
  commitment_body peak_hashes h.

(** ** The original scheme, an internal cross-check *)
Section massifdb.
Context {HL : Hashlib}.

Definition _massifdb_interior_hash (left right : bytes) : result bytes :=
  let! _ := _assert_digest (PBytes left) in
  let! _ := _assert_digest (PBytes right) in
  Ok (sha256 ([Byte.x01] ++ left ++ right)).

(** [for i in range(len(peak_hashes) - 2, -1, -1)]; the list is reversed. *)
Fixpoint massifdb_bag (acc : bytes) (stack : list bytes) : bytes :=
  match stack with
  | [] => acc
  | p :: stack => massifdb_bag (sha256 ([Byte.x02] ++ p ++ acc)) stack
  end.

Definition _massifdb_root_from_peaks (peak_hashes : list bytes) : result bytes :=
  let! _ := map_result (fun p => _assert_digest (PBytes p)) peak_hashes in
  match rev peak_hashes with
  | [] => Ok (zeros 32)
  | last :: stack => Ok (massifdb_bag last stack)
  end.
End massifdb.

(** ** Header shape

    [width_of n] is the number of bytes after the initial one, and
    [info_of n] the additional information of the shortest head. *)
Definition width_of (n : Z) : nat :=
  if n <? 24 then 0 else if n <? 2 ^ 8 then 1 else if n <? 2 ^ 16 then 2
  else if n <? 2 ^ 32 then 4 else 8.
Definition info_of (n : Z) : Z :=
  if n <? 24 then n else if n <? 2 ^ 8 then 24 else if n <? 2 ^ 16 then 25
  else if n <? 2 ^ 32 then 26 else 27.
Definition header (major n : Z) : bytes :=
  z2b (32 * major + info_of n) :: be_bytes (width_of n) n.

Lemma land_prefix major i : 0 <= i < 32 -> Z.land (major * 2 ^ 5) i = 0.
Proof.
  intros Hi. replace i with (Z.land (Z.ones 5) i)
    by (rewrite Z.land_comm, Z.land_ones by lia; by apply Z.mod_small).
  rewrite Z.land_assoc, Z.land_ones, Z.mod_mul, Z.land_0_l; lia.
Qed.

Lemma lor_prefix major i : 0 <= i < 32 -> Z.lor (Z.shiftl major 5) i = 32 * major + i.
Proof.
  intros Hi. rewrite Z.shiftl_mul_pow2 by lia. pose proof (land_prefix major i Hi) as Hl.
  rewrite <- Z.lxor_lor, <- Z.add_nocarry_lxor by done. lia.
Qed.

Lemma info_of_range n : 0 <= n -> 0 <= info_of n < 28.
Proof. intros. unfold info_of. repeat (case_match; zbool); lia. Qed.

Lemma cbor_uint_header_eq major n :
  0 <= major < 8 -> 0 <= n < 2 ^ 64 -> _cbor_uint_header major n = Ok (header major n).
Proof.
  intros Hm Hn. pose proof (info_of_range n ltac:(lia)) as Hi.
  unfold _cbor_uint_header, header, info_of, width_of, bytes_of_ints in *.
  assert (forall x, 0 <= x < 256 -> (0 <=? x) && (x <? 256) = true) as Hb
    by (intros; apply andb_true_iff; split; [apply Z.leb_le|apply Z.ltb_lt]; lia).
  destruct (n <? 24) eqn:E1; zbool.
  { rewrite lor_prefix by lia. cbn [forallb map]. rewrite Hb by lia. done. }
  destruct (n <? 2 ^ 8) eqn:E2; zbool.
  { rewrite lor_prefix by lia. cbn [forallb map be_bytes app]. rewrite !Hb by lia. done. }
  destruct (n <? 2 ^ 16) eqn:E3; [|destruct (n <? 2 ^ 32) eqn:E4]; zbool;
    rewrite lor_prefix by lia; cbn [forallb map]; rewrite Hb by lia; cbn [andb app];
    unfold to_bytes; rewrite (proj2 (Z.leb_le 0 n)) by lia; cbn [andb];
    rewrite (proj2 (Z.ltb_lt n _)) by (cbn; lia); done.
Qed.

Lemma length_header major n : (1 <= length (header major n) <= 9)%nat.
Proof.
  unfold header, width_of. cbn [length]. rewrite length_be_bytes.
  repeat case_match; lia.
Qed.
