(* ===== verification/Cbor.v ===== *)
(** * The receipt encoding rule

    [src/python/cbor.py]: [receipt_item] checks the CBOR profile of COSE
    receipts on the encoded bytes. The specification is a syntax of items with
    one encoding each; the walk accepts exactly the encodings of valid items. *)
From S2P Require Import Prelude Bytes Text Py Sha256 Mmr Commitment.
Open Scope Z_scope.

Definition _MAX_RECEIPT_DEPTH : Z := 16.

(** ** The walk *)

(** [initial >> 5, initial & 0x1F] *)
Definition major_of (initial : Z) : Z := Z.shiftr initial 5.
Definition info_bits (initial : Z) : Z := Z.land initial 0x1F.

(** The argument of a head whose additional information is [info], and the
    offset after it. *)
Definition receipt_argument (data : bytes) (i info : Z) : result (Z * Z) :=
  if info <? 24 then Ok (info, i + 1)
  else
    let width := Z.shiftl 1 (info - 24) in
    if zlen data <? i + 1 + width then Raise ReceiptEncodingError
    else
      let arg := from_bytes (py_slice data (i + 1) (i + 1 + width)) in
      let! least := py_index [24; Z.shiftl 1 8; Z.shiftl 1 16; Z.shiftl 1 32] (info - 24) in
      if arg <? least then Raise ReceiptEncodingError
      else Ok (arg, i + (1 + width)).

(** [for _ in range(arg): i = walk(i)] *)
Fixpoint walk_items (walk : Z -> result Z) (n : nat) (i : Z) : result Z :=
  match n with
  | O => Ok i
  | S n => let! i := walk i in walk_items walk n i
  end.

(** The loop over the entries of a map, with the keys seen. *)
Fixpoint walk_entries (data : bytes) (walk : Z -> result Z) (n : nat) (i : Z) (keys : list bytes)
  : result Z :=
  match n with
  | O => Ok i
  | S n =>
      let start := i in
      let! b := py_index data i in
      if negb (bool_decide (major_of (b2z b) ∈ [0; 1; 3])) then Raise ReceiptEncodingError
      else
        let! i := walk i in
        let key := py_slice data start i in
        if bool_decide (key ∈ keys) then Raise ReceiptEncodingError
        else let! i := walk i in walk_entries data walk n i (key :: keys)
  end.

(** [room] bounds the recursion: the depth check stops it first. *)
Fixpoint receipt_walk (room : nat) (data : bytes) (i depth : Z) (top_tag : bool) : result Z :=
  if _MAX_RECEIPT_DEPTH <? depth then Raise ReceiptEncodingError else
  match room with
  | O => Raise OutOfFuel
  | S room =>
      let! b := py_index data i in
      let initial := b2z b in
      let major := major_of initial in
      let info := info_bits initial in
      if major =? 7 then
        if bool_decide (info ∈ [20; 21; 22]) then Ok (i + 1) else Raise ReceiptEncodingError
      else if 27 <? info then Raise ReceiptEncodingError
      else
        let! (arg, i) := receipt_argument data i info in
        if major =? 0 then Ok i
        else if major =? 1 then
          if Z.shiftl 1 63 <=? arg then Raise ReceiptEncodingError else Ok i
        else if bool_decide (major ∈ [2; 3]) then
          if zlen data <? i + arg then Raise ReceiptEncodingError
          else if (major =? 3) && negb (bool_decide (is_Some (utf8_decode (py_slice data i (i + arg)))))
          then Raise ReceiptEncodingError
          else Ok (i + arg)
        else if major =? 6 then
          if negb ((depth =? 0) && top_tag && (arg =? 18)) then Raise ReceiptEncodingError
          else receipt_walk room data i (depth + 1) false
        else if zlen data - i <? arg then Raise ReceiptEncodingError
        else if major =? 4 then
          walk_items (fun i => receipt_walk room data i (depth + 1) false) (Z.to_nat arg) i
        else
          walk_entries data (fun i => receipt_walk room data i (depth + 1) false) (Z.to_nat arg) i []
  end.

Definition _receipt_walk (data : bytes) (i depth : Z) (top_tag : bool) : result Z :=
  receipt_walk 18 data i depth top_tag.

(** [cbor2.loads], a third-party decoder, is a parameter. *)
Definition receipt_item {V} (loads : bytes -> result V) (data : bytes) (top_tag : bool) : result V :=
  match _receipt_walk data 0 0 top_tag with
  | Raise IndexError => Raise ReceiptEncodingError
  | Raise e => Raise e
  | Ok end_ => if negb (end_ =? zlen data) then Raise ReceiptEncodingError else loads data
  end.

Example receipt_walk_map :
  _receipt_walk (map z2b [0xA2; 0x01; 0x61; 0x61; 0x20; 0xF5]) 0 0 false = Ok 6.
Proof. reflexivity. Qed.

Example receipt_walk_repeated_key :
  _receipt_walk (map z2b [0xA2; 0x01; 0xF4; 0x01; 0xF5]) 0 0 false = Raise ReceiptEncodingError.
Proof. reflexivity. Qed.

(** ** Specification: items and their one encoding *)
Inductive item : Type :=
| Uint (n : Z)
| Nint (n : Z)  (* the integer -1 - n *)
| Bstr (bs : bytes)
| Tstr (bs : bytes)
| Arr (l : list item)
| Map (l : list (item * item))
| Tag (n : Z) (x : item)
| Simple (v : Z).

Fixpoint encode (x : item) : bytes :=
  match x with
  | Uint n => header 0 n
  | Nint n => header 1 n
  | Bstr bs => header 2 (zlen bs) ++ bs
  | Tstr bs => header 3 (zlen bs) ++ bs
  | Arr l => header 4 (zlen l) ++ concat (map encode l)
  | Map l => header 5 (zlen l) ++ concat (map (fun '(k, v) => encode k ++ encode v) l)
  | Tag n x => header 6 n ++ encode x
  | Simple v => [z2b (0xE0 + v)]
  end.

Definition encode_entry (e : item * item) : bytes := encode e.1 ++ encode e.2.

Definition is_key (x : item) : Prop :=
  match x with Uint _ | Nint _ | Tstr _ => True | _ => False end.

(** What the rule allows at a depth, [top] telling whether a tag may start. *)
Inductive valid (depth : Z) (top : bool) : item -> Prop :=
| valid_uint n : depth <= 16 -> 0 <= n < 2 ^ 64 -> valid depth top (Uint n)
| valid_nint n : depth <= 16 -> 0 <= n < 2 ^ 63 -> valid depth top (Nint n)
| valid_bstr bs : depth <= 16 -> zlen bs < 2 ^ 64 -> valid depth top (Bstr bs)
| valid_tstr bs :
    depth <= 16 -> zlen bs < 2 ^ 64 -> is_Some (utf8_decode bs) -> valid depth top (Tstr bs)
| valid_arr l :
    depth <= 16 -> zlen l < 2 ^ 64 -> Forall (valid (depth + 1) false) l -> valid depth top (Arr l)
| valid_map l :
    depth <= 16 -> zlen l < 2 ^ 64 ->
    Forall (fun e : item * item => is_key e.1 /\ valid (depth + 1) false e.1 /\ valid (depth + 1) false e.2) l ->
    NoDup (map (fun e : item * item => encode e.1) l) -> valid depth top (Map l)
| valid_tag x : depth = 0 -> top = true -> valid (depth + 1) false x -> valid depth top (Tag 18 x)
| valid_simple v : depth <= 16 -> v ∈ [20; 21; 22] -> valid depth top (Simple v).

(** ** The data from an offset *)
Section data.
Context (data : bytes).

Definition from (i : Z) : bytes := drop (Z.to_nat i) data.

Lemma zlen_from i : 0 <= i -> zlen (from i) = Z.max 0 (zlen data - i).
Proof. unfold from, zlen. rewrite length_drop. lia. Qed.

Lemma from_app i a r : 0 <= i -> from i = a ++ r -> from (i + zlen a) = r.
Proof.
  unfold from, zlen. intros Hi E. rewrite Z2Nat.inj_add, Nat2Z.id by lia.
  by rewrite <- drop_drop, E, drop_app_length.
Qed.

Lemma from_slice i a r : 0 <= i -> from i = a ++ r -> py_slice data i (i + zlen a) = a.
Proof.
  unfold from, py_slice, zlen. intros Hi E. rewrite E.
  replace (Z.to_nat (i + Z.of_nat (length a) - i)) with (length a) by lia. apply take_app_length.
Qed.

Lemma from_end i a r : 0 <= i -> from i = a ++ r -> zlen a <= Z.max 0 (zlen data - i).
Proof. intros Hi E. rewrite <- zlen_from, E, zlen_app by done. pose proof (zlen_nonneg r). lia. Qed.

Lemma index_from i b r : 0 <= i -> from i = b :: r -> py_index data i = Ok b.
Proof.
  unfold from. intros Hi E. rewrite py_index_nonneg by done.
  by rewrite <- (Nat.add_0_r (Z.to_nat i)), <- lookup_drop, E.
Qed.

Lemma from_index i b : 0 <= i -> py_index data i = Ok b -> from i = b :: from (i + 1) /\ i < zlen data.
Proof.
  intros Hi. rewrite py_index_nonneg by done. destruct (data !! Z.to_nat i) eqn:E; [|done].
  intros [= ->]. unfold from. apply lookup_lt_Some in E as Hlt.
  rewrite (drop_S _ b) by done. replace (Z.to_nat (i + 1)) with (S (Z.to_nat i)) by lia.
  split; [done|unfold zlen; lia].
Qed.

Lemma slice_from i j : 0 <= i <= j -> j <= zlen data ->
  from i = py_slice data i j ++ from j /\ zlen (py_slice data i j) = j - i.
Proof.
  unfold from, py_slice, zlen. intros Hij Hj. split.
  - rewrite <- (take_drop (Z.to_nat (j - i)) (drop (Z.to_nat i) data)) at 1. f_equal.
    rewrite drop_drop. f_equal. lia.
  - rewrite length_take, length_drop. lia.
Qed.
End data.

(** ** Heads *)
Lemma head_bits major info :
  0 <= major < 8 -> 0 <= info < 32 ->
  major_of (b2z (z2b (32 * major + info))) = major /\ info_bits (b2z (z2b (32 * major + info))) = info.
Proof.
  intros Hm Hi. rewrite b2z_small by lia. unfold major_of, info_bits.
  rewrite Z.shiftr_div_pow2 by lia. change 0x1F with (Z.ones 5). rewrite Z.land_ones by lia.
  change (2 ^ 5) with 32. split.
  - rewrite Z.add_comm, Z.mul_comm, Z.div_add, Z.div_small; lia.
  - rewrite Z.add_comm, Z.mul_comm, Z.mod_add, Z.mod_small; lia.
Qed.

Lemma head_of_byte b : b = z2b (32 * major_of (b2z b) + info_bits (b2z b)) /\
  0 <= major_of (b2z b) < 8 /\ 0 <= info_bits (b2z b) < 32.
Proof.
  pose proof (b2z_range b). unfold major_of, info_bits. rewrite Z.shiftr_div_pow2 by lia.
  change 0x1F with (Z.ones 5). rewrite Z.land_ones by lia. change (2 ^ 5) with 32.
  pose proof (Z.div_mod (b2z b) 32 ltac:(lia)). pose proof (Z.mod_pos_bound (b2z b) 32 ltac:(lia)).
  split; [|split; [split; [apply Z.div_pos|apply Z.div_lt_upper_bound]; lia|lia]].
  rewrite <- (z2b_b2z b) at 1. f_equal. lia.
Qed.

Lemma shiftl1 k : 0 <= k -> Z.shiftl 1 k = 2 ^ k.
Proof. intros. rewrite Z.shiftl_mul_pow2; lia. Qed.

(** The heads with an argument after the initial byte: [info = 24 + k] and
    [2^k] bytes, for values too large for the shorter forms. *)
Definition leasts : list Z := [24; Z.shiftl 1 8; Z.shiftl 1 16; Z.shiftl 1 32].

Definition wide (n k least : Z) : Prop :=
  0 <= k < 4 /\ py_index leasts k = Ok least /\ least <= n < 256 ^ (2 ^ k).

Lemma info_small n : 0 <= n < 24 -> info_of n = n /\ width_of n = 0%nat.
Proof. intros Hn. unfold info_of, width_of. by rw_bool (n <? 24) true. Qed.

Lemma wide_info n k least :
  wide n k least -> info_of n = 24 + k /\ Z.of_nat (width_of n) = 2 ^ k /\ 24 <= n < 2 ^ 64.
Proof.
  intros (Hk & Hl & Hn). unfold info_of, width_of.
  assert (k = 0 \/ k = 1 \/ k = 2 \/ k = 3) as [->|[->|[->| ->]]] by lia;
    vm_compute in Hl; injection Hl as <-; cbn [Z.pow Z.pow_pos Pos.iter Z.mul Pos.mul] in Hn;
    rw_bool (n <? 24) false.
  - rw_bool (n <? 2 ^ 8) true. split_and!; (done || lia).
  - rw_bool (n <? 2 ^ 8) false. rw_bool (n <? 2 ^ 16) true. split_and!; (done || lia).
  - rw_bool (n <? 2 ^ 8) false. rw_bool (n <? 2 ^ 16) false. rw_bool (n <? 2 ^ 32) true.
    split_and!; (done || lia).
  - rw_bool (n <? 2 ^ 8) false. rw_bool (n <? 2 ^ 16) false. rw_bool (n <? 2 ^ 32) false.
    split_and!; (done || lia).
Qed.

Lemma wide_exists n : 24 <= n < 2 ^ 64 -> exists k least, wide n k least.
Proof.
  intros Hn. unfold wide.
  destruct (decide (n < 2 ^ 8)); [exists 0, 24; cbn; split_and!; (done || lia)|].
  destruct (decide (n < 2 ^ 16)); [exists 1, (2 ^ 8); cbn; split_and!; (done || lia)|].
  destruct (decide (n < 2 ^ 32)); [exists 2, (2 ^ 16); cbn; split_and!; (done || lia)|].
  exists 3, (2 ^ 32); cbn; split_and!; (done || lia).
Qed.

Lemma receipt_argument_header data i major n r :
  0 <= i -> 0 <= n < 2 ^ 64 -> from data i = header major n ++ r ->
  receipt_argument data i (info_of n) = Ok (n, i + zlen (header major n)).
Proof.
  intros Hi Hn E. pose proof (from_end _ _ _ _ Hi E) as Hend. unfold receipt_argument, header in *.
  destruct (decide (n < 24)) as [Hs|Hs].
  { destruct (info_small n ltac:(lia)) as [-> ->]. by rw_bool (n <? 24) true. }
  destruct (wide_exists n ltac:(lia)) as (k & least & Hw). pose proof Hw as (Hk & Hl & Hle & Hlt).
  destruct (wide_info n k least Hw) as (-> & Hwid & _).
  rw_bool (24 + k <? 24) false. replace (24 + k - 24) with k by lia. rewrite shiftl1 by lia.
  assert (zlen (be_bytes (width_of n) n) = 2 ^ k) as Hlb by (unfold zlen; by rewrite length_be_bytes).
  rewrite zlen_cons, Hlb in *.
  pose proof (Z.pow_pos_nonneg 2 k ltac:(lia) ltac:(lia)).
  rw_bool (zlen data <? i + 1 + 2 ^ k) false.
  change (z2b ?x :: ?l) with ([z2b x] ++ l) in E. rewrite <- app_assoc in E.
  apply (from_app data i [_]) in E; [|done]. change (zlen [_]) with 1 in E.
  apply from_slice in E; [|lia]. rewrite Hlb in E. rewrite E, from_be_bytes by (rewrite Hwid; lia).
  fold leasts. rewrite Hl. by rw_bool (n <? least) false.
Qed.

(** An accepted head is the shortest one. *)
Lemma receipt_argument_inv data i b r info arg j :
  0 <= i -> from data i = b :: r -> info = info_bits (b2z b) -> info <= 27 ->
  receipt_argument data i info = Ok (arg, j) ->
  from data i = header (major_of (b2z b)) arg ++ from data j /\
  j = i + zlen (header (major_of (b2z b)) arg) /\ j <= zlen data /\ 0 <= arg < 2 ^ 64.
Proof.
  intros Hi E -> Hinfo. pose proof (head_of_byte b) as (Hb & Hm & Hr). unfold receipt_argument.
  assert (from data (i + 1) = r) as E1 by (apply (from_app data i [b] r); done).
  pose proof (from_end data i [b] r Hi E) as Hend1. change (zlen [b]) with 1 in Hend1.
  set (info := info_bits (b2z b)) in *. set (major := major_of (b2z b)) in *.
  destruct (info <? 24) eqn:Es; zbool.
  { intros [= <- <-]. unfold header. destruct (info_small info ltac:(lia)) as [-> ->].
    cbn [be_bytes app]. rewrite <- Hb, E, E1. split_and!; (done || lia). }
  rewrite shiftl1 by lia. set (k := info - 24) in *.
  pose proof (Z.pow_pos_nonneg 2 k ltac:(lia) ltac:(lia)).
  destruct (zlen data <? i + 1 + 2 ^ k) eqn:El; [done|]. zbool. fold leasts.
  destruct (py_index leasts k) as [least|] eqn:Hl; [|done].
  set (bs := py_slice data (i + 1) (i + 1 + 2 ^ k)). destruct (from_bytes bs <? least) eqn:Ele; [done|]. zbool.
  intros [= <- <-].
  destruct (slice_from data (i + 1) (i + 1 + 2 ^ k) ltac:(lia) El) as [Esl Hlen]. fold bs in Esl, Hlen.
  pose proof (from_bytes_range bs) as Hrange. rewrite Hlen in Hrange.
  replace (i + 1 + 2 ^ k - (i + 1)) with (2 ^ k) in * by lia.
  assert (wide (from_bytes bs) k least) as Hw by (split_and!; (done || lia)).
  destruct (wide_info _ _ _ Hw) as (Ei & Hwid & Hn).
  assert (width_of (from_bytes bs) = length bs) as Hwl by (unfold zlen in Hlen; lia).
  unfold header. rewrite Ei, Hwl, be_from_bytes. replace (24 + k) with info by (unfold k; lia).
  rewrite <- Hb, E, zlen_cons, Hlen, <- E1, Esl. split_and!; try lia.
  cbn [app]. do 2 f_equal. f_equal. lia.
Qed.

Lemma from_header data i major n r :
  0 <= i -> 0 <= major < 8 -> 0 <= n < 2 ^ 64 -> from data i = header major n ++ r ->
  exists b, py_index data i = Ok b /\ major_of (b2z b) = major /\ info_bits (b2z b) = info_of n.
Proof.
  intros Hi Hm Hn E. pose proof (info_of_range n ltac:(lia)).
  exists (z2b (32 * major + info_of n)). split; [exact (index_from data i _ _ Hi E)|].
  apply head_bits; lia.
Qed.

Lemma zlen_header major n : 1 <= zlen (header major n).
Proof. pose proof (length_header major n). unfold zlen. lia. Qed.

Lemma length_encode_pos x : 1 <= zlen (encode x).
Proof.
  destruct x as [n|n|bs|bs|l|l|n x|v]; cbn [encode]; rewrite ?zlen_app; try done;
    match goal with |- context [header ?m ?n] => pose proof (zlen_header m n) end;
    try match goal with |- context [_ + zlen ?l] => pose proof (zlen_nonneg l) end; lia.
Qed.

Lemma zlen_concat_le {A} (f : A -> bytes) l :
  (forall x, 1 <= zlen (f x)) -> zlen l <= zlen (concat (map f l)).
Proof.
  intros Hf. induction l as [|x l IH]; [done|]. cbn [map concat].
  rewrite zlen_app, zlen_cons. specialize (Hf x). lia.
Qed.

Lemma encode_map_eq l :
  encode (Map l) = header 5 (zlen l) ++ concat (map encode_entry l).
Proof. cbn [encode]. do 2 f_equal. apply map_ext. by intros []. Qed.

Lemma length_encode_entry e : 1 <= zlen (encode_entry e).
Proof.
  unfold encode_entry. rewrite zlen_app. pose proof (length_encode_pos e.1).
  pose proof (length_encode_pos e.2). lia.
Qed.

(** ** Completeness: the encoding of a valid item is accepted *)
Section walk_complete.
Context (data : bytes) (walk : Z -> result Z) (ok : item -> Prop).
Hypothesis walk_ok : forall i x r,
  0 <= i -> ok x -> from data i = encode x ++ r -> walk i = Ok (i + zlen (encode x)).

Lemma walk_items_complete l i r :
  0 <= i -> Forall ok l -> from data i = concat (map encode l) ++ r ->
  walk_items walk (length l) i = Ok (i + zlen (concat (map encode l))).
Proof.
  intros Hi Hl. revert i Hi. induction Hl as [|x l Hx Hl IH]; intros i Hi E;
    cbn [length walk_items map concat] in *; [by rewrite Z.add_0_r|].
  rewrite <- app_assoc in E. rewrite (walk_ok i x _ Hi Hx E).
  pose proof (length_encode_pos x). apply from_app in E; [|done].
  rewrite IH by (done || lia). rewrite zlen_app. f_equal. lia.
Qed.

Hypothesis key_ok : forall x, is_key x -> ok x -> exists b,
  (forall i r, 0 <= i -> from data i = encode x ++ r -> py_index data i = Ok b) /\
  major_of (b2z b) ∈ [0; 1; 3].

Lemma walk_entries_complete l i r keys :
  0 <= i -> Forall (fun e : item * item => is_key e.1 /\ ok e.1 /\ ok e.2) l ->
  NoDup (map (fun e : item * item => encode e.1) l) ->
  (forall e : item * item, e ∈ l -> encode e.1 ∉ keys) ->
  from data i = concat (map encode_entry l) ++ r ->
  walk_entries data walk (length l) i keys = Ok (i + zlen (concat (map encode_entry l))).
Proof.
  intros Hi Hl. revert i keys Hi. induction Hl as [|[k v] l (Hkey & Hk & Hv) Hl IH];
    intros i keys Hi Hnd Hkeys E; cbn [length walk_entries map concat] in *; [by rewrite Z.add_0_r|].
  unfold encode_entry in E at 1. cbn [fst snd] in *. rewrite <- !app_assoc in E.
  destruct (key_ok k Hkey Hk) as (b & Hb & Hmaj). rewrite (Hb _ _ Hi E), bool_decide_true by done.
  cbn [negb]. rewrite (walk_ok i k _ Hi Hk E), (from_slice data i _ _ Hi E).
  rewrite bool_decide_false by (apply (Hkeys (k, v)); by left).
  pose proof (length_encode_pos k). pose proof (length_encode_pos v).
  apply from_app in E; [|done]. rewrite (walk_ok (i + zlen (encode k)) v _ ltac:(lia) Hv E).
  apply from_app in E; [|lia]. apply NoDup_cons in Hnd as [Hnin Hnd].
  rewrite IH; [|lia|done| |done].
  - change (encode_entry (k, v)) with (encode k ++ encode v). rewrite !zlen_app. f_equal. lia.
  - intros e He. apply not_elem_of_cons. split; [|apply Hkeys; by right].
    intros Heq. apply Hnin. rewrite <- Heq. apply list_elem_of_fmap. by exists e.
Qed.
End walk_complete.

Lemma valid_depth d top x : valid d top x -> d <= 16.
Proof. destruct 1; lia. Qed.

(** Reading the head of an item with an argument. *)
Lemma head_complete data i major n r :
  0 <= i -> 0 <= major < 7 -> 0 <= n < 2 ^ 64 -> from data i = header major n ++ r ->
  exists b, py_index data i = Ok b /\ major_of (b2z b) = major /\ (27 <? info_bits (b2z b)) = false /\
    receipt_argument data i (info_bits (b2z b)) = Ok (n, i + zlen (header major n)) /\
    from data (i + zlen (header major n)) = r.
Proof.
  intros Hi Hm Hn E. destruct (from_header data i major n r Hi ltac:(lia) Hn E) as (b & Hb & Hmaj & Hinf).
  exists b. pose proof (info_of_range n ltac:(lia)). rewrite Hinf. split_and!; try done.
  - apply Z.ltb_ge. lia.
  - by apply (receipt_argument_header data i major n r).
  - by apply from_app in E.
Qed.

(** The major type of a key shows in its first byte. *)
Lemma key_first_byte data d x :
  is_key x -> valid d false x -> exists b,
    (forall i r, 0 <= i -> from data i = encode x ++ r -> py_index data i = Ok b) /\
    major_of (b2z b) ∈ [0; 1; 3].
Proof.
  assert (forall major n r, major ∈ [0; 1; 3] -> 0 <= n < 2 ^ 64 -> exists b,
    (forall i r', 0 <= i -> from data i = (header major n ++ r) ++ r' -> py_index data i = Ok b) /\
    major_of (b2z b) ∈ [0; 1; 3]) as H.
  { intros major n r Hm Hn. pose proof (info_of_range n ltac:(lia)).
    exists (z2b (32 * major + info_of n)). split.
    - intros i r' Hi E. exact (index_from data i _ _ Hi E).
    - destruct (head_bits major (info_of n)) as [-> _]; [set_unfold; lia|lia|done]. }
  intros Hk Hv. destruct Hv as [n _ Hn|n _ Hn| |bs _ Hn| | | |]; try done; cbn [encode].
  - destruct (H 0 n []) as (b & Hb & Hm); [set_solver|lia|]. exists b. by rewrite app_nil_r in Hb.
  - destruct (H 1 n []) as (b & Hb & Hm); [set_solver|lia|]. exists b. by rewrite app_nil_r in Hb.
  - pose proof (zlen_nonneg bs). apply H; [set_solver|lia].
Qed.

Lemma zlen_to_nat {A} (l : list A) : Z.to_nat (zlen l) = length l.
Proof. apply Nat2Z.id. Qed.

Lemma walk_complete room data i d top x r :
  17 - d <= Z.of_nat room -> 0 <= d -> 0 <= i -> valid d top x -> from data i = encode x ++ r ->
  receipt_walk room data i d top = Ok (i + zlen (encode x)).
Proof.
  revert i d top x r. induction room as [|room IH]; intros i d top x r Hroom Hd Hi Hv E;
    pose proof (valid_depth _ _ _ Hv) as Hd16; [lia|]. cbn [receipt_walk]. unfold _MAX_RECEIPT_DEPTH.
  rw_bool (16 <? d) false.
  assert (forall i x r, 0 <= i -> valid (d + 1) false x -> from data i = encode x ++ r ->
    receipt_walk room data i (d + 1) false = Ok (i + zlen (encode x))) as Hwalk.
  { intros i' x' r' Hi' Hx' E'. apply (IH i' (d + 1) false x' r'); try done; lia. }
  pose proof (from_end _ _ _ _ Hi E) as Hend.
  destruct Hv as [n _ Hn|n _ Hn|bs _ Hn|bs _ Hn Hutf|l _ Hn Hl|l _ Hn Hl Hnd|x -> -> Hx|v _ Hv];
    [| | | | |rewrite encode_map_eq in *| |]; cbn [encode] in E, Hend |- *;
    rewrite ?zlen_app, <- ?app_assoc in *.
  - destruct (head_complete data i 0 n r) as (b & -> & -> & -> & -> & _); [done|lia|lia|done|done].
  - destruct (head_complete data i 1 n r) as (b & -> & -> & -> & -> & _); [done|lia|lia|done|].
    rewrite shiftl1 by lia. by rw_bool (2 ^ 63 <=? n) false.
  - pose proof (zlen_nonneg bs). pose proof (zlen_header 2 (zlen bs)).
    destruct (head_complete data i 2 (zlen bs) (bs ++ r)) as (b & -> & -> & -> & -> & E1); [done|lia|lia|done|].
    cbn [Z.eqb Pos.eqb]. rewrite bool_decide_true by set_solver.
    rw_bool (zlen data <? i + zlen (header 2 (zlen bs)) + zlen bs) false. cbn [andb]. f_equal. lia.
  - pose proof (zlen_nonneg bs). pose proof (zlen_header 3 (zlen bs)).
    destruct (head_complete data i 3 (zlen bs) (bs ++ r)) as (b & -> & -> & -> & -> & E1); [done|lia|lia|done|].
    apply from_slice in E1; [|lia].
    cbn [Z.eqb Pos.eqb]. rewrite bool_decide_true by set_solver.
    rw_bool (zlen data <? i + zlen (header 3 (zlen bs)) + zlen bs) false.
    rewrite E1, bool_decide_true by done. cbn [andb negb]. f_equal. lia.
  - pose proof (zlen_nonneg l). pose proof (zlen_header 4 (zlen l)).
    pose proof (zlen_concat_le encode l length_encode_pos).
    destruct (head_complete data i 4 (zlen l) (concat (map encode l) ++ r)) as (b & -> & -> & -> & -> & E1);
      [done|lia|lia|done|].
    cbn [Z.eqb Pos.eqb]. rewrite bool_decide_false by set_solver.
    rw_bool (zlen data - (i + zlen (header 4 (zlen l))) <? zlen l) false. rewrite zlen_to_nat.
    rewrite (walk_items_complete data _ _ Hwalk l _ r) by (done || lia). f_equal. lia.
  - pose proof (zlen_nonneg l). pose proof (zlen_header 5 (zlen l)).
    pose proof (zlen_concat_le encode_entry l length_encode_entry).
    destruct (head_complete data i 5 (zlen l) (concat (map encode_entry l) ++ r)) as (b & -> & -> & -> & -> & E1);
      [done|lia|lia|done|].
    cbn [Z.eqb Pos.eqb]. rewrite bool_decide_false by set_solver.
    rw_bool (zlen data - (i + zlen (header 5 (zlen l))) <? zlen l) false. rewrite zlen_to_nat.
    rewrite (walk_entries_complete data _ _ Hwalk (key_first_byte data (d + 1)) l _ r);
      [f_equal; lia|lia|done|done|intros e _; apply not_elem_of_nil|done].
  - pose proof (zlen_header 6 18).
    destruct (head_complete data i 6 18 (encode x ++ r)) as (b & -> & -> & -> & -> & E1); [done|lia|lia|done|].
    cbn [Z.eqb Pos.eqb]. rewrite bool_decide_false by set_solver.
    cbn [Z.eqb Pos.eqb andb negb]. rewrite (Hwalk _ x r) by (done || lia). f_equal. lia.
  - rewrite (index_from data i _ _ Hi E). assert (0 <= v < 32) by (set_unfold; lia).
    destruct (head_bits 7 v) as [Hm Hf]; [lia|done|].
    change (224 + v) with (32 * 7 + v). rewrite Hm, Hf. cbn [Z.eqb Pos.eqb].
    by rewrite bool_decide_true.
Qed.

(** ** Soundness: only encodings of valid items are accepted *)

(** [data[i:j]] is the encoding of [x]. *)
Definition spans (data : bytes) (i j : Z) (bs : bytes) : Prop :=
  from data i = bs ++ from data j /\ j = i + zlen bs /\ j <= zlen data.

Lemma spans_app data i j k a b : spans data i j a -> spans data j k b -> spans data i k (a ++ b).
Proof.
  intros (E & -> & _) (E' & -> & Hk). split_and!; [by rewrite E, E', app_assoc|rewrite zlen_app; lia|done].
Qed.

Lemma spans_nil data i : i <= zlen data -> spans data i i [].
Proof. intros Hi. split_and!; [done|by rewrite zlen_nil, Z.add_0_r|done]. Qed.

Lemma spans_slice data i j bs : 0 <= i -> spans data i j bs -> py_slice data i j = bs.
Proof. intros Hi (E & -> & _). by apply from_slice in E. Qed.

Lemma key_of_first_byte d x b t :
  valid d false x -> encode x = b :: t -> major_of (b2z b) ∈ [0; 1; 3] -> is_key x.
Proof.
  assert (forall major n t', 0 <= major < 8 -> 0 <= n -> header major n ++ t' = b :: t ->
    major_of (b2z b) = major) as H.
  { intros major n t' Hm Hn E. injection E as <- _. pose proof (info_of_range n Hn).
    by destruct (head_bits major (info_of n)) as [-> _]; [lia|lia|]. }
  intros Hv E Hmaj. destruct Hv as [| |bs| |l|l|x _ Htop|v _ Hin]; try done; cbn [encode] in E; exfalso.
  - apply H in E; [|lia|apply zlen_nonneg]. rewrite E in Hmaj. set_unfold; lia.
  - apply H in E; [|lia|apply zlen_nonneg]. rewrite E in Hmaj. set_unfold; lia.
  - apply H in E; [|lia|apply zlen_nonneg]. rewrite E in Hmaj. set_unfold; lia.
  - injection E as <- _. assert (0 <= v < 32) by (set_unfold; lia).
    change (224 + v) with (32 * 7 + v) in Hmaj.
    destruct (head_bits 7 v) as [E' _]; [lia|done|]. rewrite E' in Hmaj. set_unfold; lia.
Qed.

Section walk_sound.
Context (data : bytes) (walk : Z -> result Z) (d : Z).
Hypothesis walk_ok : forall i j, 0 <= i -> walk i = Ok j ->
  exists x, valid d false x /\ spans data i j (encode x).

Lemma walk_items_sound n i j :
  0 <= i <= zlen data -> walk_items walk n i = Ok j ->
  exists l, length l = n /\ Forall (valid d false) l /\ spans data i j (concat (map encode l)).
Proof.
  revert i. induction n as [|n IH]; intros i Hi Hw; cbn [walk_items] in Hw.
  - injection Hw as <-. exists []. split_and!; try done. apply spans_nil. lia.
  - destruct (walk i) as [k|] eqn:Ew; [|done]. apply walk_ok in Ew as (x & Hx & Hs); [|lia].
    pose proof Hs as (_ & -> & Hle). pose proof (zlen_nonneg (encode x)).
    apply IH in Hw as (l & <- & Hl & Hs'); [|lia]. exists (x :: l).
    split_and!; [done|by constructor|]. cbn [map concat]. by eapply spans_app.
Qed.

Lemma walk_entries_sound n i j keys :
  0 <= i <= zlen data -> walk_entries data walk n i keys = Ok j ->
  exists l, length l = n /\
    Forall (fun e : item * item => is_key e.1 /\ valid d false e.1 /\ valid d false e.2) l /\
    NoDup (map (fun e : item * item => encode e.1) l) /\
    Forall (fun e : item * item => encode e.1 ∉ keys) l /\
    spans data i j (concat (map encode_entry l)).
Proof.
  revert i keys. induction n as [|n IH]; intros i keys Hi Hw; cbn [walk_entries] in Hw.
  - injection Hw as <-. exists []. split_and!; try done; [constructor|apply spans_nil; lia].
  - destruct (py_index data i) as [b|] eqn:Eb; [|done].
    destruct (bool_decide _) eqn:Emaj; [|done]. cbn [negb] in Hw. apply bool_decide_eq_true_1 in Emaj.
    destruct (walk i) as [k|] eqn:Ek; [|done]. apply walk_ok in Ek as (x & Hx & Hsx); [|lia].
    rewrite (spans_slice data i k (encode x)) in Hw by (done || lia).
    destruct (bool_decide (encode x ∈ keys)) eqn:Ekey; [done|]. apply bool_decide_eq_false_1 in Ekey.
    pose proof Hsx as (Ex & -> & Hle). pose proof (length_encode_pos x).
    destruct (walk (i + zlen (encode x))) as [k|] eqn:Ev; [|done].
    apply walk_ok in Ev as (v & Hv & Hsv); [|lia]. pose proof Hsv as (_ & -> & Hle').
    pose proof (zlen_nonneg (encode v)).
    apply IH in Hw as (l & <- & Hl & Hnd & Hnew & Hs); [|lia]. exists ((x, v) :: l).
    apply from_index in Eb as [Eb _]; [|lia].
    destruct (encode x) as [|b' t] eqn:Eenc; [rewrite zlen_nil in *; lia|]. rewrite Ex in Eb. injection Eb as -> _.
    split_and!; [done| | | |].
    + constructor; [|done]. split_and!; [by eapply key_of_first_byte|done|done].
    + cbn [map fst]. apply NoDup_cons. split; [|done]. intros Hin.
      apply list_elem_of_fmap in Hin as (e & He & Hin).
      eapply Forall_forall in Hnew; [|exact Hin]. cbn in Hnew. rewrite <- He, Eenc in Hnew. set_solver.
    + constructor; [cbn [fst]; by rewrite Eenc|]. eapply Forall_impl; [exact Hnew|]. set_solver.
    + cbn [map concat]. eapply spans_app; [|exact Hs]. unfold encode_entry. cbn [fst snd].
      eapply spans_app; [rewrite Eenc; exact Hsx|exact Hsv].
Qed.
End walk_sound.

Lemma walk_sound room data i d top j :
  0 <= d -> 0 <= i -> receipt_walk room data i d top = Ok j ->
  exists x, valid d top x /\ spans data i j (encode x).
Proof.
  revert i d top j. induction room as [|room IH]; intros i d top j Hd Hi Hw; cbn [receipt_walk] in Hw;
    unfold _MAX_RECEIPT_DEPTH in Hw; destruct (16 <? d) eqn:Ed; try done. zbool.
  destruct (py_index data i) as [b|] eqn:Eb; [|done].
  apply from_index in Eb as [Efrom Hlt]; [|done].
  pose proof (head_of_byte b) as (Hb & Hm & Hinf).
  destruct (major_of (b2z b) =? 7) eqn:E7; zbool.
  { destruct (bool_decide _) eqn:Ev; [|done]. injection Hw as <-. apply bool_decide_eq_true_1 in Ev.
    exists (Simple (info_bits (b2z b))). split; [by constructor|]. cbn [encode].
    rewrite E7 in Hb. change (32 * 7) with 224 in Hb. rewrite <- Hb. split_and!; [done|done|lia]. }
  destruct (27 <? info_bits (b2z b)) eqn:E27; [done|]. zbool.
  destruct (receipt_argument data i _) as [[arg k]|] eqn:Earg; [|done].
  destruct (receipt_argument_inv data i b _ _ arg k Hi Efrom eq_refl E27 Earg) as (Eh & -> & Hk & Harg).
  pose proof (zlen_header (major_of (b2z b)) arg) as Hzh.
  set (major := major_of (b2z b)) in *. set (k := i + zlen (header major arg)) in *.
  assert (spans data i k (header major arg)) as Hspan by done.
  assert (forall i j, 0 <= i -> receipt_walk room data i (d + 1) false = Ok j ->
    exists x, valid (d + 1) false x /\ spans data i j (encode x)) as Hwalk
    by (intros; apply (IH _ (d + 1) false); (done || lia)).
  destruct (major =? 0) eqn:E0; zbool.
  { injection Hw as <-. exists (Uint arg). rewrite E0 in Hspan. split; [by constructor|done]. }
  destruct (major =? 1) eqn:E1; zbool.
  { rewrite shiftl1 in Hw by lia. destruct (2 ^ 63 <=? arg) eqn:E63; [done|]. zbool. injection Hw as <-.
    exists (Nint arg). rewrite E1 in Hspan. split; [constructor; lia|done]. }
  destruct (bool_decide (major ∈ [2; 3])) eqn:E23.
  { destruct (zlen data <? k + arg) eqn:Elen; [done|]. zbool.
    destruct (slice_from data k (k + arg)) as [Es Hls]; [lia|done|].
    set (bs := py_slice data k (k + arg)) in *. replace (k + arg - k) with arg in Hls by lia.
    assert (spans data k (k + arg) bs) as Hsb by (split_and!; (done || lia)).
    pose proof (spans_app _ _ _ _ _ _ Hspan Hsb) as Hs.
    destruct (major =? 3) eqn:E3; zbool; cbn [andb] in Hw.
    - destruct (bool_decide (is_Some _)) eqn:Eutf; [|done]. injection Hw as <-. zbool.
      exists (Tstr bs). rewrite E3 in Hs. cbn [encode]. rewrite Hls.
      split; [constructor; (done || lia)|done].
    - injection Hw as <-. assert (major = 2) as E2 by (set_unfold; lia).
      exists (Bstr bs). rewrite E2 in Hs. cbn [encode]. rewrite Hls.
      split; [constructor; (done || lia)|done]. }
  apply bool_decide_eq_false_1 in E23.
  destruct (major =? 6) eqn:E6; zbool.
  { destruct (d =? 0) eqn:Ed0, top, (arg =? 18) eqn:E18; try done. zbool. cbn [andb negb] in Hw.
    apply Hwalk in Hw as (x & Hx & Hs); [|lia]. exists (Tag 18 x). split; [by constructor|].
    rewrite E6, E18 in Hspan. by apply (spans_app data i k). }
  destruct (zlen data - k <? arg) eqn:Efit; [done|]. zbool.
  destruct (major =? 4) eqn:E4; zbool.
  - apply (walk_items_sound data _ (d + 1) Hwalk) in Hw as (l & Hl & Hvs & Hs); [|lia].
    exists (Arr l). assert (zlen l = arg) as Hza by (unfold zlen; lia).
    split; [constructor; (done || lia)|]. cbn [encode]. rewrite Hza. rewrite E4 in Hspan.
    by apply (spans_app data i k).
  - apply (walk_entries_sound data _ (d + 1) Hwalk) in Hw as (l & Hl & Hvs & Hnd & _ & Hs); [|lia].
    assert (major = 5) as E5 by (set_unfold; lia).
    exists (Map l). assert (zlen l = arg) as Hza by (unfold zlen; lia).
    split; [constructor; (done || lia)|]. rewrite encode_map_eq, Hza. rewrite E5 in Hspan.
    by apply (spans_app data i k).
Qed.

(** ** Only the documented exceptions *)
Definition walk_error (e : exn) : Prop := e = ReceiptEncodingError \/ e = IndexError.

Lemma py_index_error {A} (l : list A) i e : py_index l i = Raise e -> e = IndexError.
Proof. unfold py_index. repeat case_match; congruence. Qed.

Lemma receipt_argument_error data i info e :
  receipt_argument data i info = Raise e -> walk_error e.
Proof.
  unfold receipt_argument, walk_error. repeat case_match; intros [= <-]; try (by left).
  right. by eapply py_index_error.
Qed.

Section walk_error.
Context (data : bytes) (walk : Z -> result Z).
Hypothesis walk_error_ok : forall i e, walk i = Raise e -> walk_error e.

Lemma walk_items_error n i e : walk_items walk n i = Raise e -> walk_error e.
Proof.
  revert i. induction n as [|n IH]; intros i; cbn [walk_items]; [done|].
  destruct (walk i) eqn:E; [apply IH|]. intros [= <-]. eauto.
Qed.

Lemma walk_entries_error n i keys e : walk_entries data walk n i keys = Raise e -> walk_error e.
Proof.
  revert i keys. induction n as [|n IH]; intros i keys; cbn [walk_entries]; [done|].
  destruct (py_index data i) eqn:Ei; [|intros [= <-]; right; by eapply py_index_error].
  destruct (negb _); [intros [= <-]; by left|].
  destruct (walk i) eqn:E; [|intros [= <-]; eauto].
  destruct (bool_decide _); [intros [= <-]; by left|].
  destruct (walk a0) eqn:E'; [apply IH|intros [= <-]; eauto].
Qed.
End walk_error.

(** The depth check stops the recursion before [room] does. *)
Lemma receipt_walk_error room data i d top e :
  17 - d <= Z.of_nat room -> receipt_walk room data i d top = Raise e -> walk_error e.
Proof.
  revert i d top e. induction room as [|room IH]; intros i d top e Hroom; cbn [receipt_walk];
    unfold _MAX_RECEIPT_DEPTH; destruct (16 <? d) eqn:Ed; zbool; try (intros [= <-]; by left); [lia|].
  assert (forall i e, receipt_walk room data i (d + 1) false = Raise e -> walk_error e) as Hrec
    by (intros i' e'; apply IH; lia).
  destruct (py_index data i) eqn:Ei; [|intros [= <-]; right; by eapply py_index_error].
  destruct (major_of _ =? 7); [by case_match; intros [= <-]; left|].
  destruct (27 <? _); [intros [= <-]; by left|].
  destruct (receipt_argument _ _ _) as [[arg k]|] eqn:Ea;
    [|intros [= <-]; by eapply receipt_argument_error].
  destruct (major_of _ =? 0); [done|].
  destruct (major_of _ =? 1); [by case_match; intros [= <-]; left|].
  destruct (bool_decide _); [by repeat case_match; intros [= <-]; left|].
  destruct (major_of _ =? 6); [by case_match; [intros [= <-]; left|apply Hrec]|].
  destruct (_ <? arg); [intros [= <-]; by left|].
  destruct (major_of _ =? 4); [by apply walk_items_error|by apply walk_entries_error].
Qed.

Lemma whole_walk_error data top e : _receipt_walk data 0 0 top = Raise e -> walk_error e.
Proof. unfold _receipt_walk. intros E. by apply (receipt_walk_error 18 data 0 0 top e). Qed.

Lemma from_0 data : from data 0 = data.
Proof. done. Qed.

Lemma receipt_walk_whole data top :
  (exists x, valid 0 top x /\ data = encode x) <-> _receipt_walk data 0 0 top = Ok (zlen data).
Proof.
  unfold _receipt_walk. split.
  - intros (x & Hv & ->). apply (walk_complete 18 _ 0 0 top x []); try done.
    by rewrite from_0, app_nil_r.
  - intros Hw. apply walk_sound in Hw as (x & Hv & E & _ & _); [|done..]. exists x.
    split; [done|]. rewrite from_0 in E. rewrite E at 1. unfold from, zlen.
    by rewrite Nat2Z.id, drop_all, app_nil_r.
Qed.

(** [C21] [receipt_item] accepts exactly the encodings of valid items: when it
    returns, the data is the one encoding of an item the rule allows and the
    value is what [cbor2.loads] gives; when it raises anything but an error of
    [cbor2.loads] on such data, it raises [ReceiptEncodingError], and the data
    is no item's encoding. No other exception escapes, and the recursion
    bound is never what stops it. *)
Theorem receipt_item_correct {V} (loads : bytes -> result V) (data : bytes) (top_tag : bool) :
  let encoded := exists x, valid 0 top_tag x /\ data = encode x in
  match receipt_item loads data top_tag with
  | Ok v => encoded /\ loads data = Ok v
  | Raise e => (encoded /\ loads data = Raise e) \/ (~ encoded /\ e = ReceiptEncodingError)
  end.
Proof.
  intros encoded. unfold receipt_item. pose proof (receipt_walk_whole data top_tag) as Hw.
  fold encoded in Hw. destruct (_receipt_walk data 0 0 top_tag) as [end_|e] eqn:E.
  - destruct (end_ =? zlen data) eqn:Eend; zbool; cbn [negb].
    + assert encoded as Henc by (apply Hw; congruence). destruct (loads data); auto.
    + right. split; [|done]. intros Henc. apply Hw in Henc. congruence.
  - pose proof (whole_walk_error _ _ _ E) as He.
    assert (~ encoded) as Hn by (intros Henc; apply Hw in Henc; done).
    destruct He as [->| ->]; right; done.
Qed.

(** ** One item per encoding *)
Lemma header_inj major major' n n' r r' :
  0 <= major < 8 -> 0 <= major' < 8 -> 0 <= n < 2 ^ 64 -> 0 <= n' < 2 ^ 64 ->
  header major n ++ r = header major' n' ++ r' -> major = major' /\ n = n' /\ r = r'.
Proof.
  intros Hm Hm' Hn Hn' E.
  set (data := header major n ++ r).
  destruct (from_header data 0 major n r) as (b & Hb & <- & Hi); [done..|].
  destruct (from_header data 0 major' n' r') as (b' & Hb' & <- & Hi'); [done..|].
  rewrite Hb in Hb'. injection Hb' as <-.
  pose proof (receipt_argument_header data 0 _ n r ltac:(lia) Hn eq_refl) as Ha.
  pose proof (receipt_argument_header data 0 _ n' r' ltac:(lia) Hn' E) as Ha'.
  rewrite <- Hi in Ha. rewrite <- Hi', Ha in Ha'. injection Ha' as <- _.
  split_and!; [done|done|]. by apply app_inv_head in E.
Qed.

Lemma concat_inj {A} (f : A -> bytes) (ok : A -> Prop) l l' r r' :
  (forall x y r r', x ∈ l -> ok x -> ok y -> f x ++ r = f y ++ r' -> x = y /\ r = r') ->
  Forall ok l -> Forall ok l' -> length l = length l' ->
  concat (map f l) ++ r = concat (map f l') ++ r' -> l = l' /\ r = r'.
Proof.
  intros Hf Hl. revert l' Hf. induction Hl as [|x l Hx Hl IH]; intros [|y l'] Hf Hl' Hlen E; try done.
  apply Forall_cons in Hl' as [Hy Hl']. injection Hlen as Hlen. cbn [map concat] in E.
  rewrite <- !app_assoc in E. apply Hf in E as [-> E]; [|by left|done|done].
  apply IH in E as [-> ->]; try done. intros z w s s' Hz. apply Hf. by right.
Qed.

Definition item_major (x : item) : Z :=
  match x with
  | Uint _ => 0 | Nint _ => 1 | Bstr _ => 2 | Tstr _ => 3
  | Arr _ => 4 | Map _ => 5 | Tag _ _ => 6 | Simple _ => 7
  end.

Lemma encode_first d t x :
  valid d t x -> exists b r, encode x = b :: r /\ major_of (b2z b) = item_major x.
Proof.
  assert (forall major n r, 0 <= major < 8 -> 0 <= n -> exists b r',
    header major n ++ r = b :: r' /\ major_of (b2z b) = major) as H.
  { intros major n r Hm Hn. pose proof (info_of_range n Hn). eexists _, _. split; [reflexivity|].
    apply head_bits; lia. }
  intros Hv. pose proof (fun bs : bytes => zlen_nonneg bs). pose proof (fun l : list item => zlen_nonneg l).
  pose proof (fun l : list (item * item) => zlen_nonneg l).
  destruct Hv as [n|n|bs|bs|l|l|x|v _ Hin]; cbn [encode item_major]; try (apply H; [lia|done]);
    try (rewrite <- (app_nil_r (header _ _)); apply H; lia).
  eexists _, _. split; [reflexivity|]. change (224 + v) with (32 * 7 + v).
  apply head_bits; [lia|]. set_unfold; lia.
Qed.

Lemma encode_item_inj (n : nat) x d t y d' t' r r' :
  zlen (encode x) <= Z.of_nat n -> valid d t x -> valid d' t' y ->
  encode x ++ r = encode y ++ r' -> x = y /\ r = r'.
Proof.
  revert x d t y d' t' r r'. induction n as [|n IH]; intros x d t y d' t' r r' Hn Hx Hy E.
  { pose proof (length_encode_pos x). lia. }
  assert (item_major x = item_major y) as Hmaj.
  { destruct (encode_first _ _ _ Hx) as (b & s & Eb & <-), (encode_first _ _ _ Hy) as (b' & s' & Eb' & <-).
    rewrite Eb, Eb' in E. by injection E as <- _. }
  destruct Hx as [a _ Ha|a _ Ha|a _ Ha|a _ Ha _|l _ Hl Hvl|l _ Hl Hvl _|x _ _ Hx|v _ Hv],
    Hy as [b _ Hb|b _ Hb|b _ Hb|b _ Hb _|k _ Hk Hvk|k _ Hk Hvk _|y _ _ Hy|w _ Hw]; try done; clear Hmaj;
    rewrite ?encode_map_eq in *; cbn [encode] in E, Hn; rewrite <- ?app_assoc, ?zlen_app in *.
  - apply header_inj in E as (_ & -> & ->); (done || lia).
  - apply header_inj in E as (_ & -> & ->); (done || lia).
  - apply header_inj in E as (_ & Elen & E); [|lia|lia|split; [apply zlen_nonneg|done]..].
    apply app_inj_1 in E as [-> ->]; [done|]. unfold zlen in Elen. lia.
  - apply header_inj in E as (_ & Elen & E); [|lia|lia|split; [apply zlen_nonneg|done]..].
    apply app_inj_1 in E as [-> ->]; [done|]. unfold zlen in Elen. lia.
  - pose proof (zlen_header 4 (zlen l)).
    apply header_inj in E as (_ & Elen & E); [|lia|lia|split; [apply zlen_nonneg|done]..].
    set (head := zlen (header 4 (zlen l))) in *. clearbody head.
    apply (concat_inj encode (fun z => exists e u, valid e u z)) in E as [-> ->]; [done| | | |unfold zlen in Elen; lia].
    + intros z w s s' Hz (e & u & Hvz) (e' & u' & Hvw). apply (IH z e u w e' u'); try done.
      apply list_elem_of_In, in_split in Hz as (l1 & l2 & ->). rewrite map_app, concat_app in Hn.
      cbn [map concat] in Hn. rewrite !zlen_app in Hn.
      pose proof (zlen_nonneg (concat (map encode l1))). pose proof (zlen_nonneg (concat (map encode l2))). lia.
    + eapply Forall_impl; [exact Hvl|]. eauto.
    + eapply Forall_impl; [exact Hvk|]. eauto.
  - pose proof (zlen_header 5 (zlen l)).
    apply header_inj in E as (_ & Elen & E); [|lia|lia|split; [apply zlen_nonneg|done]..].
    set (head := zlen (header 5 (zlen l))) in *. clearbody head.
    apply (concat_inj encode_entry (fun z => exists e u, valid e u z.1 /\ valid e u z.2)) in E as [-> ->];
      [done| | | |unfold zlen in Elen; lia].
    + intros z w s s' Hz (e & u & Hz1 & Hz2) (e' & u' & Hw1 & Hw2) Es. unfold encode_entry in Es.
      apply list_elem_of_In, in_split in Hz as (l1 & l2 & ->). rewrite map_app, concat_app in Hn.
      cbn [map concat] in Hn. unfold encode_entry at 2 in Hn. rewrite !zlen_app in Hn.
      pose proof (zlen_nonneg (concat (map encode_entry l1))).
      pose proof (zlen_nonneg (concat (map encode_entry l2))).
      pose proof (zlen_nonneg (encode z.1)). pose proof (zlen_nonneg (encode z.2)).
      rewrite <- !app_assoc in Es.
      apply (IH z.1 e u w.1 e' u') in Es as [E1 Es]; [|lia|done..].
      apply (IH z.2 e u w.2 e' u') in Es as [E2 ->]; [|lia|done..].
      split; [|done]. destruct z, w. cbn in *. congruence.
    + eapply Forall_impl; [exact Hvl|]. intros z (_ & ? & ?). eauto.
    + eapply Forall_impl; [exact Hvk|]. intros z (_ & ? & ?). eauto.
  - pose proof (zlen_header 6 18). apply header_inj in E as (_ & _ & E); [|lia..].
    apply (IH x (d + 1) false y (d' + 1) false) in E as [-> ->]; [done|lia|done|done].
  - injection E as Eb ->. apply (f_equal b2z) in Eb. rewrite !b2z_small in Eb by (set_unfold; lia).
    split; [f_equal; lia|done].
Qed.

(** The receipt encoding rule leaves one reading: bytes the walk accepts
    are the encoding of exactly one item, and the walk finds the same end
    whatever follows them, so an item delimits itself. *)
Theorem receipt_walk_unambiguous (data rest : bytes) (top_tag : bool) :
  _receipt_walk data 0 0 top_tag = Ok (zlen data) ->
  (exists! x, valid 0 top_tag x /\ data = encode x) /\
  _receipt_walk (data ++ rest) 0 0 top_tag = Ok (zlen data).
Proof.
  intros Hw. apply receipt_walk_whole in Hw as (x & Hx & ->). split.
  - exists x. split; [done|]. intros y [Hy E].
    apply (encode_item_inj (length (encode x)) x 0 top_tag y 0 top_tag [] []); try done.
    by rewrite !app_nil_r.
  - unfold _receipt_walk. by apply (walk_complete 18 _ 0 0 top_tag x rest).
Qed.

Lemma receipt_walk_unambiguous_witness :
  let data := map z2b [0x82; 0x19; 0x01; 0xF4; 0xF5] in
  (exists! x, valid 0 false x /\ data = encode x) /\
  _receipt_walk (data ++ [Byte.x00]) 0 0 false = Ok (zlen data).
Proof. intros data. apply receipt_walk_unambiguous. reflexivity. Defined.

(** ** The commitment object is a receipt item *)
Definition commitment_item (peak_hashes : list bytes) : item := Arr (map Bstr peak_hashes).

Lemma commitment_body_eq l body :
  Forall is_digest l ->
  commitment_body l body = Ok (body ++ concat (map encode (map Bstr l))).
Proof.
  intros Hl. revert body. induction Hl as [|p l Hp Hl IH]; intros body; cbn [commitment_body map concat].
  { by rewrite app_nil_r. }
  rewrite cbor_uint_header_eq by (unfold is_digest, zlen in *; lia).
  rewrite IH. cbn [encode]. by rewrite <- !app_assoc.
Qed.

Lemma commitment_object_eq l :
  Forall is_digest l -> zlen l < 2 ^ 64 ->
  commitment_object l = Ok (encode (commitment_item l)) /\ valid 0 false (commitment_item l).
Proof.
  intros Hl Hlen. pose proof (zlen_nonneg l). split.
  - unfold commitment_object. rewrite assert_digests by done.
    rewrite cbor_uint_header_eq by lia. rewrite commitment_body_eq by done.
    unfold commitment_item. cbn [encode]. by rewrite zlen_map.
  - constructor; [lia|by rewrite zlen_map|]. apply Forall_map. eapply Forall_impl; [exact Hl|].
    intros p Hp. constructor; [lia|]. unfold is_digest, zlen in *. lia.
Qed.

Lemma assert_digests_inv l :
  match map_result (fun p => _assert_digest (PBytes p)) l with
  | Ok _ => Forall is_digest l
  | Raise e => e = InvalidArgumentError /\ ~ Forall is_digest l
  end.
Proof.
  induction l as [|p l IH]; [constructor|]. cbn [map_result]. rewrite assert_digest_bytes.
  destruct (decide (is_digest p)) as [Hp|Hp]; [|split; [done|by intros [? _]%Forall_cons]].
  destruct (map_result _ l); [by constructor|]. destruct IH as [-> IH].
  split; [done|by intros [_ ?]%Forall_cons].
Qed.

(** [commitment_object] produces the canonical CBOR array of the peaks:
    on 32-byte peaks its result is the one encoding of the array of those byte
    strings, an item the receipt encoding rule accepts; on anything else it
    raises [InvalidArgumentError], and nothing else happens below 2^64 peaks. *)
Theorem commitment_canonical (peak_hashes : list bytes) :
  match commitment_object peak_hashes with
  | Ok c =>
      Forall is_digest peak_hashes /\ c = encode (commitment_item peak_hashes) /\
      _receipt_walk c 0 0 false = Ok (zlen c)
  | Raise e =>
      (e = InvalidArgumentError /\ ~ Forall is_digest peak_hashes) \/ 2 ^ 64 <= zlen peak_hashes
  end.
Proof.
  pose proof (assert_digests_inv peak_hashes) as Ha.
  destruct (decide (zlen peak_hashes < 2 ^ 64)) as [Hlen|Hlen].
  - destruct (map_result _ peak_hashes) eqn:E.
    + destruct (commitment_object_eq peak_hashes Ha Hlen) as [-> Hv]. split_and!; [done|done|].
      apply receipt_walk_whole. eauto.
    + unfold commitment_object. rewrite E. left. done.
  - unfold commitment_object. destruct (map_result _ peak_hashes) eqn:E; [|left; done].
    assert (_cbor_uint_header 4 (zlen peak_hashes) = Raise OverflowError) as ->; [|right; lia].
    unfold _cbor_uint_header. pose proof (zlen_nonneg peak_hashes).
    rw_bool (zlen peak_hashes <? 24) false. rw_bool (zlen peak_hashes <? 2 ^ 8) false.
    rw_bool (zlen peak_hashes <? 2 ^ 16) false. rw_bool (zlen peak_hashes <? 2 ^ 32) false.
    unfold to_bytes. rw_bool (zlen peak_hashes <? 256 ^ Z.of_nat 8) false.
    by rewrite andb_false_r.
Qed.

(** The commitment object binds the peaks: two accumulators with one
    commitment object have the same ordered peaks. *)
Theorem commitment_binding (l k : list bytes) (c : bytes) :
  commitment_object l = Ok c -> commitment_object k = Ok c -> zlen l < 2 ^ 64 -> zlen k < 2 ^ 64 ->
  l = k.
Proof.
  intros Hl Hk Hll Hlk.
  pose proof (assert_digests_inv l) as Hdl. pose proof (assert_digests_inv k) as Hdk.
  destruct (map_result _ l) eqn:El; [|unfold commitment_object in Hl; by rewrite El in Hl].
  destruct (map_result _ k) eqn:Ek; [|unfold commitment_object in Hk; by rewrite Ek in Hk].
  destruct (commitment_object_eq l Hdl Hll) as [Hcl Hvl]. destruct (commitment_object_eq k Hdk Hlk) as [Hck Hvk].
  assert (encode (commitment_item l) ++ [] = encode (commitment_item k) ++ []) as E by congruence.
  apply (encode_item_inj (length (encode (commitment_item l))) _ 0 false _ 0 false) in E as [E _];
    [|unfold zlen; lia|done|done].
  injection E as E. clear -E. revert k E. induction l as [|p l IH]; intros [|q k] E; try done.
  injection E as -> E. f_equal. by apply IH.
Qed.

Lemma commitment_binding_witness :
  let l := [zeros 32; be_bytes 32 7] in
  is_ok (commitment_object l) = true /\ l = l.
Proof.
  intros l. split; [reflexivity|].
  apply (commitment_binding l l match commitment_object l with Ok c => c | Raise _ => [] end);
    (reflexivity || lia).
Defined.
