(* ===== verification/CborLoads.v ===== *)
(** * [cbor.loads] refuses colliding keys

    On any well-formed encoding - heads of any width, definite or indefinite
    lengths, floats, and whatever follows the item - the byte walk of [loads]
    is a check of the item: every key of every map, at any depth, decodes on
    its own to a value that no earlier key of the map equals, no key holds a
    context tag, and the nesting stays within the recursion limit. *)
From S2P Require Import Prelude Bytes Text Py Sha256 Mmr Commitment Cbor Ed25519.
Open Scope Z_scope.

(** ** Encodings

    The syntax of well-formed CBOR (RFC 8949), with every choice an encoder
    has left open. *)
Module Code.
(** The argument of a head: its additional information and the bytes that
    follow. *)
Record arg := { info : Z; extra : bytes }.

Definition arg_ok (a : arg) : Prop :=
  0 <= info a < 24 /\ extra a = [] \/ 24 <= info a <= 27 /\ zlen (extra a) = 2 ^ (info a - 24).
Definition arg_value (a : arg) : Z := if info a <? 24 then info a else from_bytes (extra a).

Inductive code :=
| Atom (major : Z) (a : arg)                    (* an integer, a simple value or a float *)
| Text (major : Z) (a : arg) (bs : bytes)       (* a byte or text string *)
| Chunks (major : Z) (l : list (arg * bytes))   (* one of indefinite length *)
| Array (a : option arg) (l : list code)
| Dict (a : option arg) (l : list (code * code))
| Tagged (a : arg) (x : code).

(** A head with an argument, or of indefinite length, which a break ends. *)
Definition opening (major : Z) (a : option arg) : bytes :=
  match a with Some a => z2b (32 * major + info a) :: extra a | None => [z2b (32 * major + 31)] end.
Definition closing (a : option arg) : bytes := match a with Some _ => [] | None => [z2b 0xFF] end.

Definition chunk_bytes (major : Z) (c : arg * bytes) : bytes := opening major (Some c.1) ++ c.2.

Fixpoint bytes_of (x : code) : bytes :=
  match x with
  | Atom major a => opening major (Some a)
  | Text major a bs => opening major (Some a) ++ bs
  | Chunks major l => opening major None ++ concat (map (chunk_bytes major) l) ++ closing None
  | Array a l => opening 4 a ++ concat (map bytes_of l) ++ closing a
  | Dict a l => opening 5 a ++ concat (map (fun '(k, v) => bytes_of k ++ bytes_of v) l) ++ closing a
  | Tagged a x => opening 6 (Some a) ++ bytes_of x
  end.

Definition entry_bytes (e : code * code) : bytes := bytes_of e.1 ++ bytes_of e.2.

(** A head that announces [n] items or bytes, or no number. *)
Definition counts (a : option arg) (n : Z) : Prop :=
  match a with Some a => arg_ok a /\ arg_value a = n | None => True end.

Fixpoint well_formed (x : code) : Prop :=
  match x with
  | Atom major a => major ∈ [0; 1; 7] /\ arg_ok a
  | Text major a bs => major ∈ [2; 3] /\ counts (Some a) (zlen bs)
  | Chunks major l => major ∈ [2; 3] /\ Forall (fun c : arg * bytes => counts (Some c.1) (zlen c.2)) l
  | Array a l => counts a (zlen l) /\ (fix all l := match l with [] => True | x :: l => well_formed x /\ all l end) l
  | Dict a l =>
      counts a (zlen l) /\
      (fix all (l : list (code * code)) :=
         match l with [] => True | (k, v) :: l => well_formed k /\ well_formed v /\ all l end) l
  | Tagged a x => arg_ok a /\ well_formed x
  end.

(** The calls of the walk an item takes, one inside the other. *)
Fixpoint depth (x : code) : nat :=
  match x with
  | Array _ l => S (foldr Nat.max 0%nat (map depth l))
  | Dict _ l => S (foldr Nat.max 0%nat (map (fun '(k, v) => Nat.max (depth k) (depth v)) l))
  | Tagged _ x => S (depth x)
  | _ => 1%nat
  end.
Definition shallow (room : nat) (x : code) : Prop := (depth x <= room)%nat.
End Code.
Import Code.

Lemma well_formed_array a l : well_formed (Array a l) <-> counts a (zlen l) /\ Forall well_formed l.
Proof. cbn. f_equiv. induction l as [|x l IH]; [done|]. rewrite Forall_cons. by rewrite IH. Qed.

Lemma well_formed_dict a l :
  well_formed (Dict a l) <-> counts a (zlen l) /\ Forall (fun e => well_formed e.1 /\ well_formed e.2) l.
Proof. cbn. f_equiv. induction l as [|[k v] l IH]; [done|]. rewrite Forall_cons, IH. cbn. tauto. Qed.

Lemma bytes_of_dict a l : bytes_of (Dict a l) = opening 5 a ++ concat (map entry_bytes l) ++ closing a.
Proof. cbn. do 3 f_equal. apply map_ext. by intros []. Qed.

Lemma counts_ok a n : counts a n -> match a with Some a => arg_ok a | None => True end.
Proof. destruct a; [by intros []|done]. Qed.

Lemma max_le l n : (foldr Nat.max 0 l <= n)%nat <-> Forall (fun m => m <= n)%nat l.
Proof. induction l as [|m l IH]; cbn [foldr]; [split; [constructor|lia]|]. rewrite Forall_cons, <- IH. lia. Qed.

Lemma shallow_array room a l : shallow (S room) (Array a l) <-> Forall (shallow room) l.
Proof. unfold shallow. cbn [depth]. by rewrite <- Nat.succ_le_mono, max_le, Forall_map. Qed.

Lemma shallow_dict room a l : shallow (S room) (Dict a l) <-> Forall (fun e => shallow room e.1 /\ shallow room e.2) l.
Proof.
  unfold shallow. cbn [depth]. rewrite <- Nat.succ_le_mono, max_le, Forall_map. apply Forall_proper; [|done].
  intros [k v]. cbn. lia.
Qed.

Lemma depth_pos x : (1 <= depth x)%nat.
Proof. destruct x; cbn; lia. Qed.

Section loads.
Context {CB : Cbor2}.

(** ** The check, on encodings *)
Fixpoint unambiguous (in_key : bool) (x : code) {struct x} : Prop :=
  match x with
  | Array _ l => (fix all l := match l with [] => True | x :: l => unambiguous in_key x /\ all l end) l
  | Dict _ l =>
      (fix entries keys (l : list (code * code)) :=
         match l with
         | [] => True
         | (k, v) :: l =>
             unambiguous true k /\
             exists key, _key (bytes_of k) = Ok key /\ existsb (frozen_eq key) keys = false /\
               unambiguous in_key v /\ entries (key :: keys) l
         end) [] l
  | Tagged a x => (in_key = true -> arg_value a ∉ _CONTEXT_TAGS) /\ unambiguous in_key x
  | _ => True
  end.

Fixpoint entries_unambiguous (in_key : bool) (keys : list frozen) (l : list (code * code)) : Prop :=
  match l with
  | [] => True
  | (k, v) :: l =>
      unambiguous true k /\
      exists key, _key (bytes_of k) = Ok key /\ existsb (frozen_eq key) keys = false /\
        unambiguous in_key v /\ entries_unambiguous in_key (key :: keys) l
  end.

Lemma unambiguous_array k a l : unambiguous k (Array a l) <-> Forall (unambiguous k) l.
Proof. cbn. induction l as [|x l IH]; [done|]. rewrite Forall_cons. by rewrite IH. Qed.

Lemma unambiguous_dict k a l : unambiguous k (Dict a l) <-> entries_unambiguous k [] l.
Proof.
  cbn. generalize (@nil frozen). induction l as [|[y v] l IH]; intros keys; [done|]. cbn [entries_unambiguous].
  split; intros (H1 & key & H2 & H3 & H4 & H5); (split; [done|]); exists key; split_and!; try done; by apply IH.
Qed.

(** ** Heads *)
Lemma opening_pos major a : 1 <= zlen (opening major a).
Proof. destruct a as [a|]; cbn [opening]; rewrite zlen_cons; [pose proof (zlen_nonneg (extra a))|rewrite zlen_nil]; lia. Qed.

(** The byte a head begins with is no break. *)
Lemma opening_first major a :
  0 <= major < 8 -> (major = 7 -> a <> None) -> match a with Some a => arg_ok a | None => True end ->
  exists b t, opening major a = b :: t /\ b2z b <> 0xFF.
Proof.
  intros Hm Ha Hok. destruct a as [a|]; cbn [opening]; do 2 eexists; (split; [done|]); rewrite b2z_small.
  - destruct Hok as [[? _]|[? _]]; lia.
  - destruct Hok as [[? _]|[? _]]; lia.
  - assert (major <> 7) by (intros E; by apply Ha). lia.
  - lia.
Qed.

Lemma head_opening data i major a r :
  0 <= i -> 0 <= major < 8 -> match a with Some a => arg_ok a | None => True end ->
  from data i = opening major a ++ r ->
  _head data i = Ok (major, option_map arg_value a, i + zlen (opening major a)).
Proof.
  intros Hi Hm Hok E. pose proof (from_end _ _ _ _ Hi E) as Hend. unfold _head.
  destruct a as [a|]; cbn [opening option_map] in *; rewrite zlen_cons in *; rewrite <- app_comm_cons in E.
  - rewrite (index_from data i _ _ Hi E).
    assert (0 <= info a < 32) as Hinfo by (destruct Hok as [[? _]|[? _]]; lia).
    destruct (head_bits major (info a) Hm Hinfo) as [E1 E2]. unfold major_of, info_bits in E1, E2. rewrite E1, E2.
    unfold arg_value. destruct Hok as [[Hs He]|[Hw He]].
    + rw_bool (info a <? 24) true. by rewrite He.
    + rw_bool (info a <? 24) false. rewrite (proj2 (Z.eqb_neq (info a) 31)) by lia. rw_bool (27 <? info a) false.
      rewrite Z.shiftl_mul_pow2, Z.mul_1_l, <- He by lia. pose proof (zlen_nonneg (extra a)).
      rw_bool (zlen data <? i + 1 + zlen (extra a)) false.
      apply (from_app data i [_] _ Hi) in E. rewrite zlen_cons, zlen_nil in E.
      rewrite (from_slice data (i + 1) (extra a) r) by (done || lia). do 2 f_equal. lia.
  - rewrite (index_from data i _ _ Hi E). destruct (head_bits major 31 Hm ltac:(lia)) as [E1 E2].
    unfold major_of, info_bits in E1, E2. rewrite E1, E2. done.
Qed.

(** ** The walk

    A step accepts what meets [ok]; everything else it refuses as [loads]
    does. *)
Definition refused {A} (r : result A) : Prop := r = Raise DuplicateMapKeyError \/ r = Raise RecursionError.
Definition answers {A} (ok : Prop) (r : result A) (a : A) : Prop := (ok /\ r = Ok a) \/ (~ ok /\ refused r).

#[local] Instance answers_proper {A} : Proper (iff ==> eq ==> eq ==> iff) (@answers A).
Proof. intros P Q HPQ r ? <- a ? <-. unfold answers. by rewrite HPQ. Qed.

Lemma answers_raise {A B} (ok : Prop) (r : result A) (k : A -> result B) b :
  refused r -> ~ ok -> answers ok (match r with Ok a => k a | Raise e => Raise e end) b.
Proof. intros [->| ->] Hn; right; (split; [done|]); [by left|by right]. Qed.

Lemma answers_refused {A} (ok : Prop) (a : A) : ~ ok -> answers ok (Raise DuplicateMapKeyError) a.
Proof. right. split; [done|by left]. Qed.

(** What a container of length [a] has to hold after [count] items. *)
Definition remaining (a : option arg) (count n : Z) : Prop :=
  match a with Some a => arg_value a = count + n | None => True end.

(** What [walk_elements] asks before an item. *)
Definition more (data : bytes) (a : option arg) (count i : Z) : result bool :=
  match option_map arg_value a with
  | None => let! b := py_index data i in Ok (negb (b2z b =? 0xFF))
  | Some n => Ok (count <? n)
  end.

Lemma more_end data a count i r :
  0 <= i -> remaining a count 0 -> from data i = closing a ++ r ->
  more data a count i = Ok false /\ match option_map arg_value a with None => i + 1 | Some _ => i end = i + zlen (closing a).
Proof.
  intros Hi Hr E. unfold more. destruct a as [a|]; cbn in *.
  - rewrite Hr, Z.add_0_r, Z.ltb_irrefl, zlen_nil. split; [done|lia].
  - rewrite (index_from data i _ _ Hi E). done.
Qed.

Lemma more_next data a count n i b t :
  0 <= i -> 0 <= n -> remaining a count (1 + n) -> from data i = b :: t -> b2z b <> 0xFF ->
  more data a count i = Ok true.
Proof.
  intros Hi Hn Hr E Hb. unfold more. destruct a as [a|]; cbn in *.
  - rewrite Hr. by rw_bool (count <? count + (1 + n)) true.
  - rewrite (index_from data i _ _ Hi E). by rewrite (proj2 (Z.eqb_neq _ _) Hb).
Qed.

Lemma first_byte x : well_formed x -> exists b t, bytes_of x = b :: t /\ b2z b <> 0xFF.
Proof.
  assert (forall major a r, (exists b t, opening major a = b :: t /\ b2z b <> 0xFF) ->
    exists b t, opening major a ++ r = b :: t /\ b2z b <> 0xFF) as Happ
    by (intros major a r (b & t & -> & ?); by exists b, (t ++ r)).
  destruct x as [major a|major a bs|major l|a l|a l|a x]; cbn [bytes_of].
  - intros [Hm Ha]. rewrite <- (app_nil_r (opening _ _)). apply Happ, opening_first; [set_solver by lia|done|done].
  - intros [Hm [Ha _]]. apply Happ, opening_first; [set_solver by lia|done|done].
  - intros [Hm _]. apply Happ, opening_first; [set_solver by lia|set_solver by lia|done].
  - intros [Hc _]%well_formed_array. apply Happ, opening_first; [lia|done|]. destruct a; [apply Hc|done].
  - intros [Hc _]%well_formed_dict. apply Happ, opening_first; [lia|done|]. destruct a; [apply Hc|done].
  - intros [Ha _]. by apply Happ, opening_first.
Qed.

Lemma bytes_of_pos x : 1 <= zlen (bytes_of x).
Proof.
  destruct x as [major a|major a bs|major l|a l|a l|a x]; cbn [bytes_of]; try rewrite zlen_app;
    try (match goal with |- context [opening ?m ?a] => pose proof (opening_pos m a) end); try done;
    match goal with |- _ <= _ + zlen ?l => pose proof (zlen_nonneg l) end; lia.
Qed.

Lemma entry_bytes_pos e : 1 <= zlen (entry_bytes e).
Proof.
  unfold entry_bytes. rewrite zlen_app. pose proof (bytes_of_pos e.1). pose proof (bytes_of_pos e.2). lia.
Qed.

(** The chunks of a string. *)
Lemma walk_chunks data major l fuel i r :
  0 <= i -> 0 <= major < 7 -> Forall (fun c : arg * bytes => counts (Some c.1) (zlen c.2)) l -> (length l < fuel)%nat ->
  from data i = concat (map (chunk_bytes major) l) ++ closing None ++ r ->
  until_break data (skip_chunk data) fuel i = Ok (i + zlen (concat (map (chunk_bytes major) l)) + 1).
Proof.
  intros Hi Hm Hl. revert fuel i Hi. induction Hl as [|[a bs] l [Ha Hv] Hl IH]; intros [|fuel] i Hi Hf E;
    try (cbn in Hf; lia); cbn [until_break].
  { rewrite (index_from data i _ _ Hi E). cbn [map concat]. by rewrite zlen_nil, Z.add_0_r. }
  cbn [map concat length fst snd] in *. unfold chunk_bytes in E at 1. cbn [fst snd] in E. rewrite <- !app_assoc in E.
  destruct (opening_first major (Some a)) as (b & t & Eb & Hb); [lia|done|done|]. pose proof E as Ei.
  rewrite Eb in Ei. rewrite (index_from data i _ _ Hi Ei), (proj2 (Z.eqb_neq _ _) Hb).
  unfold skip_chunk at 1. rewrite (head_opening data i major (Some a) _ Hi ltac:(lia) Ha E).
  cbn [option_map]. rewrite Hv. apply from_app in E; [|done]. pose proof (opening_pos major (Some a)).
  apply from_app in E; [|lia]. pose proof (zlen_nonneg bs). rewrite (IH fuel) by (done || lia).
  unfold chunk_bytes at 2. cbn [fst snd]. rewrite !zlen_app. f_equal. lia.
Qed.

Section walk.
Context (data : bytes) (room : nat).
Hypothesis walk_ok : forall i x k r,
  0 <= i -> well_formed x -> from data i = bytes_of x ++ r ->
  answers (unambiguous k x /\ shallow room x) (_walk room data i k) (i + zlen (bytes_of x)).

Lemma walk_array k a l fuel count i r :
  0 <= i -> Forall well_formed l -> (length l < fuel)%nat -> remaining a count (zlen l) ->
  from data i = concat (map bytes_of l) ++ closing a ++ r ->
  answers (Forall (unambiguous k) l /\ Forall (shallow room) l)
    (walk_elements data (fun i (keys : ()) => let! i := _walk room data i k in Ok (i, keys)) fuel
       (option_map arg_value a) count i ())
    (i + zlen (concat (map bytes_of l)) + zlen (closing a)).
Proof.
  intros Hi Hs. revert fuel count i Hi. induction Hs as [|x l Hx Hs IH]; intros [|fuel] count i Hi Hf Hr E;
    try (cbn in Hf; lia); cbn [walk_elements]; fold (more data a count i).
  { destruct (more_end data a count i r Hi Hr E) as [-> ->]. left. split; [done|]. cbn [map concat]. by rewrite zlen_nil, Z.add_0_r. }
  cbn [length map concat] in *. rewrite <- app_assoc in E. pose proof (zlen_nonneg l). rewrite zlen_cons in Hr.
  destruct (first_byte x Hx) as (b & t & Eb & Hb). pose proof E as Ei. rewrite Eb in Ei.
  rewrite (more_next data a count (zlen l) i b _ Hi ltac:(lia) Hr Ei Hb).
  pose proof (bytes_of_pos x). pose proof (from_app _ _ _ _ Hi E) as E'. rewrite !Forall_cons.
  destruct (walk_ok i x k _ Hi Hx E) as [[Hu ->]|[Hu Hn]].
  2: { destruct Hn as [->| ->]; right; (split; [tauto|]); [by left|by right]. }
  destruct (IH fuel (count + 1) (i + zlen (bytes_of x)) ltac:(lia) ltac:(lia)) as [[Ha ->]|[Ha Hn]]; [|done| |].
  - unfold remaining in *. destruct a; [lia|done].
  - left. split; [tauto|]. rewrite zlen_app. f_equal. lia.
  - right. split; [tauto|done].
Qed.

Lemma walk_dict k a l fuel count i r keys :
  0 <= i -> Forall (fun e : code * code => well_formed e.1 /\ well_formed e.2) l -> (length l < fuel)%nat ->
  remaining a count (zlen l) -> from data i = concat (map entry_bytes l) ++ closing a ++ r ->
  answers (entries_unambiguous k keys l /\ Forall (fun e => shallow room e.1 /\ shallow room e.2) l)
    (walk_elements data
       (fun i keys =>
          let! j := _walk room data i true in
          let! key := _key (py_slice data i j) in
          if existsb (frozen_eq key) keys then Raise DuplicateMapKeyError
          else let! i := _walk room data j k in Ok (i, key :: keys))
       fuel (option_map arg_value a) count i keys)
    (i + zlen (concat (map entry_bytes l)) + zlen (closing a)).
Proof.
  intros Hi Hs. revert fuel count i keys Hi. induction Hs as [|[x v] l [Hx Hv] Hs IH];
    intros [|fuel] count i keys Hi Hf Hr E; try (cbn in Hf; lia); cbn [walk_elements]; fold (more data a count i).
  { destruct (more_end data a count i r Hi Hr E) as [-> ->]. left. split; [done|]. cbn [map concat]. by rewrite zlen_nil, Z.add_0_r. }
  cbn [length map concat fst snd] in *. unfold entry_bytes in E at 1. cbn [fst snd] in E. rewrite <- !app_assoc in E.
  pose proof (zlen_nonneg l). rewrite zlen_cons in Hr. destruct (first_byte x Hx) as (b & t & Eb & Hb). pose proof E as Ei.
  rewrite Eb in Ei. rewrite (more_next data a count (zlen l) i b _ Hi ltac:(lia) Hr Ei Hb).
  pose proof (bytes_of_pos x). pose proof (bytes_of_pos v). pose proof (from_app _ _ _ _ Hi E) as E'.
  rewrite Forall_cons. cbn [entries_unambiguous fst snd]. cbv zeta.
  destruct (walk_ok i x true _ Hi Hx E) as [[Hu ->]|[Hu Hn]].
  2: { destruct Hn as [->| ->]; right; (split; [tauto|]); [by left|by right]. }
  rewrite (from_slice data i _ _ Hi E). destruct (_key (bytes_of x)) as [key|e] eqn:Ek; cycle 1.
  { unfold _key in Ek. destruct (cbor2_loads (bytes_of x)); [done|]. injection Ek as <-. apply answers_refused.
    by intros ((_ & ? & ? & _) & _). }
  destruct (existsb (frozen_eq key) keys) eqn:Ex.
  { apply answers_refused. intros ((_ & ? & [= <-] & ? & _) & _). congruence. }
  destruct (walk_ok (i + zlen (bytes_of x)) v k _ ltac:(lia) Hv E') as [[Huv ->]|[Huv Hn]].
  2: { destruct Hn as [->| ->]; right; (split; [intros ((_ & ? & _ & _ & ? & _) & ?); tauto|]); [by left|by right]. }
  apply from_app in E'; [|lia].
  destruct (IH fuel (count + 1) (i + zlen (bytes_of x) + zlen (bytes_of v)) (key :: keys) ltac:(lia) ltac:(lia))
    as [[Ha ->]|[Ha Hn]]; [|done| |].
  - unfold remaining in *. destruct a; [lia|done].
  - destruct Hu, Huv, Ha. left. split; [split; [split; [done|by exists key]|by split_and!]|]. unfold entry_bytes at 2. cbn [fst snd].
    rewrite !zlen_app. f_equal. lia.
  - right. split; [|done]. intros ((_ & ? & [= <-] & _ & _ & ?) & ?). tauto.
Qed.
End walk.

Lemma walk_code room data i x k r :
  0 <= i -> well_formed x -> from data i = bytes_of x ++ r ->
  answers (unambiguous k x /\ shallow room x) (_walk room data i k) (i + zlen (bytes_of x)).
Proof.
  revert i x k r. induction room as [|room IH]; intros i x k r Hi Hs E; cbn [_walk].
  { right. split; [|by right]. pose proof (depth_pos x). unfold shallow. lia. }
  pose proof (from_end _ _ _ _ Hi E) as Hend.
  destruct x as [major a|major a bs|major l|a l|a l|a x].
  - destruct Hs as [Hm Ha]. rewrite (head_opening data i major (Some a) r) by (done || set_solver by lia).
    rewrite bool_decide_true by done. left. split; [|done]. split; [done|unfold shallow; cbn; lia].
  - destruct Hs as [Hm [Ha Hv]]. cbn [bytes_of] in *. rewrite <- app_assoc in E.
    rewrite (head_opening data i major (Some a) (bs ++ r)) by (done || set_solver by lia). cbn [option_map].
    rewrite bool_decide_false, bool_decide_true by set_solver by lia. left. split; [split; [done|unfold shallow; cbn; lia]|].
    rewrite Hv, zlen_app. f_equal. lia.
  - destruct Hs as [Hm Hl]. cbn [bytes_of] in *. rewrite <- !app_assoc in E. rewrite !zlen_app in *.
    pose proof (opening_pos major None).
    rewrite (head_opening data i major None _ Hi ltac:(set_solver by lia) I E). cbn [option_map].
    rewrite bool_decide_false, bool_decide_true by set_solver by lia. apply from_app in E; [|done].
    assert (zlen l <= zlen (concat (map (chunk_bytes major) l))).
    { apply zlen_concat_le. intros c. unfold chunk_bytes. rewrite zlen_app. pose proof (opening_pos major (Some c.1)).
      pose proof (zlen_nonneg c.2). lia. }
    rewrite (walk_chunks data major l _ _ r) by (done || set_solver by lia || (unfold zlen in *; lia)).
    left. split; [split; [done|unfold shallow; cbn; lia]|]. change (zlen (closing None)) with 1. f_equal. lia.
  - apply well_formed_array in Hs as [Hc Hs]. rewrite unambiguous_array, shallow_array. cbn [bytes_of] in *.
    rewrite <- !app_assoc in E. rewrite !zlen_app in *. pose proof (opening_pos 4 a). pose proof (zlen_nonneg (closing a)).
    pose proof (zlen_concat_le bytes_of l bytes_of_pos).
    rewrite (head_opening data i 4 a _ Hi ltac:(lia) (counts_ok _ _ Hc) E).
    rewrite bool_decide_false, bool_decide_false by set_solver. cbn [Z.eqb Pos.eqb]. apply from_app in E; [|done].
    replace (i + (zlen (opening 4 a) + (zlen (concat (map bytes_of l)) + zlen (closing a))))
      with (i + zlen (opening 4 a) + zlen (concat (map bytes_of l)) + zlen (closing a)) by lia.
    apply (walk_array data room IH k a l _ 0 _ r); [lia|done|unfold zlen in *; lia| |done].
    unfold remaining. destruct a; [apply Hc|done].
  - apply well_formed_dict in Hs as [Hc Hs]. rewrite unambiguous_dict, shallow_dict. rewrite bytes_of_dict in *.
    rewrite <- !app_assoc in E. rewrite !zlen_app in *. pose proof (opening_pos 5 a). pose proof (zlen_nonneg (closing a)).
    pose proof (zlen_concat_le entry_bytes l entry_bytes_pos).
    rewrite (head_opening data i 5 a _ Hi ltac:(lia) (counts_ok _ _ Hc) E).
    rewrite bool_decide_false, bool_decide_false by set_solver. cbn [Z.eqb Pos.eqb]. apply from_app in E; [|done].
    replace (i + (zlen (opening 5 a) + (zlen (concat (map entry_bytes l)) + zlen (closing a))))
      with (i + zlen (opening 5 a) + zlen (concat (map entry_bytes l)) + zlen (closing a)) by lia.
    apply (walk_dict data room IH k a l _ 0 _ r []); [lia|done|unfold zlen in *; lia| |done].
    unfold remaining. destruct a; [apply Hc|done].
  - destruct Hs as [Ha Hs]. cbn [bytes_of unambiguous] in *. rewrite <- app_assoc in E. pose proof (opening_pos 6 (Some a)).
    rewrite (head_opening data i 6 (Some a) (bytes_of x ++ r)) by (done || lia). cbn [option_map].
    rewrite bool_decide_false, bool_decide_false by set_solver. cbn [Z.eqb Pos.eqb]. apply from_app in E; [|done].
    assert (shallow (S room) (Tagged a x) <-> shallow room x) as -> by (unfold shallow; cbn; lia).
    destruct (k && bool_decide (arg_value a ∈ _CONTEXT_TAGS)) eqn:Ec; zbool.
    { apply answers_refused. subst. intros [[H' _] _]. by apply H'. }
    assert (k = true -> arg_value a ∉ _CONTEXT_TAGS) as Hc by (intros ->; cbn in Ec; by apply bool_decide_eq_false_1 in Ec).
    rewrite zlen_app, Z.add_assoc. destruct (IH (i + zlen (opening 6 (Some a))) x k r) as [[? Hw]|[? Hw]];
      [lia|done|done|left|right]; tauto.
Qed.

Lemma cbor_loads_accepts room x rest v :
  well_formed x -> unambiguous false x -> shallow room x -> cbor2_loads (bytes_of x ++ rest) = Ok v ->
  cbor_loads room (bytes_of x ++ rest) = Ok v.
Proof.
  intros Hx Hu Hs Hv. unfold cbor_loads. rewrite Hv.
  destruct (walk_code room (bytes_of x ++ rest) 0 x false rest) as [[_ ->]|[Hn _]]; [done|done|by rewrite from_0|done|tauto].
Qed.

(** *** Shortest heads *)
Definition arg_of (n : Z) : arg := {| info := info_of n; extra := be_bytes (width_of n) n |}.

Lemma arg_of_counts n : 0 <= n < 2 ^ 64 -> counts (Some (arg_of n)) n.
Proof.
  intros Hn. unfold counts, arg_ok, arg_value. cbn [arg_of info extra]. destruct (decide (n < 24)).
  { destruct (info_small n ltac:(lia)) as [-> ->]. rw_bool (n <? 24) true. split; [left; split; [lia|done]|done]. }
  destruct (wide_exists n ltac:(lia)) as (k & least & Hw). destruct (wide_info n k least Hw) as (-> & Hwid & _).
  destruct Hw as (Hk & _ & Hle & Hlt). rw_bool (24 + k <? 24) false. replace (24 + k - 24) with k by lia. split.
  - right. split; [lia|]. unfold zlen. by rewrite length_be_bytes.
  - apply from_be_bytes. rewrite Hwid. lia.
Qed.

(** The code of a list of byte strings. *)
Definition strings_code (l : list bytes) : code :=
  Array (Some (arg_of (zlen l))) (map (fun bs => Text 2 (arg_of (zlen bs)) bs) l).

Lemma strings_code_bytes l : bytes_of (strings_code l) = encode (Arr (map Bstr l)).
Proof.
  cbn [strings_code bytes_of encode closing]. rewrite app_nil_r, zlen_map, !map_map. done.
Qed.

Lemma strings_code_ok l :
  zlen l < 2 ^ 64 -> Forall (fun bs => zlen bs < 2 ^ 64) l ->
  well_formed (strings_code l) /\ unambiguous false (strings_code l) /\ shallow 2 (strings_code l).
Proof.
  intros Hlen Hl. pose proof (zlen_nonneg l). unfold strings_code. split_and!.
  - apply well_formed_array. rewrite zlen_map. split; [apply arg_of_counts; lia|]. apply Forall_map.
    eapply Forall_impl; [exact Hl|]. intros bs Hbs. cbv beta in Hbs. pose proof (zlen_nonneg bs). split; [set_solver|apply arg_of_counts; lia].
  - apply unambiguous_array, Forall_map, Forall_forall. done.
  - apply shallow_array, Forall_map, Forall_forall. intros bs _. unfold shallow. cbn. lia.
Qed.
End loads.

(** [C23] [loads] decodes an item exactly when its maps lose no key. Let the
    input be any well-formed encoding - heads of any width, definite or
    indefinite lengths, floats and tags - followed by any bytes. If
    [cbor2.loads] refuses it, so does [loads], in the same way. If it accepts
    it, [loads] returns the same value when in every map of the first item,
    at any depth, each key decodes on its own to a value that equals no
    earlier key, no key holds a tag whose value depends on its context, and
    the item nests within the recursion limit; otherwise it raises
    [DuplicateMapKeyError]. Like [cbor2.loads] it does not look at the bytes
    after the item. *)
Theorem cbor_loads_correct {CB : Cbor2} (room : nat) (x : code) (rest : bytes) :
  well_formed x ->
  match cbor2_loads (bytes_of x ++ rest) with
  | Raise e => cbor_loads room (bytes_of x ++ rest) = Raise e
  | Ok v =>
      (unambiguous false x /\ shallow room x /\ cbor_loads room (bytes_of x ++ rest) = Ok v) \/
      (~ (unambiguous false x /\ shallow room x) /\
       cbor_loads room (bytes_of x ++ rest) = Raise DuplicateMapKeyError)
  end.
Proof.
  intros Hx. unfold cbor_loads. destruct (cbor2_loads (bytes_of x ++ rest)) as [v|e]; [|done].
  destruct (walk_code room (bytes_of x ++ rest) 0 x false rest) as [[Hu ->]|[Hu [->| ->]]];
    [done|done|by rewrite from_0|left|right|right]; tauto.
Qed.

(** A decoder for the witness: small integers and booleans, and one map. *)
Definition tiny_cbor2 : Cbor2 := {|
  cbor2_loads := fun bs =>
    match map b2z bs with
    | [n] => if n =? 0xF5 then Ok (PBool true) else Ok (PInt n)
    | _ => Ok (PDict [(PInt 1, PInt 3)])
    end;
  cbor2_dumps := fun _ => Raise LibraryError
|}.

(** [{_ 1: 2, true: 3}], of indefinite length, with bytes after it. *)
Definition short (n : Z) : arg := {| info := n; extra := [] |}.
Definition colliding : code :=
  Dict None [(Atom 0 (short 1), Atom 0 (short 2)); (Atom 7 (short 21), Atom 0 (short 3))].

Lemma cbor_loads_correct_witness :
  let CB := tiny_cbor2 in
  well_formed colliding /\ ~ unambiguous false colliding /\
  cbor_loads 2 (bytes_of colliding ++ [Byte.x00]) = Raise DuplicateMapKeyError.
Proof.
  intros CB. assert (well_formed colliding) as Hw.
  { assert (forall n, 0 <= n < 24 -> arg_ok (short n)) as Hs by (intros n Hn; left; by split).
    apply well_formed_dict. split; [exact I|].
    apply Forall_cons; split; [|apply Forall_cons; split; [|apply Forall_nil; exact I]];
      (split; (split; [set_solver|apply Hs; lia])). }
  assert (cbor_loads 2 (bytes_of colliding ++ [Byte.x00]) = Raise DuplicateMapKeyError) as E by (vm_compute; reflexivity).
  pose proof (cbor_loads_correct 2 colliding [Byte.x00] Hw) as H.
  replace (cbor2_loads (bytes_of colliding ++ [Byte.x00])) with (Ok (PDict [(PInt 1, PInt 3)])) in H
    by (vm_compute; reflexivity).
  split; [exact Hw|]. split; [|exact E]. destruct H as [(_ & _ & H)|[H _]]; [rewrite E in H; discriminate H|].
  intros Hu. apply H. split; [exact Hu|]. unfold shallow. cbn. lia.
Defined.
