(* ===== verification/MmrSpec.v ===== *)
(** * What an MMR node array holds

    The abstract state of an MMR is the list of its leaf hashes. [represents]
    says that a node array is the MMR of a list of leaves: every node of
    height [h] over leaves [s .. s + 2^h - 1] is at [node_pos h s] and holds
    [node_hash leaves h s]. [add_leaf] refines appending to that list. *)
From S2P Require Import Prelude Bytes Py Sha256 MmrPos Mmr.
Open Scope Z_scope.

Section spec.
Context {HL : Hashlib}.
Implicit Types leaves nodes : list bytes.

Definition leaf_at leaves (i : Z) : bytes := default [] (leaves !! Z.to_nat i).

Fixpoint node_hash leaves (h : nat) (s : Z) : bytes :=
  match h with
  | O => leaf_at leaves s
  | S h' => ih (node_hash leaves h' s) (node_hash leaves h' (s + p2 h')) (node_pos h s)
  end.

(** The node of height [h] over leaves from [s] exists among [f] leaves. *)
Definition complete (f : Z) (h : nat) (s : Z) : Prop := aligned h s /\ s + p2 h <= f.

Record represents nodes leaves : Prop := {
  rep_leaves : Forall is_digest leaves;
  rep_size : zlen nodes = nc (zlen leaves);
  rep_nodes : forall h s, complete (zlen leaves) h s ->
    py_index nodes (node_pos h s) = Ok (node_hash leaves h s)
}.

(** The peak hashes and the root the leaves determine. *)
Definition peak_hashes leaves : list bytes :=
  map (fun m => node_hash leaves m.1 m.2) (mountains (zlen leaves)).
Definition mmr_root leaves : bytes := bag_peaks (peak_hashes leaves).

Lemma leaf_at_app_l leaves k i : 0 <= i < zlen leaves -> leaf_at (leaves ++ k) i = leaf_at leaves i.
Proof. unfold leaf_at, zlen. intros. by rewrite lookup_app_l by lia. Qed.

Lemma leaf_at_snoc leaves x : leaf_at (leaves ++ [x]) (zlen leaves) = x.
Proof. unfold leaf_at, zlen. rewrite Nat2Z.id. by rewrite lookup_app_r, Nat.sub_diag by lia. Qed.

Lemma complete_left f h s : complete f (S h) s -> complete f h s.
Proof. intros [Hal Hle]. rewrite p2_S in Hle. pose proof (p2_pos h). split; [auto with cll|lia]. Qed.
Lemma complete_right f h s : complete f (S h) s -> complete f h (s + p2 h).
Proof. intros [Hal Hle]. rewrite p2_S in Hle. split; [auto with cll|lia]. Qed.
Lemma complete_mono f g h s : f <= g -> complete f h s -> complete g h s.
Proof. intros ? [? ?]. split; [done|lia]. Qed.
Lemma complete_mountain f h s : 0 <= f -> (h, s) ∈ mountains f -> complete f h s.
Proof.
  intros Hf Hin. apply mountains_elem in Hin as (? & ? & ?); [|done]. split; [auto with cll|lia].
Qed.

Lemma complete_pos f h s : complete f h s -> 0 <= node_pos h s < nc f.
Proof.
  intros [Hal Hle]. pose proof (aligned_nonneg _ _ Hal). pose proof (p2_pos h).
  pose proof (nc_ge s). pose proof (nc_add_p2_ge h s Hal). unfold node_pos. rewrite p2_S.
  destruct (decide (s + p2 h = f)) as [<-|]; [lia|].
  pose proof (nc_lt (s + p2 h) f). lia.
Qed.

Lemma node_hash_app leaves k h s :
  complete (zlen leaves) h s -> node_hash (leaves ++ k) h s = node_hash leaves h s.
Proof.
  revert s. induction h as [|h IH]; intros s Hc; cbn [node_hash].
  - destruct Hc as [Hal Hle]. rewrite p2_0 in Hle. pose proof (aligned_nonneg _ _ Hal).
    apply leaf_at_app_l. lia.
  - rewrite !IH; [done|by apply complete_right|by apply complete_left].
Qed.

Lemma leaf_at_digest leaves i : Forall is_digest leaves -> 0 <= i < zlen leaves -> is_digest (leaf_at leaves i).
Proof.
  unfold leaf_at, zlen. intros Hl Hi.
  destruct (lookup_lt_is_Some_2 leaves (Z.to_nat i)) as [x Hx]; [lia|]. rewrite Hx.
  by eapply Forall_lookup_1.
Qed.

Lemma node_hash_digest leaves h s :
  Forall is_digest leaves -> complete (zlen leaves) h s -> is_digest (node_hash leaves h s).
Proof.
  intros Hl [Hal Hle]. destruct h as [|h]; cbn [node_hash]; [|apply ih_digest].
  rewrite p2_0 in Hle. pose proof (aligned_nonneg _ _ Hal). apply leaf_at_digest; [done|lia].
Qed.

Lemma peak_hashes_digest leaves : Forall is_digest leaves -> Forall is_digest (peak_hashes leaves).
Proof.
  intros Hl. apply Forall_map, Forall_forall. intros [h s] Hin.
  apply node_hash_digest; [done|]. apply complete_mountain; [apply zlen_nonneg|done].
Qed.

Lemma represents_nil : represents [] [].
Proof.
  split; [constructor|done|]. intros h s [Hal Hle]. change (zlen []) with 0 in Hle.
  pose proof (aligned_nonneg _ _ Hal). pose proof (p2_pos h). lia.
Qed.

(** *** [add_leaf] *)

(** The stack of mountains, smallest first, tiles the leaves before [e]. *)
Fixpoint tiles (stack : list (nat * Z)) (e : Z) : Prop :=
  match stack with
  | [] => e = 0
  | (h, s) :: rest => s + p2 h = e /\ aligned (S h) s /\ tiles rest s
  end.

Lemma tiles_mts K f s stack :
  aligned K s -> 0 <= f < p2 K -> tiles stack s -> tiles (rev (mts K f s) ++ stack) (s + f).
Proof.
  revert f s stack. induction K as [|K IH]; intros f s stack Hal Hf Ht; cbn [mts].
  - change (p2 0) with 1 in Hf. replace (s + f) with s by lia. done.
  - rewrite p2_S in Hf. destruct (p2 K <=? f) eqn:E; zbool; [|apply IH; [auto with cll|lia|done]].
    cbn [rev]. rewrite <- app_assoc. replace (s + f) with (s + p2 K + (f - p2 K)) by lia.
    apply IH; [auto with cll|lia|]. done.
Qed.

Lemma tiles_mountains f : 0 <= f -> tiles (rev (mountains f)) f.
Proof.
  intros Hf. pose proof (tiles_mts (bits f) f 0 [] (aligned_0 _)) as Ht.
  rewrite app_nil_r, Z.add_0_l in Ht. apply Ht; [|done]. split; [done|by apply bits_spec].
Qed.

(** The nodes a new leaf adds: the leaf and its completed parents. *)
Definition new_nodes_of leaves (f : Z) (n : nat) : list bytes :=
  map (fun k => node_hash leaves k (f + 1 - p2 k)) (seq 0 n).

Lemma new_nodes_of_S leaves f n :
  new_nodes_of leaves f (S n) = new_nodes_of leaves f n ++ [node_hash leaves n (f + 1 - p2 n)].
Proof. unfold new_nodes_of. rewrite seq_S. cbn. by rewrite map_app. Qed.

(** The position of the mountain that the leaf [f] completes at height [h]. *)
Lemma merge_pos h s s' :
  aligned (S h) s' -> s' + p2 h = s -> node_pos (S h) s' = node_pos h s + 1.
Proof.
  intros Hal <-. unfold node_pos. rewrite nc_add_p2 by done. rewrite !p2_S. lia.
Qed.

Lemma nc_pred_p2 h : nc (p2 h - 1) = 2 * p2 h - 2 - Z.of_nat h.
Proof.
  unfold nc. replace (popcount (p2 h - 1)) with (Z.of_nat h); [lia|].
  induction h as [|h IH]; [done|]. rewrite p2_S. pose proof (p2_pos h).
  replace (2 * p2 h - 1) with (2 * (p2 h - 1) + 1) by lia.
  rewrite popcount_succ_double by lia. lia.
Qed.

(** The nodes completed by leaf [f] follow it in order of height. *)
Lemma completed_pos f h s : aligned h s -> s + p2 h = f + 1 -> node_pos h s = nc f + Z.of_nat h.
Proof.
  intros Hal Hs. pose proof (p2_pos h). replace f with (s + (p2 h - 1)) by lia.
  rewrite (nc_add h), nc_pred_p2 by (done || lia). unfold node_pos. rewrite p2_S. lia.
Qed.

Lemma node_pos_bound f h s :
  0 <= f -> nc f < MAX_MMR_SIZE -> complete (f + 1) h s -> node_pos h s < 2 ^ 64 - 1.
Proof.
  intros Hf Hmax Hc. apply complete_pos in Hc as [_ Hlt].
  pose proof (nc_le (f + 1)). pose proof (nc_ge f Hf). unfold MAX_MMR_SIZE in *. lia.
Qed.
End spec.

Section refine.
Context {HL : Hashlib} {St} {NS : NodeStore St} {NSL : NodeStoreLaws St}.
Implicit Types leaves : list bytes.

Lemma ns_node_complete (st : St) leaves h s :
  represents (ns_view st) leaves -> complete (zlen leaves) h s ->
  ns_node st (node_pos h s) = Ok (node_hash leaves h s).
Proof.
  intros Hrep Hc. rewrite ns_node_view; [by apply rep_nodes|].
  rewrite ns_size_view, (rep_size _ _ Hrep). by apply complete_pos.
Qed.

Lemma add_leaf_loop_spec (st : St) leaves leaf stack h s cur :
  represents (ns_view st) leaves -> is_digest leaf ->
  let f := zlen leaves in let leaves' := leaves ++ [leaf] in
  nc f < MAX_MMR_SIZE ->
  tiles stack s -> complete (f + 1) h s -> s + p2 h = f + 1 ->
  cur = node_hash leaves' h s ->
  exists h1 s1 rest,
    carry stack h s = (h1, s1) :: rest /\
    add_leaf_loop st (nc f) (map peak_of stack) (Z.of_nat h) cur
      (new_nodes_of leaves' f (h + 1)) = Ok (new_nodes_of leaves' f (h1 + 1)).
Proof.
  intros Hrep Hleaf f leaves' Hmax. pose proof (zlen_nonneg leaves) as Hf.
  assert (Forall is_digest leaves') as Hd
    by (apply Forall_app; split; [by eapply rep_leaves|by repeat constructor]).
  assert (zlen leaves' = f + 1) as Hlen by (unfold leaves'; rewrite zlen_app; done).
  revert h s cur. induction stack as [|[h' s'] rest IH];
    intros h s cur Ht Hc Hend ->; cbn [carry map add_leaf_loop].
  { eauto. }
  destruct Ht as (Hs & Hal & Ht). change (peak_of (h', s')) with (node_pos h' s').
  rewrite (height_at_node_pos h' s') by auto with cll.
  destruct (Nat.eqb_spec h' h) as [->|Hne]; cycle 1.
  { replace (Z.of_nat h' =? Z.of_nat h) with false by (symmetry; apply Z.eqb_neq; lia). eauto. }
  rewrite Z.eqb_refl. pose proof (p2_pos h) as Hp2.
  pose proof (completed_pos f h s (proj1 Hc) Hend) as Hpos.
  assert (complete f h s') as Hc' by (split; [auto with cll|lia]).
  rewrite (ns_node_complete st leaves) by done.
  assert (complete (f + 1) (h + 1) s') as Hc1.
  { rewrite Nat.add_1_r. split; [done|]. rewrite p2_S. lia. }
  pose proof (merge_pos h s s' Hal Hs) as Hmp.
  assert (zlen (new_nodes_of leaves' f (h + 1)) = Z.of_nat h + 1) as ->
    by (unfold new_nodes_of, zlen; rewrite length_map, length_seq; lia).
  replace (nc f + (Z.of_nat h + 1)) with (node_pos (h + 1) s') by (rewrite Nat.add_1_r; lia).
  pose proof (complete_pos _ _ _ Hc1) as [Hpos0 _].
  rewrite interior_hash_digest; [| | |]; cycle 1.
  { apply node_hash_digest; [by eapply rep_leaves|done]. }
  { apply node_hash_digest; [done|by rewrite Hlen]. }
  { split; [done|]. by apply (node_pos_bound f). }
  replace (Z.of_nat h + 1) with (Z.of_nat (h + 1)) by lia.
  destruct (IH (h + 1)%nat s' (node_hash leaves' (h + 1) s')) as (h1 & s1 & r & E1 & E2);
    [done|done|rewrite Nat.add_1_r, p2_S; lia|done|].
  rewrite Nat.add_1_r in E1. exists h1, s1, r. split; [done|].
  assert (ih (node_hash leaves h s') (node_hash leaves' h s) (node_pos (h + 1) s')
          = node_hash leaves' (h + 1) s') as ->.
  { rewrite Nat.add_1_r. cbn [node_hash]. unfold leaves' at 2. by rewrite node_hash_app, Hs. }
  assert (f + 1 - p2 (h + 1) = s') as Es by (rewrite Nat.add_1_r, p2_S; lia).
  by rewrite (Nat.add_1_r (h + 1)), new_nodes_of_S, Es in E2.
Qed.

(** The nodes [add_leaf] writes after an array of [f] leaves make it the
    array of [f + 1] leaves. *)
Lemma represents_snoc nodes leaves leaf h1 s1 rest :
  represents nodes leaves -> is_digest leaf ->
  let f := zlen leaves in
  carry (rev (mountains f)) 0 f = (h1, s1) :: rest ->
  represents (nodes ++ new_nodes_of (leaves ++ [leaf]) f (h1 + 1)) (leaves ++ [leaf]).
Proof.
  intros Hrep Hleaf f Hcarry. pose proof (zlen_nonneg leaves) as Hf. fold f in Hf.
  pose proof (tiles_mountains (f + 1) ltac:(lia)) as Ht.
  rewrite mountains_succ, Hcarry in Ht by done. destruct Ht as (Hend & Hal & _).
  pose proof (completed_pos f h1 s1 (aligned_pred _ _ Hal) Hend) as Hpos.
  assert (zlen (new_nodes_of (leaves ++ [leaf]) f (h1 + 1)) = Z.of_nat h1 + 1) as Hlen
    by (unfold new_nodes_of, zlen; rewrite length_map, length_seq; lia).
  split.
  - apply Forall_app. split; [by eapply rep_leaves|by repeat constructor].
  - rewrite !zlen_app, Hlen, (rep_size _ _ Hrep). change (zlen [leaf]) with 1. fold f.
    rewrite <- Hend, nc_add_p2 by done. unfold node_pos in Hpos. rewrite p2_S in Hpos. lia.
  - intros k u Hc. rewrite zlen_app in Hc. change (zlen [leaf]) with 1 in Hc. fold f in Hc.
    destruct (decide (u + p2 k <= f)) as [Hold|Hnew].
    + assert (complete f k u) as Hcu by (split; [apply Hc|done]).
      rewrite py_index_app_l by (rewrite (rep_size _ _ Hrep); by apply complete_pos).
      rewrite (rep_nodes _ _ Hrep) by done. by rewrite node_hash_app.
    + assert (u + p2 k = f + 1) as Hu by (destruct Hc; lia).
      pose proof (completed_pos f k u (proj1 Hc) Hu) as Hposk.
      assert (k <= h1)%nat as Hk.
      { destruct (decide (k <= h1)%nat) as [|Hgt]; [done|exfalso].
        pose proof (aligned_le (S h1) k _ ltac:(lia) (aligned_add _ _ (proj1 Hc))) as [i [_ Hi]].
        destruct Hal as [j [_ Hj]]. rewrite p2_S in *. pose proof (p2_pos h1).
        assert (p2 h1 * (2 * i) = p2 h1 * (2 * j + 1)) as Heq by lia.
        apply Z.mul_cancel_l in Heq; lia. }
      rewrite py_index_app_r by (rewrite (rep_size _ _ Hrep); fold f; lia).
      rewrite (rep_size _ _ Hrep). fold f. rewrite py_index_nonneg by lia.
      replace (Z.to_nat (node_pos k u - nc f)) with k by lia.
      unfold new_nodes_of. rewrite list_lookup_fmap, lookup_seq_lt by lia. cbn.
      do 2 f_equal. lia.
Qed.

Lemma add_leaf_represents (st : St) leaves leaf :
  represents (ns_view st) leaves -> is_digest leaf -> nc (zlen leaves) < MAX_MMR_SIZE ->
  exists new,
    add_leaf st leaf = Ok ((nc (zlen leaves), new), ns_append_nodes st new) /\
    head new = Some leaf /\ represents (ns_view st ++ new) (leaves ++ [leaf]).
Proof.
  intros Hrep Hleaf Hmax. pose proof (zlen_nonneg leaves) as Hf.
  set (f := zlen leaves) in *.
  destruct (add_leaf_loop_spec st leaves leaf (rev (mountains f)) 0 f leaf)
    as (h1 & s1 & rest & Hcarry & Hloop);
    [done|done|done|by apply tiles_mountains| |by rewrite p2_0| |].
  { split; [by apply aligned_zero|]. rewrite p2_0. fold f. lia. }
  { cbn [node_hash]. symmetry. apply leaf_at_snoc. }
  exists (new_nodes_of (leaves ++ [leaf]) f (h1 + 1)).
  split_and!; [|rewrite Nat.add_1_r; unfold new_nodes_of; cbn [seq map head node_hash];
    by rewrite p2_0, Z.add_simpl_r, leaf_at_snoc|by apply (represents_snoc _ _ _ h1 s1 rest)].
  unfold add_leaf. rewrite assert_digest_digest by done.
  rewrite ns_size_view, (rep_size _ _ Hrep). fold f.
  assert ((if nc f =? 0 then Ok [] else peaks (nc f)) = Ok (map peak_of (mountains f))) as ->.
  { destruct (nc f =? 0) eqn:E; zbool; [|by apply peaks_nc].
    pose proof (nc_ge f Hf). by replace f with 0 by lia. }
  rewrite <- map_rev. fold f in Hloop. change (Z.of_nat 0) with 0 in Hloop.
  replace (new_nodes_of (leaves ++ [leaf]) f (0 + 1)) with [leaf] in Hloop.
  { by rewrite Hloop. }
  unfold new_nodes_of. cbn [seq map node_hash Nat.add].
  by rewrite p2_0, Z.add_simpl_r, leaf_at_snoc.
Qed.
End refine.

(** ** The node array is determined by the leaves *)
Lemma node_pos_inj h s g t :
  aligned h s -> aligned g t -> node_pos h s = node_pos g t -> h = g /\ s = t.
Proof.
  intros Hs Ht E. pose proof (height_at_node_pos h s Hs) as Hh.
  rewrite E, (height_at_node_pos g t Ht) in Hh. injection Hh as Hh.
  assert (h = g) as -> by lia. split; [done|]. unfold node_pos in E.
  apply nc_inj; eauto using aligned_nonneg; lia.
Qed.

Lemma node_pos_surj f p : 0 <= f -> 0 <= p < nc f -> exists h s, complete f h s /\ node_pos h s = p.
Proof.
  intros Hf. revert f Hf. refine (natlike_ind _ _ _); [intros Hp; rewrite nc_0 in Hp; lia|].
  intros f Hf IH Hp. destruct (decide (p < nc f)) as [Hlt|Hge].
  { destruct IH as (h & s & Hc & E); [lia|]. exists h, s. split; [|done].
    apply (complete_mono f); [lia|done]. }
  pose proof (tiles_mountains (f + 1) ltac:(lia)) as Ht. rewrite mountains_succ in Ht by done.
  destruct (carry (rev (mountains f)) 0 f) as [|[h1 s1] rest] eqn:Hcarry; [cbn in Ht; lia|].
  destruct Ht as (Hend & Hal & _).
  pose proof (completed_pos f h1 s1 (aligned_pred _ _ Hal) Hend) as Hpos.
  assert (nc (f + 1) = node_pos h1 s1 + 1) as Hnc.
  { rewrite <- Hend, nc_add_p2 by done. unfold node_pos. rewrite p2_S. lia. }
  rewrite <- Z.add_1_r, Hnc in Hp.
  set (k := Z.to_nat (p - nc f)). assert (k <= h1)%nat as Hk by (unfold k; lia).
  assert (aligned k (f + 1 - p2 k)) as Halk.
  { rewrite <- Hend. pose proof (p2_le k h1 Hk). pose proof (aligned_nonneg _ _ Hal).
    apply aligned_sub; [|by apply aligned_p2|lia].
    apply (aligned_le k h1); [done|]. auto with cll. }
  exists k, (f + 1 - p2 k). rewrite (completed_pos f) by (done || lia).
  split; [split; [done|lia]|]. unfold k. lia.
Qed.

(** The leaves determine the node array: two arrays that represent the
    same leaves are equal, node by node. *)
Theorem represents_unique {HL : Hashlib} (nodes nodes' leaves : list bytes) :
  represents nodes leaves -> represents nodes' leaves -> nodes = nodes'.
Proof.
  intros [Hd Hs Hn] [_ Hs' Hn']. assert (length nodes = length nodes') as Hlen
    by (unfold zlen in *; lia).
  apply list_eq_same_length with (length nodes); [done|done|].
  intros i x y Hi Hx Hy.
  destruct (node_pos_surj (zlen leaves) (Z.of_nat i)) as (h & s & Hc & E);
    [apply zlen_nonneg|rewrite <- Hs; unfold zlen; lia|].
  specialize (Hn h s Hc). specialize (Hn' h s Hc). rewrite E, py_index_nonneg, Nat2Z.id in Hn by lia.
  rewrite E, py_index_nonneg, Nat2Z.id in Hn' by lia. rewrite Hx in Hn. rewrite Hy in Hn'. congruence.
Qed.

(** [add_leaf] refines appending to the list of leaves: on a store whose
    array represents the leaves it returns the position of the new leaf and
    the nodes it wrote, the leaf first; those nodes are appended after the
    existing array, which is left as it is, and the store then represents the
    leaves with the new one at the end. *)
Theorem add_leaf_refines {HL : Hashlib} {St} {NS : NodeStore St} {NSL : NodeStoreLaws St}
    (st : St) (leaves : list bytes) (leaf : bytes) :
  represents (ns_view st) leaves -> is_digest leaf -> nc (zlen leaves) < MAX_MMR_SIZE ->
  exists new st',
    add_leaf st leaf = Ok ((nc (zlen leaves), new), st') /\
    leaf_index_to_pos (zlen leaves) = Ok (nc (zlen leaves)) /\
    ns_view st' = ns_view st ++ new /\ head new = Some leaf /\
    represents (ns_view st') (leaves ++ [leaf]).
Proof.
  intros Hrep Hleaf Hmax.
  destruct (add_leaf_represents st leaves leaf Hrep Hleaf Hmax) as (new & E & Hhd & Hrep').
  exists new, (ns_append_nodes st new). rewrite ns_append_view.
  split_and!; try done. apply leaf_index_to_pos_nc; [apply zlen_nonneg|done].
Qed.

(** An append that returns was on an array of admissible size. *)
Section add_leaf_Ok.
Context {HL : Hashlib} {St} {NS : NodeStore St} {NSL : NodeStoreLaws St}.

Lemma add_leaf_small (st : St) leaves leaf r :
  represents (ns_view st) leaves -> add_leaf st leaf = Ok r -> nc (zlen leaves) < MAX_MMR_SIZE.
Proof.
  intros Hrep Ha. unfold add_leaf in Ha. destruct (_assert_digest _); [|done].
  rewrite ns_size_view, (rep_size _ _ Hrep) in Ha.
  destruct (nc (zlen leaves) =? 0) eqn:E; zbool; [unfold MAX_MMR_SIZE; lia|].
  destruct (peaks _) eqn:Ep; [|done]. by apply peaks_Ok_inv in Ep as (f & _ & _ & Hmax).
Qed.

Lemma add_leaf_Ok_represents (st : St) leaves leaf r :
  represents (ns_view st) leaves -> is_digest leaf -> add_leaf st leaf = Ok r ->
  represents (ns_view r.2) (leaves ++ [leaf]) /\ ns_view st `prefix_of` ns_view r.2.
Proof.
  intros Hrep Hl Ha. pose proof (add_leaf_small _ _ _ _ Hrep Ha) as Hmax.
  destruct (add_leaf_represents st leaves leaf Hrep Hl Hmax) as (new & E & _ & Hrep').
  rewrite Ha in E. injection E as ->. cbn [snd]. rewrite ns_append_view. split; [done|by eexists].
Qed.
End add_leaf_Ok.

(** Appending several leaves. *)
Section add_leaves.
Context {HL : Hashlib} {St} {NS : NodeStore St} {NSL : NodeStoreLaws St}.

Fixpoint add_leaves (st : St) (leaves : list bytes) : result St :=
  match leaves with
  | [] => Ok st
  | leaf :: leaves => let! r := add_leaf st leaf in add_leaves r.2 leaves
  end.

Lemma add_leaves_represents (st : St) leaves more :
  represents (ns_view st) leaves -> Forall is_digest more ->
  nc (zlen leaves + zlen more) < MAX_MMR_SIZE ->
  exists st', add_leaves st more = Ok st' /\ represents (ns_view st') (leaves ++ more).
Proof.
  intros Hrep Hmore. revert st leaves Hrep. induction Hmore as [|x more Hx Hmore IH];
    intros st leaves Hrep Hmax; [exists st; by rewrite app_nil_r|].
  pose proof (zlen_nonneg leaves). pose proof (zlen_nonneg more). rewrite zlen_cons in Hmax.
  destruct (add_leaf_represents st leaves x Hrep Hx) as (new & E & _ & Hrep').
  { pose proof (nc_lt (zlen leaves) (zlen leaves + (1 + zlen more))). lia. }
  cbn [add_leaves]. rewrite E. cbn [snd].
  destruct (IH (ns_append_nodes st new) (leaves ++ [x])) as (st' & E' & Hst').
  - by rewrite ns_append_view.
  - rewrite zlen_app, zlen_cons, zlen_nil.
    by replace (zlen leaves + (1 + 0) + zlen more) with (zlen leaves + (1 + zlen more)) by lia.
  - exists st'. split; [done|]. by rewrite <- app_assoc in Hst'.
Qed.
End add_leaves.

(** A concrete MMR for the witnesses: five leaves under SHA-256, in memory. *)
Module Demo.
#[export] Existing Instance Sha256.hashlib.
Definition bodies : list bytes := map (be_bytes 32) [10; 20; 30; 40; 50].
Definition leaves : list bytes := map lh bodies.
Definition store : MemoryNodeStore :=
  match add_leaves MemoryNodeStore.__init__ leaves with
  | Ok st => st
  | Raise _ => MemoryNodeStore.__init__
  end.

Lemma leaves_digest : Forall is_digest leaves.
Proof. apply Forall_map, Forall_forall. intros. apply lh_digest. Qed.

Lemma bodies_digest : Forall is_digest bodies.
Proof. apply Forall_map, Forall_forall. intros. unfold is_digest. by rewrite length_be_bytes. Qed.

Lemma store_represents : represents (ns_view store) leaves.
Proof.
  destruct (add_leaves_represents MemoryNodeStore.__init__ [] leaves)
    as (st & E & Hrep); [apply represents_nil|apply leaves_digest|done|].
  unfold store. by rewrite E.
Qed.
End Demo.

Lemma add_leaf_refines_witness :
  exists new st',
    add_leaf (HL := Sha256.hashlib) Demo.store (lh (HL := Sha256.hashlib) (zeros 32))
      = Ok ((8, new), st') /\
    represents (HL := Sha256.hashlib) (_nodes st') (Demo.leaves ++ [lh (HL := Sha256.hashlib) (zeros 32)]).
Proof.
  destruct (add_leaf_refines (HL := Sha256.hashlib) Demo.store Demo.leaves
    (lh (HL := Sha256.hashlib) (zeros 32))) as (new & st' & E & _ & _ & _ & Hrep).
  - apply Demo.store_represents.
  - apply lh_digest.
  - reflexivity.
  - exists new, st'. split; [exact E|exact Hrep].
Defined.

Lemma represents_unique_witness :
  represents (HL := Sha256.hashlib) (_nodes Demo.store) Demo.leaves /\
  ns_view Demo.store = _nodes Demo.store.
Proof.
  split; [apply Demo.store_represents|].
  apply (represents_unique (HL := Sha256.hashlib) _ _ Demo.leaves); apply Demo.store_represents.
Defined.
