(* ===== verification/MmrProof.v ===== *)
(** * Inclusion and consistency proofs

    [src/python/checkpoint/core.py], sections "proof paths", "inclusion" and
    "consistency": generation from a node store and the pure verifiers, which
    take arguments of any type and never raise. *)
From S2P Require Import Prelude Bytes Py Sha256 MmrPos Mmr MmrSpec.
Open Scope Z_scope.

(** ** Proof paths *)
Record _PathStep := PathStep { sibling_pos : Z; target_is_right : bool; parent_pos : Z }.

Fixpoint find_containing_peak_from (i pos : Z) (peak_positions : list Z) : result Z :=
  match peak_positions with
  | [] => Ok (-1)
  | peak_pos :: rest =>
      let! h := height_at peak_pos in
      let m_size := 2 ^ (h + 1) - 1 in
      let start := peak_pos - m_size + 1 in
      if (start <=? pos) && (pos <=? peak_pos) then Ok i
      else find_containing_peak_from (i + 1) pos rest
  end.

Definition _find_containing_peak (pos : Z) (peak_positions : list Z) : result Z :=
  find_containing_peak_from 0 pos peak_positions.

(** The descending loop of [_locate_path]; [cur_height] counts down. *)
Fixpoint locate_path_loop (cur_height : nat) (cur_root target_pos : Z) : list _PathStep :=
  match cur_height with
  | O => []
  | S h =>
      if cur_root =? target_pos then []
      else
        let parent_pos := cur_root in
        let left_size := 2 ^ Z.of_nat cur_height - 1 in
        let left_child_root := cur_root - left_size - 1 in
        let right_child_root := cur_root - 1 in
        if target_pos <=? left_child_root then
          PathStep right_child_root false parent_pos :: locate_path_loop h left_child_root target_pos
        else
          PathStep left_child_root true parent_pos :: locate_path_loop h right_child_root target_pos
  end.

Definition _locate_path (root_pos height target_pos : Z) : list _PathStep :=
  rev (locate_path_loop (Z.to_nat height) root_pos target_pos).

Definition _parse_digest_hex (h : pyval) : result bytes :=
  match as_str h with
  | None => Raise InvalidArgumentError
  | Some s =>
      let! b := fromhex s in
      if zlen b =? DIGEST_LEN then Ok b else Raise InvalidArgumentError
  end.

(** ** Proof objects

    Their fields may hold anything a caller decoded, so they are [pyval]s. *)
Record InclusionProof := {
  ip_v : pyval; ip_kind : pyval; ip_size : pyval; ip_leaf_index : pyval;
  ip_witness : pyval; ip_peaks_left : pyval; ip_peaks_right : pyval
}.

Record ConsistencyProof := {
  cp_v : pyval; cp_kind : pyval; cp_size_a : pyval; cp_size_b : pyval;
  cp_old_peaks : pyval; cp_witness : pyval; cp_new_peaks : pyval
}.

(** [tuple(h.hex() for h in hashes)] *)
Definition hex_tuple (hashes : list bytes) : pyval := PTuple (map (fun h => PStr (hex h)) hashes).

(** The [size] and [leaf_index] that position functions accept: [bool]s are
    refused by [peaks] and [_require_nonneg_int]. *)
Definition int_arg (v : pyval) : result Z :=
  match as_strict_int v with Some n => Ok n | None => Raise InvalidArgumentError end.

(** ** Generation *)
Section generate.
Context {HL : Hashlib} {St} {NS : NodeStore St}.

Definition inclusion_proof (reader : St) (leaf_index size : Z) : result InclusionProof :=
  let! lc := leaf_count size in
  if (leaf_index <? 0) || (lc <=? leaf_index) then Raise InvalidArgumentError
  else
    let reader_size := ns_size reader in
    if reader_size <? size then Raise IntegrityError
    else
      let! leaf_pos := leaf_index_to_pos leaf_index in
      let! pks := peaks size in
      let! peak_idx := _find_containing_peak leaf_pos pks in
      if peak_idx =? -1 then Raise IntegrityError
      else
        let! peak_pos := py_index pks peak_idx in
        let! peak_height := height_at peak_pos in
        let path := _locate_path peak_pos peak_height leaf_pos in
        let! witness := map_result (fun step => ns_node reader (sibling_pos step)) path in
        let! peaks_left := map_result (ns_node reader) (take (Z.to_nat peak_idx) pks) in
        let! peaks_right := map_result (ns_node reader) (drop (Z.to_nat (peak_idx + 1)) pks) in
        Ok {| ip_v := PInt 1; ip_kind := PStr (str "inclusion");
              ip_size := PInt size; ip_leaf_index := PInt leaf_index;
              ip_witness := hex_tuple witness; ip_peaks_left := hex_tuple peaks_left;
              ip_peaks_right := hex_tuple peaks_right |}.

(** One iteration per old peak: its hash and its witness path. *)
Definition old_peak_witness (reader : St) (new_peak_positions : list Z) (p : Z)
  : result (bytes * list bytes) :=
  let! h := ns_node reader p in
  let! containing_idx := _find_containing_peak p new_peak_positions in
  if containing_idx =? -1 then Raise IntegrityError
  else
    let! new_peak_pos := py_index new_peak_positions containing_idx in
    let! new_peak_height := height_at new_peak_pos in
    let path := _locate_path new_peak_pos new_peak_height p in
    let! w := map_result (fun step => ns_node reader (sibling_pos step)) path in
    Ok (h, w).

Definition consistency_proof (reader : St) (size_a size_b : Z) : result ConsistencyProof :=
  if size_a <? 0 then Raise InvalidArgumentError
  else if size_b <? size_a then Raise InvalidArgumentError
  else
    let reader_size := ns_size reader in
    if reader_size <? size_b then Raise IntegrityError
    else
      let! old_peak_positions := peaks size_a in
      let! new_peak_positions := peaks size_b in
      let! rows := map_result (old_peak_witness reader new_peak_positions) old_peak_positions in
      let! new_peaks := map_result (ns_node reader) new_peak_positions in
      Ok {| cp_v := PInt 1; cp_kind := PStr (str "consistency");
            cp_size_a := PInt size_a; cp_size_b := PInt size_b;
            cp_old_peaks := hex_tuple (map fst rows);
            cp_witness := PTuple (map (fun row => hex_tuple (snd row)) rows);
            cp_new_peaks := hex_tuple new_peaks |}.
End generate.

(** ** Verification *)
Section verify.
Context {HL : Hashlib}.

(** The fold [for step, sib in zip(path, witness_bytes)]. *)
Fixpoint fold_path (acc : bytes) (path : list _PathStep) (sibs : list bytes) : result bytes :=
  match path, sibs with
  | step :: path, sib :: sibs =>
      let! acc := if target_is_right step then interior_hash sib acc (parent_pos step)
                  else interior_hash acc sib (parent_pos step) in
      fold_path acc path sibs
  | _, _ => Ok acc
  end.

Definition verify_inclusion_body (root size leaf_index body_digest : pyval)
    (proof : option InclusionProof) : result bool :=
  let! root := _assert_digest root in
  let! body_digest := _assert_digest body_digest in
  match proof with
  | None => Ok false
  | Some proof =>
      if negb (py_eq (ip_v proof) (PInt 1)) || negb (py_eq (ip_kind proof) (PStr (str "inclusion")))
      then Ok false else
      if negb (py_eq (ip_size proof) size) || negb (py_eq (ip_leaf_index proof) leaf_index)
      then Ok false else
      match as_int size, as_int leaf_index,
            as_sequence (ip_witness proof), as_sequence (ip_peaks_left proof),
            as_sequence (ip_peaks_right proof) with
      | Some n, Some i, Some witness, Some peaks_left, Some peaks_right =>
          if (n <? 0) || (MAX_MMR_SIZE <=? n) then Ok false else
          if i <? 0 then Ok false else
          let! size := int_arg size in
          let! lc := leaf_count size in
          if lc <=? i then Ok false else
          let! leaf_index := int_arg leaf_index in
          let! leaf_pos := leaf_index_to_pos leaf_index in
          let! pks := peaks size in
          let! peak_idx := _find_containing_peak leaf_pos pks in
          if peak_idx =? -1 then Ok false else
          let! peak_pos := py_index pks peak_idx in
          let! peak_height := height_at peak_pos in
          let path := _locate_path peak_pos peak_height leaf_pos in
          if negb (zlen witness =? zlen path) then Ok false else
          if negb (zlen peaks_left =? peak_idx) then Ok false else
          if negb (zlen peaks_right =? zlen pks - peak_idx - 1) then Ok false else
          let! witness_bytes := map_result _parse_digest_hex witness in
          let! peaks_left_bytes := map_result _parse_digest_hex peaks_left in
          let! peaks_right_bytes := map_result _parse_digest_hex peaks_right in
          let! acc := leaf_hash body_digest in
          let! acc := fold_path acc path witness_bytes in
          let! computed_root := root_from_peaks (peaks_left_bytes ++ [acc] ++ peaks_right_bytes) in
          Ok (bool_decide (computed_root = root))
      | _, _, _, _, _ => Ok false
      end
  end.

Definition verify_inclusion (root size leaf_index body_digest : pyval)
    (proof : option InclusionProof) : bool :=
  catch_false (verify_inclusion_body root size leaf_index body_digest proof).

(** The loop over the old peaks: each must fold up to the new peak whose
    mountain contains it. *)
Fixpoint verify_old_peaks (old_peak_positions : list Z) (old_peaks : list bytes)
    (witness : list pyval) (new_peak_positions : list Z) (new_peaks : list bytes) : result bool :=
  match old_peak_positions, old_peaks, witness with
  | p :: old_peak_positions, old :: old_peaks, w :: witness =>
      let! containing_idx := _find_containing_peak p new_peak_positions in
      if containing_idx =? -1 then Ok false else
      let! new_peak_pos := py_index new_peak_positions containing_idx in
      let! new_peak_height := height_at new_peak_pos in
      let path := _locate_path new_peak_pos new_peak_height p in
      match as_sequence w with
      | None => Ok false
      | Some w =>
          if negb (zlen w =? zlen path) then Ok false else
          let! w_bytes := map_result _parse_digest_hex w in
          let! acc := fold_path old path w_bytes in
          let! new_peak := py_index new_peaks containing_idx in
          if negb (bool_decide (acc = new_peak)) then Ok false
          else verify_old_peaks old_peak_positions old_peaks witness new_peak_positions new_peaks
      end
  | _, _, _ => Ok true
  end.

Definition verify_consistency_body (root_a size_a root_b size_b : pyval)
    (proof : option ConsistencyProof) : result bool :=
  let! root_a := _assert_digest root_a in
  let! root_b := _assert_digest root_b in
  match proof with
  | None => Ok false
  | Some proof =>
      if negb (py_eq (cp_v proof) (PInt 1)) || negb (py_eq (cp_kind proof) (PStr (str "consistency")))
      then Ok false else
      if negb (py_eq (cp_size_a proof) size_a) || negb (py_eq (cp_size_b proof) size_b)
      then Ok false else
      match as_int size_a, as_int size_b,
            as_sequence (cp_old_peaks proof), as_sequence (cp_new_peaks proof),
            as_sequence (cp_witness proof) with
      | Some a, Some b, Some old_peaks, Some new_peaks, Some witness =>
          if a <? 0 then Ok false else
          if b <? a then Ok false else
          let! size_a := int_arg size_a in
          let! old_peak_positions := peaks size_a in
          let! size_b := int_arg size_b in
          let! new_peak_positions := peaks size_b in
          if negb (zlen old_peaks =? zlen old_peak_positions) then Ok false else
          if negb (zlen new_peaks =? zlen new_peak_positions) then Ok false else
          if negb (zlen witness =? zlen old_peak_positions) then Ok false else
          let! old_peaks_bytes := map_result _parse_digest_hex old_peaks in
          let! new_peaks_bytes := map_result _parse_digest_hex new_peaks in
          let! computed_root_a := root_from_peaks old_peaks_bytes in
          if negb (bool_decide (computed_root_a = root_a)) then Ok false else
          let! computed_root_b := root_from_peaks new_peaks_bytes in
          if negb (bool_decide (computed_root_b = root_b)) then Ok false else
          verify_old_peaks old_peak_positions old_peaks_bytes witness
            new_peak_positions new_peaks_bytes
      | _, _, _, _, _ => Ok false
      end
  end.

Definition verify_consistency (root_a size_a root_b size_b : pyval)
    (proof : option ConsistencyProof) : bool :=
  catch_false (verify_consistency_body root_a size_a root_b size_b proof).
End verify.

