(* ===== verification/MmrPath.v ===== *)
(** * Proof paths in the tree

    The position arithmetic of [_find_containing_peak] and [_locate_path]
    computes the path of the abstract tree ([td_path]); folding a path is
    complete (it rebuilds the ancestor's hash from honest siblings) and
    binding (only the honest node folds to the ancestor, up to a collision
    between finitely many hashed strings). *)
From S2P Require Import Prelude Bytes Py Sha256 MmrPos Mmr MmrSpec MmrProof.
Open Scope Z_scope.

(** The node [(h, s)] lies in the tree [(H, s0)]. *)
Definition inside (H : nat) (s0 : Z) (h : nat) (s : Z) : Prop :=
  s0 <= s /\ s + p2 h <= s0 + p2 H.

Lemma inside_le H s0 h s : inside H s0 h s -> (h <= H)%nat.
Proof.
  intros [? ?]. destruct (decide (h <= H)%nat) as [|n]; [done|].
  pose proof (p2_lt H h ltac:(lia)). pose proof (p2_pos H). lia.
Qed.

Lemma nc_mono f g : 0 <= f <= g -> nc f <= nc g.
Proof. intros. destruct (decide (f = g)) as [->|]; [lia|]. pose proof (nc_lt f g). lia. Qed.

(** ** [_find_containing_peak] *)
Lemma find_mts K f s0 h s i :
  aligned K s0 -> 0 <= f < p2 K -> aligned h s -> s0 <= s -> s + p2 h <= s0 + f -> 0 <= i ->
  exists idx H t,
    mts K f s0 !! idx = Some (H, t) /\ inside H t h s /\
    find_containing_peak_from i (node_pos h s) (map peak_of (mts K f s0)) = Ok (i + Z.of_nat idx).
Proof.
  revert f s0 i. induction K as [|K IH]; intros f s0 i Hal Hf Hs Hlo Hhi Hi.
  { change (p2 0) with 1 in Hf. pose proof (p2_pos h). lia. }
  rewrite p2_S in Hf. pose proof (p2_pos h). pose proof (p2_pos K). cbn [mts].
  destruct (p2 K <=? f) eqn:E; zbool; [|apply IH; auto with cll; lia].
  cbn [map find_containing_peak_from]. change (peak_of (K, s0)) with (node_pos K s0).
  rewrite (height_at_node_pos K s0) by auto with cll. rewrite p2_Z1.
  pose proof (aligned_nonneg _ _ Hal). pose proof (nc_add_p2 K s0 Hal) as Hend.
  replace (node_pos K s0 - (2 * p2 K - 1) + 1) with (nc s0) by (unfold node_pos; rewrite p2_S; lia).
  assert (node_pos K s0 = nc (s0 + p2 K) - 1) as Hpeak by (unfold node_pos; rewrite p2_S; lia).
  assert (nc s <= node_pos h s) as Hnc
    by (unfold node_pos; rewrite p2_S; lia).
  destruct (decide (s < s0 + p2 K)) as [Hlt|Hge].
  - assert (s + p2 h <= s0 + p2 K) as Hin.
    { assert (h <= K)%nat as HhK.
      { destruct (decide (h <= K)%nat) as [|n]; [done|].
        pose proof (p2_lt K h ltac:(lia)). lia. }
      apply aligned_lt_le; [done| |done]. apply (aligned_le h K); [done|]. auto with cll. }
    exists 0%nat, K, s0. split; [done|]. split; [done|].
    assert (complete (s0 + p2 K) h s) as Hc by done.
    apply complete_pos in Hc. pose proof (nc_mono s0 s ltac:(lia)).
    replace (nc s0 <=? node_pos h s) with true by (symmetry; apply Z.leb_le; lia).
    replace (node_pos h s <=? node_pos K s0) with true by (symmetry; apply Z.leb_le; lia).
    cbn [andb]. f_equal. lia.
  - pose proof (nc_mono (s0 + p2 K) s ltac:(lia)).
    replace (node_pos h s <=? node_pos K s0) with false by (symmetry; apply Z.leb_gt; lia).
    rewrite andb_false_r.
    destruct (IH (f - p2 K) (s0 + p2 K) (i + 1)) as (idx & H' & t & El & Hin & Ef);
      [auto with cll|lia|done|lia|lia|lia|].
    exists (S idx), H', t. split; [done|]. split; [done|]. rewrite Ef. f_equal. lia.
Qed.

Lemma find_containing_peak_complete f h s :
  0 <= f -> complete f h s ->
  exists idx H t,
    mountains f !! idx = Some (H, t) /\ inside H t h s /\ (H, t) ∈ mountains f /\
    _find_containing_peak (node_pos h s) (map peak_of (mountains f)) = Ok (Z.of_nat idx).
Proof.
  intros Hf [Hal Hle]. pose proof (aligned_nonneg _ _ Hal).
  destruct (find_mts (bits f) f 0 h s 0) as (idx & H' & t & El & Hin & Ef);
    [apply aligned_0|split; [done|by apply bits_spec]|done|lia|lia|lia|].
  exists idx, H', t. split_and!; [done|done| |done].
  by eapply list_elem_of_lookup_2.
Qed.

(** A leaf range lies in one mountain only. *)
Lemma mts_inside_unique K f s0 h s i j H t H' t' :
  aligned K s0 -> 0 <= f < p2 K ->
  mts K f s0 !! i = Some (H, t) -> mts K f s0 !! j = Some (H', t') ->
  inside H t h s -> inside H' t' h s -> i = j.
Proof.
  revert f s0 i j. induction K as [|K IH]; intros f s0 i j Hal Hf Hi Hj Hin Hin'; [done|].
  rewrite p2_S in Hf. pose proof (p2_pos K). pose proof (p2_pos h). cbn [mts] in *.
  revert Hi Hj. destruct (p2 K <=? f) eqn:E; zbool; intros Hi Hj;
    [|eapply (IH f s0); eauto with cll; lia].
  pose proof Hin as [Hlo Hhi]. pose proof Hin' as [Hlo' Hhi'].
  destruct i as [|i], j as [|j]; cbn in Hi, Hj; simplify_eq; [done| | |].
  - apply list_elem_of_lookup_2, mts_elem in Hj as (_ & _ & ? & _); [lia|auto with cll|lia].
  - apply list_elem_of_lookup_2, mts_elem in Hi as (_ & _ & ? & _); [lia|auto with cll|lia].
  - f_equal. eapply (IH (f - p2 K) (s0 + p2 K)); eauto with cll; lia.
Qed.

Lemma mountains_inside_unique f h s i j H t H' t' :
  0 <= f -> mountains f !! i = Some (H, t) -> mountains f !! j = Some (H', t') ->
  inside H t h s -> inside H' t' h s -> i = j /\ H = H' /\ t = t'.
Proof.
  intros Hf Hi Hj Hin Hin'. assert (i = j) as <-.
  { eapply (mts_inside_unique (bits f) f 0); try done; [apply aligned_0|].
    split; [done|by apply bits_spec]. }
  rewrite Hi in Hj. by simplify_eq.
Qed.

(** ** [_locate_path] *)

(** The top-down path from the root [(H, s0)] to [(h, s)]: the sibling, whether
    the target is on the right, and the parent. *)
Fixpoint td_path (H : nat) (s0 : Z) (h : nat) (s : Z) : list ((nat * Z) * bool * (nat * Z)) :=
  match H with
  | O => []
  | S H' =>
      if (H =? h)%nat then []
      else if s + p2 h <=? s0 + p2 H' then
        ((H', s0 + p2 H'), false, (H, s0)) :: td_path H' s0 h s
      else ((H', s0), true, (H, s0)) :: td_path H' (s0 + p2 H') h s
  end.

Definition step_of (x : (nat * Z) * bool * (nat * Z)) : _PathStep :=
  PathStep (peak_of x.1.1) x.1.2 (peak_of x.2).

(** Which child of [(S H, s0)] holds the node. *)
Lemma inside_child H s0 h s :
  aligned (S H) s0 -> aligned h s -> inside (S H) s0 h s -> h <> S H ->
  if s + p2 h <=? s0 + p2 H then inside H s0 h s else inside H (s0 + p2 H) h s.
Proof.
  intros Hal Hs Hin Hne. pose proof (inside_le _ _ _ _ Hin) as Hle. destruct Hin as [Hlo Hhi].
  rewrite p2_S in Hhi. destruct (s + p2 h <=? s0 + p2 H) eqn:E; zbool; [done|].
  split; [|lia]. destruct (decide (s0 + p2 H <= s)) as [|Hgt]; [done|].
  assert (aligned h (s0 + p2 H)) as Hmid
    by (apply (aligned_le h H); [lia|auto with cll]).
  pose proof (aligned_lt_le _ _ _ Hs Hmid ltac:(lia)). lia.
Qed.

Lemma locate_path_td H s0 h s :
  aligned H s0 -> aligned h s -> inside H s0 h s ->
  locate_path_loop H (node_pos H s0) (node_pos h s) = map step_of (td_path H s0 h s).
Proof.
  revert s0. induction H as [|H IH]; intros s0 Hal Hs Hin; [done|].
  cbn [locate_path_loop td_path]. pose proof (p2_pos H).
  destruct (Nat.eqb_spec (S H) h) as [<-|Hne].
  { assert (s0 = s) as -> by (destruct Hin; lia). by rewrite Z.eqb_refl. }
  replace (node_pos (S H) s0 =? node_pos h s) with false; cycle 1.
  { symmetry. apply Z.eqb_neq. intros E. apply node_pos_inj in E as [? _]; done. }
  rewrite p2_Z. pose proof (merge_pos H (s0 + p2 H) s0 Hal eq_refl) as Hmp.
  replace (node_pos (S H) s0 - (p2 (S H) - 1) - 1) with (node_pos H s0)
    by (unfold node_pos; rewrite !p2_S; lia).
  replace (node_pos (S H) s0 - 1) with (node_pos H (s0 + p2 H)) by lia.
  pose proof (inside_child H s0 h s Hal Hs Hin ltac:(done)) as Hch.
  pose proof (nc_add_p2 H s0 Hal) as Hmid. pose proof (aligned_nonneg _ _ Hal).
  assert (node_pos H s0 = nc (s0 + p2 H) - 1) as Hleft by (unfold node_pos; rewrite p2_S; lia).
  destruct (s + p2 h <=? s0 + p2 H) eqn:E; zbool.
  - pose proof (complete_pos (s0 + p2 H) h s (conj Hs E)).
    replace (node_pos h s <=? node_pos H s0) with true by (symmetry; apply Z.leb_le; lia).
    cbn [map]. f_equal. apply IH; [auto with cll|done|done].
  - destruct Hch as [Hlo _]. pose proof (nc_mono (s0 + p2 H) s ltac:(lia)). pose proof (p2_pos h).
    assert (nc s <= node_pos h s) by (unfold node_pos; rewrite p2_S; lia).
    replace (node_pos h s <=? node_pos H s0) with false by (symmetry; apply Z.leb_gt; lia).
    cbn [map]. f_equal. apply IH; [auto with cll|done|].
    pose proof (inside_child H s0 h s Hal Hs Hin ltac:(done)) as Hch.
    by replace (s + p2 h <=? s0 + p2 H) with false in Hch by (symmetry; apply Z.leb_gt; lia).
Qed.

(** Every sibling and parent on the path exists. *)
Lemma td_path_complete f H s0 h s x :
  complete f H s0 -> x ∈ td_path H s0 h s ->
  complete f x.1.1.1 x.1.1.2 /\ complete f x.2.1 x.2.2.
Proof.
  revert s0. induction H as [|H IH]; intros s0 Hc Hx; cbn [td_path] in Hx;
    [by apply not_elem_of_nil in Hx|].
  destruct (S H =? h)%nat; [by apply not_elem_of_nil in Hx|].
  destruct (s + p2 h <=? s0 + p2 H); apply elem_of_cons in Hx as [->|Hx].
  - split; [by apply complete_right|done].
  - apply (IH s0); [by apply complete_left|done].
  - split; [by apply complete_left|done].
  - apply (IH (s0 + p2 H)); [by apply complete_right|done].
Qed.

(** ** Folding a path *)
Section fold.
Context {HL : Hashlib}.
Implicit Types leaves : list bytes.

(** The strings a fold hashes, bottom-up. *)
Fixpoint fold_preimages (acc : bytes) (path : list _PathStep) (sibs : list bytes) : list bytes :=
  match path, sibs with
  | step :: path, sib :: sibs =>
      let pre := if target_is_right step then interior_preimage sib acc (parent_pos step)
                 else interior_preimage acc sib (parent_pos step) in
      pre :: fold_preimages (sha256 pre) path sibs
  | _, _ => []
  end.

(** The strings hashed to build the interior nodes of a tree. *)
Fixpoint tree_preimages leaves (h : nat) (s : Z) : list bytes :=
  match h with
  | O => []
  | S h' =>
      interior_preimage (node_hash leaves h' s) (node_hash leaves h' (s + p2 h')) (node_pos h s)
        :: tree_preimages leaves h' s ++ tree_preimages leaves h' (s + p2 h')
  end.

Definition sibling_hash leaves (x : (nat * Z) * bool * (nat * Z)) : bytes :=
  node_hash leaves x.1.1.1 x.1.1.2.

Lemma interior_hash_Ok_inv l r q a :
  interior_hash l r q = Ok a -> a = sha256 (interior_preimage l r q).
Proof.
  unfold interior_hash. destruct (_assert_digest (PBytes l)); [|done].
  destruct (_assert_digest (PBytes r)); [|done]. destruct (_require_nonneg_int q); [|done].
  destruct (to_bytes (q + 1) 8) eqn:Et; [|done]. apply to_bytes_Ok in Et as [_ ->].
  by intros [= <-].
Qed.

Definition step_preimage (acc : bytes) (step : _PathStep) (sib : bytes) : bytes :=
  if target_is_right step then interior_preimage sib acc (parent_pos step)
  else interior_preimage acc sib (parent_pos step).

Lemma fold_path_cons acc step path sib sibs a :
  fold_path acc (step :: path) (sib :: sibs) = Ok a ->
  fold_path (sha256 (step_preimage acc step sib)) path sibs = Ok a.
Proof.
  cbn [fold_path]. unfold step_preimage.
  destruct (target_is_right step), (interior_hash _ _ _) as [b|] eqn:E; try done;
    by apply interior_hash_Ok_inv in E as ->.
Qed.

Lemma fold_path_snoc acc path sibs st sib :
  length path = length sibs ->
  fold_path acc (path ++ [st]) (sibs ++ [sib]) =
  (let! a := fold_path acc path sibs in fold_path a [st] [sib]).
Proof.
  revert acc sibs. induction path as [|p path IH]; intros acc [|x sibs] Hlen; try done.
  cbn [app fold_path]. destruct (target_is_right p), (interior_hash _ _ _); try done;
    apply IH; by injection Hlen.
Qed.

Lemma fold_path_snoc_inv acc path sibs st sib a :
  length path = length sibs ->
  fold_path acc (path ++ [st]) (sibs ++ [sib]) = Ok a ->
  exists b, fold_path acc path sibs = Ok b /\ a = sha256 (step_preimage b st sib) /\
    fold_preimages acc (path ++ [st]) (sibs ++ [sib]) =
    fold_preimages acc path sibs ++ [step_preimage b st sib].
Proof.
  revert acc sibs. induction path as [|p path IH]; intros acc [|x sibs] Hlen Hf; try done.
  - apply fold_path_cons in Hf. injection Hf as <-. by exists acc.
  - pose proof Hf as Hf0. apply fold_path_cons in Hf. apply IH in Hf as (b & Hb & -> & Hp); [|by injection Hlen].
    exists b. split_and!; [|done|].
    + cbn [app fold_path] in Hf0 |- *. unfold step_preimage in Hb.
      destruct (target_is_right p), (interior_hash _ _ _) as [c|] eqn:E; try done;
        by apply interior_hash_Ok_inv in E as ->.
    + cbn [app fold_preimages]. fold (step_preimage acc p x). by rewrite Hp.
Qed.

Lemma fold_path_digest acc path sibs a :
  is_digest acc -> fold_path acc path sibs = Ok a -> is_digest a.
Proof.
  revert acc sibs. induction path as [|p path IH]; intros acc [|x sibs] Hacc Hf;
    try (by injection Hf as <-).
  apply fold_path_cons in Hf. by apply IH in Hf; [|apply sha256_digest].
Qed.

Lemma interior_preimage_inj l r l' r' p :
  is_digest l -> is_digest l' -> interior_preimage l r p = interior_preimage l' r' p ->
  l = l' /\ r = r'.
Proof.
  unfold interior_preimage, is_digest. intros Hl Hl' E. apply app_inj_1 in E as [_ E]; [|done].
  apply app_inj_1 in E; [done|congruence].
Qed.

Lemma interior_hash_complete f leaves l r h s :
  is_digest l -> is_digest r -> nc f < MAX_MMR_SIZE -> complete f h s ->
  interior_hash l r (node_pos h s) = Ok (ih l r (node_pos h s)).
Proof.
  intros Hl Hr Hmax Hc. apply complete_pos in Hc. unfold MAX_MMR_SIZE in *.
  apply interior_hash_digest; [done|done|lia].
Qed.

(** Honest siblings rebuild the ancestor. *)
Lemma fold_path_complete f leaves H0 s0 h s :
  Forall is_digest leaves -> f <= zlen leaves -> nc f < MAX_MMR_SIZE ->
  complete f H0 s0 -> aligned h s -> inside H0 s0 h s ->
  fold_path (node_hash leaves h s) (rev (map step_of (td_path H0 s0 h s)))
    (map (sibling_hash leaves) (rev (td_path H0 s0 h s))) = Ok (node_hash leaves H0 s0).
Proof.
  intros Hd Hf Hmax. revert s0. induction H0 as [|K IH]; intros s0 Hc Hs Hin.
  { pose proof (inside_le _ _ _ _ Hin). replace h with 0%nat in * by lia.
    destruct Hin as [Hlo Hhi]. rewrite p2_0 in Hhi. cbn. by replace s0 with s by lia. }
  cbn [td_path]. destruct (Nat.eqb_spec (S K) h) as [<-|Hne].
  { assert (s0 = s) as -> by (destruct Hin; lia). done. }
  pose proof (inside_child K s0 h s (proj1 Hc) Hs Hin ltac:(done)) as Hch.
  pose proof (complete_left _ _ _ Hc) as Hcl. pose proof (complete_right _ _ _ Hc) as Hcr.
  pose proof (node_hash_digest leaves _ _ Hd (complete_mono f _ _ _ Hf Hcl)) as Hdl.
  pose proof (node_hash_digest leaves _ _ Hd (complete_mono f _ _ _ Hf Hcr)) as Hdr.
  destruct (s + p2 h <=? s0 + p2 K); cbn [rev map]; rewrite map_app; cbn [map];
    rewrite fold_path_snoc by (by rewrite length_rev, !length_map, length_rev);
    rewrite IH by done; cbn [fold_path target_is_right step_of fst snd parent_pos];
    unfold sibling_hash, peak_of; cbn [fst snd];
    by rewrite (interior_hash_complete f leaves).
Qed.

(** Only the honest node folds to the honest ancestor. *)
Lemma fold_path_sound f leaves H0 s0 h s acc sibs :
  Forall is_digest leaves -> f <= zlen leaves ->
  complete f H0 s0 -> aligned h s -> inside H0 s0 h s ->
  is_digest acc -> Forall is_digest sibs -> length sibs = length (td_path H0 s0 h s) ->
  fold_path acc (rev (map step_of (td_path H0 s0 h s))) sibs = Ok (node_hash leaves H0 s0) ->
  acc = node_hash leaves h s \/
  collides (tree_preimages leaves H0 s0)
    (fold_preimages acc (rev (map step_of (td_path H0 s0 h s))) sibs).
Proof.
  intros Hd Hf. revert s0 sibs.
  induction H0 as [|K IH]; intros s0 sibs Hc Hs Hin Hacc Hsibs Hlen Hfold.
  { pose proof (inside_le _ _ _ _ Hin). replace h with 0%nat in * by lia.
    destruct Hin as [Hlo Hhi]. rewrite p2_0 in Hhi. cbn in Hfold. injection Hfold as ->.
    left. cbn. by replace s0 with s by lia. }
  cbn [td_path] in *. destruct (Nat.eqb_spec (S K) h) as [<-|Hne].
  { assert (s0 = s) as -> by (destruct Hin; lia). cbn in Hfold. injection Hfold as ->. by left. }
  pose proof (inside_child K s0 h s (proj1 Hc) Hs Hin ltac:(done)) as Hch.
  pose proof (complete_left _ _ _ Hc) as Hcl. pose proof (complete_right _ _ _ Hc) as Hcr.
  pose proof (node_hash_digest leaves _ _ Hd (complete_mono f _ _ _ Hf Hcl)) as Hdl.
  pose proof (node_hash_digest leaves _ _ Hd (complete_mono f _ _ _ Hf Hcr)) as Hdr.
  destruct (s + p2 h <=? s0 + p2 K); cbn [length] in Hlen;
    (destruct sibs as [|sib sibs _] using rev_ind; [done|]);
    rewrite length_app, Nat.add_1_r in Hlen; injection Hlen as Hlen;
    apply Forall_app in Hsibs as [Hsibs Hsib%Forall_inv]; cbn [rev map] in *;
    apply fold_path_snoc_inv in Hfold as (b & Hb & E & Hpre);
    try (by rewrite length_rev, length_map);
    pose proof (fold_path_digest _ _ _ _ Hacc Hb) as Hbd; rewrite Hpre;
    cbn [node_hash] in E; unfold ih in E;
    cbn [step_of step_preimage target_is_right parent_pos fst snd] in *; unfold step_preimage in *;
    cbn [step_of target_is_right parent_pos fst snd] in *;
    change (peak_of (S K, s0)) with (node_pos (S K) s0) in *.
  - apply (sha256_eq_or_collides _ _ (tree_preimages leaves (S K) s0)
      (fold_preimages acc (rev (map step_of (td_path K s0 h s))) sibs ++
       [interior_preimage b sib (node_pos (S K) s0)])) in E; [|by left|set_solver].
    destruct E as [E|E]; [|by right]. apply interior_preimage_inj in E as [<- _]; [|done..].
    destruct (IH s0 sibs Hcl Hs Hch Hacc Hsibs Hlen Hb) as [?|Hcol]; [by left|right].
    eapply collides_mono; [| |exact Hcol]; cbn [tree_preimages]; set_solver.
  - apply (sha256_eq_or_collides _ _ (tree_preimages leaves (S K) s0)
      (fold_preimages acc (rev (map step_of (td_path K (s0 + p2 K) h s))) sibs ++
       [interior_preimage sib b (node_pos (S K) s0)])) in E; [|by left|set_solver].
    destruct E as [E|E]; [|by right]. apply interior_preimage_inj in E as [_ <-]; [|done..].
    destruct (IH (s0 + p2 K) sibs Hcr Hs Hch Hacc Hsibs Hlen Hb) as [?|Hcol]; [by left|right].
    eapply collides_mono; [| |exact Hcol]; cbn [tree_preimages]; set_solver.
Qed.
End fold.

(** ** Bagging binds the peaks *)
Section bag.
Context {HL : Hashlib}.

Fixpoint bag_stack_preimages (right : bytes) (stack : list bytes) : list bytes :=
  match stack with
  | [] => []
  | x :: stack => (right ++ x) :: bag_stack_preimages (sha256 (right ++ x)) stack
  end.

Definition bag_preimages (peak_hashes : list bytes) : list bytes :=
  match rev peak_hashes with
  | [] => []
  | last :: stack => bag_stack_preimages last stack
  end.

Lemma bag_stack_binding x y l k :
  is_digest x -> is_digest y -> Forall is_digest l -> Forall is_digest k -> length l = length k ->
  bag x l = bag y k ->
  (x = y /\ l = k) \/ collides (bag_stack_preimages x l) (bag_stack_preimages y k).
Proof.
  intros Hx Hy Hl. revert x y k Hx Hy. induction Hl as [|a l Ha Hl IH];
    intros x y [|b k] Hx Hy Hk Hlen E; try done; [by left|].
  apply Forall_cons in Hk as [Hb Hk]. cbn [bag bag_stack_preimages] in *.
  apply IH in E as [[E ->]|Hc]; [| |apply sha256_digest..|done|by injection Hlen].
  - apply (sha256_eq_or_collides _ _ ((x ++ a) :: bag_stack_preimages (sha256 (x ++ a)) k)
      ((y ++ b) :: bag_stack_preimages (sha256 (y ++ b)) k)) in E as [E|?]; [|by right|by left..].
    left. apply app_inj_1 in E as [-> ->]; [done|]. unfold is_digest in *. congruence.
  - right. eapply collides_mono; [| |done]; set_solver.
Qed.

Lemma bag_binding l k :
  Forall is_digest l -> Forall is_digest k -> length l = length k ->
  bag_peaks l = bag_peaks k -> l = k \/ collides (bag_preimages l) (bag_preimages k).
Proof.
  intros Hl Hk Hlen E. apply Forall_rev in Hl, Hk. rewrite <- length_rev, <- (length_rev k) in Hlen.
  unfold bag_peaks, bag_preimages in *.
  assert (forall j : list bytes, rev l = j -> rev k = j -> l = k) as Hrev
    by (intros j <- E'; apply (f_equal (@rev _)) in E'; by rewrite !rev_involutive in E').
  destruct (rev l) as [|x l'], (rev k) as [|y k']; try done; [left; by eapply Hrev|].
  apply Forall_cons in Hl as [Hx Hl], Hk as [Hy Hk]. injection Hlen as Hlen.
  destruct (bag_stack_binding x y l' k') as [[-> ->]|?]; try done; [|by right].
  left. by eapply Hrev.
Qed.

(** Every string hashed to build the MMR of some body digests and its root. *)
Definition mmr_preimages (bodies : list bytes) : list bytes :=
  let leaves := map lh bodies in
  map (cons Byte.x00) bodies
    ++ concat (map (fun m => tree_preimages leaves m.1 m.2) (mountains (zlen leaves)))
    ++ bag_preimages (peak_hashes leaves).

Lemma tree_preimages_sub bodies m :
  m ∈ mountains (zlen bodies) ->
  tree_preimages (map lh bodies) m.1 m.2 ⊆ mmr_preimages bodies.
Proof.
  intros Hm x Hx. unfold mmr_preimages. rewrite zlen_map. apply elem_of_app. right.
  apply elem_of_app. left. apply list_elem_of_In, in_concat. eexists.
  split; [|by apply list_elem_of_In]. apply in_map_iff. exists m.
  split; [done|by apply list_elem_of_In].
Qed.

Lemma bag_preimages_sub bodies : bag_preimages (peak_hashes (map lh bodies)) ⊆ mmr_preimages bodies.
Proof. unfold mmr_preimages. set_solver. Qed.

Lemma leaf_preimages_sub bodies : map (cons Byte.x00) bodies ⊆ mmr_preimages bodies.
Proof. unfold mmr_preimages. set_solver. Qed.

Lemma lh_digests bodies : Forall is_digest (map lh bodies).
Proof. apply Forall_map, Forall_forall. intros. apply lh_digest. Qed.
End bag.

(** ** Parsing what generation printed *)
Lemma parse_digest_hex bs : is_digest bs -> _parse_digest_hex (PStr (hex bs)) = Ok bs.
Proof.
  unfold is_digest, _parse_digest_hex. cbn [as_str]. rewrite fromhex_hex. intros Hd.
  unfold zlen, DIGEST_LEN. by rewrite Hd.
Qed.

Lemma parse_digests l :
  Forall is_digest l -> map_result _parse_digest_hex (map (fun h => PStr (hex h)) l) = Ok l.
Proof.
  induction 1 as [|x l Hx Hl IH]; [done|]. cbn [map map_result]. by rewrite parse_digest_hex, IH.
Qed.

Lemma parse_digest_hex_digest v bs : _parse_digest_hex v = Ok bs -> is_digest bs.
Proof.
  unfold _parse_digest_hex, is_digest, zlen, DIGEST_LEN. destruct (as_str v); [|done].
  destruct (fromhex _) as [b|]; [|done].
  destruct (Z.of_nat (length b) =? 32) eqn:E; [|done]. intros [= <-]. zbool. lia.
Qed.

Lemma parse_digests_digest l bs : map_result _parse_digest_hex l = Ok bs -> Forall is_digest bs.
Proof.
  revert bs. induction l as [|v l IH]; intros bs Hl; [by injection Hl as <-; constructor|].
  apply map_result_cons_Ok in Hl as (b & bs' & Hb & Hbs & ->).
  constructor; [by eapply parse_digest_hex_digest|by apply IH].
Qed.
