(* ===== verification/Inclusion.v ===== *)
(** * Inclusion proofs: completeness and binding

    [inclusion_proof] from a store that represents the leaves produces a proof
    that [verify_inclusion] accepts at the root of the same size, and a proof
    the verifier accepts names the body digest recorded at that index, up to a
    collision between finitely many strings that were actually hashed. *)
From S2P Require Import Prelude Bytes Py Sha256 MmrPos Mmr MmrSpec MmrProof MmrPath.
Open Scope Z_scope.

(** The first [f] leaves. *)
Definition prefix_leaves (f : Z) (leaves : list bytes) : list bytes := take (Z.to_nat f) leaves.

Lemma containing_path f h s :
  0 <= f -> complete f h s ->
  exists idx H t,
    mountains f !! idx = Some (H, t) /\ (H, t) ∈ mountains f /\ inside H t h s /\
    _find_containing_peak (node_pos h s) (map peak_of (mountains f)) = Ok (Z.of_nat idx) /\
    py_index (map peak_of (mountains f)) (Z.of_nat idx) = Ok (node_pos H t) /\
    height_at (node_pos H t) = Ok (Z.of_nat H) /\
    _locate_path (node_pos H t) (Z.of_nat H) (node_pos h s) = rev (map step_of (td_path H t h s)).
Proof.
  intros Hf Hc. destruct (find_containing_peak_complete f h s Hf Hc) as (idx & H & t & El & Hin & Hm & Ef).
  exists idx, H, t. pose proof (mountains_elem f H t Hf Hm) as (Hal & _ & _).
  apply aligned_pred in Hal. split_and!; try done.
  - rewrite py_index_nonneg, Nat2Z.id by lia. by rewrite list_lookup_fmap, El.
  - by apply height_at_node_pos.
  - unfold _locate_path. rewrite Nat2Z.id, locate_path_td; [done|done|apply Hc|done].
Qed.

Lemma idx_not_minus_one idx : (Z.of_nat idx =? -1) = false.
Proof. apply Z.eqb_neq. lia. Qed.

Section nodes.
Context {HL : Hashlib}.

Lemma zlen_prefix f leaves : 0 <= f <= zlen leaves -> zlen (prefix_leaves f leaves) = f.
Proof. unfold prefix_leaves, zlen. intros. rewrite length_take. lia. Qed.

Lemma prefix_leaves_all leaves : prefix_leaves (zlen leaves) leaves = leaves.
Proof. unfold prefix_leaves, zlen. rewrite Nat2Z.id. apply take_ge. lia. Qed.

Lemma prefix_digests f leaves : Forall is_digest leaves -> Forall is_digest (prefix_leaves f leaves).
Proof. apply Forall_take. Qed.

Lemma node_hash_prefix f leaves h s :
  0 <= f <= zlen leaves -> complete f h s ->
  node_hash (prefix_leaves f leaves) h s = node_hash leaves h s.
Proof.
  intros Hf Hc. rewrite <- (take_drop (Z.to_nat f) leaves) at 2. symmetry.
  apply node_hash_app. by rewrite zlen_prefix.
Qed.

Lemma peak_hashes_prefix f leaves :
  0 <= f <= zlen leaves ->
  peak_hashes (prefix_leaves f leaves) = map (fun m => node_hash leaves m.1 m.2) (mountains f).
Proof.
  intros Hf. unfold peak_hashes. rewrite zlen_prefix by done. apply map_ext_in.
  intros [h s] Hin%list_elem_of_In. apply node_hash_prefix; [done|].
  apply complete_mountain; [lia|done].
Qed.

Lemma length_peak_hashes leaves : length (peak_hashes leaves) = length (mountains (zlen leaves)).
Proof. apply length_map. Qed.

Context {St} {NS : NodeStore St} {NSL : NodeStoreLaws St}.

Lemma read_peaks (st : St) leaves f ms :
  represents (ns_view st) leaves -> 0 <= f <= zlen leaves -> ms ⊆ mountains f ->
  map_result (ns_node st) (map peak_of ms) = Ok (map (fun m => node_hash leaves m.1 m.2) ms).
Proof.
  intros Hrep Hf Hms. induction ms as [|[h s] ms IH]; [done|]. cbn [map map_result].
  change (peak_of (h, s)) with (node_pos h s). rewrite (ns_node_complete st leaves); [|done|].
  - rewrite IH; [done|set_solver].
  - apply (complete_mono f); [lia|]. apply complete_mountain; [lia|]. apply Hms. by left.
Qed.

Lemma read_siblings (st : St) leaves f H0 s0 h s :
  represents (ns_view st) leaves -> 0 <= f <= zlen leaves -> complete f H0 s0 ->
  map_result (fun step => ns_node st (sibling_pos step)) (rev (map step_of (td_path H0 s0 h s)))
  = Ok (map (sibling_hash leaves) (rev (td_path H0 s0 h s))).
Proof.
  intros Hrep Hf Hc. rewrite <- map_rev.
  assert (forall x, x ∈ rev (td_path H0 s0 h s) -> complete (zlen leaves) x.1.1.1 x.1.1.2) as Hx.
  { intros x Hx. apply (complete_mono f); [lia|].
    eapply td_path_complete; [exact Hc|]. apply list_elem_of_In, in_rev. by apply list_elem_of_In. }
  induction (rev (td_path H0 s0 h s)) as [|x l IH]; [done|]. cbn [map map_result].
  change (sibling_pos (step_of x)) with (node_pos x.1.1.1 x.1.1.2).
  rewrite (ns_node_complete st leaves); [|done|apply Hx; by left].
  rewrite IH; [done|]. intros y Hy. apply Hx. by right.
Qed.

Lemma siblings_digest leaves f H0 s0 h s :
  Forall is_digest leaves -> f <= zlen leaves -> complete f H0 s0 ->
  Forall is_digest (map (sibling_hash leaves) (rev (td_path H0 s0 h s))).
Proof.
  intros Hd Hf Hc. apply Forall_map, Forall_rev, Forall_forall. intros x Hx.
  apply node_hash_digest; [done|]. apply (complete_mono f); [lia|].
  by eapply td_path_complete.
Qed.
End nodes.

(** ** Completeness *)
Section completeness.
Context {HL : Hashlib} {St} {NS : NodeStore St} {NSL : NodeStoreLaws St}.

(** [inclusion_proof], computed. *)
Lemma inclusion_proof_eq (st : St) leaves f i :
  represents (ns_view st) leaves -> 0 <= i < f -> f <= zlen leaves -> nc f < MAX_MMR_SIZE ->
  exists idx H t,
    mountains f !! idx = Some (H, t) /\ inside H t 0 i /\ complete f H t /\
    inclusion_proof st i (nc f) = Ok {|
      ip_v := PInt 1; ip_kind := PStr (str "inclusion");
      ip_size := PInt (nc f); ip_leaf_index := PInt i;
      ip_witness := hex_tuple (map (sibling_hash leaves) (rev (td_path H t 0 i)));
      ip_peaks_left := hex_tuple (map (fun m => node_hash leaves m.1 m.2) (take idx (mountains f)));
      ip_peaks_right :=
        hex_tuple (map (fun m => node_hash leaves m.1 m.2) (drop (S idx) (mountains f))) |}.
Proof.
  intros Hrep Hi Hf Hmax.
  assert (complete f 0 i) as Hc by (split; [apply aligned_zero; lia|rewrite p2_0; lia]).
  destruct (containing_path f 0 i ltac:(lia) Hc) as (idx & H & t & El & Hm & Hin & Ef & Ep & Eh & Elp).
  pose proof (complete_mountain f H t ltac:(lia) Hm) as Hcm.
  exists idx, H, t. split_and!; [done|done|done|].
  assert (nc i < nc f) as Hnci by (apply nc_lt; lia). rewrite node_pos_leaf in *.
  unfold inclusion_proof. rewrite leaf_count_nc by (done || lia).
  replace ((i <? 0) || (f <=? i)) with false
    by (symmetry; apply orb_false_iff; split; [apply Z.ltb_ge|apply Z.leb_gt]; lia).
  rewrite ns_size_view, (rep_size _ _ Hrep).
  replace (nc (zlen leaves) <? nc f) with false
    by (symmetry; apply Z.ltb_ge; apply nc_mono; lia).
  rewrite leaf_index_to_pos_nc, peaks_nc by lia. rewrite Ef, idx_not_minus_one, Ep, Eh, Elp.
  rewrite (read_siblings st leaves f) by (done || lia).
  replace (Z.to_nat (Z.of_nat idx + 1)) with (S idx) by lia. rewrite Nat2Z.id.
  rewrite firstn_map, skipn_map.
  rewrite !(read_peaks st leaves f); try (done || lia);
    intros m Hin'; [rewrite <- (take_drop (S idx) (mountains f))|rewrite <- (take_drop idx (mountains f))];
    apply elem_of_app; auto.
Qed.

Lemma mmr_root_digest leaves : Forall is_digest leaves -> is_digest (mmr_root leaves).
Proof. intros. by apply bag_peaks_digest, peak_hashes_digest. Qed.

Lemma zlen_hex_list (l : list bytes) : zlen (map (fun h => PStr (hex h)) l) = zlen l.
Proof. apply zlen_map. Qed.

Lemma path_lengths leaves H t i :
  zlen (map (sibling_hash leaves) (rev (td_path H t 0 i))) = zlen (rev (map step_of (td_path H t 0 i))).
Proof. unfold zlen. by rewrite length_map, !length_rev, length_map. Qed.

(** The checks of [verify_inclusion] up to the path, for typed arguments. *)
Lemma verify_inclusion_typed root f i body proof :
  is_digest root -> is_digest body -> 0 <= i < f -> nc f < MAX_MMR_SIZE ->
  ip_v proof = PInt 1 -> ip_kind proof = PStr (str "inclusion") ->
  ip_size proof = PInt (nc f) -> ip_leaf_index proof = PInt i ->
  forall idx H t ws ls rs,
  mountains f !! idx = Some (H, t) -> inside H t 0 i ->
  Forall is_digest ws -> Forall is_digest ls -> Forall is_digest rs ->
  ip_witness proof = hex_tuple ws -> ip_peaks_left proof = hex_tuple ls ->
  ip_peaks_right proof = hex_tuple rs ->
  length ws = length (td_path H t 0 i) -> length ls = idx ->
  length rs = (length (mountains f) - idx - 1)%nat ->
  forall a, fold_path (lh body) (rev (map step_of (td_path H t 0 i))) ws = Ok a -> is_digest a ->
  verify_inclusion (PBytes root) (PInt (nc f)) (PInt i) (PBytes body) (Some proof)
  = bool_decide (bag_peaks (ls ++ [a] ++ rs) = root).
Proof.
  intros Hroot Hbody Hi Hmax Ev Ek Es El idx H t ws ls rs Hidx Hin Hws Hls Hrs Ew Epl Epr
    Lw Ll Lr a Ha Had.
  assert (complete f 0 i) as Hc by (split; [apply aligned_zero; lia|rewrite p2_0; lia]).
  destruct (containing_path f 0 i ltac:(lia) Hc) as (idx' & H' & t' & El' & Hm & Hin' & Ef & Ep & Eh & Elp).
  assert (nc i < nc f) as Hnci by (apply nc_lt; lia). rewrite node_pos_leaf in *.
  pose proof (nc_ge f ltac:(lia)).
  assert (idx' = idx /\ H' = H /\ t' = t) as (-> & -> & ->).
  { eapply (mountains_inside_unique f 0 i); [lia|done..]. }
  unfold verify_inclusion, verify_inclusion_body. rewrite !assert_digest_digest by done.
  rewrite Ev, Ek, Es, El, Ew, Epl, Epr. rewrite !py_eq_int_refl, py_eq_str, bool_decide_true by done.
  cbn [negb orb as_int as_sequence hex_tuple int_arg as_strict_int].
  replace ((nc f <? 0) || (MAX_MMR_SIZE <=? nc f)) with false
    by (symmetry; apply orb_false_iff; split; [apply Z.ltb_ge|apply Z.leb_gt]; lia).
  replace (i <? 0) with false by (symmetry; apply Z.ltb_ge; lia).
  rewrite leaf_count_nc by (done || lia).
  replace (f <=? i) with false by (symmetry; apply Z.leb_gt; lia).
  rewrite leaf_index_to_pos_nc, peaks_nc by lia.
  rewrite Ef, idx_not_minus_one, Ep, Eh, Elp, !zlen_hex_list.
  replace (zlen ws =? _) with true
    by (symmetry; apply Z.eqb_eq; unfold zlen; rewrite length_rev, length_map; lia).
  replace (zlen ls =? _) with true by (symmetry; apply Z.eqb_eq; unfold zlen; lia).
  pose proof (lookup_lt_Some _ _ _ Hidx).
  replace (zlen rs =? _) with true
    by (symmetry; apply Z.eqb_eq; unfold zlen; rewrite length_map; lia).
  cbn [negb]. rewrite !parse_digests, leaf_hash_digest by done. rewrite Ha.
  rewrite root_from_peaks_digests by (by repeat (apply Forall_app; split); repeat constructor).
  done.
Qed.
End completeness.

(** ** Binding *)
Section binding.
Context {HL : Hashlib}.

(** The strings [verify_inclusion] hashes on a proof that parses. *)
Definition inclusion_preimages (n i : Z) (body : bytes) (proof : InclusionProof) : list bytes :=
  match
    let! leaf_pos := leaf_index_to_pos i in
    let! pks := peaks n in
    let! peak_idx := _find_containing_peak leaf_pos pks in
    let! peak_pos := py_index pks peak_idx in
    let! peak_height := height_at peak_pos in
    let path := _locate_path peak_pos peak_height leaf_pos in
    let! ws := map_result _parse_digest_hex (default [] (as_sequence (ip_witness proof))) in
    let! ls := map_result _parse_digest_hex (default [] (as_sequence (ip_peaks_left proof))) in
    let! rs := map_result _parse_digest_hex (default [] (as_sequence (ip_peaks_right proof))) in
    let! acc := fold_path (lh body) path ws in
    Ok ((Byte.x00 :: body) :: fold_preimages (lh body) path ws ++ bag_preimages (ls ++ [acc] ++ rs))
  with
  | Ok l => l
  | Raise _ => []
  end.

(** What an accepted proof consists of. *)
Lemma verify_inclusion_inv root n leaf_index body_digest proof :
  verify_inclusion root (PInt n) leaf_index body_digest (Some proof) = true ->
  exists rootb body f i idx H t ws ls rs a,
    as_bytes root = Some rootb /\ as_bytes body_digest = Some body /\ is_digest body /\
    leaf_index = PInt i /\ n = nc f /\ 0 <= i < f /\ nc f < MAX_MMR_SIZE /\
    mountains f !! idx = Some (H, t) /\ inside H t 0 i /\
    Forall is_digest ws /\ Forall is_digest ls /\ Forall is_digest rs /\
    length ws = length (td_path H t 0 i) /\ length ls = idx /\
    length rs = (length (mountains f) - idx - 1)%nat /\
    fold_path (lh body) (rev (map step_of (td_path H t 0 i))) ws = Ok a /\
    bag_peaks (ls ++ [a] ++ rs) = rootb /\
    inclusion_preimages n i body proof =
      (Byte.x00 :: body) :: fold_preimages (lh body) (rev (map step_of (td_path H t 0 i))) ws
        ++ bag_preimages (ls ++ [a] ++ rs).
Proof.
  unfold verify_inclusion, verify_inclusion_body. intros Hv.
  destruct (_assert_digest root) as [rootb|] eqn:Er; [|done].
  destruct (_assert_digest body_digest) as [body|] eqn:Eb; [|done].
  destruct (negb _ || negb _); [done|]. destruct (negb _ || negb _); [done|].
  destruct (as_int (PInt n)) as [n'|] eqn:En; [|done]. injection En as <-.
  destruct (as_int leaf_index) as [i|] eqn:Ei; [|done].
  destruct (as_sequence (ip_witness proof)) as [w|] eqn:Esw; [|done].
  destruct (as_sequence (ip_peaks_left proof)) as [pl|] eqn:Esl; [|done].
  destruct (as_sequence (ip_peaks_right proof)) as [pr|] eqn:Esr; [|done].
  destruct (_ || _); [done|]. destruct (i <? 0) eqn:Eneg; [done|]. zbool.
  cbn [int_arg as_strict_int] in Hv.
  destruct (leaf_count n) as [f|] eqn:Elc; [|done].
  destruct (f <=? i) eqn:Efi; [done|]. zbool.
  apply leaf_count_Ok_inv in Elc as (Hf & -> & Hmax).
  destruct leaf_index as [| |i'| | | | | | | | | | | | |]; try done. cbn in Ei. injection Ei as ->.
  assert (complete f 0 i) as Hc by (split; [apply aligned_zero; lia|rewrite p2_0; lia]).
  destruct (containing_path f 0 i Hf Hc) as (idx & H & t & El & Hm & Hin & Ef & Ep & Eh & Elp).
  rewrite node_pos_leaf in *. assert (nc i < nc f) by (apply nc_lt; lia).
  cbn [int_arg as_strict_int] in Hv. rewrite leaf_index_to_pos_nc, peaks_nc in Hv by lia.
  rewrite Ef, idx_not_minus_one, Ep, Eh, Elp in Hv.
  destruct (negb (zlen w =? _)) eqn:Lw; [done|]. destruct (negb (zlen pl =? _)) eqn:Ll; [done|].
  destruct (negb (zlen pr =? _)) eqn:Lr; [done|]. zbool.
  destruct (map_result _ w) as [ws|] eqn:Ews; [|done].
  destruct (map_result _ pl) as [ls|] eqn:Els; [|done].
  destruct (map_result _ pr) as [rs|] eqn:Ers; [|done].
  apply assert_digest_Ok in Er as [_ Er], Eb as [Hbd Eb].
  rewrite leaf_hash_digest in Hv by done.
  destruct (fold_path _ _ ws) as [a|] eqn:Ea; [|done].
  pose proof (parse_digests_digest _ _ Ews) as Hws.
  pose proof (parse_digests_digest _ _ Els) as Hls.
  pose proof (parse_digests_digest _ _ Ers) as Hrs.
  pose proof (fold_path_digest _ _ _ _ (lh_digest _) Ea) as Ha.
  rewrite root_from_peaks_digests in Hv
    by (by repeat (apply Forall_app; split); repeat constructor).
  cbn [catch_false] in Hv. apply bool_decide_eq_true_1 in Hv.
  pose proof (map_result_length _ _ _ Ews). pose proof (map_result_length _ _ _ Els).
  pose proof (map_result_length _ _ _ Ers). unfold zlen in *. rewrite length_rev, length_map in Lw. rewrite length_map in Lr.
  pose proof (lookup_lt_Some _ _ _ El).
  exists rootb, body, f, i, idx, H, t, ws, ls, rs, a. split_and!; try (done || lia).
  unfold inclusion_preimages. rewrite leaf_index_to_pos_nc, peaks_nc by lia.
  rewrite Ef, Ep, Eh, Elp, Esw, Esl, Esr. cbn [from_option]. unfold id. by rewrite Ews, Els, Ers, Ea.
Qed.
End binding.

Lemma inclusion_complete_core {HL : Hashlib} {St} {NS : NodeStore St} {NSL : NodeStoreLaws St}
    (st : St) (leaves : list bytes) (f i : Z) (body : bytes) :
  represents (ns_view st) leaves ->
  0 <= i < f -> f <= zlen leaves -> nc f < MAX_MMR_SIZE ->
  is_digest body -> leaf_at leaves i = lh body ->
  exists proof,
    inclusion_proof st i (nc f) = Ok proof /\
    verify_inclusion (PBytes (mmr_root (prefix_leaves f leaves))) (PInt (nc f)) (PInt i)
      (PBytes body) (Some proof) = true.
Proof.
  intros Hrep Hi Hf Hmax Hbody Hleaf. pose proof (rep_leaves _ _ Hrep) as Hd.
  destruct (inclusion_proof_eq st leaves f i Hrep Hi Hf Hmax) as (idx & H & t & El & Hin & Hc & E).
  eexists. split; [exact E|].
  assert (Forall is_digest (map (fun m => node_hash leaves m.1 m.2) (mountains f))) as Hpk.
  { rewrite <- peak_hashes_prefix by lia. by apply peak_hashes_digest, prefix_digests. }
  pose proof (node_hash_digest leaves H t Hd (complete_mono f _ _ _ Hf Hc)) as Hht.
  rewrite verify_inclusion_typed with (idx := idx) (H := H) (t := t)
    (ws := map (sibling_hash leaves) (rev (td_path H t 0 i)))
    (ls := map (fun m => node_hash leaves m.1 m.2) (take idx (mountains f)))
    (rs := map (fun m => node_hash leaves m.1 m.2) (drop (S idx) (mountains f)))
    (a := node_hash leaves H t);
    try done; try (by apply mmr_root_digest, prefix_digests).
  - apply bool_decide_eq_true_2. unfold mmr_root. rewrite peak_hashes_prefix by lia. f_equal.
    rewrite <- (take_drop_middle _ _ _ El) at 3. by rewrite map_app.
  - by apply (siblings_digest leaves f).
  - rewrite <- firstn_map. by apply Forall_take.
  - rewrite <- skipn_map. by apply Forall_drop.
  - by rewrite length_map, length_rev.
  - rewrite length_map, length_take. apply lookup_lt_Some in El. lia.
  - rewrite length_map, length_drop. lia.
  - rewrite <- Hleaf. change (leaf_at leaves i) with (node_hash leaves 0 i).
    apply (fold_path_complete f); try done. apply aligned_zero. lia.
Qed.

(** [C2] Every inclusion proof the store generates verifies: over a node store
    that represents the leaves, [inclusion_proof] for any leaf [i] of any
    earlier size [f <= len(leaves)] returns a proof, and [verify_inclusion]
    accepts it at the root of the first [f] leaves for the body digest whose
    leaf hash is leaf [i]. *)
Theorem inclusion_complete {HL : Hashlib} {St} {NS : NodeStore St} {NSL : NodeStoreLaws St}
    (st : St) (leaves : list bytes) (f i : Z) (body : bytes) :
  represents (ns_view st) leaves ->
  0 <= i < f -> f <= zlen leaves -> nc f < MAX_MMR_SIZE ->
  is_digest body -> leaf_at leaves i = lh body ->
  exists proof,
    inclusion_proof st i (nc f) = Ok proof /\
    verify_inclusion (PBytes (mmr_root (prefix_leaves f leaves))) (PInt (nc f)) (PInt i)
      (PBytes body) (Some proof) = true.
Proof. apply inclusion_complete_core. Qed.

Lemma inclusion_binding_core {HL : Hashlib} (bodies : list bytes)
    (root leaf_index body_digest : pyval) (proof : InclusionProof) :
  Forall is_digest bodies ->
  as_bytes root = Some (mmr_root (map lh bodies)) ->
  verify_inclusion root (PInt (nc (zlen bodies))) leaf_index body_digest (Some proof) = true ->
  exists i body,
    leaf_index = PInt i /\ 0 <= i < zlen bodies /\ as_bytes body_digest = Some body /\
    (bodies !! Z.to_nat i = Some body \/
     collides (mmr_preimages bodies)
       (inclusion_preimages (nc (zlen bodies)) i body proof)).
Proof.
  intros Hbodies Hroot Hv.
  apply verify_inclusion_inv in Hv as (rootb & body & f & i & idx & H & t & ws & ls & rs & a &
    Er & Eb & Hbd & -> & En & Hi & Hmax & El & Hin & Hws & Hls & Hrs & Lw & Ll & Lr & Ha & Hbag & Epre).
  pose proof (zlen_nonneg bodies).
  apply nc_inj in En as <-; [|done|lia]. rewrite Hroot in Er. injection Er as <-.
  exists i, body. split_and!; [done|lia|lia|done|]. rewrite Epre.
  set (leaves := map lh bodies) in *. assert (zlen leaves = zlen bodies) as Elen by apply zlen_map.
  pose proof (fold_path_digest _ _ _ _ (lh_digest _) Ha) as Had.
  pose proof (list_elem_of_lookup_2 _ _ _ El) as Hm.
  pose proof (complete_mountain (zlen bodies) H t ltac:(lia) Hm) as Hc.
  apply bag_binding in Hbag.
  2: by repeat (apply Forall_app; split); repeat constructor.
  2: apply peak_hashes_digest, lh_digests.
  2: { rewrite length_peak_hashes, Elen, !length_app. cbn [length].
    apply lookup_lt_Some in El. lia. }
  destruct Hbag as [Hpk|Hcol]; cycle 1.
  { right. destruct Hcol as (x & y & Hx & Hy & Hne & Hxy). exists y, x. split_and!; [|set_solver|].
    - by apply bag_preimages_sub.
    - by split; [congruence|]. }
  assert (a = node_hash leaves H t) as ->.
  { assert (peak_hashes leaves !! idx = Some (node_hash leaves H t)) as Hat
      by (unfold peak_hashes; by rewrite list_lookup_fmap, Elen, El).
    rewrite <- Hpk, lookup_app_r, Ll, Nat.sub_diag in Hat by lia. by injection Hat. }
  apply (fold_path_sound (zlen bodies)) in Ha as [Hlh|Hcol]; try done;
    [| |apply lh_digests|lia|apply aligned_zero; lia|apply lh_digest].
  - change (node_hash leaves 0 i) with (leaf_at leaves i) in Hlh. unfold leaf_at, leaves in Hlh.
    destruct (lookup_lt_is_Some_2 bodies (Z.to_nat i)) as [b Hb]; [unfold zlen in *; lia|].
    rewrite list_lookup_fmap, Hb in Hlh. cbn in Hlh. symmetry in Hlh.
    apply (sha256_eq_or_collides _ _ (mmr_preimages bodies)
      (inclusion_preimages (nc (zlen bodies)) i body proof)) in Hlh as [E|?].
    + left. rewrite Hb. congruence.
    + right. by rewrite <- Epre.
    + apply leaf_preimages_sub, list_elem_of_fmap. exists b. split; [done|].
      by eapply list_elem_of_lookup_2.
    + rewrite Epre. by left.
  - right. eapply collides_mono; [|  |exact Hcol]; [|set_solver].
    by apply (tree_preimages_sub bodies (H, t)).
Qed.

(** [C1] An accepted inclusion proof names the recorded body: whatever the
    types of the other arguments, if [verify_inclusion] returns [True] at the
    root and size of an MMR of [bodies], then the leaf index is an [int] [i]
    within the log and the body digest is [bodies[i]], unless a string the
    verifier hashed collides with a different string hashed to build that
    MMR. *)
Theorem inclusion_binding {HL : Hashlib} (bodies : list bytes)
    (root leaf_index body_digest : pyval) (proof : InclusionProof) :
  Forall is_digest bodies ->
  as_bytes root = Some (mmr_root (map lh bodies)) ->
  verify_inclusion root (PInt (nc (zlen bodies))) leaf_index body_digest (Some proof) = true ->
  exists i body,
    leaf_index = PInt i /\ 0 <= i < zlen bodies /\ as_bytes body_digest = Some body /\
    (bodies !! Z.to_nat i = Some body \/
     collides (mmr_preimages bodies)
       (inclusion_preimages (nc (zlen bodies)) i body proof)).
Proof. apply inclusion_binding_core. Qed.

(** ** Witnesses *)
Lemma inclusion_complete_witness :
  let HL := Sha256.hashlib in
  exists proof,
    inclusion_proof Demo.store 2 (nc 4) = Ok proof /\
    verify_inclusion (PBytes (mmr_root (prefix_leaves 4 Demo.leaves))) (PInt (nc 4)) (PInt 2)
      (PBytes (be_bytes 32 30)) (Some proof) = true.
Proof.
  intros HL. apply (inclusion_complete Demo.store Demo.leaves 4 2 (be_bytes 32 30)); try done.
  apply Demo.store_represents.
Defined.

(** A proof for the first of three bodies, written out by hand. *)
Definition demo_inclusion_proof : InclusionProof :=
  let HL := Sha256.hashlib in
  {| ip_v := PInt 1; ip_kind := PStr (str "inclusion"); ip_size := PInt 4; ip_leaf_index := PInt 0;
     ip_witness := hex_tuple [lh (be_bytes 32 20)]; ip_peaks_left := hex_tuple [];
     ip_peaks_right := hex_tuple [lh (be_bytes 32 30)] |}.

Lemma inclusion_binding_witness :
  let HL := Sha256.hashlib in
  let bodies := take 3 Demo.bodies in
  exists i body,
    PInt 0 = PInt i /\ 0 <= i < zlen bodies /\ as_bytes (PBytes (be_bytes 32 10)) = Some body /\
    (bodies !! Z.to_nat i = Some body \/
     collides (mmr_preimages bodies)
       (inclusion_preimages (nc (zlen bodies)) i body demo_inclusion_proof)).
Proof.
  intros HL bodies. apply (inclusion_binding bodies (PBytes (mmr_root (map lh bodies)))).
  - apply Forall_take, Demo.bodies_digest.
  - reflexivity.
  - vm_compute. reflexivity.
Defined.
