(* ===== verification/Consistency.v ===== *)
(** * Consistency proofs: completeness and binding

    [consistency_proof] between two sizes of a store produces a proof that
    [verify_consistency] accepts, and an accepted proof against an honest
    new root fixes the old root: it is the root of the prefix of the old
    size, up to a collision between strings that were hashed. *)
From S2P Require Import Prelude Bytes Py Sha256 MmrPos Mmr MmrSpec MmrProof MmrPath Inclusion.
Open Scope Z_scope.

(** ** Completeness *)
Section completeness.
Context {HL : Hashlib} {St} {NS : NodeStore St} {NSL : NodeStoreLaws St}.
Implicit Types leaves : list bytes.

Lemma py_index_peak leaves g idx H t :
  0 <= g <= zlen leaves -> mountains g !! idx = Some (H, t) ->
  py_index (peak_hashes (prefix_leaves g leaves)) (Z.of_nat idx) = Ok (node_hash leaves H t).
Proof.
  intros Hg El. rewrite peak_hashes_prefix, py_index_nonneg, Nat2Z.id by lia.
  by rewrite list_lookup_fmap, El.
Qed.

(** One old peak: the generated row, and the verifier's step on it. *)
Lemma old_peak_row (st : St) leaves g m :
  represents (ns_view st) leaves -> 0 <= g <= zlen leaves -> nc g < MAX_MMR_SIZE ->
  complete g m.1 m.2 ->
  exists ws,
    old_peak_witness st (map peak_of (mountains g)) (peak_of m) = Ok (node_hash leaves m.1 m.2, ws) /\
    forall ps olds wits,
      verify_old_peaks (peak_of m :: ps) (node_hash leaves m.1 m.2 :: olds) (hex_tuple ws :: wits)
        (map peak_of (mountains g)) (peak_hashes (prefix_leaves g leaves))
      = verify_old_peaks ps olds wits (map peak_of (mountains g))
          (peak_hashes (prefix_leaves g leaves)).
Proof.
  destruct m as [h s]. cbn [fst snd]. intros Hrep Hg Hmax Hc.
  pose proof (rep_leaves _ _ Hrep) as Hd.
  destruct (containing_path g h s ltac:(lia) Hc) as (idx & H & t & El & Hm & Hin & Ef & Ep & Eh & Elp).
  pose proof (complete_mountain g H t ltac:(lia) Hm) as Hcm.
  exists (map (sibling_hash leaves) (rev (td_path H t h s))). change (peak_of (h, s)) with (node_pos h s).
  split.
  - unfold old_peak_witness. rewrite (ns_node_complete st leaves);
      [|done|apply (complete_mono g); [lia|done]].
    rewrite Ef, idx_not_minus_one, Ep, Eh, Elp. by rewrite (read_siblings st leaves g).
  - intros ps olds wits. cbn [verify_old_peaks].
    rewrite Ef, idx_not_minus_one, Ep, Eh, Elp. cbn [as_sequence hex_tuple].
    rewrite zlen_hex_list.
    replace (zlen _ =? zlen _) with true
      by (symmetry; apply Z.eqb_eq; unfold zlen; by rewrite !length_rev, !length_map, length_rev).
    cbn [negb]. rewrite parse_digests by (apply (siblings_digest leaves g); done || lia).
    rewrite (fold_path_complete g) by (done || lia || apply Hc).
    by rewrite (py_index_peak _ _ _ _ _ Hg El), bool_decide_true by done.
Qed.

Lemma old_peak_rows (st : St) leaves g ms :
  represents (ns_view st) leaves -> 0 <= g <= zlen leaves -> nc g < MAX_MMR_SIZE ->
  Forall (fun m => complete g m.1 m.2) ms ->
  exists rows,
    map_result (old_peak_witness st (map peak_of (mountains g))) (map peak_of ms) = Ok rows /\
    map fst rows = map (fun m => node_hash leaves m.1 m.2) ms /\
    verify_old_peaks (map peak_of ms) (map fst rows) (map (fun row => hex_tuple (snd row)) rows)
      (map peak_of (mountains g)) (peak_hashes (prefix_leaves g leaves)) = Ok true.
Proof.
  intros Hrep Hg Hmax. induction 1 as [|m ms Hm Hms IH]; [by exists []|].
  destruct IH as (rows & E & Ef & Hv).
  destruct (old_peak_row st leaves g m Hrep Hg Hmax Hm) as (ws & Ew & Hstep).
  exists ((node_hash leaves m.1 m.2, ws) :: rows). cbn [map map_result fst snd].
  rewrite Ew, E, Ef. split_and!; [done|done|]. by rewrite Hstep, <- Ef.
Qed.

Lemma prefix_roots_parse leaves f :
  Forall is_digest leaves -> 0 <= f <= zlen leaves ->
  map_result _parse_digest_hex
    (map (fun h => PStr (hex h)) (map (fun m => node_hash leaves m.1 m.2) (mountains f)))
  = Ok (peak_hashes (prefix_leaves f leaves)) /\
  root_from_peaks (peak_hashes (prefix_leaves f leaves)) = Ok (mmr_root (prefix_leaves f leaves)).
Proof.
  intros Hd Hf. rewrite <- peak_hashes_prefix by done.
  assert (Forall is_digest (peak_hashes (prefix_leaves f leaves)))
    by by apply peak_hashes_digest, prefix_digests.
  by rewrite parse_digests, root_from_peaks_digests.
Qed.
End completeness.

Lemma consistency_complete_core {HL : Hashlib} {St} {NS : NodeStore St} {NSL : NodeStoreLaws St}
    (st : St) (leaves : list bytes) (f g : Z) :
  represents (ns_view st) leaves -> 0 <= f <= g -> g <= zlen leaves -> nc g < MAX_MMR_SIZE ->
  exists proof,
    consistency_proof st (nc f) (nc g) = Ok proof /\
    verify_consistency (PBytes (mmr_root (prefix_leaves f leaves))) (PInt (nc f))
      (PBytes (mmr_root (prefix_leaves g leaves))) (PInt (nc g)) (Some proof) = true.
Proof.
  intros Hrep Hf Hg Hmax. pose proof (rep_leaves _ _ Hrep) as Hd.
  pose proof (nc_mono f g Hf). pose proof (nc_mono g (zlen leaves) ltac:(lia)).
  pose proof (nc_ge f ltac:(lia)).
  destruct (old_peak_rows st leaves g (mountains f)) as (rows & E & Efst & Hv); [done|lia|done| |].
  { apply Forall_forall. intros [h s] Hm. apply (complete_mono f); [lia|].
    apply complete_mountain; [lia|done]. }
  assert (length rows = length (mountains f)) as Hlen
    by (apply map_result_length in E; by rewrite length_map in E).
  destruct (prefix_roots_parse leaves f Hd ltac:(lia)) as [Hpf Hrf].
  destruct (prefix_roots_parse leaves g Hd ltac:(lia)) as [Hpg Hrg].
  eexists. split.
  { unfold consistency_proof. rewrite ns_size_view, (rep_size _ _ Hrep).
    replace (nc f <? 0) with false by (symmetry; apply Z.ltb_ge; lia).
    replace (nc g <? nc f) with false by (symmetry; apply Z.ltb_ge; lia).
    replace (nc (zlen leaves) <? nc g) with false by (symmetry; apply Z.ltb_ge; lia).
    rewrite !peaks_nc by lia. rewrite E.
    rewrite (read_peaks st leaves g); [done|done|lia|done]. }
  unfold verify_consistency, verify_consistency_body.
  rewrite !assert_digest_digest by by apply mmr_root_digest, prefix_digests.
  cbn [cp_v cp_kind cp_size_a cp_size_b cp_old_peaks cp_witness cp_new_peaks].
  rewrite !py_eq_int_refl, py_eq_str, bool_decide_true by done.
  cbn [negb orb as_int as_sequence hex_tuple int_arg as_strict_int].
  replace (nc f <? 0) with false by (symmetry; apply Z.ltb_ge; lia).
  replace (nc g <? nc f) with false by (symmetry; apply Z.ltb_ge; lia).
  rewrite !peaks_nc by lia.
  rewrite !zlen_map. unfold zlen. rewrite Hlen, !Z.eqb_refl. cbn [negb].
  rewrite Efst, Hpf, Hpg, Hrf, Hrg, !bool_decide_true by done. cbn [negb].
  rewrite Efst, <- peak_hashes_prefix in Hv by lia. rewrite Hv. done.
Qed.

(** [C12] Every consistency proof the store generates verifies: over a node
    store that represents the leaves, [consistency_proof] between any two
    earlier sizes [f <= g <= len(leaves)] returns a proof, and
    [verify_consistency] accepts it at the roots of the two prefixes. *)
Theorem consistency_complete {HL : Hashlib} {St} {NS : NodeStore St} {NSL : NodeStoreLaws St}
    (st : St) (leaves : list bytes) (f g : Z) :
  represents (ns_view st) leaves -> 0 <= f <= g -> g <= zlen leaves -> nc g < MAX_MMR_SIZE ->
  exists proof,
    consistency_proof st (nc f) (nc g) = Ok proof /\
    verify_consistency (PBytes (mmr_root (prefix_leaves f leaves))) (PInt (nc f))
      (PBytes (mmr_root (prefix_leaves g leaves))) (PInt (nc g)) (Some proof) = true.
Proof. apply consistency_complete_core. Qed.

(** ** Binding *)
Section binding.
Context {HL : Hashlib}.
Implicit Types leaves : list bytes.

(** The strings [verify_consistency] hashes while folding the old peaks. *)
Fixpoint old_peaks_preimages (old_peak_positions : list Z) (old_peaks : list bytes)
    (witness : list pyval) (new_peak_positions : list Z) : list bytes :=
  match old_peak_positions, old_peaks, witness with
  | p :: old_peak_positions, old :: old_peaks, w :: witness =>
      match
        let! containing_idx := _find_containing_peak p new_peak_positions in
        let! new_peak_pos := py_index new_peak_positions containing_idx in
        let! new_peak_height := height_at new_peak_pos in
        let! w_bytes := map_result _parse_digest_hex (default [] (as_sequence w)) in
        Ok (fold_preimages old (_locate_path new_peak_pos new_peak_height p) w_bytes)
      with
      | Ok l => l
      | Raise _ => []
      end ++ old_peaks_preimages old_peak_positions old_peaks witness new_peak_positions
  | _, _, _ => []
  end.

(** All the strings it hashes on a proof that parses, the old root aside. *)
Definition consistency_preimages (a b : Z) (proof : ConsistencyProof) : list bytes :=
  match
    let! old_peak_positions := peaks a in
    let! new_peak_positions := peaks b in
    let! old_peaks := map_result _parse_digest_hex (default [] (as_sequence (cp_old_peaks proof))) in
    let! new_peaks := map_result _parse_digest_hex (default [] (as_sequence (cp_new_peaks proof))) in
    Ok (bag_preimages new_peaks ++
        old_peaks_preimages old_peak_positions old_peaks
          (default [] (as_sequence (cp_witness proof))) new_peak_positions)
  with
  | Ok l => l
  | Raise _ => []
  end.

(** Old peaks that fold to the honest new peaks are the honest old peaks. *)
Lemma verify_old_peaks_sound bodies ms olds wits :
  let leaves := map lh bodies in
  let g := zlen bodies in
  nc g < MAX_MMR_SIZE -> Forall (fun m => complete g m.1 m.2) ms ->
  Forall is_digest olds -> length olds = length ms -> length wits = length ms ->
  verify_old_peaks (map peak_of ms) olds wits (map peak_of (mountains g)) (peak_hashes leaves) = Ok true ->
  olds = map (fun m => node_hash leaves m.1 m.2) ms \/
  collides (mmr_preimages bodies)
    (old_peaks_preimages (map peak_of ms) olds wits (map peak_of (mountains g))).
Proof.
  intros leaves g Hmax Hms. assert (zlen leaves = g) as Elen by apply zlen_map.
  pose proof (zlen_nonneg bodies : 0 <= g) as Hg.
  revert olds wits. induction Hms as [|[h s] ms Hc Hms IH];
    intros [|old olds] [|w wits] Ho Lo Lw Hv; try done; [by left|].
  apply Forall_cons in Ho as [Hold Ho]. injection Lo as Lo. injection Lw as Lw.
  cbn [fst snd] in Hc. cbn [map verify_old_peaks old_peaks_preimages] in *.
  change (peak_of (h, s)) with (node_pos h s) in *.
  destruct (containing_path g h s Hg Hc) as (idx & H & t & El & Hm & Hin & Ef & Ep & Eh & Elp).
  pose proof (complete_mountain g H t Hg Hm) as Hcm.
  rewrite Ef, ?idx_not_minus_one, Ep, Eh, Elp in *.
  destruct (as_sequence w) as [wl|]; [|done]. cbn [from_option]. unfold id.
  destruct (negb _) eqn:Lwl; [done|]. zbool.
  destruct (map_result _parse_digest_hex wl) as [ws|] eqn:Ews; [|done].
  destruct (fold_path old _ ws) as [acc|] eqn:Efold; [|done].
  rewrite <- (prefix_leaves_all leaves), (py_index_peak leaves (zlen leaves) idx H t),
    prefix_leaves_all in Hv
    by (rewrite Elen; done || lia).
  destruct (negb _) eqn:Eacc; [done|]. zbool. subst acc.
  apply (fold_path_sound g) in Efold as [->|Hcol]; [| |apply lh_digests|lia|done|apply Hc|done|done| |].
  - destruct (IH olds wits Ho Lo Lw Hv) as [->|Hcol]; [by left|right].
    eapply collides_mono; [done| |exact Hcol]. set_solver.
  - right. eapply collides_mono; [| |exact Hcol]; [|set_solver].
    by apply (tree_preimages_sub bodies (H, t)).
  - by eapply parse_digests_digest.
  - apply map_result_length in Ews. unfold zlen in Lwl.
    rewrite length_rev, length_map in Lwl. lia.
Qed.

(** What an accepted proof consists of. *)
Lemma verify_consistency_inv root_a size_a root_b b proof :
  verify_consistency root_a size_a root_b (PInt b) (Some proof) = true ->
  exists ra rb f g olds news wits,
    as_bytes root_a = Some ra /\ as_bytes root_b = Some rb /\
    size_a = PInt (nc f) /\ b = nc g /\ 0 <= f <= g /\ nc g < MAX_MMR_SIZE /\
    Forall is_digest olds /\ Forall is_digest news /\
    length olds = length (mountains f) /\ length news = length (mountains g) /\
    length wits = length (mountains f) /\
    bag_peaks olds = ra /\ bag_peaks news = rb /\
    verify_old_peaks (map peak_of (mountains f)) olds wits (map peak_of (mountains g)) news = Ok true /\
    consistency_preimages (nc f) b proof =
      bag_preimages news ++
      old_peaks_preimages (map peak_of (mountains f)) olds wits (map peak_of (mountains g)).
Proof.
  unfold verify_consistency, verify_consistency_body. intros Hv.
  destruct (_assert_digest root_a) as [ra|] eqn:Ea; [|done].
  destruct (_assert_digest root_b) as [rb|] eqn:Eb; [|done].
  destruct (negb _ || negb _); [done|]. destruct (negb _ || negb _); [done|].
  cbn [as_int] in Hv. destruct (as_int size_a) as [a|] eqn:Eia; [|done].
  destruct (as_sequence (cp_old_peaks proof)) as [o|] eqn:Eso; [|done].
  destruct (as_sequence (cp_new_peaks proof)) as [n|] eqn:Esn; [|done].
  destruct (as_sequence (cp_witness proof)) as [wits|] eqn:Esw; [|done].
  destruct (a <? 0) eqn:Eneg; [done|]. destruct (b <? a) eqn:Eba; [done|]. zbool.
  unfold int_arg in Hv. destruct (as_strict_int size_a) as [a'|] eqn:Esa; [|done].
  destruct size_a; try done. cbn in Eia, Esa. injection Eia as ->. injection Esa as <-.
  destruct (peaks a) as [opp|] eqn:Epa; [|done]. cbn [as_strict_int] in Hv.
  destruct (peaks b) as [npp|] eqn:Epb; [|done].
  destruct (peaks_Ok_inv _ _ Epa) as (f & Hf & -> & Hmaxf).
  destruct (peaks_Ok_inv _ _ Epb) as (g & Hg & -> & Hmaxg).
  pose proof Epa as Epa0. pose proof Epb as Epb0.
  rewrite peaks_nc in Epa, Epb by done. injection Epa as <-. injection Epb as <-.
  destruct (negb (zlen o =? _)) eqn:Lo; [done|]. destruct (negb (zlen n =? _)) eqn:Ln; [done|].
  destruct (negb (zlen wits =? _)) eqn:Lw; [done|]. zbool.
  destruct (map_result _ o) as [olds|] eqn:Eo; [|done].
  destruct (map_result _ n) as [news|] eqn:En; [|done].
  pose proof (parse_digests_digest _ _ Eo). pose proof (parse_digests_digest _ _ En).
  rewrite !root_from_peaks_digests in Hv by done.
  destruct (negb _) eqn:Hra; [done|]. destruct (negb (bool_decide (bag_peaks news = rb))) eqn:Hrb; [done|].
  zbool. apply assert_digest_Ok in Ea as [_ Ea], Eb as [_ Eb].
  apply map_result_length in Eo as Lo', En as Ln'. unfold zlen in *. rewrite length_map in Lo, Ln, Lw.
  exists ra, rb, f, g, olds, news, wits. split_and!; try (done || lia).
  - apply Z.nlt_ge. intros Hlt. pose proof (nc_lt g f). lia.
  - by destruct (verify_old_peaks _ _ _ _ _) as [[]|].
  - unfold consistency_preimages. rewrite Epa0, Epb0, Eso, Esn, Esw. cbn [from_option]. unfold id.
    by rewrite Eo, En.
Qed.

Lemma consistency_binding_core (bodies : list bytes)
    (root_a size_a root_b : pyval) (proof : ConsistencyProof) :
  as_bytes root_b = Some (mmr_root (map lh bodies)) ->
  verify_consistency root_a size_a root_b (PInt (nc (zlen bodies))) (Some proof) = true ->
  exists f,
    size_a = PInt (nc f) /\ 0 <= f <= zlen bodies /\
    (as_bytes root_a = Some (mmr_root (map lh (take (Z.to_nat f) bodies))) \/
     collides (mmr_preimages bodies) (consistency_preimages (nc f) (nc (zlen bodies)) proof)).
Proof.
  intros Hroot Hv.
  apply verify_consistency_inv in Hv as (ra & rb & f & g & olds & news & wits & Ea & Eb & -> & En &
    Hf & Hmax & Ho & Hn & Lo & Ln & Lw & Hra & Hrb & Hv & Epre).
  pose proof (zlen_nonneg bodies).
  apply nc_inj in En as <-; [|done|lia]. rewrite Eb in Hroot. injection Hroot as ->.
  exists f. split_and!; [done|lia|lia|]. rewrite Epre.
  apply bag_binding in Hrb; [|done|apply peak_hashes_digest, lh_digests|
    by rewrite length_peak_hashes, zlen_map].
  destruct Hrb as [->|(x & y & Hx & Hy & Hne & Hxy)]; cycle 1.
  { right. exists y, x. split_and!; [by apply bag_preimages_sub|set_solver|by split]. }
  apply verify_old_peaks_sound in Hv as [->|Hcol]; try done.
  - left. rewrite Ea, <- firstn_map. change (take (Z.to_nat f) (map lh bodies)) with
      (prefix_leaves f (map lh bodies)). unfold mmr_root.
    rewrite peak_hashes_prefix by (rewrite zlen_map; lia). by rewrite Hra.
  - right. eapply collides_mono; [done| |exact Hcol]. set_solver.
  - apply Forall_forall. intros [h s] Hm. apply (complete_mono f); [lia|].
    apply complete_mountain; [lia|done].
Qed.
End binding.

(** [C10] An accepted consistency proof fixes the old root: whatever the types
    of the other arguments, if [verify_consistency] returns [True] against the
    root and size of an MMR of [bodies], then the old size is the size of a
    prefix of [bodies] and the old root is the root of exactly that prefix,
    unless a string the verifier hashed collides with a different string hashed
    to build the MMR. *)
Theorem consistency_binding {HL : Hashlib} (bodies : list bytes)
    (root_a size_a root_b : pyval) (proof : ConsistencyProof) :
  as_bytes root_b = Some (mmr_root (map lh bodies)) ->
  verify_consistency root_a size_a root_b (PInt (nc (zlen bodies))) (Some proof) = true ->
  exists f,
    size_a = PInt (nc f) /\ 0 <= f <= zlen bodies /\
    (as_bytes root_a = Some (mmr_root (map lh (take (Z.to_nat f) bodies))) \/
     collides (mmr_preimages bodies) (consistency_preimages (nc f) (nc (zlen bodies)) proof)).
Proof. apply consistency_binding_core. Qed.

(** ** Witnesses *)
Lemma consistency_complete_witness :
  let HL := Sha256.hashlib in
  exists proof,
    consistency_proof Demo.store (nc 3) (nc 5) = Ok proof /\
    verify_consistency (PBytes (mmr_root (prefix_leaves 3 Demo.leaves))) (PInt (nc 3))
      (PBytes (mmr_root (prefix_leaves 5 Demo.leaves))) (PInt (nc 5)) (Some proof) = true.
Proof.
  intros HL. apply (consistency_complete Demo.store Demo.leaves 3 5); try done.
  apply Demo.store_represents.
Defined.

(** A proof that three bodies extend the first one, written out by hand. *)
Definition demo_consistency_proof : ConsistencyProof :=
  let HL := Sha256.hashlib in
  let b i := lh (be_bytes 32 i) in
  {| cp_v := PInt 1; cp_kind := PStr (str "consistency"); cp_size_a := PInt 1; cp_size_b := PInt 4;
     cp_old_peaks := hex_tuple [b 10]; cp_witness := PTuple [hex_tuple [b 20]];
     cp_new_peaks := hex_tuple [ih (b 10) (b 20) 2; b 30] |}.

Lemma consistency_binding_witness :
  let HL := Sha256.hashlib in
  let bodies := take 3 Demo.bodies in
  exists f,
    PInt 1 = PInt (nc f) /\ 0 <= f <= zlen bodies /\
    (as_bytes (PBytes (lh (be_bytes 32 10))) = Some (mmr_root (map lh (take (Z.to_nat f) bodies))) \/
     collides (mmr_preimages bodies)
       (consistency_preimages (nc f) (nc (zlen bodies)) demo_consistency_proof)).
Proof.
  intros HL bodies.
  apply (consistency_binding bodies _ _ (PBytes (mmr_root (map lh bodies)))).
  - reflexivity.
  - vm_compute. reflexivity.
Defined.
