(* ===== verification/Range.v ===== *)
(** * Range proofs: every record of a range

    [src/python/checkpoint/core.py], section "range": the sibling set of a
    leaf range, the reconstruction of the peaks from the leaves' own body
    digests, and their completeness and binding. *)
From S2P Require Import Prelude Bytes Py Sha256 MmrPos Mmr MmrSpec MmrProof MmrPath Inclusion.
Open Scope Z_scope.

Record RangeProof := {
  rp_v : pyval; rp_kind : pyval; rp_size : pyval;
  rp_from_index : pyval; rp_to_index : pyval; rp_witness : pyval
}.

(** The subtree of height [height] from [leaf_start] misses the range. *)
Definition outside_range (height : nat) (leaf_start lo hi : Z) : bool :=
  let leaf_end := leaf_start + Z.shiftl 1 (Z.of_nat height) - 1 in
  (leaf_end <? lo) || (hi <? leaf_start).

(** ** Generation *)
Section generate.
Context {HL : Hashlib} {St} {NS : NodeStore St}.

Fixpoint _range_witnesses (reader : St) (pos : Z) (height : nat) (leaf_start lo hi : Z)
    (out : list bytes) : result (list bytes) :=
  let leaf_end := leaf_start + Z.shiftl 1 (Z.of_nat height) - 1 in
  if outside_range height leaf_start lo hi then
    let! n := ns_node reader pos in Ok (out ++ [n])
  else if (lo <=? leaf_start) && (leaf_end <=? hi) then Ok out
  else
    match height with
    | O => Raise ValueError  (* [1 << (height - 1)] *)
    | S h =>
        let half := Z.shiftl 1 (Z.of_nat h) in
        let! out := _range_witnesses reader (pos - Z.shiftl 1 (Z.of_nat height)) h leaf_start lo hi out in
        _range_witnesses reader (pos - 1) h (leaf_start + half) lo hi out
    end.

Fixpoint range_peaks (reader : St) (pks : list Z) (leaf_start lo hi : Z) (out : list bytes)
  : result (list bytes) :=
  match pks with
  | [] => Ok out
  | p :: pks =>
      let! h := height_at p in
      let! out := _range_witnesses reader p (Z.to_nat h) leaf_start lo hi out in
      range_peaks reader pks (leaf_start + Z.shiftl 1 h) lo hi out
  end.

Definition range_proof (reader : St) (from_index to_index : pyval) (size : Z) : result RangeProof :=
  match as_strict_int from_index, as_strict_int to_index with
  | Some lo, Some hi =>
      if hi <? lo then Raise InvalidArgumentError
      else if lo <? 0 then Raise InvalidArgumentError
      else
        let! lc := leaf_count size in
        if lc <=? hi then Raise InvalidArgumentError
        else
          let reader_size := ns_size reader in
          if reader_size <? size then Raise IntegrityError
          else
            let! pks := peaks size in
            let! out := range_peaks reader pks 0 lo hi [] in
            Ok {| rp_v := PInt 1; rp_kind := PStr (str "range"); rp_size := PInt size;
                  rp_from_index := from_index; rp_to_index := to_index;
                  rp_witness := hex_tuple out |}
  | _, _ => Raise InvalidArgumentError
  end.
End generate.

(** ** Verification *)
Section verify.
Context {HL : Hashlib}.

(** [{from_index + i: d for i, d in enumerate(body_digests)}] *)
Fixpoint digest_by_index (from_index : Z) (body_digests : list bytes) : gmap Z bytes :=
  match body_digests with
  | [] => ∅
  | d :: body_digests => <[from_index := d]> (digest_by_index (from_index + 1) body_digests)
  end.

(** The one-element list [cursor] is passed and returned. *)
Fixpoint _reconstruct_range_subtree (pos : Z) (height : nat) (leaf_start lo hi : Z)
    (body_digests : gmap Z bytes) (witness_bytes : list bytes) (cursor : nat)
  : result (bytes * nat) :=
  if outside_range height leaf_start lo hi then
    match witness_bytes !! cursor with
    | None => Raise IntegrityError
    | Some w => Ok (w, S cursor)
    end
  else
    match height with
    | O =>
        match body_digests !! leaf_start with
        | None => Raise KeyError
        | Some d => let! x := leaf_hash d in Ok (x, cursor)
        end
    | S h =>
        let half := Z.shiftl 1 (Z.of_nat h) in
        let! l := _reconstruct_range_subtree (pos - Z.shiftl 1 (Z.of_nat height)) h leaf_start lo hi
                    body_digests witness_bytes cursor in
        let! r := _reconstruct_range_subtree (pos - 1) h (leaf_start + half) lo hi
                    body_digests witness_bytes l.2 in
        let! x := interior_hash l.1 r.1 pos in
        Ok (x, r.2)
    end.

Fixpoint reconstruct_peaks (pks : list Z) (leaf_start lo hi : Z)
    (body_digests : gmap Z bytes) (witness_bytes : list bytes) (cursor : nat)
  : result (list bytes * nat) :=
  match pks with
  | [] => Ok ([], cursor)
  | p :: pks =>
      let! h := height_at p in
      let! x := _reconstruct_range_subtree p (Z.to_nat h) leaf_start lo hi
                  body_digests witness_bytes cursor in
      let! xs := reconstruct_peaks pks (leaf_start + Z.shiftl 1 h) lo hi
                   body_digests witness_bytes x.2 in
      Ok (x.1 :: xs.1, xs.2)
  end.

Definition verify_range_body (root size from_index to_index body_digests : pyval)
    (proof : option RangeProof) : result bool :=
  let! root := _assert_digest root in
  match proof with
  | None => Ok false
  | Some proof =>
      if negb (py_eq (rp_v proof) (PInt 1)) || negb (py_eq (rp_kind proof) (PStr (str "range")))
      then Ok false else
      if negb (py_eq (rp_size proof) size) || negb (py_eq (rp_from_index proof) from_index)
         || negb (py_eq (rp_to_index proof) to_index)
      then Ok false else
      match as_strict_int size, as_strict_int from_index, as_strict_int to_index,
            as_sequence (rp_witness proof), as_sequence body_digests with
      | Some size, Some from_index, Some to_index, Some witness, Some body_digests =>
          if (size <? 0) || (MAX_MMR_SIZE <=? size) then Ok false else
          if (from_index <? 0) || (to_index <? from_index) then Ok false else
          if negb (zlen body_digests =? to_index - from_index + 1) then Ok false else
          let! lc := leaf_count size in
          if lc <=? to_index then Ok false else
          let! digests := map_result _assert_digest body_digests in
          let digest_by_index := digest_by_index from_index digests in
          let! witness_bytes := map_result _parse_digest_hex witness in
          let! pks := peaks size in
          let! reconstructed := reconstruct_peaks pks 0 from_index to_index digest_by_index
                                  witness_bytes 0 in
          if negb (Nat.eqb reconstructed.2 (length witness_bytes)) then Ok false else
          let! computed_root := root_from_peaks reconstructed.1 in
          Ok (bool_decide (computed_root = root))
      | _, _, _, _, _ => Ok false
      end
  end.

Definition verify_range (root size from_index to_index body_digests : pyval)
    (proof : option RangeProof) : bool :=
  catch_false (verify_range_body root size from_index to_index body_digests proof).
End verify.

(** ** Geometry *)
Lemma shiftl_p2 h : Z.shiftl 1 (Z.of_nat h) = p2 h.
Proof. by rewrite Z.shiftl_1_l, p2_Z. Qed.

Lemma outside_range_spec h s lo hi :
  outside_range h s lo hi = true <-> s + p2 h - 1 < lo \/ hi < s.
Proof. unfold outside_range. rewrite shiftl_p2, orb_true_iff, !Z.ltb_lt. done. Qed.

Lemma outside_range_spec' h s lo hi :
  outside_range h s lo hi = false <-> lo <= s + p2 h - 1 /\ s <= hi.
Proof. unfold outside_range. rewrite shiftl_p2, orb_false_iff, !Z.ltb_ge. done. Qed.

Lemma left_child_pos h s : node_pos (S h) s - p2 (S h) = node_pos h s.
Proof. unfold node_pos. rewrite !p2_S. lia. Qed.

Lemma right_child_pos h s : aligned (S h) s -> node_pos (S h) s - 1 = node_pos h (s + p2 h).
Proof. intros Hal. rewrite (merge_pos h (s + p2 h) s Hal eq_refl). lia. Qed.

(** Consecutive mountains from leaf [s] to leaf [e]. *)
Fixpoint chain (ms : list (nat * Z)) (s e : Z) : Prop :=
  match ms with
  | [] => s = e
  | (h, t) :: ms => t = s /\ chain ms (s + p2 h) e
  end.

Lemma chain_mts K f s : 0 <= f < p2 K -> chain (mts K f s) s (s + f).
Proof.
  revert f s. induction K as [|K IH]; intros f s Hf; cbn [mts].
  - change (p2 0) with 1 in Hf. cbn. lia.
  - rewrite p2_S in Hf. destruct (p2 K <=? f) eqn:E; zbool; [|apply IH; lia].
    cbn [chain]. split; [done|]. replace (s + f) with (s + p2 K + (f - p2 K)) by lia. apply IH. lia.
Qed.

Lemma chain_mountains f : 0 <= f -> chain (mountains f) 0 f.
Proof.
  intros Hf. replace f with (0 + f) at 2 by lia. apply chain_mts. split; [done|by apply bits_spec].
Qed.

Lemma mountain_of_leaf f i :
  0 <= i < f -> exists H t, (H, t) ∈ mountains f /\ t <= i < t + p2 H.
Proof.
  intros Hi. destruct (find_containing_peak_complete f 0 i) as (idx & H & t & _ & [Hlo Hhi] & Hm & _);
    [lia|split; [apply aligned_zero; lia|rewrite p2_0; lia]|].
  rewrite p2_0 in Hhi. exists H, t. split; [done|lia].
Qed.

Lemma lookup_digest_by_index lo ds i :
  digest_by_index lo ds !! i = if decide (lo <= i) then ds !! Z.to_nat (i - lo) else None.
Proof.
  revert lo. induction ds as [|d ds IH]; intros lo; cbn [digest_by_index].
  { rewrite lookup_empty. by destruct (decide _). }
  destruct (decide (lo = i)) as [->|Hne].
  - rewrite lookup_insert_eq, decide_True, Z.sub_diag by lia. done.
  - rewrite lookup_insert_ne, IH by done. destruct (decide (lo <= i)).
    + rewrite decide_True by lia.
      by replace (Z.to_nat (i - lo)) with (S (Z.to_nat (i - (lo + 1)))) by lia.
    + by rewrite decide_False by lia.
Qed.

(** ** The honest witness of a range *)
Section honest.
Context {HL : Hashlib}.
Implicit Types leaves : list bytes.

Fixpoint range_siblings leaves (h : nat) (s lo hi : Z) : list bytes :=
  if outside_range h s lo hi then [node_hash leaves h s]
  else
    match h with
    | O => []
    | S h' => range_siblings leaves h' s lo hi ++ range_siblings leaves h' (s + p2 h') lo hi
    end.

Lemma range_siblings_inside leaves h s lo hi :
  lo <= s -> s + p2 h - 1 <= hi -> range_siblings leaves h s lo hi = [].
Proof.
  revert s. induction h as [|h IH]; intros s Hlo Hhi; cbn [range_siblings].
  - rewrite p2_0 in Hhi.
    replace (outside_range 0 s lo hi) with false; [done|].
    symmetry. apply outside_range_spec'. rewrite p2_0. lia.
  - pose proof (p2_pos h). replace (outside_range (S h) s lo hi) with false;
      [rewrite p2_S in Hhi; rewrite !IH; (done || lia)|].
    symmetry. apply outside_range_spec'. pose proof (p2_pos (S h)). lia.
Qed.

Lemma range_siblings_digest leaves h s lo hi :
  Forall is_digest leaves -> complete (zlen leaves) h s ->
  Forall is_digest (range_siblings leaves h s lo hi).
Proof.
  intros Hd. revert s. induction h as [|h IH]; intros s Hc; cbn [range_siblings];
    destruct (outside_range _ _ _ _).
  - constructor; [by apply node_hash_digest|done].
  - done.
  - constructor; [by apply node_hash_digest|done].
  - apply Forall_app. split; apply IH; [by apply complete_left|by apply complete_right].
Qed.

(** The body digests [ds] are those of the leaves from [lo]. *)
Definition records_at leaves (lo : Z) (ds : list bytes) : Prop :=
  Forall is_digest ds /\
  forall k d, ds !! k = Some d -> leaf_at leaves (lo + Z.of_nat k) = lh d.

Context {St} {NS : NodeStore St} {NSL : NodeStoreLaws St}.

Lemma range_witnesses_eq (st : St) leaves h s lo hi out :
  represents (ns_view st) leaves -> complete (zlen leaves) h s ->
  _range_witnesses st (node_pos h s) h s lo hi out = Ok (out ++ range_siblings leaves h s lo hi).
Proof.
  intros Hrep. revert s out. induction h as [|h IH]; intros s out Hc; cbn [_range_witnesses];
    destruct (outside_range _ s lo hi) eqn:Eo.
  - rewrite (ns_node_complete st leaves) by done. cbn [range_siblings]. by rewrite Eo.
  - apply outside_range_spec' in Eo as Ho. rewrite p2_0 in Ho. change (Z.shiftl 1 (Z.of_nat 0)) with 1.
    replace ((lo <=? s) && (s + 1 - 1 <=? hi)) with true
      by (symmetry; apply andb_true_iff; split; apply Z.leb_le; lia).
    cbn [range_siblings]. by rewrite Eo, app_nil_r.
  - rewrite (ns_node_complete st leaves) by done. cbn [range_siblings]. by rewrite Eo.
  - rewrite !shiftl_p2. destruct ((lo <=? s) && _) eqn:Ein.
    + zbool. rewrite range_siblings_inside, app_nil_r by lia. done.
    + cbn [range_siblings]. rewrite Eo, left_child_pos, right_child_pos by apply Hc.
      rewrite IH by by apply complete_left. rewrite IH by by apply complete_right.
      by rewrite <- app_assoc.
Qed.

Lemma range_peaks_eq (st : St) leaves f ms s lo hi out :
  represents (ns_view st) leaves -> 0 <= f <= zlen leaves -> ms ⊆ mountains f -> chain ms s f ->
  range_peaks st (map peak_of ms) s lo hi out
  = Ok (out ++ concat (map (fun m => range_siblings leaves m.1 m.2 lo hi) ms)).
Proof.
  intros Hrep Hf. revert s out. induction ms as [|[h t] ms IH]; intros s out Hms Hch;
    cbn [map range_peaks concat]; [by rewrite app_nil_r|].
  destruct Hch as [-> Hch]. assert ((h, s) ∈ mountains f) as Hm by (apply Hms; by left).
  pose proof (complete_mountain f h s ltac:(lia) Hm) as Hc. change (peak_of (h, s)) with (node_pos h s).
  rewrite height_at_node_pos by apply Hc. rewrite Nat2Z.id, shiftl_p2.
  rewrite (range_witnesses_eq st leaves) by (done || (apply (complete_mono f); [lia|done])).
  rewrite IH; [|set_solver|done]. cbn [fst snd]. by rewrite app_assoc.
Qed.

(** Reconstruction from the honest records and witness. *)
Lemma reconstruct_complete leaves f h s lo hi ds pre post :
  Forall is_digest leaves -> 0 <= f <= zlen leaves -> nc f < MAX_MMR_SIZE -> complete f h s ->
  records_at leaves lo ds -> zlen ds = hi - lo + 1 ->
  _reconstruct_range_subtree (node_pos h s) h s lo hi (digest_by_index lo ds)
    (pre ++ range_siblings leaves h s lo hi ++ post) (length pre)
  = Ok (node_hash leaves h s, length (pre ++ range_siblings leaves h s lo hi)).
Proof.
  intros Hd Hf Hmax Hc [Hds Hrec] Hlen. revert s pre post Hc.
  induction h as [|h IH]; intros s pre post Hc; cbn [_reconstruct_range_subtree range_siblings];
    destruct (outside_range _ s lo hi) eqn:Eo;
    try (rewrite lookup_app_r, Nat.sub_diag, length_app, Nat.add_1_r by lia; done).
  - apply outside_range_spec' in Eo. rewrite p2_0 in Eo.
    rewrite lookup_digest_by_index, decide_True by lia.
    destruct (lookup_lt_is_Some_2 ds (Z.to_nat (s - lo))) as [d Hat]; [unfold zlen in *; lia|].
    rewrite Hat, leaf_hash_digest by by eapply Forall_lookup_1. rewrite app_nil_r.
    cbn [node_hash]. rewrite <- (Hrec _ _ Hat). do 3 f_equal. lia.
  - pose proof (complete_left _ _ _ Hc) as Hcl. pose proof (complete_right _ _ _ Hc) as Hcr.
    rewrite !shiftl_p2, left_child_pos, right_child_pos by apply Hc.
    rewrite <- !app_assoc, IH by done. cbn [fst snd]. rewrite (app_assoc pre), IH by done. cbn [fst snd].
    rewrite (interior_hash_complete f leaves); try done;
      [by rewrite <- app_assoc| |]; apply node_hash_digest; try done; by apply (complete_mono f); [lia|].
Qed.

Lemma reconstruct_peaks_complete leaves f ms s lo hi ds pre post :
  Forall is_digest leaves -> 0 <= f <= zlen leaves -> nc f < MAX_MMR_SIZE ->
  ms ⊆ mountains f -> chain ms s f -> records_at leaves lo ds -> zlen ds = hi - lo + 1 ->
  let sibs := concat (map (fun m => range_siblings leaves m.1 m.2 lo hi) ms) in
  reconstruct_peaks (map peak_of ms) s lo hi (digest_by_index lo ds) (pre ++ sibs ++ post) (length pre)
  = Ok (map (fun m => node_hash leaves m.1 m.2) ms, length (pre ++ sibs)).
Proof.
  intros Hd Hf Hmax Hms Hch Hrec Hlen. revert s pre Hch.
  induction ms as [|[h t] ms IH]; intros s pre Hch;
    cbn [map reconstruct_peaks concat]; [by rewrite app_nil_r|].
  destruct Hch as [-> Hch]. assert ((h, s) ∈ mountains f) as Hm by (apply Hms; by left).
  pose proof (complete_mountain f h s ltac:(lia) Hm) as Hc. change (peak_of (h, s)) with (node_pos h s).
  rewrite height_at_node_pos by apply Hc. rewrite Nat2Z.id, shiftl_p2. cbn [fst snd].
  rewrite <- !app_assoc, (reconstruct_complete leaves f) by done. cbn [fst snd].
  rewrite (app_assoc pre), IH; [|set_solver|done]. cbn [fst snd]. by rewrite <- app_assoc.
Qed.
End honest.

(** Generation and verification of a range of an earlier size. *)
Lemma range_proof_verifies {HL : Hashlib} {St} {NS : NodeStore St} {NSL : NodeStoreLaws St}
    (st : St) (leaves : list bytes) (f lo hi : Z) (ds : list bytes) :
  represents (ns_view st) leaves -> 0 <= lo <= hi -> hi < f -> f <= zlen leaves ->
  nc f < MAX_MMR_SIZE -> zlen ds = hi - lo + 1 -> records_at leaves lo ds ->
  exists proof,
    range_proof st (PInt lo) (PInt hi) (nc f) = Ok proof /\
    proof = {| rp_v := PInt 1; rp_kind := PStr (str "range"); rp_size := PInt (nc f);
               rp_from_index := rp_from_index proof; rp_to_index := rp_to_index proof;
               rp_witness := rp_witness proof |} /\
    verify_range (PBytes (mmr_root (prefix_leaves f leaves))) (PInt (nc f)) (PInt lo) (PInt hi)
      (PList (map PBytes ds)) (Some proof) = true.
Proof.
  intros Hrep Hlo Hhi Hf Hmax Hlen Hrec. pose proof (rep_leaves _ _ Hrep) as Hd.
  pose proof (nc_mono f (zlen leaves) ltac:(lia)). pose proof (nc_ge f ltac:(lia)).
  pose proof (chain_mountains f ltac:(lia)) as Hch.
  set (sibs := concat (map (fun m => range_siblings leaves m.1 m.2 lo hi) (mountains f))).
  assert (Forall is_digest sibs) as Hsibs.
  { apply Forall_concat, Forall_map, Forall_forall. intros [h s] Hm.
    apply range_siblings_digest; [done|]. apply (complete_mono f); [lia|].
    apply complete_mountain; [lia|done]. }
  eexists. split.
  { unfold range_proof. cbn [as_strict_int].
    replace (hi <? lo) with false by (symmetry; apply Z.ltb_ge; lia).
    replace (lo <? 0) with false by (symmetry; apply Z.ltb_ge; lia).
    rewrite leaf_count_nc by (done || lia).
    replace (f <=? hi) with false by (symmetry; apply Z.leb_gt; lia).
    rewrite ns_size_view, (rep_size _ _ Hrep).
    replace (nc (zlen leaves) <? nc f) with false by (symmetry; apply Z.ltb_ge; lia).
    rewrite peaks_nc by lia. rewrite (range_peaks_eq st leaves f) by (done || lia). done. }
  split; [done|]. unfold verify_range, verify_range_body.
  rewrite assert_digest_digest by by apply mmr_root_digest, prefix_digests.
  cbn [rp_v rp_kind rp_size rp_from_index rp_to_index rp_witness app].
  rewrite !py_eq_int_refl, py_eq_str, bool_decide_true by done.
  cbn [negb orb as_strict_int as_sequence hex_tuple].
  replace ((nc f <? 0) || (MAX_MMR_SIZE <=? nc f)) with false
    by (symmetry; apply orb_false_iff; split; [apply Z.ltb_ge|apply Z.leb_gt]; lia).
  replace ((lo <? 0) || (hi <? lo)) with false
    by (symmetry; apply orb_false_iff; split; apply Z.ltb_ge; lia).
  rewrite zlen_map, Hlen, Z.eqb_refl. cbn [negb]. rewrite leaf_count_nc by (done || lia).
  replace (f <=? hi) with false by (symmetry; apply Z.leb_gt; lia).
  rewrite map_result_map, assert_digests by apply Hrec.
  rewrite parse_digests, peaks_nc by (done || lia).
  pose proof (reconstruct_peaks_complete leaves f (mountains f) 0 lo hi ds [] []
    Hd ltac:(lia) Hmax ltac:(done) Hch Hrec Hlen) as Hr.
  cbn zeta in Hr. fold sibs in Hr. cbn [app length] in Hr. rewrite app_nil_r in Hr.
  fold sibs. rewrite Hr. cbn [fst snd].
  rewrite Nat.eqb_refl. cbn [negb]. rewrite <- peak_hashes_prefix by lia.
  rewrite root_from_peaks_digests by by apply peak_hashes_digest, prefix_digests.
  by rewrite bool_decide_true.
Qed.

(** Every range proof the store generates verifies: over a node store
    that represents the leaves, [range_proof] for any leaves [lo .. hi] of any
    earlier size [f] returns a proof, and [verify_range] accepts it at the root
    of the first [f] leaves for the body digests of exactly those leaves. *)
Theorem range_complete {HL : Hashlib} {St} {NS : NodeStore St} {NSL : NodeStoreLaws St}
    (st : St) (leaves : list bytes) (f lo hi : Z) (ds : list bytes) :
  represents (ns_view st) leaves -> 0 <= lo <= hi -> hi < f -> f <= zlen leaves ->
  nc f < MAX_MMR_SIZE -> zlen ds = hi - lo + 1 -> records_at leaves lo ds ->
  exists proof,
    range_proof st (PInt lo) (PInt hi) (nc f) = Ok proof /\
    verify_range (PBytes (mmr_root (prefix_leaves f leaves))) (PInt (nc f)) (PInt lo) (PInt hi)
      (PList (map PBytes ds)) (Some proof) = true.
Proof.
  intros Hrep Hlo Hhi Hf Hmax Hlen Hrec.
  destruct (range_proof_verifies st leaves f lo hi ds) as (proof & E & _ & Hv); eauto.
Qed.

(** ** Binding *)
Section binding.
Context {HL : Hashlib}.
Implicit Types leaves : list bytes.

(** The strings the reconstruction of a subtree hashes. *)
Fixpoint reconstruct_preimages (pos : Z) (height : nat) (leaf_start lo hi : Z)
    (body_digests : gmap Z bytes) (witness_bytes : list bytes) (cursor : nat) : list bytes :=
  if outside_range height leaf_start lo hi then []
  else
    match height with
    | O => match body_digests !! leaf_start with Some d => [Byte.x00 :: d] | None => [] end
    | S h =>
        let lpos := pos - Z.shiftl 1 (Z.of_nat height) in
        let rstart := leaf_start + Z.shiftl 1 (Z.of_nat h) in
        match _reconstruct_range_subtree lpos h leaf_start lo hi body_digests witness_bytes cursor with
        | Raise _ => []
        | Ok (l, c) =>
            match _reconstruct_range_subtree (pos - 1) h rstart lo hi body_digests witness_bytes c with
            | Raise _ => []
            | Ok (r, _) =>
                interior_preimage l r pos
                  :: reconstruct_preimages lpos h leaf_start lo hi body_digests witness_bytes cursor
                  ++ reconstruct_preimages (pos - 1) h rstart lo hi body_digests witness_bytes c
            end
        end
    end.

Fixpoint reconstruct_peaks_preimages (pks : list Z) (leaf_start lo hi : Z)
    (body_digests : gmap Z bytes) (witness_bytes : list bytes) (cursor : nat) : list bytes :=
  match pks with
  | [] => []
  | p :: pks =>
      match
        let! h := height_at p in
        let! x := _reconstruct_range_subtree p (Z.to_nat h) leaf_start lo hi
                    body_digests witness_bytes cursor in
        Ok (reconstruct_preimages p (Z.to_nat h) leaf_start lo hi body_digests witness_bytes cursor
            ++ reconstruct_peaks_preimages pks (leaf_start + Z.shiftl 1 h) lo hi
                 body_digests witness_bytes x.2)
      with
      | Ok l => l
      | Raise _ => []
      end
  end.

(** The strings [verify_range] hashes on arguments that parse. *)
Definition range_preimages (n lo hi : Z) (digests : list bytes) (proof : RangeProof) : list bytes :=
  match
    let! witness_bytes := map_result _parse_digest_hex (default [] (as_sequence (rp_witness proof))) in
    let! pks := peaks n in
    let! reconstructed := reconstruct_peaks pks 0 lo hi (digest_by_index lo digests) witness_bytes 0 in
    Ok (bag_preimages reconstructed.1
        ++ reconstruct_peaks_preimages pks 0 lo hi (digest_by_index lo digests) witness_bytes 0)
  with
  | Ok l => l
  | Raise _ => []
  end.

Lemma interior_hash_digests l r q a : interior_hash l r q = Ok a -> is_digest l /\ is_digest r.
Proof.
  unfold interior_hash. rewrite !assert_digest_bytes.
  destruct (decide (is_digest l)), (decide (is_digest r)); done.
Qed.

(** [d] holds the recorded bodies on the part of the range in [s .. e - 1]. *)
Definition records_in (bodies : list bytes) (d : gmap Z bytes) (lo hi s e : Z) : Prop :=
  forall i, lo <= i <= hi -> s <= i < e -> d !! i = bodies !! Z.to_nat i.

(** A subtree that reconstructs to the honest hash holds the honest records. *)
Lemma reconstruct_sound bodies h s lo hi d wb c a c' :
  let leaves := map lh bodies in
  complete (zlen bodies) h s ->
  _reconstruct_range_subtree (node_pos h s) h s lo hi d wb c = Ok (a, c') ->
  a = node_hash leaves h s ->
  records_in bodies d lo hi s (s + p2 h) \/
  collides (map (cons Byte.x00) bodies ++ tree_preimages leaves h s)
    (reconstruct_preimages (node_pos h s) h s lo hi d wb c).
Proof.
  intros leaves. revert s c a c'. induction h as [|h IH]; intros s c a c' Hc Hr Ha;
    cbn [_reconstruct_range_subtree reconstruct_preimages] in *;
    destruct (outside_range _ s lo hi) eqn:Eo;
    try (apply outside_range_spec in Eo; left; intros i ? ?; lia).
  - destruct (d !! s) as [b|] eqn:Ed; [|done].
    destruct (leaf_hash b) as [x|] eqn:Ex; [|done]. injection Hr as -> ->. subst a.
    destruct Hc as [Hal Hle]. rewrite p2_0 in *. pose proof (aligned_nonneg _ _ Hal).
    destruct (lookup_lt_is_Some_2 bodies (Z.to_nat s)) as [b' Hb']; [unfold zlen in *; lia|].
    assert (lh b = lh b') as Hlh.
    { unfold leaf_hash in Ex. destruct (_assert_digest (PBytes b)) eqn:Eb; [|done].
      apply assert_digest_Ok in Eb as [_ [= ->]]. injection Ex as Ex.
      unfold lh. rewrite Ex. cbn [node_hash]. unfold leaf_at, leaves. by rewrite list_lookup_fmap, Hb'. }
    apply (sha256_eq_or_collides _ _ [Byte.x00 :: b] (map (cons Byte.x00) bodies)) in Hlh
      as [[= ->]|(x & y & Hx & Hy & Hne & Hxy)].
    + left. intros i _ ?. replace i with s by lia. congruence.
    + right. exists y, x. split_and!; [by apply elem_of_app; left|done|by split].
    + by left.
    + apply list_elem_of_fmap. exists b'. split; [done|by eapply list_elem_of_lookup_2].
  - pose proof (complete_left _ _ _ Hc) as Hcl. pose proof (complete_right _ _ _ Hc) as Hcr.
    rewrite !shiftl_p2, left_child_pos, right_child_pos in * by apply Hc.
    destruct (_reconstruct_range_subtree (node_pos h s) _ _ _ _ _ _ _) as [[l c1]|] eqn:El; [|done].
    cbn [fst snd] in Hr.
    destruct (_reconstruct_range_subtree (node_pos h (s + p2 h)) _ _ _ _ _ _ _) as [[r c2]|] eqn:Er; [|done].
    cbn [fst snd] in Hr. destruct (interior_hash l r _) as [x|] eqn:Ex; [|done].
    injection Hr as -> ->. apply interior_hash_digests in Ex as Hdig. destruct Hdig as [Hdl Hdr].
    apply interior_hash_Ok_inv in Ex. rewrite Ha in Ex. cbn [node_hash] in Ex. unfold ih in Ex.
    apply (sha256_eq_or_collides _ _ (tree_preimages leaves (S h) s)
      [interior_preimage l r (node_pos (S h) s)]) in Ex; [|by left|by left].
    destruct Ex as [Ex|Hcol]; [|right; eapply collides_mono; [| |exact Hcol]; set_solver].
    apply interior_preimage_inj in Ex as [<- <-];
      [|apply node_hash_digest; [apply lh_digests|by unfold leaves; rewrite zlen_map]|done].
    destruct (IH s c _ c1 Hcl El eq_refl) as [Hl|Hcol];
      [|right; eapply collides_mono; [| |exact Hcol]; cbn [tree_preimages]; set_solver].
    destruct (IH (s + p2 h) c1 _ c' Hcr Er eq_refl) as [Hr|Hcol];
      [|right; eapply collides_mono; [| |exact Hcol]; cbn [tree_preimages]; set_solver].
    left. intros i ? Hi. rewrite p2_S in Hi.
    destruct (decide (i < s + p2 h)); [apply Hl|apply Hr]; lia.
Qed.

Lemma reconstruct_peaks_sound bodies ms s lo hi d wb c out c' :
  let leaves := map lh bodies in
  ms ⊆ mountains (zlen bodies) -> chain ms s (zlen bodies) ->
  reconstruct_peaks (map peak_of ms) s lo hi d wb c = Ok (out, c') ->
  out = map (fun m => node_hash leaves m.1 m.2) ms ->
  records_in bodies d lo hi s (zlen bodies) \/
  collides (mmr_preimages bodies) (reconstruct_peaks_preimages (map peak_of ms) s lo hi d wb c).
Proof.
  intros leaves. revert s c out c'. induction ms as [|[h t] ms IH]; intros s c out c' Hms Hch Hr Hout;
    cbn [map reconstruct_peaks reconstruct_peaks_preimages] in *.
  { left. intros i ? ?. cbn in Hch. lia. }
  destruct Hch as [-> Hch]. assert ((h, s) ∈ mountains (zlen bodies)) as Hm by (apply Hms; by left).
  pose proof (complete_mountain _ h s (zlen_nonneg bodies) Hm) as Hc.
  change (peak_of (h, s)) with (node_pos h s) in *.
  rewrite height_at_node_pos in * by apply Hc. rewrite Nat2Z.id, shiftl_p2 in *.
  destruct (_reconstruct_range_subtree _ _ _ _ _ _ _ _) as [[x c1]|] eqn:Ex; [|done].
  cbn [fst snd] in *.
  destruct (reconstruct_peaks _ _ _ _ _ _ _) as [[xs c2]|] eqn:Exs; [|done].
  cbn [fst snd] in *. injection Hr as <- <-. injection Hout as Hx Hxs.
  destruct (reconstruct_sound bodies h s lo hi d wb c x c1 Hc Ex Hx) as [Hl|Hcol]; cycle 1.
  { right. eapply collides_mono; [| |exact Hcol]; [|set_solver].
    pose proof (leaf_preimages_sub bodies). pose proof (tree_preimages_sub bodies (h, s) Hm).
    set_solver. }
  destruct (IH (s + p2 h) c1 xs c2) as [Hr|Hcol]; [set_solver|done|done|done| |].
  - left. intros i ? ?. destruct (decide (i < s + p2 h)); [apply Hl|apply Hr]; lia.
  - right. eapply collides_mono; [done| |exact Hcol]. set_solver.
Qed.

Lemma reconstruct_digest pos h s lo hi d wb c x c' :
  Forall is_digest wb -> _reconstruct_range_subtree pos h s lo hi d wb c = Ok (x, c') -> is_digest x.
Proof.
  intros Hwb. destruct h as [|h]; cbn [_reconstruct_range_subtree];
    destruct (outside_range _ _ _ _); intros Hr;
    try (destruct (wb !! c) eqn:E; [|done]; injection Hr as <- _; by eapply Forall_lookup_1).
  - destruct (d !! s); [|done]. unfold leaf_hash in Hr.
    destruct (_assert_digest _); [|done]. injection Hr as <- _. apply sha256_digest.
  - destruct (_reconstruct_range_subtree _ _ _ _ _ _ _ _); [|done].
    destruct (_reconstruct_range_subtree _ _ _ _ _ _ _ _); [|done].
    destruct (interior_hash _ _ _) eqn:Ei; [|done]. injection Hr as <- _.
    apply interior_hash_Ok_inv in Ei as ->. apply sha256_digest.
Qed.

Lemma reconstruct_peaks_digest pks s lo hi d wb c out c' :
  Forall is_digest wb -> reconstruct_peaks pks s lo hi d wb c = Ok (out, c') ->
  Forall is_digest out /\ length out = length pks.
Proof.
  intros Hwb. revert s c out c'. induction pks as [|p pks IH]; intros s c out c' Hr;
    cbn [reconstruct_peaks] in Hr; [by injection Hr as <- <-|].
  destruct (height_at p); [|done].
  destruct (_reconstruct_range_subtree _ _ _ _ _ _ _ _) as [[x c1]|] eqn:Ex; [|done].
  destruct (reconstruct_peaks _ _ _ _ _ _ _) as [[xs c2]|] eqn:Exs; [|done].
  injection Hr as <- <-. apply IH in Exs as [Hxs Hlen]. cbn [fst length]. split; [|by rewrite Hlen].
  constructor; [exact (reconstruct_digest _ _ _ _ _ _ _ _ _ _ Hwb Ex)|done].
Qed.

Lemma assert_digests_bytes vs ds :
  map_result _assert_digest vs = Ok ds -> map as_bytes vs = map Some ds.
Proof.
  revert ds. induction vs as [|v vs IH]; intros ds H; [by injection H as <-|].
  apply map_result_cons_Ok in H as (d & ds' & Hd & Hds & ->).
  apply assert_digest_Ok in Hd as [_ Hd]. cbn [map]. by rewrite Hd, (IH ds').
Qed.

Lemma records_in_slice bodies ds lo hi :
  0 <= lo <= hi -> hi < zlen bodies -> zlen ds = hi - lo + 1 ->
  records_in bodies (digest_by_index lo ds) lo hi 0 (zlen bodies) ->
  ds = take (Z.to_nat (hi - lo + 1)) (drop (Z.to_nat lo) bodies).
Proof.
  unfold zlen. intros Hlo Hhi Hlen Hrec. apply list_eq. intros k.
  destruct (decide (Z.of_nat k < hi - lo + 1)) as [Hk|Hk].
  - rewrite lookup_take_lt, lookup_drop by lia.
    specialize (Hrec (lo + Z.of_nat k) ltac:(lia) ltac:(unfold zlen; lia)).
    rewrite lookup_digest_by_index, decide_True in Hrec by lia.
    replace (Z.to_nat (lo + Z.of_nat k - lo)) with k in Hrec by lia. rewrite Hrec. f_equal. lia.
  - rewrite lookup_take_ge by lia. apply lookup_ge_None. lia.
Qed.
End binding.

(** What an accepted proof consists of. *)
Lemma range_binding_core {HL : Hashlib} (bodies : list bytes)
    (root from_index to_index body_digests : pyval) (proof : RangeProof) :
  as_bytes root = Some (mmr_root (map lh bodies)) ->
  verify_range root (PInt (nc (zlen bodies))) from_index to_index body_digests (Some proof) = true ->
  exists lo hi vs ds,
    from_index = PInt lo /\ to_index = PInt hi /\ 0 <= lo <= hi /\ hi < zlen bodies /\
    as_sequence body_digests = Some vs /\ map as_bytes vs = map Some ds /\
    (ds = take (Z.to_nat (hi - lo + 1)) (drop (Z.to_nat lo) bodies) \/
     collides (mmr_preimages bodies) (range_preimages (nc (zlen bodies)) lo hi ds proof)).
Proof.
  intros Hroot. unfold verify_range, verify_range_body. intros Hv.
  destruct (_assert_digest root) as [rootb|] eqn:Er; [|done].
  destruct (negb _ || negb _); [done|]. destruct (negb _ || negb _ || negb _); [done|].
  cbn [as_strict_int] in Hv.
  destruct (as_strict_int from_index) as [lo|] eqn:Elo; [|done].
  destruct (as_strict_int to_index) as [hi|] eqn:Ehi; [|done].
  destruct from_index; try done. destruct to_index; try done. injection Elo as ->. injection Ehi as ->.
  destruct (as_sequence (rp_witness proof)) as [w|] eqn:Ew; [|done].
  destruct (as_sequence body_digests) as [vs|]; [|done].
  destruct (_ || _); [done|]. destruct ((lo <? 0) || (hi <? lo)) eqn:Eb; [done|].
  destruct (negb _) eqn:Elen; [done|]. zbool.
  destruct (leaf_count _) as [f|] eqn:Elc; [|done]. destruct (f <=? hi) eqn:Ef; [done|]. zbool.
  pose proof (zlen_nonneg bodies). apply leaf_count_Ok_inv in Elc as (Hf & En & Hmax).
  apply nc_inj in En as <-; [|done|done].
  destruct (map_result _assert_digest vs) as [ds|] eqn:Eds; [|done].
  destruct (map_result _ w) as [ws|] eqn:Ews; [|done].
  pose proof (parse_digests_digest _ _ Ews) as Hws.
  destruct (peaks _) as [pks|] eqn:Epk; [|done].
  destruct (reconstruct_peaks _ _ _ _ _ _ _) as [[out c]|] eqn:Erec; [|done]. cbn [fst snd] in Hv.
  destruct (negb _); [done|]. pose proof Epk as Epk0. rewrite peaks_nc in Epk by done.
  injection Epk as <-. apply assert_digest_Ok in Er as [_ Er]. rewrite Er in Hroot. injection Hroot as ->.
  destruct (reconstruct_peaks_digest _ _ _ _ _ _ _ _ _ Hws Erec) as [Hout Lout].
  rewrite root_from_peaks_digests in Hv by done. cbn [catch_false] in Hv. apply bool_decide_eq_true_1 in Hv.
  pose proof (assert_digests_bytes _ _ Eds) as Hds.
  assert (length ds = length vs) as Lds by (by eapply map_result_length).
  exists lo, hi, vs, ds. split_and!; try (done || lia). unfold range_preimages.
  rewrite Ew, Epk0. cbn [from_option]. unfold id. rewrite Ews, Erec. cbn [fst snd].
  apply bag_binding in Hv; [|done|apply peak_hashes_digest, lh_digests|
    by rewrite Lout, length_map, length_peak_hashes, zlen_map].
  destruct Hv as [Hpk|(x & y & Hx & Hy & Hne & Hxy)]; cycle 1.
  { right. exists y, x. split_and!; [by apply bag_preimages_sub|set_solver|by split]. }
  unfold peak_hashes in Hpk. rewrite zlen_map in Hpk.
  destruct (reconstruct_peaks_sound bodies (mountains (zlen bodies)) 0 lo hi _ ws 0 out c
    ltac:(done) (chain_mountains _ Hf) Erec Hpk) as [Hrec|Hcol]; cycle 1.
  { right. eapply collides_mono; [done| |exact Hcol]. set_solver. }
  left. apply (records_in_slice bodies ds lo hi); [lia|lia|unfold zlen in *; lia|done].
Qed.

(** [C11] An accepted range proof names the recorded bodies, every one of them:
    whatever the types of the other arguments, if [verify_range] returns [True]
    at the root and size of an MMR of [bodies], then the bounds are [int]s
    [0 <= lo <= hi < len(bodies)] and the body digests are exactly
    [bodies[lo .. hi]], unless a string the verifier hashed collides with a
    different string hashed to build that MMR. *)
Theorem range_binding {HL : Hashlib} (bodies : list bytes)
    (root from_index to_index body_digests : pyval) (proof : RangeProof) :
  as_bytes root = Some (mmr_root (map lh bodies)) ->
  verify_range root (PInt (nc (zlen bodies))) from_index to_index body_digests (Some proof) = true ->
  exists lo hi vs ds,
    from_index = PInt lo /\ to_index = PInt hi /\ 0 <= lo <= hi /\ hi < zlen bodies /\
    as_sequence body_digests = Some vs /\ map as_bytes vs = map Some ds /\
    (ds = take (Z.to_nat (hi - lo + 1)) (drop (Z.to_nat lo) bodies) \/
     collides (mmr_preimages bodies) (range_preimages (nc (zlen bodies)) lo hi ds proof)).
Proof. apply range_binding_core. Qed.

(** ** Witnesses *)
Lemma demo_records :
  let HL := Sha256.hashlib in
  records_at Demo.leaves 1 (map (be_bytes 32) [20; 30; 40]).
Proof.
  split.
  - apply Forall_map, Forall_forall. intros. unfold is_digest. by rewrite length_be_bytes.
  - intros [|[|[|k]]] d [= <-]; reflexivity.
Qed.

Lemma range_complete_witness :
  let HL := Sha256.hashlib in
  exists proof,
    range_proof Demo.store (PInt 1) (PInt 3) (nc 5) = Ok proof /\
    verify_range (PBytes (mmr_root (prefix_leaves 5 Demo.leaves))) (PInt (nc 5)) (PInt 1) (PInt 3)
      (PList (map PBytes (map (be_bytes 32) [20; 30; 40]))) (Some proof) = true.
Proof.
  intros HL. apply (range_complete Demo.store Demo.leaves 5 1 3); try done; try lia.
  - apply Demo.store_represents.
  - apply demo_records.
Defined.

(** A proof for the last two of three bodies, written out by hand. *)
Definition demo_range_proof : RangeProof :=
  let HL := Sha256.hashlib in
  {| rp_v := PInt 1; rp_kind := PStr (str "range"); rp_size := PInt 4;
     rp_from_index := PInt 1; rp_to_index := PInt 2;
     rp_witness := hex_tuple [lh (be_bytes 32 10)] |}.

Lemma range_binding_witness :
  let HL := Sha256.hashlib in
  let bodies := take 3 Demo.bodies in
  exists lo hi vs ds,
    PInt 1 = PInt lo /\ PInt 2 = PInt hi /\ 0 <= lo <= hi /\ hi < zlen bodies /\
    as_sequence (PTuple (map PBytes (drop 1 bodies))) = Some vs /\ map as_bytes vs = map Some ds /\
    (ds = take (Z.to_nat (hi - lo + 1)) (drop (Z.to_nat lo) bodies) \/
     collides (mmr_preimages bodies)
       (range_preimages (nc (zlen bodies)) lo hi ds demo_range_proof)).
Proof.
  intros HL bodies. apply (range_binding bodies (PBytes (mmr_root (map lh bodies)))).
  - reflexivity.
  - vm_compute. reflexivity.
Defined.

(** ** The root of an MMR commits to its records

    Two logs of the same length with one root record the same body digests,
    unless two different strings hashed to build them collide. *)
Section root.
Context {HL : Hashlib}.
Implicit Types A B : list bytes.

(** The records of [A] and [B] agree from [s] up to [e]. *)
Definition agree A B (s e : Z) : Prop := forall i, s <= i < e -> A !! Z.to_nat i = B !! Z.to_nat i.

Lemma leaf_binding A B s :
  0 <= s < zlen A -> s < zlen B -> leaf_at (map lh A) s = leaf_at (map lh B) s ->
  A !! Z.to_nat s = B !! Z.to_nat s \/ collides (map (cons Byte.x00) A) (map (cons Byte.x00) B).
Proof.
  unfold leaf_at, zlen. intros Hs HB E. rewrite !list_lookup_fmap in E.
  destruct (lookup_lt_is_Some_2 A (Z.to_nat s)) as [a Ha]; [lia|].
  destruct (lookup_lt_is_Some_2 B (Z.to_nat s)) as [b Hb]; [lia|]. rewrite Ha, Hb in *. cbn in E.
  apply (sha256_eq_or_collides _ _ (map (cons Byte.x00) A) (map (cons Byte.x00) B)) in E as [[= ->]|?];
    [by left|by right| |]; apply list_elem_of_fmap; eexists; (split; [done|]);
    eauto using list_elem_of_lookup_2.
Qed.

Lemma tree_binding A B h s :
  complete (zlen A) h s -> complete (zlen B) h s ->
  node_hash (map lh A) h s = node_hash (map lh B) h s ->
  agree A B s (s + p2 h) \/
  collides (map (cons Byte.x00) A ++ tree_preimages (map lh A) h s)
    (map (cons Byte.x00) B ++ tree_preimages (map lh B) h s).
Proof.
  revert s. induction h as [|h IH]; intros s HA HB E.
  - destruct HA as [Hal HA], HB as [_ HB]. rewrite p2_0 in *. pose proof (aligned_nonneg _ _ Hal).
    apply leaf_binding in E as [E|E]; [| |lia|lia].
    + left. intros i Hi. by replace i with s by lia.
    + right. eapply collides_mono; [| |exact E]; set_solver.
  - pose proof (complete_left _ _ _ HA) as HAl. pose proof (complete_right _ _ _ HA) as HAr.
    pose proof (complete_left _ _ _ HB) as HBl. pose proof (complete_right _ _ _ HB) as HBr.
    cbn [node_hash] in E. unfold ih in E.
    apply (sha256_eq_or_collides _ _ (tree_preimages (map lh A) (S h) s)
      (tree_preimages (map lh B) (S h) s)) in E; [|by left..].
    destruct E as [E|E]; [|right; eapply collides_mono; [| |exact E]; set_solver].
    apply interior_preimage_inj in E as [El Er];
      [|apply node_hash_digest; [apply lh_digests|by rewrite zlen_map]..].
    destruct (IH s HAl HBl El) as [Hl|Hl];
      [|right; eapply collides_mono; [| |exact Hl]; cbn [tree_preimages]; set_solver].
    destruct (IH (s + p2 h) HAr HBr Er) as [Hr|Hr];
      [|right; eapply collides_mono; [| |exact Hr]; cbn [tree_preimages]; set_solver].
    left. intros i Hi. rewrite p2_S in Hi. destruct (decide (i < s + p2 h)); [apply Hl|apply Hr]; lia.
Qed.

Lemma peaks_binding A B :
  zlen A = zlen B -> peak_hashes (map lh A) = peak_hashes (map lh B) ->
  A = B \/ collides (mmr_preimages A) (mmr_preimages B).
Proof.
  intros En E. pose proof (zlen_nonneg A) as Hn.
  assert (forall ms : list (nat * Z), (forall m, m ∈ ms -> m ∈ mountains (zlen A)) ->
    (forall h s, (h, s) ∈ ms -> agree A B s (s + p2 h)) \/ collides (mmr_preimages A) (mmr_preimages B)) as Hall.
  { intros ms. induction ms as [|[h s] ms IH]; intros Hms; [left; by intros ? ? ?%not_elem_of_nil|].
    destruct IH as [IH|IH]; [intros m Hm; apply Hms; by right| |by right].
    pose proof (Hms (h, s) ltac:(by left)) as Hm.
    destruct (list_elem_of_lookup_1 _ _ Hm) as [j Hj].
    assert (node_hash (map lh A) h s = node_hash (map lh B) h s) as Eh.
    { apply (f_equal (lookup j)) in E. unfold peak_hashes in E.
      rewrite !list_lookup_fmap, !zlen_map, <- En, Hj in E. by injection E. }
    destruct (tree_binding A B h s) as [Ha|Hc].
    - by apply complete_mountain.
    - rewrite <- En. by apply complete_mountain.
    - done.
    - left. intros h' s' [[= -> ->]|Hin]%elem_of_cons; [done|by apply IH].
    - right. eapply collides_mono; [| |exact Hc].
      + pose proof (tree_preimages_sub A (h, s) Hm). pose proof (leaf_preimages_sub A). set_solver.
      + pose proof (tree_preimages_sub B (h, s) ltac:(by rewrite <- En)). pose proof (leaf_preimages_sub B).
        set_solver. }
  destruct (Hall (mountains (zlen A))) as [Ha|]; [done| |by right]. left.
  apply list_eq. intros i. destruct (decide (Z.of_nat i < zlen A)) as [Hi|Hi].
  - destruct (mountain_of_leaf (zlen A) (Z.of_nat i)) as (h & s & Hm & Hs); [lia|].
    specialize (Ha h s Hm (Z.of_nat i) Hs). by rewrite Nat2Z.id in Ha.
  - rewrite !lookup_ge_None_2; [done| |]; unfold zlen in *; lia.
Qed.

Lemma root_binding_core A B :
  zlen A = zlen B -> mmr_root (map lh A) = mmr_root (map lh B) ->
  A = B \/ collides (mmr_preimages A) (mmr_preimages B).
Proof.
  intros En E. apply bag_binding in E as [E|E];
    [by apply peaks_binding| |apply peak_hashes_digest, lh_digests..|].
  - right. eapply collides_mono; [| |exact E]; apply bag_preimages_sub.
  - by rewrite !length_peak_hashes, !zlen_map, En.
Qed.
End root.
