(* ===== verification/Index.v ===== *)
(** * The MMR index over a log

    [src/python/checkpoint/index.py]: [MmrLedger] folds the records of a
    gapless log into an MMR, in line or by catching up, and proves ranges of
    records against the MMR as it stood at the last of them. *)
From S2P Require Import Prelude Bytes Py Sha256 MmrPos Mmr Commitment MmrSpec MmrProof MmrPath.
From S2P Require Import Inclusion Consistency Range.
From Stdlib Require Import QArith.
Open Scope Z_scope.

(** What the index reads of a record. *)
Record LogRecord := { seq : Z; capsule_id : pystr }.

(** The [LogSource] protocol: any log binding, with its own state. Reading
    does not change it; an append may raise after changing it. *)
Class LogSource (L capsule : Type) := {
  ls_append : L -> capsule -> L * result LogRecord;
  ls_scan : L -> result (list LogRecord)
}.

Record MmrLedger (L St : Type) := {
  _ledger : L;
  _node_store : St;
  _body_digests : list bytes
}.
Arguments _ledger {L St}.
Arguments _node_store {L St}.
Arguments _body_digests {L St}.
Arguments Build_MmrLedger {L St}.

Record SeqRangeProof := {
  srp_from_seq : pyval; srp_to_seq : pyval; srp_size : pyval;
  srp_from_index : pyval; srp_to_index : pyval; srp_witness : pyval
}.

Definition core_range_proof (proof : SeqRangeProof) : RangeProof :=
  {| rp_v := PInt 1; rp_kind := PStr (str "range"); rp_size := srp_size proof;
     rp_from_index := srp_from_index proof; rp_to_index := srp_to_index proof;
     rp_witness := srp_witness proof |}.

(** ** Verification *)

(** [v < w] and [v - 1] on arguments that may not be numbers. *)
Definition py_lt (v w : pyval) : result bool :=
  match as_number v, as_number w with
  | Some q, Some r => Ok (negb (Qle_bool r q))
  | _, _ => Raise TypeError
  end.

Definition py_pred (v : pyval) : result pyval :=
  match v with
  | PInt n => Ok (PInt (n - 1))
  | PBool b => Ok (PInt (Z.b2z b - 1))
  | PFloat q => Ok (PFloat (q - 1))
  | _ => Raise TypeError
  end.

Module Index.
Section verify.
Context {HL : Hashlib}.

Definition verify_range_body (root from_seq to_seq body_digests : pyval)
    (proof : option SeqRangeProof) : result bool :=
  match proof with
  | None => Ok false
  | Some proof =>
      if negb (py_eq (srp_from_seq proof) from_seq) || negb (py_eq (srp_to_seq proof) to_seq)
      then Ok false else
      let! low := py_lt from_seq (PInt 1) in
      if low then Ok false else
      let! reversed := py_lt to_seq from_seq in
      if reversed then Ok false else
      let! size := int_arg (srp_size proof) in
      let! lc := leaf_count size in
      if negb (py_eq (PInt lc) to_seq) then Ok false else
      let core_proof := core_range_proof proof in
      let! from_index := py_pred from_seq in
      let! to_index := py_pred to_seq in
      Ok (Range.verify_range root (srp_size proof) from_index to_index body_digests (Some core_proof))
  end.

Definition verify_range (root from_seq to_seq body_digests : pyval)
    (proof : option SeqRangeProof) : bool :=
  catch_false (verify_range_body root from_seq to_seq body_digests proof).
End verify.

(** ** The ledger *)
Section ledger.
Context {HL : Hashlib} {L capsule St : Type} {LS : LogSource L capsule} {NS : NodeStore St}.
Implicit Types self : MmrLedger L St.

Definition __init__ (ledger : L) (node_store : St) : MmrLedger L St := Build_MmrLedger ledger node_store [].

Definition _index_record self (record : LogRecord) : result (MmrLedger L St) :=
  let expected_seq := zlen (_body_digests self) + 1 in
  if negb (seq record =? expected_seq) then Raise IntegrityError
  else
    let! body_digest := fromhex (capsule_id record) in
    let! leaf := leaf_hash body_digest in
    let! added := add_leaf (_node_store self) leaf in
    Ok (Build_MmrLedger (_ledger self) added.2 (_body_digests self ++ [body_digest])).

Definition append self (c : capsule) : MmrLedger L St * result LogRecord :=
  let '(ledger, r) := ls_append (_ledger self) c in
  let self := Build_MmrLedger ledger (_node_store self) (_body_digests self) in
  match r with
  | Raise e => (self, Raise e)
  | Ok record =>
      match _index_record self record with
      | Raise e => (self, Raise e)
      | Ok self => (self, Ok record)
      end
  end.

Fixpoint sync_loop self (records : list LogRecord) (added : Z) : MmrLedger L St * result Z :=
  match records with
  | [] => (self, Ok added)
  | record :: records =>
      if seq record <=? zlen (_body_digests self) then sync_loop self records added
      else
        match _index_record self record with
        | Raise e => (self, Raise e)
        | Ok self => sync_loop self records (added + 1)
        end
  end.

Definition sync self : MmrLedger L St * result Z :=
  match ls_scan (_ledger self) with
  | Raise e => (self, Raise e)
  | Ok records => sync_loop self records 0
  end.

Definition size self : Z := ns_size (_node_store self).
Definition leaf_count self : Z := zlen (_body_digests self).

Definition peak_hashes_at self (size : Z) : result (list bytes) :=
  let! pks := peaks size in map_result (ns_node (_node_store self)) pks.
Definition root_at self (size : Z) : result bytes :=
  let! hashes := peak_hashes_at self size in root_from_peaks hashes.
Definition root self : result bytes := root_at self (ns_size (_node_store self)).
Definition commitment_at self (size : Z) : result bytes :=
  let! hashes := peak_hashes_at self size in commitment_object hashes.

Definition body_digest self (seq : Z) : result bytes :=
  if (seq <? 1) || (zlen (_body_digests self) <? seq) then Raise IntegrityError
  else py_index (_body_digests self) (seq - 1).

Definition inclusion_proof self (seq : Z) (size : option Z) : result InclusionProof :=
  let target_size := match size with Some size => size | None => ns_size (_node_store self) end in
  MmrProof.inclusion_proof (_node_store self) (seq - 1) target_size.

Definition range_proof self (from_seq to_seq : Z) : result SeqRangeProof :=
  if (from_seq <? 1) || (to_seq <? from_seq) then Raise InvalidArgumentError
  else
    let! size := node_count to_seq in
    let! proof := Range.range_proof (_node_store self) (PInt (from_seq - 1)) (PInt (to_seq - 1)) size in
    Ok {| srp_from_seq := PInt from_seq; srp_to_seq := PInt to_seq; srp_size := PInt size;
          srp_from_index := rp_from_index proof; srp_to_index := rp_to_index proof;
          srp_witness := rp_witness proof |}.

Definition consistency_proof self (size_a : Z) (size_b : option Z) : result ConsistencyProof :=
  let target_size_b := match size_b with Some size_b => size_b | None => ns_size (_node_store self) end in
  MmrProof.consistency_proof (_node_store self) size_a target_size_b.
End ledger.
End Index.

(** ** Invariant *)
Section invariant.
Context {HL : Hashlib} {L capsule St : Type} {LS : LogSource L capsule}
  {NS : NodeStore St} {NSL : NodeStoreLaws St}.
Implicit Types self : MmrLedger L St.

(** The node store is the MMR of the indexed body digests. *)
Definition indexed self : Prop :=
  represents (ns_view (_node_store self)) (map lh (_body_digests self)) /\
  Forall is_digest (_body_digests self).

(** [self'] has indexed some more records than [self]. *)
Definition extends self self' : Prop :=
  indexed self' /\ exists more, _body_digests self' = _body_digests self ++ more.

Lemma extends_refl self self' :
  indexed self -> _node_store self' = _node_store self -> _body_digests self' = _body_digests self ->
  extends self self'.
Proof.
  intros Hi En Eb. split; [unfold indexed; by rewrite En, Eb|]. exists []. by rewrite Eb, app_nil_r.
Qed.

Lemma extends_trans self self' self'' : extends self self' -> extends self' self'' -> extends self self''.
Proof.
  intros [_ [more E]] [Hi [more' E']]. split; [done|]. exists (more ++ more').
  by rewrite E', E, app_assoc.
Qed.

Lemma index_record_extends self record self' :
  indexed self -> Index._index_record self record = Ok self' ->
  extends self self' /\ _ledger self' = _ledger self /\
  exists b, fromhex (capsule_id record) = Ok b /\ _body_digests self' = _body_digests self ++ [b].
Proof.
  intros [Hrep Hd]. unfold Index._index_record. destruct (negb _); [done|].
  destruct (fromhex _) as [b|]; [|done]. unfold leaf_hash. rewrite assert_digest_bytes.
  destruct (decide (is_digest b)) as [Hb|]; [|done]. fold (lh b).
  destruct (add_leaf _ _) as [[[p new] st']|] eqn:Ea; [|done]. intros [= <-].
  pose proof (add_leaf_small _ _ _ _ Hrep Ea) as Hmax.
  destruct (add_leaf_represents (_node_store self) _ (lh b) Hrep (lh_digest b) Hmax) as (new' & E & _ & Hrep').
  rewrite Ea in E. injection E as -> -> ->. split; [|by eauto]. split; [split|]; cbn.
  - by rewrite ns_append_view, map_app.
  - apply Forall_app. split; [done|by repeat constructor].
  - by eauto.
Qed.

Lemma sync_loop_extends self records added :
  indexed self -> extends self (Index.sync_loop self records added).1.
Proof.
  revert self added. induction records as [|record records IH]; intros self added Hi; cbn [Index.sync_loop];
    [by apply extends_refl|].
  destruct (seq record <=? _); [by apply IH|].
  destruct (Index._index_record self record) as [self'|] eqn:E; [|by apply extends_refl].
  apply index_record_extends in E as [He _]; [|done]. eapply extends_trans; [exact He|].
  apply IH. by destruct He.
Qed.

Lemma root_at_eq self f :
  indexed self -> 0 <= f <= zlen (_body_digests self) -> nc f < MAX_MMR_SIZE ->
  Index.root_at self (nc f) = Ok (mmr_root (map lh (take (Z.to_nat f) (_body_digests self)))).
Proof.
  intros [Hrep Hd] Hf Hmax. unfold Index.root_at, Index.peak_hashes_at. rewrite peaks_nc by lia.
  rewrite (read_peaks (_node_store self) (map lh (_body_digests self)) f);
    [|done|by rewrite zlen_map|done].
  rewrite <- peak_hashes_prefix by (by rewrite zlen_map).
  rewrite root_from_peaks_digests
    by apply peak_hashes_digest, prefix_digests, lh_digests.
  unfold prefix_leaves. by rewrite <- firstn_map.
Qed.

(** The records a log of these bodies scans, numbered from [n]. *)
Fixpoint records_from (n : Z) (bodies : list bytes) : list LogRecord :=
  match bodies with
  | [] => []
  | b :: bodies => {| seq := n; capsule_id := hex b |} :: records_from (n + 1) bodies
  end.

Lemma index_record_next self b n :
  indexed self -> is_digest b -> n = zlen (_body_digests self) + 1 ->
  nc (zlen (_body_digests self)) < MAX_MMR_SIZE ->
  exists self', Index._index_record self {| seq := n; capsule_id := hex b |} = Ok self' /\ indexed self' /\
    _ledger self' = _ledger self /\ _body_digests self' = _body_digests self ++ [b].
Proof.
  intros Hi Hb -> Hmax.
  assert (exists self', Index._index_record self
    {| seq := zlen (_body_digests self) + 1; capsule_id := hex b |} = Ok self') as [self' E].
  { unfold Index._index_record. cbn [seq capsule_id]. rewrite Z.eqb_refl, fromhex_hex. cbn [negb].
    rewrite leaf_hash_digest by done.
    destruct (add_leaf_represents (_node_store self) _ (lh b) (proj1 Hi) (lh_digest b)) as (new & -> & _);
      [by rewrite zlen_map|]. eauto. }
  pose proof E as E'. apply index_record_extends in E' as ([Hi' _] & El & b' & Eb & Ed); [|done].
  cbn [capsule_id] in Eb. rewrite fromhex_hex in Eb. injection Eb as <-. by exists self'.
Qed.

Lemma sync_loop_new self bodies added :
  indexed self -> Forall is_digest bodies ->
  nc (zlen (_body_digests self) + zlen bodies) < MAX_MMR_SIZE ->
  exists self',
    Index.sync_loop self (records_from (zlen (_body_digests self) + 1) bodies) added
      = (self', Ok (added + zlen bodies)) /\
    indexed self' /\ _ledger self' = _ledger self /\ _body_digests self' = _body_digests self ++ bodies.
Proof.
  intros Hi Hb. revert self added Hi. induction Hb as [|b bodies Hb Hbs IH]; intros self added Hi Hmax;
    cbn [records_from Index.sync_loop].
  { exists self. by rewrite zlen_nil, Z.add_0_r, app_nil_r. }
  pose proof (zlen_nonneg (_body_digests self)). pose proof (zlen_nonneg bodies). rewrite zlen_cons in Hmax.
  pose proof (nc_mono (zlen (_body_digests self)) (zlen (_body_digests self) + (1 + zlen bodies)) ltac:(lia)).
  cbn [seq]. rw_bool (zlen (_body_digests self) + 1 <=? zlen (_body_digests self)) false.
  destruct (index_record_next self b (zlen (_body_digests self) + 1)) as (self1 & -> & Hi1 & El & Ed);
    [done|done|done|lia|].
  assert (zlen (_body_digests self) + 1 = zlen (_body_digests self1)) as En
    by (rewrite Ed, zlen_app; done).
  destruct (IH self1 (added + 1) Hi1) as (self' & E & Hi' & El' & Ed').
  { rewrite <- En. by replace (zlen (_body_digests self) + 1 + zlen bodies)
      with (zlen (_body_digests self) + (1 + zlen bodies)) by lia. }
  rewrite En. exists self'. rewrite E, zlen_cons. split_and!; [f_equal; f_equal; lia|done|congruence|].
  by rewrite Ed', Ed, <- app_assoc.
Qed.

(** Records already indexed are passed over. *)
Lemma sync_loop_old self bodies rest added n :
  n + zlen bodies <= zlen (_body_digests self) + 1 ->
  Index.sync_loop self (records_from n bodies ++ rest) added = Index.sync_loop self rest added.
Proof.
  revert n. induction bodies as [|b bodies IH]; intros n Hn; [done|]. rewrite zlen_cons in Hn.
  pose proof (zlen_nonneg bodies). cbn [records_from app Index.sync_loop seq].
  rw_bool (n <=? zlen (_body_digests self)) true. apply IH. lia.
Qed.

Lemma records_from_app n l k : records_from n (l ++ k) = records_from n l ++ records_from (n + zlen l) k.
Proof.
  revert n. induction l as [|b l IH]; intros n; cbn [app records_from]; [by rewrite zlen_nil, Z.add_0_r|].
  by rewrite IH, zlen_cons, Z.add_assoc.
Qed.

(** Catching up with the records of [bodies]. *)
Lemma sync_eq self bodies :
  indexed self -> _body_digests self `prefix_of` bodies -> Forall is_digest bodies ->
  nc (zlen bodies) < MAX_MMR_SIZE -> ls_scan (_ledger self) = Ok (records_from 1 bodies) ->
  exists self', Index.sync self = (self', Ok (zlen bodies - zlen (_body_digests self))) /\
    indexed self' /\ _body_digests self' = bodies /\ _ledger self' = _ledger self.
Proof.
  intros Hi [new Eb] Hd Hmax Hscan. rewrite Eb in Hd, Hmax. apply Forall_app in Hd as [_ Hd].
  unfold Index.sync. rewrite Hscan, Eb, records_from_app, sync_loop_old by lia.
  rewrite zlen_app in Hmax. rewrite (Z.add_comm 1).
  destruct (sync_loop_new self new 0 Hi Hd Hmax) as (self' & E & Hi' & El & Ed).
  exists self'. split_and!; [rewrite E, zlen_app; do 2 f_equal; lia|done|by rewrite Ed|done].
Qed.
End invariant.

(** [C13] The index invariant: [append] and [sync], whether they return or
    raise midway, leave the node store equal to the MMR of the indexed body
    digests, and the digests only grow. *)
Theorem ledger_invariant {HL : Hashlib} {L capsule St} {LS : LogSource L capsule}
    {NS : NodeStore St} {NSL : NodeStoreLaws St} (self : MmrLedger L St) (c : capsule) :
  indexed self -> extends self (Index.append self c).1 /\ extends self (Index.sync self).1.
Proof.
  intros Hi. split.
  - unfold Index.append. destruct (ls_append (_ledger self) c) as [ledger [record|e]];
      [|by apply extends_refl].
    set (self1 := Build_MmrLedger ledger _ _).
    assert (extends self self1) as H1 by by apply extends_refl.
    destruct (Index._index_record self1 record) as [self'|] eqn:E; [|done].
    apply index_record_extends in E as [He _]; [|apply H1]. exact (extends_trans _ _ _ H1 He).
  - unfold Index.sync. destruct (ls_scan _); [by apply sync_loop_extends|by apply extends_refl].
Qed.

(** [C14] [sync] catches up: over a log that scans the numbered records of
    [bodies], an index of some first bodies becomes the index of all of them,
    the log is left as it is, the count returned is the number of new ones,
    and a second [sync] adds nothing. *)
Theorem sync_catches_up {HL : Hashlib} {L capsule St} {LS : LogSource L capsule}
    {NS : NodeStore St} {NSL : NodeStoreLaws St} (self : MmrLedger L St) (bodies : list bytes) :
  indexed self -> _body_digests self `prefix_of` bodies -> Forall is_digest bodies ->
  nc (zlen bodies) < MAX_MMR_SIZE -> ls_scan (_ledger self) = Ok (records_from 1 bodies) ->
  exists self',
    Index.sync self = (self', Ok (zlen bodies - zlen (_body_digests self))) /\
    indexed self' /\ _body_digests self' = bodies /\ _ledger self' = _ledger self /\
    Index.sync self' = (self', Ok 0).
Proof.
  intros Hi Hp Hd Hmax Hscan. destruct (sync_eq self bodies Hi Hp Hd Hmax Hscan) as (self' & E & Hi' & Eb & El).
  exists self'. split_and!; [done..|]. unfold Index.sync.
  rewrite El, Hscan, <- (app_nil_r (records_from 1 bodies)), sync_loop_old; [done|]. rewrite Eb. lia.
Qed.

(** Ranges of records verify end to end: an index proves any records
    [from_seq .. to_seq] it holds, and [verify_range] accepts the proof with
    their body digests at the root of the MMR as it stood at [to_seq]. *)
Theorem ledger_range_verifies {HL : Hashlib} {L capsule St} {LS : LogSource L capsule}
    {NS : NodeStore St} {NSL : NodeStoreLaws St} (self : MmrLedger L St) (from_seq to_seq : Z) :
  indexed self -> 1 <= from_seq <= to_seq -> to_seq <= Index.leaf_count self ->
  nc to_seq < MAX_MMR_SIZE ->
  exists root proof,
    Index.root_at self (nc to_seq) = Ok root /\
    Index.range_proof self from_seq to_seq = Ok proof /\
    Index.verify_range (PBytes root) (PInt from_seq) (PInt to_seq)
      (PList (map PBytes (py_slice (_body_digests self) (from_seq - 1) to_seq))) (Some proof) = true.
Proof.
  unfold Index.leaf_count. intros Hi Hfrom Hto Hmax. pose proof Hi as [Hrep Hd].
  set (bodies := _body_digests self) in *. set (ds := py_slice bodies (from_seq - 1) to_seq).
  assert (zlen ds = to_seq - 1 - (from_seq - 1) + 1) as Hlen.
  { unfold ds, py_slice, zlen in *. rewrite length_take, length_drop. lia. }
  assert (records_at (map lh bodies) (from_seq - 1) ds) as Hrec.
  { split; [by apply Forall_take, Forall_drop|]. intros k d Hk. unfold ds, py_slice in Hk.
    apply lookup_take_Some in Hk as [Hk _]. rewrite lookup_drop in Hk. unfold leaf_at.
    replace (Z.to_nat (from_seq - 1 + Z.of_nat k)) with (Z.to_nat (from_seq - 1) + k)%nat by lia.
    by rewrite list_lookup_fmap, Hk. }
  destruct (range_proof_verifies (_node_store self) (map lh bodies) to_seq (from_seq - 1) (to_seq - 1) ds)
    as (proof & Ep & Eq & Hv); [done|lia|lia|by rewrite zlen_map|done|done|done|].
  eexists _, _. split; [apply root_at_eq; [done|unfold bodies in *; lia|done]|].
  unfold Index.range_proof. rewrite (proj2 (orb_false_iff _ _)) by (split; apply Z.ltb_ge; lia).
  rewrite node_count_nc, Ep by lia. split; [reflexivity|].
  unfold Index.verify_range, Index.verify_range_body.
  cbn [srp_from_seq srp_to_seq srp_size srp_from_index srp_to_index srp_witness].
  rewrite !py_eq_int_refl. cbn [negb orb py_lt as_number int_arg as_strict_int py_pred].
  rewrite !Qle_bool_inject. rw_bool (1 <=? from_seq) true. rw_bool (from_seq <=? to_seq) true. cbn [negb].
  rewrite leaf_count_nc by lia. rewrite py_eq_int_refl. cbn [negb catch_false].
  unfold prefix_leaves in Hv. rewrite firstn_map in Hv. fold bodies. rewrite Eq in Hv. exact Hv.
Qed.

(** An accepted range of records is the recorded one: at the root of the
    MMR of [bodies], if the index's [verify_range] returns [True] for records
    [from_seq .. len(bodies)], then the body digests are those of the last
    records from [from_seq], every one of them, or a collision is exhibited. *)
Theorem ledger_range_binding {HL : Hashlib} (bodies : list bytes) (root body_digests : pyval)
    (from_seq : Z) (proof : SeqRangeProof) :
  as_bytes root = Some (mmr_root (map lh bodies)) ->
  Index.verify_range root (PInt from_seq) (PInt (zlen bodies)) body_digests (Some proof) = true ->
  exists vs ds,
    1 <= from_seq <= zlen bodies /\
    as_sequence body_digests = Some vs /\ map as_bytes vs = map Some ds /\
    (ds = drop (Z.to_nat (from_seq - 1)) bodies \/
     collides (mmr_preimages bodies)
       (range_preimages (nc (zlen bodies)) (from_seq - 1) (zlen bodies - 1) ds
         (core_range_proof proof))).
Proof.
  intros Hroot. unfold Index.verify_range, Index.verify_range_body. pose proof (zlen_nonneg bodies).
  destruct (_ || _); [done|]. cbn [py_lt as_number py_pred]. rewrite !Qle_bool_inject.
  destruct (1 <=? from_seq) eqn:E1; [|done]. destruct (from_seq <=? zlen bodies) eqn:E2; [|done]. zbool.
  cbn [negb]. unfold int_arg. destruct (as_strict_int (srp_size proof)) as [n|] eqn:En; [|done].
  destruct (srp_size proof) as [| |n'| | | | | | | | | | | | |] eqn:Es; try done. injection En as ->.
  destruct (leaf_count n) as [f|] eqn:Ef; [|done]. rewrite py_eq_int.
  destruct (f =? zlen bodies) eqn:Efb; [|done]. zbool. subst f. cbn [negb catch_false].
  apply leaf_count_Ok_inv in Ef as (_ & -> & Hmax). intros Hv.
  apply range_binding_core in Hv as (lo & hi & vs & ds & [= <-] & [= <-] & _ & _ & Hvs & Hds & Hor); [|done].
  exists vs, ds. split_and!; [lia|lia|done|done|].
  destruct Hor as [->|Hcol]; [left|right; exact Hcol].
  apply take_ge. rewrite length_drop. unfold zlen. lia.
Qed.

(** ** Witnesses *)
Module DemoIndex.
(** A log that is the list of its bodies. *)
#[export] Instance list_log : LogSource (list bytes) bytes := {
  ls_append l b := (l ++ [b], Ok {| seq := zlen l + 1; capsule_id := hex b |});
  ls_scan l := Ok (records_from 1 l)
}.

(** An index of the first five of the log's six bodies. *)
Definition ledger : MmrLedger (list bytes) MemoryNodeStore :=
  Build_MmrLedger (Demo.bodies ++ [be_bytes 32 60]) Demo.store Demo.bodies.

Lemma ledger_indexed : indexed (HL := Sha256.hashlib) ledger.
Proof. split; [apply Demo.store_represents|apply Demo.bodies_digest]. Qed.

Lemma log_digests : Forall is_digest (Demo.bodies ++ [be_bytes 32 60]).
Proof. apply Forall_app. split; [apply Demo.bodies_digest|by repeat constructor]. Qed.
End DemoIndex.

Lemma ledger_invariant_witness :
  let HL := Sha256.hashlib in
  let LS := DemoIndex.list_log in
  extends DemoIndex.ledger (Index.append DemoIndex.ledger (zeros 32)).1 /\
  extends DemoIndex.ledger (Index.sync DemoIndex.ledger).1.
Proof. intros HL LS. apply ledger_invariant. apply DemoIndex.ledger_indexed. Defined.

Lemma sync_catches_up_witness :
  let HL := Sha256.hashlib in
  let LS := DemoIndex.list_log in
  let bodies := Demo.bodies ++ [be_bytes 32 60] in
  exists self',
    Index.sync DemoIndex.ledger = (self', Ok (zlen bodies - zlen (_body_digests DemoIndex.ledger))) /\
    indexed self' /\ _body_digests self' = bodies /\ _ledger self' = _ledger DemoIndex.ledger /\
    Index.sync self' = (self', Ok 0).
Proof.
  intros HL LS bodies. apply (sync_catches_up DemoIndex.ledger bodies).
  - apply DemoIndex.ledger_indexed.
  - exists [be_bytes 32 60]. reflexivity.
  - apply DemoIndex.log_digests.
  - reflexivity.
  - reflexivity.
Defined.

Lemma ledger_range_verifies_witness :
  let HL := Sha256.hashlib in
  exists root proof,
    Index.root_at DemoIndex.ledger (nc 4) = Ok root /\
    Index.range_proof DemoIndex.ledger 2 4 = Ok proof /\
    Index.verify_range (PBytes root) (PInt 2) (PInt 4)
      (PList (map PBytes (py_slice (_body_digests DemoIndex.ledger) (2 - 1) 4))) (Some proof) = true.
Proof.
  intros HL. apply (ledger_range_verifies (LS := DemoIndex.list_log)); try (reflexivity || lia).
  - apply DemoIndex.ledger_indexed.
  - done.
Defined.

Definition demo_seq_range_proof : SeqRangeProof :=
  let HL := Sha256.hashlib in
  {| srp_from_seq := PInt 2; srp_to_seq := PInt 3; srp_size := PInt 4;
     srp_from_index := PInt 1; srp_to_index := PInt 2;
     srp_witness := hex_tuple [lh (be_bytes 32 10)] |}.

Lemma ledger_range_binding_witness :
  let HL := Sha256.hashlib in
  let bodies := take 3 Demo.bodies in
  exists vs ds,
    1 <= 2 <= zlen bodies /\
    as_sequence (PTuple (map PBytes (drop 1 bodies))) = Some vs /\ map as_bytes vs = map Some ds /\
    (ds = drop (Z.to_nat (2 - 1)) bodies \/
     collides (mmr_preimages bodies)
       (range_preimages (nc (zlen bodies)) (2 - 1) (zlen bodies - 1) ds
         (core_range_proof demo_seq_range_proof))).
Proof.
  intros HL bodies. apply (ledger_range_binding bodies (PBytes (mmr_root (map lh bodies)))).
  - reflexivity.
  - vm_compute. reflexivity.
Defined.
