(* ===== verification/Cll.v ===== *)
(** * The values of the CLL contract

    [src/python/log/__init__.py] and the time and text checks the engine
    shares. A validated value has a typed record; the same class with
    unchecked fields, as a caller may build it, is in [Module Arg]. *)
From S2P Require Import Prelude Bytes Text Py.
Open Scope Z_scope.

(** ** Limits *)
Definition ENTRY_BYTES : Z := 32.
Definition MAX_WITNESSES : Z := 32.
Definition MAX_CHECKPOINT_BYTES : Z := 65536.
Definition MAX_JOURNAL_EVENT_BYTES : Z := 4194304.
Definition MAX_WITNESS_RESPONSE_BYTES : Z := 2097152.
Definition MAX_IDENTIFIER_BYTES : Z := 191.
Definition MAX_REASON_BYTES : Z := 4096.
Definition MAX_SCAN_LIMIT : Z := 1000.
Definition MAX_PORTABLE_INTEGER : Z := 9007199254740991.
Definition MAX_ATTEMPTS : Z := 4294967295.

(** ** Identifiers: [[A-Za-z0-9._:/-]+], at most 191 characters *)
Definition in_range (lo hi c : Z) : bool := (lo <=? c) && (c <=? hi).
Definition identifier_char (c : Z) : bool :=
  in_range 65 90 c || in_range 97 122 c || in_range 48 57 c
  || bool_decide (c ∈ [46; 95; 58; 47; 45]).

Definition is_identifier (s : pystr) : bool :=
  negb (bool_decide (s = [])) && forallb identifier_char s && (zlen s <=? MAX_IDENTIFIER_BYTES).

Definition validate_identifier (value : pyval) : bool :=
  match as_str value with
  | Some s => is_identifier s
  | None => false
  end.

(** [re.compile(r"[0-9a-f]{64}").fullmatch] *)
Definition is_entry_hash (s : pystr) : bool :=
  (zlen s =? 64) && forallb (fun c => in_range 48 57 c || in_range 97 102 c) s.

(** ** Times

    An instant is a whole number of milliseconds since 0001-01-01T00:00:00Z,
    within the years a [datetime] holds. *)
Abbreviation instant := Z.
Definition MAX_INSTANT : Z := 315537897600000.
Definition is_instant (t : instant) : Prop := 0 <= t < MAX_INSTANT.

(** [normalize_time]: naive values and non-datetimes raise [error], as do
    values whose UTC time is outside the years 1..9999; the rest is truncated
    to milliseconds. *)
Definition normalize_time (value : pyval) (error : exn) : result instant :=
  match value with
  | PDatetime (Datetime local (Some offset)) =>
      let utc := local - offset in
      if (0 <=? utc) && (utc <? MAX_INSTANT * 1000) then Ok (utc / 1000) else Raise error
  | _ => Raise error
  end.

(** The value it returns, as a [datetime] in UTC. *)
Definition utc_datetime (t : instant) : pyval := PDatetime (Datetime (t * 1000) (Some 0)).

Lemma normalize_utc t error : is_instant t -> normalize_time (utc_datetime t) error = Ok t.
Proof.
  intros Ht. unfold is_instant, MAX_INSTANT in *. unfold normalize_time, utc_datetime. rewrite Z.sub_0_r.
  rw_bool (0 <=? t * 1000) true. unfold MAX_INSTANT. rw_bool (t * 1000 <? 315537897600000 * 1000) true.
  cbn [andb]. by rewrite Z.div_mul.
Qed.

Lemma normalize_instant v error t : normalize_time v error = Ok t -> is_instant t.
Proof.
  unfold normalize_time, is_instant. destruct v as [| | | | | | | |[local [offset|]]| | | | | | |]; try done.
  destruct (_ && _) eqn:E; [|done]. intros [= <-]. zbool.
  split; [apply Z.div_pos|apply Z.div_lt_upper_bound]; lia.
Qed.

Lemma normalize_raise v error e : normalize_time v error = Raise e -> e = error.
Proof. unfold normalize_time. repeat case_match; congruence. Qed.

(** ** Values *)
Record Entry := { e_seq : Z; e_value : bytes; e_appended_at : instant }.

Inductive outcome := INSERTED | IDEMPOTENT.
Record AppendResult := { ar_entry : Entry; ar_outcome : outcome }.

Record CheckpointState := {
  ck_bytes : bytes; ck_size : Z; ck_indexed_seq : Z; ck_peaks : list bytes
}.

Record WitnessReceipt := {
  wr_bytes : bytes; wr_entry_hash : option pystr; wr_entry_hash_scheme : option pystr;
  wr_leaf_index : option Z; wr_tree_size : option Z
}.

Record WitnessState := {
  ws_witness_id : pystr; ws_checkpoint_size : Z; ws_checkpoint : bytes;
  ws_attempts : Z; ws_next_attempt_at : instant; ws_receipt : option WitnessReceipt;
  ws_permanent : bool; ws_last_error : option pystr
}.

Record CllState := {
  cs_size : Z; cs_nodes : list bytes; cs_indexed_seq : Z;
  cs_first_pending_at : option instant; cs_checkpoint : option CheckpointState;
  cs_witnesses : list WitnessState
}.

(** [CllState()] *)
Definition empty_state : CllState :=
  {| cs_size := 0; cs_nodes := []; cs_indexed_seq := 0; cs_first_pending_at := None;
     cs_checkpoint := None; cs_witnesses := [] |}.

#[export] Instance entry_eq_dec : EqDecision Entry.
Proof. solve_decision. Defined.
#[export] Instance checkpoint_eq_dec : EqDecision CheckpointState.
Proof. solve_decision. Defined.
#[export] Instance receipt_eq_dec : EqDecision WitnessReceipt.
Proof. solve_decision. Defined.
#[export] Instance witness_eq_dec : EqDecision WitnessState.
Proof. solve_decision. Defined.
#[export] Instance state_eq_dec : EqDecision CllState.
Proof. solve_decision. Defined.

(** ** Unchecked arguments

    [Inst a] is an instance of the class, with fields of any type; [Other v]
    is a value of another type, [None] included. A sequence argument is
    [None] when it is neither a tuple nor a list. *)
Inductive arg (A : Type) : Type :=
| Inst (a : A)
| Other (v : pyval).
Arguments Inst {A} a.
Arguments Other {A} v.

Module Arg.
Record AppendInput := { value : pyval; appended_at : pyval }.
Record Entry := { seq : Z; entry_value : pyval; entry_appended_at : pyval }.
Record CheckpointState := {
  bytes_ : pyval; size : pyval; indexed_seq : pyval; peaks : option (list pyval)
}.
Record WitnessReceipt := {
  receipt_bytes : pyval; entry_hash : pyval; entry_hash_scheme : pyval;
  leaf_index : pyval; tree_size : pyval
}.
Record WitnessState := {
  witness_id : pyval; checkpoint_size : pyval; checkpoint : pyval; attempts : pyval;
  next_attempt_at : pyval; receipt : arg WitnessReceipt; permanent : pyval; last_error : pyval
}.
Record CllState := {
  state_size : pyval; nodes : option (list pyval); state_indexed_seq : pyval;
  first_pending_at : pyval; state_checkpoint : arg CheckpointState;
  witnesses : option (list (arg WitnessState))
}.
End Arg.

(** A validated value as the argument a caller passes back. *)
Definition none_or {A} (f : A -> pyval) (o : option A) : pyval :=
  match o with Some a => f a | None => PNone end.
Definition arg_or {A B} (f : A -> B) (o : option A) : arg B :=
  match o with Some a => Inst (f a) | None => Other PNone end.

Definition checkpoint_arg (c : CheckpointState) : Arg.CheckpointState :=
  {| Arg.bytes_ := PBytes (ck_bytes c); Arg.size := PInt (ck_size c);
     Arg.indexed_seq := PInt (ck_indexed_seq c); Arg.peaks := Some (map PBytes (ck_peaks c)) |}.

Definition receipt_arg (r : WitnessReceipt) : Arg.WitnessReceipt :=
  {| Arg.receipt_bytes := PBytes (wr_bytes r); Arg.entry_hash := none_or PStr (wr_entry_hash r);
     Arg.entry_hash_scheme := none_or PStr (wr_entry_hash_scheme r);
     Arg.leaf_index := none_or PInt (wr_leaf_index r);
     Arg.tree_size := none_or PInt (wr_tree_size r) |}.

Definition witness_arg (w : WitnessState) : Arg.WitnessState :=
  {| Arg.witness_id := PStr (ws_witness_id w); Arg.checkpoint_size := PInt (ws_checkpoint_size w);
     Arg.checkpoint := PBytes (ws_checkpoint w); Arg.attempts := PInt (ws_attempts w);
     Arg.next_attempt_at := utc_datetime (ws_next_attempt_at w);
     Arg.receipt := arg_or receipt_arg (ws_receipt w); Arg.permanent := PBool (ws_permanent w);
     Arg.last_error := none_or PStr (ws_last_error w) |}.

Definition state_arg (s : CllState) : Arg.CllState :=
  {| Arg.state_size := PInt (cs_size s); Arg.nodes := Some (map PBytes (cs_nodes s));
     Arg.state_indexed_seq := PInt (cs_indexed_seq s);
     Arg.first_pending_at := none_or utc_datetime (cs_first_pending_at s);
     Arg.state_checkpoint := arg_or checkpoint_arg (cs_checkpoint s);
     Arg.witnesses := Some (map (fun w => Inst (witness_arg w)) (cs_witnesses s)) |}.
