(* ===== verification/Engine.v ===== *)
(** * The transition engine

    [src/python/log/engine.py]: validation, idempotent append, compare-and-set
    rules, witness merge and pending order, and the in-memory [Engine] that
    the memory and JSONL backends hold. Checks that fail raise before any
    change, so an operation returns either an exception or its result with
    the new state. *)
From S2P Require Import Prelude Bytes Text Py Cll.
From stdpp Require Import sorting.
Open Scope Z_scope.

(** ** Helpers *)
Definition binary (value : pyval) : option bytes := as_buffer value.

Definition _width (value : pyval) (minimum maximum : Z) : option bytes :=
  match binary value with
  | Some data => if (minimum <=? zlen data) && (zlen data <=? maximum) then Some data else None
  | None => None
  end.

Definition int_within (value : pyval) (minimum maximum : Z) : option Z :=
  match as_strict_int value with
  | Some n => if (minimum <=? n) && (n <=? maximum) then Some n else None
  | None => None
  end.

Definition or_raise {A} (o : option A) (error : exn) : result A :=
  match o with Some a => Ok a | None => Raise error end.

(** A field that may be [None]. *)
Definition optional {A} (value : pyval) (parse : pyval -> option A) (error : exn) : result (option A) :=
  if is_none value then Ok None
  else match parse value with Some a => Ok (Some a) | None => Raise error end.

(** [int.bit_length] of a non-negative number. *)
Definition bit_length (n : Z) : Z := if n =? 0 then 0 else Z.log2 n + 1.

(** The loop of [mmr_leaf_count]; heights decrease, so [bit_length] rounds
    are enough. *)
Fixpoint leaf_count_loop (fuel : nat) (remaining leaves : Z) (previous : option Z) : option Z :=
  if remaining <=? 0 then Some leaves
  else
    match fuel with
    | O => None
    | S fuel =>
        let height := bit_length (remaining + 1) - 2 in
        if match previous with Some p => p <=? height | None => false end then None
        else leaf_count_loop fuel (remaining - (Z.shiftl 1 (height + 1) - 1))
               (leaves + Z.shiftl 1 height) (Some height)
    end.

Definition mmr_leaf_count (size : Z) : option Z :=
  leaf_count_loop (Z.to_nat (bit_length (size + 1))) size 0 None.

Definition witness_key (row : WitnessState) : pystr * Z := (ws_witness_id row, ws_checkpoint_size row).

(** ** Argument checks *)
Definition check_value (value : pyval) : result bytes :=
  or_raise (_width value ENTRY_BYTES ENTRY_BYTES) InvalidError.

Definition check_append (input : arg Arg.AppendInput) : result (bytes * instant) :=
  match input with
  | Other _ => Raise InvalidError
  | Inst input =>
      let! value := check_value (Arg.value input) in
      let! appended_at := normalize_time (Arg.appended_at input) InvalidError in
      Ok (value, appended_at)
  end.

Definition check_scan (after_seq limit : pyval) : result (Z * Z) :=
  let! after_seq := or_raise (int_within after_seq 0 MAX_PORTABLE_INTEGER) InvalidError in
  let! limit := or_raise (int_within limit 1 MAX_SCAN_LIMIT) InvalidError in
  Ok (after_seq, limit).

Definition check_witness_key (witness_id checkpoint_size : pyval) : result (pystr * Z) :=
  match as_str witness_id, int_within checkpoint_size 1 (2 ^ 64 - 1) with
  | Some id, Some size => if is_identifier id then Ok (id, size) else Raise InvalidError
  | _, _ => Raise InvalidError
  end.

Definition check_pending (now limit : pyval) : result (instant * Z) :=
  let! limit := or_raise (int_within limit 1 MAX_WITNESSES) InvalidError in
  let! now := normalize_time now InvalidError in
  Ok (now, limit).

Definition check_pending_for (witness_id now limit : pyval) : result (pystr * (instant * Z)) :=
  match as_str witness_id with
  | Some id =>
      if is_identifier id then let! r := check_pending now limit in Ok (id, r) else Raise InvalidError
  | None => Raise InvalidError
  end.

Definition check_expected_attempts (expected_attempts : pyval) : result Z :=
  or_raise (int_within expected_attempts 0 MAX_ATTEMPTS) InvalidError.

(** ** Value rules *)
Definition parse_reason (value : pyval) : option pystr :=
  match as_str value with
  | Some s =>
      match utf8_length s with
      | Some length => if length <=? MAX_REASON_BYTES then Some s else None
      | None => None
      end
  | None => None
  end.

Definition parse_entry_hash (value : pyval) : option pystr :=
  match as_str value with
  | Some s => if is_entry_hash s then Some s else None
  | None => None
  end.

Definition parse_scheme (value : pyval) : option pystr :=
  if py_eq value (PStr (str "legacy")) then Some (str "legacy") else None.

Definition parse_position (value : pyval) : option Z := int_within value 0 MAX_PORTABLE_INTEGER.

Definition validate_receipt (receipt : arg Arg.WitnessReceipt) (error : exn)
  : result (option WitnessReceipt) :=
  match receipt with
  | Other v => if is_none v then Ok None else Raise error
  | Inst r =>
      let! bytes_ := or_raise (_width (Arg.receipt_bytes r) 1 MAX_WITNESS_RESPONSE_BYTES) error in
      let! entry_hash := optional (Arg.entry_hash r) parse_entry_hash error in
      let! scheme := optional (Arg.entry_hash_scheme r) parse_scheme error in
      let! leaf_index := optional (Arg.leaf_index r) parse_position error in
      let! tree_size := optional (Arg.tree_size r) parse_position error in
      Ok (Some {| wr_bytes := bytes_; wr_entry_hash := entry_hash; wr_entry_hash_scheme := scheme;
                  wr_leaf_index := leaf_index; wr_tree_size := tree_size |})
  end.

Definition validate_witness (value : arg Arg.WitnessState) (error : exn) : result WitnessState :=
  match value with
  | Other _ => Raise error
  | Inst w =>
      let! witness_id := or_raise (as_str (Arg.witness_id w)) error in
      check! is_identifier witness_id else error in
      let! checkpoint_size := or_raise (int_within (Arg.checkpoint_size w) 1 (2 ^ 64 - 1)) error in
      let! checkpoint := or_raise (_width (Arg.checkpoint w) 1 MAX_CHECKPOINT_BYTES) error in
      let! attempts := or_raise (int_within (Arg.attempts w) 0 MAX_ATTEMPTS) error in
      let! permanent := or_raise (as_bool (Arg.permanent w)) error in
      let! last_error := optional (Arg.last_error w) parse_reason error in
      let! next_attempt_at := normalize_time (Arg.next_attempt_at w) error in
      let! receipt := validate_receipt (Arg.receipt w) error in
      Ok {| ws_witness_id := witness_id; ws_checkpoint_size := checkpoint_size;
            ws_checkpoint := checkpoint; ws_attempts := attempts;
            ws_next_attempt_at := next_attempt_at; ws_receipt := receipt;
            ws_permanent := permanent; ws_last_error := last_error |}
  end.

(** Rows of [witnesses], each key once. *)
Fixpoint validate_rows (rows : list (arg Arg.WitnessState)) (seen : gset (pystr * Z)) (error : exn)
  : result (list WitnessState) :=
  match rows with
  | [] => Ok []
  | row :: rows =>
      let! row := validate_witness row error in
      if bool_decide (witness_key row ∈ seen) then Raise error
      else
        let! witnesses := validate_rows rows ({[witness_key row]} ∪ seen) error in
        Ok (row :: witnesses)
  end.

Definition digest_width (value : pyval) (error : exn) : result bytes :=
  or_raise (_width value ENTRY_BYTES ENTRY_BYTES) error.

Definition validate_checkpoint (checkpoint : arg Arg.CheckpointState) (size indexed_seq : Z) (error : exn)
  : result (option CheckpointState) :=
  match checkpoint with
  | Other v => if is_none v then Ok None else Raise error
  | Inst c =>
      let! data := or_raise (_width (Arg.bytes_ c) 1 MAX_CHECKPOINT_BYTES) error in
      let! ck_size := or_raise (int_within (Arg.size c) 1 size) error in
      let! ck_indexed_seq := or_raise (int_within (Arg.indexed_seq c) 0 indexed_seq) error in
      let! raw_peaks := or_raise (Arg.peaks c) error in
      let! peaks := map_result (fun peak => digest_width peak error) raw_peaks in
      Ok (Some {| ck_bytes := data; ck_size := ck_size; ck_indexed_seq := ck_indexed_seq;
                  ck_peaks := peaks |})
  end.

(** The header rules: the size, the indexed sequence, and the normalized
    first pending time, checkpoint and witnesses. *)
Definition _validate_metadata (value : Arg.CllState) (node_count : pyval) (error : exn)
  : result (Z * Z * option instant * option CheckpointState * list WitnessState) :=
  let! size := or_raise (as_strict_int (Arg.state_size value)) error in
  check! py_eq (Arg.state_size value) node_count else error in
  let! indexed_seq := or_raise (as_strict_int (Arg.state_indexed_seq value)) error in
  check! bool_decide (mmr_leaf_count size = Some indexed_seq) else error in
  let! first_pending_at :=
    if is_none (Arg.first_pending_at value) then Ok None
    else let! t := normalize_time (Arg.first_pending_at value) error in Ok (Some t) in
  let! checkpoint := validate_checkpoint (Arg.state_checkpoint value) size indexed_seq error in
  let! rows := or_raise (Arg.witnesses value) error in
  let! witnesses := validate_rows rows ∅ error in
  Ok (size, indexed_seq, first_pending_at, checkpoint, witnesses).

Definition validate_nodes (value : option (list pyval)) (error : exn) : result (list bytes) :=
  let! nodes := or_raise value error in
  map_result (fun node => digest_width node error) nodes.

Definition validate_state (value : arg Arg.CllState) (error : exn) : result CllState :=
  match value with
  | Other _ => Raise error
  | Inst s =>
      let! raw_nodes := or_raise (Arg.nodes s) error in
      let! (size, indexed_seq, first_pending_at, checkpoint, witnesses) :=
        _validate_metadata s (PInt (zlen raw_nodes)) error in
      let! nodes := validate_nodes (Arg.nodes s) error in
      Ok {| cs_size := size; cs_nodes := nodes; cs_indexed_seq := indexed_seq;
            cs_first_pending_at := first_pending_at; cs_checkpoint := checkpoint;
            cs_witnesses := witnesses |}
  end.

(** ** Transitions *)
Definition _same_expected (checkpoint : option CheckpointState) (expected : option bytes) : bool :=
  match checkpoint, expected with
  | None, None => true
  | Some c, Some e => bool_decide (ck_bytes c = e)
  | _, _ => false
  end.

Definition _check_expected (current : CllState) (expected_size expected_checkpoint : pyval) : result unit :=
  let! expected := optional expected_checkpoint binary InvalidError in
  let! expected_size := or_raise (as_strict_int expected_size) InvalidError in
  if negb (cs_size current =? expected_size) || negb (_same_expected (cs_checkpoint current) expected)
  then Raise ContentionError
  else Ok tt.

(** [{witness_key(row): row for row in rows}] *)
Definition witness_map (rows : list WitnessState) : gmap (pystr * Z) WitnessState :=
  foldl (fun m row => <[witness_key row := row]> m) ∅ rows.

Fixpoint added_rows (existing : gmap (pystr * Z) WitnessState) (rows added : list WitnessState)
  : result (list WitnessState) :=
  match rows with
  | [] => Ok added
  | row :: rows =>
      match existing !! witness_key row with
      | Some stored =>
          if negb (bool_decide (ws_checkpoint stored = ws_checkpoint row)) then Raise ContentionError
          else added_rows existing rows added
      | None => added_rows existing rows (added ++ [row])
      end
  end.

Definition check_checkpoints (old new : option CheckpointState) : result unit :=
  match old, new with
  | Some _, None => Raise ContentionError
  | Some old, Some new =>
      if (ck_size new <? ck_size old) || (ck_indexed_seq new <? ck_indexed_seq old)
      then Raise ContentionError
      else if (ck_size new =? ck_size old)
              && (negb (bool_decide (ck_bytes new = ck_bytes old))
                  || negb (ck_indexed_seq new =? ck_indexed_seq old)
                  || negb (bool_decide (ck_peaks new = ck_peaks old)))
      then Raise ContentionError
      else Ok tt
  | None, _ => Ok tt
  end.

Definition added_witnesses (current next : CllState) : result (list WitnessState) :=
  if cs_indexed_seq next <? cs_indexed_seq current then Raise InvalidError
  else
    let! _ := check_checkpoints (cs_checkpoint current) (cs_checkpoint next) in
    added_rows (witness_map (cs_witnesses current)) (cs_witnesses next) [].

Definition apply_cll (current : CllState) (expected_size expected_checkpoint : pyval)
    (next : arg Arg.CllState) : result CllState :=
  let! _ := _check_expected current expected_size expected_checkpoint in
  let! next := validate_state next InvalidError in
  if (cs_size next <? cs_size current) || (cs_indexed_seq next <? cs_indexed_seq current)
     || negb (bool_decide (take (length (cs_nodes current)) (cs_nodes next) = cs_nodes current))
  then Raise InvalidError
  else
    let! added := added_witnesses current next in
    Ok {| cs_size := cs_size next; cs_nodes := cs_nodes next; cs_indexed_seq := cs_indexed_seq next;
          cs_first_pending_at := cs_first_pending_at next; cs_checkpoint := cs_checkpoint next;
          cs_witnesses := cs_witnesses current ++ added |}.

Definition apply_cll_delta (current : CllState) (expected_size expected_checkpoint : pyval)
    (delta : Arg.CllState) : result CllState :=
  let! _ := _check_expected current expected_size expected_checkpoint in
  let! nodes := validate_nodes (Arg.nodes delta) InvalidError in
  if negb (py_eq (Arg.state_size delta) (PInt (cs_size current + zlen nodes))) then Raise InvalidError
  else
    let! (size, indexed_seq, first_pending_at, checkpoint, witnesses) :=
      _validate_metadata delta (Arg.state_size delta) InvalidError in
    let normalized :=
      {| cs_size := size; cs_nodes := nodes; cs_indexed_seq := indexed_seq;
         cs_first_pending_at := first_pending_at; cs_checkpoint := checkpoint;
         cs_witnesses := witnesses |} in
    let! added := added_witnesses current normalized in
    Ok {| cs_size := size; cs_nodes := cs_nodes current ++ nodes; cs_indexed_seq := indexed_seq;
          cs_first_pending_at := first_pending_at; cs_checkpoint := checkpoint;
          cs_witnesses := cs_witnesses current ++ added |}.

(** The scan for the row to replace, from index [i]. *)
Fixpoint find_witness (i : nat) (rows : list WitnessState) (expected_attempts : Z) (next : WitnessState)
  : result (nat * WitnessState) :=
  match rows with
  | [] => Raise ContentionError
  | row :: rows =>
      if negb (bool_decide (witness_key row = witness_key next)) then
        find_witness (S i) rows expected_attempts next
      else if negb (ws_attempts row =? expected_attempts) then Raise ContentionError
      else if negb (bool_decide (ws_checkpoint row = ws_checkpoint next)) then Raise ContentionError
      else Ok (i, next)
  end.

Definition apply_witness (rows : list WitnessState) (expected_attempts : pyval)
    (next : arg Arg.WitnessState) : result (nat * WitnessState) :=
  let! next := validate_witness next InvalidError in
  let! expected_attempts := check_expected_attempts expected_attempts in
  find_witness 0 rows expected_attempts next.

(** ** Pending deliveries *)

(** The order of the sort keys. *)
Definition sort_key : Type := Z * bytes.
Definition key_le (a b : sort_key) : Prop :=
  a.1 < b.1 \/ (a.1 = b.1 /\ bytes_leb a.2 b.2 = true).
#[export] Instance key_le_dec (a b : sort_key) : Decision (key_le a b).
Proof. unfold key_le. apply _. Defined.

Definition row_key (row : WitnessState) : result sort_key :=
  match utf8_encode (ws_witness_id row) with
  | Some id => Ok (ws_checkpoint_size row, id)
  | None => Raise UnicodeError
  end.

Definition is_due (now : instant) (witness_id : option pystr) (row : WitnessState) : bool :=
  bool_decide (ws_receipt row = None) && negb (ws_permanent row) && (ws_next_attempt_at row <=? now)
  && match witness_id with None => true | Some id => bool_decide (ws_witness_id row = id) end.

Definition keyed_le (a b : sort_key * WitnessState) : Prop := key_le a.1 b.1.
#[export] Instance keyed_le_dec (a b : sort_key * WitnessState) : Decision (keyed_le a b).
Proof. unfold keyed_le. apply _. Defined.

(** [due.sort(key=...)], then [due[:limit]]. *)
Definition pending (rows : list WitnessState) (now : instant) (limit : Z) (witness_id : option pystr)
  : result (list WitnessState) :=
  let due := filter (fun row => is_due now witness_id row = true) rows in
  let! keys := map_result row_key due in
  Ok (take (Z.to_nat limit) (map snd (merge_sort keyed_le (zip keys due)))).

(** ** The engine *)
Record Engine := {
  _entries : list Entry;
  _by_value : gmap bytes Z;
  _state : CllState
}.

Definition snapshot_of : Type := Z * CllState.

(** [except CllError] *)
Definition is_cll_error (e : exn) : bool :=
  bool_decide (e ∈ [NotFoundError; InvalidError; CorruptError; ClosedError; ContentionError;
                    RejectedError; UnsupportedError]).

Module Engine.
Definition __init__ : Engine := {| _entries := []; _by_value := ∅; _state := empty_state |}.

Definition snapshot (self : Engine) : snapshot_of := (zlen (_entries self), _state self).

(** [del self._by_value[entry.value]] for each entry. *)
Fixpoint forget (by_value : gmap bytes Z) (entries : list Entry) : result (gmap bytes Z) :=
  match entries with
  | [] => Ok by_value
  | e :: entries =>
      match by_value !! e_value e with
      | Some _ => forget (delete (e_value e) by_value) entries
      | None => Raise KeyError
      end
  end.

Definition restore (self : Engine) (snapshot : snapshot_of) : result Engine :=
  let count := Z.to_nat snapshot.1 in
  let! by_value := forget (_by_value self) (drop count (_entries self)) in
  Ok {| _entries := take count (_entries self); _by_value := by_value; _state := snapshot.2 |}.

Definition append (self : Engine) (input : arg Arg.AppendInput) : result (AppendResult * Engine) :=
  let! (value, appended_at) := check_append input in
  match _by_value self !! value with
  | Some index =>
      let! entry := py_index (_entries self) index in
      Ok ({| ar_entry := entry; ar_outcome := IDEMPOTENT |}, self)
  | None =>
      let seq := zlen (_entries self) + 1 in
      if MAX_PORTABLE_INTEGER <? seq then Raise InvalidError
      else
        let entry := {| e_seq := seq; e_value := value; e_appended_at := appended_at |} in
        Ok ({| ar_entry := entry; ar_outcome := INSERTED |},
            {| _entries := _entries self ++ [entry]; _by_value := <[value := seq - 1]> (_by_value self);
               _state := _state self |})
  end.

Definition replay_entry (self : Engine) (entry : Arg.Entry) : result Engine :=
  match append self (Inst {| Arg.value := Arg.entry_value entry;
                             Arg.appended_at := Arg.entry_appended_at entry |}) with
  | Raise e => if is_cll_error e then Raise CorruptError else Raise e
  | Ok (r, self) =>
      match ar_outcome r with
      | IDEMPOTENT => Raise CorruptError
      | INSERTED =>
          if negb (e_seq (ar_entry r) =? Arg.seq entry)
             || negb (py_eq (utc_datetime (e_appended_at (ar_entry r))) (Arg.entry_appended_at entry))
          then Raise CorruptError
          else Ok self
      end
  end.

Definition get_entry (self : Engine) (value : pyval) : result Entry :=
  let! value := check_value value in
  match _by_value self !! value with
  | None => Raise NotFoundError
  | Some index => py_index (_entries self) index
  end.

Definition scan_entries (self : Engine) (after_seq limit : pyval) : result (list Entry) :=
  let! (after_seq, limit) := check_scan after_seq limit in
  Ok (py_slice (_entries self) after_seq (after_seq + limit)).

Definition with_state (self : Engine) (state : CllState) : Engine :=
  {| _entries := _entries self; _by_value := _by_value self; _state := state |}.

Definition commit_cll (self : Engine) (expected_size expected_checkpoint : pyval)
    (next : arg Arg.CllState) : result Engine :=
  let! state := apply_cll (_state self) expected_size expected_checkpoint next in
  Ok (with_state self state).

Definition commit_cll_delta (self : Engine) (expected_size expected_checkpoint : pyval)
    (delta : Arg.CllState) : result Engine :=
  let! state := apply_cll_delta (_state self) expected_size expected_checkpoint delta in
  Ok (with_state self state).

Definition delta_since (self : Engine) (snapshot : snapshot_of) : CllState :=
  let before := snapshot.2 in
  let current := _state self in
  let existing := list_to_set (C := gset (pystr * Z)) (map witness_key (cs_witnesses before)) in
  {| cs_size := cs_size current; cs_nodes := drop (length (cs_nodes before)) (cs_nodes current);
     cs_indexed_seq := cs_indexed_seq current; cs_first_pending_at := cs_first_pending_at current;
     cs_checkpoint := cs_checkpoint current;
     cs_witnesses := filter (fun row => witness_key row ∉ existing) (cs_witnesses current) |}.

Definition pending_witnesses (self : Engine) (now limit : pyval) : result (list WitnessState) :=
  let! (now, limit) := check_pending now limit in
  pending (cs_witnesses (_state self)) now limit None.

Definition pending_witnesses_for (self : Engine) (witness_id now limit : pyval)
  : result (list WitnessState) :=
  let! (id, (now, limit)) := check_pending_for witness_id now limit in
  pending (cs_witnesses (_state self)) now limit (Some id).

Definition get_witness (self : Engine) (witness_id checkpoint_size : pyval) : result (option WitnessState) :=
  let! (id, size) := check_witness_key witness_id checkpoint_size in
  Ok (List.find (fun row => bool_decide (ws_witness_id row = id) && (ws_checkpoint_size row =? size))
        (cs_witnesses (_state self))).

Definition commit_witness (self : Engine) (expected_attempts : pyval) (next : arg Arg.WitnessState)
  : result Engine :=
  let rows := cs_witnesses (_state self) in
  let! (index, row) := apply_witness rows expected_attempts next in
  let state := _state self in
  Ok (with_state self
    {| cs_size := cs_size state; cs_nodes := cs_nodes state; cs_indexed_seq := cs_indexed_seq state;
       cs_first_pending_at := cs_first_pending_at state; cs_checkpoint := cs_checkpoint state;
       cs_witnesses := <[index := row]> rows |}).
End Engine.
