(* ===== verification/EngineValid.v ===== *)
(** * Validity of the engine's values

    What the validators promise: a value they return satisfies the contract's
    rules ([valid_witness], [valid_state], ...), a value that satisfies them
    passes unchanged, and a value they refuse raises the given error. *)
From S2P Require Import Prelude Bytes Text Py Cll Engine.
Open Scope Z_scope.

(** ** The rules *)
Definition within (lo hi n : Z) : Prop := lo <= n <= hi.
Definition all_of {A} (P : A -> Prop) (o : option A) : Prop :=
  match o with Some a => P a | None => True end.

Definition valid_reason (s : pystr) : Prop :=
  exists n, utf8_length s = Some n /\ n <= MAX_REASON_BYTES.

Record valid_receipt (r : WitnessReceipt) : Prop := {
  vr_bytes : within 1 MAX_WITNESS_RESPONSE_BYTES (zlen (wr_bytes r));
  vr_hash : all_of (fun h => is_entry_hash h = true) (wr_entry_hash r);
  vr_scheme : all_of (fun s => s = str "legacy") (wr_entry_hash_scheme r);
  vr_leaf : all_of (within 0 MAX_PORTABLE_INTEGER) (wr_leaf_index r);
  vr_tree : all_of (within 0 MAX_PORTABLE_INTEGER) (wr_tree_size r)
}.

Record valid_witness (w : WitnessState) : Prop := {
  vw_id : is_identifier (ws_witness_id w) = true;
  vw_size : within 1 (2 ^ 64 - 1) (ws_checkpoint_size w);
  vw_checkpoint : within 1 MAX_CHECKPOINT_BYTES (zlen (ws_checkpoint w));
  vw_attempts : within 0 MAX_ATTEMPTS (ws_attempts w);
  vw_next : is_instant (ws_next_attempt_at w);
  vw_receipt : all_of valid_receipt (ws_receipt w);
  vw_error : all_of valid_reason (ws_last_error w)
}.

Definition valid_node (n : bytes) : Prop := zlen n = ENTRY_BYTES.

Record valid_checkpoint (size indexed_seq : Z) (c : CheckpointState) : Prop := {
  vc_bytes : within 1 MAX_CHECKPOINT_BYTES (zlen (ck_bytes c));
  vc_size : within 1 size (ck_size c);
  vc_indexed : within 0 indexed_seq (ck_indexed_seq c);
  vc_peaks : Forall valid_node (ck_peaks c)
}.

Record valid_rows (rows : list WitnessState) : Prop := {
  rows_valid : Forall valid_witness rows;
  rows_keys : NoDup (map witness_key rows)
}.

Record valid_metadata (size indexed_seq : Z) (s : CllState) : Prop := {
  vm_size : cs_size s = size;
  vm_indexed : cs_indexed_seq s = indexed_seq;
  vm_mmr : mmr_leaf_count size = Some indexed_seq;
  vm_pending : all_of is_instant (cs_first_pending_at s);
  vm_checkpoint : all_of (valid_checkpoint size indexed_seq) (cs_checkpoint s);
  vm_rows : valid_rows (cs_witnesses s)
}.

Record valid_state (s : CllState) : Prop := {
  vs_metadata : valid_metadata (zlen (cs_nodes s)) (cs_indexed_seq s) s;
  vs_nodes : Forall valid_node (cs_nodes s)
}.

(** ** Fields *)
Ltac take_apart H :=
  repeat match type of H with
  | (match ?e with Ok _ => _ | Raise _ => _ end) = _ =>
      let E := fresh "E" in destruct e eqn:E; [|try discriminate H]
  end.

Lemma or_raise_Ok {A} (o : option A) e a : or_raise o e = Ok a <-> o = Some a.
Proof. destruct o; cbn; split; congruence. Qed.

Lemma or_raise_Raise {A} (o : option A) e e' : or_raise o e = Raise e' -> e' = e.
Proof. destruct o; cbn; congruence. Qed.

Lemma width_Some v lo hi bs :
  _width v lo hi = Some bs <-> as_buffer v = Some bs /\ within lo hi (zlen bs).
Proof.
  unfold _width, binary, within. destruct (as_buffer v) as [b|]; [|naive_solver].
  destruct (_ && _) eqn:E; zbool; split.
  - intros [= <-]. done.
  - intros [? _]. done.
  - done.
  - intros [[= <-] [Hlo Hhi]]. apply Z.leb_le in Hlo, Hhi. by rewrite Hlo, Hhi in E.
Qed.

Lemma int_within_Some v lo hi n :
  int_within v lo hi = Some n <-> v = PInt n /\ within lo hi n.
Proof.
  unfold int_within, within. destruct v; cbn; try naive_solver.
  destruct (_ && _) eqn:E; zbool; split.
  - intros [= <-]. done.
  - naive_solver.
  - done.
  - intros [[= <-] [Hlo Hhi]]. apply Z.leb_le in Hlo, Hhi. by rewrite Hlo, Hhi in E.
Qed.

Lemma width_bytes bs lo hi : within lo hi (zlen bs) -> _width (PBytes bs) lo hi = Some bs.
Proof. intros. by apply width_Some. Qed.

Lemma int_within_int n lo hi : within lo hi n -> int_within (PInt n) lo hi = Some n.
Proof. intros. by apply int_within_Some. Qed.

Lemma optional_raise {A} v (parse : pyval -> option A) e e' :
  optional v parse e = Raise e' -> e' = e.
Proof. unfold optional. repeat case_match; congruence. Qed.

Lemma optional_inv {A} v (parse : pyval -> option A) e o (P : A -> Prop) :
  (forall a, parse v = Some a -> P a) -> optional v parse e = Ok o -> all_of P o.
Proof.
  unfold optional. intros HP. destruct (is_none v); [by intros [= <-]|].
  destruct (parse v) eqn:E; [|done]. intros [= <-]. by apply HP.
Qed.

Lemma optional_none_or {A} (f : A -> pyval) (parse : pyval -> option A) e o (P : A -> Prop) :
  (forall a, is_none (f a) = false) -> (forall a, P a -> parse (f a) = Some a) -> all_of P o ->
  optional (none_or f o) parse e = Ok o.
Proof.
  unfold optional. intros Hf Hp Ho. destruct o as [a|]; [|done]. cbn in *.
  by rewrite Hf, Hp.
Qed.

Lemma digest_width_Ok v e bs : digest_width v e = Ok bs -> valid_node bs.
Proof.
  unfold digest_width. intros H. apply or_raise_Ok, width_Some in H as [_ H].
  unfold within, valid_node in *. lia.
Qed.

Lemma digest_width_bytes bs e : valid_node bs -> digest_width (PBytes bs) e = Ok bs.
Proof. intros H. apply or_raise_Ok, width_bytes. unfold within, valid_node in *. lia. Qed.

Lemma digest_widths l e bs : map_result (fun v => digest_width v e) l = Ok bs -> Forall valid_node bs.
Proof.
  revert bs. induction l as [|v l IH]; intros bs H; [by injection H as <-; constructor|].
  apply map_result_cons_Ok in H as (b & bs' & Hb & Hbs & ->).
  constructor; [by eapply digest_width_Ok|by apply IH].
Qed.

Lemma digest_widths_bytes l e :
  Forall valid_node l -> map_result (fun v => digest_width v e) (map PBytes l) = Ok l.
Proof.
  rewrite map_result_map. induction 1 as [|b l Hb Hl IH]; [done|]. cbn [map_result].
  by rewrite digest_width_bytes, IH.
Qed.

Lemma map_result_raise {A B} (f : A -> result B) l e P :
  (forall a e', f a = Raise e' -> P e') -> map_result f l = Raise e -> P e.
Proof.
  intros Hf. induction l as [|a l IH]; cbn [map_result]; [done|].
  destruct (f a) eqn:E; [|intros [= <-]; eauto]. destruct (map_result f l); [done|]. intros [= <-]. eauto.
Qed.

(** ** Receipts and witness rows *)
Lemma parse_entry_hash_Some v h : parse_entry_hash v = Some h -> is_entry_hash h = true.
Proof. unfold parse_entry_hash. destruct (as_str v); [|done]. by case_match; intros [= <-]. Qed.

Lemma parse_scheme_Some v s : parse_scheme v = Some s -> s = str "legacy".
Proof. unfold parse_scheme. case_match; [|done]. by intros [= <-]. Qed.

Lemma parse_reason_Some v s : parse_reason v = Some s -> valid_reason s.
Proof.
  unfold parse_reason, valid_reason. destruct (as_str v) as [t|]; [|done].
  destruct (utf8_length t) as [n|] eqn:E; [|done]. case_match; [|done]. intros [= <-].
  zbool. eauto.
Qed.

Lemma parse_reason_str s : valid_reason s -> parse_reason (PStr s) = Some s.
Proof.
  intros (n & Hn & Hle). unfold parse_reason. cbn [as_str]. rewrite Hn.
  by replace (n <=? MAX_REASON_BYTES) with true by (symmetry; by apply Z.leb_le).
Qed.

Lemma parse_position_Some v n : parse_position v = Some n -> within 0 MAX_PORTABLE_INTEGER n.
Proof. unfold parse_position. by intros [_ ?]%int_within_Some. Qed.

Lemma validate_receipt_inv v e o : validate_receipt v e = Ok o -> all_of valid_receipt o.
Proof.
  destruct v as [r|v]; cbn [validate_receipt]; [|by case_match; intros [= <-]].
  intros H. take_apart H. injection H as <-. cbn. constructor; cbn [wr_bytes wr_entry_hash
    wr_entry_hash_scheme wr_leaf_index wr_tree_size].
  - by apply or_raise_Ok, width_Some in E as [_ ?].
  - eapply optional_inv, E0. apply parse_entry_hash_Some.
  - eapply optional_inv, E1. apply parse_scheme_Some.
  - eapply optional_inv, E2. apply parse_position_Some.
  - eapply optional_inv, E3. apply parse_position_Some.
Qed.

Lemma validate_receipt_arg o e :
  all_of valid_receipt o -> validate_receipt (arg_or receipt_arg o) e = Ok o.
Proof.
  destruct o as [r|]; [|done]. intros [Hb Hh Hs Hl Ht]. cbn [arg_or validate_receipt receipt_arg
    Arg.receipt_bytes Arg.entry_hash Arg.entry_hash_scheme Arg.leaf_index Arg.tree_size].
  rewrite width_bytes by done. cbn [or_raise].
  rewrite (optional_none_or PStr parse_entry_hash _ _ (fun h => is_entry_hash h = true)); cycle 1.
  { done. } { intros h Hh'. unfold parse_entry_hash. cbn [as_str]. by rewrite Hh'. } { done. }
  rewrite (optional_none_or PStr parse_scheme _ _ (fun s => s = str "legacy")); cycle 1.
  { done. } { by intros s ->. } { done. }
  rewrite !(optional_none_or PInt parse_position _ _ (within 0 MAX_PORTABLE_INTEGER));
    try done; try (intros n Hn; by apply int_within_int).
  by destruct r.
Qed.

Lemma validate_receipt_raise v e e' : validate_receipt v e = Raise e' -> e' = e.
Proof.
  destruct v as [r|v]; cbn [validate_receipt]; [|case_match; congruence].
  repeat (match goal with |- context [match ?x with Ok _ => _ | Raise _ => _ end] =>
    let E := fresh in destruct x eqn:E end;
    [|intros [= <-]; first [by eapply or_raise_Raise|by eapply optional_raise]]). done.
Qed.

Lemma validate_witness_inv v e w : validate_witness v e = Ok w -> valid_witness w.
Proof.
  destruct v as [r|]; [|done]. cbn [validate_witness]. intros H. take_apart H.
  destruct (is_identifier a) eqn:Eid; [|done]. take_apart H. injection H as <-.
  constructor; cbn [ws_witness_id ws_checkpoint_size ws_checkpoint ws_attempts
    ws_next_attempt_at ws_receipt ws_last_error].
  - done.
  - by apply or_raise_Ok, int_within_Some in E0 as [_ ?].
  - by apply or_raise_Ok, width_Some in E1 as [_ ?].
  - by apply or_raise_Ok, int_within_Some in E2 as [_ ?].
  - by eapply normalize_instant.
  - by eapply validate_receipt_inv.
  - eapply optional_inv, E4. apply parse_reason_Some.
Qed.

Lemma validate_witness_arg w e : valid_witness w -> validate_witness (Inst (witness_arg w)) e = Ok w.
Proof.
  intros [Hid Hs Hc Ha Hn Hr He]. cbn [validate_witness witness_arg Arg.witness_id Arg.checkpoint_size
    Arg.checkpoint Arg.attempts Arg.next_attempt_at Arg.receipt Arg.permanent Arg.last_error as_str or_raise].
  rewrite Hid, !int_within_int, width_bytes by done. cbn [or_raise].
  rewrite (optional_none_or PStr parse_reason _ _ valid_reason) by (done || apply parse_reason_str).
  rewrite normalize_utc, validate_receipt_arg by done. by destruct w.
Qed.

Lemma validate_witness_raise v e e' : validate_witness v e = Raise e' -> e' = e.
Proof.
  destruct v as [r|]; cbn [validate_witness]; [|congruence].
  repeat (match goal with |- context [match ?x with Ok _ => _ | Raise _ => _ end] =>
    let E := fresh in destruct x eqn:E end;
    [|intros [= <-]; first [by eapply or_raise_Raise|by eapply optional_raise
      |by eapply normalize_raise|by eapply validate_receipt_raise]];
    try (match goal with |- context [if ?b then _ else _] => destruct b; [|congruence] end)). done.
Qed.

Lemma validate_rows_inv rows seen e ws :
  validate_rows rows seen e = Ok ws ->
  valid_rows ws /\ (forall w, w ∈ ws -> witness_key w ∉ seen).
Proof.
  revert seen ws. induction rows as [|row rows IH]; intros seen ws H; cbn [validate_rows] in H.
  { injection H as <-. split; [by repeat constructor|]. intros w Hw. by apply not_elem_of_nil in Hw. }
  destruct (validate_witness row e) as [w|] eqn:Ew; [|done].
  destruct (bool_decide _) eqn:Ek; [done|]. apply bool_decide_eq_false_1 in Ek.
  destruct (validate_rows rows _ e) as [ws'|] eqn:Er; [|done]. injection H as <-.
  apply IH in Er as [[Hv Hnd] Hseen]. split; [split|].
  - constructor; [by eapply validate_witness_inv|done].
  - cbn [map]. apply NoDup_cons. split; [|done]. intros Hin.
    apply list_elem_of_fmap in Hin as (w' & Heq & Hw'). apply (Hseen w' Hw').
    apply elem_of_union_l, elem_of_singleton. done.
  - intros w' [->|Hw']%elem_of_cons; [done|]. intros Hin. apply (Hseen w' Hw'). by apply elem_of_union_r.
Qed.

Lemma validate_rows_arg ws seen e :
  valid_rows ws -> (forall w, w ∈ ws -> witness_key w ∉ seen) ->
  validate_rows (map (fun w => Inst (witness_arg w)) ws) seen e = Ok ws.
Proof.
  revert seen. induction ws as [|w ws IH]; intros seen [Hv Hnd] Hseen; [done|].
  cbn [map validate_rows] in *. apply Forall_cons in Hv as [Hw Hv]. apply NoDup_cons in Hnd as [Hnin Hnd].
  rewrite validate_witness_arg by done. rewrite bool_decide_false by (apply Hseen; by left).
  rewrite IH; [done|done|]. intros w' Hw' Hin. apply elem_of_union in Hin as [Hin|Hin].
  - apply Hnin. apply elem_of_singleton in Hin. rewrite <- Hin. apply list_elem_of_fmap. eauto.
  - apply (Hseen w'); [by right|done].
Qed.

Lemma validate_rows_raise rows seen e e' : validate_rows rows seen e = Raise e' -> e' = e.
Proof.
  revert seen. induction rows as [|row rows IH]; intros seen H; cbn [validate_rows] in H; [done|].
  destruct (validate_witness row e) eqn:Ew; [|injection H as <-; by eapply validate_witness_raise].
  destruct (bool_decide _); [congruence|].
  destruct (validate_rows rows _ e) eqn:Er; [done|]. injection H as <-. by eapply IH.
Qed.

(** ** Checkpoints and states *)
Lemma validate_checkpoint_inv v size idx e o :
  validate_checkpoint v size idx e = Ok o -> all_of (valid_checkpoint size idx) o.
Proof.
  destruct v as [c|v]; cbn [validate_checkpoint]; [|by case_match; intros [= <-]].
  intros H. take_apart H. injection H as <-.
  constructor; cbn [ck_bytes ck_size ck_indexed_seq ck_peaks].
  - by apply or_raise_Ok, width_Some in E as [_ ?].
  - by apply or_raise_Ok, int_within_Some in E0 as [_ ?].
  - by apply or_raise_Ok, int_within_Some in E1 as [_ ?].
  - by eapply digest_widths.
Qed.

Lemma validate_checkpoint_arg o size idx e :
  all_of (valid_checkpoint size idx) o ->
  validate_checkpoint (arg_or checkpoint_arg o) size idx e = Ok o.
Proof.
  destruct o as [c|]; [|done]. intros [Hb Hs Hi Hp]. cbn [arg_or validate_checkpoint checkpoint_arg
    Arg.bytes_ Arg.size Arg.indexed_seq Arg.peaks or_raise].
  rewrite width_bytes, !int_within_int by done. cbn [or_raise].
  rewrite digest_widths_bytes by done. by destruct c.
Qed.

Lemma digest_width_raise v e e' : digest_width v e = Raise e' -> e' = e.
Proof. apply or_raise_Raise. Qed.

Lemma validate_checkpoint_raise v size idx e e' : validate_checkpoint v size idx e = Raise e' -> e' = e.
Proof.
  destruct v as [c|v]; cbn [validate_checkpoint]; [|case_match; congruence].
  repeat (match goal with |- context [match ?x with Ok _ => _ | Raise _ => _ end] =>
    let E := fresh in destruct x eqn:E end;
    [|intros [= <-]; first [by eapply or_raise_Raise
      |eapply (map_result_raise _ _ _ (fun e' => e' = e)); [|eassumption];
       intros ? ?; by apply digest_width_raise]]). done.
Qed.

Lemma metadata_inv v n e size idx fp ck ws :
  _validate_metadata v n e = Ok (size, idx, fp, ck, ws) ->
  Arg.state_size v = PInt size /\ py_eq (PInt size) n = true /\
  forall nodes, valid_metadata size idx {| cs_size := size; cs_nodes := nodes; cs_indexed_seq := idx;
    cs_first_pending_at := fp; cs_checkpoint := ck; cs_witnesses := ws |}.
Proof.
  unfold _validate_metadata. intros H.
  destruct (or_raise (as_strict_int (Arg.state_size v)) e) as [sz|] eqn:Es; [|done].
  destruct (py_eq _ n) eqn:En; [|done].
  destruct (or_raise (as_strict_int (Arg.state_indexed_seq v)) e) as [ix|]; [|done].
  destruct (bool_decide _) eqn:Em; [|done]. apply bool_decide_eq_true_1 in Em.
  destruct (if is_none _ then _ else _) as [f|] eqn:Ef; [|done].
  destruct (validate_checkpoint _ _ _ _) as [c|] eqn:Ec; [|done].
  destruct (or_raise (Arg.witnesses v) e) as [rows|]; [|done].
  destruct (validate_rows _ _ _) as [w|] eqn:Ew; [|done]. injection H as -> -> -> -> ->.
  apply or_raise_Ok in Es. destruct (Arg.state_size v) eqn:Esz; try done. injection Es as ->.
  split_and!; [done|done|]. intros nodes.
  constructor; cbn [cs_size cs_indexed_seq cs_first_pending_at cs_checkpoint cs_witnesses]; try done.
  - destruct (is_none _); [by injection Ef as <-|].
    destruct (normalize_time _ _) eqn:Et; [|done]. injection Ef as <-. by eapply normalize_instant.
  - by eapply validate_checkpoint_inv.
  - by apply validate_rows_inv in Ew as [Hv _].
Qed.

Lemma metadata_arg s n e :
  valid_metadata (cs_size s) (cs_indexed_seq s) s -> py_eq (PInt (cs_size s)) n = true ->
  _validate_metadata (state_arg s) n e
  = Ok (cs_size s, cs_indexed_seq s, cs_first_pending_at s, cs_checkpoint s, cs_witnesses s).
Proof.
  intros [_ _ Hm Hp Hc Hw] Hn. unfold _validate_metadata, state_arg.
  cbn [Arg.state_size Arg.state_indexed_seq Arg.first_pending_at Arg.state_checkpoint Arg.witnesses
    as_strict_int or_raise].
  rewrite Hn, Hm, bool_decide_true, validate_checkpoint_arg by done.
  rewrite (validate_rows_arg (cs_witnesses s)) by (done || intros; apply not_elem_of_empty).
  destruct (cs_first_pending_at s) as [t|]; cbn [none_or is_none utc_datetime]; [|done].
  cbn in Hp. fold (utc_datetime t). by rewrite normalize_utc.
Qed.

Lemma metadata_raise v n e e' : _validate_metadata v n e = Raise e' -> e' = e.
Proof.
  unfold _validate_metadata.
  destruct (or_raise (as_strict_int (Arg.state_size v)) e) eqn:E1; [|intros [= <-]; by eapply or_raise_Raise].
  destruct (py_eq _ n); [|congruence].
  destruct (or_raise (as_strict_int (Arg.state_indexed_seq v)) e) eqn:E2; [|intros [= <-]; by eapply or_raise_Raise].
  destruct (bool_decide _); [|congruence].
  destruct (if is_none _ then _ else _) eqn:E3; cycle 1.
  { intros [= <-]. destruct (is_none _); [done|]. destruct (normalize_time _ _) eqn:Et; [done|].
    injection E3 as <-. by eapply normalize_raise. }
  destruct (validate_checkpoint _ _ _ _) eqn:E4; [|intros [= <-]; by eapply validate_checkpoint_raise].
  destruct (or_raise (Arg.witnesses v) e) eqn:E5; [|intros [= <-]; by eapply or_raise_Raise].
  destruct (validate_rows _ _ _) eqn:E6; [done|intros [= <-]; by eapply validate_rows_raise].
Qed.

Lemma validate_nodes_inv v e nodes : validate_nodes v e = Ok nodes ->
  Forall valid_node nodes /\ exists raw, v = Some raw /\ length raw = length nodes.
Proof.
  unfold validate_nodes. destruct v as [raw|]; [|done]. cbn [or_raise]. intros H.
  split; [by eapply digest_widths|]. exists raw. split; [done|]. by rewrite (map_result_length _ _ _ H).
Qed.

Lemma validate_nodes_arg nodes e :
  Forall valid_node nodes -> validate_nodes (Some (map PBytes nodes)) e = Ok nodes.
Proof. intros. by apply digest_widths_bytes. Qed.

Lemma validate_nodes_raise v e e' : validate_nodes v e = Raise e' -> e' = e.
Proof.
  unfold validate_nodes. destruct v as [raw|]; cbn [or_raise]; [|congruence].
  apply (map_result_raise _ _ _ (fun e' => e' = e)). intros ? ?. apply digest_width_raise.
Qed.

Lemma validate_state_valid v e s : validate_state v e = Ok s -> valid_state s.
Proof.
  destruct v as [r|]; [|done]. cbn [validate_state]. intros H.
  destruct (or_raise (Arg.nodes r) e) as [raw|] eqn:Er; [|done]. apply or_raise_Ok in Er.
  destruct (_validate_metadata _ _ _) as [[[[[size idx] fp] ck] ws]|] eqn:Em; [|done].
  destruct (validate_nodes _ _) as [nodes|] eqn:En; [|done]. injection H as <-.
  apply metadata_inv in Em as (_ & Hsz & Hm). apply validate_nodes_inv in En as [Hn (raw' & Er' & Hlen)].
  rewrite py_eq_int in Hsz. apply Z.eqb_eq in Hsz. rewrite Er in Er'. injection Er' as <-.
  split; cbn [cs_nodes cs_indexed_seq]; [|done]. replace (zlen nodes) with size by (unfold zlen in *; lia).
  apply Hm.
Qed.

Lemma validate_state_arg s e : valid_state s -> validate_state (Inst (state_arg s)) e = Ok s.
Proof.
  intros [Hm Hn]. cbn [validate_state].
  change (Arg.nodes (state_arg s)) with (Some (map PBytes (cs_nodes s))). cbn [or_raise].
  rewrite zlen_map. pose proof (vm_size _ _ _ Hm) as Hs. rewrite <- Hs in Hm |- *.
  rewrite (metadata_arg s) by (done || apply py_eq_int_refl).
  rewrite validate_nodes_arg by done. by destruct s.
Qed.

Lemma validate_state_raise v e e' : validate_state v e = Raise e' -> e' = e.
Proof.
  destruct v as [r|]; cbn [validate_state]; [|congruence].
  destruct (or_raise (Arg.nodes r) e) eqn:Er; [|intros [= <-]; by eapply or_raise_Raise].
  destruct (_validate_metadata _ _ _) as [[[[[? ?] ?] ?] ?]|] eqn:Em;
    [|intros [= <-]; by eapply metadata_raise].
  destruct (validate_nodes _ _) eqn:En; [done|intros [= <-]; by eapply validate_nodes_raise].
Qed.

Lemma empty_state_valid : valid_state empty_state.
Proof. repeat constructor. Qed.

(** ** A validated state given back *)
Lemma normalize_utc_inv t e t' : normalize_time (utc_datetime t) e = Ok t' -> t' = t.
Proof.
  unfold normalize_time, utc_datetime. destruct (_ && _); [|done]. intros [= <-].
  by rewrite Z.sub_0_r, Z.div_mul.
Qed.

Lemma digest_widths_inv l e bs : map_result (fun v => digest_width v e) (map PBytes l) = Ok bs -> bs = l.
Proof.
  rewrite map_result_map. revert bs. induction l as [|b l IH]; intros bs H; [by injection H as <-|].
  apply map_result_cons_Ok in H as (b' & bs' & Hb & Hbs & ->). apply or_raise_Ok, width_Some in Hb as [[= ->] _].
  f_equal. by apply IH.
Qed.

Lemma checkpoint_arg_inv o size indexed e o' :
  validate_checkpoint (arg_or checkpoint_arg o) size indexed e = Ok o' -> o' = o.
Proof.
  destruct o as [c|]; cbn [arg_or validate_checkpoint checkpoint_arg Arg.bytes_ Arg.size Arg.indexed_seq
    Arg.peaks or_raise is_none]; [|congruence].
  intros H. take_apart H. injection H as <-. apply or_raise_Ok, width_Some in E as [[= <-] _].
  apply or_raise_Ok, int_within_Some in E0 as [[= <-] _], E1 as [[= <-] _].
  apply digest_widths_inv in E2 as ->. by destruct c.
Qed.

Lemma optional_arg_inv {A} (f : A -> pyval) (parse : pyval -> option A) e o o' :
  (forall a, is_none (f a) = false) -> (forall a b, parse (f a) = Some b -> b = a) ->
  optional (none_or f o) parse e = Ok o' -> o' = o.
Proof.
  unfold optional. intros Hf Hp. destruct o as [a|]; cbn [none_or is_none]; [|congruence].
  rewrite Hf. destruct (parse (f a)) eqn:E; [|done]. apply Hp in E as ->. congruence.
Qed.

Lemma parse_position_inv n m : parse_position (PInt n) = Some m -> m = n.
Proof. unfold parse_position. by intros [[= ->] _]%int_within_Some. Qed.

Lemma receipt_arg_inv o e o' : validate_receipt (arg_or receipt_arg o) e = Ok o' -> o' = o.
Proof.
  destruct o as [r|]; cbn [arg_or validate_receipt receipt_arg Arg.receipt_bytes Arg.entry_hash
    Arg.entry_hash_scheme Arg.leaf_index Arg.tree_size is_none]; [|congruence].
  intros H. take_apart H. injection H as <-. apply or_raise_Ok, width_Some in E as [[= <-] _].
  apply optional_arg_inv in E0 as ->; [|done|].
  2: { intros h b. unfold parse_entry_hash. cbn [as_str]. destruct (is_entry_hash h); congruence. }
  apply optional_arg_inv in E1 as ->; [|done|].
  2: { intros h b. unfold parse_scheme, py_eq. cbn. destruct (bool_decide _) eqn:Eb; zbool; congruence. }
  apply optional_arg_inv in E2 as ->; [|done|exact parse_position_inv].
  apply optional_arg_inv in E3 as ->; [|done|exact parse_position_inv]. by destruct r.
Qed.

Lemma witness_arg_inv w e w' : validate_witness (Inst (witness_arg w)) e = Ok w' -> w' = w.
Proof.
  cbn [validate_witness witness_arg Arg.witness_id Arg.checkpoint_size Arg.checkpoint Arg.attempts
    Arg.next_attempt_at Arg.receipt Arg.permanent Arg.last_error as_str as_bool or_raise].
  intros H. destruct (is_identifier _); [|done]. take_apart H. injection H as <-.
  apply or_raise_Ok, int_within_Some in E as [[= <-] _], E1 as [[= <-] _].
  apply or_raise_Ok, width_Some in E0 as [[= <-] _]. apply normalize_utc_inv in E3 as ->.
  apply receipt_arg_inv in E4 as ->. apply optional_arg_inv in E2 as ->; [by destruct w|done|].
  intros t b. unfold parse_reason. cbn [as_str]. destruct (utf8_length t); [|done]. destruct (_ <=? _); congruence.
Qed.

Lemma validate_rows_inv_arg rows seen e ws :
  validate_rows (map (fun w => Inst (witness_arg w)) rows) seen e = Ok ws -> ws = rows.
Proof.
  revert seen ws. induction rows as [|row rows IH]; intros seen ws; cbn [map validate_rows]; [congruence|].
  destruct (validate_witness _ _) as [w|] eqn:Ew; [|done]. apply witness_arg_inv in Ew as ->.
  destruct (bool_decide _); [done|]. destruct (validate_rows _ _ _) as [ws'|] eqn:Er; [|done].
  apply IH in Er as ->. congruence.
Qed.

Lemma state_arg_inv s e s' : validate_state (Inst (state_arg s)) e = Ok s' -> s' = s.
Proof.
  cbn [validate_state state_arg Arg.nodes or_raise]. unfold _validate_metadata.
  cbn [state_arg Arg.state_size Arg.state_indexed_seq Arg.first_pending_at Arg.state_checkpoint Arg.witnesses
    Arg.nodes as_strict_int or_raise]. intros H.
  destruct (py_eq _ _); [|done]. destruct (bool_decide _); [|done].
  destruct (if is_none _ then _ else _) as [fp|] eqn:Ef; [|done].
  destruct (validate_checkpoint _ _ _ _) as [c|] eqn:Ec; [|done].
  destruct (validate_rows _ _ _) as [ws|] eqn:Ew; [|done]. apply validate_rows_inv_arg in Ew as ->.
  destruct (validate_nodes _ _) as [nodes|] eqn:En; [|done]. injection H as <-.
  apply checkpoint_arg_inv in Ec as ->. apply digest_widths_inv in En as ->.
  assert (fp = cs_first_pending_at s) as ->; [|by destruct s].
  destruct (cs_first_pending_at s) as [t|]; cbn [none_or is_none utc_datetime] in Ef; [|congruence].
  fold (utc_datetime t) in Ef. destruct (normalize_time _ _) eqn:Et; [|done]. injection Ef as <-.
  by apply normalize_utc_inv in Et as ->.
Qed.

(** [validate_state] normalizes: whatever it is given, it either raises
    exactly the error class it was asked to raise, or returns a state that
    meets every rule of the contract and that it returns unchanged when given
    back. *)
Theorem validate_state_normalizes (value : arg Arg.CllState) (error : exn) :
  match validate_state value error with
  | Ok s => valid_state s /\ validate_state (Inst (state_arg s)) error = Ok s
  | Raise e => e = error
  end.
Proof.
  destruct (validate_state value error) as [s|e] eqn:E.
  - apply validate_state_valid in E. split; [done|by apply validate_state_arg].
  - by eapply validate_state_raise.
Qed.
