(* ===== verification/EngineCommit.v ===== *)
(** * Compare-and-set commits

    [commit_cll] and its journal form, [commit_witness] and the pending
    order: what each accepts, what it raises, and that every accepted change
    only grows the state. *)
From S2P Require Import Prelude Bytes Text Py MmrPos Cll Engine EngineValid EngineProps.
From stdpp Require Import sorting.
Open Scope Z_scope.

(** ** How states grow *)

(** A checkpoint only moves forward, and never changes at its size. *)
Definition checkpoint_forward (old new : option CheckpointState) : Prop :=
  match old, new with
  | None, _ => True
  | Some _, None => False
  | Some o, Some n =>
      ck_size o <= ck_size n /\ ck_indexed_seq o <= ck_indexed_seq n /\ (ck_size o = ck_size n -> o = n)
  end.

(** A stored row keeps its place, its key and its checkpoint bytes. *)
Definition row_kept (row row' : WitnessState) : Prop :=
  witness_key row = witness_key row' /\ ws_checkpoint row = ws_checkpoint row'.

Definition rows_kept (rows rows' : list WitnessState) : Prop :=
  forall i row, rows !! i = Some row -> exists row', rows' !! i = Some row' /\ row_kept row row'.

Record grows (s s' : CllState) : Prop := {
  g_nodes : cs_nodes s `prefix_of` cs_nodes s';
  g_indexed : cs_indexed_seq s <= cs_indexed_seq s';
  g_checkpoint : checkpoint_forward (cs_checkpoint s) (cs_checkpoint s');
  g_rows : rows_kept (cs_witnesses s) (cs_witnesses s')
}.

#[export] Instance grows_preorder : PreOrder grows.
Proof.
  split.
  - intros s. split; [done|lia| |].
    + by destruct (cs_checkpoint s); cbn; [split_and!; (lia || done)|].
    + intros i row Hi. by exists row.
  - intros s1 s2 s3 [Hn Hi Hc Hr] [Hn' Hi' Hc' Hr']. split; [by etransitivity|lia| |].
    + destruct (cs_checkpoint s1) as [c1|], (cs_checkpoint s2) as [c2|], (cs_checkpoint s3) as [c3|];
        try done. destruct Hc as (? & ? & He), Hc' as (? & ? & He'). split_and!; [lia|lia|].
      intros E. rewrite He by lia. apply He'. lia.
    + intros i row Hrow. apply Hr in Hrow as (row' & Hrow' & [Hk Hb]).
      apply Hr' in Hrow' as (row'' & Hrow'' & [Hk' Hb']). exists row''. split; [done|].
      split; congruence.
Qed.

Lemma rows_kept_app rows added : rows_kept rows (rows ++ added).
Proof. intros i row Hi. exists row. split; [by apply lookup_app_l_Some|done]. Qed.

(** States that differ at most in their witness rows. *)
Definition same_index (s s' : CllState) : Prop :=
  cs_size s = cs_size s' /\ cs_nodes s = cs_nodes s' /\ cs_indexed_seq s = cs_indexed_seq s' /\
  cs_first_pending_at s = cs_first_pending_at s' /\ cs_checkpoint s = cs_checkpoint s'.

#[export] Instance same_index_equiv : Equivalence same_index.
Proof.
  split.
  - intros s. by split_and!.
  - intros s s' (? & ? & ? & ? & ?). by split_and!.
  - intros s s' s'' (? & ? & ? & ? & ?) (? & ? & ? & ? & ?). split_and!; congruence.
Qed.

(** ** The witness merge *)
Lemma witness_map_snoc rows row : witness_map (rows ++ [row]) = <[witness_key row := row]> (witness_map rows).
Proof. unfold witness_map. by rewrite foldl_app. Qed.

Lemma witness_map_lookup rows k :
  match witness_map rows !! k with
  | Some row => row ∈ rows /\ witness_key row = k
  | None => k ∉ map witness_key rows
  end.
Proof.
  induction rows as [|row rows IH] using rev_ind.
  { unfold witness_map. cbn. rewrite lookup_empty. apply not_elem_of_nil. }
  rewrite witness_map_snoc, map_app. destruct (decide (witness_key row = k)) as [<-|Hne].
  - rewrite lookup_insert_eq. split; [|done]. apply elem_of_app. right. by apply list_elem_of_singleton.
  - rewrite lookup_insert_ne by done. destruct (witness_map rows !! k) as [r|].
    + destruct IH as [Hr Hk]. split; [|done]. apply elem_of_app. by left.
    + cbn [map]. intros [?|?%list_elem_of_singleton]%elem_of_app; congruence.
Qed.

(** The rows of [next] with keys not in [current]. *)
Definition new_rows (current next : list WitnessState) : list WitnessState :=
  filter (fun row => witness_key row ∉ map witness_key current) next.

(** Rows with one key carry the same checkpoint bytes. *)
Definition rows_agree (current next : list WitnessState) : Prop :=
  forall row row', row ∈ current -> row' ∈ next -> witness_key row = witness_key row' ->
  ws_checkpoint row = ws_checkpoint row'.

Lemma added_rows_eq current next acc :
  NoDup (map witness_key current) ->
  match added_rows (witness_map current) next acc with
  | Ok l => rows_agree current next /\ l = acc ++ new_rows current next
  | Raise e => e = ContentionError /\ ~ rows_agree current next
  end.
Proof.
  intros Hnd. revert acc. induction next as [|row next IH]; intros acc; cbn [added_rows].
  { split; [intros ? ? _ []%elem_of_nil|by rewrite app_nil_r]. }
  pose proof (witness_map_lookup current (witness_key row)) as Hl. unfold new_rows in *.
  destruct (witness_map current !! witness_key row) as [st|].
  - destruct Hl as [Hst Hk]. destruct (bool_decide _) eqn:Eb; cbn [negb]; zbool.
    + specialize (IH acc). destruct (added_rows _ next acc) as [l|e].
      * destruct IH as [Ha ->]. split.
        -- intros r r' Hr [->|Hr']%elem_of_cons Heq; [|by apply Ha].
           assert (r = st) as ->; [|done]. apply list_elem_of_lookup in Hr as [i Hi], Hst as [j Hj].
           assert (i = j) as ->; [|congruence].
           apply (NoDup_lookup (map witness_key current) i j (witness_key r)); [done| |];
             rewrite list_lookup_fmap, ?Hi, ?Hj; cbn; congruence.
        -- rewrite filter_cons_False; [done|]. intros Hn. apply Hn. rewrite <- Hk.
           apply list_elem_of_fmap. by exists st.
      * destruct IH as [-> Hn]. split; [done|]. intros Ha. apply Hn. intros r r' Hr Hr'. apply Ha; [done|by right].
    + split; [done|]. intros Ha. apply Eb. apply (Ha st row); [done|by left|done].
  - specialize (IH (acc ++ [row])). destruct (added_rows _ next _) as [l|e].
    + destruct IH as [Ha ->]. split.
      * intros r r' Hr [->|Hr']%elem_of_cons Heq; [|by apply Ha]. exfalso. apply Hl.
        rewrite <- Heq. apply list_elem_of_fmap. by exists r.
      * rewrite filter_cons_True by done. by rewrite <- app_assoc.
    + destruct IH as [-> Hn]. split; [done|]. intros Ha. apply Hn. intros r r' Hr Hr'. apply Ha; [done|by right].
Qed.

Lemma check_checkpoints_eq old new :
  match check_checkpoints old new with
  | Ok _ => checkpoint_forward old new
  | Raise e => e = ContentionError /\ ~ checkpoint_forward old new
  end.
Proof.
  destruct old as [o|], new as [n|]; cbn; try done; [|tauto].
  destruct (_ || _) eqn:E1.
  { split; [done|]. intros (? & ? & _). apply orb_true_iff in E1 as [?%Z.ltb_lt|?%Z.ltb_lt]; lia. }
  zbool. destruct (ck_size n =? ck_size o) eqn:E2; cbn [andb]; zbool; [|split_and!; (lia || done)].
  destruct (negb _ || _ || _) eqn:Ed.
  - split; [done|]. intros (_ & _ & He). rewrite (He (eq_sym E2)), Z.eqb_refl, !bool_decide_true in Ed by done. done.
  - zbool. split_and!; [lia|lia|]. intros _. destruct o, n; cbn in *; congruence.
Qed.

Lemma added_witnesses_eq current next :
  NoDup (map witness_key (cs_witnesses current)) -> cs_indexed_seq current <= cs_indexed_seq next ->
  match added_witnesses current next with
  | Ok l => checkpoint_forward (cs_checkpoint current) (cs_checkpoint next) /\
      rows_agree (cs_witnesses current) (cs_witnesses next) /\
      l = new_rows (cs_witnesses current) (cs_witnesses next)
  | Raise e => e = ContentionError /\
      ~ (checkpoint_forward (cs_checkpoint current) (cs_checkpoint next) /\
         rows_agree (cs_witnesses current) (cs_witnesses next))
  end.
Proof.
  intros Hnd Hi. unfold added_witnesses. rw_bool (cs_indexed_seq next <? cs_indexed_seq current) false.
  pose proof (check_checkpoints_eq (cs_checkpoint current) (cs_checkpoint next)) as Hc.
  destruct (check_checkpoints _ _); [|tauto].
  pose proof (added_rows_eq (cs_witnesses current) (cs_witnesses next) [] Hnd) as Hr.
  destruct (added_rows _ _ _); [tauto|]. destruct Hr as [-> Hr]. split; [done|]. tauto.
Qed.

(** ** [commit_cll] *)

(** The compare-and-set guard, and its arguments' types. *)
Definition expected_ok (current : CllState) (expected_size expected_checkpoint : pyval) : Prop :=
  expected_size = PInt (cs_size current) /\
  match cs_checkpoint current with
  | None => expected_checkpoint = PNone
  | Some c => as_buffer expected_checkpoint = Some (ck_bytes c)
  end.

Definition expected_typed (expected_size expected_checkpoint : pyval) : Prop :=
  (exists n, expected_size = PInt n) /\
  (expected_checkpoint = PNone \/ exists b, as_buffer expected_checkpoint = Some b).

Lemma check_expected_eq current es ec :
  match _check_expected current es ec with
  | Ok _ => expected_ok current es ec
  | Raise e => ~ expected_ok current es ec /\
      (e = ContentionError /\ expected_typed es ec \/ e = InvalidError /\ ~ expected_typed es ec)
  end.
Proof.
  unfold _check_expected, expected_ok, expected_typed, optional, binary.
  assert (is_none ec = true <-> ec = PNone) as Hnone by (destruct ec; cbn; split; congruence).
  destruct (is_none ec) eqn:En.
  - assert (ec = PNone) as -> by tauto. destruct es; cbn;
      try (split; [naive_solver|right; split; [done|naive_solver]]).
    destruct (cs_size current =? n) eqn:E; zbool; destruct (cs_checkpoint current); cbn;
      try (split; [naive_solver|left; naive_solver]); naive_solver.
  - assert (ec <> PNone) by naive_solver. destruct (as_buffer ec) as [b|] eqn:Eb.
    + destruct es; cbn; try (split; [naive_solver|right; split; [done|naive_solver]]).
      destruct (cs_size current =? n) eqn:E; zbool; destruct (cs_checkpoint current) as [c|]; cbn;
        try (split; [naive_solver|left; naive_solver]).
      destruct (bool_decide _) eqn:Ec; zbool; cbn; [naive_solver|split; [naive_solver|left; naive_solver]].
    + split; [|right; split; [done|naive_solver]]. intros [_ H']. destruct (cs_checkpoint current); congruence.
Qed.

Definition append_only (current next : CllState) : Prop :=
  cs_nodes current `prefix_of` cs_nodes next /\ cs_indexed_seq current <= cs_indexed_seq next.

(** What makes an append-only state conflict with the stored one. *)
Definition compatible (current next : CllState) : Prop :=
  checkpoint_forward (cs_checkpoint current) (cs_checkpoint next) /\
  rows_agree (cs_witnesses current) (cs_witnesses next).

(** The committed state: the new one, with the stored witness rows first. *)
Definition merged (current next : CllState) : CllState :=
  {| cs_size := cs_size next; cs_nodes := cs_nodes next; cs_indexed_seq := cs_indexed_seq next;
     cs_first_pending_at := cs_first_pending_at next; cs_checkpoint := cs_checkpoint next;
     cs_witnesses := cs_witnesses current ++ new_rows (cs_witnesses current) (cs_witnesses next) |}.

Lemma NoDup_map_filter {A B} (f : A -> B) (P : A -> Prop) `{forall x, Decision (P x)} (l : list A) :
  NoDup (map f l) -> NoDup (map f (filter P l)).
Proof.
  induction l as [|x l IH]; [done|]. cbn [map]. intros [Hx Hnd]%NoDup_cons.
  destruct (decide (P x)); [rewrite filter_cons_True by done|rewrite filter_cons_False by done; auto].
  cbn [map]. apply NoDup_cons. split; [|auto]. intros (y & Hxy & Hy)%list_elem_of_fmap.
  apply Hx. rewrite Hxy. apply list_elem_of_fmap. exists y. apply list_elem_of_filter in Hy as [_ Hy]. done.
Qed.

Lemma merged_rows_valid current next :
  valid_rows current -> valid_rows next -> valid_rows (current ++ new_rows current next).
Proof.
  intros [Hv Hnd] [Hv' Hnd']. split.
  - apply Forall_app. split; [done|].
    apply Forall_forall. intros row [_ Hrow]%list_elem_of_filter. by eapply Forall_forall in Hrow.
  - rewrite map_app. apply NoDup_app. split_and!; [done| |by apply NoDup_map_filter].
    intros k Hk Hin. apply list_elem_of_fmap in Hin as (row & -> & Hrow).
    by apply list_elem_of_filter in Hrow as [Hn _].
Qed.

Lemma merged_valid current next : valid_state current -> valid_state next -> valid_state (merged current next).
Proof.
  intros [Hm _] [[? ? ? ? ? Hr] Hn]. split; [|done]. split; try done.
  cbn [merged cs_witnesses]. apply merged_rows_valid; [apply Hm|done].
Qed.

Lemma append_only_check current next :
  valid_state current -> valid_state next ->
  (cs_size next <? cs_size current) || (cs_indexed_seq next <? cs_indexed_seq current)
  || negb (bool_decide (take (length (cs_nodes current)) (cs_nodes next) = cs_nodes current)) = false
  <-> append_only current next.
Proof.
  intros [Hm _] [Hm' _]. pose proof (vm_size _ _ _ Hm) as Hs. pose proof (vm_size _ _ _ Hm') as Hs'.
  unfold append_only. split.
  - intros E. zbool. split; [|done]. eexists. rewrite <- (take_drop (length (cs_nodes current)) (cs_nodes next)) at 1.
    by f_equal.
  - intros [[k Hk] Hi]. rewrite Hs, Hs', Hk, zlen_app. pose proof (zlen_nonneg k).
    rewrite take_app_length, bool_decide_true by done.
    rw_bool (zlen (cs_nodes current) + zlen k <? zlen (cs_nodes current)) false.
    by rw_bool (cs_indexed_seq next <? cs_indexed_seq current) false.
Qed.

Lemma merged_grows current next :
  append_only current next -> compatible current next -> grows current (merged current next).
Proof.
  intros [Hn Hi] [Hf _]. split; [done|done|done|]. apply rows_kept_app.
Qed.

Lemma added_ok current next :
  valid_state current -> append_only current next ->
  match added_witnesses current next with
  | Ok l => compatible current next /\ l = new_rows (cs_witnesses current) (cs_witnesses next)
  | Raise e => e = ContentionError /\ ~ compatible current next
  end.
Proof.
  intros Hc [_ Hi].
  pose proof (added_witnesses_eq current next (rows_keys _ (vm_rows _ _ _ (vs_metadata _ Hc))) Hi) as Hw.
  unfold compatible. by destruct (added_witnesses current next); [destruct Hw as (? & ? & ?)|].
Qed.

(** [apply_cll] with its guards as propositions. *)
Lemma apply_cll_inv current es ec next u :
  valid_state current -> apply_cll current es ec next = Ok u ->
  expected_ok current es ec /\
  exists s, validate_state next InvalidError = Ok s /\ append_only current s /\ compatible current s /\
    u = merged current s /\ valid_state u /\ grows current u.
Proof.
  intros Hc. unfold apply_cll. pose proof (check_expected_eq current es ec) as He.
  destruct (_check_expected _ _ _); [|done]. destruct (validate_state next InvalidError) as [s|] eqn:Ev; [|done].
  apply validate_state_valid in Ev as Hs. pose proof (append_only_check current s Hc Hs) as Ha.
  destruct (_ || _ || _); [done|]. assert (append_only current s) as Hao by tauto.
  pose proof (added_ok current s Hc Hao) as Hw. destruct (added_witnesses current s); [|done].
  destruct Hw as [Hcomp ->]. intros [= <-]. split; [done|]. exists s. fold (merged current s).
  split_and!; try done; [by apply merged_valid|by apply merged_grows].
Qed.

(** [commit_cll] on every branch. It succeeds exactly when the caller's
    expected size and checkpoint bytes are the stored ones, the next state is
    valid and append-only, its checkpoint does not move back and no stored
    witness row's checkpoint changes; the stored state is then the next one
    with the stored rows kept first, it is valid and it only grew. A stale or
    conflicting caller gets [ContentionError], a malformed one
    [InvalidError]. *)
Theorem apply_cll_correct (current : CllState) (expected_size expected_checkpoint : pyval)
    (next : arg Arg.CllState) :
  valid_state current ->
  match apply_cll current expected_size expected_checkpoint next with
  | Ok u => expected_ok current expected_size expected_checkpoint /\
      exists s, validate_state next InvalidError = Ok s /\ append_only current s /\ compatible current s /\
        u = merged current s /\ valid_state u /\ grows current u
  | Raise ContentionError => expected_typed expected_size expected_checkpoint /\
      (expected_ok current expected_size expected_checkpoint ->
       exists s, validate_state next InvalidError = Ok s /\ append_only current s /\ ~ compatible current s)
  | Raise InvalidError => expected_typed expected_size expected_checkpoint ->
      expected_ok current expected_size expected_checkpoint /\
      forall s, validate_state next InvalidError = Ok s -> ~ append_only current s
  | Raise _ => False
  end.
Proof.
  intros Hc. destruct (apply_cll _ _ _ _) as [u|e] eqn:Eu; [by eapply apply_cll_inv|].
  unfold apply_cll in Eu. pose proof (check_expected_eq current expected_size expected_checkpoint) as He.
  destruct (_check_expected _ _ _) as [[]|e'];
    [|injection Eu as ->; destruct He as [He [[-> Ht]|[-> Ht]]]; tauto].
  assert (expected_typed expected_size expected_checkpoint) as Ht.
  { destruct He as [-> He]. split; [by eexists|]. destruct (cs_checkpoint current); [right; by eexists|by left]. }
  destruct (validate_state next InvalidError) as [s|e'] eqn:Ev.
  2: { injection Eu as ->. by apply validate_state_raise in Ev as ->. }
  apply validate_state_valid in Ev as Hs. pose proof (append_only_check current s Hc Hs) as Ha.
  destruct (_ || _ || _).
  { injection Eu as <-. intros _. split; [done|]. intros s' [= <-] Hao. apply Ha in Hao. done. }
  assert (append_only current s) as Hao by tauto. pose proof (added_ok current s Hc Hao) as Hw.
  destruct (added_witnesses current s); [done|]. injection Eu as ->. destruct Hw as [-> Hw].
  split; [done|]. intros _. by exists s.
Qed.

(** ** The journal's delta form *)

(** A delta that [apply_cll_delta] accepts: the nodes and rows it adds. *)
Lemma apply_cll_delta_inv current es ec delta u :
  valid_state current -> apply_cll_delta current es ec delta = Ok u -> valid_state u /\ grows current u.
Proof.
  intros Hc. unfold apply_cll_delta. destruct (_check_expected _ _ _); [|done].
  destruct (validate_nodes _ _) as [nodes|] eqn:En; [|done]. apply validate_nodes_inv in En as [Hn _].
  destruct (py_eq (Arg.state_size delta) _) eqn:Es; [|done]. cbn [negb].
  destruct (_validate_metadata _ _ _) as [[[[[size idx] fp] ck] ws]|] eqn:Em; [|done].
  apply metadata_inv in Em as (Hsz & _ & Hm). specialize (Hm (cs_nodes current ++ nodes)).
  rewrite Hsz, py_eq_int in Es. zbool. pose proof (vm_size _ _ _ (vs_metadata _ Hc)) as Hcs.
  set (next := {| cs_size := size; cs_nodes := nodes; cs_indexed_seq := idx; cs_first_pending_at := fp;
                  cs_checkpoint := ck; cs_witnesses := ws |}).
  destruct (decide (cs_indexed_seq current <= idx)).
  2: { unfold added_witnesses. cbn [next cs_indexed_seq]. by rw_bool (idx <? cs_indexed_seq current) true. }
  pose proof (added_witnesses_eq current next (rows_keys _ (vm_rows _ _ _ (vs_metadata _ Hc))) ltac:(done)) as Hw.
  destruct (added_witnesses current next) as [added|]; [|done]. destruct Hw as (Hf & Hr & ->). intros [= <-].
  assert (valid_rows ws) as Hws by apply Hm. split.
  - split; cbn [cs_nodes cs_indexed_seq].
    + rewrite zlen_app, <- Hcs, <- Es. destruct Hm as [? ? ? ? ? _]. split; try done.
      cbn [cs_witnesses next]. apply merged_rows_valid; [apply Hc|done].
    + apply Forall_app. split; [apply Hc|done].
  - split; cbn [cs_nodes cs_indexed_seq cs_checkpoint cs_witnesses]; [by eexists|done|done|apply rows_kept_app].
Qed.

Lemma new_rows_of_merge rows rows' : new_rows rows (rows ++ new_rows rows rows') = new_rows rows rows'.
Proof.
  unfold new_rows. rewrite filter_app, (filter_none _ rows).
  2: { intros row Hrow Hn. apply Hn. apply list_elem_of_fmap. by exists row. }
  cbn [app]. rewrite list_filter_filter. apply filter_agree. tauto.
Qed.

Lemma rows_agree_new rows rows' : rows_agree rows (new_rows rows rows').
Proof.
  intros row row' Hrow [Hn _]%list_elem_of_filter Heq. exfalso. apply Hn. rewrite <- Heq.
  apply list_elem_of_fmap. by exists row.
Qed.

Lemma new_rows_idemp rows rows' : new_rows rows (new_rows rows rows') = new_rows rows rows'.
Proof. unfold new_rows. rewrite list_filter_filter. apply filter_agree. tauto. Qed.

Lemma delta_since_eq self u n :
  Engine.delta_since (Engine.with_state self u) (n, _state self) =
  {| cs_size := cs_size u; cs_nodes := drop (length (cs_nodes (_state self))) (cs_nodes u);
     cs_indexed_seq := cs_indexed_seq u; cs_first_pending_at := cs_first_pending_at u;
     cs_checkpoint := cs_checkpoint u;
     cs_witnesses := new_rows (cs_witnesses (_state self)) (cs_witnesses u) |}.
Proof.
  unfold Engine.delta_since. cbn [snd _state Engine.with_state]. f_equal. apply filter_agree.
  intros row _. by rewrite elem_of_list_to_set.
Qed.

(** A delta of a committed state meets the metadata rules itself. *)
Lemma delta_metadata current next :
  valid_state (merged current next) ->
  let u := merged current next in
  valid_metadata (cs_size u) (cs_indexed_seq u)
    {| cs_size := cs_size u; cs_nodes := drop (length (cs_nodes current)) (cs_nodes u);
       cs_indexed_seq := cs_indexed_seq u; cs_first_pending_at := cs_first_pending_at u;
       cs_checkpoint := cs_checkpoint u; cs_witnesses := new_rows (cs_witnesses current) (cs_witnesses u) |}.
Proof.
  intros [[Hs _ Hl Hp Hck [Hv Hnd]] _] u. rewrite <- Hs in Hl, Hck. split; try done. cbn [cs_witnesses]. unfold u, merged. cbn [cs_witnesses]. rewrite new_rows_of_merge. split.
  - by apply Forall_app in Hv as [_ Hv].
  - cbn [merged cs_witnesses] in Hnd. rewrite map_app in Hnd. by apply NoDup_app in Hnd as (_ & _ & Hnd).
Qed.

Lemma commit_delta_replays (self self' : Engine) (expected_size expected_checkpoint : pyval)
    (next : arg Arg.CllState) :
  wf self -> Engine.commit_cll self expected_size expected_checkpoint next = Ok self' ->
  Engine.commit_cll_delta self expected_size expected_checkpoint
    (state_arg (Engine.delta_since self' (Engine.snapshot self))) = Ok self'.
Proof.
  intros Hwf. unfold Engine.commit_cll, Engine.commit_cll_delta. set (c := _state self).
  assert (valid_state c) as Hc by apply Hwf. destruct (apply_cll _ _ _ _) as [u|] eqn:H; [|done]. intros [= <-].
  apply apply_cll_inv in H as (He & s & _ & [[k Hk] Hi] & [Hf _] & -> & Hv & _); [|done].
  pose proof Hv as [Hm Hn].
  unfold Engine.snapshot. rewrite delta_since_eq. fold c.
  pose proof (check_expected_eq c expected_size expected_checkpoint) as Hce. unfold apply_cll_delta.
  destruct (_check_expected _ _ _); [clear Hce|tauto].
  cbn [merged cs_size cs_nodes cs_indexed_seq cs_first_pending_at cs_checkpoint cs_witnesses] in Hm, Hn |- *.
  rewrite new_rows_of_merge, Hk, drop_app_length. rewrite Hk in Hm, Hn.
  pose proof (vm_size _ _ _ (vs_metadata _ Hc)) as Hcs. pose proof (vm_size _ _ _ Hm) as Hss. cbn in Hss.
  rewrite zlen_app, <- Hcs in Hss. apply Forall_app in Hn as [_ Hn].
  set (d := {| cs_size := cs_size s; cs_nodes := k; cs_indexed_seq := cs_indexed_seq s;
    cs_first_pending_at := cs_first_pending_at s; cs_checkpoint := cs_checkpoint s;
    cs_witnesses := new_rows (cs_witnesses c) (cs_witnesses s) |}).
  change (Arg.nodes (state_arg d)) with (Some (map PBytes k)). rewrite validate_nodes_arg by done.
  change (Arg.state_size (state_arg d)) with (PInt (cs_size s)).
  rewrite py_eq_int, Hss, Z.eqb_refl. cbn [negb]. rewrite <- Hss.
  assert (valid_metadata (cs_size d) (cs_indexed_seq d) d) as Hd.
  { pose proof (delta_metadata c s Hv) as Hd. cbn [merged cs_size cs_nodes cs_indexed_seq
      cs_first_pending_at cs_checkpoint cs_witnesses] in Hd. by rewrite new_rows_of_merge, Hk, drop_app_length in Hd. }
  rewrite (metadata_arg d) by (done || apply py_eq_int_refl).
  cbn [d cs_size cs_indexed_seq cs_first_pending_at cs_checkpoint cs_witnesses]. fold d.
  pose proof (added_witnesses_eq c d (rows_keys _ (vm_rows _ _ _ (vs_metadata _ Hc))) Hi) as Hw.
  destruct (added_witnesses c d) as [rows|].
  - destruct Hw as (_ & _ & ->). cbn [d cs_witnesses]. unfold merged. by rewrite new_rows_idemp, Hk.
  - destruct Hw as [_ Hw]. exfalso. apply Hw. split; [done|]. apply rows_agree_new.
Qed.

(** The journal can hold deltas: after a successful [commit_cll], the
    delta that [delta_since] computes against the snapshot taken before, when
    replayed by [commit_cll_delta] with the same expectations on the engine as
    it was, is accepted and gives exactly the same engine. *)
Theorem journal_delta_replays (self self' : Engine) (expected_size expected_checkpoint : pyval)
    (next : arg Arg.CllState) :
  wf self -> Engine.commit_cll self expected_size expected_checkpoint next = Ok self' ->
  Engine.commit_cll_delta self expected_size expected_checkpoint
    (state_arg (Engine.delta_since self' (Engine.snapshot self))) = Ok self'.
Proof. apply commit_delta_replays. Qed.
