(* ===== verification/EngineSteps.v ===== *)
(** * Witness rows, pending order and histories

    [commit_witness] as a compare-and-set on one row, the order in which due
    deliveries are handed out, and the engine as a state machine: what every
    reachable engine satisfies, and that a snapshot undoes what came after. *)
From S2P Require Import Prelude Bytes Text Py MmrPos Cll Engine EngineValid EngineProps EngineCommit.
From stdpp Require Import sorting.
Open Scope Z_scope.

(** ** [commit_witness] *)

(** The stored row a delivery result may replace. *)
Definition replaces (rows : list WitnessState) (i : nat) (attempts : Z) (w : WitnessState) : Prop :=
  exists row, rows !! i = Some row /\ witness_key row = witness_key w /\ ws_attempts row = attempts /\
    ws_checkpoint row = ws_checkpoint w.

Lemma find_witness_eq rows n w i :
  NoDup (map witness_key rows) ->
  match find_witness i rows n w with
  | Ok (j, w') => w' = w /\ (i <= j)%nat /\ replaces rows (j - i) n w
  | Raise e => e = ContentionError /\ forall j, ~ replaces rows j n w
  end.
Proof.
  revert i. induction rows as [|row rows IH]; intros i Hnd; cbn [find_witness].
  { split; [done|]. by intros j (row & Hrow & _). }
  cbn [map] in Hnd. apply NoDup_cons in Hnd as [Hx Hnd].
  destruct (bool_decide (witness_key row = _)) eqn:Ek; cbn [negb]; zbool.
  - destruct (ws_attempts row =? n) eqn:En; cbn [negb]; zbool.
    + destruct (bool_decide _) eqn:Ec; cbn [negb]; zbool.
      * split_and!; [done|lia|]. rewrite Nat.sub_diag. by exists row.
      * split; [done|]. intros [|j] (r & Hr & Hk & _ & Hc); cbn in Hr; [congruence|].
        apply Hx. rewrite Ek, <- Hk. apply list_elem_of_fmap. exists r. split; [done|by eapply list_elem_of_lookup_2].
    + split; [done|]. intros [|j] (r & Hr & Hk & Ha & Hc); cbn in Hr; [congruence|].
      apply Hx. rewrite Ek, <- Hk. apply list_elem_of_fmap. exists r. split; [done|by eapply list_elem_of_lookup_2].
  - specialize (IH (S i) Hnd). destruct (find_witness _ _ _ _) as [[j w']|e].
    + destruct IH as (-> & Hj & Hr). split_and!; [done|lia|].
      replace (j - i)%nat with (S (j - S i)) by lia. done.
    + destruct IH as [-> IH]. split; [done|]. intros [|j] (r & Hr & Hk & Ha & Hc); cbn in Hr; [congruence|].
      apply (IH j). by exists r.
Qed.

Lemma apply_witness_eq rows ea next :
  NoDup (map witness_key rows) ->
  match apply_witness rows ea next with
  | Ok (i, w) => validate_witness next InvalidError = Ok w /\
      exists n, int_within ea 0 MAX_ATTEMPTS = Some n /\ replaces rows i n w
  | Raise ContentionError => exists w n, validate_witness next InvalidError = Ok w /\
      int_within ea 0 MAX_ATTEMPTS = Some n /\ forall i, ~ replaces rows i n w
  | Raise InvalidError =>
      validate_witness next InvalidError = Raise InvalidError \/ int_within ea 0 MAX_ATTEMPTS = None
  | Raise _ => False
  end.
Proof.
  intros Hnd. unfold apply_witness, check_expected_attempts.
  destruct (validate_witness next InvalidError) as [w|e] eqn:Ev; [|apply validate_witness_raise in Ev as ->; by left].
  destruct (int_within ea 0 MAX_ATTEMPTS) as [n|]; cbn [or_raise]; [|by right].
  pose proof (find_witness_eq rows n w 0 Hnd) as Hf. destruct (find_witness _ _ _ _) as [[i w']|e].
  - destruct Hf as (-> & _ & Hr). rewrite Nat.sub_0_r in Hr. split; [done|]. by exists n.
  - destruct Hf as [-> Hf]. by exists w, n.
Qed.

(** The state with row [i] replaced. *)
Definition with_row (s : CllState) (i : nat) (w : WitnessState) : CllState :=
  {| cs_size := cs_size s; cs_nodes := cs_nodes s; cs_indexed_seq := cs_indexed_seq s;
     cs_first_pending_at := cs_first_pending_at s; cs_checkpoint := cs_checkpoint s;
     cs_witnesses := <[i := w]> (cs_witnesses s) |}.

Lemma with_row_keys rows i n w :
  replaces rows i n w -> map witness_key (<[i := w]> rows) = map witness_key rows.
Proof.
  intros (row & Hr & Hk & _). change (map witness_key) with (fmap (M := list) witness_key).
  rewrite list_fmap_insert, <- Hk. apply list_insert_id. by rewrite list_lookup_fmap, Hr.
Qed.

Lemma with_row_valid s i n w :
  valid_state s -> replaces (cs_witnesses s) i n w -> valid_witness w -> valid_state (with_row s i w).
Proof.
  intros [[Hs Hi Hm Hp Hc [Hv Hnd]] Hn] Hr Hw. split; [|done]. split; try done.
  cbn [with_row cs_witnesses]. split; [by apply Forall_insert|]. by erewrite with_row_keys.
Qed.

Lemma with_row_grows s i n w : replaces (cs_witnesses s) i n w -> grows s (with_row s i w).
Proof.
  intros (row & Hr & Hk & _ & Hc). split; cbn [with_row cs_nodes cs_indexed_seq cs_checkpoint cs_witnesses].
  - done.
  - lia.
  - destruct (cs_checkpoint s); cbn; [split_and!; (lia || done)|done].
  - intros j r Hj. destruct (decide (i = j)) as [<-|Hne].
    + exists w. rewrite list_lookup_insert_eq by (by eapply lookup_lt_Some). split; [done|].
      assert (r = row) as -> by congruence. by split.
    + exists r. by rewrite list_lookup_insert_ne.
Qed.

Lemma commit_witness_inv self ea next self' :
  wf self -> Engine.commit_witness self ea next = Ok self' ->
  exists w i n, validate_witness next InvalidError = Ok w /\
    int_within ea 0 MAX_ATTEMPTS = Some n /\ replaces (cs_witnesses (_state self)) i n w /\
    self' = Engine.with_state self (with_row (_state self) i w) /\ wf self' /\ grows (_state self) (_state self').
Proof.
  intros Hwf. pose proof (wf_state self Hwf) as Hs. unfold Engine.commit_witness.
  pose proof (apply_witness_eq (cs_witnesses (_state self)) ea next
    (rows_keys _ (vm_rows _ _ _ (vs_metadata _ Hs)))) as Ha.
  destruct (apply_witness _ _ _) as [[i w]|e]; [|done].
  destruct Ha as (Hv & n & Hn & Hr). intros [= <-]. exists w, i, n. split_and!; try done.
  - apply validate_witness_inv in Hv. destruct Hwf as [H1 H2 H3 H4]. split; [done|done|done|].
    by eapply with_row_valid.
  - by eapply with_row_grows.
Qed.

(** [commit_witness] is a compare-and-set on one row: it succeeds exactly
    when a stored row has the new row's key, its checkpoint bytes and the
    expected number of attempts, and then replaces that row and nothing else;
    the engine stays well formed and its state only grows. Otherwise it
    raises, [ContentionError] when the arguments are valid, and nothing
    changes. *)
Theorem commit_witness_correct (self : Engine) (expected_attempts : pyval) (next : arg Arg.WitnessState) :
  wf self ->
  match Engine.commit_witness self expected_attempts next with
  | Ok self' => exists w i n, validate_witness next InvalidError = Ok w /\
      int_within expected_attempts 0 MAX_ATTEMPTS = Some n /\ replaces (cs_witnesses (_state self)) i n w /\
      self' = Engine.with_state self (with_row (_state self) i w) /\ wf self' /\ grows (_state self) (_state self')
  | Raise ContentionError => exists w n, validate_witness next InvalidError = Ok w /\
      int_within expected_attempts 0 MAX_ATTEMPTS = Some n /\
      forall i, ~ replaces (cs_witnesses (_state self)) i n w
  | Raise InvalidError => validate_witness next InvalidError = Raise InvalidError \/
      int_within expected_attempts 0 MAX_ATTEMPTS = None
  | Raise _ => False
  end.
Proof.
  intros Hwf. destruct (Engine.commit_witness _ _ _) as [self'|e] eqn:E; [by apply commit_witness_inv|].
  unfold Engine.commit_witness in E. pose proof (apply_witness_eq (cs_witnesses (_state self)) expected_attempts
    next (rows_keys _ (vm_rows _ _ _ (vs_metadata _ (wf_state self Hwf))))) as Ha.
  destruct (apply_witness _ _ _) as [[i w]|e']; [done|]. by injection E as ->.
Qed.

(** ** Pending order *)
#[export] Instance key_le_total : Total key_le.
Proof.
  intros [s l] [t k]. unfold key_le. cbn. destruct (Z.lt_trichotomy s t) as [H|[->|H]]; [tauto| |tauto].
  destruct (bytes_leb_total l k); tauto.
Qed.
#[export] Instance key_le_trans : Transitive key_le.
Proof.
  intros [s l] [t k] [u m]. unfold key_le. cbn. intros [H1|[H1 H1']] [H2|[H2 H2']]; try (left; lia).
  right. split; [lia|]. by eapply bytes_leb_trans.
Qed.
#[export] Instance keyed_le_total : Total keyed_le.
Proof. intros a b. apply key_le_total. Qed.
#[export] Instance keyed_le_trans : Transitive keyed_le.
Proof. intros a b c. apply key_le_trans. Qed.

(** By checkpoint size, then by the bytes of the witness id; no two rows of a
    state compare equal. *)
Definition id_bytes (row : WitnessState) : bytes := default [] (utf8_encode (ws_witness_id row)).
Definition key_of (row : WitnessState) : sort_key := (ws_checkpoint_size row, id_bytes row).
Definition row_before (a b : WitnessState) : Prop :=
  key_le (key_of a) (key_of b) /\ witness_key a <> witness_key b.

(** The first [n] due rows in that order. *)
Definition first_due (rows : list WitnessState) (now : instant) (id : option pystr) (n : Z)
    (out : list WitnessState) : Prop :=
  exists all, all ≡ₚ filter (fun row => is_due now id row = true) rows /\
    StronglySorted row_before all /\ out = take (Z.to_nat n) all.

Lemma identifier_ascii s : is_identifier s = true -> Forall (fun c => 0 <= c < 128) s.
Proof.
  unfold is_identifier. intros H. zbool. apply Forall_forall. intros c Hc.
  assert (forallb identifier_char s = true) as Hf by done. rewrite forallb_forall in Hf.
  specialize (Hf c ltac:(by apply list_elem_of_In)). unfold identifier_char, in_range in Hf.
  repeat (apply orb_prop in Hf as [Hf|Hf]); zbool; try lia. set_unfold in Hf. lia.
Qed.

Lemma row_key_valid row : valid_witness row -> row_key row = Ok (key_of row).
Proof.
  intros Hv. unfold row_key, key_of, id_bytes.
  by rewrite utf8_encode_ascii by apply identifier_ascii, Hv.
Qed.

Lemma sorted_rows l :
  StronglySorted keyed_le (map (fun r => (key_of r, r)) l) -> NoDup (map witness_key l) ->
  StronglySorted row_before l.
Proof.
  induction l as [|r l IH]; intros Hs Hnd; [constructor|]. cbn [map] in *.
  apply StronglySorted_cons in Hs as [Hall Hs]. apply NoDup_cons in Hnd as [Hr Hnd].
  constructor; [by apply IH|]. apply Forall_forall. intros r' Hr'. split.
  - assert ((key_of r', r') ∈ map (fun r => (key_of r, r)) l) as Hin by (apply list_elem_of_fmap; by exists r').
    rewrite Forall_forall in Hall. exact (Hall _ Hin).
  - intros Heq. apply Hr. rewrite Heq. apply list_elem_of_fmap. by exists r'.
Qed.

Lemma pending_first_due rows now limit id :
  valid_rows rows -> exists out, pending rows now limit id = Ok out /\ first_due rows now id limit out.
Proof.
  intros [Hv Hnd]. unfold pending. set (due := filter _ rows).
  assert (Forall valid_witness due) as Hd.
  { apply Forall_forall. intros r [_ Hr]%list_elem_of_filter. by eapply Forall_forall in Hr. }
  rewrite (map_result_Ok _ key_of).
  2: { intros r Hr. apply row_key_valid. by eapply Forall_forall in Hr. }
  rewrite zip_with_fmap_l, zip_with_diag. set (keyed := (_ <$> due)).
  eexists. split; [done|]. exists (map snd (merge_sort keyed_le keyed)).
  assert (merge_sort keyed_le keyed ≡ₚ keyed) as Hp by apply merge_sort_Permutation.
  assert (merge_sort keyed_le keyed = map (fun r => (key_of r, r)) (map snd (merge_sort keyed_le keyed))) as Heq.
  { rewrite map_map. symmetry. rewrite <- map_id. apply map_ext_in. intros [k r] Hin.
    apply list_elem_of_In in Hin. rewrite Hp in Hin. apply list_elem_of_fmap in Hin as (r' & [= -> ->] & _). done. }
  assert (map snd (merge_sort keyed_le keyed) ≡ₚ due) as Hdue.
  { rewrite Hp. unfold keyed. change (map snd) with (fmap (M := list) (@snd sort_key WitnessState)).
    rewrite <- list_fmap_compose. apply reflexive_eq. apply list_fmap_id. }
  split_and!; [done| |done]. apply sorted_rows.
  - rewrite <- Heq. apply StronglySorted_merge_sort; apply _.
  - rewrite Hdue. by apply NoDup_map_filter.
Qed.

Lemma check_pending_raise now limit e : check_pending now limit = Raise e -> e = InvalidError.
Proof.
  unfold check_pending. destruct (or_raise _ _) eqn:E; [|intros [= <-]; by eapply or_raise_Raise].
  destruct (normalize_time _ _) eqn:Et; [done|]. intros [= <-]. by eapply normalize_raise.
Qed.

(** Pending deliveries: with valid arguments both reads return, and what
    they return is the first [limit] of the rows that are due (no receipt, no
    permanent failure, next attempt at or before [now], and of the given
    witness when one is given), ordered by checkpoint size and then by the
    bytes of the witness id; invalid arguments raise [InvalidError]. *)
Theorem pending_correct (self : Engine) (witness_id now limit : pyval) :
  wf self ->
  match check_pending now limit with
  | Ok (t, n) => exists out, Engine.pending_witnesses self now limit = Ok out /\
      first_due (cs_witnesses (_state self)) t None n out
  | Raise e => e = InvalidError /\ Engine.pending_witnesses self now limit = Raise InvalidError
  end /\
  match check_pending_for witness_id now limit with
  | Ok (id, (t, n)) => exists out, Engine.pending_witnesses_for self witness_id now limit = Ok out /\
      first_due (cs_witnesses (_state self)) t (Some id) n out
  | Raise e => e = InvalidError /\ Engine.pending_witnesses_for self witness_id now limit = Raise InvalidError
  end.
Proof.
  intros Hwf. assert (valid_rows (cs_witnesses (_state self))) as Hr by apply (wf_state self Hwf).
  unfold Engine.pending_witnesses, Engine.pending_witnesses_for. split.
  - destruct (check_pending now limit) as [[t n]|e] eqn:E; [by apply pending_first_due|].
    by apply check_pending_raise in E as ->.
  - destruct (check_pending_for witness_id now limit) as [[id [t n]]|e] eqn:E; [by apply pending_first_due|].
    assert (e = InvalidError) as ->; [|done]. unfold check_pending_for in E.
    destruct (as_str witness_id); [|congruence]. destruct (is_identifier _); [|congruence].
    destruct (check_pending now limit) eqn:Ep; [done|]. injection E as <-. by eapply check_pending_raise.
Qed.

(** ** Histories *)

(** One mutation of the engine, as its callers make them. *)
Inductive step (self self' : Engine) : Prop :=
| step_append input r : Engine.append self input = Ok (r, self') -> step self self'
| step_replay entry : Engine.replay_entry self entry = Ok self' -> step self self'
| step_cll size bytes next : Engine.commit_cll self size bytes next = Ok self' -> step self self'
| step_delta size bytes delta : Engine.commit_cll_delta self size bytes delta = Ok self' -> step self self'
| step_witness attempts next : Engine.commit_witness self attempts next = Ok self' -> step self self'.

(** What a mutation may do to an engine. *)
Record extends (self self' : Engine) : Prop := {
  x_entries : _entries self `prefix_of` _entries self';
  x_state : grows (_state self) (_state self')
}.

#[export] Instance extends_preorder : PreOrder extends.
Proof.
  split.
  - intros s. by split.
  - intros a b c [H1 H2] [H3 H4]. split; by etransitivity.
Qed.

Lemma append_extends self input r self' :
  wf self -> Engine.append self input = Ok (r, self') -> extends self self'.
Proof.
  intros Hwf. rewrite append_eq by done. destruct (check_append input) as [[v t]|]; [|done].
  destruct (_by_value self !! v).
  - destruct (py_index _ _); [|done]. by intros [= _ <-].
  - destruct (_ <=? _); [done|]. intros [= _ <-]. split; [by eexists|done].
Qed.

Lemma replay_inv self entry self' :
  Engine.replay_entry self entry = Ok self' -> exists r input, Engine.append self input = Ok (r, self').
Proof.
  unfold Engine.replay_entry. destruct (Engine.append self _) as [[r s]|e] eqn:E.
  - destruct (ar_outcome r); [|done]. destruct (_ || _); [done|]. intros [= <-]. eauto.
  - by destruct (is_cll_error e).
Qed.

Lemma with_state_wf self s : wf self -> valid_state s -> wf (Engine.with_state self s).
Proof. intros [H1 H2 H3 _] Hs. by split. Qed.

Lemma step_wf self self' : wf self -> step self self' -> wf self' /\ extends self self'.
Proof.
  intros Hwf Hstep. destruct Hstep as [input r H|entry H|size bs next H|size bs delta H|attempts next H].
  - split; [by eapply append_wf|by eapply append_extends].
  - apply replay_inv in H as (r & input & H). split; [by eapply append_wf|by eapply append_extends].
  - unfold Engine.commit_cll in H. destruct (apply_cll _ _ _ _) as [u|] eqn:Hc; [|done]. injection H as <-.
    apply apply_cll_inv in Hc; [|by apply wf_state]. destruct Hc as (_ & s & _ & _ & _ & _ & Hv & Hg). split; [by apply with_state_wf|by split].
  - unfold Engine.commit_cll_delta in H. destruct (apply_cll_delta _ _ _ _) as [u|] eqn:E; [|done].
    injection H as <-. apply apply_cll_delta_inv in E as [Hv Hg]; [|by apply wf_state].
    split; [by apply with_state_wf|by split].
  - apply commit_witness_inv in H as (w & i & n & _ & _ & _ & -> & Hw & Hg); [|done]. split; [done|by split].
Qed.

Lemma steps_wf self self' : wf self -> rtc step self self' -> wf self' /\ extends self self'.
Proof.
  intros Hwf Hs. induction Hs as [|a b c Hab Hbc IH]; [done|].
  destruct (step_wf a b Hwf Hab) as [Hb Hx]. destruct (IH Hb) as [Hc Hx']. split; [done|by etransitivity].
Qed.

(** [C15] Every engine reachable from an empty one is well formed: its entries
    are dense from 1, distinct and exactly what the value index names, and
    its state meets the contract's rules; and from any reachable engine on,
    the log and the MMR nodes are only extended, the checkpoint never moves
    back and no witness row is dropped, moved or re-targeted. *)
Theorem engine_history (self self' : Engine) :
  rtc step Engine.__init__ self -> rtc step self self' -> wf self /\ wf self' /\ extends self self'.
Proof.
  intros H1 H2. destruct (steps_wf _ _ wf_init H1) as [Hw _]. by destruct (steps_wf _ _ Hw H2).
Qed.

(** ** Snapshots *)
Lemma forget_eq m suffix :
  NoDup (map e_value suffix) -> (forall e, e ∈ suffix -> is_Some (m !! e_value e)) ->
  exists m', Engine.forget m suffix = Ok m' /\
    forall v, m' !! v = if decide (v ∈ map e_value suffix) then None else m !! v.
Proof.
  revert m. induction suffix as [|e suffix IH]; intros m Hnd Hin; cbn [Engine.forget].
  { exists m. split; [done|]. intros v. by rewrite decide_False by apply not_elem_of_nil. }
  cbn [map] in *. apply NoDup_cons in Hnd as [He Hnd].
  destruct (Hin e ltac:(by left)) as [i Hi]. rewrite Hi.
  destruct (IH (delete (e_value e) m) Hnd) as (m' & Hm & Hl).
  - intros e' He'. rewrite lookup_delete_ne; [apply Hin; by right|].
    intros Heq. apply He. rewrite Heq. apply list_elem_of_fmap. by exists e'.
  - exists m'. split; [done|]. intros v. rewrite Hl. destruct (decide (v = e_value e)) as [->|Hne].
    + rewrite (decide_True (P := _ ∈ _ :: _)) by (by left). rewrite lookup_delete_eq. by case_decide.
    + rewrite lookup_delete_ne by done. apply decide_ext. rewrite elem_of_cons. tauto.
Qed.

(** The value index is determined by the entries. *)
Lemma wf_restore self self' :
  wf self -> wf self' -> _entries self `prefix_of` _entries self' ->
  Engine.restore self' (Engine.snapshot self) = Ok self.
Proof.
  intros Hwf Hwf' [k Hk]. unfold Engine.restore, Engine.snapshot. cbn [fst snd].
  unfold zlen. rewrite Nat2Z.id, Hk, drop_app_length, take_app_length.
  pose proof (wf_distinct self' Hwf') as Hnd. rewrite Hk, map_app in Hnd.
  apply NoDup_app in Hnd as (_ & Hdisj & Hndk).
  destruct (forget_eq (_by_value self') k Hndk) as (m & Hm & Hl).
  { intros e He. pose proof (wf_find self' (e_value e) Hwf') as Hf.
    destruct (_by_value self' !! e_value e); [done|]. exfalso. apply Hf. rewrite Hk.
    apply list_elem_of_fmap. exists e. split; [done|]. apply elem_of_app. by right. }
  rewrite Hm. f_equal. destruct self as [es bv st]. cbn in *. f_equal. apply map_eq. intros v.
  apply option_eq. intros i. rewrite Hl.
  pose proof (wf_index _ Hwf v i) as Hi. pose proof (wf_index _ Hwf' v i) as Hi'. cbn in Hi.
  rewrite Hk in Hi'. case_decide as Hv.
  - split; [done|]. intros (Hpos & e & He & <-)%Hi. exfalso. apply (Hdisj (e_value e)); [|done].
    apply list_elem_of_fmap. exists e. split; [done|by eapply list_elem_of_lookup_2].
  - rewrite Hi, Hi'. split; intros (Hpos & e & He & Hev); (split; [done|]); exists e; (split; [|done]).
    + apply lookup_app_Some in He as [He|[_ He]]; [done|]. exfalso. apply Hv. rewrite <- Hev.
      apply list_elem_of_fmap. exists e. split; [done|by eapply list_elem_of_lookup_2].
    + by apply lookup_app_l_Some.
Qed.

(** Rolling back: whatever was appended, replayed or committed after a
    snapshot of a reachable engine, [restore] succeeds and gives back exactly
    the engine the snapshot was taken of. *)
Theorem restore_undoes (self self' : Engine) :
  rtc step Engine.__init__ self -> rtc step self self' ->
  Engine.restore self' (Engine.snapshot self) = Ok self.
Proof.
  intros H1 H2. destruct (steps_wf _ _ wf_init H1) as [Hw _].
  destruct (steps_wf _ _ Hw H2) as [Hw' [Hp _]]. by apply wf_restore.
Qed.

(** ** A concrete engine

    One entry, one committed checkpoint and one witness row, used to apply
    each engine theorem to a run. *)
Definition value0 : bytes := zeros 32.
Definition input0 : arg Arg.AppendInput :=
  Inst {| Arg.value := PBytes value0; Arg.appended_at := utc_datetime 5 |}.
Definition entry0 : Entry := {| e_seq := 1; e_value := value0; e_appended_at := 5 |}.
Definition engine1 : Engine := inserted Engine.__init__ value0 5.

Definition row0 : WitnessState :=
  {| ws_witness_id := str "w1"; ws_checkpoint_size := 1; ws_checkpoint := [Byte.x01]; ws_attempts := 0;
     ws_next_attempt_at := 7; ws_receipt := None; ws_permanent := false; ws_last_error := None |}.
Definition row1 : WitnessState :=
  {| ws_witness_id := str "w1"; ws_checkpoint_size := 1; ws_checkpoint := [Byte.x01]; ws_attempts := 1;
     ws_next_attempt_at := 9; ws_receipt := None; ws_permanent := false; ws_last_error := Some (str "busy") |}.
Definition state1 : CllState :=
  {| cs_size := 1; cs_nodes := [value0]; cs_indexed_seq := 1; cs_first_pending_at := Some 5;
     cs_checkpoint := Some {| ck_bytes := [Byte.x01]; ck_size := 1; ck_indexed_seq := 1; ck_peaks := [value0] |};
     cs_witnesses := [row0] |}.
Definition engine2 : Engine := Engine.with_state engine1 state1.
Definition engine3 : Engine := Engine.with_state engine1 (with_row state1 0 row1).

Lemma append0 : Engine.append Engine.__init__ input0 = Ok ({| ar_entry := entry0; ar_outcome := INSERTED |}, engine1).
Proof. vm_compute. reflexivity. Qed.
Lemma commit0 : Engine.commit_cll engine1 (PInt 0) PNone (Inst (state_arg state1)) = Ok engine2.
Proof. vm_compute. reflexivity. Qed.
Lemma witness0 : Engine.commit_witness engine2 (PInt 0) (Inst (witness_arg row1)) = Ok engine3.
Proof. vm_compute. reflexivity. Qed.

Lemma reach1 : rtc step Engine.__init__ engine1.
Proof. apply rtc_once. exact (step_append _ _ input0 _ append0). Qed.
Lemma run12 : rtc step engine1 engine2.
Proof. apply rtc_once. exact (step_cll _ _ _ _ _ commit0). Qed.
Lemma run23 : rtc step engine2 engine3.
Proof. apply rtc_once. exact (step_witness _ _ _ _ witness0). Qed.

Lemma run13 : rtc step engine1 engine3.
Proof. transitivity engine2; [exact run12|exact run23]. Qed.
Lemma run03 : rtc step Engine.__init__ engine3.
Proof. transitivity engine1; [exact reach1|exact run13]. Qed.

Lemma wf1 : wf engine1.
Proof. by destruct (steps_wf _ _ wf_init reach1). Qed.
Lemma wf2 : wf engine2.
Proof. by destruct (steps_wf _ _ wf1 run12). Qed.

(** ** The theorems at this engine *)
Lemma append_correct_witness :
  wf Engine.__init__ /\ exists self',
    Engine.append Engine.__init__ input0 = Ok ({| ar_entry := entry0; ar_outcome := INSERTED |}, self') /\
    _entries self' = [entry0].
Proof.
  split; [exact wf_init|].
  destruct (append_correct Engine.__init__ input0 wf_init) as [(e & He & _)|(_ & self' & H1 & H2 & _)].
  - exfalso. by apply not_elem_of_nil in He.
  - exists self'. split; [exact H1|exact H2].
Defined.

Lemma reads_correct_witness :
  wf engine1 /\ Engine.get_entry engine1 (PBytes value0) = Ok entry0 /\
  Engine.scan_entries engine1 (PInt 0) (PInt 10) = Ok [entry0].
Proof.
  split; [exact wf1|]. split; [vm_compute; reflexivity|].
  destruct (reads_correct engine1 (PBytes value0) (PInt 0) (PInt 10) wf1) as [_ (_ & _ & H)].
  exact H.
Defined.

Lemma apply_cll_correct_witness :
  valid_state empty_state /\ grows empty_state state1 /\
  apply_cll empty_state (PInt 0) PNone (Inst (state_arg state1)) = Ok state1.
Proof.
  split; [exact empty_state_valid|].
  assert (apply_cll empty_state (PInt 0) PNone (Inst (state_arg state1)) = Ok state1) as E
    by (vm_compute; reflexivity).
  pose proof (apply_cll_correct empty_state (PInt 0) PNone (Inst (state_arg state1)) empty_state_valid) as H.
  rewrite E in H. destruct H as (_ & _ & _ & _ & _ & _ & _ & Hg). split; [exact Hg|exact E].
Defined.

Lemma journal_delta_replays_witness :
  Engine.commit_cll engine1 (PInt 0) PNone (Inst (state_arg state1)) = Ok engine2 /\
  Engine.commit_cll_delta engine1 (PInt 0) PNone
    (state_arg (Engine.delta_since engine2 (Engine.snapshot engine1))) = Ok engine2.
Proof.
  split; [exact commit0|].
  exact (journal_delta_replays engine1 engine2 (PInt 0) PNone (Inst (state_arg state1)) wf1 commit0).
Defined.

Lemma commit_witness_correct_witness :
  wf engine2 /\ Engine.commit_witness engine2 (PInt 0) (Inst (witness_arg row1)) = Ok engine3 /\
  grows (_state engine2) (_state engine3).
Proof.
  split; [exact wf2|]. split; [exact witness0|].
  pose proof (commit_witness_correct engine2 (PInt 0) (Inst (witness_arg row1)) wf2) as H.
  rewrite witness0 in H. destruct H as (w & i & n & _ & _ & _ & _ & _ & Hg). exact Hg.
Defined.

Lemma pending_correct_witness :
  wf engine2 /\ first_due [row0] 7 None 4 [row0] /\
  Engine.pending_witnesses engine2 (utc_datetime 7) (PInt 4) = Ok [row0].
Proof.
  assert (Engine.pending_witnesses engine2 (utc_datetime 7) (PInt 4) = Ok [row0]) as E
    by (vm_compute; reflexivity).
  split; [exact wf2|]. split; [|exact E].
  destruct (pending_correct engine2 (PStr (str "w1")) (utc_datetime 7) (PInt 4) wf2) as [(out & Ho & H) _].
  rewrite E in Ho. injection Ho as <-. exact H.
Defined.

Lemma engine_history_witness : wf engine1 /\ wf engine3 /\ extends engine1 engine3.
Proof. exact (engine_history engine1 engine3 reach1 run13). Defined.

Lemma restore_undoes_witness : Engine.restore engine3 (Engine.snapshot Engine.__init__) = Ok Engine.__init__.
Proof.
  exact (restore_undoes Engine.__init__ engine3 (rtc_refl _ _)
    run03).
Defined.
