(* ===== verification/Backend.v ===== *)
(** * The backend interface

    What a backend of [src/python/log/__init__.py] promises its callers, as a
    class: every mutation it acknowledges is the engine's, one it does not
    acknowledge changes nothing or closes the backend, and reads show the
    engine. Clients are verified against the class; the memory and the JSONL
    backends are instances. *)
From S2P Require Import Prelude Bytes Text Py MmrPos Cll Engine EngineValid EngineProps EngineCommit EngineSteps.
Open Scope Z_scope.

(** ** Mutations *)
Inductive mutation :=
| MAppend (input : arg Arg.AppendInput)
| MCommit (expected_size expected_checkpoint : pyval) (next : arg Arg.CllState)
| MWitness (expected_attempts : pyval) (next : arg Arg.WitnessState).

(** On the engine alone; the commits reply [None]. *)
Definition run_engine (self : Engine) (m : mutation) : result (option AppendResult * Engine) :=
  match m with
  | MAppend input => let! (r, self) := Engine.append self input in Ok (Some r, self)
  | MCommit size checkpoint next => let! self := Engine.commit_cll self size checkpoint next in Ok (None, self)
  | MWitness attempts next => let! self := Engine.commit_witness self attempts next in Ok (None, self)
  end.

Lemma run_engine_step self m r self' : run_engine self m = Ok (r, self') -> step self self'.
Proof.
  destruct m as [input|es ec next|ea next]; cbn [run_engine].
  - destruct (Engine.append self input) as [[r0 s]|] eqn:E; [|done]. intros [= _ <-]. by eapply step_append.
  - destruct (Engine.commit_cll _ _ _ _) eqn:E; [|done]. intros [= _ <-]. by eapply step_cll.
  - destruct (Engine.commit_witness _ _ _) eqn:E; [|done]. intros [= _ <-]. by eapply step_witness.
Qed.

(** A size the counters of every encoding hold. *)
Definition fits (engine : Engine) : Prop := cs_size (_state engine) < 2 ^ 64.

(** A caller's list of nodes is shorter than 2^64. *)
Definition small (m : mutation) : Prop :=
  match m with
  | MCommit _ _ (Inst next) =>
      match Arg.nodes next with Some nodes => zlen nodes < 2 ^ 64 | None => True end
  | _ => True
  end.

Lemma run_engine_fits self m r self' :
  wf self -> fits self -> small m -> run_engine self m = Ok (r, self') -> fits self'.
Proof.
  unfold fits. intros Hwf Hf Hs Hrun. destruct m as [input|es ec next|ea next]; cbn [run_engine] in Hrun.
  - destruct (Engine.append self input) as [[r0 s]|] eqn:E; [|done]. injection Hrun as _ <-.
    rewrite append_eq in E by done. destruct (check_append input) as [[v t]|]; [|done].
    destruct (_by_value self !! v); [destruct (py_index _ _); [|done]; by injection E as _ <-|].
    destruct (_ <=? _); [done|]. by injection E as _ <-.
  - unfold Engine.commit_cll in Hrun. destruct (apply_cll _ _ _ _) as [u|] eqn:E; [|done]. injection Hrun as _ <-.
    apply apply_cll_inv in E as (_ & s & Hv & _ & _ & -> & Hm & _); [|by apply wf_state].
    cbn [Engine.with_state _state]. rewrite (vm_size _ _ _ (vs_metadata _ Hm)). cbn [merged cs_nodes].
    destruct next as [raw|]; [|done]. cbn [validate_state] in Hv. cbn [small] in Hs.
    destruct (Arg.nodes raw) as [l|] eqn:En; [|done]. cbn [or_raise] in Hv.
    destruct (_validate_metadata _ _ _) as [[[[[? ?] ?] ?] ?]|]; [|done].
    destruct (validate_nodes (Some l) _) as [nodes|] eqn:Enodes; [|done]. injection Hv as <-. cbn [cs_nodes].
    apply validate_nodes_inv in Enodes as [_ (raw' & [= <-] & Hlen)]. unfold zlen in *. lia.
  - destruct (Engine.commit_witness _ _ _) eqn:E; [|done]. injection Hrun as _ <-.
    by apply commit_witness_inv in E as (w & i & n & _ & _ & _ & -> & _).
Qed.

(** ** The interface

    [S] is the backend's state and [Env] what its surroundings answer during
    one call. [view] is the engine it shows, [None] once it is closed. *)
Class Backend (S Env : Type) := {
  view : S -> option Engine;
  sound : S -> Prop;
  mutate : S -> mutation -> Env -> S * result (option AppendResult);
  query : forall {A}, S -> (Engine -> result A) -> result A;
  sound_wf : forall s engine, sound s -> view s = Some engine -> wf engine;
  mutate_open : forall s m env engine,
    sound s -> view s = Some engine -> small m ->
    match mutate s m env with
    | (s', Ok r) => exists engine', run_engine engine m = Ok (r, engine') /\ view s' = Some engine' /\ sound s'
    | (s', Raise _) => view s' = Some engine /\ sound s' \/ view s' = None
    end;
  mutate_closed : forall s m env, view s = None -> mutate s m env = (s, Raise ClosedError);
  query_eq : forall A s (read : Engine -> result A),
    query s read = match view s with Some engine => read engine | None => Raise ClosedError end
}.

(** ** Clients *)
Section client.
Context {S Env : Type} `{Backend S Env}.

(** A run of calls; the reply of each. *)
Fixpoint calls (s : S) (ms : list (mutation * Env)) : S * list (result (option AppendResult)) :=
  match ms with
  | [] => (s, [])
  | (m, env) :: ms =>
      let '(s, r) := mutate s m env in
      let '(s, rs) := calls s ms in
      (s, r :: rs)
  end.

(** The mutations that were acknowledged, with their replies. *)
Fixpoint acknowledged (ms : list (mutation * Env)) (rs : list (result (option AppendResult)))
  : list (mutation * option AppendResult) :=
  match ms, rs with
  | (m, _) :: ms, Ok r :: rs => (m, r) :: acknowledged ms rs
  | _ :: ms, Raise _ :: rs => acknowledged ms rs
  | _, _ => []
  end.

(** The engine accepts these mutations in this order, with these replies. *)
Fixpoint accepts (engine : Engine) (log : list (mutation * option AppendResult)) (engine' : Engine) : Prop :=
  match log with
  | [] => engine' = engine
  | (m, r) :: log => exists next, run_engine engine m = Ok (r, next) /\ accepts next log engine'
  end.

(** The calls of a run are small. *)
Definition small_calls (ms : list (mutation * Env)) : Prop := Forall (fun call => small call.1) ms.

Lemma calls_closed s ms : view s = None -> (calls s ms).1 = s /\ acknowledged ms (calls s ms).2 = [].
Proof.
  intros Hv. induction ms as [|[m env] ms IH]; [done|]. cbn [calls]. rewrite mutate_closed by done.
  destruct (calls s ms) as [s' rs]. cbn in *. by destruct IH as [-> ->].
Qed.

Lemma accepts_steps engine log engine' : accepts engine log engine' -> rtc step engine engine'.
Proof.
  revert engine. induction log as [|[m r] log IH]; intros engine; cbn [accepts]; [by intros ->|].
  intros (next & Hm & Ha). eapply rtc_l; [by eapply run_engine_step|by apply IH].
Qed.

Lemma calls_accepted s ms engine :
  sound s -> view s = Some engine -> small_calls ms ->
  exists engine', accepts engine (acknowledged ms (calls s ms).2) engine' /\
    (view (calls s ms).1 = Some engine' /\ sound (calls s ms).1 \/ view (calls s ms).1 = None).
Proof.
  revert s engine. induction ms as [|[m env] ms IH]; intros s engine Hs Hv Hr.
  { exists engine. split; [done|by left]. }
  apply Forall_cons in Hr as [Hsm Hr]. cbn [calls]. pose proof (mutate_open s m env engine Hs Hv Hsm) as Hm.
  destruct (mutate s m env) as [s' [r|e]].
  - destruct Hm as (next & Hrun & Hv' & Hs'). destruct (IH s' next Hs' Hv' Hr) as (e' & Ha & He').
    destruct (calls s' ms) as [s'' rs]. cbn [fst snd acknowledged] in *. exists e'. split; [by exists next|done].
  - destruct Hm as [[Hv' Hs']|Hv'].
    + destruct (IH s' engine Hs' Hv' Hr) as (e' & Ha & He').
      destruct (calls s' ms) as [s'' rs]. cbn [fst snd acknowledged] in *. by exists e'.
    + destruct (calls_closed s' ms Hv') as [H1 H2]. destruct (calls s' ms) as [s'' rs]. cbn [fst snd acknowledged] in *.
      exists engine. rewrite H2, H1. split; [done|by right].
Qed.

Lemma append_holds self input r self' :
  wf self -> Engine.append self input = Ok (r, self') -> ar_entry r ∈ _entries self'.
Proof.
  intros Hwf. rewrite append_eq by done. destruct (check_append input) as [[v t]|]; [|done].
  pose proof (wf_find self v Hwf) as Hf. destruct (_by_value self !! v).
  - destruct Hf as (e & -> & He & _). by intros [= <- <-].
  - destruct (_ <=? _); [done|]. intros [= <- <-]. cbn. apply elem_of_app. right. by apply list_elem_of_singleton.
Qed.

Lemma get_entry_found self e :
  wf self -> e ∈ _entries self -> Engine.get_entry self (PBytes (e_value e)) = Ok e.
Proof.
  intros Hwf He. unfold Engine.get_entry.
  assert (check_value (PBytes (e_value e)) = Ok (e_value e)) as ->.
  { apply or_raise_Ok, width_bytes. apply list_elem_of_lookup in He as [i Hi].
    rewrite (ea_value _ _ (wf_entries self Hwf i e Hi)). unfold within. lia. }
  pose proof (wf_find self (e_value e) Hwf) as Hf. destruct (_by_value self !! e_value e).
  - destruct Hf as (e' & -> & He' & Hv). f_equal. by apply (wf_unique self).
  - exfalso. apply Hf, list_elem_of_fmap. by exists e.
Qed.

(** An acknowledged entry is there to stay: once a backend has answered
    an append, then after any further calls, as long as it is open, looking
    the value up returns exactly that entry. *)
Theorem acknowledged_entry_found (s : S) (input : arg Arg.AppendInput) (env : Env) (s1 : S) (r : AppendResult)
    (ms : list (mutation * Env)) (engine : Engine) :
  sound s -> view s = Some engine -> small_calls ms ->
  mutate s (MAppend input) env = (s1, Ok (Some r)) ->
  view (calls s1 ms).1 = None \/
  query (calls s1 ms).1 (fun engine => Engine.get_entry engine (PBytes (e_value (ar_entry r)))) = Ok (ar_entry r).
Proof.
  intros Hs Hv Hr Hm. pose proof (mutate_open s (MAppend input) env engine Hs Hv I) as H1.
  rewrite Hm in H1. destruct H1 as (next & Hrun & Hv1 & Hs1).
  destruct (calls_accepted s1 ms next Hs1 Hv1 Hr) as (engine' & Ha & [[Hv' Hs']|Hv']).
  2: by left.
  right. rewrite query_eq, Hv'. pose proof (sound_wf _ _ Hs1 Hv1) as Hwf1.
  destruct (steps_wf _ _ Hwf1 (accepts_steps _ _ _ Ha)) as [Hwf' [[k Hk] _]].
  apply get_entry_found; [done|]. rewrite Hk. apply elem_of_app. left.
  cbn [run_engine] in Hrun. destruct (Engine.append engine input) as [[r0 e0]|] eqn:E; [|done].
  injection Hrun as -> ->. exact (append_holds _ _ _ _ (sound_wf _ _ Hs Hv) E).
Qed.
End client.
