(* ===== verification/Memory.v ===== *)
(** * The memory backend

    [src/python/log/memory.py]: the engine behind a closed flag. Each method
    runs under the store's lock, so a call is one step. *)
From S2P Require Import Prelude Bytes Text Py Cll Engine EngineValid EngineProps EngineSteps Backend.
Open Scope Z_scope.

Record MemoryStore := { _engine : Engine; _closed : bool }.

Module Memory.
Definition __init__ : MemoryStore := {| _engine := Engine.__init__; _closed := false |}.

Definition _open (self : MemoryStore) : result Engine :=
  if _closed self then Raise ClosedError else Ok (_engine self).

(** The engine after a mutation. *)
Definition put (self : MemoryStore) (engine : Engine) : MemoryStore :=
  {| _engine := engine; _closed := _closed self |}.

Definition entry_count (self : MemoryStore) : result Z :=
  let! engine := _open self in Ok (Engine.snapshot engine).1.

Definition scan_entries (self : MemoryStore) (after_seq limit : pyval) : result (list Entry) :=
  let! engine := _open self in Engine.scan_entries engine after_seq limit.

Definition append (self : MemoryStore) (input : arg Arg.AppendInput) : MemoryStore * result AppendResult :=
  match _open self with
  | Raise e => (self, Raise e)
  | Ok engine =>
      match Engine.append engine input with
      | Raise e => (self, Raise e)
      | Ok (r, engine) => (put self engine, Ok r)
      end
  end.

Definition get_entry (self : MemoryStore) (value : pyval) : result Entry :=
  let! engine := _open self in Engine.get_entry engine value.

Definition load_cll (self : MemoryStore) : result CllState :=
  let! engine := _open self in Ok (_state engine).

Definition commit_cll (self : MemoryStore) (expected_size expected_checkpoint : pyval) (next : arg Arg.CllState)
  : MemoryStore * result () :=
  match _open self with
  | Raise e => (self, Raise e)
  | Ok engine =>
      match Engine.commit_cll engine expected_size expected_checkpoint next with
      | Raise e => (self, Raise e)
      | Ok engine => (put self engine, Ok ())
      end
  end.

Definition pending_witnesses (self : MemoryStore) (now limit : pyval) : result (list WitnessState) :=
  let! engine := _open self in Engine.pending_witnesses engine now limit.

Definition pending_witnesses_for (self : MemoryStore) (witness_id now limit : pyval) : result (list WitnessState) :=
  let! engine := _open self in Engine.pending_witnesses_for engine witness_id now limit.

Definition get_witness (self : MemoryStore) (witness_id checkpoint_size : pyval) : result (option WitnessState) :=
  let! engine := _open self in Engine.get_witness engine witness_id checkpoint_size.

Definition commit_witness (self : MemoryStore) (expected_attempts : pyval) (next : arg Arg.WitnessState)
  : MemoryStore * result () :=
  match _open self with
  | Raise e => (self, Raise e)
  | Ok engine =>
      match Engine.commit_witness engine expected_attempts next with
      | Raise e => (self, Raise e)
      | Ok engine => (put self engine, Ok ())
      end
  end.

Definition close (self : MemoryStore) : MemoryStore := {| _engine := _engine self; _closed := true |}.
End Memory.

(** ** The instance *)
Definition memory_mutate (self : MemoryStore) (m : mutation) (env : ()) : MemoryStore * result (option AppendResult) :=
  match m with
  | MAppend input => let '(self, r) := Memory.append self input in (self, let! r := r in Ok (Some r))
  | MCommit size checkpoint next =>
      let '(self, r) := Memory.commit_cll self size checkpoint next in (self, let! _ := r in Ok None)
  | MWitness attempts next =>
      let '(self, r) := Memory.commit_witness self attempts next in (self, let! _ := r in Ok None)
  end.

Definition memory_view (self : MemoryStore) : option Engine :=
  if _closed self then None else Some (_engine self).

(** A mutation of the memory backend is the engine's, on every branch. *)
Lemma memory_mutate_eq self m env :
  memory_mutate self m env =
  match Memory._open self with
  | Raise e => (self, Raise e)
  | Ok engine =>
      match run_engine engine m with
      | Raise e => (self, Raise e)
      | Ok (r, engine) => (Memory.put self engine, Ok r)
      end
  end.
Proof.
  unfold memory_mutate, Memory.append, Memory.commit_cll, Memory.commit_witness.
  destruct m as [input|es ec next|ea next]; cbn [run_engine]; (destruct (Memory._open self) as [engine|]; [|done]).
  - by destruct (Engine.append engine input) as [[? ?]|].
  - by destruct (Engine.commit_cll _ _ _ _).
  - by destruct (Engine.commit_witness _ _ _).
Qed.

#[export] Instance memory_backend : Backend MemoryStore ().
Proof.
  refine {|
    view := memory_view;
    sound := fun self => wf (_engine self);
    mutate := memory_mutate;
    query := fun A self read => let! engine := Memory._open self in read engine;
    sound_wf := _; mutate_open := _; mutate_closed := _; query_eq := _
  |}.
  - intros s engine Hs. unfold memory_view. destruct (_closed s); [done|]. by intros [= <-].
  - intros s m env engine Hs Hv _. rewrite memory_mutate_eq. unfold memory_view in Hv. unfold Memory._open.
    destruct (_closed s) eqn:Ec; [done|]. injection Hv as <-.
    destruct (run_engine (_engine s) m) as [[r engine']|] eqn:E.
    + exists engine'. split_and!; [done|unfold memory_view; cbn; by rewrite Ec|]. cbn.
      by apply (step_wf _ _ Hs (run_engine_step _ _ _ _ E)).
    + left. unfold memory_view. by rewrite Ec.
  - intros s m env Hv. rewrite memory_mutate_eq. unfold memory_view in Hv. unfold Memory._open. by destruct (_closed s).
  - intros A s read. unfold memory_view, Memory._open. by destruct (_closed s).
Defined.

(** The memory backend is the engine until it is closed: an open store
    answers every call as the engine does and keeps the engine's new state, a
    closed one raises [ClosedError] for every call and keeps its state, and
    closing is idempotent. *)
Lemma memory_refines_engine (self : MemoryStore) (m : mutation) :
  (_closed self = false ->
   memory_mutate self m () =
     match run_engine (_engine self) m with
     | Ok (r, engine) => ({| _engine := engine; _closed := false |}, Ok r)
     | Raise e => (self, Raise e)
     end) /\
  (_closed self = true -> memory_mutate self m () = (self, Raise ClosedError)) /\
  Memory.close (Memory.close self) = Memory.close self /\
  memory_view (Memory.close self) = None /\
  (forall value, Memory.get_entry (Memory.close self) value = Raise ClosedError) /\
  (forall a l, Memory.scan_entries (Memory.close self) a l = Raise ClosedError) /\
  Memory.load_cll (Memory.close self) = Raise ClosedError /\
  (_closed self = false -> forall value, Memory.get_entry self value = Engine.get_entry (_engine self) value) /\
  (_closed self = false -> forall a l, Memory.scan_entries self a l = Engine.scan_entries (_engine self) a l).
Proof.
  rewrite memory_mutate_eq. unfold Memory._open, Memory.get_entry, Memory.scan_entries, Memory._open, Memory.put.
  split_and!; try done; try (intros ->; done).
Qed.
