(* ===== verification/Calendar.v ===== *)
(** * Calendar and portable times

    The proleptic Gregorian calendar of [datetime], and [format_time] and
    [parse_time] of [src/python/log/wire.py]: the [toISOString] form, with
    three fraction digits and years 0001..9999. *)
From S2P Require Import Prelude Bytes Py Cll Json JsonProps.
Open Scope Z_scope.

(** ** Dates *)
Definition is_leap (y : Z) : bool := (y mod 4 =? 0) && (negb (y mod 100 =? 0) || (y mod 400 =? 0)).

Definition days_in_month (y m : Z) : Z :=
  if m =? 2 then (if is_leap y then 29 else 28)
  else if bool_decide (m ∈ [4; 6; 9; 11]) then 30 else 31.

(** Days before January 1 of year [y], counted from 0001-01-01. *)
Definition days_before_year (y : Z) : Z :=
  let k := y - 1 in k * 365 + k / 4 - k / 100 + k / 400.

(** Days in the [k] months before month [1 + k]. *)
Fixpoint days_before_month (y : Z) (k : nat) : Z :=
  match k with
  | O => 0
  | S k => days_before_month y k + days_in_month y (Z.of_nat k + 1)
  end.

Definition date_days (y m d : Z) : Z :=
  days_before_year y + days_before_month y (Z.to_nat (m - 1)) + (d - 1).

Definition valid_date (y m d : Z) : bool :=
  (1 <=? y) && (y <=? 9999) && (1 <=? m) && (m <=? 12) && (1 <=? d) && (d <=? days_in_month y m).

(** The year of a day: an estimate from the mean year, corrected by one. *)
Definition year_of (n : Z) : Z :=
  let y := n * 400 / 146097 + 1 in
  if n <? days_before_year y then y - 1
  else if days_before_year (y + 1) <=? n then y + 1
  else y.

(** The month and day of the [n]th day of year [y] after the first [k] months. *)
Fixpoint month_of (fuel : nat) (y m n : Z) : Z * Z :=
  match fuel with
  | O => (m, n + 1)
  | S fuel => if n <? days_in_month y m then (m, n + 1) else month_of fuel y (m + 1) (n - days_in_month y m)
  end.

Definition days_date (n : Z) : Z * (Z * Z) :=
  let y := year_of n in (y, month_of 12 y 1 (n - days_before_year y)).

(** ** The fields of an instant *)
Definition DAY : Z := 86400000.

Definition clock_millis (hour minute second millis : Z) : Z :=
  ((hour * 60 + minute) * 60 + second) * 1000 + millis.

(** [%0kd] *)
Definition pad (k : nat) (n : Z) : pystr := repeat 48 (k - length (str_nat n)) ++ str_nat n.

Definition iso (t : instant) : pystr :=
  let '(y, (m, d)) := days_date (t / DAY) in
  let r := t mod DAY in
  pad 4 y ++ [45] ++ pad 2 m ++ [45] ++ pad 2 d ++ [84] ++ pad 2 (r / 3600000) ++ [58]
  ++ pad 2 (r / 60000 mod 60) ++ [58] ++ pad 2 (r / 1000 mod 60) ++ [46] ++ pad 3 (r mod 1000) ++ [90].

Definition format_time (value : pyval) : result pystr :=
  let! t := normalize_time value InvalidError in Ok (iso t).

(** One group of the pattern: [n] digits and the separator after them. *)
Definition group (n : nat) (sep : Z) (s : pystr) : option (Z * pystr) :=
  let digits := take n s in
  match drop n s with
  | c :: rest =>
      if (zlen digits =? Z.of_nat n) && forallb is_digit digits && (c =? sep) then Some (dec_value digits, rest)
      else None
  | [] => None
  end.

Definition match_time (s : pystr) : option (Z * Z * Z * Z * Z * Z * Z) :=
  match group 4 45 s with None => None | Some (y, s) =>
  match group 2 45 s with None => None | Some (mo, s) =>
  match group 2 84 s with None => None | Some (d, s) =>
  match group 2 58 s with None => None | Some (h, s) =>
  match group 2 58 s with None => None | Some (mi, s) =>
  match group 2 46 s with None => None | Some (sec, s) =>
  match group 3 90 s with Some (ms, []) => Some (y, mo, d, h, mi, sec, ms) | _ => None
  end end end end end end end.

Definition parse_time (text : option pystr) (error : exn) : result instant :=
  let! s := match text with Some s => Ok s | None => Raise error end in
  match match_time s with
  | None => Raise error
  | Some (year, month, day, hour, minute, second, millis) =>
      if valid_date year month day && (hour <? 24) && (minute <? 60) && (second <? 60)
      then Ok (date_days year month day * DAY + clock_millis hour minute second millis)
      else Raise error
  end.

(** ** The calendar is a bijection *)
Lemma leap_div y : (if is_leap y then 1 else 0) = (y / 4 - (y - 1) / 4) - (y / 100 - (y - 1) / 100) + (y / 400 - (y - 1) / 400).
Proof.
  unfold is_leap. destruct (y mod 4 =? 0) eqn:E4, (y mod 100 =? 0) eqn:E100, (y mod 400 =? 0) eqn:E400;
    cbn [andb orb negb]; zbool; Z.to_euclidean_division_equations; lia.
Qed.

Lemma year_length y : days_before_year (y + 1) = days_before_year y + 365 + (if is_leap y then 1 else 0).
Proof. unfold days_before_year. rewrite leap_div, Z.add_simpl_r. lia. Qed.

Lemma year_mono y z : y <= z -> days_before_year y <= days_before_year z.
Proof. intros H. unfold days_before_year. Z.to_euclidean_division_equations. lia. Qed.

Lemma year_of_spec n : 0 <= n -> days_before_year (year_of n) <= n < days_before_year (year_of n + 1).
Proof.
  intros Hn. unfold year_of. set (y := n * 400 / 146097 + 1).
  assert (days_before_year (y - 1) <= n) as H1 by (unfold y, days_before_year; Z.to_euclidean_division_equations; lia).
  assert (n < days_before_year (y + 1 + 1)) as H2 by (unfold y, days_before_year; Z.to_euclidean_division_equations; lia).
  destruct (n <? days_before_year y) eqn:E1; zbool; [rewrite Z.sub_add; lia|].
  destruct (days_before_year (y + 1) <=? n) eqn:E2; zbool; lia.
Qed.

Lemma year_unique n y z :
  days_before_year y <= n < days_before_year (y + 1) -> days_before_year z <= n < days_before_year (z + 1) -> y = z.
Proof.
  intros Hy Hz. destruct (Z.lt_trichotomy y z) as [H|[H|H]]; [|done|].
  - pose proof (year_mono (y + 1) z ltac:(lia)). lia.
  - pose proof (year_mono (z + 1) y ltac:(lia)). lia.
Qed.

Lemma month_pos y m : 28 <= days_in_month y m <= 31.
Proof. unfold days_in_month. repeat case_match; lia. Qed.

Lemma months_of_year y : days_before_month y 12 = 365 + (if is_leap y then 1 else 0).
Proof.
  cbn [days_before_month]. unfold days_in_month. generalize (is_leap y). intros []; vm_compute; reflexivity.
Qed.

Lemma months_mono y j k : (j <= k)%nat -> days_before_month y j <= days_before_month y k.
Proof.
  induction 1 as [|k Hk IH]; [lia|]. cbn [days_before_month]. pose proof (month_pos y (Z.of_nat k + 1)). lia.
Qed.

(** The search finds the month of day [n], at or after month [1 + j]. *)
Lemma month_of_spec fuel y j n :
  0 <= n < days_before_month y (j + fuel) - days_before_month y j ->
  exists k d, month_of fuel y (Z.of_nat j + 1) n = (Z.of_nat k + 1, d) /\ (j <= k < j + fuel)%nat /\
    1 <= d <= days_in_month y (Z.of_nat k + 1) /\
    days_before_month y j + n = days_before_month y k + (d - 1).
Proof.
  revert j n. induction fuel as [|fuel IH]; intros j n Hn; [rewrite Nat.add_0_r in Hn; lia|].
  cbn [month_of]. destruct (n <? days_in_month y (Z.of_nat j + 1)) eqn:E; zbool.
  - exists j, (n + 1). split_and!; [done|lia|lia|lia|lia|lia].
  - replace (Z.of_nat j + 1 + 1) with (Z.of_nat (S j) + 1) by lia.
    destruct (IH (S j) (n - days_in_month y (Z.of_nat j + 1))) as (k & d & Hm & Hk & Hd & Heq).
    { replace (S j + fuel)%nat with (j + S fuel)%nat by lia. cbn [days_before_month]. lia. }
    exists k, d. split_and!; [done|lia|lia|lia|lia|]. cbn [days_before_month] in Heq. lia.
Qed.

Lemma month_unique y j k d e :
  1 <= d <= days_in_month y (Z.of_nat j + 1) -> 1 <= e <= days_in_month y (Z.of_nat k + 1) ->
  days_before_month y j + (d - 1) = days_before_month y k + (e - 1) -> j = k /\ d = e.
Proof.
  intros Hd He Heq. destruct (Nat.lt_trichotomy j k) as [H|[->|H]]; [|split; lia|].
  - pose proof (months_mono y (S j) k ltac:(lia)) as Hm. cbn [days_before_month] in Hm. lia.
  - pose proof (months_mono y (S k) j ltac:(lia)) as Hm. cbn [days_before_month] in Hm. lia.
Qed.

Lemma valid_date_spec y m d :
  valid_date y m d = true <-> 1 <= y <= 9999 /\ 1 <= m <= 12 /\ 1 <= d <= days_in_month y m.
Proof. unfold valid_date. rewrite !andb_true_iff, !Z.leb_le. tauto. Qed.

Definition DAYS : Z := 3652059.

Lemma days_date_spec n :
  0 <= n < DAYS -> exists y m d, days_date n = (y, (m, d)) /\ valid_date y m d = true /\ date_days y m d = n.
Proof.
  intros Hn. unfold days_date. pose proof (year_of_spec n (proj1 Hn)) as Hy. set (y := year_of n) in *.
  pose proof (year_length y) as Hl.
  destruct (month_of_spec 12 y 0 (n - days_before_year y)) as (k & d & Hm & Hk & Hd & Heq).
  { cbn [Nat.add]. rewrite months_of_year. cbn [days_before_month]. lia. }
  change (Z.of_nat 0 + 1) with 1 in Hm. rewrite Hm. exists y, (Z.of_nat k + 1), d.
  assert (1 <= y <= 9999).
  { split.
    - destruct (decide (1 <= y)); [done|]. pose proof (year_mono (y + 1) 1 ltac:(lia)) as H.
      change (days_before_year 1) with 0 in H. lia.
    - destruct (decide (y <= 9999)); [done|]. pose proof (year_mono 10000 y ltac:(lia)) as H.
      change (days_before_year 10000) with DAYS in H. lia. }
  split_and!; [done|apply valid_date_spec; lia|]. unfold date_days. rewrite Z.add_simpl_r, Nat2Z.id.
  cbn [days_before_month] in Heq. lia.
Qed.

Lemma date_days_range y m d : valid_date y m d = true ->
  days_before_year y <= date_days y m d < days_before_year (y + 1) /\ 0 <= date_days y m d < DAYS.
Proof.
  intros (Hy & Hm & Hd)%valid_date_spec. unfold date_days.
  pose proof (months_mono y 0 (Z.to_nat (m - 1)) ltac:(lia)). cbn [days_before_month] in *.
  pose proof (months_mono y (S (Z.to_nat (m - 1))) 12 ltac:(lia)) as H12. rewrite months_of_year in H12.
  cbn [days_before_month] in H12. replace (Z.of_nat (Z.to_nat (m - 1)) + 1) with m in H12 by lia.
  pose proof (year_length y). pose proof (year_mono 1 y ltac:(lia)). pose proof (year_mono (y + 1) 10000 ltac:(lia)).
  change (days_before_year 1) with 0 in *. change (days_before_year 10000) with DAYS in *. lia.
Qed.

Lemma days_date_days y m d : valid_date y m d = true -> days_date (date_days y m d) = (y, (m, d)).
Proof.
  intros Hv. pose proof (date_days_range y m d Hv) as [Hr Hb].
  destruct (days_date_spec _ Hb) as (y' & m' & d' & E & Hv' & Heq). rewrite E.
  pose proof (date_days_range _ _ _ Hv') as [Hr' _]. rewrite Heq in Hr'.
  assert (y' = y) as -> by (by eapply year_unique). apply valid_date_spec in Hv as (_ & Hm & Hd).
  apply valid_date_spec in Hv' as (_ & Hm' & Hd'). unfold date_days in Heq.
  destruct (month_unique y (Z.to_nat (m' - 1)) (Z.to_nat (m - 1)) d' d) as [Hj ->].
  - by replace (Z.of_nat (Z.to_nat (m' - 1)) + 1) with m' by lia.
  - by replace (Z.of_nat (Z.to_nat (m - 1)) + 1) with m by lia.
  - lia.
  - do 2 f_equal. lia.
Qed.

(** ** Fixed-width fields *)
Lemma dec_value_app s k : dec_value (s ++ k) = dec_value s * 10 ^ zlen k + dec_value k.
Proof.
  induction k as [|c k IH] using rev_ind; [rewrite app_nil_r, zlen_nil, Z.pow_0_r; change (dec_value []) with 0; lia|].
  rewrite app_assoc, !dec_value_snoc, IH, zlen_app. change (zlen [c]) with 1.
  rewrite Z.pow_add_r by (apply zlen_nonneg || lia). lia.
Qed.

Lemma dec_value_range s : Forall (fun c => is_digit c = true) s -> 0 <= dec_value s < 10 ^ zlen s.
Proof.
  induction s as [|c s IH] using rev_ind; [done|]. intros [Hs Hc]%Forall_app. apply Forall_cons in Hc as [Hc _].
  apply digit_range in Hc. rewrite dec_value_snoc, zlen_app. change (zlen [c]) with 1.
  rewrite Z.pow_add_r by (apply zlen_nonneg || lia). specialize (IH Hs). lia.
Qed.

(** A digit string is determined by its length and its value. *)
Lemma digits_inj s k :
  Forall (fun c => is_digit c = true) s -> Forall (fun c => is_digit c = true) k ->
  length s = length k -> dec_value s = dec_value k -> s = k.
Proof.
  revert k. induction s as [|c s IH] using rev_ind; intros k Hs Hk Hl Hv.
  { destruct k; [done|]. by cbn in Hl. }
  destruct k as [|d k _] using rev_ind; [rewrite length_app in Hl; cbn in Hl; lia|].
  apply Forall_app in Hs as [Hs Hc], Hk as [Hk Hd]. apply Forall_cons in Hc as [Hc _], Hd as [Hd _].
  apply digit_range in Hc, Hd. rewrite !dec_value_snoc in Hv. rewrite !length_app in Hl. cbn in Hl.
  assert (dec_value s = dec_value k /\ c = d) as [Hv' ->] by lia.
  f_equal. apply IH; try done. lia.
Qed.

Lemma pad_spec k n :
  0 <= n < 10 ^ Z.of_nat k -> (0 < k)%nat ->
  length (pad k n) = k /\ Forall (fun c => is_digit c = true) (pad k n) /\ dec_value (pad k n) = n.
Proof.
  intros Hn Hk. pose proof (str_nat_length n k Hn). unfold pad. split_and!.
  - rewrite length_app, repeat_length. lia.
  - apply Forall_app_2; [|apply str_nat_digits; lia]. apply Forall_forall.
    intros c Hc. apply list_elem_of_In, repeat_spec in Hc. by subst c.
  - rewrite dec_value_app, str_nat_value by lia.
    assert (dec_value (repeat 48 (k - length (str_nat n))) = 0) as ->; [|lia].
    induction (k - length (str_nat n))%nat as [|j IH]; [done|]. change (repeat 48 (S j)) with ([48] ++ repeat 48 j).
    rewrite dec_value_app, IH. change (dec_value [48]) with 0. lia.
Qed.

Lemma pad_value k s : Forall (fun c => is_digit c = true) s -> length s = k -> (0 < k)%nat -> pad k (dec_value s) = s.
Proof.
  intros Hs Hl Hk. pose proof (dec_value_range s Hs) as Hr. unfold zlen in Hr. rewrite Hl in Hr.
  destruct (pad_spec k _ Hr Hk) as (Hl' & Hd & Hv). apply digits_inj; [done|done|lia|done].
Qed.

Lemma group_pad k n sep rest :
  0 <= n < 10 ^ Z.of_nat k -> (0 < k)%nat -> group k sep (pad k n ++ [sep] ++ rest) = Some (n, rest).
Proof.
  intros Hn Hk. destruct (pad_spec k n Hn Hk) as (Hl & Hd & Hv). unfold group.
  rewrite take_app_length', drop_app_length' by done. unfold zlen. rewrite Hl, Z.eqb_refl, Hv.
  cbn [app andb]. assert (forallb is_digit (pad k n) = true) as ->; [|by rewrite Z.eqb_refl].
  apply forallb_forall. intros c Hc. rewrite Forall_forall in Hd. apply Hd. by apply list_elem_of_In.
Qed.

Lemma group_inv k sep s n rest :
  group k sep s = Some (n, rest) -> (0 < k)%nat -> s = pad k n ++ [sep] ++ rest /\ 0 <= n < 10 ^ Z.of_nat k.
Proof.
  unfold group. destruct (drop k s) as [|c r] eqn:Ed; [done|]. destruct (_ && _) eqn:E; [|done].
  intros [= <- <-] Hk. zbool. subst c.
  assert (Forall (fun c => is_digit c = true) (take k s)) as Hf.
  { apply Forall_forall. intros c Hc. apply (proj1 (forallb_forall _ _)) with (x := c) in H1; [done|]. by apply list_elem_of_In. }
  unfold zlen in *. rewrite pad_value by (done || lia). split.
  - cbn [app]. rewrite <- Ed. by rewrite take_drop.
  - pose proof (dec_value_range _ Hf) as Hr. unfold zlen in Hr. by rewrite H in Hr.
Qed.

(** ** Round trips *)
Lemma parse_iso t error : is_instant t -> parse_time (Some (iso t)) error = Ok t.
Proof.
  intros Ht. unfold is_instant, MAX_INSTANT in Ht.
  assert (0 <= t / DAY < DAYS) as Hd.
  { unfold DAY, DAYS. split; [apply Z.div_pos|apply Z.div_lt_upper_bound]; lia. }
  destruct (days_date_spec _ Hd) as (y & m & d & E & Hv & Heq). unfold iso. rewrite E.
  pose proof (proj1 (valid_date_spec _ _ _) Hv) as (Hy & Hm & Hdd). pose proof (month_pos y m).
  pose proof (Z.div_mod t DAY ltac:(done)) as Hdm. pose proof (Z.mod_pos_bound t DAY ltac:(done)) as Hr.
  set (r := t mod DAY) in *. unfold DAY in Hr.
  assert (0 <= r / 3600000 < 24) as Hh by (split; [apply Z.div_pos|apply Z.div_lt_upper_bound]; lia).
  pose proof (Z.mod_pos_bound (r / 60000) 60 ltac:(lia)). pose proof (Z.mod_pos_bound (r / 1000) 60 ltac:(lia)).
  pose proof (Z.mod_pos_bound r 1000 ltac:(lia)).
  unfold parse_time, match_time. rewrite !group_pad by lia.
  rewrite <- (app_nil_r [90]), group_pad by lia. rewrite Hv.
  rw_bool (r / 3600000 <? 24) true. rw_bool (r / 60000 mod 60 <? 60) true. rw_bool (r / 1000 mod 60 <? 60) true.
  cbn [andb]. rewrite Heq. f_equal. unfold clock_millis.
  assert ((r / 3600000 * 60 + r / 60000 mod 60) = r / 60000) as ->.
  { replace 3600000 with (60000 * 60) by lia. rewrite <- Z.div_div by lia. pose proof (Z.div_mod (r / 60000) 60). lia. }
  assert (r / 60000 * 60 + r / 1000 mod 60 = r / 1000) as ->.
  { replace 60000 with (1000 * 60) by lia. rewrite <- Z.div_div by lia. pose proof (Z.div_mod (r / 1000) 60). lia. }
  pose proof (Z.div_mod r 1000). lia.
Qed.

Lemma parse_time_inv s error t :
  parse_time s error = Ok t -> exists text, s = Some text /\ text = iso t /\ is_instant t.
Proof.
  unfold parse_time. destruct s as [s|]; [|done]. destruct (match_time s) as [[[[[[[y mo] d] h] mi] sec] ms]|] eqn:E; [|done].
  destruct (_ && _) eqn:Ev; [|done]. intros [= <-]. zbool. exists s. split; [done|]. unfold match_time in E.
  repeat match type of E with
  | match ?g with Some _ => _ | None => None end = _ =>
      let F := fresh "F" in destruct g as [[? ?]|] eqn:F; [|discriminate E];
      apply group_inv in F as [-> ?]; [|lia] end.
  match type of E with match ?l with [] => _ | _ => _ end = _ => destruct l; [|discriminate E] end.
  injection E as -> -> -> -> -> -> ->.
  pose proof (date_days_range _ _ _ H) as [_ Hd]. set (n := date_days y mo d) in *.
  set (c := clock_millis h mi sec ms). assert (0 <= c < DAY) as Hc by (unfold c, clock_millis, DAY; lia).
  assert ((n * DAY + c) / DAY = n) as Hdiv.
  { rewrite Z.add_comm, Z.div_add, Z.div_small by (done || lia). lia. }
  assert ((n * DAY + c) mod DAY = c) as Hmod.
  { rewrite Z.add_comm, Z.mod_add, Z.mod_small by (done || lia). lia. }
  split; [|unfold is_instant, MAX_INSTANT, DAYS, DAY in *; lia].
  unfold iso. rewrite Hdiv, Hmod. unfold n. rewrite days_date_days by done.
  assert (c / 3600000 = h) as -> by (unfold c, clock_millis; Z.to_euclidean_division_equations; lia).
  assert (c / 60000 mod 60 = mi) as -> by (unfold c, clock_millis; Z.to_euclidean_division_equations; lia).
  assert (c / 1000 mod 60 = sec) as -> by (unfold c, clock_millis; Z.to_euclidean_division_equations; lia).
  assert (c mod 1000 = ms) as -> by (unfold c, clock_millis; Z.to_euclidean_division_equations; lia).
  done.
Qed.

Lemma parse_time_raise s error e : parse_time s error = Raise e -> e = error.
Proof. unfold parse_time. destruct s; [|congruence]. repeat case_match; congruence. Qed.

Lemma pad_ascii k n : 0 <= n < 10 ^ Z.of_nat k -> (0 < k)%nat -> Forall (fun c => 0 <= c < 128) (pad k n).
Proof.
  intros Hn Hk. destruct (pad_spec k n Hn Hk) as (_ & Hd & _). eapply Forall_impl; [exact Hd|].
  intros c Hc%digit_range. lia.
Qed.

Lemma iso_ascii t : is_instant t -> Forall (fun c => 0 <= c < 128) (iso t).
Proof.
  intros Ht. unfold is_instant, MAX_INSTANT in Ht.
  assert (0 <= t / DAY < DAYS) as Hd.
  { unfold DAY, DAYS. split; [apply Z.div_pos|apply Z.div_lt_upper_bound]; lia. }
  destruct (days_date_spec _ Hd) as (y & m & d & E & Hv & _). unfold iso. rewrite E.
  apply valid_date_spec in Hv as (Hy & Hm & Hdd). pose proof (month_pos y m).
  pose proof (Z.mod_pos_bound t DAY ltac:(done)) as Hr. set (r := t mod DAY) in *. unfold DAY in Hr.
  assert (0 <= r / 3600000 < 24) by (split; [apply Z.div_pos|apply Z.div_lt_upper_bound]; lia).
  pose proof (Z.mod_pos_bound (r / 60000) 60 ltac:(lia)). pose proof (Z.mod_pos_bound (r / 1000) 60 ltac:(lia)).
  pose proof (Z.mod_pos_bound r 1000 ltac:(lia)).
  repeat first [apply Forall_app_2; [apply pad_ascii; lia|]|apply Forall_cons; split; [lia|]|apply Forall_nil; exact I].
Qed.
