(* ===== verification/Base64.v ===== *)
(** * Base64 byte strings

    [encode_bytes] and [decode_bytes] of [src/python/log/wire.py] over the
    standard library's [base64.b64encode] and [b64decode(validate=True)]:
    RFC 4648 with padding, and only the canonical text of a value decodes. *)
From S2P Require Import Prelude Bytes.
Open Scope Z_scope.

Definition b64_char (n : Z) : Z :=
  if n <? 26 then 65 + n
  else if n <? 52 then 97 + (n - 26)
  else if n <? 62 then 48 + (n - 52)
  else if n =? 62 then 43 else 47.

Definition b64_value (c : Z) : option Z :=
  if (65 <=? c) && (c <=? 90) then Some (c - 65)
  else if (97 <=? c) && (c <=? 122) then Some (c - 97 + 26)
  else if (48 <=? c) && (c <=? 57) then Some (c - 48 + 52)
  else if c =? 43 then Some 62
  else if c =? 47 then Some 63
  else None.

Fixpoint b64encode (bs : bytes) : pystr :=
  match bs with
  | [] => []
  | [a] => let a := b2z a in [b64_char (a / 4); b64_char (a mod 4 * 16); 61; 61]
  | [a; b] =>
      let a := b2z a in let b := b2z b in
      [b64_char (a / 4); b64_char (a mod 4 * 16 + b / 16); b64_char (b mod 16 * 4); 61]
  | a :: b :: c :: rest =>
      let a := b2z a in let b := b2z b in let c := b2z c in
      b64_char (a / 4) :: b64_char (a mod 4 * 16 + b / 16) :: b64_char (b mod 16 * 4 + c / 64)
        :: b64_char (c mod 64) :: b64encode rest
  end.

(** [binascii.Error] is a [ValueError]; bits beyond the last byte are dropped. *)
Fixpoint b64decode (s : pystr) : result bytes :=
  match s with
  | [] => Ok []
  | a :: b :: c :: d :: rest =>
      match b64_value a, b64_value b with
      | Some a, Some b =>
          if (d =? 61) && bool_decide (rest = []) then
            if c =? 61 then Ok [z2b (a * 4 + b / 16)]
            else match b64_value c with
                 | Some c => Ok [z2b (a * 4 + b / 16); z2b (b mod 16 * 16 + c / 4)]
                 | None => Raise ValueError
                 end
          else
            match b64_value c, b64_value d with
            | Some c, Some d =>
                let! tl := b64decode rest in
                Ok (z2b (a * 4 + b / 16) :: z2b (b mod 16 * 16 + c / 4) :: z2b (c mod 4 * 64 + d) :: tl)
            | _, _ => Raise ValueError
            end
      | _, _ => Raise ValueError
      end
  | _ => Raise ValueError
  end.

Definition encode_bytes (value : bytes) : pystr := b64encode value.

Definition decode_bytes (text : option pystr) (error : exn) : result bytes :=
  match text with
  | None => Raise error
  | Some text =>
      match b64decode text with
      | Raise _ => Raise error
      | Ok decoded => if bool_decide (b64encode decoded = text) then Ok decoded else Raise error
      end
  end.

(** ** Correctness *)
Lemma b64_value_char n : 0 <= n < 64 -> b64_value (b64_char n) = Some n.
Proof.
  intros Hn. unfold b64_char, b64_value.
  destruct (n <? 26) eqn:E1; zbool.
  { rw_bool (65 <=? 65 + n) true. rw_bool (65 + n <=? 90) true. cbn [andb]. f_equal. lia. }
  destruct (n <? 52) eqn:E2; zbool.
  { rw_bool (97 + (n - 26) <=? 90) false. rewrite andb_false_r. rw_bool (97 <=? 97 + (n - 26)) true.
    rw_bool (97 + (n - 26) <=? 122) true. cbn [andb]. f_equal. lia. }
  destruct (n <? 62) eqn:E3; zbool.
  { rw_bool (65 <=? 48 + (n - 52)) false. rw_bool (97 <=? 48 + (n - 52)) false.
    rw_bool (48 <=? 48 + (n - 52)) true. rw_bool (48 + (n - 52) <=? 57) true. cbn [andb]. f_equal. lia. }
  destruct (n =? 62) eqn:E4; zbool; [by subst n|]. by assert (n = 63) as -> by lia.
Qed.

Lemma b64_char_not_pad n : 0 <= n < 64 -> (b64_char n =? 61) = false.
Proof.
  intros Hn. apply Z.eqb_neq. intros E. pose proof (b64_value_char n Hn) as H. by rewrite E in H.
Qed.

Ltac byte_bounds :=
  repeat match goal with
  | b : Byte.byte |- _ => lazymatch goal with
      | H : 0 <= b2z b < 256 |- _ => fail
      | _ => pose proof (b2z_range b) end
  end.

Lemma z2b_eq b z : z = b2z b -> z2b z = b.
Proof. intros ->. apply z2b_b2z. Qed.

Ltac divlia := byte_bounds; Z.to_euclidean_division_equations; lia.

Lemma b64_roundtrip bs : b64decode (b64encode bs) = Ok bs.
Proof.
  induction bs as [[|a [|b [|c bs]]] IH] using (induction_ltof1 _ (@length byte)); unfold ltof in IH; [done| | |];
    cbn [b64encode b64decode].
  - rewrite !b64_value_char by divlia. cbn [Z.eqb Pos.eqb andb]. rewrite bool_decide_true by done.
    do 2 f_equal. apply z2b_eq. divlia.
  - rewrite !b64_value_char, b64_char_not_pad by divlia. cbn [Z.eqb Pos.eqb andb]. rewrite bool_decide_true by done.
    f_equal. f_equal; [apply z2b_eq; divlia|]. f_equal. apply z2b_eq. divlia.
  - rewrite !b64_value_char, b64_char_not_pad by divlia. cbn [andb]. rewrite IH by (cbn; lia).
    f_equal. f_equal; [apply z2b_eq; divlia|]. f_equal; [apply z2b_eq; divlia|]. f_equal. apply z2b_eq. divlia.
Qed.

(** Exactly the canonical text of a value decodes, to that value. *)
Lemma decode_bytes_Ok text error bs : decode_bytes (Some text) error = Ok bs <-> text = encode_bytes bs.
Proof.
  unfold decode_bytes, encode_bytes. split.
  - destruct (b64decode text) as [d|]; [|done]. case_bool_decide as E; [|done]. by intros [= <-].
  - intros ->. rewrite b64_roundtrip. by rewrite bool_decide_true.
Qed.

Lemma decode_bytes_raise text error e : decode_bytes text error = Raise e -> e = error.
Proof. unfold decode_bytes. repeat case_match; congruence. Qed.

Lemma encode_bytes_ascii bs : Forall (fun c => 0 <= c < 128) (encode_bytes bs).
Proof.
  assert (forall n, 0 <= n < 64 -> 0 <= b64_char n < 128) as Hc by (intros n Hn; unfold b64_char; repeat case_match; lia).
  unfold encode_bytes.
  induction bs as [[|a [|b [|c bs]]] IH] using (induction_ltof1 _ (@length byte)); unfold ltof in IH;
    [constructor| | |]; cbn [b64encode]; repeat constructor; try (apply Hc; divlia); try lia.
  apply IH. cbn. lia.
Qed.
