(* ===== verification/Emit.v ===== *)
(** * Checkpoint records

    [src/python/checkpoint/emit.py]: the signed snapshot of an MMR's peaks,
    its signing body and digest, emission with rollback detection, the
    witness stamps and the grade they give. A field that a caller or a stored
    file supplies may hold any JSON value. The signer, the witness's HTTP
    route and the receipt library are parameters. *)
From S2P Require Import Prelude Bytes Text Py Json JsonProps PyJson Sha256 MmrPos Mmr Index Cll Calendar Base64 Ed25519.
From Stdlib Require Import QArith.
Open Scope Z_scope.

(** ** Policy *)
Record CheckpointConfig := {
  ts_urls : list json; cadence_entries : Z; cadence_seconds : Z; max_lag_entries : Z
}.

Definition default_config : CheckpointConfig :=
  {| ts_urls := []; cadence_entries := 100; cadence_seconds := 900; max_lag_entries := 200 |}.

Definition due_for_checkpoint (cfg : CheckpointConfig) (entries_since_last : Z) (seconds_since_last : option Q) : bool :=
  if entries_since_last <=? 0 then false
  else if cadence_entries cfg <=? entries_since_last then true
  else match seconds_since_last with
       | Some s => Qle_bool (inject_Z (cadence_seconds cfg)) s
       | None => false
       end.

Definition lag_exceeded (cfg : CheckpointConfig) (entries_since_last : Z) : bool :=
  max_lag_entries cfg <? entries_since_last.

(** ** Records *)
Record WitnessRecord := {
  w_ts_url : json; w_entry_hash : json; w_receipt_b64 : json;
  w_leaf_index : Z; w_tree_size : Z; w_is_stub : bool
}.

Record CheckpointRecord := {
  c_v : Z; c_kind : json; c_log_id : json; c_mmr_size : Z; c_root : json; c_prev_size : Z;
  c_prev_root : json; c_key_id : json; c_timestamp : json; c_signature : json;
  c_witnesses : list WitnessRecord
}.

Record Signer := { key_id : pystr; sign : pystr -> result pystr }.

Inductive Grade := SELF_ATTESTED | WITNESSED_GRADE.
Inductive StampVerdict := WITNESSED | UNVERIFIED | INVALID.

#[export] Instance verdict_eq_dec : EqDecision StampVerdict.
Proof. solve_decision. Defined.

(** Why a stamp is not accepted; the text of a library's errors is kept. *)
Inductive stamp_issue :=
| DigestNotComputed | NotBound | NotBase64 | NotEvaluated
| ReceiptErrors (errors : list pystr) | NoPinMatches | NotAReceipt (errors : list pystr)
| PinNotSupplied (ts_url : json).

(** [base64.b64decode] without [validate]: characters outside the alphabet
    are passed over, and padding at the end of a quantum ends the input. *)
Fixpoint b64_lenient (s : pystr) (quad left_ pads : Z) : result bytes :=
  match s with
  | [] => if quad =? 0 then Ok [] else Raise ValueError
  | c :: s =>
      if c =? 61 then
        if 2 <=? quad then if 4 <=? quad + (pads + 1) then Ok [] else b64_lenient s quad left_ (pads + 1)
        else b64_lenient s quad left_ pads
      else
        match b64_value c with
        | None => b64_lenient s quad left_ pads
        | Some v =>
            if quad =? 0 then b64_lenient s 1 v 0
            else if quad =? 1 then let! r := b64_lenient s 2 (v mod 16) 0 in Ok (z2b (left_ * 4 + v / 16) :: r)
            else if quad =? 2 then let! r := b64_lenient s 3 (v mod 4) 0 in Ok (z2b (left_ * 16 + v / 4) :: r)
            else let! r := b64_lenient s 0 0 0 in Ok (z2b (left_ * 64 + v) :: r)
        end
  end.

(** A string argument of [b64decode] must be ASCII text. *)
Definition b64_argument (v : json) : result pystr :=
  match v with
  | JStr s => if forallb (fun c => c <? 128) s then Ok s else Raise ValueError
  | _ => Raise TypeError
  end.

(** [bytes.fromhex(v)] *)
Definition fromhex_of (v : json) : result bytes :=
  match v with JStr s => fromhex s | _ => Raise TypeError end.

(** [strftime("%Y-%m-%dT%H:%M:%SZ")] of a time in UTC. *)
Definition second_text (t : instant) : pystr :=
  let '(y, (m, d)) := days_date (t / DAY) in
  let r := t mod DAY in
  pad 4 y ++ [45] ++ pad 2 m ++ [45] ++ pad 2 d ++ [84] ++ pad 2 (r / 3600000) ++ [58]
  ++ pad 2 (r / 60000 mod 60) ++ [58] ++ pad 2 (r / 1000 mod 60) ++ [90].

Definition encode_text (s : pystr) : result bytes :=
  match utf8_encode s with Some bs => Ok bs | None => Raise UnicodeError end.

Module WitnessRecord.
Section dicts.
Context {PI : Interp}.

Definition to_dict (self : WitnessRecord) : json :=
  JDict ([(str "ts_url", w_ts_url self); (str "entry_hash", w_entry_hash self);
          (str "receipt_b64", w_receipt_b64 self); (str "leaf_index", JInt (w_leaf_index self));
          (str "tree_size", JInt (w_tree_size self))]
         ++ if w_is_stub self then [(str "is_stub", JBool true)] else []).

Definition from_dict (d : json) : result WitnessRecord :=
  let! ts_url := subscript d (str "ts_url") in
  let! entry_hash := subscript d (str "entry_hash") in
  let! receipt_b64 := subscript d (str "receipt_b64") in
  let! leaf_index := subscript d (str "leaf_index") in
  let! leaf_index := int_of leaf_index in
  let! tree_size := subscript d (str "tree_size") in
  let! tree_size := int_of tree_size in
  let! is_stub := get_or d (str "is_stub") (JBool false) in
  Ok {| w_ts_url := ts_url; w_entry_hash := entry_hash; w_receipt_b64 := receipt_b64;
        w_leaf_index := leaf_index; w_tree_size := tree_size; w_is_stub := truthy is_stub |}.
End dicts.
End WitnessRecord.

Module CheckpointConfig.
Section dicts.
Context {PI : Interp}.

Definition to_dict (self : CheckpointConfig) : json :=
  JDict [(str "ts_urls", JList (ts_urls self)); (str "cadence_entries", JInt (cadence_entries self));
         (str "cadence_seconds", JInt (cadence_seconds self)); (str "max_lag_entries", JInt (max_lag_entries self))].

Definition from_dict (d : json) : result CheckpointConfig :=
  let! urls := get_or d (str "ts_urls") (JList []) in
  let! urls := iterate urls in
  let! entries := get_or d (str "cadence_entries") (JInt 100) in
  let! entries := int_of entries in
  let! seconds := get_or d (str "cadence_seconds") (JInt 900) in
  let! seconds := int_of seconds in
  let! lag := get_or d (str "max_lag_entries") (JInt 200) in
  let! lag := int_of lag in
  Ok {| ts_urls := urls; cadence_entries := entries; cadence_seconds := seconds; max_lag_entries := lag |}.
End dicts.
End CheckpointConfig.

Module CheckpointRecord.
Section record.
Context {PI : Interp} {HL : Hashlib}.

(** The fields the signature covers. *)
Definition body_fields (self : CheckpointRecord) : list (pystr * json) :=
  [(str "v", JInt (c_v self)); (str "kind", c_kind self); (str "log_id", c_log_id self);
   (str "mmr_size", JInt (c_mmr_size self)); (str "root", c_root self);
   (str "prev_size", JInt (c_prev_size self)); (str "prev_root", c_prev_root self);
   (str "key_id", c_key_id self); (str "timestamp", c_timestamp self)].

Definition signing_body (self : CheckpointRecord) : result pystr := dumps_sorted (JDict (body_fields self)).

Definition digest (self : CheckpointRecord) : result pystr :=
  let! body := signing_body self in
  let! bs := encode_text body in
  Ok (hex (sha256 bs)).

Definition to_dict (self : CheckpointRecord) : json :=
  JDict (body_fields self ++ [(str "signature", c_signature self)]
         ++ match c_witnesses self with
            | [] => []
            | ws => [(str "witnesses", JList (map WitnessRecord.to_dict ws))]
            end).

Definition entry_digest (self : CheckpointRecord) : result pystr :=
  let! body := dumps_sorted (to_dict self) in
  let! bs := encode_text body in
  Ok (hex (sha256 bs)).

Definition from_dict (d : json) : result CheckpointRecord :=
  let! ws := get_or d (str "witnesses") (JList []) in
  let! ws := iterate ws in
  let! witnesses := map_result WitnessRecord.from_dict ws in
  let! v := subscript d (str "v") in
  let! v := int_of v in
  let! kind := subscript d (str "kind") in
  let! log_id := subscript d (str "log_id") in
  let! mmr_size := subscript d (str "mmr_size") in
  let! mmr_size := int_of mmr_size in
  let! root := subscript d (str "root") in
  let! prev_size := subscript d (str "prev_size") in
  let! prev_size := int_of prev_size in
  let! prev_root := get_or d (str "prev_root") (JStr []) in
  let! key_id := subscript d (str "key_id") in
  let! timestamp := subscript d (str "timestamp") in
  let! signature := subscript d (str "signature") in
  Ok {| c_v := v; c_kind := kind; c_log_id := log_id; c_mmr_size := mmr_size; c_root := root;
        c_prev_size := prev_size; c_prev_root := prev_root; c_key_id := key_id;
        c_timestamp := timestamp; c_signature := signature; c_witnesses := witnesses |}.

Definition with_signature (self : CheckpointRecord) (signature : pystr) : CheckpointRecord :=
  {| c_v := c_v self; c_kind := c_kind self; c_log_id := c_log_id self; c_mmr_size := c_mmr_size self;
     c_root := c_root self; c_prev_size := c_prev_size self; c_prev_root := c_prev_root self;
     c_key_id := c_key_id self; c_timestamp := c_timestamp self; c_signature := JStr signature;
     c_witnesses := c_witnesses self |}.
End record.
End CheckpointRecord.

(** ** Emission *)
Section emit.
Context {PI : Interp} {HL : Hashlib} {L capsule St : Type} {LS : LogSource L capsule} {NS : NodeStore St}.
Implicit Types mmr : MmrLedger L St.

Definition _root_hex mmr (size : Z) : result pystr :=
  let! root := Index.root_at mmr size in Ok (hex root).

(** What the new checkpoint says of the previous one. *)
Definition check_prev mmr (log_id : pystr) (current_size : Z) (prev : option CheckpointRecord) : result (Z * json) :=
  match prev with
  | None => Ok (0, JStr [])
  | Some prev =>
      if negb (is_text (c_log_id prev) log_id) then Raise CheckpointError
      else if current_size <=? c_mmr_size prev then Raise RollbackError
      else
        let! actual_prev_root := _root_hex mmr (c_mmr_size prev) in
        if negb (is_text (c_root prev) actual_prev_root) then Raise RollbackError
        else Ok (c_mmr_size prev, c_root prev)
  end.

Definition emit_checkpoint mmr (signer : Signer) (log_id : pystr) (prev : option CheckpointRecord)
    (timestamp : option pystr) (now : instant) : result CheckpointRecord :=
  let timestamp := match timestamp with Some t => t | None => second_text now end in
  let current_size := Index.size mmr in
  if current_size =? 0 then Raise CheckpointError
  else
    let! (prev_size, prev_root) := check_prev mmr log_id current_size prev in
    let! root_hex := _root_hex mmr current_size in
    let cp := {| c_v := 1; c_kind := JStr (str "mmr_checkpoint"); c_log_id := JStr log_id;
                 c_mmr_size := current_size; c_root := JStr root_hex; c_prev_size := prev_size;
                 c_prev_root := prev_root; c_key_id := JStr (key_id signer);
                 c_timestamp := JStr timestamp; c_signature := JStr []; c_witnesses := [] |} in
    let! digest := CheckpointRecord.digest cp in
    let! sig := sign signer digest in
    Ok (CheckpointRecord.with_signature cp sig).

Definition verify_checkpoint_signature (cp : CheckpointRecord) (signer : Signer) : bool :=
  catch_false (let! digest := CheckpointRecord.digest cp in
               let! expected := sign signer digest in
               Ok (is_text (c_signature cp) expected)).

Definition verify_checkpoint_consistency (prev current : CheckpointRecord) mmr : bool :=
  catch_false
    (if negb (json_eq (c_log_id current) (c_log_id prev)) then Ok false
     else if negb (c_prev_size current =? c_mmr_size prev) then Ok false
     else if c_mmr_size current <=? c_mmr_size prev then Ok false
     else let! actual := _root_hex mmr (c_mmr_size prev) in Ok (is_text (c_prev_root current) actual)).
End emit.

(** ** Verification without the signer *)
Section offline.
Context {PI : Interp} {HL : Hashlib} {CR : Crypto} {CB : Cbor2} {SR : ScittReceipts} (room : nat).

Definition verify_checkpoint_signature_offline (cp : CheckpointRecord) : bool :=
  catch_false (let! key := fromhex_of (c_key_id cp) in
               let! digest := CheckpointRecord.digest cp in
               let! message := encode_text digest in
               let! signature := fromhex_of (c_signature cp) in
               Ok (verify key message signature)).

(** [sha256(bytes.fromhex(cp.digest())).hexdigest()] *)
Definition stamp_entry_hash (cp : CheckpointRecord) : result pystr :=
  let! digest := CheckpointRecord.digest cp in
  let! bs := fromhex digest in
  Ok (hex (sha256 bs)).

(** The stub witness's placeholder for a receipt. *)
Definition STUB_TS_URL : pystr := str "stub://local".
Definition STUB_MARKER : pystr := str "cll-stub".
Definition stub_note : pystr :=
  str "not a real COSE Receipt -- CAPSULE_WITNESS=stub was set; this checkpoint was never sent to a Transparency Service".

Definition register_checkpoint_stub (cp : CheckpointRecord) (ts_url : option pystr) : result WitnessRecord :=
  let! digest := CheckpointRecord.digest cp in
  let! bs := fromhex digest in
  let entry_hash := hex (sha256 bs) in
  let! stub_receipt :=
    dumps_with escape_ascii (fun literal => Ok (float_repr literal))
      (sort_keys (JDict [(STUB_MARKER, JBool true); (str "crit", JList [JStr STUB_MARKER]);
                         (str "note", JStr stub_note); (str "digest", JStr digest)])) in
  let! stub_receipt := encode_text stub_receipt in
  Ok {| w_ts_url := JStr (match ts_url with Some (c :: url) => c :: url | _ => STUB_TS_URL end);
        w_entry_hash := JStr entry_hash; w_receipt_b64 := JStr (b64encode stub_receipt);
        w_leaf_index := -1; w_tree_size := -1; w_is_stub := true |}.

(** A key made up to see whether a receipt is one: its own signature check
    fails. [probe_pem] is that key. *)
Context (probe_pem : bytes).

(** [witness.entry_hash] is a text when it equals the expected one. *)
Definition verify_witness_stamp_tristate (cp : CheckpointRecord) (witness : WitnessRecord)
    (ts_pubkey_pem : option bytes) : StampVerdict * list stamp_issue :=
  match stamp_entry_hash cp with
  | Raise _ => (INVALID, [DigestNotComputed])
  | Ok expected_entry_hash =>
      if negb (is_text (w_entry_hash witness) expected_entry_hash) then (INVALID, [NotBound])
      else
        match (let! s := b64_argument (w_receipt_b64 witness) in b64decode s) with
        | Raise _ => (INVALID, [NotBase64])
        | Ok receipt_bytes =>
            match ts_pubkey_pem with
            | Some pem =>
                match verify_receipt room receipt_bytes expected_entry_hash pem with
                | Raise _ => (INVALID, [NotEvaluated])
                | Ok result =>
                    if rr_ok result then (WITNESSED, [])
                    else (INVALID, match rr_errors result with [] => [NoPinMatches] | errors => [ReceiptErrors errors] end)
                end
            | None =>
                match verify_receipt room receipt_bytes expected_entry_hash probe_pem with
                | Raise _ => (INVALID, [NotEvaluated])
                | Ok probe =>
                    if negb (bool_decide (rr_failed_at probe = Some (str "signature")))
                    then (INVALID, [NotAReceipt (rr_errors probe)])
                    else (UNVERIFIED, [PinNotSupplied (w_ts_url witness)])
                end
            end
        end
  end.

Definition verify_witness_stamp_offline (cp : CheckpointRecord) (witness : WitnessRecord)
    (ts_pubkey_pem : option bytes) : bool * list stamp_issue :=
  let '(verdict, errors) := verify_witness_stamp_tristate cp witness ts_pubkey_pem in
  (bool_decide (verdict = WITNESSED), errors).

Definition grade (self : CheckpointRecord) (ts_pubkey_pem : option bytes) : Grade :=
  if existsb (fun w => negb (w_is_stub w) && (verify_witness_stamp_offline self w ts_pubkey_pem).1) (c_witnesses self)
  then WITNESSED_GRADE else SELF_ATTESTED.

(** The receipt check that may fetch the key; [fetch] is the HTTP request. *)
Definition verify_receipt_offline (fetch : json -> result bytes) (witness : WitnessRecord)
    (ts_pubkey_pem : option bytes) (ts_base_url : option json) : bool :=
  catch_false
    (let! pem :=
       match ts_pubkey_pem with
       | Some pem => Ok pem
       | None =>
           let! raw := fetch (match ts_base_url with Some url => url | None => w_ts_url witness end) in
           ed25519_pem raw
       end in
     let! s := b64_argument (w_receipt_b64 witness) in
     let! receipt_bytes := b64_lenient s 0 0 0 in
     match w_entry_hash witness with
     | JStr entry_hash => let! r := verify_receipt room receipt_bytes entry_hash pem in Ok (rr_ok r)
     | _ => Raise TypeError
     end).
End offline.

(** ** Registration *)

(** What a witness answered, or that no response came. *)
Inductive http_reply := HttpOk (body : pystr) | HttpError (code : Z) (detail : pystr) | HttpFailed.

(** A refusal of continuity, as the exception carries it. *)
Record Refusal := { last_accepted_mmr_size : Z; last_accepted_root : pystr; refusal_code : option pystr }.

Section register.
Context {PI : Interp}.

(** [detail[key]] on a decoded value; a text or a list refuses a text key. *)
Definition _continuity_refusal (body : pystr) : option Refusal :=
  match (let! v := loads body in
         let! detail := get_or v (str "detail") JNull in
         let! size := subscript detail (str "last_accepted_mmr_size") in
         let! root := subscript detail (str "last_accepted_root") in
         Ok (detail, size, root)) with
  | Ok (detail, JInt size, JStr root) =>
      let code := match get_or detail (str "code") JNull with Ok (JStr code) => Some code | _ => None end in
      Some {| last_accepted_mmr_size := size; last_accepted_root := root; refusal_code := code |}
  | _ => None
  end.

(** [url] is [ts_url.rstrip("/") + "/checkpoints"]. *)
Fixpoint rstrip_slash_rev (s : pystr) : pystr :=
  match s with
  | c :: s' => if c =? 47 then rstrip_slash_rev s' else s
  | [] => []
  end.
Definition _CHECKPOINT_ROUTE : pystr := str "/checkpoints".
Definition checkpoint_url (ts_url : pystr) : pystr := rev (rstrip_slash_rev (rev ts_url)) ++ _CHECKPOINT_ROUTE.

Definition register_checkpoint (post : pystr -> bytes -> http_reply) (checkpoint_cose : bytes) (ts_url : pystr)
  : result WitnessRecord + Refusal :=
  match post (checkpoint_url ts_url) checkpoint_cose with
  | HttpFailed => inl (Raise OSError)
  | HttpError code detail =>
      if code =? 409 then
        match _continuity_refusal detail with
        | Some refused => inr refused
        | None => inl (Raise CheckpointError)
        end
      else inl (Raise CheckpointError)
  | HttpOk body =>
      inl (let! body := loads body in
           let! entry_hash := subscript body (str "entry_hash") in
           let! receipt_b64 := subscript body (str "receipt_b64") in
           let! leaf_index := subscript body (str "leaf_index") in
           let! leaf_index := int_of leaf_index in
           let! tree_size := subscript body (str "tree_size") in
           let! tree_size := int_of tree_size in
           Ok {| w_ts_url := JStr ts_url; w_entry_hash := entry_hash; w_receipt_b64 := receipt_b64;
                 w_leaf_index := leaf_index; w_tree_size := tree_size; w_is_stub := false |})
  end.
End register.
