(* ===== verification/EmitProps.v ===== *)
(** * What checkpoint emission and its checks guarantee

    The digest commits to the signed fields; a checkpoint is emitted over the
    whole log and its chain to the previous one is accepted exactly when that
    one names a root of this log; a grade rests on an accepted receipt. *)
From S2P Require Import Prelude Bytes Text Py Json JsonProps PyJson Sha256 MmrPos Mmr MmrSpec MmrPath Inclusion Index Cll Calendar Base64 Ed25519 Emit Range.
Open Scope Z_scope.

Module Emission.

(** ** The digest *)
Section digest.
Context {PI : Interp} {HL : Hashlib}.
Implicit Types cp : CheckpointRecord.

(** The declared types of the signed fields: texts and machine-sized counts. *)
Definition text_field (v : json) : Prop := exists s, v = JStr s /\ text s.
Record typed_record cp : Prop := {
  tr_texts : Forall text_field [c_kind cp; c_log_id cp; c_root cp; c_prev_root cp; c_key_id cp; c_timestamp cp];
  tr_counts : Forall (fun n => 0 <= n < 2 ^ 64) [c_v cp; c_mmr_size cp; c_prev_size cp]
}.

(** What is hashed. *)
Definition signed_bytes cp : result bytes :=
  let! body := CheckpointRecord.signing_body cp in encode_text body.

Lemma digest_eq cp : CheckpointRecord.digest cp = let! bs := signed_bytes cp in Ok (hex (sha256 bs)).
Proof. unfold CheckpointRecord.digest, signed_bytes. by destruct (CheckpointRecord.signing_body cp). Qed.

(** The members in the order of their keys. *)
Definition sorted_fields cp : list (pystr * json) :=
  [(str "key_id", c_key_id cp); (str "kind", c_kind cp); (str "log_id", c_log_id cp);
   (str "mmr_size", JInt (c_mmr_size cp)); (str "prev_root", c_prev_root cp);
   (str "prev_size", JInt (c_prev_size cp)); (str "root", c_root cp);
   (str "timestamp", c_timestamp cp); (str "v", JInt (c_v cp))].

Lemma signing_body_eq cp :
  typed_record cp -> CheckpointRecord.signing_body cp = dumps_ascii (JDict (sorted_fields cp)).
Proof.
  intros [Ht _]. unfold CheckpointRecord.signing_body, dumps_sorted. f_equal. unfold sorted_fields, CheckpointRecord.body_fields.
  repeat (apply Forall_cons in Ht as [(? & -> & _) Ht]). reflexivity.
Qed.

Lemma sorted_fields_writable cp : typed_record cp -> writable (JDict (sorted_fields cp)).
Proof.
  intros [Ht Hc]. unfold sorted_fields.
  repeat (apply Forall_cons in Ht as [(? & -> & ?) Ht]). repeat (apply Forall_cons in Hc as [? Hc]).
  constructor; [by vm_compute; repeat constructor; set_solver|].
  repeat (apply Forall_cons; split; [split; [by eexists; vm_compute|];
    first [by constructor | apply small_int_writable; lia]|]). constructor.
Qed.

Lemma sorted_fields_inj cp cp' :
  sorted_fields cp = sorted_fields cp' -> CheckpointRecord.body_fields cp = CheckpointRecord.body_fields cp'.
Proof. unfold sorted_fields, CheckpointRecord.body_fields. congruence. Qed.

Lemma signed_bytes_total cp :
  typed_record cp -> exists t x, CheckpointRecord.signing_body cp = Ok t /\ utf8_encode t = Some x /\ signed_bytes cp = Ok x.
Proof.
  intros Ht. destruct (dumps_ascii_total _ (sorted_fields_writable cp Ht)) as (t & E & Ha).
  assert (text t) as [x Hx] by (apply text_ascii; eapply Forall_impl; [exact Ha|]; cbn; lia).
  exists t, x. unfold signed_bytes. rewrite signing_body_eq by done. rewrite E. unfold encode_text. by rewrite Hx.
Qed.

Lemma signed_bytes_inj cp cp' x :
  typed_record cp -> typed_record cp' -> signed_bytes cp = Ok x -> signed_bytes cp' = Ok x ->
  CheckpointRecord.body_fields cp = CheckpointRecord.body_fields cp'.
Proof.
  intros Ht Ht' Hx Hx'.
  destruct (signed_bytes_total cp Ht) as (t & y & Et & Ey & E), (signed_bytes_total cp' Ht') as (t' & y' & Et' & Ey' & E').
  assert (y = x) as -> by congruence. assert (y' = x) as -> by congruence.
  apply utf8_roundtrip in Ey, Ey'. assert (t' = t) as -> by congruence.
  rewrite signing_body_eq in Et, Et' by done.
  apply loads_dumps_ascii in Et, Et'; try by apply sorted_fields_writable.
  apply sorted_fields_inj. congruence.
Qed.
End digest.

(** ** Emission *)
Section emission.
Context {PI : Interp} {HL : Hashlib} {L capsule St : Type} {LS : LogSource L capsule}
  {NS : NodeStore St} {NSL : NodeStoreLaws St}.
Implicit Types mmr : MmrLedger L St.

(** The checkpoint of a log of [bodies], before it is signed. *)
Definition unsigned (bodies : list bytes) (signer : Signer) (log_id timestamp : pystr) (prev : option CheckpointRecord)
  : CheckpointRecord :=
  {| c_v := 1; c_kind := JStr (str "mmr_checkpoint"); c_log_id := JStr log_id;
     c_mmr_size := nc (zlen bodies); c_root := JStr (hex (mmr_root (map lh bodies)));
     c_prev_size := match prev with Some p => c_mmr_size p | None => 0 end;
     c_prev_root := match prev with Some p => c_root p | None => JStr [] end;
     c_key_id := JStr (key_id signer); c_timestamp := JStr timestamp; c_signature := JStr []; c_witnesses := [] |}.

Definition signed (signer : Signer) (cp : CheckpointRecord) : result CheckpointRecord :=
  let! digest := CheckpointRecord.digest cp in
  let! sig := sign signer digest in
  Ok (CheckpointRecord.with_signature cp sig).

Lemma root_hex_eq mmr k :
  indexed mmr -> 0 <= k <= zlen (_body_digests mmr) -> nc k < MAX_MMR_SIZE ->
  _root_hex mmr (nc k) = Ok (hex (mmr_root (map lh (take (Z.to_nat k) (_body_digests mmr))))).
Proof. intros Hi Hk Hmax. unfold _root_hex. by rewrite root_at_eq. Qed.

Lemma root_hex_all mmr :
  indexed mmr -> nc (zlen (_body_digests mmr)) < MAX_MMR_SIZE ->
  _root_hex mmr (nc (zlen (_body_digests mmr))) = Ok (hex (mmr_root (map lh (_body_digests mmr)))).
Proof.
  intros Hi Hmax. pose proof (zlen_nonneg (_body_digests mmr)). rewrite root_hex_eq by (done || lia).
  unfold zlen. by rewrite Nat2Z.id, take_ge by lia.
Qed.

Lemma size_eq mmr : indexed mmr -> Index.size mmr = nc (zlen (_body_digests mmr)).
Proof. intros [Hr _]. unfold Index.size. by rewrite ns_size_view, (rep_size _ _ Hr), zlen_map. Qed.

Lemma nc_zero n : 0 <= n -> (nc n =? 0) = (n =? 0).
Proof.
  intros Hn. pose proof (nc_ge n Hn). destruct (decide (n = 0)) as [->|]; [done|].
  by rewrite !(proj2 (Z.eqb_neq _ _)) by lia.
Qed.

(** A signer that writes the signatures it checks. *)
Lemma signed_verifies signer cp cp' : signed signer cp = Ok cp' -> verify_checkpoint_signature cp' signer = true.
Proof.
  unfold signed, verify_checkpoint_signature. destruct (CheckpointRecord.digest cp) as [d|] eqn:Ed; [|done].
  destruct (sign signer d) as [s|] eqn:Es; [|done]. intros [= <-].
  change (CheckpointRecord.digest (CheckpointRecord.with_signature cp s)) with (CheckpointRecord.digest cp).
  rewrite Ed, Es. cbn. by rewrite bool_decide_true.
Qed.

Lemma signed_fields signer cp cp' :
  signed signer cp = Ok cp' -> CheckpointRecord.body_fields cp' = CheckpointRecord.body_fields cp /\
  c_mmr_size cp' = c_mmr_size cp /\ c_root cp' = c_root cp /\ c_log_id cp' = c_log_id cp /\
  c_prev_size cp' = c_prev_size cp /\ c_prev_root cp' = c_prev_root cp.
Proof.
  unfold signed. destruct (CheckpointRecord.digest cp) as [d|]; [|done].
  destruct (sign signer d) as [s|]; [|done]. by intros [= <-].
Qed.

(** What is signed has its declared types. *)
Lemma unsigned_typed bodies signer log_id timestamp prev :
  text (key_id signer) -> text log_id -> text timestamp -> nc (zlen bodies) < MAX_MMR_SIZE ->
  (forall p, prev = Some p -> 0 <= c_mmr_size p < 2 ^ 64 /\ exists r, c_root p = JStr (hex r)) ->
  typed_record (unsigned bodies signer log_id timestamp prev).
Proof.
  intros Hk Hl Ht Hmax Hp. assert (MAX_MMR_SIZE < 2 ^ 64) as Hm by (vm_compute; done).
  pose proof (nc_ge (zlen bodies) (zlen_nonneg bodies)). pose proof (zlen_nonneg bodies).
  assert (text_field match prev with Some p => c_root p | None => JStr [] end) as Hroot.
  { destruct prev as [p|]; [|by exists []; split; [|by exists []]]. destruct (Hp p eq_refl) as [_ [r ->]].
    eexists. split; [done|]. apply hex_text. }
  assert (0 <= match prev with Some p => c_mmr_size p | None => 0 end < 2 ^ 64) as Hsize.
  { destruct prev as [p|]; [|lia]. apply (Hp p eq_refl). }
  constructor; cbn [unsigned c_kind c_log_id c_root c_prev_root c_key_id c_timestamp c_v c_mmr_size c_prev_size].
  - repeat (apply Forall_cons; split); try apply Forall_nil; try done; eexists; (split; [reflexivity|]);
      first [done|apply hex_text|by eexists; vm_compute].
  - repeat (apply Forall_cons; split); try apply Forall_nil; lia.
Qed.

(** A signer that always signs. *)
Definition signs (signer : Signer) : Prop := forall x, exists sig, sign signer (hex x) = Ok sig.

Lemma signed_total signer cp : signs signer -> typed_record cp -> exists cp', signed signer cp = Ok cp'.
Proof.
  intros Hs Ht. destruct (signed_bytes_total cp Ht) as (_ & x & _ & _ & E). unfold signed. rewrite digest_eq, E.
  destruct (Hs (sha256 x)) as [sig ->]. by eexists.
Qed.

(** What emission answers, the roots read off the body digests. *)
Definition emission (bodies : list bytes) (signer : Signer) (log_id timestamp : pystr) (prev : option CheckpointRecord)
    (k : Z) : result CheckpointRecord :=
  if zlen bodies =? 0 then Raise CheckpointError
  else
    match prev with
    | None => signed signer (unsigned bodies signer log_id timestamp None)
    | Some p =>
        if negb (is_text (c_log_id p) log_id) then Raise CheckpointError
        else if zlen bodies <=? k then Raise RollbackError
        else if is_text (c_root p) (hex (mmr_root (map lh (take (Z.to_nat k) bodies))))
        then signed signer (unsigned bodies signer log_id timestamp prev)
        else Raise RollbackError
    end.

Lemma emit_checkpoint_eq mmr signer log_id prev timestamp now k :
  indexed mmr -> nc (zlen (_body_digests mmr)) < MAX_MMR_SIZE ->
  (forall p, prev = Some p -> 0 <= k /\ c_mmr_size p = nc k) ->
  emit_checkpoint mmr signer log_id prev timestamp now =
  emission (_body_digests mmr) signer log_id (default (second_text now) timestamp) prev k.
Proof.
  intros Hi Hmax Hprev. set (n := zlen (_body_digests mmr)) in *. pose proof (zlen_nonneg (_body_digests mmr) : 0 <= n) as Hn.
  unfold emit_checkpoint, emission. fold n. rewrite size_eq by done. fold n. rewrite nc_zero by done.
  destruct (n =? 0) eqn:E0; [done|]. zbool. unfold check_prev.
  assert (_root_hex mmr (nc n) = Ok (hex (mmr_root (map lh (_body_digests mmr))))) as Eroot by by apply root_hex_all.
  destruct prev as [p|]; [|rewrite Eroot; by destruct timestamp].
  destruct (Hprev p eq_refl) as [Hk Ek]. destruct (negb (is_text (c_log_id p) log_id)); [done|].
  rewrite Ek. destruct (n <=? k) eqn:Enk; zbool.
  { pose proof (nc_mono n k ltac:(lia)). by rw_bool (nc n <=? nc k) true. }
  pose proof (nc_lt k n ltac:(lia)). rw_bool (nc n <=? nc k) false.
  rewrite root_hex_eq by (done || lia). destruct (is_text (c_root p) _); cbn [negb]; [|done].
  rewrite Eroot. unfold signed, unsigned. rewrite Ek. by destruct timestamp.
Qed.
End emission.
End Emission.

(** The digest commits to every signed field: two checkpoints whose
    fields have their declared types have digests, and when the digests are
    equal, the fields are, or the two signing bodies collide. *)
Theorem digest_binding {PI : Interp} {HL : Hashlib} (cp cp' : CheckpointRecord) :
  Emission.typed_record cp -> Emission.typed_record cp' ->
  exists x y,
    Emission.signed_bytes cp = Ok x /\ CheckpointRecord.digest cp = Ok (hex (sha256 x)) /\
    Emission.signed_bytes cp' = Ok y /\ CheckpointRecord.digest cp' = Ok (hex (sha256 y)) /\
    (CheckpointRecord.digest cp = CheckpointRecord.digest cp' ->
     CheckpointRecord.body_fields cp = CheckpointRecord.body_fields cp' \/ collision x y).
Proof.
  intros Ht Ht'. destruct (Emission.signed_bytes_total cp Ht) as (_ & x & _ & _ & Ex).
  destruct (Emission.signed_bytes_total cp' Ht') as (_ & y & _ & _ & Ey).
  exists x, y. rewrite !Emission.digest_eq, Ex, Ey. split_and!; try done.
  intros [= E]. apply (f_equal fromhex) in E. rewrite !fromhex_hex in E. injection E as E.
  destruct (decide (x = y)) as [->|Hne]; [left|by right]. by eapply Emission.signed_bytes_inj.
Qed.

(** What [emit_checkpoint] answers on every branch, over an index of
    [bodies] and a previous checkpoint at the size of [k] records: an error on
    an empty log or a foreign previous checkpoint, a rollback when the log did
    not grow or its root at [k] is not the recorded one, and otherwise the
    signed checkpoint of the whole log, which verifies under its signer. *)
Theorem emit_checkpoint_correct {PI : Interp} {HL : Hashlib} {L capsule St} {LS : LogSource L capsule}
    {NS : NodeStore St} {NSL : NodeStoreLaws St} (mmr : MmrLedger L St) (signer : Signer)
    (log_id : pystr) (prev : option CheckpointRecord) (timestamp : option pystr) (now : instant) (k : Z) :
  indexed mmr -> nc (zlen (_body_digests mmr)) < MAX_MMR_SIZE ->
  (forall p, prev = Some p -> 0 <= k /\ c_mmr_size p = nc k) ->
  emit_checkpoint mmr signer log_id prev timestamp now =
    Emission.emission (_body_digests mmr) signer log_id (default (second_text now) timestamp) prev k /\
  forall cp, emit_checkpoint mmr signer log_id prev timestamp now = Ok cp -> verify_checkpoint_signature cp signer = true.
Proof.
  intros Hi Hmax Hprev. pose proof (Emission.emit_checkpoint_eq mmr signer log_id prev timestamp now k Hi Hmax Hprev) as E.
  split; [done|]. intros cp. rewrite E. unfold Emission.emission. destruct (_ =? 0); [done|].
  destruct prev as [p|]; [|apply Emission.signed_verifies]. destruct (negb _); [done|]. destruct (_ <=? _); [done|].
  destruct (is_text _ _); [apply Emission.signed_verifies|done].
Qed.

(** A log that only grows is never taken for a rolled-back one: the next
    checkpoint over an index that extends the one [cp] was emitted over is
    signed, and passes the consistency check against [cp] on any later index. *)
Theorem emission_chains {PI : Interp} {HL : Hashlib} {L capsule St} {LS : LogSource L capsule}
    {NS : NodeStore St} {NSL : NodeStoreLaws St} (mmr mmr' mmr'' : MmrLedger L St) (signer : Signer)
    (log_id : pystr) (timestamp : option pystr) (now : instant) (cp : CheckpointRecord) :
  indexed mmr -> extends mmr mmr' -> extends mmr' mmr'' -> zlen (_body_digests mmr) < zlen (_body_digests mmr') ->
  nc (zlen (_body_digests mmr'')) < MAX_MMR_SIZE ->
  emit_checkpoint mmr signer log_id None timestamp now = Ok cp ->
  emit_checkpoint mmr' signer log_id (Some cp) timestamp now =
    Emission.signed signer
      (Emission.unsigned (_body_digests mmr') signer log_id (default (second_text now) timestamp) (Some cp)) /\
  forall cp', emit_checkpoint mmr' signer log_id (Some cp) timestamp now = Ok cp' ->
    verify_checkpoint_consistency cp cp' mmr'' = true.
Proof.
  intros Hi [Hi' [more E]] [Hi'' [more' E']] Hlt Hmax Hcp. set (n := zlen (_body_digests mmr)) in *.
  pose proof (zlen_nonneg (_body_digests mmr) : 0 <= n) as Hn.
  assert (zlen (_body_digests mmr') <= zlen (_body_digests mmr'')) as Hle
    by (rewrite E', zlen_app; pose proof (zlen_nonneg more'); lia).
  pose proof (nc_mono n (zlen (_body_digests mmr'')) ltac:(lia)).
  pose proof (nc_mono (zlen (_body_digests mmr')) (zlen (_body_digests mmr'')) ltac:(lia)).
  rewrite (Emission.emit_checkpoint_eq mmr signer log_id None timestamp now 0) in Hcp; [|done|fold n; lia|done].
  unfold Emission.emission in Hcp. destruct (_ =? 0) eqn:E0; [done|]. zbool.
  apply Emission.signed_fields in Hcp as (_ & Es & Er & El & _ & _). cbn in Es, Er, El. fold n in Es, E0.
  assert (forall k, take (Z.to_nat n) (_body_digests mmr ++ k) = _body_digests mmr) as Htake
    by (intros k; unfold n, zlen; rewrite Nat2Z.id; apply take_app_length).
  assert (emit_checkpoint mmr' signer log_id (Some cp) timestamp now = Emission.signed signer
      (Emission.unsigned (_body_digests mmr') signer log_id (default (second_text now) timestamp) (Some cp))) as Ee.
  { rewrite (Emission.emit_checkpoint_eq mmr' signer log_id (Some cp) timestamp now n);
      [|done|lia|by intros p [= <-]].
    unfold Emission.emission. rewrite (proj2 (Z.eqb_neq _ 0)) by lia. rewrite El, Er. cbn [is_text].
    rewrite bool_decide_true by done. cbn [negb]. rw_bool (zlen (_body_digests mmr') <=? n) false.
    rewrite bool_decide_true; [done|]. rewrite E. by rewrite Htake. }
  split; [done|]. intros cp' Hcp'. rewrite Ee in Hcp'.
  apply Emission.signed_fields in Hcp' as (_ & Es' & Er' & El' & Eps & Epr). cbn in Es', Er', El', Eps, Epr.
  unfold verify_checkpoint_consistency. rewrite El', El, Eps, Es', Es. cbn [json_eq].
  rewrite bool_decide_true, Z.eqb_refl by done. cbn [negb].
  pose proof (nc_lt n (zlen (_body_digests mmr')) ltac:(lia)). rw_bool (nc (zlen (_body_digests mmr')) <=? nc n) false.
  rewrite Emission.root_hex_eq by (done || lia). rewrite Epr, Er, E', E, <- app_assoc, Htake. cbn.
  by rewrite bool_decide_true.
Qed.

(** [C22] Rollback detection: when a checkpoint is emitted after [p], and [p]
    holds the size and the root of a log of the records [old], the new log
    starts with those records, unless hashes collide. *)
Theorem rollback_detected {PI : Interp} {HL : Hashlib} {L capsule St} {LS : LogSource L capsule}
    {NS : NodeStore St} {NSL : NodeStoreLaws St} (mmr : MmrLedger L St) (signer : Signer)
    (log_id : pystr) (p cp : CheckpointRecord) (old : list bytes) (timestamp : option pystr) (now : instant) :
  indexed mmr -> nc (zlen (_body_digests mmr)) < MAX_MMR_SIZE ->
  c_mmr_size p = nc (zlen old) -> c_root p = JStr (hex (mmr_root (map lh old))) ->
  emit_checkpoint mmr signer log_id (Some p) timestamp now = Ok cp ->
  (exists new, _body_digests mmr = old ++ new /\ new <> []) \/
  collides (mmr_preimages old) (mmr_preimages (take (length old) (_body_digests mmr))).
Proof.
  intros Hi Hmax Es Er. pose proof (zlen_nonneg old).
  rewrite (Emission.emit_checkpoint_eq mmr signer log_id (Some p) timestamp now (zlen old)); [|done|done|by intros ? [= <-]].
  unfold Emission.emission. destruct (_ =? 0); [done|]. destruct (negb _); [done|].
  destruct (_ <=? _) eqn:El; [done|]. zbool. rewrite Er. cbn [is_text]. unfold zlen in *. rewrite Nat2Z.id.
  destruct (bool_decide _) eqn:Eb; [|done]. zbool. intros _. apply (f_equal fromhex) in Eb.
  rewrite !fromhex_hex in Eb. injection Eb as Eb.
  apply root_binding_core in Eb as [Eo|]; [left|by right|unfold zlen; rewrite length_take; lia].
  exists (drop (length old) (_body_digests mmr)). rewrite Eo at 1. rewrite take_drop. split; [done|].
  intros Hnil. apply (f_equal length) in Hnil. rewrite length_drop in Hnil. cbn in Hnil. lia.
Qed.

(** ** Stamps *)
Module Stamps.
Section stamps.
Context {PI : Interp} {HL : Hashlib} {CR : Crypto} {CB : Cbor2} {SR : ScittReceipts} (room : nat) (probe_pem : bytes).
Implicit Types (cp : CheckpointRecord) (w : WitnessRecord).

(** The stamp names the digest of [cp] and carries base64 of [receipt]. *)
Definition bound cp w (entry_hash : pystr) (receipt : bytes) : Prop :=
  stamp_entry_hash cp = Ok entry_hash /\ w_entry_hash w = JStr entry_hash /\
  (let! s := b64_argument (w_receipt_b64 w) in b64decode s) = Ok receipt.

(** [receipt] proves [entry_hash] under the key [pem], by the library and by
    the checks of [ed25519.py] on an Ed25519 key. *)
Definition accepted (receipt : bytes) (entry_hash : pystr) (pem : bytes) : Prop :=
  (exists r, scitt_verify_receipt receipt entry_hash pem = Ok r /\ rr_ok r = true) /\
  match load_ed25519_pem pem with
  | Ok None => True
  | Ok (Some key) => acceptable_signature (PBytes key) (or_none (cose_sign1_signature room receipt)) = true
  | Raise _ => False
  end.

Lemma acceptable_empty sig : acceptable_signature (PBytes []) sig = false.
Proof. unfold acceptable_signature. cbn. by destruct (as_bytes sig). Qed.

Lemma verify_receipt_accepted receipt entry_hash pem :
  (exists r, verify_receipt room receipt entry_hash pem = Ok r /\ rr_ok r = true) <-> accepted receipt entry_hash pem.
Proof.
  unfold verify_receipt, accepted. destruct (scitt_verify_receipt _ _ _) as [r|e] eqn:E; [|naive_solver].
  destruct (rr_ok r) eqn:Eok; cbn [negb];
    [|by split; [intros (? & [= <-] & ?)|intros [(? & [= <-] & ?) _]]; congruence].
  destruct (load_ed25519_pem pem) as [[key|]|e]; [destruct (acceptable_signature _ _)| |rewrite acceptable_empty];
    cbn [negb]; (split; [intros (r' & [= <-] & H)|intros [(r' & [= <-] & H) Ha]]; cbn in *; (done || eauto)).
Qed.

Lemma entry_hash_eq cp x :
  Emission.signed_bytes cp = Ok x -> stamp_entry_hash cp = Ok (hex (sha256 (sha256 x))).
Proof. intros E. unfold stamp_entry_hash. by rewrite Emission.digest_eq, E, fromhex_hex. Qed.

(** A stamp that is not refused is bound to the checkpoint. *)
Lemma tristate_inv cp w pem v errs :
  verify_witness_stamp_tristate room probe_pem cp w pem = (v, errs) -> v <> INVALID ->
  exists h receipt, bound cp w h receipt /\
    (v = WITNESSED <-> exists pem', pem = Some pem' /\ accepted receipt h pem') /\ (pem <> None -> v = WITNESSED).
Proof.
  unfold verify_witness_stamp_tristate. intros Ev Hv. destruct (stamp_entry_hash cp) as [h|] eqn:Eh; [|congruence].
  destruct (negb (is_text _ h)) eqn:Et; [congruence|]. zbool. unfold is_text in Et.
  destruct (w_entry_hash w) eqn:Ew; try done. zbool. subst s.
  destruct (let! s := _ in b64decode s) as [receipt|] eqn:Eb; [|congruence]. exists h, receipt.
  split; [by split_and!|]. destruct pem as [pem|]; cycle 1.
  { destruct (verify_receipt _ _ _ _) as [r|]; [|congruence]. destruct (negb _); [congruence|].
    injection Ev as <- _. split; [|done]. split; [done|]. by intros (? & ? & _). }
  pose proof (verify_receipt_accepted receipt h pem) as Ha.
  destruct (verify_receipt _ _ _ _) as [r|]; [|congruence]. destruct (rr_ok r) eqn:Eok; [|congruence].
  injection Ev as <- _. split; [|done]. split; [|done]. intros _. exists pem. split; [done|]. apply Ha. eauto.
Qed.

Lemma witnessed_spec cp w pem :
  (verify_witness_stamp_offline room probe_pem cp w pem).1 = true <->
  exists h receipt pem', pem = Some pem' /\ bound cp w h receipt /\ accepted receipt h pem'.
Proof.
  unfold verify_witness_stamp_offline.
  destruct (verify_witness_stamp_tristate room probe_pem cp w pem) as [v errs] eqn:Ev. cbn [fst]. split.
  - intros Hv. zbool. subst v. apply tristate_inv in Ev as (h & receipt & Hb & [Hw _] & _); [|done].
    destruct (Hw eq_refl) as (pem' & -> & Ha). eauto 6.
  - intros (h & receipt & pem' & -> & (Eh & Ew & Eb) & Ha%verify_receipt_accepted). destruct Ha as (r & Er & Eok).
    unfold verify_witness_stamp_tristate in Ev. rewrite Eh, Ew in Ev. cbn [is_text] in Ev.
    rewrite bool_decide_true in Ev by done. cbn [negb] in Ev. rewrite Eb, Er, Eok in Ev. by injection Ev as <- _.
Qed.
End stamps.
End Stamps.

(** A checkpoint is graded witnessed exactly when a key is supplied and
    one of its stamps, not a stub, carries the entry hash of this checkpoint
    and a receipt that the receipt library accepts under that key and whose
    signature, for an Ed25519 key, passes the checks OpenSSL leaves out. *)
Theorem grade_correct {PI : Interp} {HL : Hashlib} {CR : Crypto} {CB : Cbor2} {SR : ScittReceipts}
    (room : nat) (probe_pem : bytes) (cp : CheckpointRecord) (pem : option bytes) :
  grade room probe_pem cp pem = WITNESSED_GRADE <->
  exists w h receipt key,
    pem = Some key /\ w ∈ c_witnesses cp /\ w_is_stub w = false /\
    Stamps.bound cp w h receipt /\ Stamps.accepted room receipt h key.
Proof.
  unfold grade. destruct (existsb _ _) eqn:E.
  - split; [intros _|done]. apply existsb_exists in E as (w & Hin & Hw). zbool.
    match goal with H : _ = true |- _ => apply Stamps.witnessed_spec in H as (h & receipt & key & -> & Hb & Ha) end.
    exists w, h, receipt, key. split_and!; try done. by apply list_elem_of_In.
  - split; [done|]. intros (w & h & receipt & key & -> & Hin & Hs & Hb & Ha).
    assert (existsb (fun w => negb (w_is_stub w) && (verify_witness_stamp_offline room probe_pem cp w (Some key)).1)
      (c_witnesses cp) = true) as E'; [|by rewrite E in E'].
    apply existsb_exists. exists w. split; [by apply list_elem_of_In|]. rewrite Hs. apply Stamps.witnessed_spec. eauto 7.
Qed.

(** A stamp cannot be moved to another checkpoint: when one stamp is not
    refused for two checkpoints, whatever the keys supplied, the two have the
    same signed fields, or their signing bodies or the digests collide. *)
Theorem stamp_not_replayed {PI : Interp} {HL : Hashlib} {CR : Crypto} {CB : Cbor2} {SR : ScittReceipts}
    (room : nat) (probe_pem : bytes) (cp cp' : CheckpointRecord) (w : WitnessRecord) (pem pem' : option bytes) :
  Emission.typed_record cp -> Emission.typed_record cp' ->
  (verify_witness_stamp_tristate room probe_pem cp w pem).1 <> INVALID ->
  (verify_witness_stamp_tristate room probe_pem cp' w pem').1 <> INVALID ->
  CheckpointRecord.body_fields cp = CheckpointRecord.body_fields cp' \/
  exists x y, Emission.signed_bytes cp = Ok x /\ Emission.signed_bytes cp' = Ok y /\
    (collision x y \/ collision (sha256 x) (sha256 y)).
Proof.
  intros Ht Ht' Hv Hv'. destruct (verify_witness_stamp_tristate _ _ cp _ _) as [v ?] eqn:Ev.
  destruct (verify_witness_stamp_tristate _ _ cp' _ _) as [v' ?] eqn:Ev'.
  destruct (Stamps.tristate_inv _ _ _ _ _ _ _ Ev Hv) as (h & r & (Eh & Ew & _) & _).
  destruct (Stamps.tristate_inv _ _ _ _ _ _ _ Ev' Hv') as (h' & r' & (Eh' & Ew' & _) & _).
  assert (h' = h) as -> by congruence.
  destruct (Emission.signed_bytes_total cp Ht) as (_ & x & _ & _ & Ex).
  destruct (Emission.signed_bytes_total cp' Ht') as (_ & y & _ & _ & Ey).
  rewrite (Stamps.entry_hash_eq _ _ Ex) in Eh. rewrite (Stamps.entry_hash_eq _ _ Ey) in Eh'.
  assert (hex (sha256 (sha256 x)) = hex (sha256 (sha256 y))) as E by congruence.
  apply (f_equal fromhex) in E. rewrite !fromhex_hex in E. injection E as E.
  destruct (decide (x = y)) as [->|Hne]; [left; by eapply Emission.signed_bytes_inj|]. right. exists x, y.
  split_and!; [done..|]. destruct (decide (sha256 x = sha256 y)) as [?|?]; [by left|by right].
Qed.

(** ** Concrete checkpoints

    Checkpoints over the five records of [Demo], signed by a signer that only
    labels the digest, and a stamp of one of them: the hypotheses of the
    theorems of [EmitProps] hold of them. *)
Module DemoEmit.
#[export] Existing Instance Sha256.hashlib.
#[export] Existing Instance plain_interp.
#[export] Existing Instance DemoIndex.list_log.

Definition signer : Signer := {| key_id := str "k1"; sign := fun digest => Ok (str "sig:" ++ digest) |}.
Definition time : pystr := str "2026-10-01T23:04:00Z".
Definition log : pystr := str "log-a".

(** The index of five records, and of all six. *)
Definition index := DemoIndex.ledger.
Definition later := (Index.sync index).1.

Lemma later_extends : extends index later.
Proof. apply sync_loop_extends, DemoIndex.ledger_indexed. Qed.

Definition emitted (r : result CheckpointRecord) : CheckpointRecord :=
  match r with Ok cp => cp | Raise _ => Emission.unsigned [] signer log time None end.

Definition first_cp : CheckpointRecord := Eval vm_compute in emitted (emit_checkpoint index signer log None (Some time) 0).
Definition second_cp : CheckpointRecord :=
  Eval vm_compute in emitted (emit_checkpoint later signer log (Some first_cp) (Some time) 0).

Lemma typed cp : cp ∈ [first_cp; second_cp; CheckpointRecord.with_signature first_cp (str "other")] ->
  Emission.typed_record cp.
Proof.
  intros Hcp. repeat (apply elem_of_cons in Hcp as [->|Hcp]); try by apply not_elem_of_nil in Hcp.
  all: (split; [repeat (apply Forall_cons; split; [by eexists; split; [reflexivity|eexists; vm_compute; reflexivity]|]);
      constructor|repeat constructor; by vm_compute]).
Qed.

(** A witness whose receipts every key leaves unsigned. *)
Definition crypto : Crypto := {| openssl_verify := fun _ _ _ => true; ed25519_pem := Ok; load_ed25519_pem := fun b => Ok (Some b) |}.
Definition cbor2 : Cbor2 := {| cbor2_loads := fun _ => Ok PNone; cbor2_dumps := fun _ => Ok [] |}.
Definition receipts : ScittReceipts :=
  {| scitt_verify_receipt := fun _ _ _ =>
       Ok {| rr_ok := false; rr_failed_at := Some (str "signature"); rr_errors := []; rr_tree_size := None; rr_leaf_index := None |} |}.

Definition stamp : WitnessRecord :=
  {| w_ts_url := JStr (str "https://w"); w_entry_hash := match stamp_entry_hash first_cp with Ok h => JStr h | Raise _ => JNull end;
     w_receipt_b64 := JStr (str "0g=="); w_leaf_index := 0; w_tree_size := 1; w_is_stub := false |}.
End DemoEmit.

Lemma digest_binding_witness :
  let HL := Sha256.hashlib in let PI := plain_interp in
  exists x y,
    Emission.signed_bytes DemoEmit.first_cp = Ok x /\ CheckpointRecord.digest DemoEmit.first_cp = Ok (hex (sha256 x)) /\
    Emission.signed_bytes DemoEmit.second_cp = Ok y /\ CheckpointRecord.digest DemoEmit.second_cp = Ok (hex (sha256 y)) /\
    (CheckpointRecord.digest DemoEmit.first_cp = CheckpointRecord.digest DemoEmit.second_cp ->
     CheckpointRecord.body_fields DemoEmit.first_cp = CheckpointRecord.body_fields DemoEmit.second_cp \/ collision x y).
Proof. intros HL PI. apply digest_binding; apply DemoEmit.typed; [left|right; left]. Defined.

Lemma emit_checkpoint_correct_witness :
  let HL := Sha256.hashlib in let PI := plain_interp in let LS := DemoIndex.list_log in
  emit_checkpoint DemoEmit.later DemoEmit.signer DemoEmit.log (Some DemoEmit.first_cp) (Some DemoEmit.time) 0 =
    Emission.emission (_body_digests DemoEmit.later) DemoEmit.signer DemoEmit.log DemoEmit.time (Some DemoEmit.first_cp) 5 /\
  forall cp, emit_checkpoint DemoEmit.later DemoEmit.signer DemoEmit.log (Some DemoEmit.first_cp) (Some DemoEmit.time) 0 = Ok cp ->
    verify_checkpoint_signature cp DemoEmit.signer = true.
Proof.
  intros HL PI LS. apply (emit_checkpoint_correct _ _ _ _ (Some DemoEmit.time)).
  - apply DemoEmit.later_extends.
  - vm_compute. reflexivity.
  - intros p [= <-]. split; [lia|reflexivity].
Defined.

Lemma emission_chains_witness :
  let HL := Sha256.hashlib in let PI := plain_interp in let LS := DemoIndex.list_log in
  emit_checkpoint DemoEmit.later DemoEmit.signer DemoEmit.log (Some DemoEmit.first_cp) (Some DemoEmit.time) 0 =
    Emission.signed DemoEmit.signer (Emission.unsigned (_body_digests DemoEmit.later) DemoEmit.signer DemoEmit.log
      DemoEmit.time (Some DemoEmit.first_cp)) /\
  forall cp', emit_checkpoint DemoEmit.later DemoEmit.signer DemoEmit.log (Some DemoEmit.first_cp) (Some DemoEmit.time) 0 = Ok cp' ->
    verify_checkpoint_consistency DemoEmit.first_cp cp' DemoEmit.later = true.
Proof.
  intros HL PI LS.
  apply (emission_chains DemoEmit.index DemoEmit.later DemoEmit.later DemoEmit.signer DemoEmit.log (Some DemoEmit.time) 0).
  - apply DemoIndex.ledger_indexed.
  - apply DemoEmit.later_extends.
  - apply extends_refl; [apply DemoEmit.later_extends|reflexivity|reflexivity].
  - vm_compute. reflexivity.
  - vm_compute. reflexivity.
  - vm_compute. reflexivity.
Defined.

Lemma rollback_detected_witness :
  let HL := Sha256.hashlib in let PI := plain_interp in let LS := DemoIndex.list_log in
  (exists new, _body_digests DemoEmit.later = Demo.bodies ++ new /\ new <> []) \/
  collides (mmr_preimages Demo.bodies) (mmr_preimages (take (length Demo.bodies) (_body_digests DemoEmit.later))).
Proof.
  intros HL PI LS.
  apply (rollback_detected DemoEmit.later DemoEmit.signer DemoEmit.log DemoEmit.first_cp DemoEmit.second_cp
    Demo.bodies (Some DemoEmit.time) 0).
  - apply DemoEmit.later_extends.
  - vm_compute. reflexivity.
  - reflexivity.
  - vm_compute. reflexivity.
  - vm_compute. reflexivity.
Defined.

Lemma stamp_not_replayed_witness :
  let HL := Sha256.hashlib in let PI := plain_interp in
  let CR := DemoEmit.crypto in let CB := DemoEmit.cbor2 in let SR := DemoEmit.receipts in
  let cp := DemoEmit.first_cp in let cp' := CheckpointRecord.with_signature cp (str "other") in
  CheckpointRecord.body_fields cp = CheckpointRecord.body_fields cp' \/
  exists x y, Emission.signed_bytes cp = Ok x /\ Emission.signed_bytes cp' = Ok y /\
    (collision x y \/ collision (sha256 x) (sha256 y)).
Proof.
  intros HL PI CR CB SR cp cp'. apply (stamp_not_replayed 0 [] cp cp' DemoEmit.stamp None None).
  - apply DemoEmit.typed. left.
  - apply DemoEmit.typed. right. right. left.
  - vm_compute. discriminate.
  - vm_compute. discriminate.
Defined.
