(* ===== verification/CoseWire.v ===== *)
(** * The COSE wire form of a checkpoint

    [src/python/checkpoint/cose_wire.py]: the claims map a checkpoint
    statement carries, its signing, and the offline verifier, which trusts
    nothing but the bytes. [cbor2] and [scitt_cose] are third-party code. *)
From S2P Require Import Prelude Bytes Text Py Json PyJson Sha256 MmrPos Mmr Commitment MmrProof Ed25519 Emit.
From Stdlib Require Import QArith.
Open Scope Z_scope.

(** ** Values decoded from CBOR *)

Definition byte_of (v : pyval) : result byte :=
  match as_int v with
  | Some n => if (0 <=? n) && (n <? 256) then Ok (z2b n) else Raise ValueError
  | None => Raise TypeError
  end.

(** [bytes(v)] *)
Definition py_bytes (v : pyval) : result bytes :=
  match v with
  | PBytes bs | PByteArray bs | PMemoryView bs => Ok bs
  | PInt n => if n <? 0 then Raise ValueError else if 2 ^ 63 <=? n then Raise OverflowError else Ok (zeros (Z.to_nat n))
  | PBool b => Ok (zeros (Z.to_nat (Z.b2z b)))
  | PStr _ => Raise TypeError
  | v => let! l := py_iter v in map_result byte_of l
  end.

(** [bytes.fromhex(v)] *)
Definition py_fromhex (v : pyval) : result bytes :=
  match v with PStr s => fromhex s | _ => Raise TypeError end.

(** [int(v)]; a byte string is read as the text of a number. *)
Definition py_int {PI : Interp} (v : pyval) : result Z :=
  match v with
  | PInt n => Ok n
  | PBool b => Ok (Z.b2z b)
  | PFloat q => Ok (Z.quot (Qnum q) (Zpos (Qden q)))
  | PStr s => int_of_text s
  | PBytes bs | PByteArray bs =>
      if forallb (fun b => b2z b <? 128) bs then int_of_text (map b2z bs) else Raise ValueError
  | PNaN => Raise ValueError
  | _ => Raise TypeError
  end.

(** [bool(v)] *)
Definition py_truthy (v : pyval) : bool :=
  match v with
  | PNone => false
  | PBool b => b
  | PInt n => negb (n =? 0)
  | PFloat q => negb (Qeq_bool q 0)
  | PStr s => negb (bool_decide (s = []))
  | PBytes bs | PByteArray bs | PMemoryView bs => negb (bool_decide (bs = []))
  | PList l | PTuple l | PSet l => match l with [] => false | _ => true end
  | PDict d => match d with [] => false | _ => true end
  | _ => true
  end.

Definition text_key (key : string) : pyval := PStr (str key).

Definition claim (d : list (pyval * pyval)) (key : string) : pyval :=
  match dict_find d (text_key key) with Some v => v | None => PNone end.

(** [d[key]] on a dict. *)
Definition claim_of (d : list (pyval * pyval)) (key : string) : result pyval :=
  match dict_find d (text_key key) with Some v => Ok v | None => Raise KeyError end.

(** A JSON value as the object it is. *)
Fixpoint json_py {PI : Interp} (v : json) : pyval :=
  match v with
  | JNull => PNone
  | JBool b => PBool b
  | JInt n => PInt n
  | JFloat literal => match float_of literal with Finite q => PFloat q | Infinite neg => POther (if neg : bool then 2 else 1) | NaN => PNaN end
  | JStr s => PStr s
  | JList l => PList (map json_py l)
  | JDict d => PDict (map (fun '(k, v) => (PStr k, json_py v)) d)
  end.

(** ** Constants *)
Definition CLL_CHECKPOINT_CONTENT_TYPE : pystr := str "application/cll-checkpoint+cbor".
Definition WIRE_KIND : pystr := str "cll-checkpoint".
Definition _HDR_KID : Z := 4.
Definition _HDR_CWT_CLAIMS : Z := 15.

(** ** Encoding *)
Definition hex_list (v : pyval) : result (list pyval) :=
  let! l := py_iter v in map_result (fun h => let! b := py_fromhex h in Ok (PBytes b)) l.

Definition _consistency_proof_to_cbor (p : ConsistencyProof) : result pyval :=
  let! old_peaks := hex_list (cp_old_peaks p) in
  let! witness := py_iter (cp_witness p) in
  let! witness := map_result (fun w => let! l := hex_list w in Ok (PList l)) witness in
  let! new_peaks := hex_list (cp_new_peaks p) in
  Ok (PDict [(text_key "size_a", cp_size_a p); (text_key "size_b", cp_size_b p);
             (text_key "old_peaks", PList old_peaks); (text_key "witness", PList witness);
             (text_key "new_peaks", PList new_peaks)]).

Definition bytes_hexes (v : pyval) : result (list pyval) :=
  let! l := py_iter v in map_result (fun h => let! b := py_bytes h in Ok (PStr (hex b))) l.

(** [KeyError] and [TypeError] become [ValueError]. *)
Definition as_malformed {A} (r : result A) : result A :=
  match r with
  | Raise KeyError | Raise TypeError => Raise ValueError
  | r => r
  end.

Section wire.
Context {PI : Interp} {HL : Hashlib}.

Definition _consistency_proof_from_cbor (d : pyval) : result ConsistencyProof :=
  match d with
  | PDict d =>
      as_malformed
        (let! v := claim_of d "old_peaks" in
         let! old_peaks := bytes_hexes v in
         let! v := claim_of d "witness" in
         let! witness := py_iter v in
         let! witness := map_result (fun w => let! l := bytes_hexes w in Ok (PTuple l)) witness in
         let! v := claim_of d "new_peaks" in
         let! new_peaks := bytes_hexes v in
         let! v := claim_of d "size_a" in
         let! size_a := py_int v in
         let! v := claim_of d "size_b" in
         let! size_b := py_int v in
         Ok {| cp_v := PInt 1; cp_kind := PStr (str "consistency"); cp_size_a := PInt size_a;
               cp_size_b := PInt size_b; cp_old_peaks := PTuple old_peaks; cp_witness := PTuple witness;
               cp_new_peaks := PTuple new_peaks |})
  | _ => Raise ValueError
  end.

(** [root_from_peaks(peaks) != bytes.fromhex(root)] raises [ValueError]. *)
Definition check_bags (peak_hashes : list bytes) (root : json) : result () :=
  let! computed := root_from_peaks peak_hashes in
  let! claimed := fromhex_of root in
  if bool_decide (computed = claimed) then Ok () else Raise ValueError.

Definition encode_checkpoint_claims (cp : CheckpointRecord) (new_peak_hashes : list bytes)
    (prev_peak_hashes : option (list bytes)) (consistency_proof : option ConsistencyProof)
    (cadence_seconds : option Z) : result (list (pyval * pyval)) :=
  let! _ :=
    match consistency_proof with
    | Some p =>
        if negb (py_eq (cp_size_a p) (PInt (c_prev_size cp))) || negb (py_eq (cp_size_b p) (PInt (c_mmr_size cp)))
        then Raise ValueError else Ok ()
    | None => Ok ()
    end in
  let! _ := check_bags new_peak_hashes (c_root cp) in
  let! prev_commitment :=
    if 0 <? c_prev_size cp then
      match prev_peak_hashes with
      | None => Raise ValueError
      | Some prev_peak_hashes =>
          let! _ := check_bags prev_peak_hashes (c_prev_root cp) in
          commitment_object prev_peak_hashes
      end
    else Ok [] in
  let! commitment := commitment_object new_peak_hashes in
  let! proof :=
    match consistency_proof with
    | Some p => let! v := _consistency_proof_to_cbor p in Ok [(text_key "consistency_proof", v)]
    | None => Ok []
    end in
  Ok ([(text_key "kind", PStr WIRE_KIND); (text_key "log_size", PInt (c_mmr_size cp));
       (text_key "commitment", PBytes commitment); (text_key "prev_size", PInt (c_prev_size cp));
       (text_key "prev_commitment", PBytes prev_commitment); (text_key "issued_at", json_py (c_timestamp cp))]
      ++ match cadence_seconds with Some n => [(text_key "cadence", PInt n)] | None => [] end
      ++ proof).

(** A signer of COSE statements: payload, content type, issuer, subject. *)
Record StatementSigner := {
  signer_key_id : pystr;
  sign_cose_statement : option (bytes -> pystr -> pystr -> pystr -> result bytes)
}.

(** [f"{log_id}#{mmr_size}"] *)
Definition subject_of (log_id : pystr) (mmr_size : Z) : pystr := log_id ++ [35] ++ str_int mmr_size.

(** The signer takes texts: a [log_id] that is none is refused by it. *)
Definition checkpoint_to_cose {CB : Cbor2} (cp : CheckpointRecord) (signer : StatementSigner)
    (new_peak_hashes : list bytes) (prev_peak_hashes : option (list bytes))
    (consistency_proof : option ConsistencyProof) (cadence_seconds : option Z) : result bytes :=
  if (0 <? c_prev_size cp) && match consistency_proof with None => true | Some _ => false end then Raise ValueError
  else if (c_prev_size cp =? 0) && match consistency_proof with Some _ => true | None => false end then Raise ValueError
  else
    let! claims := encode_checkpoint_claims cp new_peak_hashes prev_peak_hashes consistency_proof cadence_seconds in
    let! payload := cbor2_dumps (PDict claims) in
    match sign_cose_statement signer with
    | None => Raise TypeError
    | Some sign =>
        match c_log_id cp with
        | JStr log_id => sign payload CLL_CHECKPOINT_CONTENT_TYPE log_id (subject_of log_id (c_mmr_size cp))
        | _ => Raise TypeError
        end
    end.
End wire.

(** ** Decoding *)
Record DecodedCheckpointCose := {
  d_log_id : pystr; d_mmr_size : Z; d_root : pystr; d_new_peak_hashes : list bytes; d_prev_size : Z;
  d_prev_root : pystr; d_prev_peak_hashes : list bytes; d_timestamp : pystr; d_key_id : pystr;
  d_cadence_seconds : option Z; d_consistency_proof : option ConsistencyProof
}.

Definition to_checkpoint_record (self : DecodedCheckpointCose) : CheckpointRecord :=
  {| c_v := 1; c_kind := JStr (str "mmr_checkpoint"); c_log_id := JStr (d_log_id self);
     c_mmr_size := d_mmr_size self; c_root := JStr (d_root self); c_prev_size := d_prev_size self;
     c_prev_root := JStr (d_prev_root self); c_key_id := JStr (d_key_id self);
     c_timestamp := JStr (d_timestamp self); c_signature := JStr []; c_witnesses := [] |}.

(** The result of [scitt_cose.statement.parse_signed_statement]. *)
Record ParsedStatement := {
  ps_signature_verified : bool; ps_content_type : pyval; ps_payload : bytes;
  ps_issuer : option pystr; ps_subject : option pystr
}.

Class ScittCose := {
  (** The outer item of a COSE message, decoded strictly. *)
  strict_decode : bytes -> result pyval;
  parse_signed_statement : bytes -> bytes -> result ParsedStatement
}.

(** Integer or text labels only; a value without keys is not checked. *)
Definition _check_labels (header : pyval) : result () :=
  match header with
  | PDict d =>
      if forallb (fun kv => match kv.1 with PInt _ | PStr _ => true | _ => false end) d then Ok () else Raise ValueError
  | _ => Ok ()
  end.

Section verify.
Context {PI : Interp} {HL : Hashlib} {CB : Cbor2} {CR : Crypto} {SC : ScittCose} (room : nat).

Definition _extract_kid (cose_bytes : bytes) : result (option bytes) :=
  let! outer := strict_decode cose_bytes in
  let! _ := cbor_loads room cose_bytes in
  let! value := match outer with PTag _ v => Ok v | _ => Raise AttributeError end in
  match as_sequence value with
  | Some [protected_bstr; unprotected; _; _] =>
      let! _ := _check_labels unprotected in
      if negb (py_truthy protected_bstr) then Ok None
      else
        let! raw := py_bytes protected_bstr in
        let! protected := cbor_loads room raw in
        let! _ := _check_labels protected in
        match protected with
        | PDict d =>
            let! _ := _check_labels (match dict_find d (PInt _HDR_CWT_CLAIMS) with Some v => v | None => PDict [] end) in
            match dict_find d (PInt _HDR_KID) with
            | Some kid => Ok (as_bytes kid)
            | None => Ok None
            end
        | _ => Ok None
        end
  | _ => Ok None
  end.

Definition peak_of (p : pyval) : option bytes :=
  match as_bytes p with
  | Some bs => if zlen bs =? 32 then Some bs else None
  | None => None
  end.

Definition _decode_commitment (raw : bytes) : result (list bytes) :=
  match cbor_loads room raw with
  | Raise _ => Raise ValueError
  | Ok (PList l) => match mapM peak_of l with Some peaks => Ok peaks | None => Raise ValueError end
  | Ok _ => Raise ValueError
  end.

(** [isinstance(v, int)], no [bool], not negative. *)
Definition count_claim (v : pyval) : result Z :=
  match as_strict_int v with
  | Some n => if n <? 0 then Raise ValueError else Ok n
  | None => Raise ValueError
  end.

Definition _decode_claims (claims : pyval) (issuer subject : option pystr) (key_id : pystr)
  : result DecodedCheckpointCose :=
  match claims with
  | PDict claims =>
      if negb (py_eq (claim claims "kind") (PStr WIRE_KIND)) then Raise ValueError else
      match issuer with
      | None | Some [] => Raise ValueError
      | Some issuer =>
          let! mmr_size := count_claim (claim claims "log_size") in
          let! prev_size := count_claim (claim claims "prev_size") in
          let! commitment := match as_bytes (claim claims "commitment") with Some b => Ok b | None => Raise ValueError end in
          let! new_peak_hashes := _decode_commitment commitment in
          let! root := root_from_peaks new_peak_hashes in
          let prev_commitment := match dict_find claims (text_key "prev_commitment") with Some v => v | None => PBytes [] end in
          let! (prev_peak_hashes, prev_root) :=
            if py_truthy prev_commitment then
              match as_bytes prev_commitment with
              | None => Raise ValueError
              | Some raw =>
                  let! peaks := _decode_commitment raw in
                  let! root := root_from_peaks peaks in
                  Ok (peaks, hex root)
              end
            else Ok ([], []) in
          match claim claims "issued_at" with
          | PStr issued_at =>
              if negb (bool_decide (subject = Some (subject_of issuer mmr_size))) then Raise ValueError else
              let! cadence :=
                match claim claims "cadence" with
                | PNone => Ok None
                | PInt n => Ok (Some n)
                | _ => Raise ValueError
                end in
              let! consistency_proof :=
                match claim claims "consistency_proof" with
                | PNone => Ok None
                | raw_proof =>
                    let! p := _consistency_proof_from_cbor raw_proof in
                    if negb (py_eq (cp_size_a p) (PInt prev_size)) || negb (py_eq (cp_size_b p) (PInt mmr_size))
                    then Raise ValueError else Ok (Some p)
                end in
              Ok {| d_log_id := issuer; d_mmr_size := mmr_size; d_root := hex root;
                    d_new_peak_hashes := new_peak_hashes; d_prev_size := prev_size; d_prev_root := prev_root;
                    d_prev_peak_hashes := prev_peak_hashes; d_timestamp := issued_at; d_key_id := key_id;
                    d_cadence_seconds := cadence; d_consistency_proof := consistency_proof |}
          | _ => Raise ValueError
          end
      end
  | _ => Raise ValueError
  end.

(** What the claims say of continuity is proved, or there is no previous
    checkpoint. *)
Definition check_continuity (decoded : DecodedCheckpointCose) : bool :=
  match d_consistency_proof decoded with
  | Some proof =>
      match fromhex (d_prev_root decoded), fromhex (d_root decoded) with
      | Ok root_a, Ok root_b =>
          verify_consistency (PBytes root_a) (PInt (d_prev_size decoded)) (PBytes root_b)
            (PInt (d_mmr_size decoded)) (Some proof)
      | _, _ => false
      end
  | None => d_prev_size decoded =? 0
  end.

(** The decoded checkpoint, [None] with an error reported; it never raises. *)
Definition verify_checkpoint_cose_offline (cose_bytes : bytes) : option DecodedCheckpointCose :=
  match _extract_kid cose_bytes with
  | Ok (Some kid) =>
      if negb (zlen kid =? 32) then None
      else if negb (acceptable_signature (PBytes kid) (or_none (cose_sign1_signature room cose_bytes))) then None
      else
        match ed25519_pem kid with
        | Raise _ => None
        | Ok pubkey_pem =>
            match parse_signed_statement cose_bytes pubkey_pem with
            | Raise _ => None
            | Ok parsed =>
                if negb (ps_signature_verified parsed) then None
                else if negb (py_eq (ps_content_type parsed) (PStr CLL_CHECKPOINT_CONTENT_TYPE)) then None
                else
                  match cbor_loads room (ps_payload parsed) with
                  | Raise _ => None
                  | Ok claims =>
                      match _decode_claims claims (ps_issuer parsed) (ps_subject parsed) (hex kid) with
                      | Raise _ => None
                      | Ok decoded => if check_continuity decoded then Some decoded else None
                      end
                  end
            end
        end
  | _ => None
  end.
End verify.
