(* ===== verification/CoseProps.v ===== *)
(** * What an accepted COSE checkpoint statement proves

    The signature and the names are checked, the continuity it claims is that
    of the log it commits to, and the claims written for a checkpoint are read
    back as that checkpoint. *)
From S2P Require Import Prelude Bytes Text Py Json JsonProps PyJson Sha256 MmrPos Mmr Commitment Cbor CborLoads MmrSpec MmrProof MmrPath Inclusion Consistency Ed25519 Emit EmitProps CoseWire Index.
Open Scope Z_scope.

Module Cose.
Section accepted.
Context {PI : Interp} {HL : Hashlib} {CB : Cbor2} {CR : Crypto} {SC : ScittCose} (room : nat).
Implicit Types d : DecodedCheckpointCose.

(** What the verifier read and checked on the way to [d]. *)
Record signed_by (cose : bytes) d (kid : bytes) (claims : pyval) : Prop := {
  sb_key : d_key_id d = hex kid /\ length kid = 32%nat;
  sb_kid : _extract_kid room cose = Ok (Some kid);
  sb_point : acceptable_signature (PBytes kid) (or_none (cose_sign1_signature room cose)) = true;
  sb_signature : exists pem parsed,
    ed25519_pem kid = Ok pem /\ parse_signed_statement cose pem = Ok parsed /\
    ps_signature_verified parsed = true /\ cbor_loads room (ps_payload parsed) = Ok claims /\
    py_eq (ps_content_type parsed) (PStr CLL_CHECKPOINT_CONTENT_TYPE) = true /\
    ps_issuer parsed = Some (d_log_id d) /\ ps_subject parsed = Some (subject_of (d_log_id d) (d_mmr_size d))
}.

(** The roots are those of the peaks the commitments hold. *)
Record committed d : Prop := {
  cm_counts : 0 <= d_mmr_size d /\ 0 <= d_prev_size d;
  cm_root : exists root, root_from_peaks (d_new_peak_hashes d) = Ok root /\ d_root d = hex root;
  cm_prev : d_prev_peak_hashes d = [] /\ d_prev_root d = [] \/
    exists root, root_from_peaks (d_prev_peak_hashes d) = Ok root /\ d_prev_root d = hex root;
  cm_proof : forall p, d_consistency_proof d = Some p ->
    py_eq (cp_size_a p) (PInt (d_prev_size d)) = true /\ py_eq (cp_size_b p) (PInt (d_mmr_size d)) = true
}.

Lemma count_claim_inv v n : count_claim v = Ok n -> v = PInt n /\ 0 <= n.
Proof.
  unfold count_claim. destruct (as_strict_int v) as [m|] eqn:E; [|done]. destruct v; try done. injection E as ->.
  destruct (m <? 0) eqn:Em; [done|]. zbool. by intros [= <-].
Qed.

Lemma decode_claims_inv claims issuer subject key d :
  _decode_claims room claims issuer subject key = Ok d ->
  issuer = Some (d_log_id d) /\ subject = Some (subject_of (d_log_id d) (d_mmr_size d)) /\ d_key_id d = key /\ committed d.
Proof.
  unfold _decode_claims. destruct claims as [| | | | | | | | | | |m| | | |]; try done.
  destruct (negb _); [done|]. destruct issuer as [[|c iss]|]; [done| |done].
  destruct (count_claim (claim m "log_size")) as [size|] eqn:Es; [|done].
  destruct (count_claim (claim m "prev_size")) as [prev|] eqn:Ep; [|done].
  destruct (as_bytes _) as [com|]; [|done]. destruct (_decode_commitment room com) as [peaks|]; [|done].
  destruct (root_from_peaks peaks) as [root|] eqn:Er; [|done].
  set (pc := match dict_find m (text_key "prev_commitment") with Some v => v | None => _ end).
  destruct (if py_truthy pc then _ else _) as [[pps pr]|] eqn:Epc; [|done].
  destruct (claim m "issued_at"); try done. destruct (negb (bool_decide _)) eqn:Esub; [done|]. zbool.
  match goal with |- context [let! cadence := ?e in _] => destruct e as [cad|]; [|done] end.
  match goal with |- context [let! p := ?e in _] => destruct e as [cp|] eqn:Ecp; [|done] end.
  intros [= <-]. cbn. split_and!; [done|done|done|]. apply count_claim_inv in Es as [_ Es], Ep as [_ Ep].
  split; cbn; [done|by exists root| |].
  - destruct (py_truthy pc); [|injection Epc as <- <-; by left]. destruct (as_bytes pc); [|done].
    destruct (_decode_commitment room _) as [pl|]; [|done]. destruct (root_from_peaks pl) as [r|] eqn:El; [|done].
    injection Epc as <- <-. right. by exists r.
  - intros p ->. destruct (claim m "consistency_proof"); try done;
      (destruct (_consistency_proof_from_cbor _) as [q|]; [|done]);
      (destruct (negb _ || negb _) eqn:E; [done|]); zbool; injection Ecp as ->; done.
Qed.

Lemma accepted_inv cose d :
  verify_checkpoint_cose_offline room cose = Some d ->
  exists kid claims, signed_by cose d kid claims /\ _decode_claims room claims (Some (d_log_id d))
    (Some (subject_of (d_log_id d) (d_mmr_size d))) (hex kid) = Ok d /\ committed d /\ check_continuity d = true.
Proof.
  unfold verify_checkpoint_cose_offline. destruct (_extract_kid room cose) as [[kid|]|] eqn:Ek; [|done..].
  destruct (negb (zlen kid =? 32)) eqn:El; [done|]. destruct (negb (acceptable_signature _ _)) eqn:Ea; [done|].
  destruct (ed25519_pem kid) as [pem|] eqn:Epem; [|done].
  destruct (parse_signed_statement cose pem) as [parsed|] eqn:Ep; [|done].
  destruct (negb (ps_signature_verified parsed)) eqn:Ev; [done|]. destruct (negb (py_eq _ _)) eqn:Ect; [done|].
  destruct (cbor_loads room (ps_payload parsed)) as [claims|] eqn:Ec; [|done].
  destruct (_decode_claims _ _ _ _ _) as [d'|] eqn:Ed; [|done]. destruct (check_continuity d') eqn:Econt; [|done].
  intros [= ->]. zbool. destruct (decode_claims_inv _ _ _ _ _ Ed) as (Ei & Esub & Ekey & Hc).
  exists kid, claims. rewrite Ei, Esub in Ed. split_and!; try done. split; [|done|done|].
  - split; [done|]. unfold zlen in El. lia.
  - exists pem, parsed. done.
Qed.
End accepted.
End Cose.

(** [C24] The continuity of an accepted statement is real: the key it names
    signed it, and when it commits to the size and the root of a log of
    [bodies] and says that a checkpoint came before (its previous size is not
    0), it carries a proof, the previous size is that of a prefix of [bodies],
    and the previous root is that of the prefix, unless hashes collide. With
    previous size 0 and no proof the statement claims no predecessor, and
    nothing follows of its previous root, which the verifier does not
    compare. *)
Theorem cose_checkpoint_binding {PI : Interp} {HL : Hashlib} {CB : Cbor2} {CR : Crypto} {SC : ScittCose}
    (room : nat) (cose : bytes) (d : DecodedCheckpointCose) (bodies : list bytes) :
  verify_checkpoint_cose_offline room cose = Some d ->
  d_mmr_size d = nc (zlen bodies) -> d_root d = hex (mmr_root (map lh bodies)) ->
  (exists kid claims, Cose.signed_by room cose d kid claims) /\
  ((d_prev_size d = 0 /\ d_consistency_proof d = None) \/
   exists f p, d_prev_size d = nc f /\ 0 <= f <= zlen bodies /\ d_consistency_proof d = Some p /\
     (d_prev_root d = hex (mmr_root (map lh (take (Z.to_nat f) bodies))) \/
      collides (mmr_preimages bodies) (consistency_preimages (nc f) (nc (zlen bodies)) p))).
Proof.
  intros (kid & claims & Hs & _ & Hc & Hcont)%Cose.accepted_inv Esize Eroot. split; [by eauto|].
  unfold check_continuity in Hcont. destruct (d_consistency_proof d) as [p|]; [right|zbool; by left].
  rewrite Eroot, fromhex_hex in Hcont. destruct (fromhex (d_prev_root d)) as [ra|] eqn:Ea; [|done].
  rewrite Esize in Hcont. apply consistency_binding_core in Hcont as (f & [= Ef] & Hf & Hor); [|done].
  exists f, p. split_and!; try (done || lia). destruct Hor as [[= ->]|?]; [left|by right].
  destruct (Cose.cm_prev _ Hc) as [[_ E]|(r & _ & E)]; rewrite E in Ea |- *.
  - cbn in Ea. injection Ea as Ea. pose proof (mmr_root_digest (map lh (take (Z.to_nat f) bodies))) as Hd.
    unfold is_digest in Hd. rewrite <- Ea in Hd. specialize (Hd (lh_digests _)). done.
  - rewrite fromhex_hex in Ea. by injection Ea as ->.
Qed.

(** ** Round trip of the claims *)
Module Claims.
Section claims.
Context {PI : Interp} {HL : Hashlib} {CB : Cbor2} (room : nat).

(** [cbor2] decodes an array of byte strings. *)
Definition decodes_arrays : Prop :=
  forall l, Forall is_digest l -> zlen l < 2 ^ 64 ->
    cbor2_loads (encode (commitment_item l)) = Ok (PList (map PBytes l)).

(** A proof as [consistency_proof] makes it. *)
Definition made_proof (a b : Z) (olds : list bytes) (wits : list (list bytes)) (news : list bytes) : ConsistencyProof :=
  {| cp_v := PInt 1; cp_kind := PStr (str "consistency"); cp_size_a := PInt a; cp_size_b := PInt b;
     cp_old_peaks := hex_tuple olds; cp_witness := PTuple (map hex_tuple wits); cp_new_peaks := hex_tuple news |}.

Lemma hex_list_tuple l : hex_list (hex_tuple l) = Ok (map PBytes l).
Proof.
  unfold hex_list, hex_tuple. cbn [py_iter]. induction l as [|h l IH]; [done|].
  cbn [map map_result py_fromhex]. by rewrite fromhex_hex, IH.
Qed.

Lemma bytes_hexes_list l : bytes_hexes (PList (map PBytes l)) = Ok (map (fun h => PStr (hex h)) l).
Proof.
  unfold bytes_hexes. cbn [py_iter]. induction l as [|h l IH]; [done|]. cbn [map map_result py_bytes]. by rewrite IH.
Qed.

Lemma proof_roundtrip a b olds wits news :
  exists v, _consistency_proof_to_cbor (made_proof a b olds wits news) = Ok v /\ v <> PNone /\
    _consistency_proof_from_cbor v = Ok (made_proof a b olds wits news).
Proof.
  set (rows := map (fun l => PList (map PBytes l)) wits).
  exists (PDict [(text_key "size_a", PInt a); (text_key "size_b", PInt b); (text_key "old_peaks", PList (map PBytes olds));
    (text_key "witness", PList rows); (text_key "new_peaks", PList (map PBytes news))]).
  split_and!; [|done|].
  - unfold _consistency_proof_to_cbor. cbn [cp_old_peaks cp_witness cp_new_peaks cp_size_a cp_size_b made_proof py_iter].
    rewrite !hex_list_tuple.
    rewrite (map_result_map (fun w => let! l := hex_list w in Ok (PList l)) hex_tuple wits).
    rewrite (map_result_Ok _ (fun l => PList (map PBytes l))); [done|]. intros l _. by rewrite hex_list_tuple.
  - assert (map_result (fun w => let! l := bytes_hexes w in Ok (PTuple l)) rows = Ok (map hex_tuple wits)) as E.
    { unfold rows. rewrite map_result_map. apply map_result_Ok. intros l _. by rewrite bytes_hexes_list. }
    unfold _consistency_proof_from_cbor, as_malformed.
    match goal with |- context [claim_of ?d _] => set (D := d) end.
    assert (claim_of D "old_peaks" = Ok (PList (map PBytes olds))) as -> by reflexivity.
    assert (claim_of D "new_peaks" = Ok (PList (map PBytes news))) as -> by reflexivity.
    assert (claim_of D "witness" = Ok (PList rows)) as -> by reflexivity.
    cbn [py_iter]. by rewrite !bytes_hexes_list, E.
Qed.

Lemma commitment_decodes l c :
  decodes_arrays -> (1 < room)%nat -> zlen l < 2 ^ 64 -> commitment_object l = Ok c ->
  c <> [] /\ _decode_commitment room c = Ok l /\ Forall is_digest l.
Proof.
  intros Hdec Hroom Hlen Hc. pose proof (assert_digests_inv l) as Hd. unfold commitment_object in Hc.
  destruct (map_result _ l) eqn:Em; [|done]. pose proof (commitment_object_eq l Hd Hlen) as [E _].
  unfold commitment_object in E. rewrite Em, Hc in E. apply Ok_inj in E. subst c.
  split_and!; [|unfold _decode_commitment|done].
  - intros Hnil. pose proof (length_encode_pos (commitment_item l)) as Hp. by rewrite Hnil in Hp.
  - destruct (strings_code_ok l) as (Hw & Hu & Hs);
      [done|by eapply Forall_impl; [exact Hd|]; intros p Hp; unfold is_digest, zlen in *; lia|].
    rewrite <- (app_nil_r (encode _)). unfold commitment_item. rewrite <- strings_code_bytes.
    rewrite (cbor_loads_accepts room (strings_code l) [] (PList (map PBytes l)));
      [|done|done|unfold Code.shallow in *; lia|by rewrite app_nil_r, strings_code_bytes; apply Hdec].
    assert (mapM peak_of (map PBytes l) = Some l) as ->; [|done].
    apply mapM_Some_2. clear -Hd. induction Hd as [|p l Hp Hd IH]; constructor; [|done].
    unfold peak_of. cbn [as_bytes]. by rewrite (proj2 (Z.eqb_eq _ _)) by (unfold is_digest, zlen in *; lia).
Qed.

Lemma check_bags_inv peaks r : check_bags peaks (JStr (hex r)) = Ok () -> root_from_peaks peaks = Ok r.
Proof.
  unfold check_bags. destruct (root_from_peaks peaks); [|done]. cbn [fromhex_of]. rewrite fromhex_hex.
  destruct (bool_decide _) eqn:E; [|done]. zbool. by subst.
Qed.

(** A record the wire form can carry: what [emit_checkpoint] makes. *)
Record carried (cp : CheckpointRecord) (log_id key timestamp : pystr) (root prev_root : bytes) : Prop := {
  ca_v : c_v cp = 1 /\ c_kind cp = JStr (str "mmr_checkpoint");
  ca_log : c_log_id cp = JStr log_id /\ log_id <> [];
  ca_sizes : 0 <= c_mmr_size cp /\ 0 <= c_prev_size cp;
  ca_root : c_root cp = JStr (hex root);
  ca_prev : c_prev_root cp = JStr (if 0 <? c_prev_size cp then hex prev_root else []);
  ca_key : c_key_id cp = JStr key /\ c_timestamp cp = JStr timestamp
}.

(** The record without what the wire form leaves out. *)
Definition bare (cp : CheckpointRecord) : CheckpointRecord :=
  {| c_v := c_v cp; c_kind := c_kind cp; c_log_id := c_log_id cp; c_mmr_size := c_mmr_size cp; c_root := c_root cp;
     c_prev_size := c_prev_size cp; c_prev_root := c_prev_root cp; c_key_id := c_key_id cp;
     c_timestamp := c_timestamp cp; c_signature := JStr []; c_witnesses := [] |}.

(** What [_decode_claims] makes of a map with these claims. *)
Lemma decode_claims_eq m log_id key size prev com pc ts cad praw proof peaks root pps pr :
  claim m "kind" = PStr WIRE_KIND -> log_id <> [] -> claim m "log_size" = PInt size -> 0 <= size ->
  claim m "prev_size" = PInt prev -> 0 <= prev -> claim m "commitment" = PBytes com ->
  dict_find m (text_key "prev_commitment") = Some (PBytes pc) -> claim m "issued_at" = PStr ts ->
  claim m "cadence" = match cad with Some n => PInt n | None => PNone end ->
  claim m "consistency_proof" = praw ->
  match proof with
  | None => praw = PNone
  | Some p => praw <> PNone /\ _consistency_proof_from_cbor praw = Ok p /\
      negb (py_eq (cp_size_a p) (PInt prev)) || negb (py_eq (cp_size_b p) (PInt size)) = false
  end ->
  _decode_commitment room com = Ok peaks -> root_from_peaks peaks = Ok root ->
  (if negb (bool_decide (pc = [])) then
     let! peaks := _decode_commitment room pc in let! root := root_from_peaks peaks in Ok (peaks, hex root)
   else Ok ([], [])) = Ok (pps, pr) ->
  _decode_claims room (PDict m) (Some log_id) (Some (subject_of log_id size)) key =
    Ok {| d_log_id := log_id; d_mmr_size := size; d_root := hex root; d_new_peak_hashes := peaks; d_prev_size := prev;
          d_prev_root := pr; d_prev_peak_hashes := pps; d_timestamp := ts; d_key_id := key;
          d_cadence_seconds := cad; d_consistency_proof := proof |}.
Proof.
  intros Ek Hne Es Hs Ep Hp Ec Epc Et Ecad Epr Hpr Edc Er Epp.
  assert (forall n, 0 <= n -> count_claim (PInt n) = Ok n) as Hcount
    by (intros n Hn; unfold count_claim; cbn; by rw_bool (n <? 0) false).
  unfold _decode_claims. rewrite Ek, py_eq_str, bool_decide_true by done. cbn [negb]. destruct log_id; [done|].
  rewrite Es, Ep, !Hcount, Ec by done. cbn [as_bytes]. rewrite Edc, Er, Epc. cbn [py_truthy as_bytes].
  rewrite Epp, Et, bool_decide_true, Ecad, Epr by done. cbn [negb].
  assert ((match match cad with Some n => PInt n | None => PNone end with
    | PNone => Ok None | PInt n => Ok (Some n) | _ => Raise ValueError end) = Ok cad) as -> by by destruct cad.
  destruct proof as [p|]; [|by rewrite Hpr]. destruct Hpr as (Hn & Ev & Esp).
  destruct praw; try done; by rewrite Ev, Esp.
Qed.
End claims.
End Claims.

(** The claims of a checkpoint are read back as that checkpoint: what
    [encode_checkpoint_claims] writes for a record as [emit_checkpoint] makes
    it, with a proof as [consistency_proof] makes it, [_decode_claims] turns
    into the same record (its signature and witnesses aside), the same peaks,
    proof and cadence, given that [cbor2] decodes arrays of byte strings. *)
Theorem claims_roundtrip {PI : Interp} {HL : Hashlib} {CB : Cbor2} (room : nat) (cp : CheckpointRecord)
    (log_id key timestamp : pystr) (root prev_root : bytes) (new_peaks : list bytes) (prev_peaks : option (list bytes))
    (proof : option ConsistencyProof) (cadence : option Z) (claims : list (pyval * pyval)) :
  Claims.decodes_arrays -> (1 < room)%nat -> Claims.carried cp log_id key timestamp root prev_root ->
  zlen new_peaks < 2 ^ 64 -> zlen (default [] prev_peaks) < 2 ^ 64 ->
  (forall p, proof = Some p -> exists a b olds wits news, p = Claims.made_proof a b olds wits news) ->
  encode_checkpoint_claims cp new_peaks prev_peaks proof cadence = Ok claims ->
  exists d,
    _decode_claims room (PDict claims) (Some log_id) (Some (subject_of log_id (c_mmr_size cp))) key = Ok d /\
    to_checkpoint_record d = Claims.bare cp /\ d_new_peak_hashes d = new_peaks /\
    d_prev_peak_hashes d = (if 0 <? c_prev_size cp then default [] prev_peaks else []) /\
    d_consistency_proof d = proof /\ d_cadence_seconds d = cadence.
Proof.
  intros Hdec Hroom [[Hv Hk] [Hl Hne] [Hs Hps] Hr Hp [Hkey Ht]] Hln Hlp Hproof. unfold encode_checkpoint_claims.
  destruct (match proof with Some p => _ | None => _ end) as [[]|] eqn:Espan; [|done].
  rewrite Hr. destruct (check_bags new_peaks (JStr (hex root))) as [[]|] eqn:Eb; [|done].
  apply Claims.check_bags_inv in Eb. rewrite Hp.
  destruct (if 0 <? c_prev_size cp then _ else Ok []) as [pc|] eqn:Epc; [|done].
  destruct (commitment_object new_peaks) as [c|] eqn:Ec; [|done].
  destruct (Claims.commitment_decodes room _ _ Hdec Hroom Hln Ec) as (_ & Edc & _).
  assert (exists pps pr, (if negb (bool_decide (pc = [])) then
      (let! peaks := _decode_commitment room pc in let! root := root_from_peaks peaks in Ok (peaks, hex root))
      else Ok ([], [])) = Ok (pps, pr) /\ pps = (if 0 <? c_prev_size cp then default [] prev_peaks else []) /\
      pr = if 0 <? c_prev_size cp then hex prev_root else []) as (pps & pr & Epp & -> & ->).
  { destruct (0 <? c_prev_size cp); [|injection Epc as <-; by eexists _, _].
    destruct prev_peaks as [pl|]; [|done]. change (default [] (Some pl)) with pl in *. destruct (check_bags pl _) as [[]|] eqn:Ebp; [|done].
    apply Claims.check_bags_inv in Ebp.
    destruct (Claims.commitment_decodes room _ _ Hdec Hroom Hlp Epc) as (Hnn & -> & _).
    rewrite bool_decide_false by done. cbn [negb]. rewrite Ebp. by eexists _, _. }
  rewrite Ht. cbn [json_py].
  assert (exists praw, (let! proof := match proof with Some p => let! v := _consistency_proof_to_cbor p in Ok [(text_key "consistency_proof", v)] | None => Ok [] end in Ok proof) =
    Ok (match proof with Some _ => [(text_key "consistency_proof", praw)] | None => [] end) /\
    match proof with
    | None => praw = PNone
    | Some p => praw <> PNone /\ _consistency_proof_from_cbor praw = Ok p /\
        negb (py_eq (cp_size_a p) (PInt (c_prev_size cp))) || negb (py_eq (cp_size_b p) (PInt (c_mmr_size cp))) = false
    end) as (praw & Eraw & Hraw).
  { destruct proof as [p|]; [|by exists PNone]. destruct (Hproof p eq_refl) as (a & b & olds & wits & news & ->).
    destruct (Claims.proof_roundtrip a b olds wits news) as (v & -> & Hvn & Ev). exists v.
    split_and!; [done|done|done|]. by destruct (_ || _). }
  destruct (match proof with Some p => _ | None => Ok [] end) as [extra|]; [|done]. injection Eraw as ->.
  intros [= <-]. eexists. split;
    [eapply (Claims.decode_claims_eq room _ log_id key (c_mmr_size cp) (c_prev_size cp) c pc timestamp cadence praw proof);
     try done; by destruct cadence, proof|].
  unfold to_checkpoint_record, Claims.bare. cbn. by rewrite Hv, Hk, Hl, Hr, Hp, Hkey, Ht.
Qed.

(** ** Concrete COSE statements

    A decoder of arrays of byte strings, a signed statement of the second
    checkpoint of [EmitExamples] with its consistency proof, and the theorems
    of [CoseProps] on them. *)
Module DemoCose.
#[export] Existing Instance Sha256.hashlib.
#[export] Existing Instance plain_interp.
#[export] Existing Instance DemoIndex.list_log.

(** ** Decoding arrays of 32-byte strings *)
Fixpoint chunks (fuel : nat) (bs : bytes) : list bytes :=
  match fuel, bs with
  | S fuel, _ :: _ :: bs => take 32 bs :: chunks fuel (drop 32 bs)
  | _, _ => []
  end.

Definition array_loads (data : bytes) : result pyval :=
  match _head data 0 with
  | Ok (4, Some n, i) => Ok (PList (map PBytes (chunks (Z.to_nat n) (from data i))))
  | _ => Raise LibraryError
  end.

Lemma chunks_encode l : Forall is_digest l -> chunks (length l) (concat (map encode (map Bstr l))) = l.
Proof.
  induction 1 as [|p l Hp Hl IH]; [done|]. cbn [length map concat encode].
  assert (zlen p = 32) as -> by (unfold is_digest, zlen in *; lia).
  change (header 2 32) with (map z2b [0x58; 0x20]). cbn [map app chunks]. unfold is_digest in Hp.
  rewrite take_app_ge, drop_app_ge, Hp, Nat.sub_diag, take_0, drop_0, app_nil_r by lia.
  by rewrite IH.
Qed.

Lemma array_loads_decodes l :
  Forall is_digest l -> zlen l < 2 ^ 64 -> array_loads (encode (commitment_item l)) = Ok (PList (map PBytes l)).
Proof.
  intros Hl Hlen. unfold array_loads, commitment_item. cbn [encode]. rewrite zlen_map. pose proof (zlen_nonneg l).
  set (data := header 4 (zlen l) ++ concat (map encode (map Bstr l))).
  assert (from data 0 = Code.opening 4 (Some (arg_of (zlen l))) ++ concat (map encode (map Bstr l))) as E by done.
  destruct (arg_of_counts (zlen l)) as [Hok Hval]; [done|].
  rewrite (head_opening data 0 4 (Some (arg_of (zlen l))) _ ltac:(lia) ltac:(lia) Hok E). cbn [option_map].
  rewrite (from_app data 0 _ _ ltac:(lia) E), Hval. by rewrite zlen_to_nat, chunks_encode.
Qed.

(** ** A statement of the second checkpoint *)
Definition cp := DemoEmit.second_cp.
Definition peaks_of (mmr : MmrLedger (list bytes) MemoryNodeStore) : list bytes :=
  match Index.peak_hashes_at mmr (Index.size mmr) with Ok l => l | Raise _ => [] end.
Definition new_peaks : list bytes := Eval vm_compute in peaks_of DemoEmit.later.
Definition prev_peaks : list bytes := Eval vm_compute in peaks_of DemoEmit.index.
Definition proof : option ConsistencyProof := Eval vm_compute in
  match Index.consistency_proof DemoEmit.later (c_prev_size cp) None with Ok p => Some p | Raise _ => None end.

Definition claims : list (pyval * pyval) := Eval vm_compute in
  match encode_checkpoint_claims cp new_peaks (Some prev_peaks) proof (Some 900) with Ok m => m | Raise _ => [] end.

Definition kid : bytes := z2b 2 :: zeros 31.
Definition signature : bytes := kid ++ zeros 32.
Definition cose : bytes := [z2b 1].
Definition outer : pyval := PTag 18 (PList [PBytes [z2b 2]; PDict []; PBytes [z2b 3]; PBytes signature]).

(** The one-byte messages [1], [2] and [3] stand for the envelope, its
    protected header and its payload. *)
Definition cbor2 : Cbor2 := {|
  cbor2_loads := fun data =>
    match map b2z data with
    | [1] => Ok outer
    | [2] => Ok (PDict [(PInt 4, PBytes kid)])
    | [3] => Ok (PDict claims)
    | _ => array_loads data
    end;
  cbor2_dumps := fun _ => Raise LibraryError
|}.

Definition scitt : ScittCose := {|
  strict_decode := fun _ => Ok outer;
  parse_signed_statement := fun _ _ =>
    Ok {| ps_signature_verified := true; ps_content_type := PStr CLL_CHECKPOINT_CONTENT_TYPE; ps_payload := [z2b 3];
          ps_issuer := Some DemoEmit.log; ps_subject := Some (subject_of DemoEmit.log (c_mmr_size cp)) |}
|}.

Lemma decodes : Claims.decodes_arrays (CB := cbor2).
Proof.
  intros l Hl Hlen. rewrite <- (array_loads_decodes l Hl Hlen). cbn [cbor2_loads cbor2].
  unfold commitment_item. cbn [encode]. unfold header. cbn [app map]. rewrite zlen_map.
  pose proof (info_of_range (zlen l) (zlen_nonneg l)). rewrite b2z_small by lia.
  assert (exists n, 32 * 4 + info_of (zlen l) = 128 + n /\ 0 <= n < 28) as (n & -> & Hn) by (exists (info_of (zlen l)); lia).
  assert (exists q : positive, 128 + n = Z.pos q /\ (3 < q)%positive) as (q & -> & Hq).
  { exists (Z.to_pos (128 + n)). split; lia. }
  destruct q as [[?|?|]|[?|?|]|]; try done; lia.
Qed.

Definition unhex (v : pyval) : bytes :=
  match v with PStr s => match fromhex s with Ok b => b | Raise _ => [] end | _ => [] end.
Definition unhexes (v : pyval) : list bytes := match v with PTuple l => map unhex l | _ => [] end.

Lemma proof_made p :
  proof = Some p -> exists a b olds wits news, p = Claims.made_proof a b olds wits news.
Proof.
  intros [= <-].
  exists (c_prev_size cp), (c_mmr_size cp).
  match goal with |- exists _ _ _, ?p = _ =>
    exists (unhexes (cp_old_peaks p)), (match cp_witness p with PTuple l => map unhexes l | _ => [] end),
      (unhexes (cp_new_peaks p)) end.
  vm_compute. reflexivity.
Qed.
End DemoCose.

Lemma claims_roundtrip_witness :
  let HL := Sha256.hashlib in let PI := plain_interp in let CB := DemoCose.cbor2 in
  exists d,
    _decode_claims 2 (PDict DemoCose.claims) (Some DemoEmit.log)
      (Some (subject_of DemoEmit.log (c_mmr_size DemoCose.cp))) (str "k1") = Ok d /\
    to_checkpoint_record d = Claims.bare DemoCose.cp /\ d_new_peak_hashes d = DemoCose.new_peaks /\
    d_prev_peak_hashes d = (if 0 <? c_prev_size DemoCose.cp then default [] (Some DemoCose.prev_peaks) else []) /\
    d_consistency_proof d = DemoCose.proof /\ d_cadence_seconds d = Some 900.
Proof.
  intros HL PI CB.
  apply (claims_roundtrip 2 DemoCose.cp DemoEmit.log (str "k1") DemoEmit.time
    (mmr_root (map lh (_body_digests DemoEmit.later))) (mmr_root (map lh Demo.bodies)) DemoCose.new_peaks
    (Some DemoCose.prev_peaks) DemoCose.proof (Some 900) DemoCose.claims).
  - apply DemoCose.decodes.
  - lia.
  - split; [done|done|by vm_compute|vm_compute; reflexivity|vm_compute; reflexivity|done].
  - vm_compute. reflexivity.
  - vm_compute. reflexivity.
  - apply DemoCose.proof_made.
  - vm_compute. reflexivity.
Defined.

(** What the verifier reads in the demo statement. *)
Definition demo_decoded : DecodedCheckpointCose := Eval vm_compute in
  match verify_checkpoint_cose_offline (HL := Sha256.hashlib) (PI := plain_interp) (CB := DemoCose.cbor2)
    (CR := DemoEmit.crypto) (SC := DemoCose.scitt) 2 DemoCose.cose with
  | Some d => d
  | None => Build_DecodedCheckpointCose [] 0 [] [] 0 [] [] [] [] None None
  end.

Lemma cose_checkpoint_binding_witness :
  let HL := Sha256.hashlib in let PI := plain_interp in
  let CB := DemoCose.cbor2 in let CR := DemoEmit.crypto in let SC := DemoCose.scitt in
  let bodies := _body_digests DemoEmit.later in
  (exists kid claims, Cose.signed_by 2 DemoCose.cose demo_decoded kid claims) /\
  ((d_prev_size demo_decoded = 0 /\ d_consistency_proof demo_decoded = None) \/
   exists f p, d_prev_size demo_decoded = nc f /\ 0 <= f <= zlen bodies /\ d_consistency_proof demo_decoded = Some p /\
     (d_prev_root demo_decoded = hex (mmr_root (map lh (take (Z.to_nat f) bodies))) \/
      collides (mmr_preimages bodies) (consistency_preimages (nc f) (nc (zlen bodies)) p))).
Proof.
  intros HL PI CB CR SC bodies. apply (cose_checkpoint_binding 2 DemoCose.cose demo_decoded bodies).
  - vm_compute. reflexivity.
  - vm_compute. reflexivity.
  - vm_compute. reflexivity.
Defined.
