(* ===== verification/Runner.v ===== *)
(** * The checkpoint runner

    [src/python/checkpoint/runner.py]: the pass that indexes entries of a
    backend into the durable MMR state, signs a checkpoint when one is due and
    commits both by compare-and-set. The backend is any instance of
    [Backend.Backend]; between two of the runner's calls other callers may
    make theirs, as an explicit sequence of turns. *)
From S2P Require Import Prelude Bytes Text Py Json PyJson Sha256 MmrPos Mmr MmrProof Ed25519 Emit CoseWire.
From S2P Require Import Cll Calendar Engine EngineValid EngineProps EngineCommit EngineSteps Backend.
Open Scope Z_scope.

(** ** Configuration *)
Record CheckpointRunner := {
  _signer : StatementSigner; _log_id : pystr; _witness_ids : list pystr;
  _cadence_entries : Z; _cadence_age : Z; _scan_limit : Z; _poll_interval : Z
}.

(** [CheckpointRunner.__init__]; a duration is a number of microseconds,
    [None] for a value that is no [timedelta]. *)
Definition runner_init (store_given : bool) (signer : option StatementSigner) (log_id : pyval)
    (witness_ids : list pyval) (cadence_entries : pyval) (cadence_age : option Z) (scan_limit : pyval)
    (poll_interval : option Z) : result CheckpointRunner :=
  match signer, log_id, int_within scan_limit 1 MAX_SCAN_LIMIT, as_strict_int cadence_entries, cadence_age, poll_interval with
  | Some signer, PStr log_id, Some scan_limit, Some cadence_entries, Some cadence_age, Some poll_interval =>
      if negb store_given || negb (is_identifier log_id) || (cadence_entries <? 1) || (cadence_age <=? 0)
         || (poll_interval <=? 0)
      then Raise InvalidError
      else if MAX_WITNESSES <? zlen witness_ids then Raise InvalidError
      else if negb (forallb validate_identifier witness_ids) then Raise InvalidError
      else
        let ids := omap as_str witness_ids in
        if negb (bool_decide (NoDup ids)) then Raise InvalidError
        else Ok {| _signer := signer; _log_id := log_id; _witness_ids := ids; _cadence_entries := cadence_entries;
                   _cadence_age := cadence_age; _scan_limit := scan_limit; _poll_interval := poll_interval |}
  | _, _, _, _, _, _ => Raise InvalidError
  end.

(** [text.rstrip("0")] *)
Fixpoint drop_zeros (s : pystr) : pystr :=
  match s with c :: s' => if c =? 48 then drop_zeros s' else s | [] => [] end.
Definition rstrip_zeros (s : pystr) : pystr := rev (drop_zeros (rev s)).

(** The time as [issued_at] writes it: no trailing zeros in the fraction. *)
Definition checkpoint_timestamp (t : instant) : pystr :=
  let '(y, (m, d)) := days_date (t / DAY) in
  let r := t mod DAY in
  let text := pad 4 y ++ [45] ++ pad 2 m ++ [45] ++ pad 2 d ++ [84] ++ pad 2 (r / 3600000) ++ [58]
    ++ pad 2 (r / 60000 mod 60) ++ [58] ++ pad 2 (r / 1000 mod 60) in
  let fraction := rstrip_zeros (pad 3 (r mod 1000)) in
  if bool_decide (fraction = []) then text ++ [90] else text ++ [46] ++ fraction ++ [90].

(** ** The pure part of a pass *)

(** [except ValueError: raise CorruptError] *)
Definition is_value_error (e : exn) : bool :=
  bool_decide (e ∈ [ValueError; InvalidArgumentError; UnicodeError; ReceiptEncodingError; DuplicateMapKeyError]).
Definition as_corrupt {A} (r : result A) : result A :=
  match r with Raise e => if is_value_error e then Raise CorruptError else Raise e | Ok a => Ok a end.

Record _Loaded := { l_state : CllState; l_nodes : MemoryNodeStore }.

Section pass.
Context {PI : Interp} {HL : Hashlib} {CB : Cbor2} {CR : Crypto} {SC : ScittCose} (room : nat).

Definition _peaks (nodes : MemoryNodeStore) (size : Z) : result (list bytes) :=
  let! positions := peaks size in map_result (MemoryNodeStore.node nodes) positions.

Definition _verify_checkpoint (self : CheckpointRunner) (state : CllState) (nodes : MemoryNodeStore) : result () :=
  match cs_checkpoint state with
  | None => Ok ()
  | Some checkpoint =>
      let! leaves := as_corrupt (leaf_count (ck_size checkpoint)) in
      if (cs_size state <? ck_size checkpoint) || negb (leaves =? ck_indexed_seq checkpoint)
         || (cs_indexed_seq state <? ck_indexed_seq checkpoint)
      then Raise CorruptError
      else
        let! stored := _peaks nodes (ck_size checkpoint) in
        if negb (bool_decide (stored = ck_peaks checkpoint)) then Raise CorruptError
        else
          match verify_checkpoint_cose_offline room (ck_bytes checkpoint) with
          | None => Raise CorruptError
          | Some decoded =>
              if negb (bool_decide (d_log_id decoded = _log_id self))
                 || negb (bool_decide (d_key_id decoded = signer_key_id (_signer self)))
                 || negb (d_mmr_size decoded =? ck_size checkpoint)
                 || negb (bool_decide (d_new_peak_hashes decoded = ck_peaks checkpoint))
              then Raise CorruptError
              else
                let! root := root_from_peaks (ck_peaks checkpoint) in
                if bool_decide (d_root decoded = hex root) then Ok () else Raise CorruptError
          end
  end.

(** [_load] on the state the store returned. *)
Definition load_state (self : CheckpointRunner) (state : CllState) : result _Loaded :=
  let nodes := MemoryNodeStore.append_nodes MemoryNodeStore.__init__ (cs_nodes state) in
  let! leaves := as_corrupt (leaf_count (cs_size state)) in
  if negb (leaves =? cs_indexed_seq state) || negb (cs_size state =? zlen (cs_nodes state)) then Raise CorruptError
  else
    let! _ := _verify_checkpoint self state nodes in
    Ok {| l_state := state; l_nodes := nodes |}.

(** The loop over the scanned entries. *)
Fixpoint index_entries (nodes : MemoryNodeStore) (indexed : Z) (first_pending : option instant) (entries : list Entry)
  : result (MemoryNodeStore * Z * option instant) :=
  match entries with
  | [] => Ok (nodes, indexed, first_pending)
  | entry :: entries =>
      if negb (e_seq entry =? indexed + 1) then Raise CorruptError
      else
        let! nodes :=
          as_corrupt (let! leaf := leaf_hash (e_value entry) in let! added := add_leaf nodes leaf in Ok added.2) in
        let! appended_at := normalize_time (utc_datetime (e_appended_at entry)) CorruptError in
        index_entries nodes (e_seq entry)
          (match first_pending with None => Some appended_at | some => some end) entries
  end.

Definition last_checkpointed (state : CllState) : Z :=
  match cs_checkpoint state with Some c => ck_indexed_seq c | None => 0 end.

(** Whether a checkpoint is due; times are in milliseconds, the age is in
    microseconds. *)
Definition due (self : CheckpointRunner) (now : instant) (first_pending : option instant) (uncheckpointed : Z) : bool :=
  match first_pending with
  | None => false
  | Some t =>
      (0 <? uncheckpointed)
      && ((_cadence_entries self <=? uncheckpointed) || (_cadence_age self <=? (now - t) * 1000))
  end.

Definition sign_checkpoint (self : CheckpointRunner) (now : instant) (nodes : MemoryNodeStore) (size indexed : Z)
    (checkpoint : option CheckpointState) : result CheckpointState :=
  let! pks := _peaks nodes size in
  let! root := root_from_peaks pks in
  let! prev_root :=
    match checkpoint with None => Ok [] | Some c => let! r := root_from_peaks (ck_peaks c) in Ok (hex r) end in
  let record :=
    {| c_v := 1; c_kind := JStr (str "mmr_checkpoint"); c_log_id := JStr (_log_id self); c_mmr_size := size;
       c_root := JStr (hex root); c_prev_size := match checkpoint with None => 0 | Some c => ck_size c end;
       c_prev_root := JStr prev_root; c_key_id := JStr (signer_key_id (_signer self));
       c_timestamp := JStr (checkpoint_timestamp now); c_signature := JStr []; c_witnesses := [] |} in
  let! proof :=
    match checkpoint with
    | None => Ok None
    | Some c => let! p := MmrProof.consistency_proof nodes (ck_size c) size in Ok (Some p)
    end in
  let! statement := checkpoint_to_cose record (_signer self) pks (option_map ck_peaks checkpoint) proof None in
  Ok {| ck_bytes := statement; ck_size := size; ck_indexed_seq := indexed; ck_peaks := pks |}.

Definition witness_row (size : Z) (statement : bytes) (now : instant) (witness_id : pystr) : WitnessState :=
  {| ws_witness_id := witness_id; ws_checkpoint_size := size; ws_checkpoint := statement; ws_attempts := 0;
     ws_next_attempt_at := now; ws_receipt := None; ws_permanent := false; ws_last_error := None |}.

(** [tuple(nodes.node(position) for position in range(size))] *)
Definition all_nodes (nodes : MemoryNodeStore) (size : Z) : result (list bytes) :=
  map_result (fun i => MemoryNodeStore.node nodes (Z.of_nat i)) (seq 0 (Z.to_nat size)).

(** [_advance] between the scan and the commit: nothing to do, or the state to
    commit and the nodes it holds. *)
Definition plan (self : CheckpointRunner) (now : instant) (loaded : _Loaded) (entries : list Entry)
  : result (option _Loaded) :=
  let state := l_state loaded in
  let! (nodes, indexed, first_pending) :=
    index_entries (l_nodes loaded) (cs_indexed_seq state) (cs_first_pending_at state) entries in
  let size := MemoryNodeStore.size nodes in
  let is_due := due self now first_pending (indexed - last_checkpointed state) in
  let! (checkpoint, first_pending, witnesses) :=
    if is_due then
      let! c := sign_checkpoint self now nodes size indexed (cs_checkpoint state) in
      Ok (Some c, None, cs_witnesses state ++ map (witness_row size (ck_bytes c) now) (_witness_ids self))
    else Ok (cs_checkpoint state, first_pending, cs_witnesses state) in
  if bool_decide (entries = []) && negb is_due then Ok None
  else
    let! all := all_nodes nodes size in
    Ok (Some {| l_state := {| cs_size := size; cs_nodes := all; cs_indexed_seq := indexed;
                              cs_first_pending_at := first_pending; cs_checkpoint := checkpoint;
                              cs_witnesses := witnesses |};
                l_nodes := nodes |}).
End pass.

(** ** Calls to the store *)
Section runner.
Context {PI : Interp} {HL : Hashlib} {CB : Cbor2} {CR : Crypto} {SC : ScittCose} (room : nat).
Context {S Env : Type} {BE : Backend S Env} (idle : Env).

(** What others do before one of the runner's calls, and what the store's
    surroundings answer to it. *)
Record turn := { others : list (mutation * Env); answer : Env }.
Record world := { store : S; turns : list turn }.

(** An action on the world that returns or raises. *)
Definition act (A : Type) : Type := world -> world * result A.
Definition lift {A} (r : result A) : act A := fun w => (w, r).
Definition bind {A B} (m : act A) (k : A -> act B) : act B :=
  fun w => match m w with (w, Ok a) => k a w | (w, Raise e) => (w, Raise e) end.

#[local] Notation "'do!' x ':=' m 'in' k" := (bind m (fun x => k))
  (at level 10, x pattern, m at level 100, k at level 200).

(** The turn before a call; without further turns the runner is alone. *)
Definition next_turn (w : world) : world * Env :=
  match turns w with
  | [] => (w, idle)
  | t :: ts => ({| store := (calls (store w) (others t)).1; turns := ts |}, answer t)
  end.

Definition read {A} (f : Engine -> result A) : act A :=
  fun w => let '(w, _) := next_turn w in (w, query (store w) f).

Definition write (m : mutation) : act () :=
  fun w =>
    let '(w, env) := next_turn w in
    let '(s, r) := mutate (store w) m env in
    ({| store := s; turns := turns w |}, let! _ := r in Ok ()).

Definition store_load_cll : act CllState := read (fun engine => Ok (_state engine)).
Definition store_scan_entries (after_seq limit : Z) : act (list Entry) :=
  read (fun engine => Engine.scan_entries engine (PInt after_seq) (PInt limit)).
Definition store_commit_cll (expected_size : Z) (expected : option bytes) (next : CllState) : act () :=
  write (MCommit (PInt expected_size) (none_or PBytes expected) (Inst (state_arg next))).

(** ** The pass *)
Implicit Types self : CheckpointRunner.

Definition _load self : act _Loaded := do! state := store_load_cll in lift (load_state room self state).

(** True when it committed, with what it committed as the loaded state. *)
Definition _advance self (now : instant) (loaded : _Loaded) : act (bool * _Loaded) :=
  do! entries := store_scan_entries (cs_indexed_seq (l_state loaded)) (_scan_limit self) in
  do! planned := lift (plan self now loaded entries) in
  match planned with
  | None => lift (Ok (false, loaded))
  | Some next =>
      do! _ := store_commit_cll (cs_size (l_state loaded)) (option_map ck_bytes (cs_checkpoint (l_state loaded)))
                 (l_state next) in
      lift (Ok (true, next))
  end.

Definition run_once self (now : pyval) : act bool :=
  do! now := lift (normalize_time now InvalidError) in
  do! loaded := _load self in
  do! advanced := _advance self now loaded in
  lift (Ok advanced.1).

(** The loop of [_catch_up], in its [n]th round; [stop n] is what the event
    says after it. [None] when the fuel runs out. *)
Fixpoint catch_up_loop self (now : instant) (stop : nat -> bool) (fuel n : nat) (loaded : _Loaded) (reloaded : bool)
    (w : world) : world * option (result ()) :=
  match fuel with
  | O => (w, None)
  | Datatypes.S fuel =>
      match _advance self now loaded w with
      | (w, Ok (changed, loaded)) =>
          if negb changed || stop n then (w, Some (Ok ()))
          else catch_up_loop self now stop fuel (Datatypes.S n) loaded false w
      | (w, Raise ContentionError) =>
          if reloaded then (w, Some (Raise ContentionError))
          else
            match _load self w with
            | (w, Ok loaded) => catch_up_loop self now stop fuel n loaded true w
            | (w, Raise e) => (w, Some (Raise e))
            end
      | (w, Raise e) => (w, Some (Raise e))
      end
  end.

Definition _catch_up self (now : pyval) (stop : nat -> bool) (fuel : nat) (w : world) : world * option (result ()) :=
  match normalize_time now InvalidError with
  | Raise e => (w, Some (Raise e))
  | Ok now =>
      match _load self w with
      | (w, Raise e) => (w, Some (Raise e))
      | (w, Ok loaded) => catch_up_loop self now stop fuel 0 loaded false w
      end
  end.
End runner.
