(* ===== verification/RunnerProps.v ===== *)
(** * What a runner's pass does to a backend

    The durable state a runner keeps is a function of the log: the MMR of its
    first [indexed] entries, with the checkpoint over a prefix of them. Every
    pass keeps it so, whatever other callers append, deliver or commit in
    between, and catching up ends. *)
From S2P Require Import Prelude Bytes Text Py PyJson Sha256 MmrPos Mmr MmrSpec MmrProof MmrPath Inclusion Ed25519 Emit CoseWire Cll Engine EngineValid EngineProps EngineCommit EngineSteps Backend Runner Memory.
Open Scope Z_scope.

Section faithful.
Context {HL : Hashlib}.

Definition leaves_of (entries : list Entry) : list bytes := map (fun e => lh (e_value e)) entries.

(** The MMR leaves of the first [n] entries. *)
Definition prefix_of_log (n : Z) (entries : list Entry) : list bytes := leaves_of (take (Z.to_nat n) entries).

(** [state] is what indexing and checkpointing [entries] in order gives. *)
Record faithful (entries : list Entry) (state : CllState) : Prop := {
  f_bound : 0 <= cs_indexed_seq state <= zlen entries;
  f_nodes : represents (cs_nodes state) (prefix_of_log (cs_indexed_seq state) entries);
  f_size : cs_size state = zlen (cs_nodes state);
  f_pending : cs_first_pending_at state =
    if last_checkpointed state <? cs_indexed_seq state
    then e_appended_at <$> entries !! Z.to_nat (last_checkpointed state) else None;
  f_checkpoint : forall c, cs_checkpoint state = Some c ->
    0 < ck_indexed_seq c <= cs_indexed_seq state /\ ck_size c = nc (ck_indexed_seq c) /\
    ck_peaks c = peak_hashes (prefix_of_log (ck_indexed_seq c) entries)
}.

Lemma zlen_leaves_of l : zlen (leaves_of l) = zlen l.
Proof. apply zlen_map. Qed.

Lemma leaves_of_digest l : Forall is_digest (leaves_of l).
Proof. apply Forall_map, Forall_forall. intros. apply lh_digest. Qed.

Lemma prefix_of_log_length n entries : 0 <= n <= zlen entries -> zlen (prefix_of_log n entries) = n.
Proof. intros. unfold prefix_of_log. rewrite zlen_leaves_of. unfold zlen in *. rewrite length_take. lia. Qed.

Lemma prefix_of_log_app n entries more :
  0 <= n <= zlen entries -> prefix_of_log n (entries ++ more) = prefix_of_log n entries.
Proof. intros. unfold prefix_of_log. unfold zlen in *. by rewrite take_app_le by lia. Qed.

Lemma prefix_of_log_next n entries e :
  0 <= n -> entries !! Z.to_nat n = Some e ->
  prefix_of_log (n + 1) entries = prefix_of_log n entries ++ [lh (e_value e)].
Proof.
  intros Hn He. unfold prefix_of_log. replace (Z.to_nat (n + 1)) with (S (Z.to_nat n)) by lia.
  rewrite (take_S_r _ _ e) by done. unfold leaves_of. by rewrite map_app.
Qed.

(** A prefix of a prefix. *)
Lemma prefix_of_log_take m n entries :
  0 <= m <= n -> prefix_leaves m (prefix_of_log n entries) = prefix_of_log m entries.
Proof.
  intros. unfold prefix_leaves, prefix_of_log, leaves_of. rewrite firstn_map, take_take.
  by replace (Z.to_nat m `min` Z.to_nat n)%nat with (Z.to_nat m) by lia.
Qed.

Lemma last_checkpointed_bound entries state :
  faithful entries state -> 0 <= last_checkpointed state <= cs_indexed_seq state.
Proof.
  intros Hf. pose proof (f_bound _ _ Hf). unfold last_checkpointed.
  destruct (cs_checkpoint state) as [c|] eqn:Ec; [|lia].
  destruct (f_checkpoint _ _ Hf c Ec) as (? & _). lia.
Qed.

Lemma faithful_mono entries entries' state :
  entries `prefix_of` entries' -> faithful entries state -> faithful entries' state.
Proof.
  intros [more ->] Hf. pose proof (last_checkpointed_bound _ _ Hf) as Hl.
  destruct Hf as [Hb Hn Hs Hp Hc]. pose proof (zlen_nonneg more). split; [|by rewrite prefix_of_log_app|done| |].
  - rewrite zlen_app. lia.
  - rewrite Hp. destruct (_ <? _) eqn:E; [|done]. zbool. unfold zlen in *. by rewrite lookup_app_l by lia.
  - intros c Ec. destruct (Hc c Ec) as (? & ? & ?). rewrite prefix_of_log_app by lia. done.
Qed.

Lemma faithful_same entries s s' : same_index s s' -> faithful entries s -> faithful entries s'.
Proof.
  intros (E1 & E2 & E3 & E4 & E5) [Hb Hn Hs Hp Hc]. unfold last_checkpointed in *.
  split; unfold last_checkpointed; rewrite <- ?E1, <- ?E2, <- ?E3, <- ?E4, <- ?E5; done.
Qed.

Lemma empty_faithful entries : faithful entries empty_state.
Proof.
  split; cbn; try done; [pose proof (zlen_nonneg entries); lia|apply represents_nil].
Qed.
End faithful.

(** ** Other callers *)

(** Another caller's mutation: anything that appends or delivers, and any
    commit of a state faithful to the entries [log]. *)
Definition polite {HL : Hashlib} (log : list Entry) (m : mutation) : Prop :=
  match m with
  | MCommit _ _ next => forall s, validate_state next InvalidError = Ok s -> faithful log s
  | _ => True
  end.

(** What a log makes faithful, each polite mutation keeps faithful. *)
Lemma run_engine_faithful {HL : Hashlib} log engine m r engine' :
  wf engine -> polite log m -> run_engine engine m = Ok (r, engine') ->
  faithful log (_state engine) -> faithful log (_state engine').
Proof.
  intros Hwf Hp Hrun Hf. destruct m as [input|es ec next|ea next]; cbn [run_engine] in Hrun.
  - destruct (Engine.append engine input) as [[r0 s]|] eqn:E; [|done]. injection Hrun as _ <-.
    rewrite append_eq in E by done. destruct (check_append input) as [[v t]|]; [|done].
    destruct (_by_value engine !! v); [destruct (py_index _ _); [|done]; by injection E as _ <-|].
    destruct (_ <=? _); [done|]. by injection E as _ <-.
  - unfold Engine.commit_cll in Hrun. destruct (apply_cll _ _ _ _) as [u|] eqn:E; [|done]. injection Hrun as _ <-.
    apply apply_cll_inv in E as (_ & s & Hv & _ & _ & -> & _); [|by apply wf_state].
    apply (faithful_same _ s); [by split_and!|by apply Hp].
  - destruct (Engine.commit_witness _ _ _) eqn:E; [|done]. injection Hrun as _ <-.
    apply commit_witness_inv in E as (w & i & n & _ & _ & _ & -> & _); [|done].
    apply (faithful_same _ (_state engine)); [by split_and!|done].
Qed.

(** ** The pure part of a pass *)
Section plan.
Context {PI : Interp} {HL : Hashlib} {CB : Cbor2} {CR : Crypto} {SC : ScittCose} (room : nat).
Implicit Types self : CheckpointRunner.

(** Entries numbered from one, as an engine keeps them. *)
Definition dense (entries : list Entry) : Prop := forall i e, entries !! i = Some e -> entry_at i e.

Lemma as_corrupt_Ok {A} (r : result A) a : as_corrupt r = Ok a -> r = Ok a.
Proof. destruct r as [|e]; cbn; [done|]. by destruct (is_value_error e). Qed.

(** [loaded] holds a faithful state and its node array. *)
Record loaded_ok (entries : list Entry) (loaded : _Loaded) : Prop := {
  lo_faithful : faithful entries (l_state loaded);
  lo_nodes : _nodes (l_nodes loaded) = cs_nodes (l_state loaded);
  lo_small : zlen (_nodes (l_nodes loaded)) < 2 ^ 64
}.

(** What every loaded state has, whatever it was loaded from. *)
Record sized (loaded : _Loaded) : Prop := {
  sz_nodes : _nodes (l_nodes loaded) = cs_nodes (l_state loaded);
  sz_small : zlen (_nodes (l_nodes loaded)) < 2 ^ 64
}.

Lemma loaded_sized entries loaded : loaded_ok entries loaded <-> faithful entries (l_state loaded) /\ sized loaded.
Proof. split; [intros [? ? ?]; by split_and!|intros [? [? ?]]; by split]. Qed.

Lemma loaded_mono entries entries' loaded :
  entries `prefix_of` entries' -> loaded_ok entries loaded -> loaded_ok entries' loaded.
Proof. intros Hp [H1 H2 H3]. split; [by eapply faithful_mono|done|done]. Qed.

Lemma load_state_sized self state loaded :
  load_state room self state = Ok loaded -> l_state loaded = state /\ sized loaded.
Proof.
  unfold load_state. destruct (as_corrupt _) as [n|] eqn:El; [|done]. apply as_corrupt_Ok in El.
  destruct (_ || _) eqn:E; [done|]. zbool. destruct (_verify_checkpoint _ _ _ _); [|done]. intros [= <-]. split; [done|].
  apply leaf_count_Ok_inv in El as (_ & _ & Hmax). split; [done|]. cbn. unfold MAX_MMR_SIZE in Hmax. lia.
Qed.

Lemma load_state_ok self entries state loaded :
  faithful entries state -> load_state room self state = Ok loaded ->
  l_state loaded = state /\ loaded_ok entries loaded.
Proof. intros Hf [Hs Hz]%load_state_sized. split; [done|]. apply loaded_sized. by rewrite Hs. Qed.

(** What indexing scanned entries gives. *)
Record indexed_from (entries : list Entry) (n : Z) (fp : option instant) (nodes : list bytes)
    (nodes' : MemoryNodeStore) (n' : Z) (fp' : option instant) : Prop := {
  if_bound : n <= n' <= zlen entries;
  if_nodes : represents (_nodes nodes') (prefix_of_log n' entries);
  if_grows : nodes `prefix_of` _nodes nodes';
  if_small : zlen nodes < 2 ^ 64 -> zlen (_nodes nodes') < 2 ^ 64;
  if_pending : fp' = match fp with
    | Some _ => fp
    | None => if n <? n' then e_appended_at <$> entries !! Z.to_nat n else None
    end
}.

Lemma index_one entries e nodes n leaf added :
  dense entries -> e ∈ entries -> e_seq e = n + 1 -> 0 <= n ->
  represents (_nodes nodes) (prefix_of_log n entries) ->
  leaf_hash (e_value e) = Ok leaf -> add_leaf nodes leaf = Ok added ->
  entries !! Z.to_nat n = Some e /\ n + 1 <= zlen entries /\ is_instant (e_appended_at e) /\
  indexed_from entries n None (_nodes nodes) added.2 (n + 1) (Some (e_appended_at e)).
Proof.
  intros Hd [i Hi]%list_elem_of_lookup Es Hn Hrep Hl Ha.
  destruct (Hd i e Hi) as [Hseq Hval Ht]. assert (i = Z.to_nat n) as -> by lia.
  pose proof (lookup_lt_Some _ _ _ Hi). assert (n + 1 <= zlen entries) as Hle by (unfold zlen; lia).
  rewrite leaf_hash_digest in Hl by (unfold is_digest, zlen, ENTRY_BYTES in *; lia). injection Hl as <-.
  change (_nodes nodes) with (ns_view nodes) in Hrep.
  pose proof (add_leaf_small _ _ _ _ Hrep Ha) as Hmax.
  destruct (add_leaf_Ok_represents nodes _ _ _ Hrep (lh_digest _) Ha) as [Hrep' Hp].
  rewrite <- (prefix_of_log_next _ _ _ Hn Hi) in Hrep'. split_and!; [done|done|done|].
  split; [lia|done|done| |rw_bool (n <? n + 1) true; by rewrite Hi].
  intros _. change (ns_view added.2) with (_nodes added.2) in Hrep'. rewrite (rep_size _ _ Hrep'). rewrite prefix_of_log_length in * by lia.
  pose proof (nc_le (n + 1) ltac:(lia)). pose proof (nc_ge n ltac:(lia)). unfold MAX_MMR_SIZE in Hmax. lia.
Qed.

Lemma indexed_from_step entries n fp nodes nodes1 fp1 nodes' n' fp' t :
  0 <= n -> indexed_from entries n None nodes nodes1 (n + 1) (Some t) ->
  fp1 = match fp with None => Some t | some => some end ->
  indexed_from entries (n + 1) fp1 (_nodes nodes1) nodes' n' fp' ->
  indexed_from entries n fp nodes nodes' n' fp'.
Proof.
  intros Hn [Hb _ Hg Hs Hp] -> [Hb' Hr' Hg' Hs' Hp']. split; [lia|done|by etransitivity|auto|].
  rewrite Hp'. destruct fp; [done|]. revert Hp. rw_bool (n <? n + 1) true. rw_bool (n <? n') true. done.
Qed.

Lemma index_entries_spec entries scanned nodes n fp nodes' n' fp' :
  dense entries -> scanned ⊆ entries -> 0 <= n <= zlen entries ->
  represents (_nodes nodes) (prefix_of_log n entries) ->
  index_entries nodes n fp scanned = Ok (nodes', n', fp') ->
  n' = n + zlen scanned /\ indexed_from entries n fp (_nodes nodes) nodes' n' fp'.
Proof.
  intros Hd. revert nodes n fp. induction scanned as [|e scanned IH]; intros nodes n fp Hin Hn Hrep;
    cbn [index_entries].
  { intros [= <- <- <-]. rewrite zlen_nil, Z.add_0_r. split; [done|]. split; try done; [lia|].
    rewrite Z.ltb_irrefl. by destruct fp. }
  destruct (e_seq e =? n + 1) eqn:Es; [|done]. cbn [negb]. zbool.
  destruct (as_corrupt _) as [st|] eqn:Ea; [|done]. apply as_corrupt_Ok in Ea.
  destruct (leaf_hash (e_value e)) as [leaf|] eqn:El; [|done].
  destruct (add_leaf nodes leaf) as [added|] eqn:Eadd; [|done]. injection Ea as <-.
  destruct (index_one entries e nodes n leaf added) as (He & Hle & Ht & Hone); try done; [by apply Hin; left|lia|].
  rewrite normalize_utc by done. intros Hr. rewrite Es in Hr.
  apply IH in Hr as [-> Hr]; [|set_solver|lia|apply Hone]. rewrite zlen_cons. split; [lia|].
  eapply indexed_from_step; [lia|exact Hone| |exact Hr]. by destruct fp.
Qed.

(** *** Sizes, whatever the state is *)

Lemma tiles_zlen stack f : tiles stack f -> zlen stack <= f.
Proof.
  revert f. induction stack as [|[h s] stack IH]; intros f; cbn [tiles]; [intros ->; done|].
  intros (<- & _ & Ht). apply IH in Ht. rewrite zlen_cons. pose proof (p2_pos h). lia.
Qed.

Lemma peaks_zlen size l : peaks size = Ok l -> zlen l <= size < MAX_MMR_SIZE.
Proof.
  intros Hp. pose proof (peaks_Ok_inv _ _ Hp) as (f & Hf & -> & Hmax). rewrite peaks_nc in Hp by done.
  injection Hp as <-. rewrite zlen_map. pose proof (tiles_zlen _ _ (tiles_mountains f Hf)) as Ht.
  unfold zlen in *. rewrite length_rev in Ht. pose proof (nc_ge f Hf). lia.
Qed.

Lemma add_leaf_loop_zlen (nodes : MemoryNodeStore) pos ps height cur new l :
  add_leaf_loop nodes pos ps height cur new = Ok l -> zlen l <= zlen new + zlen ps.
Proof.
  revert height cur new. induction ps as [|p ps IH]; intros height cur new; cbn [add_leaf_loop].
  { intros [= <-]. rewrite zlen_nil. lia. }
  rewrite zlen_cons. pose proof (zlen_nonneg ps). destruct (height_at p); [|done]. destruct (_ =? _); [|intros [= <-]; lia].
  destruct (ns_node nodes p); [|done]. destruct (interior_hash _ _ _); [|done]. intros Hl. apply IH in Hl.
  rewrite zlen_app, zlen_cons, zlen_nil in Hl. lia.
Qed.

Lemma add_leaf_sized (nodes : MemoryNodeStore) leaf r :
  add_leaf nodes leaf = Ok r -> zlen (_nodes r.2) < 2 ^ 64.
Proof.
  unfold add_leaf. destruct (_assert_digest _); [|done]. change (ns_size nodes) with (zlen (_nodes nodes)).
  destruct (if _ =? 0 then _ else _) as [ps|] eqn:Ep; [|done].
  destruct (add_leaf_loop _ _ _ _ _ _) as [new|] eqn:El; [|done]. intros [= <-]. cbn [snd].
  apply add_leaf_loop_zlen in El. rewrite zlen_cons, zlen_nil in El.
  assert (zlen (rev ps) = zlen ps) as Hrev by (unfold zlen; by rewrite length_rev). rewrite Hrev in El.
  enough (zlen (_nodes nodes ++ new) < 2 ^ 64) by done. rewrite zlen_app.
  destruct (_ =? 0) eqn:E0; zbool; [injection Ep as Ep; subst ps; change (zlen (@nil Z)) with 0 in El; lia|].
  apply peaks_zlen in Ep. unfold MAX_MMR_SIZE in Ep. lia.
Qed.

Lemma index_entries_sized scanned nodes n fp nodes' n' fp' :
  zlen (_nodes nodes) < 2 ^ 64 -> index_entries nodes n fp scanned = Ok (nodes', n', fp') ->
  n' = n + zlen scanned /\ zlen (_nodes nodes') < 2 ^ 64.
Proof.
  revert nodes n fp. induction scanned as [|e scanned IH]; intros nodes n fp Hz; cbn [index_entries].
  { intros [= <- <- <-]. rewrite zlen_nil. split; [lia|done]. }
  destruct (e_seq e =? n + 1) eqn:Es; [|done]. cbn [negb]. zbool.
  destruct (as_corrupt _) as [st|] eqn:Ea; [|done]. apply as_corrupt_Ok in Ea.
  destruct (leaf_hash (e_value e)) as [leaf|]; [|done]. destruct (add_leaf nodes leaf) as [added|] eqn:Eadd; [|done].
  injection Ea as <-. apply add_leaf_sized in Eadd. destruct (normalize_time _ _); [|done]. intros Hr.
  apply IH in Hr as [-> ?]; [|done]. rewrite zlen_cons. split; [lia|done].
Qed.

Lemma peaks_of_nodes nodes leaves f pks :
  represents (_nodes nodes) leaves -> 0 <= f <= zlen leaves -> _peaks nodes (nc f) = Ok pks ->
  pks = peak_hashes (prefix_leaves f leaves).
Proof.
  intros Hrep Hf. unfold _peaks. destruct (peaks (nc f)) as [ps|] eqn:Ep; [|done].
  apply peaks_Ok_inv in Ep as Hp. destruct Hp as (g & Hg & Hng & Hmax).
  rewrite peaks_nc in Ep by lia. injection Ep as <-. intros Hm.
  rewrite peak_hashes_prefix by done. change (MemoryNodeStore.node nodes) with (ns_node nodes) in Hm.
  rewrite (read_peaks nodes leaves f) in Hm by done. by injection Hm as <-.
Qed.

Lemma all_nodes_eq nodes l : all_nodes nodes (MemoryNodeStore.size nodes) = Ok l -> l = _nodes nodes.
Proof.
  unfold all_nodes, MemoryNodeStore.size, zlen. rewrite Nat2Z.id. intros Hm.
  pose proof (map_result_length _ _ _ Hm) as Hlen. rewrite length_seq in Hlen.
  apply list_eq_same_length with (length l); [done|lia|]. intros i x y Hi Hx Hy.
  destruct (map_result_lookup _ _ _ i i Hm) as (z & Hz & Hn); [apply lookup_seq; lia|].
  rewrite Hx in Hz. injection Hz as <-. unfold MemoryNodeStore.node in Hn.
  rewrite py_index_nonneg, Nat2Z.id, Hy in Hn by lia. by injection Hn.
Qed.

Lemma sign_checkpoint_Ok self now nodes size indexed old c :
  sign_checkpoint self now nodes size indexed old = Ok c ->
  ck_size c = size /\ ck_indexed_seq c = indexed /\ _peaks nodes size = Ok (ck_peaks c).
Proof.
  unfold sign_checkpoint. destruct (_peaks nodes size) as [pks|]; [|done].
  destruct (root_from_peaks pks); [|done]. destruct (match old with None => Ok [] | _ => _ end); [|done].
  destruct (match old with None => Ok None | _ => _ end); [|done].
  destruct (checkpoint_to_cose _ _ _ _ _ _); [|done]. by intros [= <-].
Qed.
(** The time the oldest entry without a checkpoint was appended. *)
Definition waiting_since (entries : list Entry) (last indexed : Z) : option instant :=
  if last <? indexed then e_appended_at <$> entries !! Z.to_nat last else None.

(** The cadence: enough entries wait, or the oldest has waited long enough. *)
Definition checkpoint_due self (now : instant) (entries : list Entry) (last indexed : Z) : Prop :=
  exists t, waiting_since entries last indexed = Some t /\
    (_cadence_entries self <= indexed - last \/ _cadence_age self <= (now - t) * 1000).

Lemma due_iff self now entries last indexed :
  due self now (waiting_since entries last indexed) (indexed - last) = true <->
  checkpoint_due self now entries last indexed.
Proof.
  unfold checkpoint_due, due, waiting_since. destruct (last <? indexed) eqn:El; zbool.
  2: { split; [done|]. by intros (t & E & _). }
  destruct (entries !! Z.to_nat last) as [e|]; cbn [fmap option_fmap option_map].
  2: { split; [done|]. by intros (t & E & _). }
  rw_bool (0 <? indexed - last) true. cbn [andb]. rewrite orb_true_iff, !Z.leb_le. split.
  - intros Hd. by exists (e_appended_at e).
  - by intros (t & [= <-] & Hd).
Qed.

Lemma pending_after entries loaded nodes' n' fp' :
  loaded_ok entries loaded ->
  indexed_from entries (cs_indexed_seq (l_state loaded)) (cs_first_pending_at (l_state loaded))
    (_nodes (l_nodes loaded)) nodes' n' fp' ->
  fp' = waiting_since entries (last_checkpointed (l_state loaded)) n'.
Proof.
  intros [Hf _ _] Hi. pose proof (last_checkpointed_bound _ _ Hf) as Hl. pose proof (f_bound _ _ Hf).
  rewrite (if_pending _ _ _ _ _ _ _ Hi). pose proof (if_bound _ _ _ _ _ _ _ Hi). rewrite (f_pending _ _ Hf).
  unfold waiting_since. destruct (last_checkpointed _ <? cs_indexed_seq _) eqn:E; zbool.
  - rw_bool (last_checkpointed (l_state loaded) <? n') true.
    destruct (lookup_lt_is_Some_2 entries (Z.to_nat (last_checkpointed (l_state loaded)))) as [e ->]; [|done].
    unfold zlen in *. lia.
  - by replace (last_checkpointed (l_state loaded)) with (cs_indexed_seq (l_state loaded)) by lia.
Qed.

(** The state a pass commits, from the indexed nodes: with a new checkpoint
    over all of them when one is due, else with the old one. *)
Record planned self (now : instant) (entries : list Entry) (loaded : _Loaded) (n' : Z) (next : CllState) : Prop := {
  pl_indexed : cs_indexed_seq next = n';
  pl_grows : cs_nodes (l_state loaded) `prefix_of` cs_nodes next;
  pl_due : checkpoint_due self now entries (last_checkpointed (l_state loaded)) n' ->
    exists c, cs_checkpoint next = Some c /\ ck_indexed_seq c = n' /\
      cs_witnesses next = cs_witnesses (l_state loaded)
        ++ map (witness_row (ck_size c) (ck_bytes c) now) (_witness_ids self);
  pl_not_due : ~ checkpoint_due self now entries (last_checkpointed (l_state loaded)) n' ->
    cs_checkpoint next = cs_checkpoint (l_state loaded) /\ cs_witnesses next = cs_witnesses (l_state loaded)
}.

Lemma faithful_due entries nodes n c witnesses :
  0 < n <= zlen entries -> represents (_nodes nodes) (prefix_of_log n entries) ->
  ck_size c = MemoryNodeStore.size nodes -> ck_indexed_seq c = n -> _peaks nodes (ck_size c) = Ok (ck_peaks c) ->
  faithful entries {| cs_size := MemoryNodeStore.size nodes; cs_nodes := _nodes nodes; cs_indexed_seq := n;
    cs_first_pending_at := None; cs_checkpoint := Some c; cs_witnesses := witnesses |}.
Proof.
  intros Hn Hrep Hs Hi Hp. assert (ck_size c = nc n) as Hnc.
  { rewrite Hs. unfold MemoryNodeStore.size. by rewrite (rep_size _ _ Hrep), prefix_of_log_length by lia. }
  split; cbn; [lia|done|done|by rewrite Hi, Z.ltb_irrefl|]. intros c' [= <-]. rewrite Hi. split_and!; [lia|lia|done|].
  rewrite Hnc in Hp. apply (peaks_of_nodes _ _ _ _ Hrep) in Hp; [|rewrite prefix_of_log_length by lia; lia].
  by rewrite prefix_of_log_take in Hp by lia.
Qed.

Lemma faithful_later entries state nodes n witnesses :
  faithful entries state -> cs_indexed_seq state <= n <= zlen entries ->
  represents (_nodes nodes) (prefix_of_log n entries) ->
  faithful entries {| cs_size := MemoryNodeStore.size nodes; cs_nodes := _nodes nodes; cs_indexed_seq := n;
    cs_first_pending_at := waiting_since entries (last_checkpointed state) n;
    cs_checkpoint := cs_checkpoint state; cs_witnesses := witnesses |}.
Proof.
  intros [Hb _ _ _ Hc] Hn Hrep. split; [cbn; lia|done|done|done|]. cbn. intros c Ec.
  destruct (Hc c Ec) as (? & ? & ?). split_and!; [lia|lia|done|done].
Qed.

(** What a plan holds, whatever it was made from: more entries, or a checkpoint
    over all of them. *)
Lemma plan_sized self now loaded scanned next :
  sized loaded -> plan self now loaded scanned = Ok (Some next) ->
  let last := last_checkpointed (l_state loaded) in let reached := cs_indexed_seq (l_state loaded) + zlen scanned in
  sized next /\ cs_indexed_seq (l_state next) = reached /\
  (last < reached /\ last_checkpointed (l_state next) = reached \/
   scanned <> [] /\ last_checkpointed (l_state next) = last).
Proof.
  intros [_ Hz] Hp. cbv zeta. unfold plan in Hp. destruct (index_entries _ _ _ _) as [[[nodes n'] fp]|] eqn:Ei; [|done].
  apply index_entries_sized in Ei as [-> Hz']; [|done]. destruct (due _ _ _ _) eqn:Edue.
  - destruct (sign_checkpoint _ _ _ _ _ _) as [c|] eqn:Es; [|done]. apply sign_checkpoint_Ok in Es as (_ & Ec & _).
    rewrite andb_false_r in Hp. destruct (all_nodes _ _) as [all|] eqn:Ea; [|done]. apply all_nodes_eq in Ea as ->.
    injection Hp as <-. split_and!; [done|done|left]. split; [|done]. unfold due in Edue. destruct fp; [|done].
    apply andb_true_iff in Edue as [Hlt _]. zbool. lia.
  - destruct (bool_decide (scanned = [])) eqn:Eb; zbool; cbn [andb negb] in Hp; [done|].
    destruct (all_nodes _ _) as [all|] eqn:Ea; [|done]. apply all_nodes_eq in Ea as ->. injection Hp as <-.
    split_and!; [done|done|by right].
Qed.

Lemma plan_spec self now entries loaded scanned :
  dense entries -> loaded_ok entries loaded -> scanned ⊆ entries ->
  let n' := cs_indexed_seq (l_state loaded) + zlen scanned in
  match plan self now loaded scanned with
  | Ok None => scanned = [] /\
      ~ checkpoint_due self now entries (last_checkpointed (l_state loaded)) (cs_indexed_seq (l_state loaded))
  | Ok (Some next) => loaded_ok entries next /\ planned self now entries loaded n' (l_state next) /\
      (scanned <> [] \/ checkpoint_due self now entries (last_checkpointed (l_state loaded)) n')
  | Raise _ => True
  end.
Proof.
  intros Hd Hok Hin. cbv zeta. pose proof Hok as [Hf Hn Hsm]. unfold plan.
  destruct (index_entries _ _ _ _) as [[[nodes n'] fp]|] eqn:Ei; [|done].
  assert (represents (_nodes (l_nodes loaded)) (prefix_of_log (cs_indexed_seq (l_state loaded)) entries)) as Hrep
    by (rewrite Hn; apply Hf).
  pose proof (f_bound _ _ Hf) as Hb. pose proof (last_checkpointed_bound _ _ Hf) as Hl.
  apply (index_entries_spec entries) in Ei as [-> Hi]; [|done|done|done|done].
  pose proof (pending_after _ _ _ _ _ Hok Hi) as ->. destruct Hi as [Hb' Hrep' Hg Hs' _].
  set (n' := cs_indexed_seq (l_state loaded) + zlen scanned) in *. rewrite Hn in Hg.
  pose proof (due_iff self now entries (last_checkpointed (l_state loaded)) n') as Hdue.
  destruct (due _ _ _ _) eqn:Edue.
  - destruct (sign_checkpoint _ _ _ _ _ _) as [c|] eqn:Es; [|done]. apply sign_checkpoint_Ok in Es as (Ec1 & Ec2 & Ec3).
    rewrite andb_false_r. destruct (all_nodes _ _) as [all|] eqn:Ea; [|done]. apply all_nodes_eq in Ea as ->.
    destruct (proj1 Hdue eq_refl) as (t & Ht & _).
    assert (last_checkpointed (l_state loaded) < n') as Hlt
      by (unfold waiting_since in Ht; destruct (_ <? _) eqn:E; [by apply Z.ltb_lt|done]).
    split_and!; [|split; cbn|right; by apply Hdue]; [|done|done| |tauto].
    + split; [|done|by apply Hs']. apply faithful_due; [lia|done|done|done|by rewrite Ec1].
    + intros _. exists c. by rewrite Ec1.
  - destruct (bool_decide (scanned = [])) eqn:Eb; zbool; cbn [andb negb].
    { subst scanned. split; [done|]. subst n'. rewrite zlen_nil, Z.add_0_r in Hdue. rewrite <- Hdue. done. }
    destruct (all_nodes _ _) as [all|] eqn:Ea; [|done]. apply all_nodes_eq in Ea as ->.
    split_and!; [|split; cbn; [done|done| |done]|by left].
    + split; [|done|by apply Hs']. apply faithful_later; [done|lia|done].
    + intros Hdue'. by apply Hdue in Hdue'.
Qed.
End plan.

(** ** Passes over a backend with other callers

    Every action keeps the backend sound and growing, whatever others commit.
    If the log [final] it ends with accounts for every state others commit
    ([trust]), then it accounts for the backend's state all along. *)
Section world.
Context {PI : Interp} {HL : Hashlib} {CB : Cbor2} {CR : Crypto} {SC : ScittCose} (room : nat).
Context {S Env : Type} {BE : Backend S Env} (idle : Env).

Definition small_turn (t : turn (Env := Env)) : Prop := small_calls (others t).
Definition polite_turn (log : list Entry) (t : turn (Env := Env)) : Prop :=
  Forall (fun call => polite log call.1) (others t).

Context (self : CheckpointRunner) (origin : Engine) (trust : Prop) (final : list Entry) (Hdense : trust -> dense final).

(** The store is closed, or shows an engine that extends [origin] and whose
    state, if the log is a part of [final], is faithful to [final]. *)
Record kept (w : world (S := S) (Env := Env)) : Prop := {
  k_small : Forall small_turn (turns w);
  k_polite : trust -> Forall (polite_turn final) (turns w);
  k_view : forall engine, view (store w) = Some engine ->
    sound (store w) /\ extends origin engine /\
    (trust -> _entries engine `prefix_of` final -> faithful final (_state engine))
}.

(** The log so far is a part of [final]. *)
Definition good (w : world (S := S) (Env := Env)) : Prop :=
  trust /\ exists engine, view (store w) = Some engine /\ _entries engine `prefix_of` final.

(** An action, to run where [P] holds of a good world, that keeps the store
    kept and only extends its log; it answers something that meets [U], and
    [G] too if the world is good. *)
Definition keeps {A} (P : Prop) (m : act A) (U G : A -> Prop) : Prop :=
  forall w, kept w -> (good w -> P) -> kept (m w).1 /\ (good (m w).1 -> good w) /\
    match (m w).2 with Ok a => U a /\ (good (m w).1 -> G a) | Raise _ => True end.

Lemma keeps_lift {A} (P : Prop) (r : result A) (U G : A -> Prop) :
  match r with Ok a => U a /\ (trust -> P -> G a) | Raise _ => True end -> keeps P (lift r) U G.
Proof.
  intros Hr w Hw HP. split_and!; [done|done|]. cbn. destruct r; [|done]. destruct Hr as [? Hg]. split; [done|].
  intros Hgood. apply Hg; [apply Hgood|by apply HP].
Qed.

Lemma keeps_bind {A B} P (m : act A) (k : A -> act B) U G U' G' :
  keeps P m U G -> (forall a, U a -> keeps (G a) (k a) U' G') -> keeps P (bind m k) U' G'.
Proof.
  intros Hm Hk w Hw HP. destruct (Hm w Hw HP) as (Hw' & Hback & Ha). unfold bind.
  destruct (m w) as [w' [a|e]]; cbn [fst snd] in *; [|done]. destruct Ha as [HU HG].
  destruct (Hk a HU w' Hw' HG) as (? & Hback' & ?). split_and!; [done|by intros ?%Hback'%Hback|done].
Qed.

Lemma run_engine_extends engine m r engine' :
  wf engine -> run_engine engine m = Ok (r, engine') -> wf engine' /\ extends engine engine'.
Proof. intros Hwf Hrun. by eapply step_wf, run_engine_step. Qed.

(** One call. *)
Lemma mutate_kept w m env :
  kept w -> small m -> (good w -> polite final m) ->
  let w' := {| store := (mutate (store w) m env).1; turns := turns w |} in kept w' /\ (good w' -> good w).
Proof.
  intros Hw Hs Hp. cbv zeta. pose proof Hw as [Ht Hpt Hv]. destruct (view (store w)) as [engine|] eqn:E.
  2: { rewrite mutate_closed by done. by destruct w. }
  destruct (Hv engine eq_refl) as (Hsound & Hx & Hf). pose proof (sound_wf _ _ Hsound E) as Hwf.
  pose proof (mutate_open (store w) m env engine Hsound E Hs) as Hm. unfold good in *. cbn [store].
  destruct (mutate (store w) m env) as [s' [r|e]]; cbn [fst] in *.
  - destruct Hm as (next & Hrun & Hv' & Hs'). destruct (run_engine_extends _ _ _ _ Hwf Hrun) as [_ Hx'].
    pose proof (x_entries _ _ Hx') as Hpre. split.
    + split; [done|done|]. intros engine' Heq. cbn [store] in Heq. rewrite Hv' in Heq. injection Heq as <-.
      split_and!; [done|by etransitivity|]. intros Htr Hfin. assert (_entries engine `prefix_of` final) by by etransitivity.
      eapply (run_engine_faithful final engine); [done| |done|by apply Hf]. apply Hp. split; [done|by exists engine].
    + intros (Htr & engine' & Heq & Hfin). rewrite Hv' in Heq. injection Heq as <-. split; [done|].
      exists engine. split; [done|by etransitivity].
  - destruct Hm as [[Hv' Hs']|Hv']; split; try (split; [done|done|cbn [store]; rewrite Hv']); [|by rewrite Hv', E|done|].
    + intros ? [= <-]. by split_and!.
    + intros (_ & ? & Heq & _). congruence.
Qed.

Lemma calls_kept s ts ms :
  kept {| store := s; turns := ts |} -> small_calls ms -> (trust -> Forall (fun call => polite final call.1) ms) ->
  let w' := {| store := (calls s ms).1; turns := ts |} in kept w' /\ (good w' -> good {| store := s; turns := ts |}).
Proof.
  intros Hw Hs Hp. revert s Hw. induction ms as [|[m env] ms IH]; intros s Hw; [done|].
  apply Forall_cons in Hs as [Hs1 Hs]. cbn [calls fst] in *.
  destruct (mutate_kept {| store := s; turns := ts |} m env Hw Hs1) as [Hm Hback].
  { intros [Htr _]. by destruct (proj1 (Forall_cons _ _ _) (Hp Htr)). }
  cbn [store turns] in Hm, Hback. destruct (mutate s m env) as [s' r]. cbn [fst] in Hm, Hback.
  destruct (IH Hs) with (s := s') as [IHk IHb]; [intros Htr; by destruct (proj1 (Forall_cons _ _ _) (Hp Htr))|done|].
  destruct (calls s' ms) as [s'' rs]. cbn [fst] in *. split; [done|by intros ?%IHb%Hback].
Qed.

Lemma next_turn_kept w : kept w -> kept (next_turn idle w).1 /\ (good (next_turn idle w).1 -> good w).
Proof.
  intros Hw. unfold next_turn. destruct w as [s [|t ts]]; [done|]. cbn [turns store fst]. pose proof Hw as [Hs Hp Hv].
  cbn [turns store] in Hs, Hp, Hv. apply Forall_cons in Hs as [Hs1 Hs].
  apply (calls_kept s ts (others t)); [|done|intros Htr; by destruct (proj1 (Forall_cons _ _ _) (Hp Htr))].
  split; [done|intros Htr; by destruct (proj1 (Forall_cons _ _ _) (Hp Htr))|done].
Qed.

(** A read answers what it read of the engine. *)
Lemma keeps_read {A} P (f : Engine -> result A) (U G : A -> Prop) :
  (forall engine a, wf engine -> f engine = Ok a -> U a /\
     (trust -> P -> _entries engine `prefix_of` final -> faithful final (_state engine) -> G a)) ->
  keeps P (read idle f) U G.
Proof.
  intros Hf w Hw HP. destruct (next_turn_kept w Hw) as [Hw' Hback]. unfold read. destruct (next_turn idle w) as [w' env].
  cbn [fst snd] in *. split_and!; [done|done|]. rewrite query_eq. destruct (view (store w')) as [engine|] eqn:E; [|done].
  destruct (k_view _ Hw' engine E) as (Hs & _ & Hfa). destruct (f engine) as [a|] eqn:Ef; [|done].
  destruct (Hf engine a) as [HU HG]; [by eapply sound_wf|done|]. split; [done|]. intros Hgood.
  pose proof (HP (Hback Hgood)). destruct Hgood as (Htr & engine' & Heq & Hfin). rewrite E in Heq. injection Heq as <-. auto.
Qed.

Lemma keeps_write P m (U G : () -> Prop) :
  small m -> (trust -> P -> polite final m) -> U () -> (P -> G ()) -> keeps P (write idle m) U G.
Proof.
  intros Hs Hp HU HG w Hw HP. destruct (next_turn_kept w Hw) as [Hw' Hback]. unfold write.
  destruct (next_turn idle w) as [w' env]. cbn [fst snd] in *.
  destruct (mutate_kept w' m env Hw' Hs) as [Hm Hback'].
  { intros Hgood. apply Hp; [apply Hgood|by apply HP, Hback]. }
  destruct (mutate (store w') m env) as [s r]. cbn [fst snd] in *. split_and!; [done|by intros ?%Hback'%Hback|].
  destruct r as [a|]; [|done]. cbn. split; [exact HU|]. intros Hgood. by apply HG, HP, Hback, Hback'.
Qed.

Lemma scan_subset engine a l scanned :
  Engine.scan_entries engine (PInt a) (PInt l) = Ok scanned -> scanned ⊆ _entries engine.
Proof.
  unfold Engine.scan_entries. destruct (check_scan _ _) as [[a' l']|]; [|done]. intros [= <-] e He.
  unfold py_slice in He. apply list_elem_of_lookup in He as [i Hi].
  apply lookup_take_Some in Hi as [Hi _]. rewrite lookup_drop in Hi. by eapply list_elem_of_lookup_2.
Qed.

Lemma prefix_subset (l l' : list Entry) : l `prefix_of` l' -> l ⊆ l'.
Proof. intros [k ->]. set_solver. Qed.

Lemma keeps_load P : keeps P (_load room idle self) sized (loaded_ok final).
Proof.
  unfold _load. eapply (keeps_bind _ _ _ (fun _ => True) (faithful final)).
  - apply keeps_read. intros engine a _ [= <-]. by split.
  - intros state _. apply keeps_lift. destruct (load_state _ _ _) eqn:E; [|done].
    split; [by eapply load_state_sized|]. intros _ Hf. by eapply load_state_ok.
Qed.

Lemma keeps_advance now loaded :
  sized loaded ->
  keeps (loaded_ok final loaded) (_advance idle self now loaded) (fun r => sized r.2) (fun r => loaded_ok final r.2).
Proof.
  intros Hz. unfold _advance.
  eapply (keeps_bind _ _ _ (fun _ => True) (fun scanned => loaded_ok final loaded /\ scanned ⊆ final)).
  { apply keeps_read. intros engine scanned _ Hs. split; [done|]. intros _ Hok Hfin _. split; [done|].
    apply scan_subset in Hs. apply prefix_subset in Hfin. set_solver. }
  intros scanned _. eapply (keeps_bind _ _ _
    (fun o => match o with None => True | Some next => sized next end)
    (fun o => match o with None => loaded_ok final loaded | Some next => loaded_ok final next end)).
  { apply keeps_lift. pose proof (plan_sized self now loaded scanned) as Hps.
    pose proof (fun Hd Hok => plan_spec self now final loaded scanned Hd Hok) as Hplan.
    destruct (plan _ _ _ _) as [[next|]|]; [|by split; [|intros _ []]|done].
    split; [by eapply Hps|]. intros Htr [Hok Hin]. by apply Hplan; auto. }
  intros [next|] Hnext; [|by apply keeps_lift]. eapply (keeps_bind _ _ _ (fun _ => True) (fun _ => loaded_ok final next)).
  { apply keeps_write; [|intros _ Hok|done|done].
    - cbn. destruct Hnext as [Hn Hs]. rewrite <- Hn, zlen_map. exact Hs.
    - cbn [polite]. intros s' Hs'. apply state_arg_inv in Hs' as ->. apply Hok. }
  intros [] _. by apply keeps_lift.
Qed.

Lemma keeps_loop now stop fuel n loaded reloaded w :
  kept w -> sized loaded -> (good w -> loaded_ok final loaded) ->
  let w' := (catch_up_loop room idle self now stop fuel n loaded reloaded w).1 in kept w' /\ (good w' -> good w).
Proof.
  cbv zeta. revert n loaded reloaded w. induction fuel as [|fuel IH]; intros n loaded reloaded w Hw Hz Hok;
    cbn [catch_up_loop]; [done|].
  destruct (keeps_advance now loaded Hz w Hw Hok) as (Hw1 & Hb1 & Hr).
  destruct (_advance idle self now loaded w) as [w1 [[changed next]|e]]; cbn [fst snd] in *.
  - destruct (negb changed || stop n); [done|]. destruct Hr as [Hz' Hok'].
    destruct (IH (Datatypes.S n) next false w1 Hw1 Hz' Hok') as [? Hb2]. split; [done|by intros ?%Hb2%Hb1].
  - destruct e; try done. destruct reloaded; [done|].
    destruct (keeps_load True w1 Hw1) as (Hw2 & Hb2 & Hr2); [done|].
    destruct (_load room idle self w1) as [w2 [loaded2|e2]]; cbn [fst snd] in *; [|split; [done|by intros ?%Hb2%Hb1]].
    destruct Hr2 as [Hz' Hok']. destruct (IH n loaded2 true w2 Hw2 Hz' Hok') as [? Hb3].
    split; [done|by intros ?%Hb3%Hb2%Hb1].
Qed.

Lemma keeps_run_once now : keeps True (run_once room idle self now) (fun _ => True) (fun _ => True).
Proof.
  unfold run_once. eapply (keeps_bind _ _ _ (fun _ => True) (fun _ => True)).
  { apply keeps_lift. by destruct (normalize_time _ _). }
  intros t _. eapply keeps_bind; [apply keeps_load|]. intros loaded Hz. eapply keeps_bind; [by apply keeps_advance|].
  intros r _. by apply keeps_lift.
Qed.

Lemma keeps_catch_up now stop fuel w : kept w -> kept (_catch_up room idle self now stop fuel w).1.
Proof.
  intros Hw. unfold _catch_up. destruct (normalize_time _ _) as [t|]; [|done].
  destruct (keeps_load True w Hw) as (Hw1 & _ & Hr); [done|].
  destruct (_load room idle self w) as [w1 [loaded|e]]; cbn [fst snd] in *; [|done].
  destruct Hr as [Hz Hok]. by apply (keeps_loop t stop fuel 0 loaded false w1 Hw1 Hz Hok).
Qed.
End world.

(** ** Passes when nobody else calls *)
Section alone.
Context {PI : Interp} {HL : Hashlib} {CB : Cbor2} {CR : Crypto} {SC : ScittCose} (room : nat).
Context {S Env : Type} {BE : Backend S Env} (idle : Env).
Context (self : CheckpointRunner) (Hlimit : 1 <= _scan_limit self).
Implicit Types w : world (S := S) (Env := Env).

(** The store is closed or shows [engine]. *)
Definition shows (engine : Engine) w : Prop :=
  turns w = [] /\ (view (store w) = Some engine /\ sound (store w) \/ view (store w) = None).

(** The last entry a batch from [indexed] reaches. *)
Definition batch_end (entries : list Entry) (indexed : Z) : Z := Z.min (zlen entries) (indexed + _scan_limit self).

Lemma read_alone {A} (f : Engine -> result A) w engine :
  turns w = [] -> view (store w) = Some engine -> read idle f w = (w, f engine).
Proof. intros Ht Hv. unfold read, next_turn. rewrite Ht. cbn. by rewrite query_eq, Hv. Qed.

Lemma scan_batch engine indexed scanned :
  0 <= indexed <= zlen (_entries engine) ->
  Engine.scan_entries engine (PInt indexed) (PInt (_scan_limit self)) = Ok scanned ->
  indexed + zlen scanned = batch_end (_entries engine) indexed.
Proof.
  intros Hi. unfold Engine.scan_entries. destruct (check_scan _ _) as [[a l]|] eqn:Ec; [|done].
  unfold check_scan in Ec. destruct (or_raise (int_within (PInt indexed) _ _) _) eqn:E1; [|done].
  destruct (or_raise (int_within (PInt (_scan_limit self)) _ _) _) eqn:E2; [|done]. injection Ec as -> ->.
  apply or_raise_Ok, int_within_Some in E1 as [[= <-] _], E2 as [[= <-] _]. intros [= <-].
  unfold batch_end, py_slice, zlen in *. rewrite length_take, length_drop. lia.
Qed.

Lemma scan_reach engine indexed scanned :
  Engine.scan_entries engine (PInt indexed) (PInt (_scan_limit self)) = Ok scanned ->
  0 < zlen scanned -> indexed + zlen scanned <= zlen (_entries engine).
Proof.
  unfold Engine.scan_entries. destruct (check_scan _ _) as [[a l]|] eqn:Ec; [|done].
  unfold check_scan in Ec. destruct (or_raise (int_within (PInt indexed) _ _) _) eqn:E1; [|done].
  destruct (or_raise (int_within (PInt (_scan_limit self)) _ _) _) eqn:E2; [|done]. injection Ec as -> ->.
  apply or_raise_Ok, int_within_Some in E1 as [[= <-] [Hlo _]]. intros [= <-].
  unfold py_slice, zlen in *. rewrite length_take, length_drop. lia.
Qed.

(** A commit by a runner that is alone. *)
Record committed (engine : Engine) (next : CllState) (engine' : Engine) : Prop := {
  cm_entries : _entries engine' = _entries engine;
  cm_state : _state engine' = merged (_state engine) next
}.

Lemma write_alone w engine next es ec :
  turns w = [] -> sound (store w) -> view (store w) = Some engine -> zlen (cs_nodes next) < 2 ^ 64 ->
  match write idle (MCommit es ec (Inst (state_arg next))) w with
  | (w', Ok _) => turns w' = [] /\
      exists engine', view (store w') = Some engine' /\ sound (store w') /\ committed engine next engine'
  | (w', Raise _) => shows engine w'
  end.
Proof.
  intros Ht Hs Hv Hsm. unfold write, next_turn. rewrite Ht. cbn [turns].
  pose proof (mutate_open (store w) (MCommit es ec (Inst (state_arg next))) idle engine Hs Hv) as Hm.
  destruct (mutate _ _ _) as [s [r|e]].
  - destruct Hm as (engine' & Hrun & Hv' & Hs'); [by cbn; rewrite zlen_map|]. split; [done|].
    exists engine'. split_and!; [done|done|]. cbn [run_engine] in Hrun.
    unfold Engine.commit_cll in Hrun. destruct (apply_cll _ _ _ _) as [u|] eqn:E; [|done]. injection Hrun as _ <-.
    apply apply_cll_inv in E as (_ & st & Hst & _ & _ & -> & _); [|by apply wf_state, (sound_wf _ _ Hs Hv)].
    by apply state_arg_inv in Hst as ->.
  - split; [done|]. cbn [store]. destruct Hm as [Hm|Hm]; [by cbn; rewrite zlen_map|by left|by right].
Qed.

Lemma load_alone w engine :
  shows engine w -> faithful (_entries engine) (_state engine) ->
  match _load room idle self w with
  | (w', Ok loaded) => w' = w /\ view (store w) = Some engine /\ sound (store w) /\
      l_state loaded = _state engine /\ loaded_ok (_entries engine) loaded
  | (w', Raise _) => w' = w
  end.
Proof.
  intros [Ht [[Hv Hs]|Hv]] Hf; unfold _load, store_load_cll, bind.
  - rewrite (read_alone _ _ engine) by done. unfold lift. destruct (load_state _ _ _) as [loaded|] eqn:E; [|done].
    by apply (load_state_ok _ _ (_entries engine)) in E as [-> ?].
  - unfold read, next_turn. rewrite Ht. cbn. by rewrite query_eq, Hv.
Qed.

(** A round of a runner that is alone, from what the store holds. *)
Lemma advance_alone now w engine loaded :
  turns w = [] -> sound (store w) -> view (store w) = Some engine -> loaded_ok (_entries engine) loaded ->
  let last := last_checkpointed (l_state loaded) in
  let indexed := cs_indexed_seq (l_state loaded) in
  let reached := batch_end (_entries engine) indexed in
  match _advance idle self now loaded w with
  | (w', Ok (true, next)) => turns w' = [] /\ loaded_ok (_entries engine) next /\
      planned self now (_entries engine) loaded reached (l_state next) /\
      (indexed < reached \/ checkpoint_due self now (_entries engine) last reached) /\
      exists engine', view (store w') = Some engine' /\ sound (store w') /\ committed engine (l_state next) engine'
  | (w', Ok (false, next)) => w' = w /\ next = loaded /\ indexed = zlen (_entries engine) /\
      ~ checkpoint_due self now (_entries engine) last indexed
  | (w', Raise _) => shows engine w'
  end.
Proof.
  intros Ht Hs Hv Hok last indexed reached. unfold _advance, bind at 1.
  unfold store_scan_entries. rewrite (read_alone _ _ engine) by done.
  assert (shows engine w) as Hw by (split; [done|by left]).
  pose proof (f_bound _ _ (lo_faithful _ _ Hok)) as Hb.
  destruct (Engine.scan_entries _ _ _) as [scanned|] eqn:Es; [|done].
  apply scan_subset in Es as Hin. apply scan_batch in Es as Hn; [|done]. fold indexed reached in Hn, Hb.
  pose proof (plan_spec self now (_entries engine) loaded scanned
    (wf_entries _ (sound_wf _ _ Hs Hv)) Hok Hin) as Hplan. cbv zeta in Hplan. fold indexed last in Hplan.
  rewrite Hn in Hplan. unfold bind at 1, lift.
  destruct (plan _ _ _ _) as [[next|]|]; [|destruct Hplan as [-> Hnd]|done].
  - destruct Hplan as (Hnext & Hpl & Hwhy). unfold bind.
    pose proof (write_alone w engine (l_state next) (PInt (cs_size (l_state loaded)))
      (none_or PBytes (option_map ck_bytes (cs_checkpoint (l_state loaded)))) Ht Hs Hv) as Hwr.
    unfold store_commit_cll. destruct (write _ _ _) as [w' [r|e]].
    + destruct Hwr as (Ht' & He'); [rewrite <- (lo_nodes _ _ Hnext); apply Hnext|].
      split_and!; [done|done|done| |done]. destruct Hwhy as [Hne|?]; [left|by right].
      destruct scanned; [done|]. rewrite zlen_cons in Hn. pose proof (zlen_nonneg scanned). lia.
    + apply Hwr. rewrite <- (lo_nodes _ _ Hnext). apply Hnext.
  - rewrite zlen_nil in Hn. split_and!; [done|done| |done]. unfold reached, batch_end in Hn. lia.
Qed.
(** What is left to do: entries to index, and perhaps a checkpoint to sign. *)
Definition work (entries : list Entry) (state : CllState) : nat :=
  (2 * Z.to_nat (zlen entries - cs_indexed_seq state)
   + (if (last_checkpointed state <? cs_indexed_seq state)%Z then 1 else 0))%nat.

Lemma work_same entries s s' : same_index s s' -> work entries s = work entries s'.
Proof. unfold work, last_checkpointed. by intros (_ & _ & -> & _ & ->). Qed.

Lemma work_bound entries state : faithful entries state -> (work entries state <= 2 * length entries + 1)%nat.
Proof.
  intros Hf. pose proof (f_bound _ _ Hf). unfold work, zlen in *. destruct (_ <? _); lia.
Qed.

(** Entries indexed, or a checkpoint over all indexed ones: less is left. *)
Lemma work_less entries s s' (d : Z) :
  cs_indexed_seq s' = cs_indexed_seq s + d -> 0 <= d -> (0 < d -> cs_indexed_seq s' <= zlen entries) ->
  (last_checkpointed s < cs_indexed_seq s' /\ last_checkpointed s' = cs_indexed_seq s' \/
   0 < d /\ last_checkpointed s' = last_checkpointed s) ->
  (work entries s' < work entries s)%nat.
Proof.
  intros Hi Hd Hle Hwhy. unfold work. destruct (decide (d = 0)) as [->|Hne].
  - rewrite Z.add_0_r in Hi. destruct Hwhy as [[Hlt ->]|[? _]]; [|lia].
    rewrite Z.ltb_irrefl. rewrite Hi in *. rw_bool (last_checkpointed s <? cs_indexed_seq s) true. lia.
  - specialize (Hle ltac:(lia)). do 2 destruct (_ <? _); lia.
Qed.

(** A round of a runner that is alone, whatever the states are: a commit
    leaves less to do. *)
Lemma advance_progress now w engine loaded :
  turns w = [] -> sound (store w) -> view (store w) = Some engine -> sized loaded ->
  match _advance idle self now loaded w with
  | (w', Ok (true, next)) => turns w' = [] /\ sized next /\
      (work (_entries engine) (l_state next) < work (_entries engine) (l_state loaded))%nat /\
      exists engine', view (store w') = Some engine' /\ sound (store w') /\ committed engine (l_state next) engine'
  | (w', Ok (false, _)) => True
  | (w', Raise _) => shows engine w'
  end.
Proof.
  intros Ht Hs Hv Hz. unfold _advance, bind at 1, store_scan_entries. rewrite (read_alone _ _ engine) by done.
  assert (shows engine w) as Hw by (split; [done|by left]).
  destruct (Engine.scan_entries _ _ _) as [scanned|] eqn:Es; [|done].
  unfold bind at 1, lift. destruct (plan _ _ _ _) as [[next|]|] eqn:Ep; [|done|done].
  destruct (plan_sized _ _ _ _ _ Hz Ep) as (Hz' & Hi & Hwhy). unfold bind.
  pose proof (write_alone w engine (l_state next) (PInt (cs_size (l_state loaded)))
    (none_or PBytes (option_map ck_bytes (cs_checkpoint (l_state loaded)))) Ht Hs Hv) as Hwr.
  unfold store_commit_cll. destruct (write _ _ _) as [w' [r|e]];
    [|apply Hwr; rewrite <- (sz_nodes _ Hz'); apply Hz'].
  destruct Hwr as (Ht' & He'); [rewrite <- (sz_nodes _ Hz'); apply Hz'|]. split_and!; [done|done| |done].
  apply (work_less _ _ _ (zlen scanned)); [done|apply zlen_nonneg| |].
  - rewrite Hi. by apply scan_reach.
  - destruct Hwhy as [?|[Hne Hl]]; [left; by rewrite Hi|right]. split; [|done].
    destruct scanned; [done|]. rewrite zlen_cons. pose proof (zlen_nonneg scanned). lia.
Qed.

(** What a loop that is not stopped leaves: nothing to index or sign. *)
Definition caught_up (now : instant) (engine : Engine) : Prop :=
  cs_indexed_seq (_state engine) = zlen (_entries engine) /\
  ~ checkpoint_due self now (_entries engine) (last_checkpointed (_state engine)) (cs_indexed_seq (_state engine)).

Definition finished (now : instant) (stop : nat -> bool) (entries : list Entry) (out : world (S := S) (Env := Env) * option (result ())) : Prop :=
  match out with
  | (w, Some (Ok _)) => exists engine, view (store w) = Some engine /\ _entries engine = entries /\
      faithful entries (_state engine) /\ ((forall i, stop i = false) -> caught_up now engine)
  | (w, Some (Raise _)) => True
  | (w, None) => False
  end.

Lemma loop_alone now stop entries fuel n loaded (reloaded : bool) w engine :
  turns w = [] -> sound (store w) -> view (store w) = Some engine -> _entries engine = entries ->
  loaded_ok entries loaded -> same_index (l_state loaded) (_state engine) ->
  (2 * work entries (l_state loaded) + (if reloaded then 0 else 1) < fuel)%nat ->
  finished now stop entries (catch_up_loop room idle self now stop fuel n loaded reloaded w).
Proof.
  revert n loaded reloaded w engine. induction fuel as [|fuel IH]; intros n loaded reloaded w engine Ht Hs Hv He Hok Hsame Hfuel; [lia|].
  cbn [catch_up_loop]. pose proof (advance_alone now w engine loaded Ht Hs Hv) as Ha. cbv zeta in Ha. rewrite He in Ha.
  pose proof (advance_progress now w engine loaded Ht Hs Hv (proj2 (proj1 (loaded_sized _ _) Hok))) as Hless. rewrite He in Hless.
  specialize (Ha Hok). pose proof (faithful_same _ _ _ Hsame (lo_faithful _ _ Hok)) as Hf.
  destruct (_advance idle self now loaded w) as [w1 [[[] next]|e]]; cbn [negb orb].
  - destruct Ha as (Ht1 & Hok1 & _ & _ & engine' & Hv1 & Hs1 & [He1 Hst]). destruct Hless as (_ & _ & Hless & _).
    assert (same_index (l_state next) (_state engine')) as Hsame1 by by rewrite Hst.
    destruct (stop n) eqn:Estop.
    + exists engine'. rewrite He1. split_and!; [done|done| |intros Hn; by rewrite Hn in Estop].
      by eapply faithful_same, lo_faithful.
    + apply (IH _ _ _ _ engine'); try done; [by rewrite He1|lia].
  - destruct Ha as (-> & -> & Hi & Hnd). exists engine. split_and!; [done|done|done|]. intros _.
    destruct Hsame as (_ & _ & E1 & _ & E2). unfold caught_up, last_checkpointed in *. by rewrite <- E1, <- E2, He.
  - destruct e; try done. destruct reloaded; [done|].
    pose proof (load_alone w1 engine Ha) as Hl. rewrite He in Hl. specialize (Hl Hf).
    destruct (_load room idle self w1) as [w2 [loaded2|e2]]; [|done].
    destruct Hl as (-> & Hv2 & Hs2 & Hst & Hok2). apply (IH _ _ _ _ engine); try done.
    + apply Ha.
    + by rewrite Hst.
    + rewrite Hst, <- (work_same _ _ _ Hsame). lia.
Qed.

(** *** Turns are used up *)
Definition turns_left w : nat := length (turns w).
Definition shrinks {A} (m : act A) : Prop := forall w, (turns_left (m w).1 <= turns_left w)%nat.

Lemma next_turn_left w : turns_left (next_turn idle w).1 = Nat.pred (turns_left w).
Proof. unfold next_turn, turns_left. by destruct (turns w) eqn:E; cbn; rewrite ?E. Qed.

Lemma read_left {A} (f : Engine -> result A) w : turns_left (read idle f w).1 = Nat.pred (turns_left w).
Proof. rewrite <- next_turn_left. unfold read. by destruct (next_turn idle w). Qed.

Lemma write_shrinks m : shrinks (write idle m).
Proof.
  intros w. pose proof (next_turn_left w) as Hn. unfold write. destruct (next_turn idle w) as [w1 env].
  destruct (mutate _ _ _). unfold turns_left in *. cbn in *. lia.
Qed.

Lemma advance_left now loaded w : (turns_left (_advance idle self now loaded w).1 <= Nat.pred (turns_left w))%nat.
Proof.
  unfold _advance, bind at 1, store_scan_entries. rewrite <- (read_left
    (fun engine => Engine.scan_entries engine (PInt (cs_indexed_seq (l_state loaded))) (PInt (_scan_limit self))) w).
  destruct (read idle _ w) as [w1 [scanned|e]]; [|done]. unfold bind at 1, lift. cbn [fst].
  destruct (plan _ _ _ _) as [[next|]|]; [|done|done]. unfold bind, store_commit_cll. cbn [fst].
  match goal with |- context [write idle ?m w1] => pose proof (write_shrinks m w1) as Hw end.
  destruct (write idle _ w1) as [w2 [|]]; exact Hw.
Qed.

Lemma load_left w : (turns_left (_load room idle self w).1 <= turns_left w)%nat.
Proof.
  unfold _load, bind, store_load_cll. pose proof (read_left (fun engine => Ok (_state engine)) w) as Hr.
  destruct (read idle _ w) as [w1 [state|e]]; cbn [fst] in *; [|lia]. unfold lift. cbn. lia.
Qed.

(** A loop that is alone ends, whatever the states are: a contention is
    followed by a reload, after which only a commit is followed by a round. *)
Lemma loop_alone_ends now stop fuel n loaded (reloaded : bool) w engine rest :
  turns w = [] -> sound (store w) -> view (store w) = Some engine -> sized loaded ->
  (work (_entries engine) (l_state loaded) <= rest)%nat ->
  (reloaded = false -> same_index (l_state loaded) (_state engine)) ->
  (2 * rest + (if reloaded then 0 else 1) < fuel)%nat ->
  (catch_up_loop room idle self now stop fuel n loaded reloaded w).2 <> None.
Proof.
  revert n loaded reloaded w engine rest. induction fuel as [|fuel IH];
    intros n loaded reloaded w engine rest Ht Hs Hv Hz Hrest Hsame Hfuel; [lia|].
  cbn [catch_up_loop]. pose proof (advance_progress now w engine loaded Ht Hs Hv Hz) as Ha.
  destruct (_advance idle self now loaded w) as [w1 [[[] next]|e]]; cbn [negb orb]; [|done|].
  - destruct (stop n); [done|]. destruct Ha as (Ht1 & Hz1 & Hless & engine' & Hv1 & Hs1 & [He1 Hst]).
    apply (IH _ _ _ _ engine' (Nat.pred rest)); try done; [rewrite He1; lia|by rewrite Hst|lia].
  - destruct e; try done. destruct reloaded; [done|]. destruct Ha as [Ht1 Hview].
    unfold _load, store_load_cll, bind, lift. destruct Hview as [[Hv1 Hs1]|Hv1].
    2: { unfold read, next_turn. rewrite Ht1. cbn. by rewrite query_eq, Hv1. }
    rewrite (read_alone _ _ engine) by done. destruct (load_state _ _ _) as [loaded2|] eqn:El; [|done].
    apply load_state_sized in El as [Hst Hz2]. apply (IH _ _ _ _ engine rest); try done; [|lia].
    rewrite Hst, <- (work_same _ _ _ (Hsame eq_refl)). done.
Qed.

(** From any loaded state: a first contention is followed by a reload. *)
Lemma loop_ends_alone now stop n loaded reloaded w engine :
  turns w = [] -> sound (store w) -> view (store w) = Some engine -> sized loaded ->
  exists enough, forall fuel, (enough <= fuel)%nat ->
    (catch_up_loop room idle self now stop fuel n loaded reloaded w).2 <> None.
Proof.
  intros Ht Hs Hv Hz. set (state_work := work (_entries engine) (_state engine)).
  set (own := work (_entries engine) (l_state loaded)).
  exists (2 * (state_work + own) + 3)%nat. intros [|fuel] Hfuel; [lia|]. cbn [catch_up_loop].
  pose proof (advance_progress now w engine loaded Ht Hs Hv Hz) as Ha.
  destruct (_advance idle self now loaded w) as [w1 [[[] next]|e]]; cbn [negb orb]; [|done|].
  - destruct (stop n); [done|]. destruct Ha as (Ht1 & Hz1 & Hless & engine' & Hv1 & Hs1 & [He1 Hst]).
    apply (loop_alone_ends _ _ _ _ _ _ _ engine' own); try done; [rewrite He1; lia|by rewrite Hst|lia].
  - destruct e; try done. destruct reloaded; [done|]. destruct Ha as [Ht1 Hview].
    unfold _load, store_load_cll, bind, lift. destruct Hview as [[Hv1 Hs1]|Hv1].
    2: { unfold read, next_turn. rewrite Ht1. cbn. by rewrite query_eq, Hv1. }
    rewrite (read_alone _ _ engine) by done. destruct (load_state _ _ _) as [loaded2|] eqn:El; [|done].
    apply load_state_sized in El as [Hst Hz2]. apply (loop_alone_ends _ _ _ _ _ _ _ engine state_work); try done; [by rewrite Hst|lia].
Qed.

Lemma loop_ends origin now stop n loaded reloaded w :
  kept origin False [] w -> sized loaded ->
  exists enough, forall fuel, (enough <= fuel)%nat ->
    (catch_up_loop room idle self now stop fuel n loaded reloaded w).2 <> None.
Proof.
  remember (turns_left w) as k eqn:Ek. revert n loaded reloaded w Ek.
  induction k as [k IH] using lt_wf_ind; intros n loaded reloaded w Ek Hw Hz.
  destruct (decide (k = O)) as [->|Hk].
  { assert (turns w = []) as Ht by (unfold turns_left in Ek; by destruct (turns w)).
    destruct (view (store w)) as [engine|] eqn:Hv.
    - destruct (k_view _ _ _ _ Hw engine Hv) as (Hs & _). by apply (loop_ends_alone _ _ _ _ _ _ engine).
    - exists 1%nat. intros [|fuel] Hfuel; [lia|]. cbn [catch_up_loop]. unfold _advance, bind, store_scan_entries, read,
        next_turn. rewrite Ht. cbn. by rewrite query_eq, Hv. }
  pose proof (advance_left now loaded w) as Hl.
  destruct (keeps_advance idle self origin False [] ltac:(done) now loaded Hz w Hw) as (Hw1 & _ & Hr); [by intros []|].
  assert (forall n loaded reloaded w, (turns_left w <= Nat.pred k)%nat -> kept origin False [] w ->
    sized loaded -> exists enough, forall fuel, (enough <= fuel)%nat ->
      (catch_up_loop room idle self now stop fuel n loaded reloaded w).2 <> None) as IH'
    by (intros; eapply IH; [|done..]; lia).
  destruct (_advance idle self now loaded w) as [w1 [[changed next]|e]] eqn:Ea; cbn [fst snd] in *.
  - destruct (IH' (Datatypes.S n) next false w1) as [enough He]; [lia|done|apply Hr|].
    exists (Datatypes.S enough). intros [|fuel] Hfuel; [lia|]. cbn [catch_up_loop]. rewrite Ea.
    destruct (negb changed || stop n); [done|]. apply He. lia.
  - pose proof (load_left w1) as Hl2.
    destruct (keeps_load room idle self origin False [] True w1 Hw1) as (Hw2 & _ & Hr2); [done|].
    destruct (_load room idle self w1) as [w2 [loaded2|e2]] eqn:El; cbn [fst snd] in *.
    + destruct (IH' n loaded2 true w2) as [enough He]; [lia|done|apply Hr2|].
      exists (Datatypes.S enough). intros [|fuel] Hfuel; [lia|]. cbn [catch_up_loop]. rewrite Ea.
      destruct e; try done. destruct reloaded; [done|]. rewrite El. apply He. lia.
    + exists 1%nat. intros [|fuel] Hfuel; [lia|]. cbn [catch_up_loop]. rewrite Ea.
      destruct e; try done. destruct reloaded; [done|]. by rewrite El.
Qed.
End alone.

Lemma start_kept {HL : Hashlib} {S Env : Type} {BE : Backend S Env} (w : world (S := S) (Env := Env)) engine trust final :
  sound (store w) -> view (store w) = Some engine -> Forall small_turn (turns w) ->
  (trust -> faithful (_entries engine) (_state engine) /\ Forall (polite_turn final) (turns w)) ->
  kept engine trust final w.
Proof.
  intros Hs Hv Ht Hp. split; [done|intros Htr; by apply Hp|]. intros e He. rewrite Hv in He. injection He as <-.
  split_and!; [done|done|]. intros Htr Hfin. eapply faithful_mono; [done|by apply Hp].
Qed.

(** [C25] The runner's invariant, whatever mutations other callers make
    between the runner's calls. After [run_once] or any number of rounds of
    [_catch_up], whether it returns or raises midway, the backend is closed or
    still open on an engine that only extends the first. And if every state
    the others tried to commit is one that indexing the log, as it is in the
    end, gives - so is any state that was, when it was committed, what
    indexing a part of the log at that time gives - then so is the backend's
    state: exactly the MMR of the first indexed entries, with the checkpoint's
    peaks those of a prefix of them and the pending time that of the first
    entry not checkpointed. Others commit fewer than 2^64 nodes. *)
Theorem runner_invariant {PI : Interp} {HL : Hashlib} {CB : Cbor2} {CR : Crypto} {SC : ScittCose} (room : nat)
    {S Env : Type} {BE : Backend S Env} (idle : Env) (self : CheckpointRunner) (now : pyval)
    (stop : nat -> bool) (fuel : nat) (w : world (S := S) (Env := Env)) (engine : Engine) :
  sound (store w) -> view (store w) = Some engine -> faithful (_entries engine) (_state engine) ->
  Forall small_turn (turns w) ->
  forall w', w' = (run_once room idle self now w).1 \/ w' = (_catch_up room idle self now stop fuel w).1 ->
  view (store w') = None \/
  exists engine', view (store w') = Some engine' /\ sound (store w') /\ extends engine engine' /\
    (Forall (polite_turn (_entries engine')) (turns w) -> faithful (_entries engine') (_state engine')).
Proof.
  intros Hs Hv Hf Ht w' Hw'. destruct (view (store w')) as [engine'|] eqn:E; [right|by left].
  assert (forall trust, (trust -> dense (_entries engine')) ->
    (trust -> Forall (polite_turn (_entries engine')) (turns w)) -> kept engine trust (_entries engine') w') as Hk.
  { intros trust Hd Hp. pose proof (start_kept w engine trust (_entries engine') Hs Hv Ht ltac:(by auto)) as Hk.
    destruct Hw' as [->| ->]; [by apply (keeps_run_once room idle self engine trust _ Hd now w Hk)|].
    by apply keeps_catch_up. }
  destruct (k_view _ _ _ _ (Hk False ltac:(done) ltac:(done)) engine' E) as (Hs' & Hx & _).
  exists engine'. split_and!; [done|done|done|]. intros Hp.
  destruct (k_view _ _ _ _ (Hk True ltac:(intros _; exact (wf_entries _ (sound_wf _ _ Hs' E))) ltac:(done)) engine' E)
    as (_ & _ & Hfin). by apply Hfin.
Qed.

Lemma new_rows_app current rows : new_rows current (current ++ rows) = new_rows current rows.
Proof.
  unfold new_rows. rewrite filter_app, (filter_none _ current); [done|].
  intros row Hrow Hn. apply Hn, list_elem_of_fmap. by exists row.
Qed.

Lemma new_rows_same current : new_rows current current = [].
Proof. rewrite <- (app_nil_r current) at 2. by rewrite new_rows_app. Qed.

(** [C26] One pass, when nobody else calls. It returns false exactly when every
    entry is indexed and no checkpoint is due, and then changes nothing. If it
    returns true, the log is as it was, the next batch of at most
    [scan_limit] entries is indexed, the stored state is again what indexing
    the log gives, and exactly when a checkpoint was due (entries wait, and
    enough of them or long enough) there is a new one over all indexed
    entries, with a row queued for every witness that had none of that size;
    stored rows stay first. If it raises, the backend is as it was, or
    closed. *)
Theorem run_once_correct {PI : Interp} {HL : Hashlib} {CB : Cbor2} {CR : Crypto} {SC : ScittCose} (room : nat)
    {S Env : Type} {BE : Backend S Env} (idle : Env) (self : CheckpointRunner) (now : pyval)
    (w : world (S := S) (Env := Env)) (engine : Engine) :
  1 <= _scan_limit self -> turns w = [] ->
  sound (store w) -> view (store w) = Some engine -> faithful (_entries engine) (_state engine) ->
  let state := _state engine in
  let reached := batch_end self (_entries engine) (cs_indexed_seq state) in
  match run_once room idle self now w with
  | (w', Ok false) => w' = w /\ exists t, normalize_time now InvalidError = Ok t /\ caught_up self t engine
  | (w', Ok true) => exists t engine', normalize_time now InvalidError = Ok t /\
      view (store w') = Some engine' /\ _entries engine' = _entries engine /\
      faithful (_entries engine) (_state engine') /\ cs_indexed_seq (_state engine') = reached /\
      (checkpoint_due self t (_entries engine) (last_checkpointed state) reached ->
       exists c, cs_checkpoint (_state engine') = Some c /\ ck_indexed_seq c = reached /\
         cs_witnesses (_state engine') = cs_witnesses state
           ++ new_rows (cs_witnesses state) (map (witness_row (ck_size c) (ck_bytes c) t) (_witness_ids self))) /\
      (~ checkpoint_due self t (_entries engine) (last_checkpointed state) reached ->
       cs_checkpoint (_state engine') = cs_checkpoint state /\ cs_witnesses (_state engine') = cs_witnesses state)
  | (w', Raise _) => shows engine w'
  end.
Proof.
  intros Hlimit Ht Hs Hv Hf state reached. assert (shows engine w) as Hw by (split; [done|by left]).
  unfold run_once, bind, lift. destruct (normalize_time now InvalidError) as [t|]; [|done].
  pose proof (load_alone room idle self w engine Hw Hf) as Hl.
  destruct (_load room idle self w) as [w1 [loaded|e]]; [|by subst]. destruct Hl as (-> & _ & _ & Hst & Hok).
  pose proof (advance_alone idle self Hlimit t w engine loaded Ht Hs Hv Hok) as Ha. cbv zeta in Ha.
  rewrite Hst in Ha. fold state reached in Ha.
  destruct (_advance idle self t loaded w) as [w2 [[[] next]|e]]; cbn [fst].
  - destruct Ha as (_ & Hok2 & [Hi _ Hdue Hnot] & _ & engine' & Hv' & _ & [He Hst']). rewrite Hst in Hdue, Hnot.
    fold state in Hdue, Hnot. exists t, engine'. rewrite Hst'. cbn [merged cs_indexed_seq cs_checkpoint cs_witnesses].
    split_and!; [done|done|done| |done| |].
    + eapply faithful_same, (lo_faithful _ _ Hok2). by split_and!.
    + intros Hd. destruct (Hdue Hd) as (c & Ec & Hc & ->). exists c. by rewrite new_rows_app.
    + intros Hd. destruct (Hnot Hd) as [Ec ->]. by rewrite new_rows_same, app_nil_r.
  - destruct Ha as (-> & _ & Hi & Hnd). split; [done|]. by exists t.
  - done.
Qed.

(** [C27] Catching up ends. Whatever other callers do and commit in a finite
    number of turns between the runner's calls (states of fewer than 2^64
    nodes), [_catch_up] returns or raises. When nobody else calls and the
    stored state is what indexing the log gives, [4 * n + 4] rounds over a log
    of [n] entries are enough, and if it returns without being stopped, the
    backend has indexed every entry and no checkpoint is due. *)
Theorem catch_up_terminates {PI : Interp} {HL : Hashlib} {CB : Cbor2} {CR : Crypto} {SC : ScittCose} (room : nat)
    {S Env : Type} {BE : Backend S Env} (idle : Env) (self : CheckpointRunner) (now : pyval)
    (stop : nat -> bool) (w : world (S := S) (Env := Env)) (engine : Engine) :
  1 <= _scan_limit self ->
  sound (store w) -> view (store w) = Some engine -> Forall small_turn (turns w) ->
  (exists enough, forall fuel, (enough <= fuel)%nat -> (_catch_up room idle self now stop fuel w).2 <> None) /\
  (turns w = [] -> faithful (_entries engine) (_state engine) ->
   forall fuel, (4 * length (_entries engine) + 4 <= fuel)%nat ->
   match _catch_up room idle self now stop fuel w with
   | (w', Some (Ok _)) => exists t engine', normalize_time now InvalidError = Ok t /\
       view (store w') = Some engine' /\ _entries engine' = _entries engine /\
       ((forall i, stop i = false) -> caught_up self t engine')
   | (_, Some (Raise _)) => True
   | (_, None) => False
   end).
Proof.
  intros Hlimit Hs Hv Ht. pose proof (start_kept w engine False [] Hs Hv Ht ltac:(done)) as Hk. unfold _catch_up.
  destruct (normalize_time now InvalidError) as [t|]; [|by split; [exists O|]]. split.
  - destruct (keeps_load room idle self engine False [] True w Hk) as (Hk1 & _ & Hr); [done|].
    destruct (_load room idle self w) as [w1 [loaded|e]]; cbn [fst snd] in *; [|by exists O].
    eapply loop_ends; [done|apply Hr].
  - intros Hnil Hf fuel Hfuel.
    pose proof (load_alone room idle self w engine ltac:(split; [done|by left]) Hf) as Hl.
    destruct (_load room idle self w) as [w1 [loaded|e]]; [|done]. destruct Hl as (-> & _ & _ & Hst & Hok).
    pose proof (loop_alone room idle self Hlimit t stop (_entries engine) fuel 0 loaded false w engine Hnil Hs Hv
      eq_refl Hok ltac:(by rewrite Hst)) as Hfin.
    pose proof (work_bound _ _ (lo_faithful _ _ Hok)). specialize (Hfin ltac:(cbn [Nat.mul]; lia)).
    destruct (catch_up_loop _ _ _ _ _ _ _ _ _ _) as [w2 [[u|e]|]]; [|done|done].
    destruct Hfin as (engine' & ? & ? & _ & ?). by exists t, engine'.
Qed.

(** ** A runner over the memory backend

    One entry is to be indexed and checkpointed. Meanwhile another caller
    appends a second one, and another runner indexes and checkpoints both. *)
Module DemoRunner.
#[export] Existing Instance Sha256.hashlib.
#[export] Existing Instance plain_interp.

Definition signer : StatementSigner := {|
  signer_key_id := str "k1"; sign_cose_statement := Some (fun _ _ _ _ => Ok [Byte.x01])
|}.
Definition runner : CheckpointRunner :=
  match runner_init true (Some signer) (PStr (str "log-a")) [PStr (str "w1")] (PInt 1) (Some 1) (PInt 10) (Some 1) with
  | Ok r => r
  | Raise _ => Build_CheckpointRunner signer [] [] 0 0 0 0
  end.
Definition cbor2 : Cbor2 := {| cbor2_loads := fun _ => Ok PNone; cbor2_dumps := fun _ => Ok [] |}.
Definition crypto : Crypto := {| openssl_verify := fun _ _ _ => true; ed25519_pem := Ok; load_ed25519_pem := fun b => Ok (Some b) |}.
Definition scitt : ScittCose := {|
  strict_decode := fun _ => Raise LibraryError; parse_signed_statement := fun _ _ => Raise LibraryError
|}.

(** A memory backend holding one entry. *)
Definition store1 : MemoryStore := {| _engine := engine1; _closed := false |}.
Definition quiet : world (S := MemoryStore) (Env := ()) := {| store := store1; turns := [] |}.
Definition input1 : arg Arg.AppendInput :=
  Inst {| Arg.value := PBytes (repeat Byte.x01 32); Arg.appended_at := utc_datetime 6 |}.

(** Another caller appends before the runner's scan, and another runner, that
    indexed both entries, commits before this one does. *)
Definition store2 : MemoryStore := (mutate store1 (MAppend input1) ()).1.
Definition passed : world (S := MemoryStore) (Env := ()) :=
  (run_once (CB := cbor2) (CR := crypto) (SC := scitt) 2 () runner (utc_datetime 9) {| store := store2; turns := [] |}).1.
Definition other_state : CllState := match view (store passed) with Some engine => _state engine | None => empty_state end.
Definition busy : world (S := MemoryStore) (Env := ()) :=
  {| store := store1;
     turns := [{| others := []; answer := () |}; {| others := [(MAppend input1, ())]; answer := () |};
               {| others := [(MCommit (PInt 0) PNone (Inst (state_arg other_state)), ())]; answer := () |}] |}.

Definition loop (w : world (S := MemoryStore) (Env := ())) : world * option (result ()) :=
  _catch_up (CB := cbor2) (CR := crypto) (SC := scitt) 2 () runner (utc_datetime 9) (fun _ => false) 8 w.

Lemma store1_faithful : faithful (_entries engine1) (_state engine1).
Proof. exact (empty_faithful (_entries engine1)). Qed.

Lemma small_busy : Forall small_turn (turns busy).
Proof. repeat constructor. Qed.

Lemma store2_open : wf (_engine store2) /\ view store2 = Some (_engine store2).
Proof.
  pose proof (mutate_open store1 (MAppend input1) () engine1 wf1 eq_refl I) as H. unfold store2.
  assert (exists r, (mutate store1 (MAppend input1) ()).2 = Ok r) as [r E] by (eexists; vm_compute; reflexivity).
  destruct (mutate store1 (MAppend input1) ()) as [s x]. cbn [fst snd] in *. subst x. destruct H as (e & _ & Hv & Hs).
  split; [exact Hs|]. revert Hv. cbn. unfold memory_view. by destruct (_closed s).
Qed.

(** The world's backend is open, holds [log] and has indexed [n] entries. *)
Definition ends (log : list Entry) (n : Z) (w : world (S := MemoryStore) (Env := ())) : bool :=
  match view (store w) with
  | Some engine => bool_decide (_entries engine = log) && (cs_indexed_seq (_state engine) =? n)
  | None => false
  end.

Lemma ends_true log n w :
  ends log n w = true ->
  exists engine, view (store w) = Some engine /\ _entries engine = log /\ cs_indexed_seq (_state engine) = n.
Proof.
  unfold ends. destruct (view (store w)) as [engine|]; [|done]. intros [He Hn]%andb_true_iff. zbool. by exists engine.
Qed.

Definition log2 : list Entry := _entries (_engine store2).

(** What the other runner commits is what indexing both entries gives. *)
Lemma other_faithful : faithful log2 other_state.
Proof.
  pose proof (start_kept (BE := memory_backend) {| store := store2; turns := [] |} (_engine store2) True log2
    (proj1 store2_open) (proj2 store2_open) (Forall_nil_2 _)) as Hk.
  specialize (Hk (fun _ => conj (empty_faithful log2) (Forall_nil_2 _))).
  assert (True -> dense log2) as Hd by (intros _; exact (wf_entries _ (proj1 store2_open))).
  destruct (keeps_run_once (CB := cbor2) (CR := crypto) (SC := scitt) 2 () runner _ True log2 Hd (utc_datetime 9) _ Hk (fun _ => I))
    as (Hk' & _).
  assert (ends log2 2 passed = true) as (engine & Hv & He & _)%ends_true by (vm_compute; reflexivity).
  unfold other_state. rewrite Hv. destruct (k_view _ _ _ _ Hk' engine Hv) as (_ & _ & Hf). apply Hf; [exact I|by rewrite He].
Qed.

Lemma polite_busy : Forall (polite_turn log2) (turns busy).
Proof.
  apply Forall_cons; split; [constructor|]. apply Forall_cons; split; [by repeat constructor|]. apply Forall_singleton, Forall_singleton. intros s Hs. apply state_arg_inv in Hs as ->. exact other_faithful.
Qed.
End DemoRunner.

Lemma runner_invariant_witness :
  let HL := Sha256.hashlib in let PI := plain_interp in
  exists engine', view (store (DemoRunner.loop DemoRunner.busy).1) = Some engine' /\ extends engine1 engine' /\
    length (_entries engine') = 2%nat /\ cs_indexed_seq (_state engine') = 2 /\ faithful (_entries engine') (_state engine').
Proof.
  intros HL PI.
  pose proof (runner_invariant (CB := DemoRunner.cbor2) (CR := DemoRunner.crypto) (SC := DemoRunner.scitt) 2 ()
    DemoRunner.runner (utc_datetime 9) (fun _ => false) 8 DemoRunner.busy engine1 wf1 eq_refl
    DemoRunner.store1_faithful DemoRunner.small_busy (DemoRunner.loop DemoRunner.busy).1 (or_intror eq_refl)) as H.
  assert (DemoRunner.ends DemoRunner.log2 2 (DemoRunner.loop DemoRunner.busy).1 = true) as E by (vm_compute; reflexivity).
  apply DemoRunner.ends_true in E as (engine' & Hv & He & Hi). rewrite Hv in H. exists engine'. destruct H as [H|(e & [= <-] & _ & Hx & Hf)]; [discriminate H|].
  split_and!; [exact Hv|exact Hx|rewrite He; vm_compute; reflexivity|exact Hi|].
  apply Hf. rewrite He. exact DemoRunner.polite_busy.
Defined.

Lemma run_once_correct_witness :
  let HL := Sha256.hashlib in let PI := plain_interp in
  exists engine',
    (run_once (CB := DemoRunner.cbor2) (CR := DemoRunner.crypto) (SC := DemoRunner.scitt) 2 () DemoRunner.runner
      (utc_datetime 9) DemoRunner.quiet).2 = Ok true /\
    faithful (_entries engine1) (_state engine') /\ cs_indexed_seq (_state engine') = 1.
Proof.
  intros HL PI.
  pose proof (run_once_correct (CB := DemoRunner.cbor2) (CR := DemoRunner.crypto) (SC := DemoRunner.scitt) 2 ()
    DemoRunner.runner (utc_datetime 9) DemoRunner.quiet engine1 ltac:(vm_compute; discriminate) eq_refl wf1 eq_refl
    DemoRunner.store1_faithful) as H.
  assert ((run_once (CB := DemoRunner.cbor2) (CR := DemoRunner.crypto) (SC := DemoRunner.scitt) 2 () DemoRunner.runner
      (utc_datetime 9) DemoRunner.quiet).2 = Ok true) as E by (vm_compute; reflexivity).
  cbv zeta in H. destruct (run_once _ _ _ _ _) as [w' r]. cbn [snd] in E. subst r.
  destruct H as (t & engine' & _ & _ & _ & Hf & Hi & _). exists engine'. split_and!; [reflexivity|exact Hf|exact Hi].
Defined.

Lemma catch_up_terminates_witness :
  let HL := Sha256.hashlib in let PI := plain_interp in
  let loop := fun fuel w =>
    _catch_up (CB := DemoRunner.cbor2) (CR := DemoRunner.crypto) (SC := DemoRunner.scitt) 2 () DemoRunner.runner
      (utc_datetime 9) (fun _ => false) fuel w in
  (exists enough, forall fuel, (enough <= fuel)%nat -> (loop fuel DemoRunner.busy).2 <> None) /\
  exists w' t engine', loop 8%nat DemoRunner.quiet = (w', Some (Ok ())) /\ view (store w') = Some engine' /\
    caught_up DemoRunner.runner t engine'.
Proof.
  intros HL PI loop.
  pose proof (fun w => catch_up_terminates (CB := DemoRunner.cbor2) (CR := DemoRunner.crypto) (SC := DemoRunner.scitt)
    2 () DemoRunner.runner (utc_datetime 9) (fun _ => false) w engine1 ltac:(vm_compute; discriminate)) as H.
  split; [exact (proj1 (H DemoRunner.busy wf1 eq_refl DemoRunner.small_busy))|].
  assert (exists w', loop 8%nat DemoRunner.quiet = (w', Some (Ok ()))) as [w' E].
  { assert ((loop 8%nat DemoRunner.quiet).2 = Some (Ok ())) as E by (vm_compute; reflexivity).
    destruct (loop 8%nat DemoRunner.quiet) as [w' r]. exists w'. cbn [snd] in E. by rewrite E. }
  pose proof (proj2 (H DemoRunner.quiet wf1 eq_refl (Forall_nil_2 _)) eq_refl DemoRunner.store1_faithful 8%nat (le_n 8)) as Hq.
  unfold loop in E |- *. rewrite E in Hq. destruct Hq as (t & engine' & _ & Hv & _ & Hc).
  exists w', t, engine'. split; [exact E|]. split; [exact Hv|exact (Hc (fun _ => eq_refl))].
Defined.
