(* ===== verification/Delivery.v ===== *)
(** * Witness delivery

    [src/python/checkpoint/witness.py]: the HTTP client's reading of a
    witness's answer, the offline check of a receipt, and the runner that
    delivers due rows. Each witness's rows are delivered by a thread of its
    own; a thread is a program of calls to the store, and a pass interleaves
    the programs in any order. *)
From S2P Require Import Prelude Bytes Text Py Json PyJson Sha256 MmrPos Mmr Cbor Base64 Ed25519 Emit CoseWire.
From S2P Require Import Cll Calendar Engine EngineValid EngineProps EngineCommit EngineSteps Backend.
Open Scope Z_scope.

(** ** Error texts *)

(** [value.encode("utf-8", "replace")]: what has no encoding becomes [?]. *)
Definition replaced (c : Z) : Z := match utf8_char c with Some _ => c | None => 63 end.
Definition encode_replace (s : pystr) : bytes := default [] (utf8_encode (map replaced s)).

(** The character the bytes start with, and the bytes after it. *)
Definition char_of (n : nat) (bs : bytes) : option (Z * bytes) :=
  match utf8_decode (take n bs) with Some [c] => Some (c, drop n bs) | _ => None end.
Definition first_char (bs : bytes) : option (Z * bytes) :=
  match char_of 1 bs with
  | Some r => Some r
  | None =>
      match char_of 2 bs with
      | Some r => Some r
      | None => match char_of 3 bs with Some r => Some r | None => char_of 4 bs end
      end
  end.

(** [bs.decode("utf-8", "ignore")]: bytes that start no character are passed
    over. *)
Fixpoint decode_ignore (fuel : nat) (bs : bytes) : pystr :=
  match fuel, bs with
  | S fuel, _ :: rest =>
      match first_char bs with
      | Some (c, rest) => c :: decode_ignore fuel rest
      | None => decode_ignore fuel rest
      end
  | _, _ => []
  end.

Definition _bounded_text (value : pystr) : pystr :=
  let encoded := take (Z.to_nat MAX_REASON_BYTES) (encode_replace value) in
  decode_ignore (length encoded) encoded.

(** ** Submitting *)
Definition ENTRY_HASH_SCHEME_CHECKPOINT_DIGEST : pystr := str "legacy".

(** What an exchange with the witness gives: a failed transport, or a status
    with the bytes read, cut off or not. *)
Inductive exchange :=
| Unreachable
| Answered (status : Z) (raw : bytes) (cut_off : bool).

(** [wire.get(key)] *)
Definition wire_get (d : list (pystr * json)) (key : string) : json :=
  default JNull (find_key d (str key)).

Definition json_int (v : json) : option Z := match v with JInt n => Some n | _ => None end.

(** A text that is not ASCII raises a plain [ValueError], which is no
    [binascii.Error]. *)
Definition receipt_bytes_of (encoded : json) : result bytes :=
  match encoded with
  | JStr s =>
      if negb (forallb (fun c => c <? 128) s) then Raise ValueError
      else match b64decode s with Ok bs => Ok bs | Raise _ => Ok [] end
  | _ => Ok []
  end.

Definition receipt_position (leaf_index tree_size : json) : option (Z * Z) :=
  match json_int leaf_index, json_int tree_size with
  | Some i, Some n => if (0 <=? i) && (i <? n) && (n <=? MAX_PORTABLE_INTEGER) then Some (i, n) else None
  | _, _ => None
  end.

(** [json.loads] of an answer. Whether a text nests deeper than the
    interpreter's recursion limit allows is an argument, [too_deep]; the
    [RecursionError] it then raises is no [ValueError]. *)
Definition answer_json (too_deep : pystr -> bool) (raw : bytes) : result json :=
  match utf8_decode raw with
  | Some text => if too_deep text then Raise RecursionError else loads text
  | None => Raise UnicodeError
  end.

Definition _parse_receipt (too_deep : pystr -> bool) (raw : bytes) : result WitnessReceipt :=
  match answer_json too_deep raw with
  | Raise RecursionError => Raise RecursionError
  | Ok (JDict wire) =>
      match wire_get wire "entry_hash_scheme" with
      | JStr scheme =>
          if negb (bool_decide (scheme = ENTRY_HASH_SCHEME_CHECKPOINT_DIGEST)) then Raise RejectedError
          else
            match wire_get wire "entry_hash" with
            | JStr entry_hash =>
                if negb (is_entry_hash entry_hash) then Raise RejectedError
                else
                  match receipt_position (wire_get wire "leaf_index") (wire_get wire "tree_size") with
                  | None => Raise RejectedError
                  | Some (leaf_index, tree_size) =>
                      let! receipt := receipt_bytes_of (wire_get wire "receipt_b64") in
                      if bool_decide (receipt = []) then Raise RejectedError
                      else Ok {| wr_bytes := receipt; wr_entry_hash := Some entry_hash;
                                 wr_entry_hash_scheme := Some scheme; wr_leaf_index := Some leaf_index;
                                 wr_tree_size := Some tree_size |}
                  end
            | _ => Raise RejectedError
            end
      | _ => Raise RejectedError
      end
  | _ => Raise RejectedError
  end.

(** The answer read, at most one byte past the limit. *)
Definition _read (max_bytes : Z) (raw : bytes) (cut_off : bool) : result bytes :=
  let raw := take (Z.to_nat (max_bytes + 1)) raw in
  if (zlen raw <=? max_bytes) && cut_off then Raise OSError else Ok raw.

Section receipts.
Context {PI : Interp} {HL : Hashlib} {CB : Cbor2} {CR : Crypto} {SC : ScittCose} {SR : ScittReceipts} (room : nat).

Definition _verified_checkpoint (checkpoint : bytes) : result DecodedCheckpointCose :=
  or_raise (verify_checkpoint_cose_offline room checkpoint) RejectedError.

Definition _checkpoint_entry_hash (checkpoint : bytes) : result pystr :=
  let! decoded := _verified_checkpoint checkpoint in
  let! digest := CheckpointRecord.digest (to_checkpoint_record decoded) in
  let! bs := fromhex digest in
  Ok (hex (sha256 bs)).

(** [HttpWitnessClient.submit], for what the exchange with the witness is. *)
Definition submit (too_deep : pystr -> bool) (max_bytes : Z) (exchange_of : bytes -> exchange) (checkpoint : bytes) : result WitnessReceipt :=
  let! _ := _checkpoint_entry_hash checkpoint in
  match exchange_of checkpoint with
  | Unreachable => Raise ContentionError
  | Answered status raw cut_off =>
      match _read max_bytes raw cut_off with
      | Raise _ => Raise ContentionError
      | Ok raw =>
          if max_bytes <? zlen raw then Raise RejectedError
          else if negb ((200 <=? status) && (status <? 300)) then
            if bool_decide (status ∈ [408; 429]) || (500 <=? status) then Raise ContentionError
            else Raise RejectedError
          else _parse_receipt too_deep raw
      end
  end.

(** ** The receipt check *)
Definition _UNDERSTOOD_LABELS : list Z := [1; 2; 15; 395].

(** [type(v) is int], [type(v) is str] *)
Definition is_int (v : pyval) : bool := match v with PInt _ => true | _ => false end.
Definition is_str (v : pyval) : bool := match v with PStr _ => true | _ => false end.

Fixpoint check_crit_labels (headers : list (pyval * pyval)) (labels : list pyval) : result () :=
  match labels with
  | [] => Ok ()
  | label :: labels =>
      if negb (is_int label || is_str label) then Raise RejectedError
      else
        match dict_find headers label with
        | None => Raise RejectedError
        | Some _ =>
            match label with
            | PInt n =>
                if bool_decide (n ∈ _UNDERSTOOD_LABELS) then check_crit_labels headers labels else Raise RejectedError
            | _ => Raise RejectedError
            end
        end
  end.

Definition _check_crit (headers : pyval) : result () :=
  match headers with
  | PDict headers =>
      match dict_find headers (PInt 2) with
      | None => Ok ()
      | Some labels =>
          match as_sequence labels with
          | Some ((_ :: _) as labels) => check_crit_labels headers labels
          | _ => Raise RejectedError
          end
      end
  | _ => Ok ()
  end.

(** [v.get(key)] when [v] is a mapping, else [None]. *)
Definition map_get (v : pyval) (key : Z) : pyval :=
  match v with PDict d => default PNone (dict_find d (PInt key)) | _ => PNone end.

Definition _receipt_item (data : bytes) (top_tag : bool) : result pyval := receipt_item cbor2_loads data top_tag.

Definition check_headers (protected : pyval) : result () :=
  match protected with
  | PBytes ((_ :: _) as data) =>
      let! headers := _receipt_item data false in
      let vds_typed :=
        match headers with
        | PDict d => match dict_find d (PInt 395) with Some v => is_int v | None => true end
        | _ => true
        end in
      if negb vds_typed then Raise RejectedError else _check_crit headers
  | _ => Ok ()
  end.

Definition check_proofs (unprotected : pyval) : result () :=
  match as_sequence (map_get (map_get unprotected 396) (-1)) with
  | Some proofs =>
      let! _ := map_result (fun blob =>
        match blob with PBytes data => let! _ := _receipt_item data false in Ok () | _ => Ok () end) proofs in
      Ok ()
  | None => Ok ()
  end.

(** [except ReceiptEncodingError: raise RejectedError] *)
Definition as_rejected {A} (r : result A) : result A :=
  match r with Raise ReceiptEncodingError => Raise RejectedError | r => r end.

Definition _check_receipt_rules (receipt : bytes) : result () :=
  as_rejected
    (let! outer := _receipt_item receipt true in
     match outer with
     | PTag _ parts =>
         match as_sequence parts with
         | Some [protected; unprotected; _; _] =>
             let! _ := check_headers protected in check_proofs unprotected
         | _ => Ok ()
         end
     | _ => Ok ()
     end).

Definition same_position (a b : option Z) : bool := bool_decide (a = b).

(** [ReceiptVerifier.verify] under the pinned key. *)
Definition verify_delivery (pem : bytes) (checkpoint : bytes) (receipt : WitnessReceipt) : result () :=
  if negb ((1 <=? zlen (wr_bytes receipt)) && (zlen (wr_bytes receipt) <=? MAX_WITNESS_RESPONSE_BYTES))
  then Raise RejectedError
  else
    let! _ := _check_receipt_rules (wr_bytes receipt) in
    if negb (bool_decide (wr_entry_hash_scheme receipt = Some ENTRY_HASH_SCHEME_CHECKPOINT_DIGEST))
    then Raise RejectedError
    else
      let! entry_hash := _checkpoint_entry_hash checkpoint in
      if negb (bool_decide (wr_entry_hash receipt = Some entry_hash)) then Raise RejectedError
      else
        let! result := verify_receipt room (wr_bytes receipt) entry_hash pem in
        if negb (rr_ok result) then Raise RejectedError
        else if negb (same_position (rr_tree_size result) (wr_tree_size receipt))
                || negb (same_position (rr_leaf_index result) (wr_leaf_index receipt))
        then Raise RejectedError
        else Ok ().
End receipts.

(** ** The runner *)

(** A call to a client or a verifier returns or raises an exception with a
    text; a subclass of [OSError] counts as [OSError]. *)
Inductive attempt (A : Type) : Type :=
| Returned (a : A)
| Failed (e : exn) (text : pystr).
Arguments Returned {A} a.
Arguments Failed {A} e text.

Definition retryable (e : exn) : bool := bool_decide (e ∈ [ContentionError; OSError]).

(** Durations in microseconds, up to [timedelta.max]. *)
Definition MAX_TIMEDELTA : Z := 86400000000000000000 - 1.

(** The configured witnesses, in order, and the surroundings of one pass: what
    each row's submission and each receipt's verification give, and the random
    numbers drawn, as multiples of 2^-53. *)
Record WitnessDeliveryRunner := {
  _clients : list pystr; _base_backoff : Z; _max_backoff : Z; _jitter : bool
}.
Record surroundings := {
  client_submit : WitnessState -> attempt WitnessReceipt;
  verifier_verify : WitnessState -> WitnessReceipt -> attempt ();
  random_draw : WitnessState -> Z
}.

(** [WitnessDeliveryRunner.__init__]; a duration is [None] when the argument
    is no [timedelta], a client or verifier is [false] when it is [None]. *)
Definition delivery_init (store_given : bool) (clients verifiers : list (pyval * bool)) (poll_interval : option Z)
    (base_backoff max_backoff : option Z) (jitter : bool) : result WitnessDeliveryRunner :=
  match poll_interval, base_backoff, max_backoff with
  | Some poll_interval, Some base_backoff, Some max_backoff =>
      if negb store_given || (poll_interval <=? 0) || (base_backoff <=? 0) || (max_backoff <? base_backoff)
         || negb ((1 <=? zlen clients) && (zlen clients <=? MAX_WITNESSES))
         || negb (forallb (fun c => existsb (fun v => py_eq c.1 v.1) verifiers) clients
                  && forallb (fun v => existsb (fun c => py_eq v.1 c.1) clients) verifiers)
      then Raise InvalidError
      else if negb (forallb (fun c => validate_identifier c.1 && c.2
                && forallb (fun v => negb (py_eq c.1 v.1) || v.2) verifiers) clients)
      then Raise InvalidError
      else Ok {| _clients := omap (fun c => as_str c.1) clients; _base_backoff := base_backoff;
                 _max_backoff := max_backoff; _jitter := jitter |}
  | _, _, _ => Raise InvalidError
  end.

(** [timedelta * int] and [timedelta * float]: a result out of range raises;
    a product with a fraction rounds to the nearest microsecond, half to even. *)
Definition td_check (us : Z) : result Z := if MAX_TIMEDELTA <? us then Raise OverflowError else Ok us.
Definition div_round (a b : Z) : Z :=
  let q := a / b in let r := a mod b in
  if (b <? 2 * r) || ((2 * r =? b) && Z.odd q) then q + 1 else q.

(** The doubling loop. *)
Fixpoint backoff_loop (max_backoff : Z) (rounds : nat) (delay : Z) : result Z :=
  match rounds with
  | O => Ok delay
  | S rounds =>
      if max_backoff <=? delay then Ok delay
      else let! doubled := td_check (delay * 2) in backoff_loop max_backoff rounds (Z.min doubled max_backoff)
  end.

(** [_backoff] *)
Definition _backoff (self : WitnessDeliveryRunner) (attempts draw : Z) : result Z :=
  let! delay := backoff_loop (_max_backoff self) (Z.to_nat attempts) (_base_backoff self) in
  if _jitter self then Ok (div_round (delay * draw) (2 ^ 53)) else Ok delay.

(** [normalize_time(now + delay)] *)
Definition later (now : instant) (delay : Z) : result instant :=
  let at_ := now * 1000 + delay in
  if MAX_INSTANT * 1000 <=? at_ then Raise OverflowError else Ok (at_ / 1000).

Definition failed_row (item : WitnessState) (permanent : bool) (reason : pystr) (next_attempt_at : instant)
  : WitnessState :=
  {| ws_witness_id := ws_witness_id item; ws_checkpoint_size := ws_checkpoint_size item;
     ws_checkpoint := ws_checkpoint item; ws_attempts := ws_attempts item + 1;
     ws_next_attempt_at := next_attempt_at; ws_receipt := ws_receipt item; ws_permanent := permanent;
     ws_last_error := Some (_bounded_text reason) |}.

Definition delivered_row (item : WitnessState) (receipt : WitnessReceipt) (now : instant) : WitnessState :=
  {| ws_witness_id := ws_witness_id item; ws_checkpoint_size := ws_checkpoint_size item;
     ws_checkpoint := ws_checkpoint item; ws_attempts := ws_attempts item + 1; ws_next_attempt_at := now;
     ws_receipt := Some receipt; ws_permanent := false; ws_last_error := None |}.

(** ** Threads as programs of calls to the store *)
Inductive prog (A : Type) : Type :=
| Ret (r : result A)
| GetWitness (witness_id : pystr) (checkpoint_size : Z) (k : result (option WitnessState) -> prog A)
| CommitWitness (expected_attempts : Z) (next : WitnessState) (k : result () -> prog A).
Arguments Ret {A} r.
Arguments GetWitness {A} witness_id checkpoint_size k.
Arguments CommitWitness {A} expected_attempts next k.

Fixpoint prog_bind {A B} (p : prog A) (f : A -> prog B) : prog B :=
  match p with
  | Ret (Ok a) => f a
  | Ret (Raise e) => Ret (Raise e)
  | GetWitness id size k => GetWitness id size (fun r => prog_bind (k r) f)
  | CommitWitness n next k => CommitWitness n next (fun r => prog_bind (k r) f)
  end.

Section runner.
Context {PI : Interp} {HL : Hashlib} {CB : Cbor2} {CR : Crypto} {SC : ScittCose} (room : nat).
Implicit Types self : WitnessDeliveryRunner.

Definition commit (expected_attempts : Z) (next : WitnessState) : prog () :=
  CommitWitness expected_attempts next Ret.

Definition _fail self (env : surroundings) (now : instant) (item : WitnessState) (permanent : bool) (reason : pystr)
  : prog () :=
  match (let! delay := _backoff self (ws_attempts item) (random_draw env item) in later now delay) with
  | Raise e => Ret (Raise e)
  | Ok at_ => commit (ws_attempts item) (failed_row item permanent reason at_)
  end.

(** From the submission on. *)
Definition send self (env : surroundings) (now : instant) (item : WitnessState) : prog (bool * bool) :=
  match client_submit env item with
  | Failed e text =>
      prog_bind (_fail self env now item (negb (retryable e)) text) (fun _ => Ret (Ok (false, retryable e)))
  | Returned receipt =>
      match verifier_verify env item receipt with
      | Failed _ text => prog_bind (_fail self env now item true text) (fun _ => Ret (Ok (false, false)))
      | Returned _ =>
          prog_bind (commit (ws_attempts item) (delivered_row item receipt now)) (fun _ => Ret (Ok (true, false)))
      end
  end.

(** Whether a receipt was received, and whether the pass stops. *)
Definition _deliver self (env : surroundings) (now : instant) (item : WitnessState) : prog (bool * bool) :=
  if negb (bool_decide (ws_witness_id item ∈ _clients self)) then Ret (Raise InvalidError)
  else
    match _verified_checkpoint room (ws_checkpoint item) with
    | Raise _ =>
        prog_bind (_fail self env now item true (str "stored checkpoint failed verification"))
          (fun _ => Ret (Ok (false, false)))
    | Ok decoded =>
        if 0 <? d_prev_size decoded then
          GetWitness (ws_witness_id item) (d_prev_size decoded) (fun r =>
            match r with
            | Raise e => Ret (Raise e)
            | Ok (Some predecessor) =>
                if bool_decide (ws_receipt predecessor = None) then Ret (Ok (false, true)) else send self env now item
            | Ok None => send self env now item
            end)
        else send self env now item
    end.

Fixpoint _deliver_all self (env : surroundings) (now : instant) (items : list WitnessState) (completed : Z) : prog Z :=
  match items with
  | [] => Ret (Ok completed)
  | item :: items =>
      prog_bind (_deliver self env now item) (fun out =>
        let completed := completed + Z.b2z out.1 in
        if out.2 : bool then Ret (Ok completed) else _deliver_all self env now items completed)
  end.
End runner.

(** ** The pool: threads interleaved over one store *)
Section pool.
Context {PI : Interp} {HL : Hashlib} {CB : Cbor2} {CR : Crypto} {SC : ScittCose} (room : nat).
Context {S Env : Type} {BE : Backend S Env}.

(** Thread [i] makes its next call; a finished thread makes none. *)
Definition pool_step (s : S) (threads : list (prog Z)) (i : nat) (env : Env) : S * list (prog Z) :=
  match threads !! i with
  | Some (GetWitness id size k) =>
      (s, <[i := k (query s (fun engine => Engine.get_witness engine (PStr id) (PInt size)))]> threads)
  | Some (CommitWitness n next k) =>
      let '(s, r) := mutate s (MWitness (PInt n) (Inst (witness_arg next))) env in
      (s, <[i := k (let! _ := r in Ok ())]> threads)
  | _ => (s, threads)
  end.

Fixpoint run_pool (s : S) (threads : list (prog Z)) (schedule : list (nat * Env)) : S * list (prog Z) :=
  match schedule with
  | [] => (s, threads)
  | (i, env) :: schedule => let '(s, threads) := pool_step s threads i env in run_pool s threads schedule
  end.

(** The outcomes once every thread is done: the first exception in the order
    of the witnesses, or the sum. *)
Fixpoint outcomes (threads : list (prog Z)) (total : Z) : option (result Z) :=
  match threads with
  | [] => Some (Ok total)
  | Ret (Ok n) :: threads => outcomes threads (total + n)
  | Ret (Raise e) :: threads => match outcomes threads 0 with Some _ => Some (Raise e) | None => None end
  | _ :: _ => None
  end.

(** The due rows of each witness that has any. *)
Fixpoint pending_groups (s : S) (clients : list pystr) (now : instant) (limit : pyval)
  : result (list (list WitnessState)) :=
  match clients with
  | [] => Ok []
  | id :: clients =>
      let! items := query s (fun engine => Engine.pending_witnesses_for engine (PStr id) (utc_datetime now) limit) in
      let! groups := pending_groups s clients now limit in
      Ok (if bool_decide (items = []) then groups else items :: groups)
  end.

(** [run_once]; [None] while threads are still running after [schedule]. *)
Definition deliver_once (self : WitnessDeliveryRunner) (env : surroundings) (now : pyval) (limit : pyval)
    (s : S) (schedule : list (nat * Env)) : S * option (result Z) :=
  match normalize_time now InvalidError with
  | Raise e => (s, Some (Raise e))
  | Ok now =>
      match pending_groups s (_clients self) now limit with
      | Raise e => (s, Some (Raise e))
      | Ok groups =>
          let '(s, threads) := run_pool s (map (fun items => _deliver_all room self env now items 0) groups) schedule in
          (s, outcomes threads 0)
      end
  end.
End pool.
