(* ===== verification/DeliveryProps.v ===== *)
(** * What witness delivery does

    The bounds of the retry delay, what a witness's answer is read as, and
    what a pass does to the rows of a backend, in any interleaving of its
    threads. *)
From S2P Require Import Prelude Bytes Text Py Json JsonProps PyJson Sha256 MmrPos Mmr Cbor Base64 Ed25519 Emit CoseWire Cll Calendar Engine EngineValid EngineProps EngineCommit EngineSteps Backend Delivery MmrSpec CoseProps EmitProps Memory.
Open Scope Z_scope.

(** ** Error texts *)
Lemma cons_char_single ok c0 o c : cons_char ok c0 o = Some [c] -> ok = true /\ c = c0 /\ o = Some [].
Proof.
  unfold cons_char. destruct ok; [|done]. destruct o as [[|]|]; cbn; [|done|done]. by intros [= ->].
Qed.

Lemma utf8_decode_single bs c :
  utf8_decode bs = Some [c] -> exists cs, utf8_char c = Some cs /\ (length cs <= length bs)%nat.
Proof.
  destruct bs as [|b0 r0]; [done|]. cbn [utf8_decode]. pose proof (b2z_range b0). unfold utf8_char.
  destruct (b2z b0 <? 128) eqn:E0; zbool.
  { intros (_ & -> & _)%cons_char_single. rw_bool (b2z b0 <? 0) false. rw_bool (b2z b0 <? 128) true.
    eexists. split; [done|]. cbn. lia. }
  destruct r0 as [|b1 r1]; [done|]. pose proof (b2z_range b1).
  destruct (b2z b0 <? 224) eqn:E1; zbool.
  { intros (Hok & -> & _)%cons_char_single. unfold continuation in Hok. zbool.
    set (c0 := (b2z b0 - 192) * 64 + (b2z b1 - 128)). assert (128 <= c0 < 2048) by (unfold c0; lia).
    rw_bool (c0 <? 0) false. rw_bool (c0 <? 128) false. rw_bool (c0 <? 2048) true.
    eexists. split; [done|]. cbn. lia. }
  destruct r1 as [|b2 r2]; [done|]. pose proof (b2z_range b2).
  destruct (b2z b0 <? 240) eqn:E2; zbool.
  { intros (Hok & -> & _)%cons_char_single. unfold continuation in Hok. zbool.
    set (c0 := (b2z b0 - 224) * 4096 + (b2z b1 - 128) * 64 + (b2z b2 - 128)) in *.
    assert (2048 <= c0 < 65536) by (unfold c0 in *; lia).
    rw_bool (c0 <? 0) false. rw_bool (c0 <? 128) false. rw_bool (c0 <? 2048) false. rw_bool (c0 <? 65536) true.
    replace (is_surrogate c0) with false by done. eexists. split; [done|]. cbn. lia. }
  destruct r2 as [|b3 r3]; [done|]. intros (Hok & -> & _)%cons_char_single. unfold continuation in Hok. zbool.
  set (c0 := (b2z b0 - 240) * 262144 + (b2z b1 - 128) * 4096 + (b2z b2 - 128) * 64 + (b2z b3 - 128)) in *.
  rw_bool (c0 <? 0) false. rw_bool (c0 <? 128) false. rw_bool (c0 <? 2048) false. rw_bool (c0 <? 65536) false.
  rw_bool (c0 <? 1114112) true. replace (is_surrogate c0) with false.
  2: { unfold is_surrogate. rw_bool (c0 <=? 57343) false. by rewrite andb_false_r. }
  eexists. split; [done|]. cbn. lia.
Qed.

Lemma first_char_encodes bs c rest :
  first_char bs = Some (c, rest) ->
  exists cs, utf8_char c = Some cs /\ (length cs + length rest <= length bs)%nat.
Proof.
  assert (forall n, char_of n bs = Some (c, rest) ->
    exists cs, utf8_char c = Some cs /\ (length cs + length rest <= length bs)%nat) as Hn.
  { intros n. unfold char_of. destruct (utf8_decode (take n bs)) as [[|x [|]]|] eqn:E; try done.
    intros [= <- <-]. apply utf8_decode_single in E as (cs & Hc & Hl). exists cs. split; [done|].
    rewrite length_take in Hl. rewrite length_drop. lia. }
  unfold first_char. destruct (char_of 1 bs) as [[? ?]|] eqn:E1; [intros [= -> ->]; by apply (Hn 1%nat)|].
  destruct (char_of 2 bs) as [[? ?]|] eqn:E2; [intros [= -> ->]; by apply (Hn 2%nat)|].
  destruct (char_of 3 bs) as [[? ?]|] eqn:E3; [intros [= -> ->]; by apply (Hn 3%nat)|]. apply Hn.
Qed.

Lemma decode_ignore_encodes fuel bs :
  exists e, utf8_encode (decode_ignore fuel bs) = Some e /\ (length e <= length bs)%nat.
Proof.
  revert bs. induction fuel as [|fuel IH]; intros bs; [exists []; cbn; split; [done|lia]|].
  destruct bs as [|b bs]; [by exists []|]. cbn [decode_ignore].
  destruct (first_char (b :: bs)) as [[c rest]|] eqn:E.
  - apply first_char_encodes in E as (cs & Hc & Hl). destruct (IH rest) as (e & He & Hle).
    exists (cs ++ e). cbn [utf8_encode]. rewrite Hc, He, length_app. split; [done|lia].
  - destruct (IH bs) as (e & He & Hle). exists e. cbn [length]. split; [done|lia].
Qed.

(** The text stored with a failure is one the engine accepts. *)
Lemma bounded_text_valid s : valid_reason (_bounded_text s).
Proof.
  unfold _bounded_text, valid_reason, utf8_length.
  destruct (decode_ignore_encodes (length (take (Z.to_nat MAX_REASON_BYTES) (encode_replace s)))
    (take (Z.to_nat MAX_REASON_BYTES) (encode_replace s))) as (e & -> & Hl).
  exists (zlen e). split; [done|]. rewrite length_take in Hl. unfold zlen, MAX_REASON_BYTES in *. lia.
Qed.

(** ** The retry delay *)
Lemma backoff_loop_eq max_backoff rounds delay :
  0 < delay <= max_backoff ->
  match backoff_loop max_backoff rounds delay with
  | Ok d => d = Z.min max_backoff (delay * 2 ^ Z.of_nat rounds)
  | Raise e => e = OverflowError /\ MAX_TIMEDELTA < 2 * max_backoff
  end.
Proof.
  revert delay. induction rounds as [|rounds IH]; intros delay Hd; cbn [backoff_loop].
  { rewrite Z.mul_1_r. lia. }
  assert (1 <= 2 ^ Z.of_nat rounds) as Hp by (apply Z.lt_pred_le, Z.pow_pos_nonneg; lia).
  rewrite Nat2Z.inj_succ, Z.pow_succ_r by lia. destruct (max_backoff <=? delay) eqn:E; zbool; [nia|].
  unfold td_check. destruct (MAX_TIMEDELTA <? delay * 2) eqn:Eo; zbool; [split; [done|lia]|].
  specialize (IH (Z.min (delay * 2) max_backoff) ltac:(lia)).
  destruct (backoff_loop _ _ _); [|done]. rewrite IH. nia.
Qed.

Lemma div_round_bounds a b : 0 <= a -> 0 < b -> 0 <= div_round a b /\ 2 * b * div_round a b <= 2 * a + b.
Proof.
  intros Ha Hb. unfold div_round. pose proof (Z.div_mod a b ltac:(lia)). pose proof (Z.mod_pos_bound a b Hb).
  assert (0 <= a / b) by (apply Z.div_pos; lia).
  destruct (b <? 2 * (a mod b)) eqn:E1; zbool; cbn [orb]; [split; [lia|nia]|].
  destruct (2 * (a mod b) =? b) eqn:E2; zbool; cbn [andb]; [destruct (Z.odd _)|]; split; (lia || nia).
Qed.

Lemma jitter_bounds delay draw : 0 <= delay -> 0 <= draw < 2 ^ 53 -> 0 <= div_round (delay * draw) (2 ^ 53) <= delay.
Proof.
  intros Hd Hr. destruct (div_round_bounds (delay * draw) (2 ^ 53)) as [H1 H2]; [nia|lia|]. split; [done|]. nia.
Qed.

(** [C39] The retry time. For a valid configuration the [n]th failure is retried
    after the base delay doubled [n] times, capped at the maximum, in exact
    microseconds and rounded down to the millisecond; with jitter it falls
    anywhere from now up to that, and never later. The only failure is an
    [OverflowError], and only when doubling passes the largest duration a
    [timedelta] holds or the time passes the year 9999. *)
Theorem retry_bounds (self : WitnessDeliveryRunner) (now : instant) (attempts draw : Z) :
  0 < _base_backoff self <= _max_backoff self -> 0 <= attempts -> 0 <= draw < 2 ^ 53 ->
  let full := Z.min (_max_backoff self) (_base_backoff self * 2 ^ attempts) in
  match (let! delay := _backoff self attempts draw in later now delay) with
  | Ok t => now <= t <= now + full / 1000 /\ (_jitter self = false -> t = now + full / 1000)
  | Raise e => e = OverflowError /\
      (MAX_TIMEDELTA < 2 * _max_backoff self \/ MAX_INSTANT * 1000 <= now * 1000 + full)
  end.
Proof.
  intros Hb Ha Hr full. unfold _backoff.
  pose proof (backoff_loop_eq (_max_backoff self) (Z.to_nat attempts) (_base_backoff self) Hb) as Hl.
  destruct (backoff_loop _ _ _) as [delay|e]; [|destruct Hl as [-> ?]; split; [done|by left]].
  rewrite Z2Nat.id in Hl by done. fold full in Hl. subst delay.
  assert (0 <= full) as Hf.
  { unfold full. assert (0 < 2 ^ attempts) by (apply Z.pow_pos_nonneg; lia). nia. }
  pose proof (jitter_bounds full draw Hf Hr) as Hj.
  assert (forall d, 0 <= d <= full -> match later now d with
    | Ok t => now <= t <= now + full / 1000 /\ t = now + d / 1000
    | Raise e => e = OverflowError /\ MAX_INSTANT * 1000 <= now * 1000 + full end) as Hlater.
  { intros d Hd. unfold later. destruct (_ <=? _) eqn:E; zbool; [split; [done|lia]|].
    rewrite Z.add_comm, Z.div_add by lia. pose proof (Z.div_pos d 1000). pose proof (Z.div_le_mono d full 1000).
    split_and!; lia. }
  destruct (_jitter self).
  - specialize (Hlater _ Hj). destruct (later _ _); [|tauto]. split; [tauto|done].
  - specialize (Hlater full ltac:(lia)). destruct (later _ _); [|tauto]. split; tauto.
Qed.

Lemma retry_bounds_witness :
  let self := {| _clients := [str "w1"]; _base_backoff := 1000000; _max_backoff := 3600000000; _jitter := false |} in
  (let! delay := _backoff self 3 0 in later 5 delay) = Ok 8005 /\ 5 <= 8005 <= 5 + 8000000 / 1000.
Proof.
  intros self. split; [vm_compute; reflexivity|].
  exact (proj1 (retry_bounds self 5 3 0 ltac:(cbn; lia) ltac:(lia) ltac:(lia))).
Defined.

(** ** Reading a witness's answer *)
Lemma b64decode_length s bs : b64decode s = Ok bs -> (4 * length bs <= 3 * length s)%nat.
Proof.
  revert bs. induction s as [s IH] using (induction_ltof1 _ (@length Z)). unfold ltof in IH. intros bs.
  destruct s as [|a [|b [|c [|d rest]]]]; try done; [by intros [= <-]|]. cbn [b64decode].
  destruct (b64_value a); [|done]. destruct (b64_value b); [|done].
  destruct (_ && _).
  - destruct (c =? 61); [intros [= <-]; cbn; lia|]. destruct (b64_value c); [|done]. intros [= <-]. cbn. lia.
  - destruct (b64_value c); [|done]. destruct (b64_value d); [|done].
    destruct (b64decode rest) as [tl|] eqn:E; [|done]. intros [= <-]. apply IH in E; [|cbn; lia]. cbn. lia.
Qed.

Section submit.
Context {PI : Interp} {HL : Hashlib} {CB : Cbor2} {CR : Crypto} {SC : ScittCose} {SR : ScittReceipts} (room : nat).

(** A stored statement that does not give an entry hash. *)
Lemma entry_hash_raise checkpoint e :
  _checkpoint_entry_hash room checkpoint = Raise e -> e ∈ [RejectedError; ValueError; UnicodeError].
Proof.
  unfold _checkpoint_entry_hash. destruct (_verified_checkpoint room checkpoint) as [d|e0] eqn:Ev.
  2: { intros [= <-]. apply or_raise_Raise in Ev as ->. left. }
  unfold CheckpointRecord.digest, CheckpointRecord.signing_body.
  destruct (dumps_sorted _) as [body|e0] eqn:Ed.
  2: { intros [= <-]. apply dumps_ascii_raise in Ed as ->. right. left. }
  unfold encode_text. destruct (utf8_encode body); [|intros [= <-]; right; right; left].
  destruct (fromhex _) eqn:Ef; [done|]. rewrite fromhex_hex in Ef. done.
Qed.

(** What a witness's receipt carries once read from [limit] bytes. *)
Record well_read (limit : nat) (r : WitnessReceipt) : Prop := {
  wl_bytes : wr_bytes r <> [];
  wl_hash : exists h, wr_entry_hash r = Some h /\ is_entry_hash h = true;
  wl_scheme : wr_entry_hash_scheme r = Some (str "legacy");
  wl_length : (length (wr_bytes r) <= limit)%nat;
  wl_position : exists i n, wr_leaf_index r = Some i /\ wr_tree_size r = Some n /\ 0 <= i < n /\ n <= MAX_PORTABLE_INTEGER
}.

Lemma receipt_position_Some v w i n :
  receipt_position v w = Some (i, n) -> 0 <= i < n /\ n <= MAX_PORTABLE_INTEGER.
Proof.
  unfold receipt_position. destruct (json_int v); [|done]. destruct (json_int w); [|done].
  destruct (_ && _) eqn:E; [|done]. intros [= <- <-]. zbool. unfold MAX_PORTABLE_INTEGER in *. lia.
Qed.

Lemma utf8_decode_length bs s : utf8_decode bs = Some s -> (length s <= length bs)%nat.
Proof.
  assert (forall (b : bool) c (bs : bytes) (k : nat) s, (forall t, utf8_decode bs = Some t -> (length t <= length bs)%nat) ->
    cons_char b c (utf8_decode bs) = Some s -> (length bs < k)%nat -> (length s <= k)%nat) as Hcons.
  { intros b c k n t Hk. unfold cons_char. destruct b; [|done]. destruct (utf8_decode k) as [t'|]; [|done].
    intros [= <-] Hn. specialize (Hk t' eq_refl). cbn. lia. }
  revert s. induction bs as [bs IH] using (induction_ltof1 _ (@length byte)). unfold ltof in IH. intros s.
  destruct bs as [|b0 r0]; cbn [utf8_decode]; [by intros [= <-]|].
  destruct (_ <? _); [intros H; eapply Hcons; [|exact H|]; [apply IH|]; cbn; lia|]. destruct r0 as [|b1 r1]; [done|].
  destruct (_ <? _); [intros H; eapply Hcons; [|exact H|]; [apply IH|]; cbn; lia|]. destruct r1 as [|b2 r2]; [done|].
  destruct (_ <? _); [intros H; eapply Hcons; [|exact H|]; [apply IH|]; cbn; lia|]. destruct r2 as [|b3 r3]; [done|].
  intros H; eapply Hcons; [|exact H|]; [apply IH|]; cbn; lia.
Qed.

(** A text of the answer is no longer than the answer. *)
Lemma answer_text too_deep raw wire key s :
  answer_json too_deep raw = Ok (JDict wire) -> wire_get wire key = JStr s -> (length s <= length raw)%nat.
Proof.
  unfold answer_json. destruct (utf8_decode raw) as [text|] eqn:Et; [|done]. destruct (too_deep text); [done|].
  intros Hl%loads_texts. apply utf8_decode_length in Et. cbn [texts_le] in Hl. unfold wire_get.
  intros Hk. enough (text_le (length text) (JStr s)) by (cbn in *; lia). rewrite <- Hk. clear Hk.
  induction Hl as [|[k v] d Hv Hl IH]; [done|]. cbn [find_key]. by case_bool_decide.
Qed.

Lemma parse_receipt_inv too_deep raw :
  match _parse_receipt too_deep raw with
  | Ok r => well_read (length raw) r
  | Raise RecursionError => exists text, utf8_decode raw = Some text /\ too_deep text = true
  | Raise e => e ∈ [RejectedError; ValueError]
  end.
Proof.
  assert (RejectedError ∈ [RejectedError; ValueError]) as Hrej by left. unfold _parse_receipt.
  pose proof (answer_text too_deep raw) as Htext.
  destruct (answer_json too_deep raw) as [[| | | | | |wire]|e] eqn:Ea; try done.
  2: { destruct e; try done. unfold answer_json in Ea. destruct (utf8_decode raw) as [text|]; [|done]. exists text. split; [done|].
       destruct (too_deep text); [done|]. apply loads_raise in Ea. done. }
  destruct (wire_get wire "entry_hash_scheme") as [| | | |scheme| |]; try done.
  destruct (bool_decide _) eqn:Es; [|done]. cbn [negb]. zbool.
  destruct (wire_get wire "entry_hash") as [| | | |h| |]; try done.
  destruct (is_entry_hash h) eqn:Eh; [|done]. cbn [negb].
  destruct (receipt_position _ _) as [[i n]|] eqn:Ep; [|done].
  destruct (receipt_bytes_of _) as [bs|e] eqn:Eb.
  - case_bool_decide as En; [done|]. split; cbn [wr_bytes wr_entry_hash wr_entry_hash_scheme wr_leaf_index wr_tree_size].
    + done.
    + by exists h.
    + by rewrite Es.
    + unfold receipt_bytes_of in Eb. destruct (wire_get wire "receipt_b64") as [| | | |s| |] eqn:Er; try by injection Eb as <-.
      destruct (negb _); [done|]. destruct (b64decode s) as [bs'|] eqn:Ed; injection Eb as <-; [|done].
      apply b64decode_length in Ed. specialize (Htext wire "receipt_b64"%string s eq_refl Er). lia.
    + exists i, n. by apply receipt_position_Some in Ep.
  - unfold receipt_bytes_of in Eb. destruct (wire_get wire "receipt_b64") as [| | | |s| |]; try done.
    destruct (negb _); [injection Eb as <-; right; left|]. by destruct (b64decode s).
Qed.

(** Read from an answer within the limit, a receipt is one the store accepts. *)
Lemma well_read_valid limit r :
  well_read limit r -> Z.of_nat limit <= MAX_WITNESS_RESPONSE_BYTES -> valid_receipt r.
Proof.
  intros [Hb (h & Hh & Hhex) Hs Hl (i & n & Hi & Hn & Hp)] Hlim. split.
  - unfold within, zlen. destruct (wr_bytes r); [done|]. cbn [length] in *. lia.
  - by rewrite Hh.
  - by rewrite Hs.
  - rewrite Hi. cbn. unfold within. lia.
  - rewrite Hn. cbn. unfold within. lia.
Qed.

(** A failure worth retrying: no answer, a body that was cut off, or a status
    that says so; a body over the limit never is. *)
Definition transient (max_bytes : Z) (x : exchange) : Prop :=
  match x with
  | Unreachable => True
  | Answered status raw cut_off =>
      zlen raw <= max_bytes /\ (cut_off = true \/ status = 408 \/ status = 429 \/ 500 <= status)
  end.

Definition succeeded (max_bytes : Z) (x : exchange) : Prop :=
  match x with
  | Unreachable => False
  | Answered status raw cut_off => zlen raw <= max_bytes /\ cut_off = false /\ 200 <= status < 300
  end.

(** The text of the answer. *)
Definition answer_text_of (x : exchange) : option pystr :=
  match x with Unreachable => None | Answered _ raw _ => utf8_decode raw end.

Lemma zlen_take_small {A} (l : list A) n : 0 <= n -> zlen l <= n -> take (Z.to_nat (n + 1)) l = l.
Proof. intros Hn Hl. unfold zlen in Hl. apply take_ge. lia. Qed.

Lemma zlen_take_large {A} (l : list A) n : 0 <= n -> n < zlen l -> zlen (take (Z.to_nat (n + 1)) l) = n + 1.
Proof. intros Hn Hl. unfold zlen in *. rewrite length_take. lia. Qed.

Lemma read_eq max_bytes raw cut_off :
  0 <= max_bytes ->
  _read max_bytes raw cut_off =
    if zlen raw <=? max_bytes then if cut_off then Raise OSError else Ok raw
    else Ok (take (Z.to_nat (max_bytes + 1)) raw).
Proof.
  intros Hm. unfold _read. destruct (zlen raw <=? max_bytes) eqn:E; zbool.
  - rewrite zlen_take_small by lia. rw_bool (zlen raw <=? max_bytes) true. by destruct cut_off.
  - rewrite zlen_take_large by lia. by rw_bool (max_bytes + 1 <=? max_bytes) false.
Qed.

End submit.

(** [C40] What [HttpWitnessClient.submit] returns is well typed. With a limit the
    constructor allows, whatever the exchange gives: it returns a receipt only
    for a statement that verifies and a complete 2xx answer within the limit,
    with non-empty bytes, a 64-digit entry hash, the one known scheme and a
    leaf index below a tree size that is a portable integer, and the store
    accepts every such receipt as it is; it raises [ContentionError] exactly
    for a statement that verifies and a transient failure, [RecursionError]
    only for a 2xx answer that [json.loads] cannot nest into, and everything
    else is an error that is not retried. *)
Theorem submit_typed {PI : Interp} {HL : Hashlib} {CB : Cbor2} {CR : Crypto} {SC : ScittCose}
    (room : nat) (too_deep : pystr -> bool) (max_bytes : Z) (exchange_of : bytes -> exchange) (checkpoint : bytes) :
  1 <= max_bytes <= MAX_WITNESS_RESPONSE_BYTES ->
  let verifies := is_ok (_checkpoint_entry_hash room checkpoint) = true in
  match submit room too_deep max_bytes exchange_of checkpoint with
  | Ok r => verifies /\ succeeded max_bytes (exchange_of checkpoint) /\
      wr_entry_hash r <> None /\ wr_entry_hash_scheme r = Some (str "legacy") /\
      (exists i n, wr_leaf_index r = Some i /\ wr_tree_size r = Some n /\ 0 <= i < n) /\ valid_receipt r
  | Raise ContentionError => verifies /\ transient max_bytes (exchange_of checkpoint)
  | Raise RecursionError => verifies /\ succeeded max_bytes (exchange_of checkpoint) /\
      exists text, answer_text_of (exchange_of checkpoint) = Some text /\ too_deep text = true
  | Raise e => e ∈ [RejectedError; ValueError; UnicodeError] /\
      ~ (verifies /\ transient max_bytes (exchange_of checkpoint))
  end.
Proof.
  intros Hm verifies. unfold submit, verifies.
  destruct (_checkpoint_entry_hash room checkpoint) as [h|e] eqn:Eh; cbn [is_ok].
  2: { apply entry_hash_raise in Eh. set_unfold in Eh. destruct Eh as [->|[->|[->|[]]]]; (split; [set_solver|by intros []]). }
  destruct (exchange_of checkpoint) as [|status raw cut_off]; [done|]. rewrite read_eq by lia.
  cbn [transient succeeded answer_text_of]. destruct (zlen raw <=? max_bytes) eqn:El; zbool.
  2: { rewrite zlen_take_large by lia. rw_bool (max_bytes <? max_bytes + 1) true. split; [left|]. lia. }
  destruct cut_off; [split_and!; (done || tauto)|]. rw_bool (max_bytes <? zlen raw) false.
  destruct ((200 <=? status) && (status <? 300)) eqn:Es; cbn [negb]; zbool.
  - pose proof (parse_receipt_inv too_deep raw) as Hp. destruct (_parse_receipt too_deep raw) as [r|e].
    + pose proof (well_read_valid _ _ Hp) as Hv. destruct Hp as [_ (h' & -> & _) Hs _ (i & n & Hi & Hn & Hin & _)].
      split_and!; try done; [by exists i, n|]. apply Hv. unfold zlen in El. lia.
    + destruct e; try (set_unfold in Hp; naive_solver); (split; [set_solver|lia]).
  - destruct (bool_decide (status ∈ [408; 429]) || (500 <=? status)) eqn:Et.
    + split; [done|]. split; [done|]. right. apply orb_true_iff in Et as [Et|Et]; zbool; [set_unfold in Et|]; tauto.
    + zbool. split; [left|]. set_unfold in H. assert (status <> 408 /\ status <> 429) by tauto. lia.
Qed.

(** ** A pass *)
Section pass.
Context {PI : Interp} {HL : Hashlib} {CB : Cbor2} {CR : Crypto} {SC : ScittCose} (room : nat).
Context (self : WitnessDeliveryRunner) (env : surroundings) (now : instant) (rows0 : list WitnessState).

(** Every row with this key has a receipt. *)
Definition settled (rows : list WitnessState) (key : pystr * Z) : Prop :=
  forall row, row ∈ rows -> witness_key row = key -> ws_receipt row <> None.

(** Waiting for delivery. *)
Definition waiting (row : WitnessState) : Prop :=
  ws_receipt row = None /\ ws_permanent row = false /\ ws_next_attempt_at row <= now.

Inductive change (facts : pystr * Z -> Prop) (row : WitnessState) : WitnessState -> Prop :=
| change_failed permanent reason at_ :
    waiting row -> change facts row (failed_row row permanent reason at_)
| change_delivered receipt decoded :
    waiting row -> _verified_checkpoint room (ws_checkpoint row) = Ok decoded ->
    (0 < d_prev_size decoded -> facts (ws_witness_id row, d_prev_size decoded)) ->
    client_submit env row = Returned receipt -> verifier_verify env row receipt = Returned () ->
    change facts row (delivered_row row receipt now).

Lemma change_mono (facts facts' : pystr * Z -> Prop) row row' :
  (forall key, facts key -> facts' key) -> change facts row row' -> change facts' row row'.
Proof. intros Hf [p r t Hw|receipt d Hw Hd Hp Hs Hv]; [by apply change_failed|by eapply change_delivered; eauto]. Qed.

Lemma change_fields facts row row' :
  change facts row row' -> waiting row /\ witness_key row' = witness_key row /\ ws_attempts row' = ws_attempts row + 1.
Proof. by intros []. Qed.

(** What the reply of [get_witness] tells. *)
Definition tells (r : result (option WitnessState)) : Prop :=
  match r with
  | Ok None => True
  | Ok (Some row) => ws_receipt row <> None
  | Raise _ => False
  end.

(** A thread that knows [facts] only commits changes of the rows it read. *)
Fixpoint legit {A} (facts : pystr * Z -> Prop) (p : prog A) : Prop :=
  match p with
  | Ret _ => True
  | GetWitness id size k => forall r, legit (fun key => facts key \/ (key = (id, size) /\ tells r)) (k r)
  | CommitWitness n next k =>
      (exists row, row ∈ rows0 /\ n = ws_attempts row /\ change facts row next) /\ forall r, legit facts (k r)
  end.

Lemma legit_mono {A} (p : prog A) (facts facts' : pystr * Z -> Prop) :
  (forall key, facts key -> facts' key) -> legit facts p -> legit facts' p.
Proof.
  revert facts facts'. induction p as [r|id size k IH|n next k IH]; intros facts facts' Hf; cbn [legit]; [done| |].
  - intros Hk r. eapply IH, Hk. intros key [?|?]; [left; auto|by right].
  - intros [(row & Hr & Hn & Hc) Hk]. split; [|intros r; by eapply IH].
    exists row. split_and!; [done|done|]. by eapply change_mono.
Qed.

Lemma legit_bind {A B} (p : prog A) (f : A -> prog B) facts :
  legit facts p -> (forall a facts', (forall key, facts key -> facts' key) -> legit facts' (f a)) ->
  legit facts (prog_bind p f).
Proof.
  revert facts. induction p as [r|id size k IH|n next k IH]; intros facts; cbn [legit prog_bind].
  - intros _ Hf. destruct r as [a|e]; [by apply Hf|done].
  - intros Hk Hf r. apply IH; [apply Hk|]. intros a facts' Hm. apply Hf. intros key Hkey. apply Hm. by left.
  - intros [Hc Hk] Hf. split; [done|]. intros r. by apply IH.
Qed.

Lemma legit_fail item permanent reason facts :
  item ∈ rows0 -> waiting item -> legit facts (_fail self env now item permanent reason).
Proof.
  intros Hi Hw. unfold _fail. destruct (match _backoff _ _ _ with Ok _ => _ | Raise _ => _ end) as [t|e]; [|done].
  split; [|done]. exists item. split_and!; [done|done|]. by apply change_failed.
Qed.

Lemma legit_send item decoded facts :
  item ∈ rows0 -> waiting item -> _verified_checkpoint room (ws_checkpoint item) = Ok decoded ->
  (0 < d_prev_size decoded -> facts (ws_witness_id item, d_prev_size decoded)) ->
  legit facts (send self env now item).
Proof.
  intros Hi Hw Hd Hp. unfold send. destruct (client_submit env item) as [receipt|e text] eqn:Es.
  2: { apply legit_bind; [by apply legit_fail|done]. }
  destruct (verifier_verify env item receipt) as [[]|e text] eqn:Ev; (apply legit_bind; [|done]).
  - split; [|done]. exists item. split_and!; [done|done|]. by eapply change_delivered.
  - by apply legit_fail.
Qed.

Lemma legit_deliver item facts :
  item ∈ rows0 -> waiting item -> legit facts (_deliver room self env now item).
Proof.
  intros Hi Hw. unfold _deliver. destruct (negb _); [done|].
  destruct (_verified_checkpoint room (ws_checkpoint item)) as [decoded|e] eqn:Ed.
  2: { apply legit_bind; [by apply legit_fail|done]. }
  destruct (0 <? d_prev_size decoded) eqn:Ep; zbool; [|by eapply legit_send; [| |done|lia]].
  intros [[p|]|e]; [case_bool_decide as Er; [done|]| |done];
    (eapply legit_send; [done|done|done|intros _; right; split; [done|cbn; done]]).
Qed.

Lemma legit_all items completed facts :
  (forall item, item ∈ items -> item ∈ rows0 /\ waiting item) ->
  legit facts (_deliver_all room self env now items completed).
Proof.
  revert completed facts. induction items as [|item items IH]; intros completed facts Hi; cbn [_deliver_all]; [done|].
  apply legit_bind; [apply legit_deliver; apply Hi; left|]. intros [success stop] facts' _. cbn [fst snd].
  destruct stop; [done|]. apply IH. intros x Hx. apply Hi. by right.
Qed.

(** The rows as the pass has left them so far. *)
Record evolved (rows : list WitnessState) : Prop := {
  ev_length : length rows = length rows0;
  ev_rows : forall i row0 row, rows0 !! i = Some row0 -> rows !! i = Some row ->
    row = row0 \/ change (settled rows) row0 row
}.

Lemma evolved_refl : evolved rows0.
Proof. split; [done|]. intros i a b Ha Hb. left. congruence. Qed.

Lemma evolved_keys rows : evolved rows -> map witness_key rows = map witness_key rows0.
Proof.
  intros [Hl Hr]. apply list_eq_same_length with (length rows0); [by rewrite length_map|by rewrite length_map|].
  intros i x y Hi Hx Hy. change (map witness_key) with (fmap (M := list) witness_key) in *.
  rewrite list_lookup_fmap in Hx, Hy.
  destruct (rows !! i) as [row|] eqn:E; [|done]. destruct (rows0 !! i) as [row0|] eqn:E0; [|done].
  injection Hx as <-. injection Hy as <-.
  destruct (Hr i row0 row E0 E) as [->|Hc]; [done|]. apply change_fields in Hc as (_ & -> & _). done.
Qed.

(** One commit. *)
Lemma evolved_commit rows i n next facts :
  NoDup (map witness_key rows0) -> evolved rows -> replaces rows i n next ->
  (exists row, row ∈ rows0 /\ n = ws_attempts row /\ change facts row next) ->
  (forall key, facts key -> settled rows key) ->
  evolved (<[i := next]> rows) /\ forall key, settled rows key -> settled (<[i := next]> rows) key.
Proof.
  intros Hnd Hev (row & Hi & Hk & Hn & _) (row0 & Hin & Hn0 & Hc) Hf.
  pose proof (evolved_keys _ Hev) as Hkeys. pose proof (change_fields _ _ _ Hc) as (Hw & Hk0 & _).
  apply list_elem_of_lookup in Hin as [j Hj].
  assert (i = j) as <-.
  { apply (NoDup_lookup (map witness_key rows0) i j (witness_key next)); [done| |].
    - rewrite <- Hkeys. change (map witness_key) with (fmap (M := list) witness_key).
      rewrite list_lookup_fmap, Hi. cbn. by rewrite Hk.
    - change (map witness_key) with (fmap (M := list) witness_key). rewrite list_lookup_fmap, Hj. cbn. by rewrite Hk0. }
  assert (row = row0) as ->.
  { destruct (ev_rows _ Hev i row0 row Hj Hi) as [|Hch]; [done|]. apply change_fields in Hch as (_ & _ & Ha). lia. }
  assert (forall key, settled rows key -> settled (<[i := next]> rows) key) as Hmono.
  { intros key Hs r Hr Hkr. apply list_elem_of_lookup in Hr as [l Hl].
    apply list_lookup_insert_Some in Hl as [(-> & <- & _)|[Hne Hl]].
    - exfalso. apply (Hs row0); [by eapply list_elem_of_lookup_2|congruence|apply Hw].
    - apply Hs; [by eapply list_elem_of_lookup_2|done]. }
  split; [|done]. split; [rewrite length_insert; apply Hev|]. intros l r0 r Hl0 Hl.
  apply list_lookup_insert_Some in Hl as [(-> & <- & _)|[Hne Hl]].
  - right. assert (r0 = row0) as -> by congruence. eapply change_mono; [|exact Hc]. auto.
  - destruct (ev_rows _ Hev l r0 r Hl0 Hl) as [?|Hch]; [by left|right]. eapply change_mono; [|exact Hch]. auto.
Qed.

(** A reply of [get_witness] is true of the rows. *)
Lemma get_witness_tells engine id size :
  NoDup (map witness_key (cs_witnesses (_state engine))) ->
  tells (Engine.get_witness engine (PStr id) (PInt size)) -> settled (cs_witnesses (_state engine)) (id, size).
Proof.
  intros Hnd. unfold Engine.get_witness, check_witness_key. cbn [as_str].
  destruct (int_within (PInt size) 1 (2 ^ 64 - 1)) as [m|] eqn:Em; [|done].
  apply int_within_Some in Em as [[= <-] _]. destruct (is_identifier id); [|done]. cbn [tells].
  set (test := fun row => bool_decide (ws_witness_id row = id) && (ws_checkpoint_size row =? size)).
  assert (forall row, witness_key row = (id, size) <-> test row = true) as Ht.
  { intros row. unfold witness_key, test. rewrite andb_true_iff, bool_decide_eq_true, Z.eqb_eq. split; [by intros [= -> ->]|].
    by intros [-> ->]. }
  destruct (List.find test _) as [p|] eqn:Ef; intros Hr row Hin Hk.
  - apply List.find_some in Ef as [Hp Hpt]. apply Ht in Hpt. apply list_elem_of_In in Hp.
    assert (row = p) as ->; [|done]. apply list_elem_of_lookup in Hin as [i Hi], Hp as [j Hj].
    assert (i = j) as ->; [|congruence]. apply (NoDup_lookup (map witness_key (cs_witnesses (_state engine))) i j (id, size));
      [done| |]; change (map witness_key) with (fmap (M := list) witness_key); rewrite list_lookup_fmap, ?Hi, ?Hj; cbn; congruence.
  - apply Ht in Hk. pose proof (List.find_none _ _ Ef row ltac:(by apply list_elem_of_In)). congruence.
Qed.
End pass.

Section pool.
Context {PI : Interp} {HL : Hashlib} {CB : Cbor2} {CR : Crypto} {SC : ScittCose} (room : nat).
Context {S Env : Type} {BE : Backend S Env}.
Context (self : WitnessDeliveryRunner) (env : surroundings) (now : instant) (engine0 : Engine).
#[local] Abbreviation rows_of engine := (cs_witnesses (_state engine)).

(** The engine of a pass in progress: only witness rows have changed. *)
Record delivering (engine : Engine) : Prop := {
  dl_entries : _entries engine = _entries engine0;
  dl_index : same_index (_state engine0) (_state engine);
  dl_rows : evolved room env now (rows_of engine0) (rows_of engine)
}.

Definition knows (engine : Engine) (p : prog Z) : Prop :=
  exists facts, legit room env now (rows_of engine0) facts p /\ forall key, facts key -> settled (rows_of engine) key.

Definition pool_ok (s : S) (threads : list (prog Z)) : Prop :=
  view s = None \/
  exists engine, view s = Some engine /\ sound s /\ delivering engine /\ Forall (knows engine) threads.

Lemma pool_get s threads i id size k engine :
  view s = Some engine -> sound s -> delivering engine -> Forall (knows engine) threads ->
  threads !! i = Some (GetWitness id size k) ->
  Forall (knows engine) (<[i := k (Engine.get_witness engine (PStr id) (PInt size))]> threads).
Proof.
  intros Hv Hs Hd Hk Hi. apply Forall_insert; [done|]. pose proof (sound_wf _ _ Hs Hv) as Hwf.
  destruct (Forall_lookup_1 _ _ _ _ Hk Hi) as (facts & Hl & Hf). eexists. split; [apply Hl|].
  intros key [Hkey|[-> Ht]]; [auto|]. apply get_witness_tells; [|done].
  apply (rows_keys _ (vm_rows _ _ _ (vs_metadata _ (wf_state engine Hwf)))).
Qed.

Lemma pool_commit engine n next k engine' :
  wf engine -> wf engine0 -> delivering engine -> knows engine (CommitWitness n next k) ->
  Engine.commit_witness engine (PInt n) (Inst (witness_arg next)) = Ok engine' ->
  delivering engine' /\ (forall key, settled (rows_of engine) key -> settled (rows_of engine') key) /\
  forall r, knows engine' (k r).
Proof.
  intros Hwf Hwf0 Hd (facts & [Hc Hk] & Hf) Hrun.
  apply commit_witness_inv in Hrun as (w & i & m & Hw & Hm & Hr & -> & _); [|done].
  apply witness_arg_inv in Hw as ->. apply int_within_Some in Hm as [[= <-] _].
  destruct (evolved_commit room env now (rows_of engine0) (rows_of engine) i n next facts) as [Hev Hmono]; [|apply Hd|done|done|done|].
  { apply (rows_keys _ (vm_rows _ _ _ (vs_metadata _ (wf_state engine0 Hwf0)))). }
  split_and!; [split; [apply Hd|apply Hd|exact Hev]|exact Hmono|].
  intros r. exists facts. split; [apply Hk|]. intros key Hkey. apply Hmono. auto.
Qed.

Lemma knows_mono engine engine' p :
  (forall key, settled (rows_of engine) key -> settled (rows_of engine') key) -> knows engine p -> knows engine' p.
Proof. intros Hm (facts & Hl & Hf). exists facts. split; [done|]. auto. Qed.

Lemma pool_step_ok s threads i e :
  wf engine0 -> pool_ok s threads -> pool_ok (pool_step s threads i e).1 (pool_step s threads i e).2.
Proof.
  intros Hwf0 Hok. unfold pool_step. destruct (threads !! i) as [[r|id size k|n next k]|] eqn:Hi; try done.
  - destruct Hok as [Hv|(engine & Hv & Hs & Hd & Hk)]; [by left|right]. exists engine. split_and!; try done.
    cbn [snd]. rewrite query_eq, Hv. by eapply pool_get.
  - destruct Hok as [Hv|(engine & Hv & Hs & Hd & Hk)].
    { rewrite mutate_closed by done. by left. }
    pose proof (mutate_open s (MWitness (PInt n) (Inst (witness_arg next))) e engine Hs Hv I) as Hm.
    pose proof (sound_wf _ _ Hs Hv) as Hwf. pose proof (Forall_lookup_1 _ _ _ _ Hk Hi) as Hki.
    destruct (mutate _ _ _) as [s' [r|er]]; cbn [fst snd].
    + destruct Hm as (engine' & Hrun & Hv' & Hs'). right. exists engine'. cbn [run_engine] in Hrun.
      destruct (Engine.commit_witness _ _ _) as [engine1|] eqn:Ec; [|done]. injection Hrun as _ <-.
      destruct (pool_commit engine n next k engine1 Hwf Hwf0 Hd Hki Ec) as (Hd' & Hmono & Hk'). split_and!; try done.
      apply Forall_insert; [|apply Hk']. eapply Forall_impl; [exact Hk|]. intros p. by apply knows_mono.
    + destruct Hm as [[Hv' Hs']|Hv']; [right|by left]. exists engine. split_and!; try done.
      apply Forall_insert; [done|]. destruct Hki as (facts & [_ Hkk] & Hf). exists facts. by split.
Qed.

Lemma run_pool_ok s threads schedule :
  wf engine0 -> pool_ok s threads -> pool_ok (run_pool s threads schedule).1 (run_pool s threads schedule).2.
Proof.
  intros Hwf0. revert s threads. induction schedule as [|[i e] schedule IH]; intros s threads Hok; [done|].
  cbn [run_pool]. pose proof (pool_step_ok s threads i e Hwf0 Hok) as Hst. destruct (pool_step s threads i e). by apply IH.
Qed.

(** The rows a pass reads are waiting. *)
Lemma pending_waiting s engine clients limit groups :
  sound s -> view s = Some engine -> pending_groups s clients now limit = Ok groups ->
  is_instant now -> forall items row, items ∈ groups -> row ∈ items -> row ∈ rows_of engine /\ waiting now row.
Proof.
  intros Hs Hv. revert groups. induction clients as [|id clients IH]; intros groups; cbn [pending_groups].
  { intros [= <-] _ items row []%elem_of_nil. }
  rewrite query_eq, Hv. destruct (Engine.pending_witnesses_for _ _ _ _) as [items0|] eqn:Ep; [|done].
  destruct (pending_groups s clients now limit) as [groups0|]; [|done]. intros [= <-] Hnow items row Hi Hr.
  assert (forall row, row ∈ items0 -> row ∈ rows_of engine /\ waiting now row) as H0.
  { clear items row Hi Hr. intros row Hr. unfold Engine.pending_witnesses_for in Ep.
    destruct (check_pending_for _ _ _) as [[id' [t n]]|] eqn:Ec; [|done].
    assert (t = now) as ->.
    { unfold check_pending_for, check_pending in Ec. cbn [as_str] in Ec. destruct (is_identifier id); [|done].
      destruct (or_raise _ _); [|done]. rewrite normalize_utc in Ec by done. congruence. }
    destruct (pending_first_due (rows_of engine) now n (Some id')) as (out & Ho & all & Hp & _ & ->).
    { apply (wf_state engine (sound_wf _ _ Hs Hv)). }
    rewrite Ho in Ep. injection Ep as <-. apply list_elem_of_lookup in Hr as [j Hj].
    apply lookup_take_Some in Hj as [Hj _]. apply list_elem_of_lookup_2 in Hj. rewrite Hp in Hj.
    apply list_elem_of_filter in Hj as [Hd Hj]. split; [done|]. unfold is_due in Hd. zbool. by split_and!. }
  case_bool_decide as En; [by eapply IH|]. apply elem_of_cons in Hi as [->|Hi]; [by apply H0|by eapply IH].
Qed.
End pool.

(** [C28] What a delivery pass does, in any interleaving of its threads and
    however far they get: the backend is closed, or its log and checkpoint
    state are untouched and every witness row is as it was or was changed
    once, from a row that was due. A changed row kept its key and checkpoint
    and counts one more attempt; it either records a failure, or it carries
    the very receipt the client returned, which the verifier accepted, the
    checkpoint statement verifies, and no row of the checkpoint before it at
    that witness is without a receipt. *)
Theorem delivery_safe {PI : Interp} {HL : Hashlib} {CB : Cbor2} {CR : Crypto} {SC : ScittCose} (room : nat)
    {S Env : Type} {BE : Backend S Env} (self : WitnessDeliveryRunner) (env : surroundings) (now limit : pyval)
    (s : S) (schedule : list (nat * Env)) (engine : Engine) :
  sound s -> view s = Some engine ->
  let s' := (deliver_once room self env now limit s schedule).1 in
  view s' = None \/
  exists engine', view s' = Some engine' /\ sound s' /\ _entries engine' = _entries engine /\
    same_index (_state engine) (_state engine') /\
    let rows := cs_witnesses (_state engine) in let rows' := cs_witnesses (_state engine') in
    length rows' = length rows /\
    forall i row row', rows !! i = Some row -> rows' !! i = Some row' ->
      row' = row \/ exists t, normalize_time now InvalidError = Ok t /\ change room env t (settled rows') row row'.
Proof.
  intros Hs Hv s'. unfold s', deliver_once.
  assert (view s = None \/ exists engine', view s = Some engine' /\ sound s /\ _entries engine' = _entries engine /\
    same_index (_state engine) (_state engine') /\
    let rows := cs_witnesses (_state engine) in let rows' := cs_witnesses (_state engine') in
    length rows' = length rows /\
    forall i row row', rows !! i = Some row -> rows' !! i = Some row' ->
      row' = row \/ exists t, normalize_time now InvalidError = Ok t /\ change room env t (settled rows') row row') as Hsame.
  { right. exists engine. cbv zeta. split_and!; try done. intros i a b Ha Hb. left. congruence. }
  destruct (normalize_time now InvalidError) as [t|] eqn:Et; [|exact Hsame].
  destruct (pending_groups s _ t limit) as [groups|] eqn:Eg; [|exact Hsame]. clear Hsame.
  pose proof (sound_wf _ _ Hs Hv) as Hwf.
  set (threads := map (fun items => _deliver_all room self env t items 0) groups).
  assert (pool_ok room env t engine s threads) as Hok.
  { right. exists engine. split_and!; try done.
    - split; [done|by split_and!|apply evolved_refl].
    - apply Forall_map, Forall_forall. intros items Hi. exists (fun _ => False). split; [|done].
      apply legit_all. intros item Hit. eapply (pending_waiting t s engine); try done. by eapply normalize_instant. }
  apply (run_pool_ok room env t engine s threads schedule Hwf) in Hok.
  destruct (run_pool s threads schedule) as [s1 threads1]. cbn [fst snd] in *.
  destruct Hok as [?|(engine' & Hv' & Hs' & [He Hi Hr] & _)]; [by left|right].
  exists engine'. cbv zeta. split_and!; try done; [apply Hr|]. intros i row row' Hrow Hrow'.
  destruct (ev_rows _ _ _ _ _ Hr i row row' Hrow Hrow') as [->|Hc]; [by left|right]. by exists t.
Qed.

(** ** A delivery over the memory backend

    The queued row of [EngineExamples], whose checkpoint is the statement of
    [CoseExamples], is delivered to a witness that answers with a receipt. *)
Module DemoDelivery.
#[export] Existing Instance Sha256.hashlib.
#[export] Existing Instance plain_interp.

Definition answer : bytes :=
  map z2b (str (String.concat EmptyString ["{'entry_hash_scheme':'legacy','entry_hash':'";
    "0000000000000000000000000000000000000000000000000000000000000000";
    "','leaf_index':3,'tree_size':7,'receipt_b64':'0g=='}"])).

(** Double quotes for the single ones above. *)
Definition quoted : bytes := map (fun b => if b2z b =? 39 then z2b 34 else b) answer.
Definition exchange_of (checkpoint : bytes) : exchange := Answered 200 quoted false.

Definition receipt : WitnessReceipt :=
  {| wr_bytes := [z2b 0xD2]; wr_entry_hash := Some (repeat 48 64); wr_entry_hash_scheme := Some (str "legacy");
     wr_leaf_index := Some 3; wr_tree_size := Some 7 |}.

Definition runner : WitnessDeliveryRunner :=
  match delivery_init true [(PStr (str "w1"), true)] [(PStr (str "w1"), true)] (Some 1) (Some 1000000) (Some 3600000000) false with
  | Ok r => r
  | Raise _ => Build_WitnessDeliveryRunner [] 0 0 true
  end.
Definition accepting : surroundings :=
  {| client_submit := fun _ => Returned receipt; verifier_verify := fun _ _ => Returned (); random_draw := fun _ => 0 |}.
Definition store2 : MemoryStore := {| _engine := engine2; _closed := false |}.
Definition schedule : list (nat * ()) := repeat (O, ()) 3.
End DemoDelivery.

Lemma submit_typed_witness :
  let HL := Sha256.hashlib in let PI := plain_interp in let CB := DemoCose.cbor2 in
  let CR := DemoEmit.crypto in let SC := DemoCose.scitt in
  submit 2 (fun _ => false) 1000 DemoDelivery.exchange_of DemoCose.cose = Ok DemoDelivery.receipt /\
  valid_receipt DemoDelivery.receipt.
Proof.
  intros HL PI CB CR SC.
  assert (submit 2 (fun _ => false) 1000 DemoDelivery.exchange_of DemoCose.cose = Ok DemoDelivery.receipt) as E
    by (vm_compute; reflexivity).
  pose proof (submit_typed 2 (fun _ => false) 1000 DemoDelivery.exchange_of DemoCose.cose
    ltac:(unfold MAX_WITNESS_RESPONSE_BYTES; lia)) as H.
  cbv zeta in H. rewrite E in H. split; [exact E|]. destruct H as (_ & _ & _ & _ & _ & H). exact H.
Defined.

Lemma delivery_safe_witness :
  let HL := Sha256.hashlib in let PI := plain_interp in let CB := DemoCose.cbor2 in
  let CR := DemoEmit.crypto in let SC := DemoCose.scitt in
  let out := deliver_once 2 DemoDelivery.runner DemoDelivery.accepting (utc_datetime 7) (PInt 32)
    DemoDelivery.store2 DemoDelivery.schedule in
  out.2 = Some (Ok 1) /\
  exists engine', view out.1 = Some engine' /\ _entries engine' = _entries engine2.
Proof.
  intros HL PI CB CR SC out. split; [vm_compute; reflexivity|].
  pose proof (delivery_safe 2 DemoDelivery.runner DemoDelivery.accepting (utc_datetime 7) (PInt 32)
    DemoDelivery.store2 DemoDelivery.schedule engine2 wf2 eq_refl) as H. cbv zeta in H. fold out in H.
  destruct H as [Hv|(engine' & Hv & _ & He & _)].
  - exfalso. vm_compute in Hv. discriminate.
  - exists engine'. split; [exact Hv|exact He].
Defined.
