(* ===== verification/Bundle.v ===== *)
(** * Offline bundles

    [src/python/checkpoint/bundle.py]: the evidence for one record of a log,
    assembled from the log's entries, and its verification from the bundle
    alone. An entry and the fields a stored bundle supplies are JSON values. *)
From S2P Require Import Prelude Bytes Text Py Json PyJson Sha256 MmrPos Mmr MmrProof Ed25519 Emit CoseWire.
Open Scope Z_scope.

Record Bundle := {
  b_v : Z; b_capsule_id : json; b_seq : Z; b_receipt : json; b_inclusion_proof : InclusionProof;
  b_checkpoint : CheckpointRecord; b_prior_checkpoint : option CheckpointRecord;
  b_consistency_proof : option ConsistencyProof; b_checkpoint_cose : option bytes
}.

(** The names of the fields that tell entries apart. *)
Record Fields := { id_field : pystr; kind_field : pystr; non_leaf_kinds : list pystr; stamp_kind : pystr }.

Definition default_fields : Fields :=
  {| id_field := str "capsule_id"; kind_field := str "kind"; non_leaf_kinds := []; stamp_kind := str "checkpoint_stamp" |}.

Section build.
Context {PI : Interp} {HL : Hashlib} (fields : Fields).

(** [str(v)] of a list or a dict is the interpreter's [repr]. *)
Context (container_repr : json -> pystr).

Definition py_str (v : json) : result pystr :=
  match v with
  | JStr s => Ok s
  | JNull => Ok (str "None")
  | JBool b => Ok (if b then str "True" else str "False")
  | JInt n => if MAX_STR_DIGITS <? zlen (str_nat (Z.abs n)) then Raise ValueError else Ok (str_int n)
  | JFloat literal => Ok (float_repr literal)
  | v => Ok (container_repr v)
  end.

Definition starts_with (s prefix : pystr) : bool := bool_decide (take (length prefix) s = prefix).

(** [v in non_leaf_kinds]; a list or a dict has no hash. *)
Definition in_kinds (v : json) : result bool :=
  match v with
  | JList _ | JDict _ => Raise TypeError
  | JStr s => Ok (bool_decide (s ∈ non_leaf_kinds fields))
  | _ => Ok false
  end.

(** Whether the entry is one [record_id] names. *)
Definition matches_record (record_id : pystr) (e : json) : result bool :=
  let! kind := get_or e (kind_field fields) JNull in
  let! excluded := in_kinds kind in
  if excluded then Ok false
  else
    let! id := get_or e (id_field fields) JNull in
    if is_text id record_id then Ok true
    else if zlen record_id <? 8 then Ok false
    else
      let! id := get_or e (id_field fields) (JStr []) in
      let! text := py_str id in
      Ok (starts_with text record_id).

(** Indices, from [i], of the entries that [test] accepts. *)
Fixpoint indices_where (test : json -> result bool) (entries : list json) (i : Z) : result (list Z) :=
  match entries with
  | [] => Ok []
  | e :: entries =>
      let! b := test e in
      let! rest := indices_where test entries (i + 1) in
      Ok (if b : bool then i :: rest else rest)
  end.

Definition has_id (entries : list json) (record_id : pystr) (i : Z) : result bool :=
  let! e := py_index entries i in
  let! id := subscript e (id_field fields) in
  Ok (is_text id record_id).

Definition _find_record (entries : list json) (record_id : pystr) : result Z :=
  let! matches := indices_where (matches_record record_id) entries 0 in
  match matches with
  | [] => Raise BundleError
  | first :: others =>
      let! exact := filter_result (has_id entries record_id) matches in
      match exact with
      | i :: _ => Ok i
      | [] => match others with [] => Ok first | _ => Raise BundleError end
      end
  end.

(** [next((x for x in l if test(x)), None)] *)
Fixpoint next_where {A} (test : A -> result bool) (l : list A) : result (option A) :=
  match l with
  | [] => Ok None
  | x :: l => let! b := test x in if b : bool then Ok (Some x) else next_where test l
  end.

(** [checkpoint_cose_by_size]: later stamps replace earlier ones. *)
Fixpoint cose_of_size (checkpoints : list CheckpointRecord) (stamps : list json) (size : Z) (found : option json)
  : result (option json) :=
  match checkpoints, stamps with
  | cp :: checkpoints, e :: stamps =>
      let! cose := get_or e (str "checkpoint_cose") JNull in
      cose_of_size checkpoints stamps size (if truthy cose && (c_mmr_size cp =? size) then Some cose else found)
  | _, _ => Ok found
  end.

Fixpoint fold_entries (store : MemoryNodeStore) (entries : list json) : result MemoryNodeStore :=
  match entries with
  | [] => Ok store
  | e :: entries =>
      let! id := subscript e (id_field fields) in
      let! body_digest := fromhex_of id in
      let! leaf := leaf_hash body_digest in
      let! added := add_leaf store leaf in
      fold_entries added.2 entries
  end.

Definition fromhex_if (v : option json) : result (option bytes) :=
  match v with
  | Some v => if truthy v then let! bs := fromhex_of v in Ok (Some bs) else Ok None
  | None => Ok None
  end.

(** The checkpoint before the covering one. *)
Definition prior_of (checkpoints : list CheckpointRecord) (covering : CheckpointRecord) : result (option CheckpointRecord) :=
  if 0 <? c_prev_size covering then
    let! prior := next_where (fun cp => Ok (c_mmr_size cp =? c_prev_size covering)) checkpoints in
    match prior with
    | None => Raise BundleError
    | Some prior => Ok (Some prior)
    end
  else Ok None.

Definition bundle (entries : list json) (record_id : pystr) : result Bundle :=
  if bool_decide (entries = []) then Raise BundleError
  else
    let! target_idx := _find_record entries record_id in
    let seq := target_idx + 1 in
    let! stamp_entries :=
      filter_result (fun e => let! kind := get_or e (kind_field fields) JNull in Ok (is_text kind (stamp_kind fields)))
        entries in
    let! checkpoints :=
      map_result (fun e => let! cp := subscript e (str "checkpoint") in CheckpointRecord.from_dict cp) stamp_entries in
    let! covering := next_where (fun cp => let! n := leaf_count (c_mmr_size cp) in Ok (seq <=? n)) checkpoints in
    match covering with
    | None => Raise BundleError
    | Some covering =>
        let! cose_hex := cose_of_size checkpoints stamp_entries (c_mmr_size covering) None in
        let! prior := prior_of checkpoints covering in
        let! covered_leaves := leaf_count (c_mmr_size covering) in
        let! store := fold_entries MemoryNodeStore.__init__ (take (Z.to_nat covered_leaves) entries) in
        if negb (MemoryNodeStore.size store =? c_mmr_size covering) then Raise BundleError
        else
          let! inclusion := MmrProof.inclusion_proof store (seq - 1) (c_mmr_size covering) in
          let! consistency :=
            match prior with
            | Some prior =>
                let! p := MmrProof.consistency_proof store (c_mmr_size prior) (c_mmr_size covering) in Ok (Some p)
            | None => Ok None
            end in
          let! target := py_index entries target_idx in
          let! capsule_id := subscript target (id_field fields) in
          let! checkpoint_cose := fromhex_if cose_hex in
          Ok {| b_v := 1; b_capsule_id := capsule_id; b_seq := seq; b_receipt := target;
                b_inclusion_proof := inclusion; b_checkpoint := covering; b_prior_checkpoint := prior;
                b_consistency_proof := consistency; b_checkpoint_cose := checkpoint_cose |}
    end.
End build.

(** ** Stored bundles *)
Section dicts.
Context {PI : Interp} {HL : Hashlib}.

(** [tuple(v)] *)
Definition tuple_of (v : json) : result pyval := let! l := iterate v in Ok (PTuple (map json_py l)).
Definition int_field (d : json) (key : string) : result pyval :=
  let! v := subscript d (str key) in let! n := int_of v in Ok (PInt n).
Definition tuple_field (d : json) (key : string) : result pyval :=
  let! v := subscript d (str key) in tuple_of v.
Definition any_field (d : json) (key : string) : result pyval :=
  let! v := subscript d (str key) in Ok (json_py v).

Definition _inclusion_proof_from_dict (d : json) : result InclusionProof :=
  let! v := int_field d "v" in
  let! kind := any_field d "kind" in
  let! size := int_field d "size" in
  let! leaf_index := int_field d "leaf_index" in
  let! witness := tuple_field d "witness" in
  let! peaks_left := tuple_field d "peaks_left" in
  let! peaks_right := tuple_field d "peaks_right" in
  Ok {| ip_v := v; ip_kind := kind; ip_size := size; ip_leaf_index := leaf_index; ip_witness := witness;
        ip_peaks_left := peaks_left; ip_peaks_right := peaks_right |}.

Definition _consistency_proof_from_dict (d : json) : result ConsistencyProof :=
  let! v := int_field d "v" in
  let! kind := any_field d "kind" in
  let! size_a := int_field d "size_a" in
  let! size_b := int_field d "size_b" in
  let! old_peaks := tuple_field d "old_peaks" in
  let! witness := subscript d (str "witness") in
  let! witness := iterate witness in
  let! witness := map_result tuple_of witness in
  let! new_peaks := tuple_field d "new_peaks" in
  Ok {| cp_v := v; cp_kind := kind; cp_size_a := size_a; cp_size_b := size_b; cp_old_peaks := old_peaks;
        cp_witness := PTuple witness; cp_new_peaks := new_peaks |}.

(** [list(v)] of a proof's sequence. *)
Definition list_of (v : pyval) : result pyval := let! l := py_iter v in Ok (PList l).

Definition _inclusion_proof_to_dict (p : InclusionProof) : result pyval :=
  let! witness := list_of (ip_witness p) in
  let! peaks_left := list_of (ip_peaks_left p) in
  let! peaks_right := list_of (ip_peaks_right p) in
  Ok (PDict [(text_key "v", ip_v p); (text_key "kind", ip_kind p); (text_key "size", ip_size p);
             (text_key "leaf_index", ip_leaf_index p); (text_key "witness", witness);
             (text_key "peaks_left", peaks_left); (text_key "peaks_right", peaks_right)]).

Definition _consistency_proof_to_dict (p : ConsistencyProof) : result pyval :=
  let! old_peaks := list_of (cp_old_peaks p) in
  let! witness := py_iter (cp_witness p) in
  let! witness := map_result list_of witness in
  let! new_peaks := list_of (cp_new_peaks p) in
  Ok (PDict [(text_key "v", cp_v p); (text_key "kind", cp_kind p); (text_key "size_a", cp_size_a p);
             (text_key "size_b", cp_size_b p); (text_key "old_peaks", old_peaks);
             (text_key "witness", PList witness); (text_key "new_peaks", new_peaks)]).

Definition bundle_to_dict (self : Bundle) : result pyval :=
  let! inclusion := _inclusion_proof_to_dict (b_inclusion_proof self) in
  let! consistency :=
    match b_consistency_proof self with Some p => _consistency_proof_to_dict p | None => Ok PNone end in
  Ok (PDict [(text_key "v", PInt (b_v self)); (text_key "capsule_id", json_py (b_capsule_id self));
             (text_key "seq", PInt (b_seq self)); (text_key "receipt", json_py (b_receipt self));
             (text_key "inclusion_proof", inclusion);
             (text_key "checkpoint", json_py (CheckpointRecord.to_dict (b_checkpoint self)));
             (text_key "prior_checkpoint",
              match b_prior_checkpoint self with Some cp => json_py (CheckpointRecord.to_dict cp) | None => PNone end);
             (text_key "consistency_proof", consistency);
             (text_key "checkpoint_cose",
              match b_checkpoint_cose self with Some bs => PStr (hex bs) | None => PNone end)]).

Definition bundle_from_dict (d : json) : result Bundle :=
  let! prior := get_or d (str "prior_checkpoint") JNull in
  let! cproof := get_or d (str "consistency_proof") JNull in
  let! cose_hex := get_or d (str "checkpoint_cose") JNull in
  let! v := subscript d (str "v") in
  let! v := int_of v in
  let! capsule_id := subscript d (str "capsule_id") in
  let! seq := subscript d (str "seq") in
  let! seq := int_of seq in
  let! receipt := subscript d (str "receipt") in
  let! inclusion := subscript d (str "inclusion_proof") in
  let! inclusion := _inclusion_proof_from_dict inclusion in
  let! checkpoint := subscript d (str "checkpoint") in
  let! checkpoint := CheckpointRecord.from_dict checkpoint in
  let! prior := if truthy prior then let! cp := CheckpointRecord.from_dict prior in Ok (Some cp) else Ok None in
  let! consistency :=
    match cproof with JNull => Ok None | d => let! p := _consistency_proof_from_dict d in Ok (Some p) end in
  let! cose := fromhex_if (Some cose_hex) in
  Ok {| b_v := v; b_capsule_id := capsule_id; b_seq := seq; b_receipt := receipt; b_inclusion_proof := inclusion;
        b_checkpoint := checkpoint; b_prior_checkpoint := prior; b_consistency_proof := consistency;
        b_checkpoint_cose := cose |}.
End dicts.

(** ** Verification *)

(** What the verifier reports: what fails, and what is only noted. *)
Inductive bundle_issue :=
| InclusionFails | SignatureFails | PriorSignatureFails | PrevSizeDiffers | PrevRootDiffers
| ConsistencyMissing | ConsistencyFails | PriorMissing | ProofWithoutPrior
| CoseFails | CoseDiffers | StampInvalid (ts_url : json) (issues : list stamp_issue) | NoneWitnessed
| Unexpected.
Inductive bundle_notice :=
| HistoryIntact (prior_size size : Z) | FirstCheckpoint (size : Z) | CoseVerified
| StampUnverified (issues : list stamp_issue) | StampDemoted (ts_url : json) (issues : list stamp_issue).

Section verify.
Context {PI : Interp} {HL : Hashlib} {CB : Cbor2} {CR : Crypto} {SC : ScittCose} {SR : ScittReceipts}.
Context (room : nat) (probe_pem : bytes).

Definition report : Type := list bundle_issue * list bundle_notice.
Definition none : report := ([], []).
Definition and_then (a b : report) : report := (a.1 ++ b.1, a.2 ++ b.2).
Definition fails (b : bool) (issue : bundle_issue) : report := if b then ([], []) else ([issue], []).

(** The link to the prior checkpoint, or its absence. *)
Definition check_prior (b : Bundle) (root : bytes) : result report :=
  let cp := b_checkpoint b in
  match b_prior_checkpoint b with
  | Some prior =>
      let first :=
        and_then (fails (verify_checkpoint_signature_offline prior) PriorSignatureFails)
          (and_then (fails (c_prev_size cp =? c_mmr_size prior) PrevSizeDiffers)
             (fails (json_eq (c_prev_root cp) (c_root prior)) PrevRootDiffers)) in
      match b_consistency_proof b with
      | None => Ok (and_then first ([ConsistencyMissing], []))
      | Some proof =>
          let! root_a := fromhex_of (c_root prior) in
          Ok (and_then first
            (if verify_consistency (PBytes root_a) (PInt (c_mmr_size prior)) (PBytes root) (PInt (c_mmr_size cp))
                  (Some proof)
             then ([], [HistoryIntact (c_mmr_size prior) (c_mmr_size cp)]) else ([ConsistencyFails], [])))
      end
  | None =>
      let proof_given := match b_consistency_proof b with Some _ => true | None => false end in
      Ok (and_then (fails (c_prev_size cp =? 0) PriorMissing)
            (and_then (fails (negb proof_given) ProofWithoutPrior)
               (if (c_prev_size cp =? 0) && negb proof_given then ([], [FirstCheckpoint (c_mmr_size cp)]) else none)))
  end.

(** The statement's fields are the record's, compared by [==]. *)
Definition same_fields (decoded : DecodedCheckpointCose) (cp : CheckpointRecord) : bool :=
  is_text (c_log_id cp) (d_log_id decoded) && (d_mmr_size decoded =? c_mmr_size cp)
  && is_text (c_root cp) (d_root decoded) && (d_prev_size decoded =? c_prev_size cp)
  && is_text (c_prev_root cp) (d_prev_root decoded) && is_text (c_key_id cp) (d_key_id decoded).

Definition check_cose (b : Bundle) : report :=
  match b_checkpoint_cose b with
  | None => none
  | Some cose =>
      match verify_checkpoint_cose_offline room cose with
      | None => ([CoseFails], [])
      | Some decoded =>
          if same_fields decoded (b_checkpoint b) then ([], [CoseVerified]) else ([CoseDiffers], [])
      end
  end.

(** [(trust_anchor or {}).get(ts_url)] *)
Definition anchor_of (trust_anchor : list (pystr * bytes)) (ts_url : json) : result (option bytes) :=
  match ts_url with
  | JStr url => Ok (snd <$> List.find (fun a => bool_decide (a.1 = url)) trust_anchor)
  | JList _ | JDict _ => Raise TypeError
  | _ => Ok None
  end.

(** Some stamp has this verdict. *)
Definition any_verdict (verdict : StampVerdict) (checks : list (WitnessRecord * (StampVerdict * list stamp_issue))) : bool :=
  existsb (fun c => bool_decide (c.2.1 = verdict)) checks.

Definition stamp_report (any_witnessed : bool) (c : WitnessRecord * (StampVerdict * list stamp_issue)) : report :=
  let '(w, (verdict, issues)) := c in
  match verdict with
  | WITNESSED => none
  | UNVERIFIED => ([], [StampUnverified issues])
  | INVALID =>
      if any_witnessed then ([], [StampDemoted (w_ts_url w) issues]) else ([StampInvalid (w_ts_url w) issues], [])
  end.

Definition check_stamps (b : Bundle) (trust_anchor : list (pystr * bytes)) : result report :=
  match c_witnesses (b_checkpoint b) with
  | [] => Ok none
  | witnesses =>
      let! checks :=
        map_result (fun w =>
          let! pem := anchor_of trust_anchor (w_ts_url w) in
          Ok (w, verify_witness_stamp_tristate room probe_pem (b_checkpoint b) w pem)) witnesses in
      let any_witnessed := any_verdict WITNESSED checks in
      let stamps := fold_right (fun c r => and_then (stamp_report any_witnessed c) r) none checks in
      Ok (and_then stamps
            (if negb any_witnessed && any_verdict INVALID checks then ([NoneWitnessed], []) else none))
  end.

Definition check_bundle (b : Bundle) (trust_anchor : list (pystr * bytes)) : result report :=
  let cp := b_checkpoint b in
  let! body_digest := fromhex_of (b_capsule_id b) in
  let! root := fromhex_of (c_root cp) in
  let inclusion :=
    fails (verify_inclusion (PBytes root) (PInt (c_mmr_size cp)) (PInt (b_seq b - 1)) (PBytes body_digest)
             (Some (b_inclusion_proof b))) InclusionFails in
  let signature := fails (verify_checkpoint_signature_offline cp) SignatureFails in
  let! prior := check_prior b root in
  let! stamps := check_stamps b trust_anchor in
  Ok (and_then inclusion (and_then signature (and_then prior (and_then (check_cose b) stamps)))).

(** [verify_bundle_log_integrity]; an exception keeps what was reported
    before it, of which only the verdict is kept here. *)
Definition verify_bundle_log_integrity (b : Bundle) (trust_anchor : list (pystr * bytes)) : bool * report :=
  match check_bundle b trust_anchor with
  | Raise _ => (false, ([Unexpected], []))
  | Ok report => (bool_decide (length report.1 = O), report)
  end.
End verify.
