(* ===== verification/BundleProps.v ===== *)
(** * What a bundle proves

    A bundle that verifies against the root of a log names the record at its
    position and an earlier root of the same log; a bundle made of an honest
    log verifies. *)
From stdpp Require Import sorting.
From S2P Require Import Prelude Bytes Text Py Json PyJson Sha256 MmrPos Mmr MmrSpec MmrProof MmrPath Inclusion Consistency Ed25519 Emit CoseWire Bundle CoseProps EmitProps.
Open Scope Z_scope.

Section binding.
Context {PI : Interp} {HL : Hashlib} {CB : Cbor2} {CR : Crypto} {SC : ScittCose} {SR : ScittReceipts}.
Context (room : nat) (probe_pem : bytes).

Lemma fails_nil b issue : (fails b issue).1 = [] -> b = true.
Proof. by destruct b. Qed.

Lemma and_then_nil a b : (and_then a b).1 = [] -> a.1 = [] /\ b.1 = [].
Proof. cbn. apply app_eq_nil. Qed.

(** The link to the prior checkpoint that a clean report stands for. *)
Definition linked (b : Bundle) (root : bytes) : Prop :=
  match b_prior_checkpoint b with
  | Some prior => exists root_a proof,
      verify_checkpoint_signature_offline prior = true /\ c_prev_size (b_checkpoint b) = c_mmr_size prior /\
      json_eq (c_prev_root (b_checkpoint b)) (c_root prior) = true /\
      fromhex_of (c_root prior) = Ok root_a /\ b_consistency_proof b = Some proof /\
      verify_consistency (PBytes root_a) (PInt (c_mmr_size prior)) (PBytes root) (PInt (c_mmr_size (b_checkpoint b)))
        (Some proof) = true
  | None => c_prev_size (b_checkpoint b) = 0 /\ b_consistency_proof b = None
  end.

Lemma check_prior_nil b root r : check_prior b root = Ok r -> r.1 = [] -> linked b root.
Proof.
  unfold check_prior, linked. destruct (b_prior_checkpoint b) as [prior|].
  - destruct (b_consistency_proof b) as [proof|]; [|intros [= <-] [_ ?]%and_then_nil; done].
    destruct (fromhex_of (c_root prior)) as [root_a|]; [|done].
    intros [= <-] [[H1%fails_nil [H2%fails_nil H3%fails_nil]%and_then_nil]%and_then_nil H4]%and_then_nil.
    exists root_a, proof. zbool. destruct (verify_consistency _ _ _ _ _); [|done]. by split_and!.
  - intros [= <-] [H1%fails_nil [H2%fails_nil _]%and_then_nil]%and_then_nil. zbool. split; [done|].
    by destruct (b_consistency_proof b).
Qed.

(** A statement in the bundle verifies and says what the record says. *)
Definition cose_agrees (b : Bundle) : Prop :=
  forall cose, b_checkpoint_cose b = Some cose -> exists decoded,
    verify_checkpoint_cose_offline room cose = Some decoded /\ same_fields decoded (b_checkpoint b) = true.

Lemma check_cose_nil b : (check_cose room b).1 = [] -> cose_agrees b.
Proof.
  unfold check_cose, cose_agrees. destruct (b_checkpoint_cose b) as [c|]; [|done].
  intros H cose [= <-]. destruct (verify_checkpoint_cose_offline room c) as [d|]; [|done].
  exists d. split; [done|]. by destruct (same_fields _ _).
Qed.

(** The stamps: one is witnessed under an anchored key, or none is invalid. *)
Definition stamps_pass (b : Bundle) (trust_anchor : list (pystr * bytes)) : Prop :=
  let verdict w v := exists pem, anchor_of trust_anchor (w_ts_url w) = Ok pem /\
    (verify_witness_stamp_tristate room probe_pem (b_checkpoint b) w pem).1 = v in
  (exists w, w ∈ c_witnesses (b_checkpoint b) /\ verdict w WITNESSED) \/
  (forall w, w ∈ c_witnesses (b_checkpoint b) -> verdict w UNVERIFIED).

Lemma any_verdict_false v checks : any_verdict v checks = false -> forall c, c ∈ checks -> c.2.1 <> v.
Proof.
  intros H c Hc E. unfold any_verdict in H. assert (existsb (fun c => bool_decide (c.2.1 = v)) checks = true); [|congruence].
  apply existsb_exists. exists c. split; [by apply list_elem_of_In|by apply bool_decide_eq_true].
Qed.

Lemma map_result_elem {A B} (f : A -> result B) l l' : map_result f l = Ok l' ->
  (forall x, x ∈ l -> exists y, y ∈ l' /\ f x = Ok y) /\ (forall y, y ∈ l' -> exists x, x ∈ l /\ f x = Ok y).
Proof.
  intros Hm. split.
  - intros x [i Hi]%list_elem_of_lookup. destruct (map_result_lookup _ _ _ _ _ Hm Hi) as (y & Hy & E).
    exists y. split; [by eapply list_elem_of_lookup_2|done].
  - revert l' Hm. induction l as [|a l IH]; intros l' Hm y Hy; [injection Hm as <-; by apply not_elem_of_nil in Hy|].
    apply map_result_cons_Ok in Hm as (b & bs & Hb & Hbs & ->). apply elem_of_cons in Hy as [->|Hy].
    + exists a. split; [left|done].
    + destruct (IH bs Hbs y Hy) as (x & Hx & E). exists x. split; [by right|done].
Qed.

Lemma check_stamps_nil b trust_anchor r :
  check_stamps room probe_pem b trust_anchor = Ok r -> r.1 = [] -> stamps_pass b trust_anchor.
Proof.
  unfold check_stamps, stamps_pass. destruct (c_witnesses (b_checkpoint b)) as [|w ws] eqn:Ew.
  { intros _ _. right. intros w []%elem_of_nil. }
  destruct (map_result _ _) as [checks|] eqn:Em; [|done]. intros [= <-] [_ Hr]%and_then_nil.
  apply map_result_elem in Em as [Hf Hb]. destruct (any_verdict WITNESSED checks) eqn:Ea; [left|right].
  - unfold any_verdict in Ea. apply existsb_exists in Ea as ([w' [v iss]] & Hin & Hv). zbool. cbn in Hv. subst v.
    apply list_elem_of_In in Hin. destruct (Hb _ Hin) as (x & Hx & E). destruct (anchor_of _ _) as [pem|] eqn:Ep; [|done].
    injection E as <- E. exists x. split; [done|]. exists pem. by rewrite E.
  - destruct (any_verdict INVALID checks) eqn:Ei; [done|]. intros x Hx. destruct (Hf x Hx) as (y & Hy & E).
    destruct (anchor_of _ _) as [pem|]; [|done]. injection E as <-. exists pem. split; [done|].
    pose proof (any_verdict_false _ _ Ea _ Hy) as H1. pose proof (any_verdict_false _ _ Ei _ Hy) as H2. cbn in H1, H2.
    by destruct (verify_witness_stamp_tristate _ _ _ _ _).1.
Qed.
End binding.

(** [C29] What an accepted bundle proves. If the verifier reports no failure and
    the covering checkpoint's root and size are those of a log of [bodies],
    then the bundle's record digest is the body at its position in that log,
    unless a string the verifier hashed collides with one hashed to build it;
    the checkpoint's signature verifies under its own key; the prior checkpoint
    is signed, is the one the covering checkpoint names and its root is that of
    a prefix of the same log, again up to a collision, or there is none and
    the checkpoint says it is the first; an attached statement verifies and
    carries the same fields; and some stamp is witnessed under an anchored key
    unless every stamp is merely unverified. *)
Theorem bundle_binding {PI : Interp} {HL : Hashlib} {CB : Cbor2} {CR : Crypto} {SC : ScittCose} {SR : ScittReceipts}
    (room : nat) (probe_pem : bytes) (b : Bundle) (trust_anchor : list (pystr * bytes)) (bodies : list bytes) :
  let cp := b_checkpoint b in
  Forall is_digest bodies -> c_mmr_size cp = nc (zlen bodies) ->
  fromhex_of (c_root cp) = Ok (mmr_root (map lh bodies)) ->
  (verify_bundle_log_integrity room probe_pem b trust_anchor).1 = true ->
  (exists body, fromhex_of (b_capsule_id b) = Ok body /\ 1 <= b_seq b <= zlen bodies /\
     (bodies !! Z.to_nat (b_seq b - 1) = Some body \/
      collides (mmr_preimages bodies) (inclusion_preimages (nc (zlen bodies)) (b_seq b - 1) body (b_inclusion_proof b)))) /\
  verify_checkpoint_signature_offline cp = true /\
  match b_prior_checkpoint b with
  | None => c_prev_size cp = 0 /\ b_consistency_proof b = None
  | Some prior =>
      verify_checkpoint_signature_offline prior = true /\ c_prev_size cp = c_mmr_size prior /\
      json_eq (c_prev_root cp) (c_root prior) = true /\
      exists f root_a proof, c_mmr_size prior = nc f /\ 0 <= f <= zlen bodies /\
        fromhex_of (c_root prior) = Ok root_a /\ b_consistency_proof b = Some proof /\
        (root_a = mmr_root (map lh (take (Z.to_nat f) bodies)) \/
         collides (mmr_preimages bodies) (consistency_preimages (nc f) (nc (zlen bodies)) proof))
  end /\
  cose_agrees room b /\ stamps_pass room probe_pem b trust_anchor.
Proof.
  intros cp Hb Hsize Hroot. unfold verify_bundle_log_integrity, check_bundle. fold cp. rewrite Hroot.
  destruct (fromhex_of (b_capsule_id b)) as [body|]; [|done].
  destruct (check_prior b _) as [prior|] eqn:Ep; [|done]. destruct (check_stamps _ _ b _) as [stamps|] eqn:Es; [|done].
  cbn [fst]. intros Hok. apply bool_decide_eq_true_1, nil_length_inv in Hok.
  apply and_then_nil in Hok as [Hi%fails_nil [Hsig%fails_nil [Hp [Hc Hs]%and_then_nil]%and_then_nil]%and_then_nil].
  split_and!; [|done| |by apply check_cose_nil|by eapply check_stamps_nil].
  - rewrite Hsize in Hi.
    apply (inclusion_binding_core bodies) in Hi as (i & body' & [= <-] & Hrange & [= <-] & Hbody); [|done|done].
    exists body. split_and!; [done|lia|lia|done].
  - apply (check_prior_nil _ _ _ Ep) in Hp. unfold linked in Hp. fold cp in Hp.
    destruct (b_prior_checkpoint b) as [p|]; [|done].
    destruct Hp as (root_a & proof & H1 & H2 & H3 & H4 & H5 & H6). split_and!; try done.
    rewrite Hsize in H6. apply (consistency_binding_core bodies) in H6 as (f & [= Ef] & Hf & Hr); [|done].
    exists f, root_a, proof. split_and!; try done; try lia. destruct Hr as [[= ->]|Hr]; [by left|by right].
Qed.

(** ** Building *)
Section build.
Context {PI : Interp} {HL : Hashlib} (fields : Fields) (container_repr : json -> pystr).

(** *** The record an id names *)

(** The entry's id is [record_id]. *)
Definition has_exact (record_id : pystr) (e : json) : Prop := get_or e (id_field fields) JNull = Ok (JStr record_id).

(** A content record whose id is [record_id] or, when that has eight
    characters or more, begins with it. *)
Definition candidate (record_id : pystr) (e : json) : Prop :=
  (exists kind, get_or e (kind_field fields) JNull = Ok kind /\ in_kinds fields kind = Ok false) /\
  (has_exact record_id e \/
   8 <= zlen record_id /\ exists id text,
     get_or e (id_field fields) (JStr []) = Ok id /\ py_str container_repr id = Ok text /\ record_id `prefix_of` text).

(** [record_id] names the entry at [i]: the first candidate with exactly that
    id, else the only candidate. *)
Definition named (entries : list json) (record_id : pystr) (i : Z) : Prop :=
  0 <= i /\ exists e, entries !! Z.to_nat i = Some e /\ candidate record_id e /\
    (has_exact record_id e /\
     (forall j e', 0 <= j < i -> entries !! Z.to_nat j = Some e' -> candidate record_id e' -> ~ has_exact record_id e') \/
     (forall j e', 0 <= j -> entries !! Z.to_nat j = Some e' -> candidate record_id e' -> j = i)).

Lemma is_text_eq v s : is_text v s = true <-> v = JStr s.
Proof.
  destruct v; cbn; try (split; [done|by intros [=]]). split; [intros H; zbool; by subst|intros [= ->]; by apply bool_decide_eq_true].
Qed.

Lemma starts_with_prefix s k : starts_with s k = true <-> k `prefix_of` s.
Proof.
  unfold starts_with. split; [intros H; zbool|intros [t ->]].
  - exists (drop (length k) s). rewrite <- H at 1. by rewrite take_drop.
  - by rewrite take_app_length, bool_decide_true.
Qed.

Lemma matches_candidate record_id e :
  match matches_record fields container_repr record_id e with
  | Ok b => b = true <-> candidate record_id e
  | Raise _ => True
  end.
Proof.
  unfold matches_record, candidate, has_exact. destruct (get_or e (kind_field fields) JNull) as [kind|]; [|done].
  destruct (in_kinds fields kind) as [[]|] eqn:Ek; [|..]; [split; [done|]; intros [(? & [= <-] & ?) _]; congruence| |done].
  assert (exists k, Ok kind = Ok k /\ in_kinds fields k = Ok false) as Hkind by by exists kind.
  destruct (get_or e (id_field fields) JNull) as [id|] eqn:Ei; [|done].
  destruct (is_text id record_id) eqn:Et.
  { apply is_text_eq in Et as ->. split; [|done]. intros _. split; [done|by left]. }
  assert (Ok id <> Ok (JStr record_id)) as Hne by (intros [= ->]; by rewrite (proj2 (is_text_eq _ _)) in Et).
  destruct (zlen record_id <? 8) eqn:E8; zbool.
  { split; [done|]. intros [_ [?|[? _]]]; [done|lia]. }
  destruct (get_or e (id_field fields) (JStr [])) as [id'|] eqn:Ei'; [|done].
  destruct (py_str container_repr id') as [text|] eqn:Ep; [|done]. rewrite starts_with_prefix. split.
  - intros Hp. split; [done|]. right. split; [done|]. by exists id', text.
  - intros [_ [?|(_ & ? & ? & [= <-] & ? & ?)]]; [done|]. congruence.
Qed.

Lemma indices_where_spec test (P : json -> Prop) entries i l :
  (forall e, match test e with Ok b => b = true <-> P e | Raise _ => True end) ->
  indices_where test entries i = Ok l ->
  StronglySorted Z.lt l /\ forall j, j ∈ l <-> i <= j /\ exists e, entries !! Z.to_nat (j - i) = Some e /\ P e.
Proof.
  intros HP. revert i l. induction entries as [|e entries IH]; intros i l; cbn [indices_where].
  { intros [= <-]. split; [constructor|]. intros j. split; [by intros ?%not_elem_of_nil|by intros (_ & ? & [=] & _)]. }
  specialize (HP e). destruct (test e) as [b|]; [|done]. destruct (indices_where _ _ _) as [rest|] eqn:Er; [|done].
  destruct (IH _ _ Er) as [Hs Hin]. intros [= <-].
  assert (forall j, j ∈ rest <-> i < j /\ exists e', (e :: entries) !! Z.to_nat (j - i) = Some e' /\ P e') as Hrest.
  { intros j. rewrite Hin. split; intros [Hj (e' & He & Ht)]; (split; [lia|]); exists e'; (split; [|done]);
      replace (Z.to_nat (j - i)) with (S (Z.to_nat (j - (i + 1)))) in * by lia; done. }
  split.
  - destruct b; [|done]. constructor; [done|]. apply Forall_forall. intros j Hj. apply Hrest in Hj. lia.
  - intros j. assert (j ∈ (if b then i :: rest else rest) <-> (j = i /\ b = true) \/ j ∈ rest) as ->
      by (destruct b; set_solver).
    rewrite Hrest, HP. split.
    + intros [[-> Hp]|[? ?]]; [split; [lia|]; exists e; by rewrite Z.sub_diag|by split; [lia|]].
    + intros [Hj (e' & He & Ht)]. destruct (decide (j = i)) as [->|]; [left|right; split; [lia|by exists e']].
      rewrite Z.sub_diag in He. cbn in He. by injection He as <-.
Qed.

Lemma filter_result_spec (test : Z -> result bool) (P : Z -> Prop) l l' :
  Forall (fun x => match test x with Ok b => b = true <-> P x | Raise _ => True end) l ->
  filter_result test l = Ok l' -> StronglySorted Z.lt l ->
  StronglySorted Z.lt l' /\ forall x, x ∈ l' <-> x ∈ l /\ P x.
Proof.
  intros HP. revert l'. induction HP as [|x l Hx HP IH]; intros l'; cbn [filter_result].
  { intros [= <-] _. split; [constructor|]. set_solver. }
  destruct (test x) as [b|]; [|done]. destruct (filter_result test l) as [rest|]; [|done].
  intros [= <-] [Hs Hlt]%StronglySorted_inv. destruct (IH _ eq_refl Hs) as [Hs' Hin]. split.
  - destruct b; [|done]. constructor; [done|]. rewrite Forall_forall in Hlt |- *. intros y Hy. apply Hlt. by apply Hin.
  - intros y. destruct b; rewrite ?elem_of_cons, Hin.
    + split; [intros [->|[? ?]]; tauto|intros [[->|?] ?]; tauto].
    + split; [tauto|]. intros [[->|?] Hy]; [by apply Hx in Hy|tauto].
Qed.

Lemma has_id_exact entries record_id i e :
  0 <= i -> entries !! Z.to_nat i = Some e ->
  match has_id fields entries record_id i with Ok b => b = true <-> has_exact record_id e | Raise _ => True end.
Proof.
  intros Hi He. unfold has_id, has_exact. rewrite py_index_nonneg, He by done. destruct e; try done.
  cbn [subscript get_or]. destruct (find_key _ _) as [id|]; [|done]. rewrite is_text_eq.
  split; [by intros ->|by intros [= ->]].
Qed.

Lemma find_record_named entries record_id i :
  _find_record fields container_repr entries record_id = Ok i -> named entries record_id i.
Proof.
  unfold _find_record. destruct (indices_where _ _ _) as [matches|] eqn:Em; [|done].
  apply (indices_where_spec _ (candidate record_id)) in Em as [Hs Hin]; [|apply matches_candidate].
  setoid_rewrite Z.sub_0_r in Hin. destruct matches as [|first others] eqn:Eml; [done|]. rewrite <- Eml in *.
  destruct (filter_result _ _) as [exact|] eqn:Ef; [|done].
  apply (filter_result_spec _ (fun j => exists e, entries !! Z.to_nat j = Some e /\ has_exact record_id e)) in Ef
    as [Hse Hex]; [|apply Forall_forall; intros j [Hj (e & He & _)]%Hin|done].
  2: { pose proof (has_id_exact entries record_id j e Hj He) as Hid. destruct (has_id _ _ _ _); [|done]. rewrite Hid.
       split; [by exists e|]. intros (e' & He' & ?). congruence. }
  assert (first ∈ matches) as Hfirst by (rewrite Eml; left). destruct exact as [|k exact].
  - destruct others as [|]; [|done]. intros [= <-]. apply Hin in Hfirst as [Hf (e & He & Hc)].
    split; [done|]. exists e. split_and!; [done|done|right]. intros j e' Hj He' Hc'.
    assert (j ∈ matches) as Hjm by (apply Hin; eauto). rewrite Eml in Hjm. by apply list_elem_of_singleton in Hjm.
  - intros [= <-]. assert (k ∈ k :: exact) as [Hk (e & He & Hx)]%Hex by left.
    apply Hin in Hk as [Hk (e0 & He0 & Hc)]. rewrite He in He0. injection He0 as <-.
    split; [done|]. exists e. split_and!; [done|done|left]. split; [done|]. intros j e' Hj He' Hc' Hx'.
    assert (j ∈ k :: exact) as Hje by (apply Hex; split; [apply Hin; split; [lia|]|]; eauto).
    apply StronglySorted_inv in Hse as [_ Hlt]. rewrite Forall_forall in Hlt.
    apply elem_of_cons in Hje as [->|Hje]; [lia|]. specialize (Hlt j Hje). lia.
Qed.

(** The record digests of entries. *)
Definition digests_of (entries : list json) : result (list bytes) :=
  map_result (fun e => let! id := subscript e (id_field fields) in fromhex_of id) entries.

Lemma fold_entries_spec store leaves entries store' :
  represents (ns_view store) leaves -> fold_entries fields store entries = Ok store' ->
  exists bodies, digests_of entries = Ok bodies /\ Forall is_digest bodies /\
    represents (ns_view store') (leaves ++ map lh bodies).
Proof.
  revert store leaves. induction entries as [|e entries IH]; intros store leaves Hrep; cbn [fold_entries].
  { intros [= <-]. exists []. by rewrite app_nil_r. }
  unfold digests_of. cbn [map_result]. destruct (subscript e _) as [id|]; [|done].
  destruct (fromhex_of id) as [body|]; [|done]. destruct (leaf_hash body) as [leaf|] eqn:El; [|done].
  unfold leaf_hash in El. rewrite assert_digest_bytes in El. destruct (decide (is_digest body)) as [Hd|]; [|done].
  injection El as <-. destruct (add_leaf store _) as [added|] eqn:Ea; [|done].
  destruct (add_leaf_Ok_represents store leaves _ _ Hrep (lh_digest body) Ea) as [Hrep' _].
  intros Hf. destruct (IH added.2 (leaves ++ [lh body]) Hrep' Hf) as (bodies & Hb & Hds & Hr).
  exists (body :: bodies). unfold digests_of in Hb. rewrite Hb. split_and!; [done|by constructor|].
  by rewrite <- app_assoc in Hr.
Qed.

Lemma next_where_test {A} (test : A -> result bool) l x : next_where test l = Ok (Some x) -> x ∈ l /\ test x = Ok true.
Proof.
  induction l as [|y l IH]; cbn [next_where]; [done|]. destruct (test y) as [[]|] eqn:E; [| |done].
  - intros [= <-]. split; [left|done].
  - intros H. destruct (IH H) as [Hx Ht]. split; [by right|done].
Qed.

Lemma prior_of_size checkpoints covering prior :
  prior_of checkpoints covering = Ok prior ->
  match prior with
  | Some p => c_mmr_size p = c_prev_size covering /\ 0 < c_prev_size covering
  | None => c_prev_size covering <= 0
  end.
Proof.
  unfold prior_of. destruct (0 <? c_prev_size covering) eqn:E; zbool; [|by intros [= <-]].
  destruct (next_where _ _) as [[p|]|] eqn:En; [|done|done]. intros [= <-].
  apply next_where_test in En as [_ [= En]]. by zbool.
Qed.
End build.

Section complete.
Context {PI : Interp} {HL : Hashlib} (fields : Fields) (container_repr : json -> pystr).

(** What a bundle is made of. *)
Record built (entries : list json) (record_id : pystr) (b : Bundle) (bodies : list bytes) (store : MemoryNodeStore) : Prop := {
  bt_bodies : digests_of fields (take (length bodies) entries) = Ok bodies;
  bt_digests : Forall is_digest bodies;
  bt_store : represents (ns_view store) (map lh bodies);
  bt_size : c_mmr_size (b_checkpoint b) = nc (zlen bodies);
  bt_max : nc (zlen bodies) < MAX_MMR_SIZE;
  bt_seq : 1 <= b_seq b <= zlen bodies;
  bt_named : named fields container_repr entries record_id (b_seq b - 1);
  bt_target : exists target, entries !! Z.to_nat (b_seq b - 1) = Some target /\
    subscript target (id_field fields) = Ok (b_capsule_id b);
  bt_id : exists body, fromhex_of (b_capsule_id b) = Ok body /\ bodies !! Z.to_nat (b_seq b - 1) = Some body;
  bt_inclusion : MmrProof.inclusion_proof store (b_seq b - 1) (nc (zlen bodies)) = Ok (b_inclusion_proof b);
  bt_prior : match b_prior_checkpoint b with
    | Some p => c_mmr_size p = c_prev_size (b_checkpoint b) /\
        exists proof, b_consistency_proof b = Some proof /\
          MmrProof.consistency_proof store (c_mmr_size p) (nc (zlen bodies)) = Ok proof
    | None => c_prev_size (b_checkpoint b) <= 0 /\ b_consistency_proof b = None
    end
}.

Lemma bundle_built entries record_id b :
  bundle fields container_repr entries record_id = Ok b -> exists bodies store, built entries record_id b bodies store.
Proof.
  unfold bundle. destruct (bool_decide (entries = [])); [done|].
  destruct (_find_record _ _ entries record_id) as [idx|] eqn:Ef; [|done]. apply find_record_named in Ef. pose proof (proj1 Ef) as Hidx.
  destruct (filter_result _ entries) as [stamps|]; [|done]. destruct (map_result _ stamps) as [checkpoints|]; [|done].
  destruct (next_where _ checkpoints) as [[covering|]|] eqn:Ecov; [|done|done].
  apply next_where_test in Ecov as [_ Ecov]. destruct (leaf_count (c_mmr_size covering)) as [n|] eqn:El; [|done].
  injection Ecov as Hn. zbool. apply leaf_count_Ok_inv in El as (Hn0 & Hsize & Hmax).
  destruct (cose_of_size _ _ _ _) as [cose|]; [|done].
  destruct (prior_of checkpoints covering) as [prior|] eqn:Ep; [|done]. apply prior_of_size in Ep.
  destruct (fold_entries _ _ _) as [store|] eqn:Efold; [|done].
  destruct (fold_entries_spec fields MemoryNodeStore.__init__ [] _ store represents_nil Efold) as (bodies & Hb & Hd & Hrep).
  cbn [app] in Hrep. destruct (MemoryNodeStore.size store =? c_mmr_size covering) eqn:Es; [|done]. cbn [negb]. zbool.
  assert (zlen bodies = n) as Hlen.
  { apply nc_inj; [apply zlen_nonneg|done|]. rewrite <- Hsize, <- Es. change (MemoryNodeStore.size store) with (zlen (ns_view store)).
    by rewrite (rep_size _ _ Hrep), zlen_map. }
  destruct (MmrProof.inclusion_proof _ _ _) as [inclusion|] eqn:Ei; [|done].
  destruct (match prior with Some _ => _ | None => Ok None end) as [consistency|] eqn:Ec; [|done].
  destruct (py_index entries idx) as [target|] eqn:Et; [|done].
  destruct (subscript target _) as [capsule_id|] eqn:Eid; [|done]. destruct (fromhex_if cose); [|done]. intros [= <-].
  assert (Z.to_nat n = length bodies) as Hnat by (unfold zlen in Hlen; lia).
  exists bodies, store. split; cbn [b_checkpoint b_seq b_capsule_id b_inclusion_proof b_prior_checkpoint b_consistency_proof].
  - by rewrite <- Hnat.
  - done.
  - done.
  - congruence.
  - rewrite Hlen. lia.
  - lia.
  - by replace (idx + 1 - 1) with idx by lia.
  - replace (idx + 1 - 1) with idx by lia. rewrite py_index_nonneg in Et by lia.
    destruct (entries !! Z.to_nat idx) as [e|]; [|done]. injection Et as ->. by exists target.
  - replace (idx + 1 - 1) with idx by lia. rewrite py_index_nonneg in Et by lia.
    destruct (entries !! Z.to_nat idx) as [e|] eqn:Ee; [|done]. injection Et as ->.
    assert (take (Z.to_nat n) entries !! Z.to_nat idx = Some target) as Htake by (rewrite lookup_take_lt; [done|lia]).
    destruct (map_result_lookup _ _ _ _ _ Hb Htake) as (body & Hbody & E). rewrite Eid in E. by exists body.
  - rewrite Hlen, <- Hsize. done.
  - destruct prior as [p|].
    + destruct Ep as [Hp _]. split; [done|]. destruct (MmrProof.consistency_proof _ _ _) as [proof|] eqn:Epr; [|done].
      injection Ec as <-. exists proof. split; [done|]. by rewrite Hlen, <- Hsize.
    + injection Ec as <-. done.
Qed.
End complete.

Lemma consistency_proof_size {St} {NS : NodeStore St} {NSL : NodeStoreLaws St} (st : St) a b p :
  MmrProof.consistency_proof st a b = Ok p -> exists f, 0 <= f /\ a = nc f /\ a <= b.
Proof.
  unfold MmrProof.consistency_proof. destruct (a <? 0); [done|]. destruct (b <? a) eqn:E; [done|]. zbool.
  destruct (_ <? b); [done|]. destruct (peaks a) eqn:Ep; [|done]. intros _.
  apply peaks_Ok_inv in Ep as (f & Hf & -> & _). by exists f.
Qed.

Lemma nc_le_inv f g : 0 <= f -> 0 <= g -> nc f <= nc g -> f <= g.
Proof. intros Hf Hg Hle. destruct (Z.le_gt_cases f g); [done|]. pose proof (nc_lt g f). lia. Qed.

(** [C30] A bundle made of an honest log verifies. When [bundle] returns, it is
    of the record that was asked for: the first content record with exactly
    that id or, if there is none, the only one whose id begins with it; its
    sequence number is that record's place, and the covering checkpoint
    commits to the digests of a prefix of the log that holds it. And if that
    checkpoint and the prior one carry the roots of those digests at their
    sizes, are signed and linked, and the covering one carries no witness
    stamp and comes without a COSE statement (nothing is said of bundles that
    do), then the verifier accepts the bundle. *)
Theorem bundle_complete {PI : Interp} {HL : Hashlib} {CB : Cbor2} {CR : Crypto} {SC : ScittCose} {SR : ScittReceipts}
    (room : nat) (probe_pem : bytes) (fields : Fields) (container_repr : json -> pystr)
    (entries : list json) (record_id : pystr) (b : Bundle) (trust_anchor : list (pystr * bytes)) :
  bundle fields container_repr entries record_id = Ok b ->
  named fields container_repr entries record_id (b_seq b - 1) /\
  (exists target, entries !! Z.to_nat (b_seq b - 1) = Some target /\
     subscript target (id_field fields) = Ok (b_capsule_id b)) /\
  exists bodies, digests_of fields (take (length bodies) entries) = Ok bodies /\
    c_mmr_size (b_checkpoint b) = nc (zlen bodies) /\ 1 <= b_seq b <= zlen bodies /\
    (exists body, fromhex_of (b_capsule_id b) = Ok body /\ bodies !! Z.to_nat (b_seq b - 1) = Some body) /\
    (fromhex_of (c_root (b_checkpoint b)) = Ok (mmr_root (map lh bodies)) ->
     verify_checkpoint_signature_offline (b_checkpoint b) = true ->
     match b_prior_checkpoint b with
     | Some p => verify_checkpoint_signature_offline p = true /\
         json_eq (c_prev_root (b_checkpoint b)) (c_root p) = true /\
         forall f, 0 <= f -> c_mmr_size p = nc f ->
           fromhex_of (c_root p) = Ok (mmr_root (map lh (take (Z.to_nat f) bodies)))
     | None => c_prev_size (b_checkpoint b) = 0
     end ->
     b_checkpoint_cose b = None -> c_witnesses (b_checkpoint b) = [] ->
     (verify_bundle_log_integrity room probe_pem b trust_anchor).1 = true).
Proof.
  intros Hb. apply bundle_built in Hb as (bodies & store & [Hds Hdig Hrep Hsize Hmax Hseq Hnamed Htarget (body & Hbody & Hat) Hincl Hprior]).
  split; [done|]. split; [done|]. exists bodies. split_and!; try done; try lia; [by exists body|]. intros Hroot Hsig Hlink Hcose Hwit.
  unfold verify_bundle_log_integrity, check_bundle, check_stamps, check_cose.
  rewrite Hbody, Hroot, Hwit, Hcose, Hsig, Hsize.
  assert (leaf_at (map lh bodies) (b_seq b - 1) = lh body) as Hleaf
    by (unfold leaf_at; by rewrite list_lookup_fmap, Hat).
  destruct (inclusion_complete_core store (map lh bodies) (zlen bodies) (b_seq b - 1) body) as (proof & Ep & Hv);
    [done|lia|rewrite zlen_map; lia|done|by eapply Forall_lookup_1|done|].
  rewrite Hincl in Ep. injection Ep as <-. rewrite <- (zlen_map lh bodies), prefix_leaves_all, zlen_map in Hv.
  rewrite Hv. unfold check_prior. destruct (b_prior_checkpoint b) as [p|].
  - destruct Hprior as (Hp & proof & -> & Ec). destruct Hlink as (Hs & Hj & Hr).
    apply consistency_proof_size in Ec as Hf. destruct Hf as (f & Hf & Ef & Hle). rewrite Ef in Hle, Ec.
    rewrite (Hr f Hf Ef), Hs, Hj, Hp, Z.eqb_refl, <- Hp, Ef.
    assert (f <= zlen bodies) as Hfn by (apply nc_le_inv; [done|apply zlen_nonneg|done]).
    destruct (consistency_complete_core store (map lh bodies) f (zlen bodies)) as (proof' & Ec' & Hvc);
      [done|lia|rewrite zlen_map; lia|done|].
    rewrite Ec in Ec'. injection Ec' as <-. rewrite <- (zlen_map lh bodies), prefix_leaves_all, zlen_map in Hvc.
    unfold prefix_leaves in Hvc. rewrite firstn_map in Hvc. rewrite Hsize, Hvc. done.
  - destruct Hprior as [_ ->]. by rewrite Hlink.
Qed.

(** ** A bundle of a five-record log

    The records of [Demo] with a checkpoint stamp after them: the bundle of
    the third record, and the theorems of [BundleProps] on it. *)
Module DemoBundle.
#[export] Existing Instance Sha256.hashlib.
#[export] Existing Instance plain_interp.

Definition checkpoint : CheckpointRecord :=
  {| c_v := 1; c_kind := JStr (str "mmr_checkpoint"); c_log_id := JStr DemoEmit.log; c_mmr_size := 8;
     c_root := JStr (hex (mmr_root Demo.leaves)); c_prev_size := 0; c_prev_root := JStr [];
     c_key_id := JStr (hex DemoCose.kid); c_timestamp := JStr DemoEmit.time;
     c_signature := JStr (hex DemoCose.signature); c_witnesses := [] |}.

Definition record (body : bytes) : json := JDict [(str "kind", JStr (str "capsule")); (str "capsule_id", JStr (hex body))].
Definition stamp : json :=
  JDict [(str "kind", JStr (str "checkpoint_stamp")); (str "checkpoint", CheckpointRecord.to_dict checkpoint)].
Definition entries : list json := Eval vm_compute in map record Demo.bodies ++ [stamp].
Definition third : pystr := Eval vm_compute in hex (be_bytes 32 30).

Definition built : Bundle := Eval vm_compute in
  match bundle default_fields (fun _ => []) entries third with
  | Ok b => b
  | Raise _ => Build_Bundle 0 JNull 0 JNull (Build_InclusionProof PNone PNone PNone PNone PNone PNone PNone)
                 checkpoint None None None
  end.
End DemoBundle.

Lemma bundle_complete_witness :
  let HL := Sha256.hashlib in let PI := plain_interp in
  bundle default_fields (fun _ => []) DemoBundle.entries DemoBundle.third = Ok DemoBundle.built /\
  named default_fields (fun _ => []) DemoBundle.entries DemoBundle.third 2 /\
  exists bodies, digests_of default_fields (take (length bodies) DemoBundle.entries) = Ok bodies /\
    c_mmr_size (b_checkpoint DemoBundle.built) = nc (zlen bodies).
Proof.
  intros HL PI.
  assert (bundle default_fields (fun _ => []) DemoBundle.entries DemoBundle.third = Ok DemoBundle.built) as E
    by (vm_compute; reflexivity).
  split; [exact E|].
  destruct (bundle_complete (CB := DemoCose.cbor2) (CR := DemoEmit.crypto) (SC := DemoCose.scitt) (SR := DemoEmit.receipts)
    2 [] default_fields (fun _ => []) DemoBundle.entries DemoBundle.third DemoBundle.built [] E)
    as (H0 & _ & bodies & H1 & H2 & _).
  split; [exact H0|]. exists bodies. split; [exact H1|exact H2].
Defined.

Lemma bundle_binding_witness :
  let HL := Sha256.hashlib in let PI := plain_interp in let CB := DemoCose.cbor2 in
  let CR := DemoEmit.crypto in let SC := DemoCose.scitt in let SR := DemoEmit.receipts in
  exists body, fromhex_of (b_capsule_id DemoBundle.built) = Ok body /\
    (Demo.bodies !! 2%nat = Some body \/
     collides (mmr_preimages Demo.bodies)
       (inclusion_preimages (nc 5) 2 body (b_inclusion_proof DemoBundle.built))).
Proof.
  intros HL PI CB CR SC SR.
  destruct (bundle_binding 2 [] DemoBundle.built [] Demo.bodies) as [(body & H1 & _ & H2) _].
  - apply Demo.bodies_digest.
  - vm_compute. reflexivity.
  - vm_compute. reflexivity.
  - vm_compute. reflexivity.
  - exists body. split; [exact H1|exact H2].
Defined.
