(* ===== verification/Wire.v ===== *)
(** * Portable encodings of entries, witness rows and states

    The JSON objects of [src/python/log/wire.py]: counters as decimal
    strings, bytes as base64, times as [toISOString] text, absent optional
    values as absent fields. Encoders take validated values, decoders return
    unchecked ones: the width and range rules belong to the engine. *)
From S2P Require Import Prelude Bytes Text Py Cll Json Calendar Base64 MmrPos Engine EngineValid EngineProps EngineSteps JsonProps.
Open Scope Z_scope.

(** ** Scalars *)
Definition format_decimal (value : Z) : pystr := str_int value.

(** [0|[1-9][0-9]*], at most 20 characters, below 2^64. *)
Definition parse_decimal (text : option pystr) (error : exn) : result Z :=
  match text with
  | None => Raise error
  | Some s =>
      if (20 <? zlen s) || negb (forallb is_digit s && negb (bool_decide (s = []))
                                 && (negb (bool_decide (s !! 0%nat = Some 48)) || (zlen s =? 1)))
      then Raise error
      else
        let value := dec_value s in
        if 2 ^ 64 <=? value then Raise error else Ok value
  end.

(** ** Objects *)
Definition dict : Type := list (pystr * json).

Definition as_object (v : json) (error : exn) : result dict :=
  match v with JDict d => Ok d | _ => Raise error end.

Fixpoint lookup (d : dict) (key : pystr) : option json :=
  match d with
  | [] => None
  | (k, v) :: d => if bool_decide (k = key) then Some v else lookup d key
  end.

(** [wire.get(key)]: absent and [null] are both [None]. *)
Definition get (d : dict) (key : string) : option json :=
  match lookup d (str key) with
  | Some JNull => None
  | o => o
  end.

Definition _required (d : dict) (key : string) (error : exn) : result json :=
  match lookup d (str key) with Some v => Ok v | None => Raise error end.

Definition as_text (v : json) : option pystr := match v with JStr s => Some s | _ => None end.
Definition as_integer (v : json) : option Z := match v with JInt n => Some n | _ => None end.
Definition as_array (v : json) : option (list json) := match v with JList l => Some l | _ => None end.
Definition as_boolean (v : json) : option bool := match v with JBool b => Some b | _ => None end.

Definition need {A} (o : option A) (error : exn) : result A :=
  match o with Some a => Ok a | None => Raise error end.

Definition _string (v : json) (error : exn) : result pystr := need (as_text v) error.
Definition _integer (v : json) (error : exn) : result Z := need (as_integer v) error.

(** An optional field, decoded when it is present and not [null]. *)
Definition get_with {A} (d : dict) (key : string) (decode : json -> result A) : result (option A) :=
  match get d key with
  | None => Ok None
  | Some v => let! a := decode v in Ok (Some a)
  end.

Definition decimal_field (d : dict) (key : string) (error : exn) : result Z :=
  let! v := _required d key error in parse_decimal (as_text v) error.
Definition bytes_field (d : dict) (key : string) (error : exn) : result bytes :=
  let! v := _required d key error in decode_bytes (as_text v) error.
Definition time_field (d : dict) (key : string) (error : exn) : result instant :=
  let! v := _required d key error in parse_time (as_text v) error.

(** ** Entries *)
Definition entry_to_wire (entry : Entry) : result json :=
  let! appended_at := format_time (utc_datetime (e_appended_at entry)) in
  Ok (JDict [(str "seq", JStr (format_decimal (e_seq entry)));
             (str "value", JStr (encode_bytes (e_value entry)));
             (str "appendedAt", JStr appended_at)]).

Definition entry_from_wire (wire : json) (error : exn) : result Arg.Entry :=
  let! wire := as_object wire error in
  let! seq := decimal_field wire "seq" error in
  let! value := bytes_field wire "value" error in
  let! appended_at := time_field wire "appendedAt" error in
  Ok {| Arg.seq := seq; Arg.entry_value := PBytes value; Arg.entry_appended_at := utc_datetime appended_at |}.

(** ** Witness rows *)

(** The field of an optional value: nothing when it is absent. *)
Definition field {A} (key : string) (encode : A -> json) (o : option A) : dict :=
  match o with Some a => [(str key, encode a)] | None => [] end.

Definition receipt_fields (r : WitnessReceipt) : dict :=
  [(str "receipt", JStr (encode_bytes (wr_bytes r)))]
  ++ field "entryHash" JStr (wr_entry_hash r) ++ field "entryHashScheme" JStr (wr_entry_hash_scheme r)
  ++ field "leafIndex" JInt (wr_leaf_index r) ++ field "treeSize" JInt (wr_tree_size r).

Definition witness_to_wire (value : WitnessState) : result json :=
  let! next_attempt_at := format_time (utc_datetime (ws_next_attempt_at value)) in
  Ok (JDict ([(str "witnessId", JStr (ws_witness_id value));
              (str "checkpointSize", JStr (format_decimal (ws_checkpoint_size value)));
              (str "checkpoint", JStr (encode_bytes (ws_checkpoint value)));
              (str "attempts", JInt (ws_attempts value));
              (str "nextAttemptAt", JStr next_attempt_at)]
             ++ match ws_receipt value with Some r => receipt_fields r | None => [] end
             ++ [(str "permanent", JBool (ws_permanent value))]
             ++ field "lastError" JStr (ws_last_error value))).

(** Receipt bytes with their metadata, or neither. *)
Definition receipt_from_wire (wire : dict) (error : exn) : result (arg Arg.WitnessReceipt) :=
  match get wire "receipt" with
  | Some receipt =>
      let! entry_hash := get_with wire "entryHash" (fun v => _string v error) in
      let! entry_hash_scheme := get_with wire "entryHashScheme" (fun v => _string v error) in
      let! leaf_index := get_with wire "leafIndex" (fun v => _integer v error) in
      let! tree_size := get_with wire "treeSize" (fun v => _integer v error) in
      let! bytes_ := decode_bytes (as_text receipt) error in
      Ok (Inst {| Arg.receipt_bytes := PBytes bytes_; Arg.entry_hash := none_or PStr entry_hash;
                  Arg.entry_hash_scheme := none_or PStr entry_hash_scheme;
                  Arg.leaf_index := none_or PInt leaf_index; Arg.tree_size := none_or PInt tree_size |})
  | None =>
      match get wire "entryHash", get wire "entryHashScheme", get wire "leafIndex", get wire "treeSize" with
      | None, None, None, None => Ok (Other PNone)
      | _, _, _, _ => Raise error
      end
  end.

Definition witness_from_wire (wire : json) (error : exn) : result Arg.WitnessState :=
  let! wire := as_object wire error in
  let! v := _required wire "attempts" error in
  let! attempts := _integer v error in
  check! (0 <=? attempts) && (attempts <=? MAX_ATTEMPTS) else error in
  let! v := _required wire "permanent" error in
  let! permanent := need (as_boolean v) error in
  let! last_error := get_with wire "lastError" (fun v => _string v error) in
  let! receipt := receipt_from_wire wire error in
  let! v := _required wire "witnessId" error in
  let! witness_id := _string v error in
  let! checkpoint_size := decimal_field wire "checkpointSize" error in
  let! checkpoint := bytes_field wire "checkpoint" error in
  let! next_attempt_at := time_field wire "nextAttemptAt" error in
  Ok {| Arg.witness_id := PStr witness_id; Arg.checkpoint_size := PInt checkpoint_size;
        Arg.checkpoint := PBytes checkpoint; Arg.attempts := PInt attempts;
        Arg.next_attempt_at := utc_datetime next_attempt_at; Arg.receipt := receipt;
        Arg.permanent := PBool permanent; Arg.last_error := none_or PStr last_error |}.

(** ** States *)
Definition checkpoint_fields (c : CheckpointState) : dict :=
  [(str "checkpoint", JStr (encode_bytes (ck_bytes c)));
   (str "checkpointSize", JStr (format_decimal (ck_size c)));
   (str "checkpointIndexedSeq", JStr (format_decimal (ck_indexed_seq c)));
   (str "checkpointPeaks", JList (map (fun p => JStr (encode_bytes p)) (ck_peaks c)))].

Definition state_to_wire (value : CllState) : result json :=
  let! first_pending_at :=
    match cs_first_pending_at value with
    | None => Ok []
    | Some t => let! s := format_time (utc_datetime t) in Ok [(str "firstPendingAt", JStr s)]
    end in
  let! witnesses := map_result witness_to_wire (cs_witnesses value) in
  Ok (JDict ([(str "size", JStr (format_decimal (cs_size value)));
              (str "indexedSeq", JStr (format_decimal (cs_indexed_seq value)));
              (str "nodes", JList (map (fun n => JStr (encode_bytes n)) (cs_nodes value)))]
             ++ first_pending_at
             ++ match cs_checkpoint value with Some c => checkpoint_fields c | None => [] end
             ++ [(str "witnesses", JList witnesses)])).

(** All four checkpoint fields, or none of them. *)
Definition checkpoint_from_wire (wire : dict) (error : exn) : result (arg Arg.CheckpointState) :=
  match get wire "checkpoint", get wire "checkpointSize", get wire "checkpointIndexedSeq",
        get wire "checkpointPeaks" with
  | Some checkpoint, Some size, Some indexed_seq, Some peaks =>
      let! peaks := need (as_array peaks) error in
      let! bytes_ := decode_bytes (as_text checkpoint) error in
      let! size := parse_decimal (as_text size) error in
      let! indexed_seq := parse_decimal (as_text indexed_seq) error in
      let! peaks := map_result (fun peak => decode_bytes (as_text peak) error) peaks in
      Ok (Inst {| Arg.bytes_ := PBytes bytes_; Arg.size := PInt size; Arg.indexed_seq := PInt indexed_seq;
                  Arg.peaks := Some (map PBytes peaks) |})
  | None, None, None, None => Ok (Other PNone)
  | _, _, _, _ => Raise error
  end.

Definition state_from_wire (wire : json) (error : exn) : result Arg.CllState :=
  let! wire := as_object wire error in
  let! nodes := _required wire "nodes" error in
  let! witnesses := _required wire "witnesses" error in
  let! nodes := need (as_array nodes) error in
  let! witnesses := need (as_array witnesses) error in
  let! checkpoint := checkpoint_from_wire wire error in
  let! size := decimal_field wire "size" error in
  let! indexed_seq := decimal_field wire "indexedSeq" error in
  let! nodes := map_result (fun node => decode_bytes (as_text node) error) nodes in
  let! first_pending_at := get_with wire "firstPendingAt" (fun v => parse_time (as_text v) error) in
  let! witnesses := map_result (fun row => witness_from_wire row error) witnesses in
  Ok {| Arg.state_size := PInt size; Arg.nodes := Some (map PBytes nodes);
        Arg.state_indexed_seq := PInt indexed_seq;
        Arg.first_pending_at := none_or utc_datetime first_pending_at;
        Arg.state_checkpoint := checkpoint; Arg.witnesses := Some (map Inst witnesses) |}.

(** ** [dumps]: compact UTF-8 JSON *)
Definition wire_dumps (value : json) : result bytes :=
  let! text := dumps value in
  match utf8_encode text with Some bs => Ok bs | None => Raise UnicodeError end.

(** [json.loads(line.decode("utf-8"))] *)
Definition wire_loads (line : bytes) : result json :=
  match utf8_decode line with
  | Some text => loads text
  | None => Raise UnicodeError
  end.

(** ** Round trips of the portable encodings

    Only canonical text decodes, every valid value survives encoding and
    decoding, and what is encoded is JSON that can be written on one line. *)
#[local] Arguments encode_bytes : simpl never.
#[local] Arguments decode_bytes : simpl never.
#[local] Arguments format_decimal : simpl never.
#[local] Arguments parse_decimal : simpl never.
#[local] Arguments parse_time : simpl never.
#[local] Arguments iso : simpl never.

(** ** Decimal counters *)
Lemma dec_value_lower c s :
  is_digit c = true -> c <> 48 -> Forall (fun c => is_digit c = true) s -> 10 ^ zlen s <= dec_value (c :: s).
Proof.
  intros Hc Hne Hs. change (c :: s) with ([c] ++ s). rewrite dec_value_app. apply digit_range in Hc.
  pose proof (dec_value_range s Hs). unfold dec_value at 1. cbn [fold_left].
  assert (0 < 10 ^ zlen s) by (apply Z.pow_pos_nonneg; [lia|apply zlen_nonneg]). nia.
Qed.

Lemma str_nat_dec_value s :
  Forall (fun c => is_digit c = true) s -> s <> [] -> (s !! 0%nat = Some 48 -> s = [48]) ->
  str_nat (dec_value s) = s.
Proof.
  intros Hs Hne Hz. destruct s as [|c s]; [done|]. pose proof (dec_value_range _ Hs) as Hr.
  pose proof (str_nat_digits (dec_value (c :: s)) ltac:(lia)) as Hd.
  pose proof (str_nat_value (dec_value (c :: s)) ltac:(lia)) as Hv.
  destruct (decide (c = 48)) as [->|Hc48]; [by rewrite Hz|].
  apply digits_inj; try done. apply Forall_cons in Hs as [Hc Hs].
  pose proof (str_nat_length (dec_value (c :: s)) (length (c :: s)) ltac:(unfold zlen in Hr; lia)) as Hle.
  pose proof (dec_value_lower c s Hc Hc48 Hs) as Hlow. pose proof (dec_value_range _ Hd) as Hr'. rewrite Hv in Hr'.
  assert (zlen s < zlen (str_nat (dec_value (c :: s)))) as Hlt.
  { apply (Z.pow_lt_mono_r_iff 10); [lia|apply zlen_nonneg|lia]. }
  unfold zlen in Hlt. cbn [length] in *. lia.
Qed.

Lemma parse_decimal_format n error :
  0 <= n < 2 ^ 64 -> parse_decimal (Some (format_decimal n)) error = Ok n.
Proof.
  intros Hn. unfold parse_decimal, format_decimal, str_int. rw_bool (n <? 0) false.
  pose proof (str_nat_length n 20 ltac:(lia)) as Hl. unfold zlen. rw_bool (20 <? Z.of_nat (length (str_nat n))) false.
  pose proof (str_nat_digits n ltac:(lia)) as Hd. destruct (str_nat_head n ltac:(lia)) as (c & r & E & Hc & H48).
  assert (forallb is_digit (str_nat n) = true) as ->.
  { apply forallb_forall. intros x Hx. rewrite Forall_forall in Hd. by apply Hd, list_elem_of_In. }
  rewrite str_nat_value by lia. rewrite bool_decide_false by (rewrite E; done).
  rw_bool (2 ^ 64 <=? n) false. cbn [orb negb andb].
  assert (negb (bool_decide (str_nat n !! 0%nat = Some 48)) || (Z.of_nat (length (str_nat n)) =? 1) = true) as ->; [|done].
  rewrite E. case_bool_decide as Hb; [|done]. cbn in Hb. injection Hb as ->. by destruct (H48 eq_refl) as [_ ->].
Qed.

Lemma parse_decimal_inv s error n :
  parse_decimal (Some s) error = Ok n -> 0 <= n < 2 ^ 64 /\ s = format_decimal n.
Proof.
  unfold parse_decimal. destruct (_ || _) eqn:E; [done|]. destruct (2 ^ 64 <=? dec_value s) eqn:E2; [done|].
  intros [= <-]. zbool. assert (Forall (fun c => is_digit c = true) s) as Hd.
  { apply Forall_forall. intros c Hc. apply (proj1 (forallb_forall is_digit s)); [done|by apply list_elem_of_In]. }
  pose proof (dec_value_range s Hd) as Hr. split; [lia|]. unfold format_decimal, str_int.
  rw_bool (dec_value s <? 0) false. symmetry. apply str_nat_dec_value; [done|done|].
  intros Hz. apply orb_prop in H1 as [H1|H1]; zbool; [congruence|]. destruct s as [|c [|d s]]; [done|cbn in Hz; congruence|].
  unfold zlen in H1. cbn [length] in H1. lia.
Qed.

Lemma parse_decimal_raise s error e : parse_decimal s error = Raise e -> e = error.
Proof. unfold parse_decimal. destruct s; [|congruence]. repeat case_match; congruence. Qed.

(** The scalar encodings are canonical: a text decodes to a counter, to
    bytes or to an instant exactly when it is the encoding of that value, so
    encoding and decoding are inverse and no value has two encodings. *)
Theorem scalar_encodings_canonical (s : pystr) (error : exn) :
  (forall n, parse_decimal (Some s) error = Ok n <-> 0 <= n < 2 ^ 64 /\ s = format_decimal n) /\
  (forall bs, decode_bytes (Some s) error = Ok bs <-> s = encode_bytes bs) /\
  (forall t, parse_time (Some s) error = Ok t <-> is_instant t /\ format_time (utc_datetime t) = Ok s).
Proof.
  split_and!.
  - intros n. split; [apply parse_decimal_inv|]. intros [Hn ->]. by apply parse_decimal_format.
  - intros bs. apply decode_bytes_Ok.
  - intros t. unfold format_time. split.
    + intros H. apply parse_time_inv in H as (text & [= <-] & -> & Ht). by rewrite normalize_utc.
    + intros [Ht H]. rewrite normalize_utc in H by done. injection H as <-. by apply parse_iso.
Qed.

(** ** Fields *)
Lemma lookup_app d k key : lookup (d ++ k) key = match lookup d key with Some v => Some v | None => lookup k key end.
Proof. induction d as [|[x v] d IH]; [done|]. cbn. by destruct (bool_decide _). Qed.

Lemma lookup_field {A} name (encode : A -> json) o key :
  lookup (field name encode o) key = if bool_decide (str name = key) then option_map encode o else None.
Proof. destruct o; cbn; by case_bool_decide. Qed.

(** Evaluate the comparisons of literal keys. *)
Ltac eval_keys :=
  repeat match goal with
  | |- context [bool_decide (str ?a = str ?b)] =>
      let v := eval vm_compute in (bool_decide (str a = str b)) in
      change (bool_decide (str a = str b)) with v; cbv iota
  end.

Ltac find_keys :=
  unfold decimal_field, bytes_field, time_field, get_with, get, _required;
  repeat (rewrite ?lookup_app, ?lookup_field; cbn [lookup app]; eval_keys).

Lemma format_time_utc t : is_instant t -> format_time (utc_datetime t) = Ok (iso t).
Proof. intros Ht. unfold format_time. by rewrite normalize_utc. Qed.

Lemma iso_text t : is_instant t -> text (iso t).
Proof. intros Ht. by apply text_ascii, iso_ascii. Qed.

(** ** Entries *)
Record storable_entry (e : Entry) : Prop := {
  se_seq : 0 <= e_seq e < 2 ^ 64;
  se_time : is_instant (e_appended_at e)
}.

Definition entry_arg (e : Entry) : Arg.Entry :=
  {| Arg.seq := e_seq e; Arg.entry_value := PBytes (e_value e);
     Arg.entry_appended_at := utc_datetime (e_appended_at e) |}.

Lemma entry_roundtrip e :
  storable_entry e ->
  exists j, entry_to_wire e = Ok j /\ forall error, entry_from_wire j error = Ok (entry_arg e).
Proof.
  intros [Hs Ht]. unfold entry_to_wire. rewrite format_time_utc by done. eexists. split; [done|]. intros error.
  unfold entry_from_wire. cbn [as_object]. find_keys. cbn [as_text].
  rewrite parse_decimal_format, parse_iso by done.
  rewrite (proj2 (decode_bytes_Ok _ _ (e_value e)) eq_refl). done.
Qed.

(** ** Witness rows *)
Lemma encode_decode bs error : decode_bytes (Some (encode_bytes bs)) error = Ok bs.
Proof. by apply decode_bytes_Ok. Qed.

(** Strings that can be written. *)
Lemma decimal_text n : text (format_decimal n).
Proof.
  unfold format_decimal, str_int. destruct (n <? 0) eqn:E; zbool.
  - apply text_cons; [by eexists|]. apply (P_digits text); [by eexists|by apply text_app| |apply str_nat_digits; lia].
    intros c Hc. apply text_ascii. repeat constructor; lia.
  - apply (P_digits text); [by eexists|by apply text_app| |by apply str_nat_digits].
    intros c Hc. apply text_ascii. repeat constructor; lia.
Qed.

Lemma base64_text bs : text (encode_bytes bs).
Proof. apply text_ascii, encode_bytes_ascii. Qed.

Lemma reason_text s : valid_reason s -> text s.
Proof. intros (n & H & _). unfold utf8_length in H. destruct (utf8_encode s) eqn:E; [by eexists|done]. Qed.

Lemma entry_hash_text s : is_entry_hash s = true -> text s.
Proof.
  unfold is_entry_hash. intros [_ H]%andb_prop. apply text_ascii, Forall_forall. intros c Hc.
  rewrite forallb_forall in H. specialize (H c ltac:(by apply list_elem_of_In)). unfold in_range in H.
  apply orb_prop in H as [H|H]; zbool; lia.
Qed.

(** An object with literal keys is writable when its values are. *)
Definition field_ok (kv : pystr * json) : Prop := text kv.1 /\ writable kv.2.

Lemma field_okay {A} name (encode : A -> json) (P : A -> Prop) o :
  text (str name) -> all_of P o -> (forall a, P a -> writable (encode a)) -> Forall field_ok (field name encode o).
Proof. intros Hn Ho He. destruct o as [a|]; constructor; [by split; [|apply He]|constructor]. Qed.

Lemma field_cons k v d : text k -> writable v -> Forall field_ok d -> Forall field_ok ((k, v) :: d).
Proof. intros Hk Hv Hd. by constructor. Qed.

Ltac literal_text := exact (ex_intro _ _ eq_refl).

Lemma receipt_roundtrip o d error :
  lookup d (str "receipt") = option_map (fun r => JStr (encode_bytes (wr_bytes r))) o ->
  lookup d (str "entryHash") = option_map JStr (o ≫= wr_entry_hash) ->
  lookup d (str "entryHashScheme") = option_map JStr (o ≫= wr_entry_hash_scheme) ->
  lookup d (str "leafIndex") = option_map JInt (o ≫= wr_leaf_index) ->
  lookup d (str "treeSize") = option_map JInt (o ≫= wr_tree_size) ->
  receipt_from_wire d error = Ok (arg_or receipt_arg o).
Proof.
  intros H1 H2 H3 H4 H5. unfold receipt_from_wire, get_with, get. rewrite H1, H2, H3, H4, H5.
  destruct o as [[bs h s l t]|]; cbn; [|done]. rewrite encode_decode.
  by destruct h, s, l, t.
Qed.

Lemma witness_roundtrip w :
  valid_witness w ->
  exists j, witness_to_wire w = Ok j /\ forall error, witness_from_wire j error = Ok (witness_arg w).
Proof.
  intros [Hid Hs Hc Ha Hn Hr He]. unfold witness_to_wire. rewrite format_time_utc by done.
  eexists. split; [done|]. intros error. unfold witness_from_wire. cbn [as_object].
  rewrite (receipt_roundtrip (ws_receipt w)).
  2-6: destruct (ws_receipt w) as [r|]; unfold receipt_fields; find_keys; cbn [option_map mbind option_bind];
    try done; by destruct (wr_entry_hash r), (wr_entry_hash_scheme r), (wr_leaf_index r), (wr_tree_size r), (ws_last_error w).
  unfold within in *.
  assert (0 <= ws_checkpoint_size w < 2 ^ 64) by lia.
  destruct (ws_receipt w) as [r|] eqn:Er; unfold receipt_fields; find_keys; unfold _string, _integer; cbn [need as_text as_integer as_boolean].
  all: rw_bool (0 <=? ws_attempts w) true; rw_bool (ws_attempts w <=? MAX_ATTEMPTS) true; cbn [andb].
  all: rewrite parse_decimal_format, encode_decode, parse_iso by done.
  all: unfold witness_arg; rewrite Er; by destruct (ws_last_error w).
Qed.

Lemma position_small n : within 0 MAX_PORTABLE_INTEGER n -> -(2 ^ 64) < n < 2 ^ 64.
Proof. unfold within, MAX_PORTABLE_INTEGER. lia. Qed.

Lemma receipt_fields_ok r : valid_receipt r -> Forall field_ok (receipt_fields r).
Proof.
  intros [Hb Hh Hs Hl Ht]. unfold receipt_fields.
  repeat apply Forall_app_2.
  - constructor; [|constructor]. split; [literal_text|constructor; apply base64_text].
  - eapply field_okay; [literal_text|exact Hh|]. intros h H. constructor. by apply entry_hash_text.
  - eapply field_okay; [literal_text|exact Hs|]. intros h ->. constructor. literal_text.
  - eapply field_okay; [literal_text|exact Hl|]. intros n H. apply small_int_writable. apply position_small, H.
  - eapply field_okay; [literal_text|exact Ht|]. intros n H. apply small_int_writable. apply position_small, H.
Qed.

Ltac literal_keys := apply (bool_decide_unpack _); vm_compute; exact I.

Lemma witness_writable w j : valid_witness w -> witness_to_wire w = Ok j -> writable j.
Proof.
  intros [Hid Hs Hc Ha Hn Hr He]. unfold witness_to_wire. rewrite format_time_utc by done. intros <-%Ok_inj.
  constructor.
  - destruct (ws_receipt w) as [[b [] [] [] []]|], (ws_last_error w); literal_keys.
  - apply Forall_app_2; [|apply Forall_app_2; [|apply Forall_app_2]].
    + repeat (apply field_cons; [literal_text|constructor|]); [| | | | |constructor].
      * by apply text_ascii, identifier_ascii.
      * apply decimal_text.
      * apply base64_text.
      * unfold within, MAX_ATTEMPTS in Ha. assert (writable (JInt (ws_attempts w))) as Hi
          by (apply small_int_writable; lia). by inversion Hi.
      * by apply iso_text.
    + destruct (ws_receipt w); [by apply receipt_fields_ok|constructor].
    + repeat (apply field_cons; [literal_text|constructor|]). constructor.
    + eapply field_okay; [literal_text|exact He|]. intros s H. constructor. by apply reason_text.
Qed.

Lemma entry_writable e j : storable_entry e -> entry_to_wire e = Ok j -> writable j.
Proof.
  intros [Hs Ht]. unfold entry_to_wire. rewrite format_time_utc by done. intros <-%Ok_inj. constructor.
  - literal_keys.
  - repeat (apply field_cons; [literal_text|constructor|]); [| | |constructor].
    + apply decimal_text.
    + apply base64_text.
    + by apply iso_text.
Qed.

(** ** States *)

(** What the encoding needs of a state: fields the contract allows, and
    counters below 2^64. A journal delta is one too. *)
Record encodable (s : CllState) : Prop := {
  en_metadata : valid_metadata (cs_size s) (cs_indexed_seq s) s;
  en_size : 0 <= cs_size s < 2 ^ 64
}.

Lemma leaf_count_le size f : 0 <= size -> mmr_leaf_count size = Some f -> 0 <= f <= size.
Proof.
  intros Hs Hl. apply mmr_leaf_count_inv in Hl as [Hf ->]; [|done]. split; [done|]. by apply nc_ge.
Qed.

Lemma decode_all error (l : list bytes) :
  map_result (fun v => decode_bytes (as_text v) error) (map (fun b => JStr (encode_bytes b)) l) = Ok l.
Proof.
  rewrite map_result_map. induction l as [|b l IH]; [done|]. cbn [map_result as_text].
  rewrite encode_decode. cbn [as_text] in IH. by rewrite IH.
Qed.

Lemma checkpoint_roundtrip o d error size idx :
  all_of (valid_checkpoint size idx) o -> size < 2 ^ 64 -> idx < 2 ^ 64 ->
  lookup d (str "checkpoint") = option_map (fun c => JStr (encode_bytes (ck_bytes c))) o ->
  lookup d (str "checkpointSize") = option_map (fun c => JStr (format_decimal (ck_size c))) o ->
  lookup d (str "checkpointIndexedSeq") = option_map (fun c => JStr (format_decimal (ck_indexed_seq c))) o ->
  lookup d (str "checkpointPeaks") =
    option_map (fun c => JList (map (fun p => JStr (encode_bytes p)) (ck_peaks c))) o ->
  checkpoint_from_wire d error = Ok (arg_or checkpoint_arg o).
Proof.
  intros Hv Hsize Hidx H1 H2 H3 H4. unfold checkpoint_from_wire, get. rewrite H1, H2, H3, H4.
  destruct o as [c|]; cbn [option_map]; [|done]. destruct Hv as [Hb Hs Hi Hp]. unfold within in *.
  cbn [need as_array as_text]. rewrite encode_decode, !parse_decimal_format, decode_all by lia. done.
Qed.

Lemma witness_rows_roundtrip rows :
  Forall valid_witness rows -> exists js, map_result witness_to_wire rows = Ok js /\ Forall writable js /\
  forall error, map_result (fun row => witness_from_wire row error) js = Ok (map witness_arg rows).
Proof.
  induction 1 as [|w rows Hw Hrows (js & Hjs & Hwr & Hback)]; [by exists []|].
  destruct (witness_roundtrip w Hw) as (j & Hj & Hjb). exists (j :: js). cbn [map_result map].
  rewrite Hj, Hjs. split_and!; [done|constructor; [by eapply witness_writable|done]|].
  intros error. by rewrite Hjb, Hback.
Qed.

Lemma checkpoint_fields_ok c : Forall field_ok (checkpoint_fields c).
Proof.
  unfold checkpoint_fields. repeat (apply field_cons; [literal_text|constructor|]); [| | | |constructor].
  - apply base64_text.
  - apply decimal_text.
  - apply decimal_text.
  - apply Forall_forall. intros v (p & -> & _)%list_elem_of_fmap. constructor. apply base64_text.
Qed.

Lemma bytes_list_writable (l : list bytes) : writable (JList (map (fun b => JStr (encode_bytes b)) l)).
Proof.
  constructor. apply Forall_forall. intros v (p & -> & _)%list_elem_of_fmap. constructor. apply base64_text.
Qed.

Lemma state_roundtrip s :
  encodable s -> exists j, state_to_wire s = Ok j /\ writable j /\
  forall error, state_from_wire j error = Ok (state_arg s).
Proof.
  intros [[_ _ Hm Hp Hc [Hv Hk]] Hsz]. unfold state_to_wire.
  pose proof (leaf_count_le _ _ (proj1 Hsz) Hm) as Hidx.
  destruct (witness_rows_roundtrip _ Hv) as (js & -> & Hjw & Hback).
  assert (match cs_first_pending_at s with
          | Some t => let! s0 := format_time (utc_datetime t) in Ok [(str "firstPendingAt", JStr s0)]
          | None => Ok [] end = Ok (field "firstPendingAt" (fun t => JStr (iso t)) (cs_first_pending_at s))) as ->.
  { destruct (cs_first_pending_at s) as [t|]; [|done]. by rewrite format_time_utc. }
  eexists. split; [done|]. split.
  - constructor; [destruct (cs_first_pending_at s), (cs_checkpoint s); literal_keys|].
    repeat apply Forall_app_2.
    + apply field_cons; [literal_text|constructor; apply decimal_text|].
      apply field_cons; [literal_text|constructor; apply decimal_text|].
      apply field_cons; [literal_text|apply bytes_list_writable|constructor].
    + eapply field_okay; [literal_text|exact Hp|]. intros t Ht. constructor. by apply iso_text.
    + destruct (cs_checkpoint s); [apply checkpoint_fields_ok|constructor].
    + apply field_cons; [literal_text|by constructor|constructor].
  - intros error. unfold state_from_wire. cbn [as_object].
    rewrite (checkpoint_roundtrip (cs_checkpoint s) _ _ (cs_size s) (cs_indexed_seq s)); [|done|lia|lia|..].
    2-5: destruct (cs_checkpoint s), (cs_first_pending_at s); unfold checkpoint_fields; by find_keys.
    unfold state_arg. destruct (cs_checkpoint s) as [c|], (cs_first_pending_at s) as [t|];
      unfold checkpoint_fields; find_keys; cbn [need as_array as_text option_map];
      rewrite !parse_decimal_format, decode_all, Hback, map_map by lia; try (cbn in Hp; rewrite parse_iso by done);
      done.
Qed.

(** ** One line per value *)

(** [j] is written as one line of text and read back from it. *)
Definition line_of (j : json) (bs : bytes) : Prop :=
  wire_dumps j = Ok bs /\ Byte.x0a ∉ bs /\ wire_loads bs = Ok j.

Lemma writable_line j : writable j -> exists bs, line_of j bs.
Proof.
  intros Hw. destruct (dumps_total j Hw) as [t Ht]. destruct (dumps_text j t Ht Hw) as [bs Hbs].
  exists bs. unfold line_of, wire_dumps, wire_loads. rewrite Ht, Hbs, (utf8_roundtrip _ _ Hbs).
  split_and!; [done| |by eapply loads_dumps]. intros Hin.
  pose proof (utf8_encode_bytes t bs (dumps_printable j t Ht Hw) Hbs) as Hb. rewrite Forall_forall in Hb.
  by apply Hb in Hin.
Qed.

(** [C20] Entries, witness rows and states survive the portable encoding: each
    is encoded as a JSON object that is written as a single line, and reading
    that line and decoding the object, for whatever error class, gives back
    exactly the value's own fields. *)
Theorem wire_roundtrip :
  (forall e, storable_entry e -> exists j bs, entry_to_wire e = Ok j /\ line_of j bs /\
     forall error, entry_from_wire j error = Ok (entry_arg e)) /\
  (forall w, valid_witness w -> exists j bs, witness_to_wire w = Ok j /\ line_of j bs /\
     forall error, witness_from_wire j error = Ok (witness_arg w)) /\
  (forall s, encodable s -> exists j bs, state_to_wire s = Ok j /\ line_of j bs /\
     forall error, state_from_wire j error = Ok (state_arg s)).
Proof.
  split_and!.
  - intros e He. destruct (entry_roundtrip e He) as (j & Hj & Hb).
    destruct (writable_line j (entry_writable e j He Hj)) as [bs Hbs]. by exists j, bs.
  - intros w Hw. destruct (witness_roundtrip w Hw) as (j & Hj & Hb).
    destruct (writable_line j (witness_writable w j Hw Hj)) as [bs Hbs]. by exists j, bs.
  - intros s Hs. destruct (state_roundtrip s Hs) as (j & Hj & Hw & Hb).
    destruct (writable_line j Hw) as [bs Hbs]. by exists j, bs.
Qed.
