(* ===== verification/Jsonl.v ===== *)
(** * The JSONL journal backend

    [src/python/log/jsonl.py]: one JSON event per line, the engine rebuilt by
    replay, each mutation written and synced before it is acknowledged and
    rolled back when the write fails. The operating system answers each call
    from [Faults]: what [os.write] returns, and whether [os.fsync] and
    [os.ftruncate] succeed; [Storage] is what a loss of power may leave. *)
From S2P Require Import Prelude Bytes Text Py Cll Engine Json Calendar Base64 Wire.
Open Scope Z_scope.

Definition SCHEMA_VERSION : Z := 4.

(** ** The journal's bytes *)

(** The complete lines, without their newlines, and the incomplete tail. *)
Fixpoint split_lines (data : bytes) : list bytes * bytes :=
  match data with
  | [] => ([], [])
  | b :: data =>
      let '(lines, tl) := split_lines data in
      if bool_decide (b = Byte.x0a) then ([] :: lines, tl)
      else
        match lines with
        | [] => ([], b :: tl)
        | line :: lines => ((b :: line) :: lines, tl)
        end
  end.

(** ** Replay *)
Definition has (d : dict) (key : string) : bool :=
  match lookup d (str key) with Some _ => true | None => false end.

Definition is_int_field (d : dict) (key : string) (n : Z) : bool :=
  match lookup d (str key) with Some (JInt m) => m =? n | _ => false end.
Definition is_str_field (d : dict) (key : string) (s : pystr) : bool :=
  match lookup d (str key) with Some (JStr t) => bool_decide (t = s) | _ => false end.

Definition _apply_event (engine : Engine) (item : dict) : result Engine :=
  match lookup item (str "type") with
  | Some (JStr kind) =>
      if bool_decide (kind = str "cll.init") then
        if negb (bool_decide (length (_entries engine) = 0%nat)) || negb (cs_size (_state engine) =? 0) then Raise CorruptError
        else if has item "entry" || has item "state" || has item "witness" then Raise CorruptError
        else Ok engine
      else if bool_decide (kind = str "entry.append") then
        match lookup item (str "entry") with
        | None => Raise CorruptError
        | Some entry =>
            let! entry := entry_from_wire entry CorruptError in
            Engine.replay_entry engine entry
        end
      else if bool_decide (kind = str "cll.commit") then
        match lookup item (str "state") with
        | None => Raise CorruptError
        | Some state =>
            let! expected_size := parse_decimal (get item "expected_size" ≫= as_text) CorruptError in
            let! checkpoint :=
              match get item "expected_checkpoint" with
              | None => Ok PNone
              | Some expected => let! b := decode_bytes (as_text expected) CorruptError in Ok (PBytes b)
              end in
            let! state := state_from_wire state CorruptError in
            Engine.commit_cll_delta engine (PInt expected_size) checkpoint state
        end
      else if bool_decide (kind = str "witness.commit") then
        match lookup item (str "witness"), get item "expected_attempts" with
        | Some witness, Some (JInt attempts) =>
            match check_expected_attempts (PInt attempts) with
            | Raise InvalidError => Raise CorruptError
            | Raise e => Raise e
            | Ok _ =>
                let! witness := witness_from_wire witness CorruptError in
                Engine.commit_witness engine (PInt attempts) (Inst witness)
            end
        | _, _ => Raise CorruptError
        end
      else Raise CorruptError
  | _ => Raise CorruptError
  end.

(** One complete line. *)
Definition replay_line (state : Engine * bool) (line : bytes) : result (Engine * bool) :=
  let '(engine, initialized) := state in
  if MAX_JOURNAL_EVENT_BYTES <? zlen line then Raise CorruptError
  else
    match wire_loads line with
    | Ok (JDict item) =>
        if negb (is_int_field item "version" SCHEMA_VERSION) then Raise CorruptError
        else if negb initialized && negb (is_str_field item "type" (str "cll.init")) then Raise CorruptError
        else
          match _apply_event engine item with
          | Ok engine => Ok (engine, true)
          | Raise e => if is_cll_error e then Raise CorruptError else Raise e
          end
    | _ => Raise CorruptError
    end.

Fixpoint replay_lines (state : Engine * bool) (lines : list bytes) : result (Engine * bool) :=
  match lines with
  | [] => Ok state
  | line :: lines => let! state := replay_line state line in replay_lines state lines
  end.

(** ** Input and output *)
Record Faults := {
  f_writes : list (option Z);  (* bytes each os.write takes; None raises OSError *)
  f_fsync : bool; f_ftruncate : bool; f_fsync_truncated : bool
}.

(** What a loss of power may leave of the file: a prefix of [st_reach], the
    longest content since the last successful sync, and at least its first
    [st_stable] bytes. *)
Record Storage := { st_reach : bytes; st_stable : nat }.

(** A journal open for writing; the engine is rebuilt from [js_file], which is
    what reads of the file return. *)
Record JsonlStore := { js_file : bytes; js_engine : Engine; js_closed : bool; js_storage : Storage }.

Definition with_file (self : JsonlStore) (file : bytes) (storage : Storage) : JsonlStore :=
  {| js_file := file; js_engine := js_engine self; js_closed := js_closed self; js_storage := storage |}.

Definition with_closed (self : JsonlStore) : JsonlStore :=
  {| js_file := js_file self; js_engine := js_engine self; js_closed := true; js_storage := js_storage self |}.

(** [os.fsync], when it succeeds. *)
Definition fsync (self : JsonlStore) : JsonlStore :=
  with_file self (js_file self) {| st_reach := js_file self; st_stable := length (js_file self) |}.

(** [os.write]s that extended the file to [file]. *)
Definition extended (self : JsonlStore) (file : bytes) : JsonlStore :=
  with_file self file {| st_reach := file; st_stable := st_stable (js_storage self) |}.

(** [os.ftruncate]: until a sync, a loss of power may leave the old content. *)
Definition ftruncate (self : JsonlStore) (offset : nat) : JsonlStore :=
  with_file self (take offset (js_file self))
    {| st_reach := st_reach (js_storage self); st_stable := Nat.min offset (st_stable (js_storage self)) |}.

(** The writing loop: the file with what was written, and whether all of it
    was. A list of answers that ends before the data does is a failure. *)
Fixpoint write_all (file view : bytes) (writes : list (option Z)) : bytes * bool :=
  match view with
  | [] => (file, true)
  | _ =>
      match writes with
      | Some written :: writes =>
          if written <=? 0 then (file, false)
          else write_all (file ++ take (Z.to_nat written) view) (drop (Z.to_nat written) view) writes
      | _ => (file, false)
      end
  end.

(** [ftruncate] to [offset], then [fsync]; whether both worked. *)
Definition _rollback (self : JsonlStore) (offset : nat) (io : Faults) : JsonlStore * bool :=
  if f_ftruncate io then
    let self := ftruncate self offset in
    if f_fsync_truncated io then (fsync self, true) else (self, false)
  else (self, false).

Definition encode_event (item : json) : result bytes :=
  let! encoded := wire_dumps item in
  let encoded := encoded ++ [Byte.x0a] in
  if MAX_JOURNAL_EVENT_BYTES <? zlen encoded then Raise InvalidError else Ok encoded.

Definition _append_event (self : JsonlStore) (item : json) (io : Faults) : JsonlStore * result () :=
  match encode_event item with
  | Raise e => (self, Raise e)
  | Ok encoded =>
      let start := length (js_file self) in
      let '(file, written) := write_all (js_file self) encoded (f_writes io) in
      let self := extended self file in
      if written && f_fsync io then (fsync self, Ok ())
      else
        let '(self, restored) := _rollback self start io in
        if restored then (self, Raise OSError) else (with_closed self, Raise CorruptError)
  end.

Definition with_engine (self : JsonlStore) (engine : Engine) : JsonlStore :=
  {| js_file := js_file self; js_engine := engine; js_closed := js_closed self; js_storage := js_storage self |}.

(** [event] sees the result, the engine before and the engine after. *)
Definition _mutate {A} (self : JsonlStore) (operation : Engine -> result (A * Engine))
    (event : A -> Engine -> Engine -> result (option json)) (io : Faults) : JsonlStore * result A :=
  if js_closed self then (self, Raise ClosedError)
  else
    let snapshot := Engine.snapshot (js_engine self) in
    match operation (js_engine self) with
    | Raise e => (self, Raise e)
    | Ok (r, engine) =>
        let changed := with_engine self engine in
        match event r (js_engine self) engine with
        | Raise e => (changed, Raise e)
        | Ok None => (changed, Ok r)
        | Ok (Some item) =>
            match _append_event changed item io with
            | (written, Ok _) => (written, Ok r)
            | (failed, Raise e) =>
                match Engine.restore (js_engine failed) snapshot with
                | Ok engine => (with_engine failed engine, Raise e)
                | Raise e' => (failed, Raise e')
                end
            end
        end
    end.

(** ** Events *)
Definition event_of (kind : string) (fields : dict) : json :=
  JDict ([(str "version", JInt SCHEMA_VERSION); (str "type", JStr (str kind))] ++ fields).

Definition init_event : json := event_of "cll.init" [].

Definition append_event (r : AppendResult) : result (option json) :=
  match ar_outcome r with
  | IDEMPOTENT => Ok None
  | INSERTED =>
      let! entry := entry_to_wire (ar_entry r) in
      Ok (Some (event_of "entry.append" [(str "entry", entry)]))
  end.

(** [str(expected_size)] and [bytes(expected_checkpoint)] of arguments that
    [commit_cll] has accepted: an integer, and a buffer or [None]. *)
Definition commit_event (expected_size expected_checkpoint : pyval) (before after : Engine)
  : result (option json) :=
  match as_strict_int expected_size with
  | None => Raise TypeError
  | Some size =>
      let! expected :=
        if is_none expected_checkpoint then Ok []
        else match as_buffer expected_checkpoint with
             | Some b => Ok [(str "expected_checkpoint", JStr (encode_bytes b))]
             | None => Raise TypeError
             end in
      let! state := state_to_wire (Engine.delta_since after (Engine.snapshot before)) in
      Ok (Some (event_of "cll.commit" ([(str "expected_size", JStr (str_int size))] ++ expected ++ [(str "state", state)])))
  end.

Definition witness_event (expected_attempts : pyval) (next : arg Arg.WitnessState) (after : Engine)
  : result (option json) :=
  match next, as_strict_int expected_attempts with
  | Inst next, Some attempts =>
      let! stored := Engine.get_witness after (Arg.witness_id next) (Arg.checkpoint_size next) in
      match stored with
      | None => Raise AttributeError
      | Some stored =>
          let! witness := witness_to_wire stored in
          Ok (Some (event_of "witness.commit" [(str "expected_attempts", JInt attempts); (str "witness", witness)]))
      end
  | _, _ => Raise AttributeError
  end.

(** ** The backend *)
Module Jsonl.
Definition append (self : JsonlStore) (input : arg Arg.AppendInput) (io : Faults)
  : JsonlStore * result AppendResult :=
  _mutate self (fun engine => Engine.append engine input) (fun r _ _ => append_event r) io.

Definition commit_cll (self : JsonlStore) (expected_size expected_checkpoint : pyval)
    (next : arg Arg.CllState) (io : Faults) : JsonlStore * result () :=
  _mutate self
    (fun engine => let! engine := Engine.commit_cll engine expected_size expected_checkpoint next in Ok ((), engine))
    (fun _ before after => commit_event expected_size expected_checkpoint before after) io.

Definition commit_witness (self : JsonlStore) (expected_attempts : pyval) (next : arg Arg.WitnessState)
    (io : Faults) : JsonlStore * result () :=
  _mutate self
    (fun engine => let! engine := Engine.commit_witness engine expected_attempts next in Ok ((), engine))
    (fun _ _ after => witness_event expected_attempts next after) io.

Definition _read {A} (self : JsonlStore) (read : Engine -> result A) : result A :=
  if js_closed self then Raise ClosedError else read (js_engine self).

Definition get_entry (self : JsonlStore) (value : pyval) : result Entry :=
  _read self (fun engine => Engine.get_entry engine value).
Definition entry_count (self : JsonlStore) : result Z :=
  _read self (fun engine => Ok (Engine.snapshot engine).1).
Definition scan_entries (self : JsonlStore) (after_seq limit : pyval) : result (list Entry) :=
  _read self (fun engine => Engine.scan_entries engine after_seq limit).
Definition load_cll (self : JsonlStore) : result CllState := _read self (fun engine => Ok (_state engine)).
Definition pending_witnesses (self : JsonlStore) (now limit : pyval) : result (list WitnessState) :=
  _read self (fun engine => Engine.pending_witnesses engine now limit).
Definition pending_witnesses_for (self : JsonlStore) (witness_id now limit : pyval) : result (list WitnessState) :=
  _read self (fun engine => Engine.pending_witnesses_for engine witness_id now limit).
Definition get_witness (self : JsonlStore) (witness_id checkpoint_size : pyval) : result (option WitnessState) :=
  _read self (fun engine => Engine.get_witness engine witness_id checkpoint_size).
Definition close (self : JsonlStore) : JsonlStore := with_closed self.
End Jsonl.

(** ** Opening *)

(** The file at the path, when there is one, and whether a writer holds its lock. *)
Record Disk := { d_file : option bytes; d_locked : bool }.

(** [_replay]: the engine, and the file after an incomplete tail is removed. *)
Definition _replay (data : bytes) (repair : bool) (io : Faults) : bytes * result Engine :=
  let '(lines, tl) := split_lines data in
  match replay_lines (Engine.__init__, false) lines with
  | Raise e => (data, Raise e)
  | Ok (engine, _) =>
      if bool_decide (tl = []) then (data, Ok engine)
      else if negb repair then (data, Raise CorruptError)
      else if negb (f_ftruncate io) then (data, Raise OSError)
      else
        let data := take (length data - length tl) data in
        if negb (f_fsync_truncated io) then (data, Raise OSError) else (data, Ok engine)
  end.

(** A store on a file it has read. What of it is on stable storage is not
    known: its last writer may have ended before its sync. *)
Definition replayed (file : bytes) (engine : Engine) : JsonlStore :=
  {| js_file := file; js_engine := engine; js_closed := false; js_storage := {| st_reach := file; st_stable := 0 |} |}.

(** [JsonlStore._open]: the disk after it, and the store holding its lock or
    the exception it raises. A failed rollback of the first event has closed
    the descriptor already, and the handler's second [_close_file] raises
    [OSError] in place of it. *)
Definition _open (disk : Disk) (path : pystr) (initialize : bool) (io : Faults) : Disk * result JsonlStore :=
  if bool_decide (path = []) then (disk, Raise InvalidError)
  else
    match d_file disk, initialize with
    | None, false => (disk, Raise OSError)
    | file, _ =>
        let data := default [] file in
        if d_locked disk then ({| d_file := Some data; d_locked := true |}, Raise ContentionError)
        else
          let '(data, r) := _replay data initialize io in
          let released := {| d_file := Some data; d_locked := false |} in
          match r with
          | Raise e => (released, Raise e)
          | Ok engine =>
              let store := replayed data engine in
              if bool_decide (data = []) then
                if negb initialize then (released, Raise CorruptError)
                else
                  let '(store, r) := _append_event store init_event io in
                  match r with
                  | Raise e =>
                      ({| d_file := Some (js_file store); d_locked := false |},
                       Raise (if js_closed store then OSError else e))
                  | Ok _ => ({| d_file := Some (js_file store); d_locked := true |}, Ok store)
                  end
              else ({| d_file := Some data; d_locked := true |}, Ok store)
          end
    end.

(** [init(path)] opens for initialization and closes; [open(path)] opens. *)
Definition init (disk : Disk) (path : pystr) (io : Faults) : Disk * result () :=
  match _open disk path true io with
  | (disk, Ok store) => ({| d_file := Some (js_file store); d_locked := false |}, Ok ())
  | (disk, Raise e) => (disk, Raise e)
  end.

Definition open (disk : Disk) (path : pystr) (io : Faults) : Disk * result JsonlStore :=
  _open disk path false io.
