(* ===== verification/JsonlProps.v ===== *)
(** * The journal is the engine's durable form

    Every acknowledged mutation is one complete line whose replay repeats it,
    a failed one leaves the journal as it was, and after a crash at any byte
    recovery finds the engine before the mutation or the one after it. *)
From S2P Require Import Prelude Bytes Text Py MmrPos Cll Engine EngineValid EngineProps EngineCommit EngineSteps Backend Json JsonProps Calendar Base64 Wire Jsonl Memory.
Open Scope Z_scope.

#[local] Arguments encode_bytes : simpl never.
#[local] Arguments decode_bytes : simpl never.
#[local] Arguments format_decimal : simpl never.
#[local] Arguments parse_decimal : simpl never.

(** ** Lines *)
Lemma split_lines_app data k :
  split_lines (data ++ k) =
  match split_lines data, split_lines k with
  | (ls, tl), ([], tl') => (ls, tl ++ tl')
  | (ls, tl), (l :: ls', tl') => (ls ++ (tl ++ l) :: ls', tl')
  end.
Proof.
  induction data as [|b data IH]; [cbn; by destruct (split_lines k) as [[] ?]|].
  cbn [app split_lines]. rewrite IH. destruct (split_lines data) as [ls tl], (split_lines k) as [[|l ls'] tl'];
    (case_bool_decide; [done|]); destruct ls; done.
Qed.

Lemma split_lines_tail p : Byte.x0a ∉ p -> split_lines p = ([], p).
Proof.
  induction p as [|b p IH]; [done|]. intros [Hb Hp]%not_elem_of_cons. cbn [split_lines]. rewrite (IH Hp).
  by rewrite bool_decide_false by congruence.
Qed.

Lemma split_lines_line p : Byte.x0a ∉ p -> split_lines (p ++ [Byte.x0a]) = ([p], []).
Proof.
  intros Hp. rewrite split_lines_app, split_lines_tail by done.
  change (split_lines [Byte.x0a]) with ([[] : bytes], [] : bytes). cbn. by rewrite app_nil_r.
Qed.

Lemma split_lines_snoc data ls line :
  split_lines data = (ls, []) -> Byte.x0a ∉ line -> split_lines (data ++ line ++ [Byte.x0a]) = (ls ++ [line], []).
Proof. intros Hd Hl. by rewrite split_lines_app, Hd, split_lines_line. Qed.

Lemma replay_lines_app state ls ls' :
  replay_lines state (ls ++ ls') = let! state := replay_lines state ls in replay_lines state ls'.
Proof.
  revert state. induction ls as [|l ls IH]; intros state; [done|]. cbn [app replay_lines].
  destruct (replay_line state l); [apply IH|done].
Qed.

(** ** Writing *)
Lemma write_all_spec file view writes :
  exists k, write_all file view writes = (file ++ take k view, Nat.eqb k (length view)) /\ (k <= length view)%nat.
Proof.
  revert file view. induction writes as [|w writes IH]; intros file view.
  - destruct view as [|b view]; [exists 0%nat; cbn; by rewrite app_nil_r|].
    exists 0%nat. cbn. rewrite app_nil_r. split; [done|lia].
  - destruct view as [|b view]; [exists 0%nat; cbn; by rewrite app_nil_r|].
    cbn [write_all]. destruct w as [n|]; [|exists 0%nat; cbn [firstn length Nat.eqb]; rewrite app_nil_r; split; [done|lia]].
    destruct (n <=? 0) eqn:En; [exists 0%nat; cbn [firstn length Nat.eqb]; rewrite app_nil_r; split; [done|lia]|]. zbool.
    destruct (IH (file ++ take (Z.to_nat n) (b :: view)) (drop (Z.to_nat n) (b :: view))) as (k & -> & Hk).
    rewrite length_drop in Hk |- *. exists (Nat.min (Z.to_nat n) (length (b :: view)) + k)%nat. split; [|lia].
    f_equal.
    + rewrite <- app_assoc, take_take_drop. f_equal. destruct (Nat.le_gt_cases (Z.to_nat n) (length (b :: view))).
      * by rewrite Nat.min_l by done.
      * assert (k = 0%nat) as -> by lia. rewrite Nat.min_r, !Nat.add_0_r, !take_ge by lia. done.
    + apply eq_true_iff_eq. rewrite !Nat.eqb_eq. lia.
Qed.

(** ** Replaying one event *)

(** Reading the event back from a line and applying it takes [engine] to [engine']. *)
Definition replays_to (item : json) (engine engine' : Engine) : Prop :=
  writable item /\
  forall line, wire_loads line = Ok item -> zlen line <= MAX_JOURNAL_EVENT_BYTES ->
    replay_line (engine, true) line = Ok (engine', true).

Lemma encode_event_line item encoded :
  writable item -> encode_event item = Ok encoded ->
  exists line, encoded = line ++ [Byte.x0a] /\ Byte.x0a ∉ line /\ wire_loads line = Ok item /\
    zlen line <= MAX_JOURNAL_EVENT_BYTES.
Proof.
  intros Hw. destruct (writable_line item Hw) as (bs & Hd & Hn & Hl). unfold encode_event. rewrite Hd.
  destruct (_ <? _) eqn:E; [done|]. intros <-%Ok_inj. zbool. rewrite zlen_app in E. change (zlen [Byte.x0a]) with 1 in E.
  exists bs. split_and!; [done|done|done|lia].
Qed.

Lemma replay_event kind fields line engine :
  wire_loads line = Ok (event_of kind fields) -> zlen line <= MAX_JOURNAL_EVENT_BYTES ->
  replay_line (engine, true) line =
  match _apply_event engine ([(str "version", JInt SCHEMA_VERSION); (str "type", JStr (str kind))] ++ fields) with
  | Ok engine => Ok (engine, true)
  | Raise e => if is_cll_error e then Raise CorruptError else Raise e
  end.
Proof.
  intros Hl Hlen. unfold replay_line. rewrite Hl. rw_bool (MAX_JOURNAL_EVENT_BYTES <? zlen line) false.
  unfold event_of. unfold is_int_field. find_keys. rewrite Z.eqb_refl. done.
Qed.

(** *** Appends *)
Lemma append_inserted self input r self' :
  wf self -> Engine.append self input = Ok (r, self') ->
  match ar_outcome r with
  | IDEMPOTENT => self' = self
  | INSERTED => storable_entry (ar_entry r) /\ Engine.replay_entry self (entry_arg (ar_entry r)) = Ok self'
  end.
Proof.
  intros Hwf. rewrite append_eq by done. destruct (check_append input) as [[v t]|] eqn:Ec; [|done].
  apply check_append_Ok in Ec as [Hv Ht]. destruct (_by_value self !! v) eqn:Ei.
  { destruct (py_index _ _); [|done]. by intros [= <- <-]. }
  destruct (_ <=? _) eqn:El; [done|]. zbool. intros [= <- <-]. cbn [ar_outcome ar_entry]. split.
  - split; cbn; [|done]. pose proof (zlen_nonneg (_entries self)). unfold MAX_PORTABLE_INTEGER in El. lia.
  - unfold Engine.replay_entry, entry_arg. cbn [Arg.entry_value Arg.entry_appended_at e_value e_appended_at Arg.seq e_seq].
    rewrite append_eq by done. cbn [check_append Arg.value Arg.appended_at].
    assert (check_value (PBytes v) = Ok v) as ->.
    { apply or_raise_Ok, width_bytes. unfold within. lia. }
    rewrite normalize_utc, Ei by done. rw_bool (MAX_PORTABLE_INTEGER <=? zlen (_entries self)) false.
    cbn [ar_outcome ar_entry e_seq e_appended_at]. rewrite Z.eqb_refl.
    assert (py_eq (utc_datetime t) (utc_datetime t) = true) as ->; [|done]. cbn. unfold dt_eq. cbn. apply Z.eqb_refl.
Qed.

Lemma event_writable kind fields :
  text (str kind) -> Forall field_ok fields ->
  NoDup (map fst ([(str "version", JInt SCHEMA_VERSION); (str "type", JStr (str kind))] ++ fields)) ->
  writable (event_of kind fields).
Proof.
  intros Hk Hf Hnd. constructor; [done|]. apply Forall_app_2; [|done].
  apply field_cons; [literal_text|apply small_int_writable; unfold SCHEMA_VERSION; lia|].
  apply field_cons; [literal_text|by constructor|constructor].
Qed.

Lemma append_replays self input r self' :
  wf self -> Engine.append self input = Ok (r, self') ->
  (append_event r = Ok None /\ self' = self) \/
  exists item, append_event r = Ok (Some item) /\ replays_to item self self'.
Proof.
  intros Hwf Ha. pose proof (append_inserted _ _ _ _ Hwf Ha) as Hr. unfold append_event.
  destruct (ar_outcome r); [right|by left]. destruct Hr as [Hst Hr].
  destruct (entry_roundtrip _ Hst) as (j & Hj & Hback). pose proof (entry_writable _ _ Hst Hj) as Hjw.
  rewrite Hj. eexists. split; [done|]. split.
  - apply event_writable; [literal_text| |literal_keys]. by apply field_cons; [literal_text| |constructor].
  - intros line Hl Hlen. rewrite (replay_event _ _ _ _ Hl Hlen). unfold _apply_event. find_keys. by rewrite Hback, Hr.
Qed.

(** *** Commits *)
Lemma check_expected_same current n ec :
  _check_expected current (PInt n) (if is_none ec then PNone else
    match as_buffer ec with Some b => PBytes b | None => ec end) = _check_expected current (PInt n) ec.
Proof. unfold _check_expected, optional, binary. by destruct ec. Qed.

Lemma commit_delta_args self n ec d :
  Engine.commit_cll_delta self (PInt n) (if is_none ec then PNone else
    match as_buffer ec with Some b => PBytes b | None => ec end) d = Engine.commit_cll_delta self (PInt n) ec d.
Proof. unfold Engine.commit_cll_delta, apply_cll_delta. by rewrite check_expected_same. Qed.

Lemma commit_cll_ok self es ec next self' :
  wf self -> Engine.commit_cll self es ec next = Ok self' ->
  expected_ok (_state self) es ec /\ wf self' /\
  (cs_size (_state self') < 2 ^ 64 -> encodable (Engine.delta_since self' (Engine.snapshot self))).
Proof.
  intros Hwf Hc. unfold Engine.commit_cll in Hc. destruct (apply_cll _ _ _ _) as [u|] eqn:E; [|done].
  injection Hc as <-. apply apply_cll_inv in E as (He & s & _ & _ & _ & -> & Hv & _); [|by apply wf_state].
  split_and!; [done|by apply with_state_wf|]. intros Hsz. unfold Engine.snapshot. rewrite delta_since_eq.
  split; [by apply delta_metadata|]. cbn [cs_size]. split; [|done].
  rewrite (vm_size _ _ _ (vs_metadata _ Hv)). apply zlen_nonneg.
Qed.

Lemma wf_size_nonneg self : wf self -> 0 <= cs_size (_state self).
Proof. intros Hwf. rewrite (vm_size _ _ _ (vs_metadata _ (wf_state _ Hwf))). apply zlen_nonneg. Qed.

Lemma commit_grows_size self es ec next self' :
  wf self -> Engine.commit_cll self es ec next = Ok self' -> cs_size (_state self) <= cs_size (_state self').
Proof.
  intros Hwf Hc. assert (step self self') as Hs by by eapply step_cll.
  destruct (step_wf _ _ Hwf Hs) as [Hwf' [_ [[k Hk] _ _ _]]].
  rewrite (vm_size _ _ _ (vs_metadata _ (wf_state _ Hwf))), (vm_size _ _ _ (vs_metadata _ (wf_state _ Hwf'))), Hk, zlen_app.
  pose proof (zlen_nonneg k). lia.
Qed.

Lemma commit_replays self es ec next self' :
  wf self -> Engine.commit_cll self es ec next = Ok self' -> cs_size (_state self') < 2 ^ 64 ->
  exists item, commit_event es ec self self' = Ok (Some item) /\ replays_to item self self'.
Proof.
  intros Hwf Hc Hsz. pose proof (commit_delta_replays _ _ _ _ _ Hwf Hc) as Hd.
  pose proof (commit_grows_size _ _ _ _ _ Hwf Hc) as Hg. pose proof (wf_size_nonneg _ Hwf) as H0.
  destruct (commit_cll_ok _ _ _ _ _ Hwf Hc) as ([-> Hec] & _ & Hen). specialize (Hen Hsz).
  destruct (state_roundtrip _ Hen) as (j & Hj & Hjw & Hback).
  set (n := cs_size (_state self)) in *. assert (0 <= n < 2 ^ 64) as Hn64 by lia.
  set (fields := [(str "expected_size", JStr (str_int n))]
    ++ field "expected_checkpoint" (fun b => JStr (encode_bytes b)) (as_buffer ec) ++ [(str "state", j)]).
  assert (ec = PNone /\ as_buffer ec = None \/ is_none ec = false /\ exists b, as_buffer ec = Some b) as Hcase.
  { destruct (cs_checkpoint (_state self)); [right|left; by subst ec]. split; [by destruct ec|by eexists]. }
  exists (event_of "cll.commit" fields). split; [|split].
  - unfold commit_event, fields. cbn [as_strict_int]. rewrite Hj.
    by destruct Hcase as [[-> _]|[Hn [b Hb]]]; [|rewrite Hn, Hb].
  - apply event_writable; [literal_text| |unfold fields; destruct (as_buffer ec); literal_keys].
    unfold fields. apply field_cons; [literal_text|constructor; apply decimal_text|].
    apply Forall_app_2; [|by apply field_cons; [literal_text| |constructor]].
    eapply (field_okay _ _ (fun _ => True)); [literal_text|by destruct (as_buffer ec)|].
    intros b _. constructor. apply base64_text.
  - intros line Hl Hlen. rewrite (replay_event _ _ _ _ Hl Hlen).
    unfold _apply_event, fields. find_keys. fold (format_decimal n).
    destruct Hcase as [[-> Hb]|[Hnone [b Hb]]]; rewrite Hb; cbn [option_map mbind option_bind as_text];
      rewrite parse_decimal_format, Hback by done.
    + by rewrite Hd.
    + rewrite encode_decode. rewrite <- commit_delta_args, Hnone, Hb in Hd. by rewrite Hd.
Qed.

(** *** Witness results *)
Lemma commit_witness_arg self ea next w :
  validate_witness next InvalidError = Ok w -> 
  Engine.commit_witness self ea (Inst (witness_arg w)) = Engine.commit_witness self ea next.
Proof.
  intros Hv. unfold Engine.commit_witness, apply_witness. rewrite Hv.
  by rewrite validate_witness_arg by by eapply validate_witness_inv.
Qed.

Lemma find_row rows i w :
  NoDup (map witness_key rows) -> rows !! i = Some w ->
  List.find (fun row => bool_decide (ws_witness_id row = ws_witness_id w)
    && (ws_checkpoint_size row =? ws_checkpoint_size w)) rows = Some w.
Proof.
  revert i. induction rows as [|r rows IH]; intros i Hnd Hi; [done|]. cbn [map] in Hnd.
  apply NoDup_cons in Hnd as [Hr Hnd]. cbn [List.find]. destruct i as [|i].
  - injection Hi as ->. by rewrite bool_decide_true, Z.eqb_refl.
  - cbn in Hi. destruct (bool_decide _ && _) eqn:E; [|by eapply IH]. exfalso. zbool. apply Hr.
    unfold witness_key. rewrite H, H0. apply list_elem_of_fmap. exists w. split; [done|by eapply list_elem_of_lookup_2].
Qed.

Lemma validate_witness_key next w :
  validate_witness (Inst next) InvalidError = Ok w ->
  check_witness_key (Arg.witness_id next) (Arg.checkpoint_size next) = Ok (ws_witness_id w, ws_checkpoint_size w).
Proof.
  cbn [validate_witness]. unfold check_witness_key. intros H.
  destruct (as_str (Arg.witness_id next)) as [id|]; [|done]. cbn [or_raise] in H.
  destruct (is_identifier id); [|done].
  destruct (int_within (Arg.checkpoint_size next) 1 (2 ^ 64 - 1)) as [n|]; [|done]. cbn [or_raise] in H.
  take_apart H. by injection H as <-.
Qed.

Lemma witness_replays self ea next self' :
  wf self -> Engine.commit_witness self ea next = Ok self' ->
  exists item, witness_event ea next self' = Ok (Some item) /\ replays_to item self self'.
Proof.
  intros Hwf Hc. pose proof Hc as Hc'.
  apply commit_witness_inv in Hc as (w & i & n & Hv & Hn & Hr & -> & Hwf' & _); [|done].
  set (self' := Engine.with_state self _) in *.
  apply int_within_Some in Hn as [-> Hn]. destruct next as [next|]; [|done].
  unfold witness_event. cbn [as_strict_int]. unfold Engine.get_witness. rewrite (validate_witness_key _ _ Hv).
  assert (cs_witnesses (_state self') !! i = Some w) as Hi.
  { destruct Hr as (row & Hrow & _). cbn. apply list_lookup_insert_eq. by eapply lookup_lt_Some. }
  rewrite (find_row _ i) by (done || apply (wf_state _ Hwf')).
  pose proof (validate_witness_inv _ _ _ Hv) as Hvw. destruct (witness_roundtrip _ Hvw) as (j & Hj & Hback).
  pose proof (witness_writable _ _ Hvw Hj) as Hjw. rewrite Hj. eexists. split; [done|]. split.
  - unfold within, MAX_ATTEMPTS in Hn. apply event_writable; [literal_text| |literal_keys].
    apply field_cons; [literal_text|apply small_int_writable; lia|]. by apply field_cons; [literal_text| |constructor].
  - intros line Hl Hlen. rewrite (replay_event _ _ _ _ Hl Hlen). unfold _apply_event. find_keys.
    assert (check_expected_attempts (PInt n) = Ok n) as -> by (unfold check_expected_attempts; by rewrite int_within_int).
    by rewrite Hback, (commit_witness_arg self (PInt n) _ w Hv), Hc'.
Qed.

(** ** Mutations *)

(** The reply of an append; the commits return [None]. *)
Definition run (self : JsonlStore) (m : mutation) (io : Faults) : JsonlStore * result (option AppendResult) :=
  match m with
  | MAppend input =>
      let '(self, r) := Jsonl.append self input io in (self, let! r := r in Ok (Some r))
  | MCommit size checkpoint next =>
      let '(self, r) := Jsonl.commit_cll self size checkpoint next io in (self, let! _ := r in Ok None)
  | MWitness attempts next =>
      let '(self, r) := Jsonl.commit_witness self attempts next io in (self, let! _ := r in Ok None)
  end.

(** The event [run] writes, when the engine accepts. *)
Definition run_event (self : Engine) (m : mutation) : result (option json) :=
  match m with
  | MAppend input => let! (r, _) := Engine.append self input in append_event r
  | MCommit size checkpoint next =>
      let! self' := Engine.commit_cll self size checkpoint next in commit_event size checkpoint self self'
  | MWitness attempts next =>
      let! self' := Engine.commit_witness self attempts next in witness_event attempts next self'
  end.

Lemma run_replays self m r self' :
  wf self -> run_engine self m = Ok (r, self') -> fits self' ->
  (run_event self m = Ok None /\ self' = self) \/
  exists item, run_event self m = Ok (Some item) /\ replays_to item self self'.
Proof.
  intros Hwf H Hf. destruct m as [input|es ec next|ea next]; cbn [run_engine run_event] in *.
  - destruct (Engine.append self input) as [[r0 s]|] eqn:E; [|done]. injection H as _ <-. by eapply append_replays.
  - destruct (Engine.commit_cll _ _ _ _) eqn:E; [|done]. injection H as _ <-. right. by eapply commit_replays.
  - destruct (Engine.commit_witness _ _ _) eqn:E; [|done]. injection H as _ <-. right. by eapply witness_replays.
Qed.

(** One shape for the three mutations. *)
Lemma run_eq self m io :
  run self m io =
  if js_closed self then (self, Raise ClosedError)
  else
    match run_engine (js_engine self) m with
    | Raise e => (self, Raise e)
    | Ok (r, engine) =>
        match run_event (js_engine self) m with
        | Raise e => (with_engine self engine, Raise e)
        | Ok None => (with_engine self engine, Ok r)
        | Ok (Some item) =>
            match _append_event (with_engine self engine) item io with
            | (written, Ok _) => (written, Ok r)
            | (failed, Raise e) =>
                match Engine.restore (js_engine failed) (Engine.snapshot (js_engine self)) with
                | Ok engine => (with_engine failed engine, Raise e)
                | Raise e' => (failed, Raise e')
                end
            end
        end
    end.
Proof.
  unfold run, Jsonl.append, Jsonl.commit_cll, Jsonl.commit_witness, _mutate.
  destruct m as [input|es ec next|ea next]; cbn [run_engine run_event]; (destruct (js_closed self); [done|]).
  - destruct (Engine.append _ _) as [[r s]|]; [|done]. destruct (append_event r) as [[item|]|]; [|done|done].
    destruct (_append_event _ _ _) as [? [[]|]]; [done|]. by destruct (Engine.restore _ _).
  - destruct (Engine.commit_cll _ _ _ _) as [s|]; [|done]. destruct (commit_event _ _ _ _) as [[item|]|]; [|done|done].
    destruct (_append_event _ _ _) as [? [[]|]]; [done|]. by destruct (Engine.restore _ _).
  - destruct (Engine.commit_witness _ _ _) as [s|]; [|done]. destruct (witness_event _ _ _) as [[item|]|]; [|done|done].
    destruct (_append_event _ _ _) as [? [[]|]]; [done|]. by destruct (Engine.restore _ _).
Qed.

(** ** The invariant *)

(** The file is complete lines, and replaying them gives the engine. *)
Record journal (self : JsonlStore) : Prop := {
  j_lines : exists ls, split_lines (js_file self) = (ls, []) /\
    replay_lines (Engine.__init__, false) ls = Ok (js_engine self, true);
  j_wf : wf (js_engine self);
  j_fits : fits (js_engine self)
}.

Definition faultless (io : Faults) : Prop := f_ftruncate io = true /\ f_fsync_truncated io = true.

(** [init] then [open] on the file, as after a crash, gives a store holding [engine]. *)
Definition recovers (file : bytes) (engine : Engine) : Prop :=
  forall path io, path <> [] -> faultless io ->
  exists file' store, init {| d_file := Some file; d_locked := false |} path io =
      ({| d_file := Some file'; d_locked := false |}, Ok ()) /\
    open {| d_file := Some file'; d_locked := false |} path io =
      ({| d_file := Some file'; d_locked := true |}, Ok store) /\
    js_engine store = engine /\ js_file store = file' /\ js_closed store = false /\ journal store.

Lemma split_lines_none data tl : split_lines data = ([], tl) -> data = tl.
Proof.
  revert tl. induction data as [|b data IH]; intros tl; cbn [split_lines]; [by intros [= <-]|].
  destruct (split_lines data) as [[|l ls] tl'] eqn:E; case_bool_decide; try done.
  intros [= <-]. f_equal. by apply IH.
Qed.

Lemma split_lines_inv data ls tl :
  split_lines data = (ls, tl) -> exists pre, data = pre ++ tl /\ split_lines pre = (ls, []) /\ Byte.x0a ∉ tl.
Proof.
  revert ls tl. induction data as [|b data IH]; intros ls tl; cbn [split_lines].
  { intros [= <- <-]. exists []. split_and!; [done|done|apply not_elem_of_nil]. }
  destruct (split_lines data) as [ls' tl'] eqn:E. destruct (IH _ _ eq_refl) as (pre & Hd & Hp & Hn).
  case_bool_decide as Hb.
  - intros [= <- <-]. exists (b :: pre). cbn [app split_lines]. rewrite Hp, bool_decide_true by done.
    split_and!; [by f_equal|done|done].
  - destruct ls' as [|l ls']; intros [= <- <-].
    + exists []. apply split_lines_none in E as ->. split_and!; [done|done|].
      intros [Hx|Hx]%elem_of_cons; [congruence|done].
    + exists (b :: pre). cbn [app split_lines]. rewrite Hp, bool_decide_false by done.
      split_and!; [by f_equal|done|done].
Qed.

Lemma replay_started ls engine engine' b :
  replay_lines (engine, true) ls = Ok (engine', b) -> b = true.
Proof.
  revert engine. induction ls as [|l ls IH]; intros engine; cbn [replay_lines]; [by intros [= _ <-]|].
  unfold replay_line. destruct (_ <? _); [done|]. destruct (wire_loads l) as [[]|]; try done.
  destruct (negb _); [done|]. cbn [negb andb]. destruct (_apply_event _ _) as [e|e]; [apply IH|by destruct (is_cll_error e)].
Qed.

Lemma open_file file ls tl engine path init_ io :
  path <> [] -> split_lines file = (ls, tl) -> replay_lines (Engine.__init__, false) ls = Ok (engine, true) ->
  (tl = [] \/ init_ = true /\ faultless io) ->
  exists file', split_lines file' = (ls, []) /\ (tl = [] -> file' = file) /\
    _open {| d_file := Some file; d_locked := false |} path init_ io =
      ({| d_file := Some file'; d_locked := true |},
       Ok (replayed file' engine)).
Proof.
  intros Hpath Hs Hr Htl. destruct (split_lines_inv _ _ _ Hs) as (pre & Hf & Hpre & _).
  exists pre. split_and!; [done|intros ->; by rewrite Hf, app_nil_r|].
  unfold _open. rewrite bool_decide_false by done. cbn [d_file d_locked default from_option].
  assert (_replay file init_ io = (pre, Ok engine)) as Hrep.
  { unfold _replay. rewrite Hs, Hr. case_bool_decide as Ht.
    - by rewrite Hf, Ht, app_nil_r.
    - destruct Htl as [|[-> [H1 H2]]]; [done|]. rewrite H1, H2. cbn [negb].
      rewrite Hf, length_app, Nat.add_sub, take_app_length. done. }
  assert (pre <> []) as Hne.
  { intros ->. cbn in Hpre. injection Hpre as <-. cbn in Hr. done. }
  destruct init_; change (id file) with file; rewrite Hrep; by rewrite (bool_decide_false (pre = [])) by done.
Qed.

Lemma recovers_intro file ls tl engine :
  split_lines file = (ls, tl) -> replay_lines (Engine.__init__, false) ls = Ok (engine, true) ->
  wf engine -> fits engine -> recovers file engine.
Proof.
  intros Hs Hr Hwf Hfits path io Hpath Hio.
  destruct (open_file file ls tl engine path true io) as (file' & Hs' & _ & Ho); [done|done|done|by right|].
  destruct (open_file file' ls [] engine path false io) as (file'' & _ & Hf & Ho'); [done|done|done|by left|].
  specialize (Hf eq_refl) as ->.
  eexists file', _. unfold init, open. rewrite Ho, Ho'. cbn [js_file]. split_and!; try done.
  split; [|done|done]. by exists ls.
Qed.

(** Any part of an event's line, after a journal. *)
Lemma partial_recovers self engine' line k :
  journal self -> wf engine' -> fits engine' -> Byte.x0a ∉ line ->
  replay_line (js_engine self, true) line = Ok (engine', true) -> (k <= S (length line))%nat ->
  recovers (js_file self ++ take k (line ++ [Byte.x0a]))
    (if Nat.eqb k (S (length line)) then engine' else js_engine self).
Proof.
  intros [(ls & Hs & Hr) Hwf Hfits] Hwf' Hfits' Hn Hl Hk. destruct (Nat.eqb_spec k (S (length line))) as [->|Hne].
  - rewrite take_ge by (rewrite length_app; cbn; lia).
    apply (recovers_intro _ (ls ++ [line]) []); [by apply split_lines_snoc| |done|done].
    rewrite replay_lines_app, Hr. cbn [replay_lines]. by rewrite Hl.
  - rewrite take_app_le by lia. apply (recovers_intro _ ls (take k line)); [|done|done|done].
    rewrite split_lines_app, Hs, split_lines_tail; [done|].
    intros Hin. apply Hn. rewrite <- (take_drop k line). apply elem_of_app. by left.
Qed.

Lemma encoded_line item engine engine' encoded :
  replays_to item engine engine' -> encode_event item = Ok encoded ->
  exists line, encoded = line ++ [Byte.x0a] /\ Byte.x0a ∉ line /\
    replay_line (engine, true) line = Ok (engine', true).
Proof.
  intros [Hw Hrep] He. destruct (encode_event_line _ _ Hw He) as (line & -> & Hn & Hl & Hlen).
  exists line. split_and!; [done|done|]. by apply Hrep.
Qed.

Lemma journal_snoc self engine' line closed storage :
  journal self -> wf engine' -> fits engine' -> Byte.x0a ∉ line ->
  replay_line (js_engine self, true) line = Ok (engine', true) ->
  journal {| js_file := js_file self ++ line ++ [Byte.x0a]; js_engine := engine'; js_closed := closed;
             js_storage := storage |}.
Proof.
  intros [(ls & Hs & Hr) _ _] Hwf' Hfits' Hn Hl. split; [|done|done]. exists (ls ++ [line]). cbn [js_file js_engine].
  split; [by apply split_lines_snoc|]. rewrite replay_lines_app, Hr. cbn [replay_lines]. by rewrite Hl.
Qed.

(** *** Loss of power *)

(** The contents a loss of power may leave. *)
Definition survives (self : JsonlStore) (file : bytes) : Prop :=
  exists k, (st_stable (js_storage self) <= k)%nat /\ file = take k (st_reach (js_storage self)).

(** All of the file is on stable storage. *)
Definition is_synced (self : JsonlStore) : Prop :=
  st_reach (js_storage self) = js_file self /\ st_stable (js_storage self) = length (js_file self).

Lemma synced_fsync self : is_synced (fsync self).
Proof. done. Qed.

Lemma synced_survives self file : is_synced self -> survives self file -> file = js_file self.
Proof. intros [Hr Hs] (k & Hk & ->). rewrite Hr, take_ge; [done|]. by rewrite <- Hs. Qed.

Lemma journal_recovers self : journal self -> recovers (js_file self) (js_engine self).
Proof. intros [(ls & Hs & Hr) ? ?]. by eapply recovers_intro. Qed.

(** What survives of an event's write, or of its unsynced truncation. *)
Lemma partial_survives self engine line k n (file : bytes) :
  journal self -> wf engine -> fits engine -> Byte.x0a ∉ line ->
  replay_line (js_engine self, true) line = Ok (engine, true) -> (k <= S (length line))%nat ->
  (length (js_file self) <= n)%nat -> file = take n (js_file self ++ take k (line ++ [Byte.x0a])) ->
  recovers file (js_engine self) \/ recovers file engine.
Proof.
  intros Hj Hwf Hfits Hn Hl Hk Hlen ->. rewrite take_app_ge, take_take by done.
  pose proof (partial_recovers self engine line (Nat.min (n - length (js_file self)) k) Hj Hwf Hfits Hn Hl ltac:(lia)) as H.
  destruct (Nat.eqb _ _); [by right|by left].
Qed.

Lemma run_durable (self : JsonlStore) (m : mutation) (io : Faults) :
  journal self -> js_closed self = false -> small m ->
  match run self m io with
  | (self', Ok r) =>
      run_engine (js_engine self) m = Ok (r, js_engine self') /\ journal self' /\ js_closed self' = false /\
      js_file self `prefix_of` js_file self' /\
      (is_synced self \/ js_file self' <> js_file self ->
       is_synced self' /\ forall file, survives self' file -> recovers file (js_engine self'))
  | (self', Raise e) =>
      js_engine self' = js_engine self /\
      (js_closed self' = false /\ js_file self' = js_file self /\ (is_synced self -> is_synced self') \/
       js_closed self' = true /\ e = CorruptError /\
       forall file, file = js_file self' \/ (is_synced self /\ survives self' file) ->
         recovers file (js_engine self) \/
         exists r engine, run_engine (js_engine self) m = Ok (r, engine) /\ recovers file engine)
  end.
Proof.
  intros Hj Hopen Hsmall. rewrite run_eq, Hopen. pose proof (j_wf _ Hj) as Hwf.
  destruct (run_engine (js_engine self) m) as [[r engine]|e] eqn:Erun; [|split; [done|by left]].
  pose proof (run_engine_fits _ _ _ _ Hwf (j_fits _ Hj) Hsmall Erun) as Hfits. pose proof (run_engine_step _ _ _ _ Erun) as Hstep.
  destruct (step_wf _ _ Hwf Hstep) as [Hwf' [Hpre _]].
  destruct (run_replays _ _ _ _ Hwf Erun Hfits) as [[-> ->]|(item & -> & Hrep)].
  { split_and!; [done|destruct Hj; by split|done|done|]. intros [Hs|Hne]; [|by destruct Hne]. split; [done|].
    intros file Hf. apply synced_survives in Hf as ->; [|done]. exact (journal_recovers self Hj). }
  assert (Engine.restore engine (Engine.snapshot (js_engine self)) = Ok (js_engine self)) as Hrestore
    by by apply wf_restore.
  unfold _append_event. destruct (encode_event item) as [encoded|e] eqn:Ee.
  2: { cbn [js_engine with_engine]. rewrite Hrestore. split; [done|]. by left. }
  destruct (encoded_line _ _ _ _ Hrep Ee) as (line & -> & Hn & Hl).
  cbn [js_file with_engine js_engine js_closed].
  destruct (write_all_spec (js_file self) (line ++ [Byte.x0a]) (f_writes io)) as (k & -> & Hk).
  rewrite length_app in Hk |- *. cbn [length] in Hk |- *. rewrite Nat.add_1_r in Hk |- *.
  pose proof (partial_recovers self engine line k Hj Hwf' Hfits Hn Hl Hk) as Hrec.
  destruct (Nat.eqb k (S (length line)) && f_fsync io) eqn:Ew.
  - apply andb_prop in Ew as [Ek _]. apply Nat.eqb_eq in Ek as ->.
    rewrite take_ge by (rewrite length_app; cbn; lia).
    pose proof (journal_snoc self engine line (js_closed self)
      {| st_reach := js_file self ++ line ++ [Byte.x0a]; st_stable := length (js_file self ++ line ++ [Byte.x0a]) |} Hj Hwf' Hfits Hn Hl) as Hj'.
    split_and!; [done|exact Hj'|done|by eexists|]. intros _. split; [apply synced_fsync|].
    intros file Hf. apply synced_survives in Hf as ->; [|apply synced_fsync]. exact (journal_recovers _ Hj').
  - assert (forall file n, (length (js_file self) <= n)%nat ->
      file = take n (js_file self ++ take k (line ++ [Byte.x0a])) ->
      recovers file (js_engine self) \/
      exists r0 engine0, Ok (r, engine) = Ok (r0, engine0) /\ recovers file engine0) as Hsurv.
    { intros file n Hlen Hf. destruct (partial_survives self engine line k n file) as [H|H]; try done; [by left|right].
      by exists r, engine. }
    unfold _rollback. destruct (f_ftruncate io); [destruct (f_fsync_truncated io)|].
    + cbn [js_engine js_file js_closed fsync ftruncate extended with_file with_engine with_closed]. rewrite Hrestore.
      split; [done|]. left. cbn [js_engine js_file js_closed js_storage fsync ftruncate extended with_file with_engine with_closed].
      rewrite take_app_length. split_and!; [done|done|]. intros _. split; cbn; by rewrite take_app_length.
    + cbn [js_engine js_file js_closed fsync ftruncate extended with_file with_engine with_closed]. rewrite Hrestore.
      split; [done|]. right. split_and!; [done|done|]. intros file [->|[[Hs1 Hs2] (n & Hn1 & Hf)]].
      * cbn [js_file with_file with_engine with_closed ftruncate extended]. rewrite take_app_length. left. by apply journal_recovers.
      * cbn in Hn1, Hf. apply (Hsurv file n); [rewrite Nat.min_l in Hn1; lia|done].
    + cbn [js_engine js_file js_closed fsync ftruncate extended with_file with_engine with_closed]. rewrite Hrestore.
      split; [done|]. right. split_and!; [done|done|]. intros file [->|[[Hs1 Hs2] (n & Hn1 & Hf)]].
      * apply (Hsurv _ (length (js_file self) + k)%nat); [lia|]. cbn.
        symmetry. apply take_ge. rewrite length_app, length_take. lia.
      * cbn in Hn1, Hf. apply (Hsurv file n); [lia|done].
Qed.

(** [C3] Mutations are durable and atomic, whatever the file system does. A
    mutation that returns has the engine's result, the journal's bytes, only
    extended, now replay to the new engine, and if it wrote its event, or the
    file was synced before, all of the file is on stable storage: whatever a
    loss of power leaves, reopening gives the new engine. A mutation that
    raises leaves the engine as it was and the file as it was, still open, and
    synced if it was; only when the rollback itself fails does it close the
    store and raise [CorruptError], and then reopening the file, or what a loss
    of power leaves of one that was synced, gives the engine before the
    mutation or the one after it, never anything else. *)
Theorem mutation_durable (self : JsonlStore) (m : mutation) (io : Faults) :
  journal self -> js_closed self = false -> small m ->
  match run self m io with
  | (self', Ok r) =>
      run_engine (js_engine self) m = Ok (r, js_engine self') /\ journal self' /\ js_closed self' = false /\
      js_file self `prefix_of` js_file self' /\
      (is_synced self \/ js_file self' <> js_file self ->
       is_synced self' /\ forall file, survives self' file -> recovers file (js_engine self'))
  | (self', Raise e) =>
      js_engine self' = js_engine self /\
      (js_closed self' = false /\ js_file self' = js_file self /\ (is_synced self -> is_synced self') \/
       js_closed self' = true /\ e = CorruptError /\
       forall file, file = js_file self' \/ (is_synced self /\ survives self' file) ->
         recovers file (js_engine self) \/
         exists r engine, run_engine (js_engine self) m = Ok (r, engine) /\ recovers file engine)
  end.
Proof. apply run_durable. Qed.

(** [C5] Crash recovery: if the process dies at any point of an event's write
    (the file then holds what some sequence of partial [os.write]s put there),
    [init] and [open] recover exactly the engine before the mutation, unless
    the whole line had been written, and then exactly the engine after it. *)
Theorem crash_recovers (self : JsonlStore) (m : mutation) (r : option AppendResult) (engine : Engine)
    (item : json) (encoded : bytes) (writes : list (option Z)) :
  journal self -> small m -> run_engine (js_engine self) m = Ok (r, engine) ->
  run_event (js_engine self) m = Ok (Some item) -> encode_event item = Ok encoded ->
  let '(file, complete) := write_all (js_file self) encoded writes in
  recovers file (if complete then engine else js_engine self).
Proof.
  intros Hj Hsmall Hrun Hev Henc. pose proof (j_wf _ Hj) as Hwf.
  pose proof (run_engine_fits _ _ _ _ Hwf (j_fits _ Hj) Hsmall Hrun) as Hfits.
  destruct (step_wf _ _ Hwf (run_engine_step _ _ _ _ Hrun)) as [Hwf' _].
  destruct (run_replays _ _ _ _ Hwf Hrun Hfits) as [[He _]|(item' & He & Hrep)]; [congruence|].
  assert (item' = item) as -> by congruence.
  destruct (encoded_line _ _ _ _ Hrep Henc) as (line & -> & Hn & Hl).
  destruct (write_all_spec (js_file self) (line ++ [Byte.x0a]) writes) as (k & -> & Hk).
  rewrite length_app in Hk |- *. cbn [length] in Hk |- *. rewrite Nat.add_1_r in Hk |- *.
  by apply partial_recovers.
Qed.

Lemma replay_torn data ls tl repair io :
  split_lines data = (ls, tl) -> tl <> [] -> repair = false ->
  exists e, _replay data repair io = (data, Raise e).
Proof.
  intros Hs Ht ->. unfold _replay. rewrite Hs. destruct (replay_lines _ ls) as [[engine b]|e]; [|by exists e].
  rewrite bool_decide_false by done. by exists CorruptError.
Qed.

(** Opening. [open] of a journal under no other writer's lock gives its
    engine and takes the lock without touching the file; [init] of it changes
    nothing. While another writer holds the lock both raise
    [ContentionError]. A torn last line makes [open] raise [CorruptError] with
    the file unchanged, and [init] removes just that line. A missing file is
    an error for [open]. *)
Theorem open_correct (self : JsonlStore) (path : pystr) (io : Faults) (tl : bytes) :
  journal self -> path <> [] -> tl <> [] -> Byte.x0a ∉ tl ->
  open {| d_file := Some (js_file self); d_locked := false |} path io =
    ({| d_file := Some (js_file self); d_locked := true |},
     Ok (replayed (js_file self) (js_engine self))) /\
  init {| d_file := Some (js_file self); d_locked := false |} path io =
    ({| d_file := Some (js_file self); d_locked := false |}, Ok ()) /\
  (forall file, open {| d_file := Some file; d_locked := true |} path io =
    ({| d_file := Some file; d_locked := true |}, Raise ContentionError)) /\
  (forall file, init {| d_file := Some file; d_locked := true |} path io =
    ({| d_file := Some file; d_locked := true |}, Raise ContentionError)) /\
  open {| d_file := Some (js_file self ++ tl); d_locked := false |} path io =
    ({| d_file := Some (js_file self ++ tl); d_locked := false |}, Raise CorruptError) /\
  (faultless io ->
   init {| d_file := Some (js_file self ++ tl); d_locked := false |} path io =
     ({| d_file := Some (js_file self); d_locked := false |}, Ok ())) /\
  (forall locked, open {| d_file := None; d_locked := locked |} path io =
     ({| d_file := None; d_locked := locked |}, Raise OSError)).
Proof.
  intros [(ls & Hs & Hr) Hwf Hfits] Hpath Ht Hn.
  assert (split_lines (js_file self ++ tl) = (ls, tl)) as Hs'
    by by rewrite split_lines_app, Hs, split_lines_tail.
  assert (forall b, exists file', split_lines file' = (ls, []) /\ ([] = [] :> bytes -> file' = js_file self) /\
    _open {| d_file := Some (js_file self); d_locked := false |} path b io =
      ({| d_file := Some file'; d_locked := true |},
       Ok (replayed file' (js_engine self)))) as Ho.
  { intros b. by apply (open_file _ ls []); [..|left]. }
  split_and!.
  - destruct (Ho false) as (f & _ & Hf & E). rewrite (Hf eq_refl) in E. exact E.
  - destruct (Ho true) as (f & _ & Hf & E). rewrite (Hf eq_refl) in E. unfold init. by rewrite E.
  - intros file. unfold open, _open. by rewrite bool_decide_false.
  - intros file. unfold init, _open. by rewrite bool_decide_false.
  - unfold open, _open. rewrite bool_decide_false by done. cbn [d_file d_locked default from_option id].
    unfold _replay. rewrite Hs', Hr. by rewrite bool_decide_false.
  - intros [H1 H2]. unfold init, _open. rewrite bool_decide_false by done.
    cbn [d_file d_locked default from_option id]. unfold _replay. rewrite Hs', Hr, (bool_decide_false (tl = [])) by done.
    rewrite H1, H2. cbn [negb]. rewrite length_app, Nat.add_sub, take_app_length.
    rewrite bool_decide_false; [done|]. intros E. rewrite E in Hs. cbn in Hs. injection Hs as <-. done.
  - intros locked. unfold open, _open. by rewrite bool_decide_false.
Qed.

(** The journal [init] creates. *)
Definition init_line : bytes := default [] (match encode_event init_event with Ok b => Some b | Raise _ => None end).

Lemma init_line_eq : encode_event init_event = Ok init_line.
Proof. vm_compute. reflexivity. Qed.

Lemma init_line_shape : exists line, init_line = line ++ [Byte.x0a] /\ Byte.x0a ∉ line /\
  replay_lines (Engine.__init__, false) [line] = Ok (Engine.__init__, true).
Proof.
  exists (take (length init_line - 1) init_line). split_and!; [vm_compute; reflexivity| |vm_compute; reflexivity].
  apply (bool_decide_unpack _). vm_compute. exact I.
Qed.

Lemma init_line_recovers : recovers init_line Engine.__init__.
Proof.
  destruct init_line_shape as (line & -> & Hn & Hr).
  exact (recovers_intro _ [line] [] _ (split_lines_line _ Hn) Hr wf_init eq_refl).
Qed.

(** The empty store writes its first event. *)
Definition fresh : JsonlStore := replayed [] Engine.__init__.

Lemma append_init io :
  match _append_event fresh init_event io with
  | (s, Ok _) => s = fsync (replayed init_line Engine.__init__)
  | (s, Raise e) => (js_closed s = false -> e = OSError) /\ (exists k, js_file s = take k init_line) /\
      ~ ((write_all [] init_line (f_writes io)).2 = true /\ f_fsync io = true)
  end.
Proof.
  unfold _append_event. rewrite init_line_eq. change (js_file fresh) with (@nil byte). cbn [length].
  destruct (write_all_spec [] init_line (f_writes io)) as (k & -> & Hk). cbn [snd app].
  destruct (Nat.eqb_spec k (length init_line)) as [->|Hne]; cbn [andb].
  - rewrite take_ge by done. destruct (f_fsync io); [done|]. unfold _rollback.
    destruct (f_ftruncate io); [destruct (f_fsync_truncated io)|]; cbn [js_closed js_file]; split_and!;
      try done; try (intros [_ ?]; done); first [by exists 0%nat|exists (length init_line); by rewrite take_ge].
  - unfold _rollback. destruct (f_ftruncate io); [destruct (f_fsync_truncated io)|]; cbn [js_closed js_file];
      split_and!; try done; try (intros [? _]; done); first [by exists 0%nat|by exists k].
Qed.

(** [init] on a file with no complete line, after its tail is removed. *)
Lemma init_fresh data path io :
  path <> [] -> split_lines data = ([], data) -> data = [] \/ faultless io ->
  forall file, default [] file = data ->
  init {| d_file := file; d_locked := false |} path io =
  match _append_event fresh init_event io with
  | (s, Ok _) => ({| d_file := Some (js_file s); d_locked := false |}, Ok ())
  | (s, Raise e) => ({| d_file := Some (js_file s); d_locked := false |}, Raise (if js_closed s then OSError else e))
  end.
Proof.
  intros Hpath Hs Hio file Hf. unfold init, _open. rewrite bool_decide_false by done. cbn [d_file d_locked].
  assert (_replay data true io = ([], Ok Engine.__init__)) as Hrep.
  { unfold _replay. rewrite Hs. cbn [replay_lines]. case_bool_decide as Hd; [by rewrite Hd|].
    destruct Hio as [|[H1 H2]]; [done|]. rewrite H1, H2. cbn [negb]. by rewrite Nat.sub_diag. }
  destruct file as [f|]; cbn [default from_option id] in *; subst; rewrite Hrep;
    rewrite (bool_decide_true ([] = [])) by done; cbn [negb]; fold fresh; destruct (_append_event fresh init_event io) as [s [[]|]]; done.
Qed.

(** Creating a journal: on a missing or empty file whose lock is free,
    [init] either writes the initialization line, after which the file is the
    journal of an empty engine, or raises [OSError] leaving some part of that
    line; and calling [init] again once writes work completes it. *)
Theorem init_creates (file : option bytes) (path : pystr) (io io' : Faults) :
  default [] file = [] -> path <> [] ->
  faultless io' -> f_fsync io' = true -> (write_all [] init_line (f_writes io')).2 = true ->
  match init {| d_file := file; d_locked := false |} path io with
  | (disk, Ok _) => disk = {| d_file := Some init_line; d_locked := false |} /\ recovers init_line Engine.__init__
  | (disk, Raise e) => e = OSError /\ d_locked disk = false /\
      init disk path io' = ({| d_file := Some init_line; d_locked := false |}, Ok ())
  end.
Proof.
  intros Hfile Hpath Hio' Hsync Hwrites. rewrite (init_fresh [] path io) by (done || by left).
  pose proof (append_init io) as Ha. destruct (_append_event fresh init_event io) as [s [[]|e]].
  { rewrite Ha. cbn [js_file]. split; [done|]. apply init_line_recovers. }
  destruct Ha as (He & (k & Hk) & _). split_and!; [|done|].
  { destruct (js_closed s); [done|auto]. }
  rewrite Hk. destruct init_line_shape as (line & El & Hn & Hr). rewrite El in *.
  destruct (Nat.le_gt_cases (length (line ++ [Byte.x0a])) k) as [Hge|Hlt].
  - rewrite take_ge by done.
    destruct (open_file (line ++ [Byte.x0a]) [line] [] Engine.__init__ path true io') as (f & _ & Hf & Ho);
      [done|by apply split_lines_line|done|by left|]. unfold init. rewrite Ho. by rewrite (Hf eq_refl).
  - rewrite length_app in Hlt. cbn [length] in Hlt. rewrite take_app_le by lia.
    rewrite (init_fresh (take k line) path io') by (done || (by right) || apply split_lines_tail; intros Hin;
      apply Hn; rewrite <- (take_drop k line); apply elem_of_app; by left).
    pose proof (append_init io') as Ha. rewrite El in Ha.
    destruct (_append_event fresh init_event io') as [s' [[]|e']]; [by rewrite Ha|].
    destruct Ha as (_ & _ & Ha). tauto.
Qed.

(** ** The instance *)
Definition jsonl_view (self : JsonlStore) : option Engine :=
  if js_closed self then None else Some (js_engine self).

#[export] Instance jsonl_backend : Backend JsonlStore Faults.
Proof.
  refine {|
    view := jsonl_view;
    sound := journal;
    mutate := run;
    query := @Jsonl._read;
    sound_wf := _; mutate_open := _; mutate_closed := _; query_eq := _
  |}.
  - intros s engine Hs. unfold jsonl_view. destruct (js_closed s); [done|]. intros [= <-]. apply Hs.
  - intros s m io engine Hs Hv Hsmall. unfold jsonl_view in *. destruct (js_closed s) eqn:Ec; [done|].
    injection Hv as <-. pose proof (run_durable s m io Hs Ec Hsmall) as H.
    destruct (run s m io) as [s' [r|e]].
    + destruct H as (Hr & Hj & Hc & _). exists (js_engine s'). by rewrite Hc.
    + destruct H as (He & [(Hc & Hf & _)|[Hc _]]); rewrite Hc; [left|by right]. split; [by f_equal|].
      destruct Hs as [Hl Hwf Hfits]. split; by rewrite ?He, ?Hf.
  - intros s m io Hv. unfold jsonl_view in Hv. rewrite run_eq. by destruct (js_closed s).
  - intros A s read. unfold Jsonl._read, jsonl_view. by destruct (js_closed s).
Defined.

Lemma run_closed self m io : js_closed self = true -> run self m io = (self, Raise ClosedError).
Proof. intros Hc. by rewrite run_eq, Hc. Qed.

(** [C4] A journal's history survives. From a synced journal, whatever
    mutations are called and whatever each call meets of failing writes, syncs
    and truncations, the acknowledged mutations are a run of the engine, in
    order and with its replies; while the store is open it holds that engine;
    and whether the process or the power is lost afterwards, reopening what is
    left of the file gives that engine, all of the acknowledged mutations and
    nothing else; only when a failed rollback has closed the store may the one
    mutation it failed on be there as well. *)
Theorem journal_history_durable (self : JsonlStore) (ms : list (mutation * Faults)) :
  journal self -> js_closed self = false -> is_synced self -> small_calls ms ->
  let '(self', rs) := calls self ms in
  exists engine, accepts (js_engine self) (acknowledged ms rs) engine /\
    (js_closed self' = false -> js_engine self' = engine) /\
    forall file, file = js_file self' \/ survives self' file ->
      recovers file engine \/
      js_closed self' = true /\
      exists m r next, m ∈ map fst ms /\ run_engine engine m = Ok (r, next) /\ recovers file next.
Proof.
  revert self. induction ms as [|[m io] ms IH]; intros self Hj Ho Hs Hsmall.
  { exists (js_engine self). split_and!; [done|done|]. intros file [->|Hf]; left; [by apply journal_recovers|].
    apply synced_survives in Hf as ->; [|done]. by apply journal_recovers. }
  apply Forall_cons in Hsmall as [Hm Hsmall]. cbn [calls]. change (mutate self m io) with (run self m io).
  pose proof (run_durable self m io Hj Ho Hm) as Hrun. destruct (run self m io) as [self1 [r|e]].
  - destruct Hrun as (Hr & Hj1 & Ho1 & _ & Hs1). destruct (Hs1 (or_introl Hs)) as [Hsync _].
    specialize (IH self1 Hj1 Ho1 Hsync Hsmall). destruct (calls self1 ms) as [self' rs].
    destruct IH as (engine & Ha & He & Hf). exists engine. cbn [acknowledged accepts].
    split_and!; [by exists (js_engine self1)|done|]. intros file Hfile.
    destruct (Hf file Hfile) as [|(Hc & m' & r' & next & Hm' & ? & ?)]; [by left|right].
    split; [done|]. exists m', r', next. split_and!; [by right|done|done].
  - destruct Hrun as (He & [(Hc & Hfile & Hsync)|(Hc & _ & Hrec)]).
    + assert (journal self1) as Hj1 by (destruct Hj as [Hl ? ?]; split; by rewrite ?He, ?Hfile).
      specialize (IH self1 Hj1 Hc (Hsync Hs) Hsmall). destruct (calls self1 ms) as [self' rs]. rewrite He in IH.
      destruct IH as (engine & Ha & He' & Hf). exists engine. cbn [acknowledged].
      split_and!; [done|done|]. intros file Hfile'.
      destruct (Hf file Hfile') as [|(Hc' & m' & r' & next & Hm' & ? & ?)]; [by left|right].
      split; [done|]. exists m', r', next. split_and!; [by right|done|done].
    + destruct (calls_closed self1 ms) as [E1 E2]; [cbn; unfold jsonl_view; by rewrite Hc|].
      destruct (calls self1 ms) as [self' rs]. cbn [fst snd] in E1, E2. subst self'. cbn [acknowledged]. rewrite E2.
      exists (js_engine self). split_and!; [done|by rewrite Hc|]. intros file Hfile.
      destruct (Hrec file) as [|(r & next & ? & ?)]; [tauto|by left|right]. split; [done|].
      exists m, r, next. split_and!; [by left|done|done].
Qed.

(** ** A concrete journal

    A journal with only its first line, one append and a short write, used to
    apply the journal theorems. *)
Definition store0 : JsonlStore := fsync (replayed init_line Engine.__init__).
Definition io_good : Faults :=
  {| f_writes := [Some 20; Some 1000]; f_fsync := true; f_ftruncate := true; f_fsync_truncated := true |}.
Definition path0 : pystr := str "log".
Definition tail0 : bytes := [Byte.x7b].

Lemma journal0 : journal store0.
Proof.
  destruct init_line_shape as (line & E & Hn & Hr). split; [|exact wf_init|reflexivity].
  exists [line]. split; [|exact Hr]. unfold store0. cbn [js_file]. rewrite E. by apply split_lines_line.
Qed.

Lemma run_append0 :
  run_engine Engine.__init__ (MAppend input0) = Ok (Some {| ar_entry := entry0; ar_outcome := INSERTED |}, engine1).
Proof. unfold run_engine. by rewrite append0. Qed.

Definition event0 : json := event_of "entry.append"
  [(str "entry", match entry_to_wire entry0 with Ok j => j | Raise _ => JNull end)].
Definition encoded0 : bytes := match encode_event event0 with Ok b => b | Raise _ => [] end.

Lemma event0_eq : run_event (js_engine store0) (MAppend input0) = Ok (Some event0).
Proof. vm_compute. reflexivity. Qed.
Lemma encoded0_eq : encode_event event0 = Ok encoded0.
Proof. vm_compute. reflexivity. Qed.

Lemma mutation_durable_witness :
  journal store0 /\ js_closed store0 = false /\
  (run store0 (MAppend input0) io_good).1.(js_engine) = engine1 /\
  journal (run store0 (MAppend input0) io_good).1 /\ is_synced (run store0 (MAppend input0) io_good).1.
Proof.
  split; [exact journal0|]. split; [reflexivity|].
  pose proof (mutation_durable store0 (MAppend input0) io_good journal0 eq_refl I) as H.
  destruct (run store0 (MAppend input0) io_good) as [s [r|e]] eqn:E.
  - destruct H as (Hr & Hj & _ & _ & Hs). split; [|exact (conj Hj (proj1 (Hs (or_introl (synced_fsync _)))))]. change (js_engine store0) with Engine.__init__ in Hr.
    rewrite run_append0 in Hr. apply Ok_inj in Hr. by injection Hr.
  - exfalso. assert (is_ok (run store0 (MAppend input0) io_good).2 = true) as Hok by (vm_compute; reflexivity).
    rewrite E in Hok. discriminate Hok.
Defined.

Lemma crash_recovers_witness :
  recovers (write_all (js_file store0) encoded0 [Some 20; None]).1 Engine.__init__ /\
  recovers (write_all (js_file store0) encoded0 [Some 20; Some 1000]).1 engine1.
Proof.
  split.
  - pose proof (crash_recovers store0 (MAppend input0) _ engine1 event0 encoded0 [Some 20; None] journal0
      I run_append0 event0_eq encoded0_eq) as H.
    destruct (write_all (js_file store0) encoded0 [Some 20; None]) as [f b] eqn:E.
    assert (b = false) as -> by (change b with (f, b).2; rewrite <- E; vm_compute; reflexivity). exact H.
  - pose proof (crash_recovers store0 (MAppend input0) _ engine1 event0 encoded0 [Some 20; Some 1000] journal0
      I run_append0 event0_eq encoded0_eq) as H.
    destruct (write_all (js_file store0) encoded0 [Some 20; Some 1000]) as [f b] eqn:E.
    assert (b = true) as -> by (change b with (f, b).2; rewrite <- E; vm_compute; reflexivity). exact H.
Defined.

Lemma open_correct_witness :
  open {| d_file := Some (init_line ++ tail0); d_locked := false |} path0 io_good =
    ({| d_file := Some (init_line ++ tail0); d_locked := false |}, Raise CorruptError) /\
  init {| d_file := Some (init_line ++ tail0); d_locked := false |} path0 io_good =
    ({| d_file := Some init_line; d_locked := false |}, Ok ()).
Proof.
  assert (Byte.x0a ∉ tail0) as Hn by (apply (bool_decide_unpack _); vm_compute; exact I).
  destruct (open_correct store0 path0 io_good tail0 journal0 ltac:(discriminate) ltac:(discriminate) Hn)
    as (_ & _ & _ & _ & H1 & H2 & _).
  split; [exact H1|]. apply H2. split; reflexivity.
Defined.

Lemma init_creates_witness :
  init {| d_file := None; d_locked := false |} path0 io_good =
    ({| d_file := Some init_line; d_locked := false |}, Ok ()) /\
  recovers init_line Engine.__init__.
Proof.
  assert ((write_all [] init_line (f_writes io_good)).2 = true) as Hw by (vm_compute; reflexivity).
  assert (init {| d_file := None; d_locked := false |} path0 io_good =
    ({| d_file := Some init_line; d_locked := false |}, Ok ())) as E by (vm_compute; reflexivity).
  split; [exact E|].
  pose proof (init_creates None path0 io_good io_good eq_refl ltac:(discriminate) (conj eq_refl eq_refl) eq_refl Hw) as H.
  rewrite E in H. destruct H as [_ H]. exact H.
Defined.

(** ** The interface at both backends *)
Lemma journal_history_durable_witness :
  let ms := [(MAppend input0, io_good); (MAppend input0, io_good)] in
  let '(store, rs) := calls store0 ms in
  exists engine, accepts (js_engine store0) (acknowledged ms rs) engine /\
    (js_closed store = false -> js_engine store = engine) /\
    forall file, file = js_file store \/ survives store file ->
      recovers file engine \/
      js_closed store = true /\
      exists m r next, m ∈ map fst ms /\ run_engine engine m = Ok (r, next) /\ recovers file next.
Proof.
  intros ms. apply (journal_history_durable store0 ms journal0 eq_refl (synced_fsync _)). repeat constructor.
Defined.

Lemma acknowledged_entry_found_witness :
  view (calls (Memory.put Memory.__init__ engine1) [(MAppend input0, ())]).1 <> None /\
  query (calls (Memory.put Memory.__init__ engine1) [(MAppend input0, ())]).1
    (fun engine => Engine.get_entry engine (PBytes value0)) = Ok entry0.
Proof.
  assert (view (calls (Memory.put Memory.__init__ engine1) [(MAppend input0, ())]).1 <> None) as Hv
    by (vm_compute; discriminate).
  split; [exact Hv|].
  assert (mutate Memory.__init__ (MAppend input0) () =
    (Memory.put Memory.__init__ engine1, Ok (Some {| ar_entry := entry0; ar_outcome := INSERTED |}))) as E
    by (vm_compute; reflexivity).
  destruct (@acknowledged_entry_found MemoryStore () memory_backend Memory.__init__ input0 () _ _ [(MAppend input0, ())] Engine.__init__
    wf_init eq_refl ltac:(repeat constructor) E) as [H|H]; [contradiction|exact H].
Defined.
