(* ===== verification/Sql.v ===== *)
(** * The relational backend

    [src/python/log/sql.py]: the operations the SQLite and MySQL backends
    share, as programs of SQL statements, over the four tables of a database
    that holds several logs. A statement is one constructor of [stmt]; [exec]
    is what it does to the tables. *)
From S2P Require Import Prelude Bytes Text Py Cll Json PyJson Calendar Base64 Wire Engine Jsonl.
From stdpp Require Import sorting.
Open Scope Z_scope.

(** ** Tables

    The columns that statements compare or order by have the type of their
    declaration; a [BLOB] column keeps whatever value is stored in it, and so
    does [appended_at]. No [REAL] value is modelled. *)
Inductive cell := Integer (n : Z) | Text (s : pystr) | Blob (bs : bytes).

Record EntryRow := { er_log_id : pystr; er_seq : Z; er_value : cell; er_appended_at : cell }.
Record NodeRow := { nr_log_id : pystr; nr_position : Z; nr_node : cell }.
Record WitnessRow := {
  tr_log_id : pystr; tr_witness_id : pystr; tr_checkpoint_size : pystr; tr_attempts : Z; tr_witness : cell
}.

(** Rows in the order they were stored; the keys are enforced by [effect].
    [created] tables of the schema exist, in its order: [cll_meta],
    [cll_entries], [cll_nodes], [cll_witnesses]. *)
Record Database := {
  created : nat;
  cll_meta : list (pystr * cell);
  cll_entries : list EntryRow;
  cll_nodes : list NodeRow;
  cll_witnesses : list WitnessRow
}.

#[export] Instance cell_eq_dec : EqDecision cell.
Proof. solve_decision. Defined.

(** The value Python receives for a cell. *)
Definition py_cell (c : cell) : pyval :=
  match c with Integer n => PInt n | Text s => PStr s | Blob bs => PBytes bs end.

(** The SQL function [length]: characters before a NUL, bytes of a blob. *)
Fixpoint until_nul (s : pystr) : pystr :=
  match s with [] => [] | c :: s => if c =? 0 then [] else c :: until_nul s end.
Definition sql_length (c : cell) : Z :=
  match c with
  | Integer n => zlen (str_int n)
  | Text s => zlen (until_nul s)
  | Blob bs => zlen bs
  end.

(** ** Statements *)
Inductive stmt : Type -> Type :=
| SelectState (log_id : pystr) (for_update : bool) : stmt (option cell)
| SelectWidths (log_id : pystr) : stmt (list (Z * Z * cell))
| SelectNodes (log_id : pystr) : stmt (list (Z * cell))
| SelectWitnesses (log_id : pystr) (witness_id : option pystr) : stmt (list (pystr * pystr * Z * cell))
| SelectWitness (log_id witness_id checkpoint_size : pystr) : stmt (option (pystr * pystr * Z * cell))
| SelectEntry (log_id : pystr) (value : bytes) : stmt (option (Z * cell * cell))
| SelectEntries (log_id : pystr) (after_seq limit : Z) : stmt (list (Z * cell * cell))
| SelectMaxSeq (log_id : pystr) : stmt (option Z)
| InsertEntry (row : EntryRow) : stmt ()
| InsertNode (row : NodeRow) : stmt ()
| InsertWitness (row : WitnessRow) : stmt ()
| InsertMetaOrIgnore (log_id : pystr) (state : cell) : stmt ()
| UpdateState (log_id : pystr) (state : cell) : stmt ()
| UpdateWitness (row : WitnessRow) (attempts : Z) : stmt Z
| CreateTable (table : nat) : stmt ()
| Pragma : stmt ().

(** The tables that must exist. *)
Definition needs {B} (s : stmt B) : nat :=
  match s with
  | SelectState _ _ | InsertMetaOrIgnore _ _ | UpdateState _ _ => 1
  | SelectWidths _ | SelectEntry _ _ | SelectEntries _ _ _ | SelectMaxSeq _ | InsertEntry _ => 2
  | SelectNodes _ | InsertNode _ => 3
  | SelectWitnesses _ _ | SelectWitness _ _ _ | InsertWitness _ | UpdateWitness _ _ => 4
  | CreateTable _ | Pragma => 0
  end.

(** [ORDER BY] an integer column, and [ORDER BY checkpoint_size,witness_id],
    texts in the order of their
    code points, which is that of their UTF-8 bytes. *)
Definition entry_le (a b : EntryRow) : Prop := er_seq a <= er_seq b.
Definition node_le (a b : NodeRow) : Prop := nr_position a <= nr_position b.
Definition witness_leb (a b : WitnessRow) : bool :=
  if bool_decide (tr_checkpoint_size a = tr_checkpoint_size b) then str_leb (tr_witness_id a) (tr_witness_id b)
  else str_leb (tr_checkpoint_size a) (tr_checkpoint_size b).
Definition witness_le (a b : WitnessRow) : Prop := Is_true (witness_leb a b).
#[export] Instance entry_le_dec a b : Decision (entry_le a b).
Proof. unfold entry_le. apply _. Defined.
#[export] Instance node_le_dec a b : Decision (node_le a b).
Proof. unfold node_le. apply _. Defined.
#[export] Instance witness_le_dec a b : Decision (witness_le a b).
Proof. unfold witness_le. apply _. Defined.

(** [WHERE log_id=?] *)
Definition entries_of (db : Database) (log_id : pystr) : list EntryRow :=
  merge_sort entry_le (filter (fun r => er_log_id r = log_id) (cll_entries db)).
Definition nodes_of (db : Database) (log_id : pystr) : list NodeRow :=
  merge_sort node_le (filter (fun r => nr_log_id r = log_id) (cll_nodes db)).
Definition witnesses_of (db : Database) (log_id : pystr) : list WitnessRow :=
  merge_sort witness_le (filter (fun r => tr_log_id r = log_id) (cll_witnesses db)).
Definition state_of (db : Database) (log_id : pystr) : option cell :=
  snd <$> List.find (fun r => bool_decide (r.1 = log_id)) (cll_meta db).

Definition entry_columns (r : EntryRow) : Z * cell * cell := (er_seq r, er_value r, er_appended_at r).
Definition witness_columns (r : WitnessRow) : pystr * pystr * Z * cell :=
  (tr_witness_id r, tr_checkpoint_size r, tr_attempts r, tr_witness r).

(** The keys of the tables. *)
Definition same_entry_key (a b : EntryRow) : bool :=
  bool_decide (er_log_id a = er_log_id b) && ((er_seq a =? er_seq b) || bool_decide (er_value a = er_value b)).
Definition same_node_key (a b : NodeRow) : bool :=
  bool_decide (nr_log_id a = nr_log_id b) && (nr_position a =? nr_position b).
Definition same_witness_key (a b : WitnessRow) : bool :=
  bool_decide (tr_log_id a = tr_log_id b) && bool_decide (tr_witness_id a = tr_witness_id b)
  && bool_decide (tr_checkpoint_size a = tr_checkpoint_size b).

Definition max_seq (rows : list EntryRow) : option Z :=
  fold_right (fun r m => Some (match m with Some n => Z.max (er_seq r) n | None => er_seq r end)) None rows.

(** [UPDATE]: the rows that match are replaced; the answer is [rowcount]. *)
Definition update_where {A} (matches : A -> bool) (f : A -> A) (rows : list A) : list A :=
  map (fun r => if matches r then f r else r) rows.
Definition count_where {A} (matches : A -> bool) (rows : list A) : Z := zlen (filter (fun r => matches r = true) rows).

Definition with_meta (db : Database) (rows : list (pystr * cell)) : Database :=
  {| created := created db; cll_meta := rows; cll_entries := cll_entries db; cll_nodes := cll_nodes db; cll_witnesses := cll_witnesses db |}.
Definition with_witnesses (db : Database) (rows : list WitnessRow) : Database :=
  {| created := created db; cll_meta := cll_meta db; cll_entries := cll_entries db; cll_nodes := cll_nodes db; cll_witnesses := rows |}.
Definition with_nodes (db : Database) (rows : list NodeRow) : Database :=
  {| created := created db; cll_meta := cll_meta db; cll_entries := cll_entries db; cll_nodes := rows; cll_witnesses := cll_witnesses db |}.
Definition with_entries (db : Database) (rows : list EntryRow) : Database :=
  {| created := created db; cll_meta := cll_meta db; cll_entries := rows; cll_nodes := cll_nodes db; cll_witnesses := cll_witnesses db |}.

Definition with_tables (db : Database) (n : nat) : Database :=
  {| created := n; cll_meta := cll_meta db; cll_entries := cll_entries db; cll_nodes := cll_nodes db;
     cll_witnesses := cll_witnesses db |}.

Definition effect {B} (s : stmt B) (db : Database) : result (B * Database) :=
  match s in stmt B return result (B * Database) with
  | SelectState id _ => Ok (state_of db id, db)
  | SelectWidths id =>
      Ok (map (fun r => (er_seq r, sql_length (er_value r), er_appended_at r)) (entries_of db id), db)
  | SelectNodes id => Ok (map (fun r => (nr_position r, nr_node r)) (nodes_of db id), db)
  | SelectWitnesses id None => Ok (map witness_columns (witnesses_of db id), db)
  | SelectWitnesses id (Some witness_id) =>
      Ok (map witness_columns (filter (fun r => tr_witness_id r = witness_id) (witnesses_of db id)), db)
  | SelectWitness id witness_id size =>
      Ok (witness_columns <$>
          List.find (fun r => bool_decide (tr_witness_id r = witness_id) && bool_decide (tr_checkpoint_size r = size))
            (witnesses_of db id), db)
  | SelectEntry id value =>
      Ok (entry_columns <$> List.find (fun r => bool_decide (er_value r = Blob value)) (entries_of db id), db)
  | SelectEntries id after_seq limit =>
      Ok (take (Z.to_nat limit) (map entry_columns (filter (fun r => after_seq < er_seq r) (entries_of db id))), db)
  | SelectMaxSeq id => Ok (max_seq (entries_of db id), db)
  | InsertEntry row =>
      if existsb (same_entry_key row) (cll_entries db) then Raise IntegrityError
      else Ok ((), with_entries db (cll_entries db ++ [row]))
  | InsertNode row =>
      if existsb (same_node_key row) (cll_nodes db) then Raise IntegrityError
      else Ok ((), with_nodes db (cll_nodes db ++ [row]))
  | InsertWitness row =>
      if existsb (same_witness_key row) (cll_witnesses db) then Raise IntegrityError
      else Ok ((), with_witnesses db (cll_witnesses db ++ [row]))
  | InsertMetaOrIgnore id state =>
      Ok ((), match state_of db id with Some _ => db | None => with_meta db (cll_meta db ++ [(id, state)]) end)
  | UpdateState id state =>
      Ok ((), with_meta db (update_where (fun r => bool_decide (r.1 = id)) (fun r => (r.1, state)) (cll_meta db)))
  | UpdateWitness row attempts =>
      let matches r := same_witness_key row r && (tr_attempts r =? attempts) in
      Ok (count_where matches (cll_witnesses db), with_witnesses db (update_where matches (fun _ => row) (cll_witnesses db)))
  | CreateTable n => Ok ((), if bool_decide (n = created db) then with_tables db (S n) else db)
  | Pragma => Ok ((), db)
  end.

Definition exec {B} (s : stmt B) (db : Database) : result (B * Database) :=
  if bool_decide (needs s <= created db)%nat then effect s db else Raise SqliteError.

(** ** Programs *)
Inductive sql (A : Type) : Type :=
| Done (r : result A)
| Execute {B : Type} (s : stmt B) (k : B -> sql A).
Arguments Done {A} r.
Arguments Execute {A B} s k.

Fixpoint sql_bind {A B} (p : sql A) (f : A -> sql B) : sql B :=
  match p with
  | Done (Ok a) => f a
  | Done (Raise e) => Done (Raise e)
  | Execute s k => Execute s (fun b => sql_bind (k b) f)
  end.

Declare Scope sql_scope.
Delimit Scope sql_scope with sql.
Notation "'let*' x ':=' p 'in' q" := (sql_bind p (fun x => q))
  (at level 10, x pattern, p at level 100, q at level 200,
   format "'[v' 'let*'  x  ':='  p  'in' '/' q ']'") : sql_scope.
Open Scope sql_scope.

Definition execute {B} (s : stmt B) : sql B := Execute s (fun b => Done (Ok b)).

(** What the surroundings answer while a program runs: for each statement in
    turn, the error the database reports instead of executing it, if any. *)
Definition faults : Type := list (option exn).

Fixpoint run_sql {A} (p : sql A) (db : Database) (io : faults) : result (A * Database) :=
  match p with
  | Done (Ok a) => Ok (a, db)
  | Done (Raise e) => Raise e
  | Execute s k =>
      match mjoin (head io) with
      | Some e => Raise e
      | None => let! (b, db) := exec s db in run_sql (k b) db (tail io)
      end
  end.

(** Outside a transaction every statement is committed by itself. *)
Fixpoint run_auto {A} (p : sql A) (db : Database) (io : faults) : result A * Database :=
  match p with
  | Done r => (r, db)
  | Execute s k =>
      match mjoin (head io) with
      | Some e => (Raise e, db)
      | None => match exec s db with Ok (b, db) => run_auto (k b) db (tail io) | Raise e => (Raise e, db) end
      end
  end.

(** ** Rows *)
Definition _json (raw : cell) : result json :=
  let decoded :=
    match raw with
    | Blob bs => wire_loads bs
    | Text s => loads s
    | Integer _ => Raise TypeError
    end in
  match decoded with Ok v => Ok v | Raise _ => Raise CorruptError end.

(** [cll_meta.state] *)
Definition metadata (state : CllState) : result bytes :=
  let! wire :=
    state_to_wire {| cs_size := cs_size state; cs_nodes := []; cs_indexed_seq := cs_indexed_seq state;
                     cs_first_pending_at := cs_first_pending_at state; cs_checkpoint := cs_checkpoint state;
                     cs_witnesses := [] |} in
  wire_dumps wire.

Definition entry_from_row (row : Z * cell * cell) : result Entry :=
  let '(seq, value, appended_at) := row in
  if negb ((0 <? seq) && (seq <=? MAX_PORTABLE_INTEGER)) then Raise CorruptError
  else
    match _width (py_cell value) ENTRY_BYTES ENTRY_BYTES with
    | None => Raise CorruptError
    | Some value =>
        let! appended_at := parse_time (as_str (py_cell appended_at)) CorruptError in
        Ok {| e_seq := seq; e_value := value; e_appended_at := appended_at |}
    end.

(** An [attempts] of another type that [==] equates with the column is refused
    by the decoder, with the same error. *)
Definition witness_from_row (row : pystr * pystr * Z * cell) : result WitnessState :=
  let '(witness_id, checkpoint_size, attempts, encoded) := row in
  let! wire := _json encoded in
  match wire with
  | JDict d =>
      if negb (is_str_field d "witnessId" witness_id) || negb (is_str_field d "checkpointSize" checkpoint_size)
         || negb (is_int_field d "attempts" attempts)
      then Raise CorruptError
      else let! w := witness_from_wire wire CorruptError in validate_witness (Inst w) CorruptError
  | _ => Raise CorruptError
  end.

(** Positions from 0 on, each with a 32-byte node. *)
Fixpoint nodes_from_rows (position : Z) (rows : list (Z * cell)) : result (list bytes) :=
  match rows with
  | [] => Ok []
  | (p, node) :: rows =>
      if negb (p =? position) then Raise CorruptError
      else
        match _width (py_cell node) ENTRY_BYTES ENTRY_BYTES with
        | None => Raise CorruptError
        | Some node => let! nodes := nodes_from_rows (position + 1) rows in Ok (node :: nodes)
        end
  end.

Fixpoint check_widths (expected : Z) (rows : list (Z * Z * cell)) : result () :=
  match rows with
  | [] => Ok ()
  | (seq, width, appended_at) :: rows =>
      if negb (seq =? expected) || (MAX_PORTABLE_INTEGER <? seq) || negb (width =? ENTRY_BYTES)
      then Raise CorruptError
      else
        let! _ := parse_time (as_str (py_cell appended_at)) CorruptError in
        check_widths (expected + 1) rows
  end.

(** ** Operations *)
Definition lift {A} (r : result A) : sql A := Done r.

Module Sql.
Definition validate_entries (log_id : pystr) : sql () :=
  let* rows := execute (SelectWidths log_id) in lift (check_widths 1 rows).

Definition load_witnesses (log_id : pystr) (witness_id : option pystr) : sql (list WitnessState) :=
  let* rows := execute (SelectWitnesses log_id witness_id) in
  let* rows := lift (map_result witness_from_row rows) in
  if bool_decide (NoDup (map witness_key rows)) then lift (Ok rows) else lift (Raise CorruptError).

Definition load_state (log_id : pystr) (for_update : bool) : sql CllState :=
  let* row := execute (SelectState log_id for_update) in
  match row with
  | None => lift (Raise CorruptError)
  | Some raw =>
      let* wire := lift (_json raw) in
      match wire with
      | JDict wire =>
          let* rows := execute (SelectNodes log_id) in
          let* nodes := lift (nodes_from_rows 0 rows) in
          let wire := dict_set wire (str "nodes") (JList (map (fun n => JStr (encode_bytes n)) nodes)) in
          let wire := dict_set wire (str "witnesses") (JList []) in
          let* state := lift (state_from_wire (JDict wire) CorruptError) in
          let* witnesses := load_witnesses log_id None in
          lift (validate_state (Inst
            {| Arg.state_size := Arg.state_size state; Arg.nodes := Arg.nodes state;
               Arg.state_indexed_seq := Arg.state_indexed_seq state;
               Arg.first_pending_at := Arg.first_pending_at state;
               Arg.state_checkpoint := Arg.state_checkpoint state;
               Arg.witnesses := Some (map (fun w => Inst (witness_arg w)) witnesses) |}) CorruptError)
      | _ => lift (Raise CorruptError)
      end
  end.

Definition _find_entry (log_id : pystr) (value : bytes) : sql (option Entry) :=
  let* row := execute (SelectEntry log_id value) in
  match row with
  | None => lift (Ok None)
  | Some row => lift (let! e := entry_from_row row in Ok (Some e))
  end.

(** The row lock MySQL takes first. *)
Definition lock_log (log_id : pystr) (lock : bool) : sql () :=
  if lock then
    let* row := execute (SelectState log_id true) in
    match row with None => lift (Raise CorruptError) | Some _ => lift (Ok ()) end
  else lift (Ok ()).

Definition append (log_id : pystr) (input : arg Arg.AppendInput) (lock : bool) : sql AppendResult :=
  let* (value, appended_at) := lift (check_append input) in
  let* _ := lock_log log_id lock in
  let* found := _find_entry log_id value in
  match found with
  | Some found => lift (Ok {| ar_entry := found; ar_outcome := IDEMPOTENT |})
  | None =>
      let* maximum := execute (SelectMaxSeq log_id) in
      let seq := match maximum with None => 1 | Some n => n + 1 end in
      if MAX_PORTABLE_INTEGER <? seq then lift (Raise InvalidError)
      else
        let* text := lift (format_time (utc_datetime appended_at)) in
        let* _ :=
          execute (InsertEntry {| er_log_id := log_id; er_seq := seq; er_value := Blob value; er_appended_at := Text text |}) in
        lift (Ok {| ar_entry := {| e_seq := seq; e_value := value; e_appended_at := appended_at |}; ar_outcome := INSERTED |})
  end.

Definition get_entry (log_id : pystr) (value : pyval) : sql Entry :=
  let* value := lift (check_value value) in
  let* found := _find_entry log_id value in
  match found with None => lift (Raise NotFoundError) | Some e => lift (Ok e) end.

Definition entry_count (log_id : pystr) : sql Z :=
  let* maximum := execute (SelectMaxSeq log_id) in
  match maximum with
  | None => lift (Ok 0)
  | Some count =>
      if (count <? 1) || (MAX_PORTABLE_INTEGER <? count) then lift (Raise CorruptError) else lift (Ok count)
  end.

Definition scan_entries (log_id : pystr) (after_seq limit : pyval) : sql (list Entry) :=
  let* (after_seq, limit) := lift (check_scan after_seq limit) in
  let* rows := execute (SelectEntries log_id after_seq limit) in
  lift (map_result entry_from_row rows).

Fixpoint insert_nodes (log_id : pystr) (position : Z) (nodes : list bytes) : sql () :=
  match nodes with
  | [] => lift (Ok ())
  | node :: nodes =>
      let* _ := execute (InsertNode {| nr_log_id := log_id; nr_position := position; nr_node := Blob node |}) in
      insert_nodes log_id (position + 1) nodes
  end.

(** The row of the table for a witness row. *)
Definition table_row (log_id : pystr) (row : WitnessState) : result WitnessRow :=
  let! wire := witness_to_wire row in
  let! encoded := wire_dumps wire in
  Ok {| tr_log_id := log_id; tr_witness_id := ws_witness_id row; tr_checkpoint_size := str_int (ws_checkpoint_size row);
        tr_attempts := ws_attempts row; tr_witness := Blob encoded |}.

Fixpoint insert_witnesses (log_id : pystr) (rows : list WitnessState) : sql () :=
  match rows with
  | [] => lift (Ok ())
  | row :: rows =>
      let* row := lift (table_row log_id row) in
      let* _ := execute (InsertWitness row) in
      insert_witnesses log_id rows
  end.

Definition commit_cll (log_id : pystr) (expected_size expected_checkpoint : pyval) (next : arg Arg.CllState)
    (for_update : bool) : sql () :=
  let* current := load_state log_id for_update in
  let* updated := lift (apply_cll current expected_size expected_checkpoint next) in
  let* encoded := lift (metadata updated) in
  let* _ := execute (UpdateState log_id (Blob encoded)) in
  let* _ := insert_nodes log_id (zlen (cs_nodes current)) (drop (length (cs_nodes current)) (cs_nodes updated)) in
  insert_witnesses log_id (drop (length (cs_witnesses current)) (cs_witnesses updated)).

Definition pending_witnesses (log_id : pystr) (now limit : pyval) : sql (list WitnessState) :=
  let* (now, limit) := lift (check_pending now limit) in
  let* rows := load_witnesses log_id None in
  lift (pending rows now limit None).

Definition pending_witnesses_for (log_id : pystr) (witness_id now limit : pyval) : sql (list WitnessState) :=
  let* (id, (now, limit)) := lift (check_pending_for witness_id now limit) in
  let* rows := load_witnesses log_id (Some id) in
  lift (pending rows now limit (Some id)).

Definition get_witness (log_id : pystr) (witness_id checkpoint_size : pyval) : sql (option WitnessState) :=
  let* (id, size) := lift (check_witness_key witness_id checkpoint_size) in
  let* row := execute (SelectWitness log_id id (str_int size)) in
  match row with
  | None => lift (Ok None)
  | Some row => lift (let! w := witness_from_row row in Ok (Some w))
  end.

Definition commit_witness (log_id : pystr) (expected_attempts : pyval) (next : arg Arg.WitnessState) : sql () :=
  let* next := lift (validate_witness next InvalidError) in
  let* attempts := lift (check_expected_attempts expected_attempts) in
  let* current := get_witness log_id (PStr (ws_witness_id next)) (PInt (ws_checkpoint_size next)) in
  match current with
  | None => lift (Raise ContentionError)
  | Some current =>
      let* (_, updated) := lift (apply_witness [current] expected_attempts (Inst (witness_arg next))) in
      let* row := lift (table_row log_id updated) in
      let* rowcount := execute (UpdateWitness row attempts) in
      if negb (rowcount =? 1) then lift (Raise ContentionError) else lift (Ok ())
  end.
End Sql.
