(* ===== verification/Sqlite.v ===== *)
(** * The SQLite backend

    [src/python/log/sqlite.py]: a transaction around each operation of the
    relational backend, on a database file that other handles share. The
    database engine may fail at any statement: [SqliteBusy] is an operational
    error that reports a locked or busy database, [SqliteError] any other. *)
From S2P Require Import Prelude Bytes Text Py Cll Json Wire Engine Backend Sql.
Open Scope Z_scope.

(** A handle on a log; its connection may hold a transaction that a failed
    [COMMIT] or [ROLLBACK] left open. *)
Record SqliteStore := { _log_id : pystr; in_transaction : bool; sq_closed : bool }.

(** One call's surroundings: what fails at the begin, at each statement and at
    the end, and whether the transaction is then still open. *)
Record SqliteFaults := {
  io_begin : option exn; io_statements : faults; io_end : option (exn * bool)
}.
Definition no_faults : SqliteFaults := {| io_begin := None; io_statements := []; io_end := None |}.

(** [_classified] *)
Definition classified (e : exn) : exn := match e with SqliteBusy => ContentionError | e => e end.

Definition left_open (self : SqliteStore) (b : bool) : SqliteStore :=
  {| _log_id := _log_id self; in_transaction := b; sq_closed := sq_closed self |}.

(** [_transaction]: what the file holds afterwards, the handle, the answer. *)
Definition _transaction {A} (self : SqliteStore) (db : Database) (body : sql A) (io : SqliteFaults)
  : SqliteStore * Database * result A :=
  if sq_closed self then (self, db, Raise ClosedError)
  else if in_transaction self then (self, db, Raise SqliteError)
  else
    match io_begin io with
    | Some e => (self, db, Raise (classified e))
    | None =>
        match run_sql body db (io_statements io), io_end io with
        | Raise e, None => (self, db, Raise (classified e))
        | Ok (a, db'), None => (self, db', Ok a)
        | _, Some (e, b) => (left_open self b, db, Raise (classified e))
        end
    end.

Module Sqlite.
Section operations.
Context (self : SqliteStore) (db : Database) (io : SqliteFaults).

Definition append (input : arg Arg.AppendInput) : SqliteStore * Database * result AppendResult :=
  _transaction self db (Sql.append (_log_id self) input false) io.
Definition get_entry (value : pyval) : SqliteStore * Database * result Entry :=
  _transaction self db (Sql.get_entry (_log_id self) value) io.
Definition entry_count : SqliteStore * Database * result Z :=
  _transaction self db (Sql.entry_count (_log_id self)) io.
Definition scan_entries (after_seq limit : pyval) : SqliteStore * Database * result (list Entry) :=
  _transaction self db (Sql.scan_entries (_log_id self) after_seq limit) io.
Definition load_cll : SqliteStore * Database * result CllState :=
  _transaction self db (Sql.load_state (_log_id self) false) io.
Definition commit_cll (expected_size expected_checkpoint : pyval) (next : arg Arg.CllState)
  : SqliteStore * Database * result () :=
  _transaction self db (Sql.commit_cll (_log_id self) expected_size expected_checkpoint next false) io.
Definition pending_witnesses (now limit : pyval) : SqliteStore * Database * result (list WitnessState) :=
  _transaction self db (Sql.pending_witnesses (_log_id self) now limit) io.
Definition pending_witnesses_for (witness_id now limit : pyval) : SqliteStore * Database * result (list WitnessState) :=
  _transaction self db (Sql.pending_witnesses_for (_log_id self) witness_id now limit) io.
Definition get_witness (witness_id checkpoint_size : pyval) : SqliteStore * Database * result (option WitnessState) :=
  _transaction self db (Sql.get_witness (_log_id self) witness_id checkpoint_size) io.
Definition commit_witness (expected_attempts : pyval) (next : arg Arg.WitnessState)
  : SqliteStore * Database * result () :=
  _transaction self db (Sql.commit_witness (_log_id self) expected_attempts next) io.
End operations.

(** Closing the connection rolls back what is not committed. *)
Definition close (self : SqliteStore) : SqliteStore :=
  {| _log_id := _log_id self; in_transaction := false; sq_closed := true |}.

(** ** Opening *)

(** The tables, and the metadata of the log unless it is there. *)
Definition provision (log_id : pystr) : sql () :=
  let* _ := execute Pragma in
  let* _ := execute (CreateTable 0) in
  let* _ := execute (CreateTable 1) in
  let* _ := execute (CreateTable 2) in
  let* _ := execute (CreateTable 3) in
  let* state := lift (metadata empty_state) in
  execute (InsertMetaOrIgnore log_id (Blob state)).

Definition validate (log_id : pystr) : sql () :=
  let* _ := Sql.validate_entries log_id in
  let* _ := Sql.load_state log_id false in
  lift (Ok ()).

Definition empty_database : Database :=
  {| created := 0; cll_meta := []; cll_entries := []; cll_nodes := []; cll_witnesses := [] |}.

(** What fails while a file is opened: connecting, the two pragmas of the
    connection, provisioning, and the transaction that validates. *)
Record OpenFaults := {
  io_connect : option exn; io_pragmas : faults; io_provision : faults; io_validate : SqliteFaults
}.
Definition no_open_faults : OpenFaults :=
  {| io_connect := None; io_pragmas := []; io_provision := []; io_validate := no_faults |}.

(** [SqliteStore._open] on the file at [path], [None] if there is none. Only
    [initialize] creates it. *)
Definition _open (file : option Database) (path log_id : pystr) (initialize : bool) (io : OpenFaults)
  : option Database * result SqliteStore :=
  if bool_decide (path = []) || negb (is_identifier log_id) then (file, Raise InvalidError)
  else
    match io_connect io, (if initialize then Some (default empty_database file) else file) with
    | Some e, _ => (file, Raise e)
    | None, None => (file, Raise SqliteError)
    | None, Some db =>
        let store := {| _log_id := log_id; in_transaction := false; sq_closed := false |} in
        match (run_auto (let* _ := execute Pragma in execute Pragma) db (io_pragmas io)).1 with
        | Raise e => (Some db, Raise e)
        | Ok _ =>
            let '(r, db) := if initialize then run_auto (provision log_id) db (io_provision io) else (Ok (), db) in
            match r with
            | Raise e => (Some db, Raise (classified e))
            | Ok _ =>
                match _transaction store db (validate log_id) (io_validate io) with
                | (_, db, Raise e) => (Some db, Raise e)
                | (store, db, Ok _) => (Some db, Ok store)
                end
            end
        end
    end.

Definition init (file : option Database) (path log_id : pystr) (io : OpenFaults) : option Database * result () :=
  let '(file, r) := _open file path log_id true io in
  (file, let! _ := r in Ok ()).

Definition open (file : option Database) (path log_id : pystr) (io : OpenFaults)
  : option Database * result SqliteStore := _open file path log_id false io.
End Sqlite.

(** The mutations behind one function. *)
Definition sqlite_mutate (self : SqliteStore) (db : Database) (m : mutation) (io : SqliteFaults)
  : SqliteStore * Database * result (option AppendResult) :=
  match m with
  | MAppend input =>
      let '(self, db, r) := Sqlite.append self db io input in (self, db, let! r := r in Ok (Some r))
  | MCommit size checkpoint next =>
      let '(self, db, r) := Sqlite.commit_cll self db io size checkpoint next in (self, db, let! _ := r in Ok None)
  | MWitness attempts next =>
      let '(self, db, r) := Sqlite.commit_witness self db io attempts next in (self, db, let! _ := r in Ok None)
  end.
