(* ===== verification/SqlRows.v ===== *)
(** * The tables as a representation of the engine

    Running programs of statements, with and without failures, what each
    statement does to the rows of one log, and the relation between the tables
    and the engine of a log. *)
From stdpp Require Import sorting.
From S2P Require Import Prelude Bytes Text Py Cll Json JsonProps Calendar Base64 Wire Engine EngineValid EngineProps EngineCommit EngineSteps Jsonl Sql.
Open Scope Z_scope.

(** ** Running *)
Definition run {A} (p : sql A) (db : Database) : result (A * Database) := run_sql p db [].

Lemma run_bind {A B} (p : sql A) (f : A -> sql B) db :
  run (sql_bind p f) db = let! (a, db) := run p db in run (f a) db.
Proof.
  unfold run. revert db. induction p as [[a|e]|C s k IH]; intros db; [done..|]. cbn.
  destruct (exec s db) as [[b db']|]; [apply IH|done].
Qed.

Lemma run_lift {A} (r : result A) db : run (lift r) db = let! a := r in Ok (a, db).
Proof. by destruct r. Qed.

Lemma run_execute {B} (s : stmt B) db : run (execute s) db = exec s db.
Proof. cbn. by destruct (exec s db) as [[b db']|]. Qed.

(** A failure among the statements ends the program, or none is met. *)
Lemma run_faults {A} (p : sql A) db io :
  run_sql p db io = run p db \/ exists e, Some e ∈ io /\ run_sql p db io = Raise e.
Proof.
  unfold run. revert db io. induction p as [[a|e]|C s k IH]; intros db io; [by left..|]. cbn [run_sql].
  destruct io as [|[e|] io]; [by left| |].
  - right. exists e. split; [left|done].
  - cbn [head mjoin option_join tail]. destruct (exec s db) as [[b db']|]; [|by left].
    destruct (IH b db' io) as [?|(e & ? & ?)]; [by left|]. right. exists e. split; [by right|done].
Qed.

Create Rewrite HintDb sql.
#[export] Hint Rewrite @run_bind @run_lift @run_execute : sql.

(** ** Lists kept sorted by a key *)
Lemma merge_sort_eq {A} (R : A -> A -> Prop) `{!forall x y, Decision (R x y), !Total R, !Transitive R}
    (f : A -> Z) (l k : list A) :
  (forall x y, R x y -> f x <= f y) -> NoDup (map f k) -> StronglySorted R k -> k ≡ₚ l -> merge_sort R l = k.
Proof.
  intros HR Hnd Hk Hp. apply (StronglySorted_unique_strong R).
  - intros x y Hx Hy Hxy Hyx. apply HR in Hxy, Hyx.
    assert (x ∈ k) as Hx' by (by rewrite Hp, <- (merge_sort_Permutation R l)).
    apply list_elem_of_lookup in Hx' as [i Hi], Hy as [j Hj].
    assert (i = j) as ->; [|congruence]. apply (NoDup_lookup _ _ _ (f x) Hnd); rewrite list_lookup_fmap.
    + by rewrite Hi.
    + rewrite Hj. cbn. f_equal. lia.
  - apply StronglySorted_merge_sort; apply _.
  - done.
  - by rewrite (merge_sort_Permutation R l).
Qed.

#[export] Instance entry_le_total : Total entry_le.
Proof. intros a b. unfold entry_le. lia. Qed.
#[export] Instance entry_le_trans : Transitive entry_le.
Proof. intros a b c. unfold entry_le. lia. Qed.
#[export] Instance node_le_total : Total node_le.
Proof. intros a b. unfold node_le. lia. Qed.
#[export] Instance node_le_trans : Transitive node_le.
Proof. intros a b c. unfold node_le. lia. Qed.

(** A row past the last one goes last. *)
Lemma merge_sort_snoc {A} (R : A -> A -> Prop) `{!forall x y, Decision (R x y), !Total R, !Transitive R}
    (f : A -> Z) (l : list A) (row : A) :
  (forall x y, R x y <-> f x <= f y) -> NoDup (map f (merge_sort R l)) ->
  (forall x, x ∈ merge_sort R l -> f x < f row) -> merge_sort R (l ++ [row]) = merge_sort R l ++ [row].
Proof.
  intros HR Hnd Hlt. apply (merge_sort_eq R f).
  - intros x y. apply HR.
  - rewrite map_app. apply NoDup_app. split_and!; [done| |apply NoDup_singleton].
    intros x (y & -> & Hy)%list_elem_of_fmap Hx. apply list_elem_of_singleton in Hx. specialize (Hlt y Hy). lia.
  - apply StronglySorted_app_2; [|apply StronglySorted_merge_sort; apply _|repeat constructor].
    intros x y Hx Hy%list_elem_of_singleton. subst y. apply HR. specialize (Hlt x Hx). lia.
  - by rewrite (merge_sort_Permutation R l).
Qed.

(** ** What a log's tables hold *)
Definition entry_row (log_id : pystr) (e : Entry) : EntryRow :=
  {| er_log_id := log_id; er_seq := e_seq e; er_value := Blob (e_value e); er_appended_at := Text (iso (e_appended_at e)) |}.
Definition node_row (log_id : pystr) (position : Z) (node : bytes) : NodeRow :=
  {| nr_log_id := log_id; nr_position := position; nr_node := Blob node |}.
Fixpoint node_rows (log_id : pystr) (position : Z) (nodes : list bytes) : list NodeRow :=
  match nodes with
  | [] => []
  | node :: nodes => node_row log_id position node :: node_rows log_id (position + 1) nodes
  end.

(** A state without its witnesses, with other nodes. *)
Definition header (s : CllState) (nodes : list bytes) : CllState :=
  {| cs_size := cs_size s; cs_nodes := nodes; cs_indexed_seq := cs_indexed_seq s;
     cs_first_pending_at := cs_first_pending_at s; cs_checkpoint := cs_checkpoint s; cs_witnesses := [] |}.

(** The cell reads as the header of the state, with any nodes put in. *)
Definition reads_as (raw : cell) (s : CllState) : Prop :=
  exists d, _json raw = Ok (JDict d) /\
    forall nodes, state_from_wire (JDict (dict_set
        (dict_set d (str "nodes") (JList (map (fun n => JStr (encode_bytes n)) nodes))) (str "witnesses") (JList [])))
        CorruptError = Ok (state_arg (header s nodes)).

Definition rows_read (rows : list WitnessRow) (ws : list WitnessState) : Prop :=
  map_result witness_from_row (map witness_columns rows) = Ok ws.

Record represents (log_id : pystr) (db : Database) (engine : Engine) : Prop := {
  rp_tables : created db = 4%nat;
  rp_count : zlen (_entries engine) <= MAX_PORTABLE_INTEGER;
  rp_entries : entries_of db log_id = map (entry_row log_id) (_entries engine);
  rp_nodes : nodes_of db log_id = node_rows log_id 0 (cs_nodes (_state engine));
  rp_witnesses : exists ws, rows_read (witnesses_of db log_id) ws /\ ws ≡ₚ cs_witnesses (_state engine);
  rp_state : exists raw, state_of db log_id = Some raw /\ reads_as raw (_state engine)
}.

(** Another log's tables. *)
Record same_log (log_id : pystr) (db db' : Database) : Prop := {
  sl_entries : entries_of db' log_id = entries_of db log_id;
  sl_nodes : nodes_of db' log_id = nodes_of db log_id;
  sl_witnesses : witnesses_of db' log_id = witnesses_of db log_id;
  sl_state : state_of db' log_id = state_of db log_id
}.
Definition others_kept (log_id : pystr) (db db' : Database) : Prop :=
  created db' = created db /\ forall other, other <> log_id -> same_log other db db'.

#[export] Instance others_kept_preorder log_id : PreOrder (others_kept log_id).
Proof.
  split; [by split|]. intros a b c [H1 H2] [H3 H4]. split; [congruence|].
  intros other Ho. destruct (H2 other Ho), (H4 other Ho). split; congruence.
Qed.

Lemma represents_frame log_id db db' engine other :
  others_kept log_id db db' -> other <> log_id -> represents other db engine -> represents other db' engine.
Proof.
  intros [Hc Ho] Hne [H1 Hn H2 H3 H4 H5]. destruct (Ho other Hne) as [E1 E2 E3 E4].
  split; [congruence|done|by rewrite E1|by rewrite E2|by rewrite E3|by rewrite E4].
Qed.

(** ** Statements on a log *)
Lemma exec_effect {B} (s : stmt B) db : created db = 4%nat -> exec s db = effect s db.
Proof. intros Hc. unfold exec. rewrite bool_decide_true; [done|]. rewrite Hc. destruct s; cbn; lia. Qed.

Lemma filter_snoc_other {A} (P : A -> Prop) `{!forall x, Decision (P x)} l x : ~ P x -> filter P (l ++ [x]) = filter P l.
Proof. intros Hx. rewrite filter_app, filter_cons_False, filter_nil, app_nil_r; done. Qed.

Lemma filter_snoc_same {A} (P : A -> Prop) `{!forall x, Decision (P x)} l x :
  P x -> filter P (l ++ [x]) = filter P l ++ [x].
Proof. intros Hx. by rewrite filter_app, filter_cons_True, filter_nil. Qed.

Lemma entries_of_sub db log_id r : r ∈ cll_entries db -> er_log_id r = log_id -> r ∈ entries_of db log_id.
Proof. intros Hr Hl. unfold entries_of. rewrite (merge_sort_Permutation entry_le). by apply list_elem_of_filter. Qed.
Lemma nodes_of_sub db log_id r : r ∈ cll_nodes db -> nr_log_id r = log_id -> r ∈ nodes_of db log_id.
Proof. intros Hr Hl. unfold nodes_of. rewrite (merge_sort_Permutation node_le). by apply list_elem_of_filter. Qed.
Lemma witnesses_of_perm db log_id : witnesses_of db log_id ≡ₚ filter (fun r => tr_log_id r = log_id) (cll_witnesses db).
Proof. apply merge_sort_Permutation. Qed.

Lemma existsb_false {A} (f : A -> bool) l : (forall x, x ∈ l -> f x = false) -> existsb f l = false.
Proof.
  intros Hl. induction l as [|x l IH]; [done|]. cbn. rewrite Hl, IH; [done|set_solver|set_solver].
Qed.

Lemma insert_entry db log_id row :
  created db = 4%nat -> er_log_id row = log_id ->
  NoDup (map er_seq (entries_of db log_id)) ->
  (forall r, r ∈ entries_of db log_id -> er_seq r < er_seq row /\ er_value r <> er_value row) ->
  exists db', exec (InsertEntry row) db = Ok ((), db') /\ created db' = 4%nat /\
    entries_of db' log_id = entries_of db log_id ++ [row] /\ nodes_of db' log_id = nodes_of db log_id /\
    witnesses_of db' log_id = witnesses_of db log_id /\ state_of db' log_id = state_of db log_id /\
    others_kept log_id db db'.
Proof.
  intros Hc Hl Hnd Hr. rewrite exec_effect by done. cbn [effect].
  rewrite (existsb_false (same_entry_key row)).
  - eexists. split_and!; try done.
    + unfold entries_of at 1, with_entries. cbn [cll_entries]. rewrite filter_snoc_same by done.
      apply (merge_sort_snoc entry_le er_seq); [done|done|]. intros r H. by apply Hr.
    + split; [done|]. intros other Ho. split; try done. unfold entries_of, with_entries. cbn [cll_entries].
      rewrite filter_snoc_other; [done|congruence].
  - intros r H. unfold same_entry_key. destruct (bool_decide (er_log_id row = er_log_id r)) eqn:E; [|done]. zbool.
    destruct (Hr r) as [Hlt Hv]; [apply entries_of_sub; congruence|]. rewrite bool_decide_false by congruence.
    rewrite orb_false_r. cbn [andb]. apply Z.eqb_neq. lia.
Qed.

Lemma insert_node db log_id row :
  created db = 4%nat -> nr_log_id row = log_id ->
  NoDup (map nr_position (nodes_of db log_id)) ->
  (forall r, r ∈ nodes_of db log_id -> nr_position r < nr_position row) ->
  exists db', exec (InsertNode row) db = Ok ((), db') /\ created db' = 4%nat /\
    nodes_of db' log_id = nodes_of db log_id ++ [row] /\ entries_of db' log_id = entries_of db log_id /\
    witnesses_of db' log_id = witnesses_of db log_id /\ state_of db' log_id = state_of db log_id /\
    others_kept log_id db db'.
Proof.
  intros Hc Hl Hnd Hr. rewrite exec_effect by done. cbn [effect].
  rewrite (existsb_false (same_node_key row)).
  - eexists. split_and!; try done.
    + unfold nodes_of at 1, with_nodes. cbn [cll_nodes]. rewrite filter_snoc_same by done.
      by apply (merge_sort_snoc node_le nr_position).
    + split; [done|]. intros other Ho. split; try done. unfold nodes_of, with_nodes. cbn [cll_nodes].
      rewrite filter_snoc_other; [done|congruence].
  - intros r H. unfold same_node_key. destruct (bool_decide (nr_log_id row = nr_log_id r)) eqn:E; [|done]. zbool.
    pose proof (Hr r ltac:(apply nodes_of_sub; congruence)). cbn [andb]. apply Z.eqb_neq. lia.
Qed.

(** The key of a witness row within its log. *)
Definition row_id (r : WitnessRow) : pystr * pystr := (tr_witness_id r, tr_checkpoint_size r).

Lemma insert_witness db log_id row :
  created db = 4%nat -> tr_log_id row = log_id -> row_id row ∉ map row_id (witnesses_of db log_id) ->
  exists db', exec (InsertWitness row) db = Ok ((), db') /\ created db' = 4%nat /\
    witnesses_of db' log_id ≡ₚ witnesses_of db log_id ++ [row] /\ entries_of db' log_id = entries_of db log_id /\
    nodes_of db' log_id = nodes_of db log_id /\ state_of db' log_id = state_of db log_id /\
    others_kept log_id db db'.
Proof.
  intros Hc Hl Hr. rewrite exec_effect by done. cbn [effect]. rewrite (existsb_false (same_witness_key row)).
  - eexists. split_and!; try done.
    + rewrite !witnesses_of_perm. unfold with_witnesses. cbn [cll_witnesses]. by rewrite filter_snoc_same.
    + split; [done|]. intros other Ho. split; try done. unfold witnesses_of, with_witnesses. cbn [cll_witnesses].
      rewrite filter_snoc_other; [done|congruence].
  - intros r H. unfold same_witness_key. destruct (bool_decide (tr_log_id row = tr_log_id r)) eqn:E; [|done]. zbool.
    destruct (bool_decide (tr_witness_id row = _)) eqn:E1; [|done]. destruct (bool_decide (tr_checkpoint_size row = _)) eqn:E2; [|done].
    exfalso. zbool. apply Hr. rewrite witnesses_of_perm. apply list_elem_of_fmap. exists r.
    split; [unfold row_id; congruence|]. apply list_elem_of_filter. split; [congruence|done].
Qed.

Lemma find_map_same {A} (P : A -> bool) (f : A -> A) l :
  (forall x, P (f x) = P x) -> List.find P (map f l) = f <$> List.find P l.
Proof. intros Hf. induction l as [|x l IH]; [done|]. cbn. rewrite Hf, IH. by destruct (P x). Qed.

Lemma update_state db log_id raw raw' :
  created db = 4%nat -> state_of db log_id = Some raw ->
  exists db', exec (UpdateState log_id raw') db = Ok ((), db') /\ created db' = 4%nat /\
    state_of db' log_id = Some raw' /\ entries_of db' log_id = entries_of db log_id /\
    nodes_of db' log_id = nodes_of db log_id /\ witnesses_of db' log_id = witnesses_of db log_id /\
    others_kept log_id db db'.
Proof.
  intros Hc Hs. rewrite exec_effect by done. cbn [effect]. eexists. split; [done|].
  assert (forall other, state_of (with_meta db (update_where (fun r => bool_decide (r.1 = log_id)) (fun r => (r.1, raw')) (cll_meta db))) other
    = if bool_decide (other = log_id) then Some raw' else state_of db other) as Hst.
  { intros other. unfold state_of, with_meta, update_where in *. cbn [cll_meta] in *. rewrite find_map_same.
    2: { intros [i r]. cbn. by destruct (bool_decide (i = log_id)). }
    destruct (bool_decide (other = log_id)) eqn:E; zbool.
    - subst other. destruct (List.find _ _) as [[i r]|] eqn:Ef; [|done]. apply List.find_some in Ef as [_ Ef].
      zbool. cbn in Ef. subst i. cbn. by rewrite bool_decide_true.
    - clear Hs. destruct (List.find _ _) as [[i r]|] eqn:Ef; [|done]. apply List.find_some in Ef as [_ Ef].
      zbool. cbn in Ef. subst i. cbn. by rewrite bool_decide_false. }
  split_and!; try done; [by rewrite Hst, bool_decide_true|]. split; [done|]. intros other Ho.
  split; try done. by rewrite Hst, bool_decide_false.
Qed.

Lemma filter_key {A B} `{EqDecision B} (f : A -> B) l x :
  NoDup (map f l) -> x ∈ l -> filter (fun y => f y = f x) l = [x].
Proof.
  intros Hnd Hx. induction l as [|y l IH]; [by apply elem_of_nil in Hx|]. cbn [map] in Hnd.
  apply NoDup_cons in Hnd as [Hy Hnd]. apply elem_of_cons in Hx as [->|Hx].
  - rewrite filter_cons_True by done. f_equal. apply filter_none. intros z Hz E. apply Hy. rewrite <- E.
    apply list_elem_of_fmap. by exists z.
  - rewrite filter_cons_False; [by apply IH|]. intros E. apply Hy. rewrite E. apply list_elem_of_fmap. by exists x.
Qed.

Lemma filter_map_same {A} (P : A -> Prop) `{!forall x, Decision (P x)} (g : A -> A) l :
  (forall x, P (g x) <-> P x) -> filter P (map g l) = map g (filter P l).
Proof.
  intros Hg. induction l as [|x l IH]; [done|]. cbn [map]. rewrite !filter_cons, IH.
  specialize (Hg x). destruct (decide (P (g x))), (decide (P x)); (tauto || done).
Qed.

(** The rows of a log once the one with this key is replaced. *)
Definition replace_row (row : WitnessRow) (r : WitnessRow) : WitnessRow :=
  if bool_decide (row_id r = row_id row) then row else r.

Lemma update_witness db log_id row old :
  created db = 4%nat -> tr_log_id row = log_id -> NoDup (map row_id (witnesses_of db log_id)) ->
  old ∈ witnesses_of db log_id -> row_id old = row_id row ->
  exists db', exec (UpdateWitness row (tr_attempts old)) db = Ok (1, db') /\ created db' = 4%nat /\
    witnesses_of db' log_id ≡ₚ map (replace_row row) (witnesses_of db log_id) /\
    entries_of db' log_id = entries_of db log_id /\ nodes_of db' log_id = nodes_of db log_id /\
    state_of db' log_id = state_of db log_id /\ others_kept log_id db db'.
Proof.
  intros Hc Hl Hnd Hold Hid. rewrite exec_effect by done. cbn [effect].
  set (matches r := same_witness_key row r && (tr_attempts r =? tr_attempts old)).
  assert (forall r, matches r = true -> tr_log_id r = log_id /\ row_id r = row_id row) as Hm.
  { intros r Hr. unfold matches, same_witness_key in Hr. zbool. unfold row_id. split; congruence. }
  assert (forall r, r ∈ witnesses_of db log_id -> matches r = true <-> row_id r = row_id old) as Hrow.
  { intros r Hr. split; [intros H%Hm; destruct H; congruence|]. intros E.
    assert (r = old) as ->.
    { apply list_elem_of_lookup in Hr as [i Hi], Hold as [j Hj].
      assert (i = j) as ->; [|congruence]. eapply (NoDup_lookup _ _ _ _ Hnd); rewrite list_lookup_fmap;
        [by rewrite Hi|rewrite Hj; cbn; by f_equal]. }
    rewrite witnesses_of_perm in Hr. apply list_elem_of_filter in Hr as [Hlog _].
    unfold matches, same_witness_key. unfold row_id in Hid. injection Hid as H1 H2. rewrite Hlog, H1, H2, Hl.
    by rewrite !bool_decide_true, Z.eqb_refl by done. }
  assert (count_where matches (cll_witnesses db) = 1) as ->.
  { unfold count_where. rewrite (filter_agree (fun r => matches r = true) (fun r => matches r = true /\ tr_log_id r = log_id)).
    2: { intros r _. split; [|tauto]. intros H. split; [done|]. by apply Hm. }
    rewrite <- list_filter_filter. unfold zlen. rewrite <- witnesses_of_perm.
    rewrite (filter_agree (fun r => matches r = true) (fun r => row_id r = row_id old)) by done. by rewrite filter_key. }
  eexists. split_and!; try done.
  - rewrite !witnesses_of_perm. unfold with_witnesses, update_where. cbn [cll_witnesses]. rewrite filter_map_same.
    2: { intros r. destruct (matches r) eqn:E; [|done]. apply Hm in E as [-> _]. by rewrite Hl. }
    apply reflexive_eq, map_ext_in. intros r Hr%list_elem_of_In. rewrite <- witnesses_of_perm in Hr.
    unfold replace_row. specialize (Hrow r Hr). rewrite Hid in Hrow.
    destruct (matches r), (bool_decide _) eqn:E; zbool; naive_solver.
  - split; [done|]. intros other Ho. split; try done. unfold witnesses_of, with_witnesses, update_where.
    cbn [cll_witnesses]. rewrite filter_map_same.
    2: { intros r. destruct (matches r) eqn:E; [|done]. apply Hm in E as [-> _]. by rewrite Hl. }
    f_equal. rewrite <- map_id. apply map_ext_in. intros r [Hr _]%list_elem_of_In%list_elem_of_filter.
    destruct (matches r) eqn:E; [|done]. apply Hm in E as [? _]. congruence.
Qed.
