(* ===== verification/SqlProps.v ===== *)
(** * The relational operations refine the engine

    On tables that represent an engine, every operation of [sql.py] answers
    as the engine does and leaves tables that represent the engine's next
    state; the witness rows are kept up to their order. *)
From stdpp Require Import sorting.
From S2P Require Import Prelude Bytes Text Py Cll Json JsonProps Calendar Base64 Wire Engine EngineValid EngineProps EngineCommit EngineSteps Jsonl Backend Sql SqlRows.
Open Scope Z_scope.

(** ** Reading rows *)
Lemma format_decimal_inj n m : 0 <= n < 2 ^ 64 -> 0 <= m < 2 ^ 64 -> str_int n = str_int m -> n = m.
Proof.
  intros Hn Hm E. pose proof (parse_decimal_format n CorruptError Hn) as H1.
  unfold format_decimal in H1. rewrite E in H1. fold (format_decimal m) in H1.
  rewrite parse_decimal_format in H1 by done. congruence.
Qed.

Lemma is_str_field_inv d key s : is_str_field d key s = true -> lookup d (str key) = Some (JStr s).
Proof. unfold is_str_field. destruct (lookup _ _) as [[]|]; try done. intros H. zbool. by subst. Qed.
Lemma is_int_field_inv d key n : is_int_field d key n = true -> lookup d (str key) = Some (JInt n).
Proof. unfold is_int_field. destruct (lookup _ _) as [[]|]; try done. intros H. zbool. by subst. Qed.

(** A row that is read has the key and the attempts of its columns. *)
Lemma witness_from_row_inv id size att raw w :
  witness_from_row (id, size, att, raw) = Ok w ->
  valid_witness w /\ ws_witness_id w = id /\ str_int (ws_checkpoint_size w) = size /\ ws_attempts w = att.
Proof.
  unfold witness_from_row. destruct (_json raw) as [[| | | | | |d]|]; try done.
  destruct (is_str_field d "witnessId" id) eqn:E1; [|done]. destruct (is_str_field d "checkpointSize" size) eqn:E2; [|done].
  destruct (is_int_field d "attempts" att) eqn:E3; [|done]. cbn [negb orb].
  apply is_str_field_inv in E1, E2. apply is_int_field_inv in E3.
  destruct (witness_from_wire _ _) as [a|] eqn:Ew; [|done]. intros Hv. split; [by eapply validate_witness_inv|].
  assert (Arg.witness_id a = PStr id /\ Arg.attempts a = PInt att /\
    exists n, Arg.checkpoint_size a = PInt n /\ str_int n = size) as (H1 & H2 & n & H3 & H4).
  { revert Ew. unfold witness_from_wire, decimal_field, _required. cbn [as_object]. rewrite E1, E2, E3.
    cbn [_integer _string as_integer as_text need]. destruct (_ && _); [|done]. intros Ew. inv_result.
    split_and!; try done. eexists. split; [done|].
    match goal with H : parse_decimal _ _ = Ok _ |- _ => by apply parse_decimal_inv in H as [_ ->] end. }
  cbn [validate_witness] in Hv. rewrite H1, H2, H3 in Hv. cbn [as_str or_raise] in Hv.
  destruct (is_identifier id); [|done].
  destruct (int_within (PInt n) _ _) as [n'|] eqn:En; [|done]. apply int_within_Some in En as [[= <-] _].
  cbn [or_raise] in Hv. destruct (_width _ _ _); [|done]. cbn [or_raise] in Hv.
  destruct (int_within (PInt att) _ _) as [att'|] eqn:Ea; [|done]. apply int_within_Some in Ea as [[= <-] _].
  cbn [or_raise] in Hv. inv_result. done.
Qed.

Lemma writable_json j bs : line_of j bs -> _json (Blob bs) = Ok j.
Proof. intros (_ & _ & Hl). unfold _json. by rewrite Hl. Qed.

Lemma table_row_reads log_id w :
  valid_witness w ->
  exists row, Sql.table_row log_id w = Ok row /\ tr_log_id row = log_id /\ tr_attempts row = ws_attempts w /\
    row_id row = (ws_witness_id w, str_int (ws_checkpoint_size w)) /\ witness_from_row (witness_columns row) = Ok w.
Proof.
  intros Hv. destruct (witness_roundtrip w Hv) as (j & Hj & Hback).
  destruct (writable_line j (witness_writable w j Hv Hj)) as (bs & Hline).
  unfold Sql.table_row. rewrite Hj, (proj1 Hline). eexists. split_and!; try done.
  cbn [witness_columns tr_witness_id tr_checkpoint_size tr_attempts tr_witness witness_from_row].
  rewrite (writable_json _ _ Hline).
  assert (exists d, j = JDict d /\ lookup d (str "witnessId") = Some (JStr (ws_witness_id w)) /\
    lookup d (str "checkpointSize") = Some (JStr (str_int (ws_checkpoint_size w))) /\
    lookup d (str "attempts") = Some (JInt (ws_attempts w))) as (d & -> & H1 & H2 & H3).
  { unfold witness_to_wire in Hj. inv_result. eexists. split; [done|]. find_keys. done. }
  unfold is_str_field, is_int_field. rewrite H1, H2, H3, !bool_decide_true, Z.eqb_refl by done. cbn [negb orb].
  rewrite Hback. by apply validate_witness_arg.
Qed.

Lemma metadata_reads s :
  valid_state s -> cs_size s < 2 ^ 64 -> exists bs, metadata s = Ok bs /\ reads_as (Blob bs) s.
Proof.
  intros [Hm _] Hsz. unfold metadata. fold (header s []).
  assert (forall nodes, encodable (header s nodes)) as He.
  { intros nodes. destruct Hm as [H1 H2 H3 H4 H5 _]. unfold header. rewrite H1 in Hsz |- *.
    split; [|cbn; unfold zlen in *; lia]. by split; try (split; constructor). }
  destruct (state_roundtrip _ (He [])) as (j & Hj & Hw & _). destruct (writable_line j Hw) as (bs & Hline).
  rewrite Hj, (proj1 Hline). exists bs. split; [done|].
  assert (exists d, j = JDict d /\ forall nodes, state_to_wire (header s nodes) = Ok (JDict (dict_set
        (dict_set d (str "nodes") (JList (map (fun n => JStr (encode_bytes n)) nodes))) (str "witnesses") (JList []))))
    as (d & -> & Hd).
  { clear Hw Hline He. revert Hj. unfold state_to_wire. cbn [header cs_first_pending_at cs_witnesses map_result cs_size cs_indexed_seq cs_nodes map cs_checkpoint].
    destruct (match cs_first_pending_at s with Some _ => _ | None => _ end) as [fp|] eqn:Efp; [|done]. intros <-%Ok_inj.
    eexists. split; [done|]. intros nodes. do 2 f_equal.
    destruct (cs_first_pending_at s) as [t|]; [destruct (format_time _); [|done]|];
      injection Efp as <-; destruct (cs_checkpoint s); reflexivity. }
  exists d. split; [by apply writable_json|]. intros nodes.
  destruct (state_roundtrip _ (He nodes)) as (j' & Hj' & _ & Hback). rewrite Hd in Hj'. injection Hj' as <-.
  apply Hback.
Qed.

Lemma entry_row_reads log_id i e :
  entry_at i e -> e_seq e <= MAX_PORTABLE_INTEGER -> entry_from_row (entry_columns (entry_row log_id e)) = Ok e.
Proof.
  intros [H1 H2 H3] Hm. unfold entry_from_row. cbn [entry_columns entry_row er_seq er_value er_appended_at].
  rw_bool (0 <? e_seq e) true. rw_bool (e_seq e <=? MAX_PORTABLE_INTEGER) true. cbn [andb negb py_cell].
  rewrite width_bytes by (unfold within; lia). cbn [as_str]. rewrite parse_iso by done. by destruct e.
Qed.

Lemma node_rows_read log_id p nodes :
  Forall valid_node nodes ->
  nodes_from_rows p (map (fun r => (nr_position r, nr_node r)) (node_rows log_id p nodes)) = Ok nodes.
Proof.
  intros Hn. revert p. induction Hn as [|n nodes Hn _ IH]; intros p; [done|].
  cbn [node_rows map nodes_from_rows nr_position nr_node node_row py_cell]. rewrite Z.eqb_refl. cbn [negb]. rewrite width_bytes by (unfold within, valid_node in *; lia). by rewrite IH.
Qed.

(** ** Orders *)
Lemma map_result_perm {A B} (f : A -> result B) l k l' :
  l ≡ₚ k -> map_result f l = Ok l' -> exists k', map_result f k = Ok k' /\ l' ≡ₚ k'.
Proof.
  intros Hp. revert l'. induction Hp as [|x l k Hp IH|x y l|l k m H1 IH1 H2 IH2]; intros l' Hl.
  - by exists l'.
  - apply map_result_cons_Ok in Hl as (y & ys & Hy & Hys & ->). destruct (IH ys Hys) as (k' & Hk & Hk').
    exists (y :: k'). split; [cbn; by rewrite Hy, Hk|by constructor].
  - apply map_result_cons_Ok in Hl as (a & as_ & Ha & Has & ->).
    apply map_result_cons_Ok in Has as (b & bs & Hb & Hbs & ->).
    exists (b :: a :: bs). split; [cbn; by rewrite Hb, Ha, Hbs|constructor].
  - destruct (IH1 l' Hl) as (k' & Hk & Hk'). destruct (IH2 k' Hk) as (m' & Hm & Hm').
    exists m'. split; [done|by etransitivity].
Qed.

Lemma witness_map_perm rows rows' :
  rows ≡ₚ rows' -> NoDup (map witness_key rows) -> witness_map rows = witness_map rows'.
Proof.
  intros Hp Hnd. apply map_eq. intros k.
  assert (NoDup (map witness_key rows')) as Hnd' by (by rewrite <- Hp).
  pose proof (witness_map_lookup rows k) as H1. pose proof (witness_map_lookup rows' k) as H2.
  destruct (witness_map rows !! k) as [r|], (witness_map rows' !! k) as [r'|].
  - destruct H1 as [Hr <-], H2 as [Hr' E]. f_equal. rewrite Hp in Hr.
    apply list_elem_of_lookup in Hr as [i Hi], Hr' as [j Hj].
    assert (i = j) as ->; [|congruence]. eapply (NoDup_lookup _ _ _ _ Hnd'); rewrite list_lookup_fmap;
      [by rewrite Hi|rewrite Hj; cbn; by f_equal].
  - exfalso. apply H2. rewrite <- Hp. destruct H1 as [Hr <-]. apply list_elem_of_fmap. by exists r.
  - exfalso. apply H1. rewrite Hp. destruct H2 as [Hr <-]. apply list_elem_of_fmap. by exists r'.
  - done.
Qed.



Lemma key_of_inj r r' : valid_witness r -> valid_witness r' -> key_of r = key_of r' -> witness_key r = witness_key r'.
Proof.
  intros Hr Hr' [= E1 E2]. unfold witness_key. f_equal; [|done].
  pose proof (utf8_encode_ascii _ (identifier_ascii _ (vw_id _ Hr))) as H1.
  pose proof (utf8_encode_ascii _ (identifier_ascii _ (vw_id _ Hr'))) as H2.
  unfold id_bytes in E2. rewrite H1, H2 in E2. cbn in E2. rewrite E2 in H1.
  apply utf8_roundtrip in H1, H2. congruence.
Qed.

(** Validity, like every answer but [load_cll]'s, does not see the order of the rows. *)
#[export] Instance valid_rows_perm : Proper ((≡ₚ) ==> iff) valid_rows.
Proof. intros l k Hp. split; intros [H1 H2]; split; first [by rewrite <- Hp|by rewrite Hp]. Qed.

(** The due rows in order depend only on which rows are due. *)
Lemma pending_agree l k now limit id :
  valid_rows l -> valid_rows k ->
  filter (fun row => is_due now id row = true) l ≡ₚ filter (fun row => is_due now id row = true) k ->
  pending l now limit id = pending k now limit id.
Proof.
  intros Hl Hk Hp. destruct (pending_first_due l now limit id Hl) as (o1 & -> & a1 & P1 & S1 & ->).
  destruct (pending_first_due k now limit id Hk) as (o2 & -> & a2 & P2 & S2 & ->). do 2 f_equal.
  apply (StronglySorted_unique_strong row_before); [|done|done|by rewrite P1, P2].
  intros x y Hx Hy [Hxy Hne] [Hyx _]. exfalso. apply Hne.
  assert (valid_witness x /\ valid_witness y) as [Vx Vy].
  { rewrite P1 in Hx. rewrite P2 in Hy. apply list_elem_of_filter in Hx as [_ Hx], Hy as [_ Hy].
    split; [by apply (Forall_forall _ l); [apply Hl|]|by apply (Forall_forall _ k); [apply Hk|]]. }
  apply key_of_inj; [done|done|]. unfold key_le, key_of in *. cbn [fst snd] in *.
  destruct Hxy as [|[E1 E2]], Hyx as [|[E3 E4]]; try lia. f_equal; [done|]. by apply bytes_leb_antisym.
Qed.

(** ** Operations *)
Definition with_rows (s : CllState) (rows : list WitnessState) : CllState :=
  {| cs_size := cs_size s; cs_nodes := cs_nodes s; cs_indexed_seq := cs_indexed_seq s;
     cs_first_pending_at := cs_first_pending_at s; cs_checkpoint := cs_checkpoint s; cs_witnesses := rows |}.

(** The program answers as the engine, and its tables represent the engine's
    next state. *)
Definition mutates {A} (log_id : pystr) (db : Database) (p : sql A) (r : result (A * Engine)) : Prop :=
  match r with
  | Ok (a, engine) =>
      exists db', run p db = Ok (a, db') /\ represents log_id db' engine /\ others_kept log_id db db'
  | Raise e => run p db = Raise e
  end.

Section operations.
Context (log_id : pystr) (db : Database) (engine : Engine).
Context (Hrep : represents log_id db engine) (Hwf : wf engine).

Lemma run_stmt {B} (s : stmt B) : run (execute s) db = effect s db.
Proof. rewrite run_execute. apply exec_effect, Hrep. Qed.

Lemma entry_reads e : e ∈ _entries engine -> entry_from_row (entry_columns (entry_row log_id e)) = Ok e.
Proof.
  intros [i Hi]%list_elem_of_lookup. pose proof (wf_entries _ Hwf i e Hi) as He.
  apply (entry_row_reads _ i); [done|]. rewrite (ea_seq _ _ He). apply lookup_lt_Some in Hi.
  pose proof (rp_count _ _ _ Hrep) as Hc. unfold zlen in Hc. lia.
Qed.

Lemma find_value v :
  List.find (fun e => bool_decide (e_value e = v)) (_entries engine) =
  match _by_value engine !! v with Some i => _entries engine !! Z.to_nat i | None => None end.
Proof.
  pose proof (wf_find engine v Hwf) as Hf. destruct (List.find _ _) as [e|] eqn:E.
  - apply List.find_some in E as [He Hv]. apply list_elem_of_In in He. zbool. subst v.
    destruct (_by_value engine !! e_value e) as [i|] eqn:Ei.
    + apply (wf_index _ Hwf) in Ei as (_ & e' & Hi & Hv). rewrite Hi. f_equal.
      apply (wf_unique engine); try done. by eapply list_elem_of_lookup_2.
    + exfalso. apply Hf, list_elem_of_fmap. by exists e.
  - destruct (_by_value engine !! v) as [i|] eqn:Ei; [|done]. exfalso.
    apply (wf_index _ Hwf) in Ei as (_ & e & Hi & Hv). apply list_elem_of_lookup_2, list_elem_of_In in Hi.
    pose proof (List.find_none _ _ E e Hi) as Hn. cbn in Hn. zbool. done.
Qed.

Lemma run_find_entry v :
  run (Sql._find_entry log_id v) db =
  Ok (match _by_value engine !! v with Some i => _entries engine !! Z.to_nat i | None => None end, db).
Proof.
  unfold Sql._find_entry. rewrite run_bind, run_stmt. cbn [effect]. rewrite (rp_entries _ _ _ Hrep).
  assert (List.find (fun r => bool_decide (er_value r = Blob v)) (map (entry_row log_id) (_entries engine)) =
    entry_row log_id <$> List.find (fun e => bool_decide (e_value e = v)) (_entries engine)) as ->.
  { generalize (_entries engine). intros l. induction l as [|e l IH]; [done|]. cbn. rewrite IH.
    destruct (decide (e_value e = v)) as [->|Hne]; [by rewrite !bool_decide_true|].
    rewrite !bool_decide_false by congruence. done. }
  rewrite find_value. destruct (_by_value engine !! v) as [i|] eqn:Ei; [|done].
  apply (wf_index _ Hwf) in Ei as (_ & e & Hi & _). rewrite Hi. cbn [fmap option_fmap option_map].
  rewrite run_lift, entry_reads by (by eapply list_elem_of_lookup_2). done.
Qed.

Lemma run_max_seq :
  run (execute (SelectMaxSeq log_id)) db =
  Ok (if bool_decide (_entries engine = []) then None else Some (zlen (_entries engine)), db).
Proof.
  rewrite run_stmt. cbn [effect]. rewrite (rp_entries _ _ _ Hrep). do 2 f_equal.
  pose proof (wf_entries _ Hwf) as He. revert He. generalize (_entries engine). intros l.
  assert (forall n, (forall i e, l !! i = Some e -> e_seq e = n + Z.of_nat i + 1) ->
    max_seq (map (entry_row log_id) l) = if bool_decide (l = []) then None else Some (n + zlen l)) as Hm.
  { induction l as [|e l IH]; intros n Hl; [done|]. cbn [map max_seq fold_right].
    fold (max_seq (map (entry_row log_id) l)). rewrite (IH (n + 1)).
    2: { intros i e' Hi. rewrite (Hl (S i)) by done. lia. }
    rewrite (bool_decide_false (e :: l = [])) by done. cbn [er_seq entry_row]. pose proof (Hl O e eq_refl) as E.
    rewrite zlen_cons. case_bool_decide as El; f_equal; [subst l; unfold zlen; cbn|pose proof (zlen_nonneg l)]; lia. }
  intros He. rewrite (Hm 0); [by case_bool_decide|]. intros i e Hi. rewrite (ea_seq _ _ (He i e Hi)). lia.
Qed.

Lemma append_refines input lock :
  mutates log_id db (Sql.append log_id input lock) (Engine.append engine input).
Proof.
  rewrite append_eq by done. unfold mutates, Sql.append. destruct (check_append input) as [[v t]|e] eqn:Ec.
  2: by rewrite run_bind, run_lift.
  assert (forall B (k : () -> sql B), run (sql_bind (Sql.lock_log log_id lock) k) db = run (k ()) db) as Hlock.
  { intros B k. rewrite run_bind. unfold Sql.lock_log. destruct lock; [|done].
    rewrite run_bind, run_stmt. cbn [effect]. by destruct (rp_state _ _ _ Hrep) as (raw & -> & _). }
  cbn [sql_bind lift]. rewrite Hlock, run_bind, run_find_entry.
  pose proof (check_append_Ok _ _ _ Ec) as [Hv Ht]. pose proof (wf_find engine v Hwf) as Hf.
  destruct (_by_value engine !! v) as [i|] eqn:Ei.
  { destruct Hf as (e & He & Hin & _). rewrite He. apply (wf_index _ Hwf) in Ei as (Hi & e' & Hl & _).
    rewrite py_index_nonneg, Hl in He by done. injection He as ->. rewrite Hl. exists db. by split. }
  rewrite run_bind, run_max_seq.
  assert (match (if bool_decide (_entries engine = []) then None else Some (zlen (_entries engine))) with
          | Some n => n + 1 | None => 1 end = zlen (_entries engine) + 1) as ->.
  { case_bool_decide as E; [by rewrite E|done]. }
  destruct (MAX_PORTABLE_INTEGER <=? zlen (_entries engine)) eqn:Em; zbool.
  { by rw_bool (MAX_PORTABLE_INTEGER <? zlen (_entries engine) + 1) true. }
  rw_bool (MAX_PORTABLE_INTEGER <? zlen (_entries engine) + 1) false.
  rewrite format_time_utc by done. cbn [sql_bind lift]. rewrite run_bind, run_execute.
  set (e := {| e_seq := zlen (_entries engine) + 1; e_value := v; e_appended_at := t |}).
  destruct (insert_entry db log_id (entry_row log_id e)) as (db' & Hx & Hc' & H1 & H2 & H3 & H4 & Ho).
  - apply Hrep.
  - done.
  - rewrite (rp_entries _ _ _ Hrep), map_map. cbn [er_seq entry_row]. apply NoDup_alt. intros i j x Hi Hj.
    rewrite list_lookup_fmap in Hi, Hj. destruct (_entries engine !! i) as [a|] eqn:Ea; [|done].
    destruct (_entries engine !! j) as [b|] eqn:Eb; [|done]. cbn in Hi, Hj.
    pose proof (ea_seq _ _ (wf_entries _ Hwf i a Ea)). pose proof (ea_seq _ _ (wf_entries _ Hwf j b Eb)). simplify_eq. lia.
  - intros r Hr. rewrite (rp_entries _ _ _ Hrep) in Hr. apply list_elem_of_fmap in Hr as (x & -> & Hx).
    cbn [er_seq er_value entry_row e_seq e_value e]. split.
    + apply list_elem_of_lookup in Hx as [i Hi]. rewrite (ea_seq _ _ (wf_entries _ Hwf i x Hi)).
      apply lookup_lt_Some in Hi. unfold zlen. lia.
    + intros [= E]. apply Hf, list_elem_of_fmap. by exists x.
  - unfold entry_row in Hx. cbn [e_seq e_value e_appended_at e] in Hx. rewrite Hx. exists db'. split; [done|]. split; [|done].
    destruct Hrep as [R1 R0 R2 R3 R4 R5]. split; cbn [inserted _entries _state].
    + done.
    + rewrite zlen_app, zlen_cons, zlen_nil. lia.
    + rewrite H1, R2, map_app. done.
    + by rewrite H2.
    + by rewrite H3.
    + by rewrite H4.
Qed.

(** ** Reads *)
Lemma run_get_entry value :
  run (Sql.get_entry log_id value) db = let! e := Engine.get_entry engine value in Ok (e, db).
Proof.
  unfold Sql.get_entry, Engine.get_entry. destruct (check_value value) as [v|]; [|done]. cbn [sql_bind lift].
  rewrite run_bind, run_find_entry. destruct (_by_value engine !! v) as [i|] eqn:Ei; [|done].
  apply (wf_index _ Hwf) in Ei as (Hi & e & He & _). by rewrite py_index_nonneg, He by done.
Qed.

Lemma run_entry_count : run (Sql.entry_count log_id) db = Ok (zlen (_entries engine), db).
Proof.
  unfold Sql.entry_count. rewrite run_bind, run_max_seq. case_bool_decide as E; [by rewrite E|].
  assert (0 < zlen (_entries engine)) by (destruct (_entries engine); [done|rewrite zlen_cons; pose proof (zlen_nonneg l); lia]).
  pose proof (rp_count _ _ _ Hrep). rw_bool (zlen (_entries engine) <? 1) false. rw_bool (MAX_PORTABLE_INTEGER <? zlen (_entries engine)) false. done.
Qed.

Lemma after_drop (l : list Entry) n a :
  (forall i e, l !! i = Some e -> e_seq e = n + Z.of_nat i + 1) ->
  filter (fun r => a < er_seq r) (map (entry_row log_id) l) = map (entry_row log_id) (drop (Z.to_nat (a - n)) l).
Proof.
  revert n. induction l as [|e l IH]; intros n Hl; [by rewrite drop_nil|]. cbn [map].
  pose proof (Hl O e eq_refl) as He. rewrite (filter_cons (fun r => a < er_seq r)).
  rewrite (IH (n + 1)) by (intros i e' Hi; rewrite (Hl (S i) e' Hi); lia).
  cbn [er_seq entry_row]. destruct (decide (a < e_seq e)).
  - replace (Z.to_nat (a - n)) with O by lia. replace (Z.to_nat (a - (n + 1))) with O by lia. done.
  - replace (Z.to_nat (a - n)) with (S (Z.to_nat (a - (n + 1)))) by lia. done.
Qed.

Lemma run_scan_entries after_seq limit :
  run (Sql.scan_entries log_id after_seq limit) db = let! l := Engine.scan_entries engine after_seq limit in Ok (l, db).
Proof.
  unfold Sql.scan_entries, Engine.scan_entries. destruct (check_scan after_seq limit) as [[a n]|] eqn:Ec; [|done].
  assert (0 <= a /\ 1 <= n) as [Ha Hn].
  { unfold check_scan in Ec. destruct (or_raise (int_within after_seq _ _) _) eqn:E1; [|done].
    destruct (or_raise (int_within limit _ _) _) eqn:E2; [|done]. injection Ec as -> ->.
    apply or_raise_Ok, int_within_Some in E1 as [_ ?], E2 as [_ ?]. unfold within in *. lia. }
  cbn [sql_bind lift]. rewrite run_bind, run_stmt. cbn [effect]. rewrite (rp_entries _ _ _ Hrep).
  rewrite (after_drop _ 0) by (intros i e He; rewrite (ea_seq _ _ (wf_entries _ Hwf i e He)); lia).
  rewrite run_lift, !firstn_map, map_map, map_result_map. unfold py_slice. rewrite Z.sub_0_r.
  replace (a + n - a) with n by lia. rewrite (map_result_Ok _ (fun e => e)).
  2: { intros e He. apply entry_reads. apply elem_of_take in He as (i & He & _). rewrite lookup_drop in He.
       by eapply list_elem_of_lookup_2. }
  by rewrite map_id.
Qed.
End operations.
