(* ===== verification/SqlCommit.v ===== *)
(** * Relational commits and witness rows

    Loading the state, the commits, and the witness queries of [sql.py] on
    tables that represent an engine. *)
From stdpp Require Import sorting.
From S2P Require Import Prelude Bytes Text Py Cll Json JsonProps Calendar Base64 Wire Engine EngineValid EngineProps EngineCommit EngineSteps Jsonl Backend Sql SqlRows SqlProps.
Open Scope Z_scope.

(** ** Rows and their keys *)
Definition key_columns (w : WitnessState) : pystr * pystr := (ws_witness_id w, str_int (ws_checkpoint_size w)).

Lemma rows_read_cons r rows ws :
  rows_read (r :: rows) ws <-> exists w ws', witness_from_row (witness_columns r) = Ok w /\ rows_read rows ws' /\ ws = w :: ws'.
Proof. unfold rows_read. cbn [map]. apply map_result_cons_Ok. Qed.

Lemma rows_read_keys rows ws :
  rows_read rows ws ->
  map row_id rows = map key_columns ws /\ map tr_attempts rows = map ws_attempts ws /\ Forall valid_witness ws.
Proof.
  revert ws. induction rows as [|r rows IH]; intros ws H; [by injection H as <-|].
  apply rows_read_cons in H as (w & ws' & Hw & Hr & ->). destruct (IH ws' Hr) as (H1 & H2 & H3).
  apply witness_from_row_inv in Hw as (Hv & E1 & E2 & E3). cbn [map].
  split_and!; [|by f_equal|by constructor]. f_equal; [|done]. unfold key_columns. by rewrite E1, E2.
Qed.

Lemma rows_read_app rows rows' ws ws' : rows_read rows ws -> rows_read rows' ws' -> rows_read (rows ++ rows') (ws ++ ws').
Proof. unfold rows_read. rewrite map_app. apply map_result_app. Qed.

Lemma rows_read_perm rows rows' ws :
  rows ≡ₚ rows' -> rows_read rows ws -> exists ws', rows_read rows' ws' /\ ws ≡ₚ ws'.
Proof. intros Hp. unfold rows_read. apply map_result_perm. change (map witness_columns) with (fmap (M := list) witness_columns). by rewrite Hp. Qed.

Lemma key_columns_inj w w' :
  valid_witness w -> valid_witness w' -> key_columns w = key_columns w' -> witness_key w = witness_key w'.
Proof.
  intros Hw Hw' [= E1 E2]. unfold witness_key. f_equal; [done|].
  pose proof (vw_size _ Hw). pose proof (vw_size _ Hw'). unfold within in *. apply format_decimal_inj; (done || lia).
Qed.

Lemma key_columns_NoDup ws : Forall valid_witness ws -> NoDup (map witness_key ws) -> NoDup (map key_columns ws).
Proof.
  intros Hv Hnd. induction Hv as [|w ws Hw Hv IH]; [constructor|]. cbn [map] in *. apply NoDup_cons in Hnd as [Hx Hnd].
  apply NoDup_cons. split; [|by apply IH]. intros (w' & E & Hin)%list_elem_of_fmap. apply Hx.
  apply list_elem_of_fmap. exists w'. split; [|done]. rewrite Forall_forall in Hv. by apply key_columns_inj, E; [..|apply Hv].
Qed.

Lemma find_perm {A} (P : A -> bool) l k :
  l ≡ₚ k -> (forall x y, x ∈ l -> y ∈ l -> P x = true -> P y = true -> x = y) -> List.find P l = List.find P k.
Proof.
  intros Hp Hu. destruct (List.find P l) as [x|] eqn:El, (List.find P k) as [y|] eqn:Ek; [..|done].
  - apply List.find_some in El as [Hx Px], Ek as [Hy Py]. apply list_elem_of_In in Hx, Hy. rewrite <- Hp in Hy.
    f_equal. by apply Hu.
  - apply List.find_some in El as [Hx Px]. rewrite <- list_elem_of_In, Hp, list_elem_of_In in Hx.
    by rewrite (List.find_none _ _ Ek x Hx) in Px.
  - apply List.find_some in Ek as [Hx Px]. rewrite <- list_elem_of_In, <- Hp, list_elem_of_In in Hx.
    by rewrite (List.find_none _ _ El y Hx) in Px.
Qed.

Definition has_key (id : pystr) (size : Z) (w : WitnessState) : bool :=
  bool_decide (ws_witness_id w = id) && (ws_checkpoint_size w =? size).

Lemma has_key_iff id size w : has_key id size w = true <-> witness_key w = (id, size).
Proof.
  unfold has_key, witness_key. rewrite andb_true_iff, Z.eqb_eq, bool_decide_eq_true.
  split; [by intros [-> ->]|by intros [= -> ->]].
Qed.

Lemma key_unique rows w w' : NoDup (map witness_key rows) -> w ∈ rows -> w' ∈ rows -> witness_key w = witness_key w' -> w = w'.
Proof.
  intros Hnd [i Hi]%list_elem_of_lookup [j Hj]%list_elem_of_lookup E. assert (i = j) as ->; [|congruence].
  eapply (NoDup_lookup _ _ _ _ Hnd); rewrite list_lookup_fmap; [by rewrite Hi|rewrite Hj; cbn; by f_equal].
Qed.

(** Looking a key up in the table. *)
Lemma rows_read_find rows ws id size :
  rows_read rows ws -> within 1 (2 ^ 64 - 1) size ->
  match List.find (fun r => bool_decide (tr_witness_id r = id) && bool_decide (tr_checkpoint_size r = str_int size)) rows with
  | Some r => exists w, List.find (has_key id size) ws = Some w /\ witness_from_row (witness_columns r) = Ok w /\ r ∈ rows
  | None => List.find (has_key id size) ws = None
  end.
Proof.
  intros Hr Hs. revert ws Hr. induction rows as [|r rows IH]; intros ws Hr; [by injection Hr as <-|].
  apply rows_read_cons in Hr as (w & ws' & Hw & Hr & ->). cbn [List.find].
  pose proof (witness_from_row_inv _ _ _ _ _ Hw) as (Hv & E1 & E2 & _).
  assert (bool_decide (tr_witness_id r = id) && bool_decide (tr_checkpoint_size r = str_int size) = has_key id size w) as ->.
  { unfold has_key. rewrite E1. f_equal. rewrite <- E2. pose proof (vw_size _ Hv). unfold within in *.
    destruct (Z.eqb_spec (ws_checkpoint_size w) size) as [->|Hne]; [by rewrite bool_decide_true|].
    apply bool_decide_false. intros E. apply Hne, format_decimal_inj; (done || lia). }
  destruct (has_key id size w); [exists w; split_and!; try done; by left|].
  specialize (IH ws' Hr). destruct (List.find _ rows) as [r'|]; [|done].
  destruct IH as (w' & ? & ? & ?). exists w'. split_and!; try done. by right.
Qed.

(** ** The state *)
Section operations.
Context (log_id : pystr) (db : Database) (engine : Engine).
Context (Hrep : represents log_id db engine) (Hwf : wf engine).

Lemma read_rows :
  exists ws, rows_read (witnesses_of db log_id) ws /\ ws ≡ₚ cs_witnesses (_state engine) /\ valid_rows ws.
Proof.
  destruct (rp_witnesses _ _ _ Hrep) as (ws & Hr & Hp). exists ws. split_and!; [done..|].
  rewrite Hp. apply (wf_state _ Hwf).
Qed.

Lemma run_load_witnesses ws :
  rows_read (witnesses_of db log_id) ws -> valid_rows ws -> run (Sql.load_witnesses log_id None) db = Ok (ws, db).
Proof.
  intros Hr [_ Hnd]. unfold Sql.load_witnesses. rewrite run_bind, run_execute, exec_effect by apply Hrep. cbn [effect].
  unfold rows_read in Hr. rewrite Hr. cbn [sql_bind lift]. by rewrite bool_decide_true.
Qed.

Lemma rows_read_filter rows ws id :
  rows_read rows ws ->
  rows_read (filter (fun r => tr_witness_id r = id) rows) (filter (fun w => ws_witness_id w = id) ws).
Proof.
  revert ws. induction rows as [|r rows IH]; intros ws H; [by injection H as <-|].
  apply rows_read_cons in H as (w & ws' & Hw & Hr & ->).
  pose proof (witness_from_row_inv _ _ _ _ _ Hw) as (_ & E & _ & _). rewrite !filter_cons, E.
  destruct (decide (tr_witness_id r = id)); [|by apply IH]. apply rows_read_cons. exists w, (filter (fun w => ws_witness_id w = id) ws').
  split_and!; [done|by apply IH|done].
Qed.

Lemma run_load_witnesses_for ws id :
  rows_read (witnesses_of db log_id) ws -> valid_rows ws ->
  run (Sql.load_witnesses log_id (Some id)) db = Ok (filter (fun w => ws_witness_id w = id) ws, db).
Proof.
  intros Hr [_ Hnd]. unfold Sql.load_witnesses. rewrite run_bind, run_execute, exec_effect by apply Hrep. cbn [effect].
  pose proof (rows_read_filter _ _ id Hr) as Hf. unfold rows_read in Hf. rewrite Hf. cbn [sql_bind lift].
  rewrite bool_decide_true; [done|]. by apply NoDup_map_filter.
Qed.

Lemma with_rows_valid ws : ws ≡ₚ cs_witnesses (_state engine) -> valid_state (with_rows (_state engine) ws).
Proof.
  intros Hp. destruct (wf_state _ Hwf) as [[H1 H2 H3 H4 H5 H6] H7].
  split; [split|]; try done. cbn [with_rows cs_witnesses]. by rewrite Hp.
Qed.

(** The state that is loaded is the engine's, its rows in the table's order. *)
Lemma run_load_state for_update ws :
  rows_read (witnesses_of db log_id) ws -> ws ≡ₚ cs_witnesses (_state engine) ->
  run (Sql.load_state log_id for_update) db = Ok (with_rows (_state engine) ws, db).
Proof.
  intros Hr Hp. unfold Sql.load_state. rewrite run_bind, run_execute, exec_effect by apply Hrep. cbn [effect].
  destruct (rp_state _ _ _ Hrep) as (raw & -> & d & Hj & Hd). rewrite Hj. cbn [sql_bind lift].
  rewrite run_bind, run_execute, exec_effect by apply Hrep. cbn [effect]. rewrite (rp_nodes _ _ _ Hrep).
  pose proof (wf_state _ Hwf) as Hv. rewrite node_rows_read by apply Hv. cbn [sql_bind lift]. rewrite Hd. cbn [sql_bind lift].
  pose proof (with_rows_valid ws Hp) as Hws.
  rewrite run_bind, (run_load_witnesses ws Hr) by apply Hws. cbn [run].
  change (run (lift (validate_state (Inst (state_arg (with_rows (_state engine) ws))) CorruptError)) db
          = Ok (with_rows (_state engine) ws, db)).
  by rewrite run_lift, validate_state_arg.
Qed.

(** ** Witness queries *)
Lemma run_pending_witnesses now limit :
  run (Sql.pending_witnesses log_id now limit) db = let! l := Engine.pending_witnesses engine now limit in Ok (l, db).
Proof.
  unfold Sql.pending_witnesses, Engine.pending_witnesses. destruct (check_pending now limit) as [[t n]|]; [|done].
  cbn [sql_bind lift]. destruct read_rows as (ws & Hr & Hp & Hv). rewrite run_bind, (run_load_witnesses ws) by done.
  rewrite run_lift. rewrite (pending_agree ws (cs_witnesses (_state engine))); [done|done|apply Hwf|by rewrite Hp].
Qed.

Lemma run_pending_witnesses_for witness_id now limit :
  run (Sql.pending_witnesses_for log_id witness_id now limit) db =
  let! l := Engine.pending_witnesses_for engine witness_id now limit in Ok (l, db).
Proof.
  unfold Sql.pending_witnesses_for, Engine.pending_witnesses_for.
  destruct (check_pending_for witness_id now limit) as [[id [t n]]|]; [|done].
  cbn [sql_bind lift]. destruct read_rows as (ws & Hr & Hp & Hv). rewrite run_bind, (run_load_witnesses_for ws) by done.
  rewrite run_lift. rewrite (pending_agree (filter (fun w => ws_witness_id w = id) ws) (cs_witnesses (_state engine)));
    [done| |apply Hwf|].
  - destruct Hv as [Hv Hnd]. split; [|by apply NoDup_map_filter].
    apply Forall_forall. intros w [_ Hw]%list_elem_of_filter. by eapply Forall_forall in Hv.
  - rewrite list_filter_filter, <- Hp. apply reflexive_eq, filter_agree. intros w _. unfold is_due.
    split; [tauto|]. intros H. split; [done|]. by zbool.
Qed.

Lemma run_get_witness witness_id checkpoint_size :
  run (Sql.get_witness log_id witness_id checkpoint_size) db =
  let! o := Engine.get_witness engine witness_id checkpoint_size in Ok (o, db).
Proof.
  unfold Sql.get_witness, Engine.get_witness. destruct (check_witness_key witness_id checkpoint_size) as [[id size]|] eqn:Ek; [|done].
  assert (within 1 (2 ^ 64 - 1) size) as Hs.
  { unfold check_witness_key in Ek. destruct (as_str witness_id); [|done].
    destruct (int_within checkpoint_size _ _) as [n|] eqn:En; [|done]. destruct (is_identifier _); [|done].
    injection Ek as _ <-. by apply int_within_Some in En as [_ ?]. }
  cbn [sql_bind lift]. rewrite run_bind, run_execute, exec_effect by apply Hrep. cbn [effect].
  destruct read_rows as (ws & Hr & Hp & Hv). fold (has_key id size).
  rewrite <- (find_perm (has_key id size) ws) by (done || (intros x y Hx Hy; rewrite !has_key_iff; intros E1 E2;
    apply (key_unique ws); [apply Hv|done|done|congruence])).
  pose proof (rows_read_find _ _ id size Hr Hs) as Hf. destruct (List.find _ (witnesses_of db log_id)) as [r|].
  - destruct Hf as (w & -> & Hw & _). cbn [fmap option_fmap option_map]. by rewrite Hw.
  - by rewrite Hf.
Qed.
End operations.

(** ** Commits *)
Lemma apply_cll_rows st ws es ec next :
  valid_state st -> ws ≡ₚ cs_witnesses st ->
  apply_cll (with_rows st ws) es ec next =
  let! u := apply_cll st es ec next in
  Ok (with_rows u (ws ++ drop (length (cs_witnesses st)) (cs_witnesses u))).
Proof.
  intros Hv Hp. unfold apply_cll. change (_check_expected (with_rows st ws) es ec) with (_check_expected st es ec).
  destruct (_check_expected st es ec); [|done]. destruct (validate_state next InvalidError) as [s|]; [|done].
  cbn [with_rows cs_size cs_indexed_seq cs_nodes cs_witnesses]. destruct (_ || _); [done|].
  assert (added_witnesses (with_rows st ws) s = added_witnesses st s) as ->.
  { unfold added_witnesses. cbn [with_rows cs_indexed_seq cs_checkpoint cs_witnesses]. rewrite (witness_map_perm ws (cs_witnesses st)); [done|done|].
    rewrite Hp. apply Hv. }
  destruct (added_witnesses st s) as [added|]; [|done]. cbn [cs_witnesses]. by rewrite drop_app_length.
Qed.

Lemma node_rows_app log_id p l k : node_rows log_id p (l ++ k) = node_rows log_id p l ++ node_rows log_id (p + zlen l) k.
Proof.
  revert p. induction l as [|n l IH]; intros p; [by rewrite Z.add_0_r|]. cbn [app node_rows]. rewrite IH, zlen_cons.
  by replace (p + 1 + zlen l) with (p + (1 + zlen l)) by lia.
Qed.

Lemma node_rows_positions log_id p l r : r ∈ node_rows log_id p l -> p <= nr_position r < p + zlen l.
Proof.
  revert p. induction l as [|n l IH]; intros p Hr; [by apply elem_of_nil in Hr|]. cbn [node_rows] in Hr.
  rewrite zlen_cons. pose proof (zlen_nonneg l). apply elem_of_cons in Hr as [->|Hr]; [cbn; lia|]. specialize (IH _ Hr). lia.
Qed.

Lemma node_rows_NoDup log_id p l : NoDup (map nr_position (node_rows log_id p l)).
Proof.
  revert p. induction l as [|n l IH]; intros p; [constructor|]. cbn [node_rows map]. apply NoDup_cons. split; [|apply IH].
  intros (r & E & Hr)%list_elem_of_fmap. apply node_rows_positions in Hr. cbn in E. lia.
Qed.

(** What a part of a commit leaves alone. *)
Record kept (log_id : pystr) (db db' : Database) : Prop := {
  k_tables : created db' = 4%nat;
  k_entries : entries_of db' log_id = entries_of db log_id;
  k_state : state_of db' log_id = state_of db log_id;
  k_others : others_kept log_id db db'
}.

Lemma kept_trans log_id a b c : kept log_id a b -> kept log_id b c -> kept log_id a c.
Proof. intros [H1 H2 H3 H4] [H5 H6 H7 H8]. split; [done|congruence|congruence|by etransitivity]. Qed.

Lemma run_insert_nodes log_id old nodes db :
  created db = 4%nat -> nodes_of db log_id = node_rows log_id 0 old ->
  exists db', run (Sql.insert_nodes log_id (zlen old) nodes) db = Ok ((), db') /\
    nodes_of db' log_id = node_rows log_id 0 (old ++ nodes) /\ witnesses_of db' log_id = witnesses_of db log_id /\
    kept log_id db db'.
Proof.
  revert old db. induction nodes as [|n nodes IH]; intros old db Hc Hn.
  { exists db. rewrite app_nil_r. by split_and!. }
  cbn [Sql.insert_nodes]. rewrite run_bind, run_execute.
  destruct (insert_node db log_id (node_row log_id (zlen old) n)) as (db1 & Hx & Hc1 & H1 & H2 & H3 & H4 & Ho).
  - done.
  - done.
  - rewrite Hn. apply node_rows_NoDup.
  - intros r Hr. rewrite Hn in Hr. apply node_rows_positions in Hr. cbn. lia.
  - unfold node_row in Hx. rewrite Hx.
    destruct (IH (old ++ [n]) db1) as (db' & Hrun & Hn' & Hw & Hk); [done|by rewrite H1, Hn, node_rows_app|].
    rewrite zlen_app, zlen_cons, zlen_nil in Hrun. exists db'. split; [exact Hrun|].
    rewrite <- app_assoc in Hn'. split_and!; [done|congruence|]. eapply kept_trans; [|done]. by split.
Qed.

Lemma run_insert_witnesses log_id ws db :
  created db = 4%nat -> Forall valid_witness ws -> NoDup (map row_id (witnesses_of db log_id) ++ map key_columns ws) ->
  exists db' rows, run (Sql.insert_witnesses log_id ws) db = Ok ((), db') /\ rows_read rows ws /\
    witnesses_of db' log_id ≡ₚ witnesses_of db log_id ++ rows /\ nodes_of db' log_id = nodes_of db log_id /\
    kept log_id db db'.
Proof.
  intros Hc Hv. revert db Hc. induction Hv as [|w ws Hw Hv IH]; intros db Hc Hnd.
  { exists db, []. rewrite app_nil_r. by split_and!. }
  cbn [Sql.insert_witnesses]. destruct (table_row_reads log_id w Hw) as (row & -> & Hl & _ & Hid & Hread).
  cbn [sql_bind lift]. rewrite run_bind, run_execute. cbn [map] in Hnd.
  destruct (insert_witness db log_id row) as (db1 & Hx & Hc1 & H1 & H2 & H3 & H4 & Ho); [done|done| |].
  { rewrite Hid. intros Hin. apply NoDup_app in Hnd as (_ & Hnd & _). apply (Hnd _ Hin). by left. }
  rewrite Hx. destruct (IH db1 Hc1) as (db' & rows & Hrun & Hrows & Hp & Hn & Hk).
  { rewrite H1, map_app, <- app_assoc. cbn [map app]. by rewrite Hid. }
  exists db', (row :: rows). split_and!; [done| | |congruence|].
  - apply rows_read_cons. by exists w, ws.
  - rewrite Hp, H1, <- app_assoc. done.
  - eapply kept_trans; [|done]. by split.
Qed.

(** ** Replacing one row *)
Definition replace_witness (w v : WitnessState) : WitnessState :=
  if bool_decide (witness_key v = witness_key w) then w else v.

(** The compare-and-set on all rows is the one on the row with the key. *)
Lemma find_witness_single rows n w i :
  match List.find (has_key (ws_witness_id w) (ws_checkpoint_size w)) rows with
  | None => find_witness i rows n w = Raise ContentionError
  | Some row =>
      match find_witness 0 [row] n w with
      | Ok r => r.2 = w /\ witness_key row = witness_key w /\ ws_attempts row = n /\
          exists j, find_witness i rows n w = Ok ((i + j)%nat, w) /\ rows !! j = Some row
      | Raise e => find_witness i rows n w = Raise e
      end
  end.
Proof.
  revert i. induction rows as [|row rows IH]; intros i; [done|]. cbn [List.find].
  destruct (has_key _ _ row) eqn:E.
  - assert (witness_key row = witness_key w) as Hk by (rewrite has_key_iff in E; exact E). cbn [find_witness].
    rewrite bool_decide_true by done. cbn [negb]. destruct (ws_attempts row =? n) eqn:Ea; [|done]. zbool. cbn [negb].
    destruct (negb _); [done|]. split_and!; try done. exists O. by rewrite Nat.add_0_r.
  - assert (witness_key row <> witness_key w) as Hk by (intros Hk; apply not_true_iff_false in E; apply E, has_key_iff, Hk).
    assert (find_witness i (row :: rows) n w = find_witness (S i) rows n w) as ->
      by (cbn [find_witness]; by rewrite bool_decide_false).
    specialize (IH (S i)).
    destruct (List.find _ rows) as [r|]; [|done]. destruct (find_witness 0 [r] n w); [|done].
    destruct IH as (? & ? & ? & j & -> & Hj). split_and!; try done. exists (S j).
    by rewrite <- Nat.add_succ_comm.
Qed.

Lemma insert_replace rows j row w :
  NoDup (map witness_key rows) -> rows !! j = Some row -> witness_key row = witness_key w ->
  <[j := w]> rows = map (replace_witness w) rows.
Proof.
  intros Hnd Hj Hk. apply list_eq. intros i. rewrite list_lookup_fmap. destruct (decide (i = j)) as [->|Hne].
  - rewrite list_lookup_insert_eq by (by eapply lookup_lt_Some). rewrite Hj. cbn. unfold replace_witness.
    by rewrite bool_decide_true.
  - rewrite list_lookup_insert_ne by done. destruct (rows !! i) as [v|] eqn:Ei; [|done]. cbn. unfold replace_witness.
    rewrite bool_decide_false; [done|]. intros E. apply Hne. eapply (NoDup_lookup _ _ _ _ Hnd); rewrite list_lookup_fmap;
      [by rewrite Ei|rewrite Hj; cbn; f_equal; congruence].
Qed.

Lemma rows_read_replace rows ws row w :
  rows_read rows ws -> valid_witness w -> witness_from_row (witness_columns row) = Ok w ->
  rows_read (map (replace_row row) rows) (map (replace_witness w) ws).
Proof.
  intros Hr Hw Hrow. revert ws Hr. induction rows as [|r rows IH]; intros ws Hr; [by injection Hr as <-|].
  apply rows_read_cons in Hr as (v & ws' & Hv & Hr & ->). cbn [map]. apply rows_read_cons.
  pose proof (witness_from_row_inv _ _ _ _ _ Hv) as (Vv & E1 & E2 & _).
  pose proof (witness_from_row_inv _ _ _ _ _ Hrow) as (_ & F1 & F2 & _).
  eexists _, _. split_and!; [|by apply IH|done]. unfold replace_row, replace_witness.
  destruct (decide (witness_key v = witness_key w)) as [E|Hne].
  - rewrite !bool_decide_true; [done|done|]. unfold row_id. rewrite <- E1, <- E2, <- F1, <- F2. by injection E as -> ->.
  - rewrite !bool_decide_false; [done|done|]. intros E. apply Hne, key_columns_inj; [done|done|].
    unfold key_columns. unfold row_id in E. by rewrite E1, E2, F1, F2.
Qed.

Section commits.
Context (log_id : pystr) (db : Database) (engine : Engine).
Context (Hrep : represents log_id db engine) (Hwf : wf engine).

Lemma commit_cll_refines es ec next for_update :
  (forall engine', Engine.commit_cll engine es ec next = Ok engine' -> fits engine') ->
  mutates log_id db (Sql.commit_cll log_id es ec next for_update)
    (let! engine' := Engine.commit_cll engine es ec next in Ok ((), engine')).
Proof.
  intros Hfits. unfold Sql.commit_cll, Engine.commit_cll, mutates in *.
  destruct (read_rows log_id db engine Hrep Hwf) as (ws & Hr & Hp & Hv).
  pose proof (wf_state _ Hwf) as Hst. set (st := _state engine) in *.
  assert (forall B (k : CllState -> sql B), run (sql_bind (Sql.load_state log_id for_update) k) db = run (k (with_rows st ws)) db) as Hload.
  { intros B k. by rewrite run_bind, (run_load_state log_id db engine Hrep Hwf for_update ws Hr Hp). }
  rewrite Hload, apply_cll_rows by done. clear Hload. destruct (apply_cll st es ec next) as [u|e] eqn:Eu; [|done].
  specialize (Hfits _ eq_refl). unfold fits in Hfits. cbn [Engine.with_state _state] in Hfits.
  apply apply_cll_inv in Eu as (_ & s & _ & [Hnodes _] & _ & Hmerge & Hu & _); [|done].
  destruct (metadata_reads u Hu Hfits) as (bs & Hbs & Hreads). cbn [sql_bind lift].
  change (metadata (with_rows u _)) with (metadata u). rewrite Hbs. cbn [sql_bind lift].
  destruct (rp_state _ _ _ Hrep) as (raw & Hraw & _).
  destruct (update_state db log_id raw (Blob bs) (rp_tables _ _ _ Hrep) Hraw) as (db1 & Hx & Hc1 & Hs1 & He1 & Hn1 & Hw1 & Ho1).
  rewrite run_bind, run_execute, Hx. rewrite run_bind. cbn [with_rows cs_nodes cs_witnesses].
  destruct (run_insert_nodes log_id (cs_nodes st) (drop (length (cs_nodes st)) (cs_nodes u)) db1) as (db2 & -> & Hn2 & Hw2 & Hk2);
    [done|by rewrite Hn1, (rp_nodes _ _ _ Hrep)|].
  rewrite drop_app_length.
  assert (cs_witnesses u = cs_witnesses st ++ drop (length (cs_witnesses st)) (cs_witnesses u)) as Hsplit.
  { rewrite Hmerge. cbn [merged cs_witnesses]. by rewrite drop_app_length. }
  set (added := drop (length (cs_witnesses st)) (cs_witnesses u)) in *.
  pose proof (vm_rows _ _ _ (vs_metadata _ Hu)) as Hur. rewrite Hsplit, <- Hp in Hur. destruct Hur as [Hval Hnd].
  destruct (run_insert_witnesses log_id added db2) as (db3 & rows & -> & Hrows & Hp3 & Hn3 & Hk3).
  - apply Hk2.
  - by apply Forall_app in Hval as [_ ?].
  - rewrite Hw2, Hw1. destruct (rows_read_keys _ _ Hr) as (-> & _). rewrite <- map_app. by apply key_columns_NoDup.
  - exists db3. split; [done|]. pose proof (kept_trans _ _ _ _ Hk2 Hk3) as [K1 K2 K3 K4].
    split; [|by etransitivity]. destruct Hrep as [R1 R0 R2 R3 R4 R5]. split; cbn [Engine.with_state _entries _state].
    + done.
    + done.
    + by rewrite K2, He1.
    + rewrite Hn3, Hn2. f_equal. destruct Hnodes as [k Hk]. rewrite Hmerge. cbn [merged cs_nodes]. rewrite Hk.
      by rewrite drop_app_length.
    + destruct (rows_read_perm (witnesses_of db log_id ++ rows) (witnesses_of db3 log_id) (ws ++ added)) as (ws3 & Hr3 & Hp').
      * by rewrite Hp3, Hw2, Hw1.
      * by apply rows_read_app.
      * exists ws3. split; [done|]. by rewrite <- Hp', Hsplit, Hp.
    + exists (Blob bs). split; [congruence|done].
Qed.

Lemma commit_witness_refines ea next :
  mutates log_id db (Sql.commit_witness log_id ea next)
    (let! engine' := Engine.commit_witness engine ea next in Ok ((), engine')).
Proof.
  unfold Sql.commit_witness, Engine.commit_witness, mutates, apply_witness.
  destruct (validate_witness next InvalidError) as [w|] eqn:Ew; [|done]. apply validate_witness_inv in Ew as Hw.
  cbn [sql_bind lift]. destruct (check_expected_attempts ea) as [n|] eqn:Ea; [|done].
  destruct (read_rows log_id db engine Hrep Hwf) as (ws & Hr & Hp & Hv).
  assert (check_witness_key (PStr (ws_witness_id w)) (PInt (ws_checkpoint_size w)) = Ok (ws_witness_id w, ws_checkpoint_size w)) as Hck.
  { unfold check_witness_key. cbn [as_str]. by rewrite int_within_int, (vw_id _ Hw) by apply Hw. }
  pose proof (rows_read_find _ _ (ws_witness_id w) (ws_checkpoint_size w) Hr (vw_size _ Hw)) as Hfind.
  assert (List.find (has_key (ws_witness_id w) (ws_checkpoint_size w)) ws =
          List.find (has_key (ws_witness_id w) (ws_checkpoint_size w)) (cs_witnesses (_state engine))) as Hsame.
  { apply find_perm; [done|]. intros x y Hx Hy. rewrite !has_key_iff. intros E1 E2.
    apply (key_unique ws); [apply Hv|done|done|congruence]. }
  rewrite run_bind, (run_get_witness log_id db engine Hrep Hwf). unfold Engine.get_witness. rewrite Hck. fold (has_key (ws_witness_id w) (ws_checkpoint_size w)).
  pose proof (find_witness_single (cs_witnesses (_state engine)) n w 0) as Hs. rewrite <- Hsame in *.
  destruct (List.find (fun r => _) (witnesses_of db log_id)) as [old|].
  2: { rewrite Hfind in *. by rewrite Hs. }
  destruct Hfind as (current & Hcur & Hread & Hin). rewrite Hcur in *.
  rewrite validate_witness_arg by done.
  destruct (find_witness 0 [current] n w) as [[k w']|e] eqn:Ef; [|by rewrite Hs]. cbn [snd] in Hs.
  destruct Hs as (-> & Hk & Hatt & j & -> & Hj). cbn [sql_bind lift Nat.add].
  destruct (table_row_reads log_id w Hw) as (row & -> & Hl & _ & Hid & Hrow). cbn [sql_bind lift].
  pose proof (witness_from_row_inv _ _ _ _ _ Hread) as (Vc & C1 & C2 & C3). rewrite run_bind, run_execute.
  assert (n = tr_attempts old) as -> by congruence.
  destruct (update_witness db log_id row old) as (db' & -> & K1 & K2 & K3 & K4 & K5 & K6); try done.
  - apply Hrep.
  - destruct (rows_read_keys _ _ Hr) as (-> & _). apply key_columns_NoDup; apply Hv.
  - rewrite Hid. unfold row_id. rewrite <- C1, <- C2. by injection Hk as -> ->.
  - exists db'. split; [done|]. split; [|done]. destruct Hrep as [R1 R0 R2 R3 R4 R5].
    split; cbn [Engine.with_state _entries _state cs_nodes cs_witnesses]; [done|done|congruence|congruence| |].
    + destruct (rows_read_perm (map (replace_row row) (witnesses_of db log_id)) (witnesses_of db' log_id) (map (replace_witness w) ws))
        as (ws' & Hr' & Hp'); [by rewrite K2|by apply rows_read_replace|].
      exists ws'. split; [done|]. rewrite <- Hp', (insert_replace _ _ current) by (done || apply Hwf).
      change (map (replace_witness w)) with (fmap (M := list) (replace_witness w)). by rewrite Hp.
    + destruct R5 as (raw & Hraw & Hreads). exists raw. split; [congruence|exact Hreads].
Qed.
End commits.
