(* ===== verification/SqliteProps.v ===== *)
(** * The SQLite backend: correctness

    Isolation between the logs of a database, calls of several handles as runs
    of the engines of their logs, and opening and provisioning a file. *)
From S2P Require Import Prelude Bytes Text Py Cll Json Wire Engine EngineValid EngineProps EngineCommit EngineSteps Backend Sql SqlRows SqlProps SqlCommit Sqlite.
Open Scope Z_scope.

(** ** Isolation: a program of one log leaves the others alone *)
Definition about (log_id : pystr) {B} (s : stmt B) : Prop :=
  match s with
  | SelectState id _ | SelectWidths id | SelectNodes id | SelectWitnesses id _ | SelectWitness id _ _
  | SelectEntry id _ | SelectEntries id _ _ | SelectMaxSeq id | InsertMetaOrIgnore id _ | UpdateState id _ => id = log_id
  | InsertEntry row => er_log_id row = log_id
  | InsertNode row => nr_log_id row = log_id
  | InsertWitness row | UpdateWitness row _ => tr_log_id row = log_id
  | CreateTable _ => False
  | Pragma => True
  end.

Fixpoint scoped (log_id : pystr) {A} (p : sql A) : Prop :=
  match p with
  | Done _ => True
  | Execute s k => about log_id s /\ forall b, scoped log_id (k b)
  end.

Lemma scoped_bind log_id {A B} (p : sql A) (f : A -> sql B) :
  scoped log_id p -> (forall a, scoped log_id (f a)) -> scoped log_id (sql_bind p f).
Proof.
  intros Hp Hf. induction p as [[a|e]|C s k IH]; [apply Hf|done|]. cbn in *. destruct Hp as [Hs Hk].
  split; [done|]. intros b. by apply IH.
Qed.

Lemma state_of_map db other f :
  (forall r, (f r).1 = r.1) -> (forall r, r.1 = other -> f r = r) ->
  state_of (with_meta db (map f (cll_meta db))) other = state_of db other.
Proof.
  intros H1 H2. unfold state_of, with_meta. cbn [cll_meta]. induction (cll_meta db) as [|r l IH]; [done|].
  cbn. rewrite H1. destruct (bool_decide (r.1 = other)) eqn:E; [|done]. zbool. cbn. by rewrite H2.
Qed.

Lemma exec_scoped log_id {B} (s : stmt B) db b db' :
  about log_id s -> exec s db = Ok (b, db') -> others_kept log_id db db'.
Proof.
  intros Hs. unfold exec. destruct (bool_decide _); [|done].
  destruct s as [| | |id [|]| | | | |row|row|row|id raw|id raw|row att| | ]; cbn [about effect] in *;
    try (intros [= _ <-]; reflexivity); try done.
  - destruct (existsb _ _); [done|]. intros [= <- <-]. split; [done|]. intros other Ho. split; try done.
    unfold entries_of, with_entries. cbn [cll_entries]. rewrite filter_snoc_other; [done|congruence].
  - destruct (existsb _ _); [done|]. intros [= <- <-]. split; [done|]. intros other Ho. split; try done.
    unfold nodes_of, with_nodes. cbn [cll_nodes]. rewrite filter_snoc_other; [done|congruence].
  - destruct (existsb _ _); [done|]. intros [= <- <-]. split; [done|]. intros other Ho. split; try done.
    unfold witnesses_of, with_witnesses. cbn [cll_witnesses]. rewrite filter_snoc_other; [done|congruence].
  - intros [= <- <-]. subst id. destruct (state_of db log_id) eqn:E; [reflexivity|]. split; [done|]. intros other Ho.
    split; try done. unfold state_of, with_meta. cbn [cll_meta]. clear E. induction (cll_meta db) as [|r l IH].
    + cbn. by rewrite bool_decide_false.
    + cbn. by destruct (bool_decide (r.1 = other)).
  - intros [= <- <-]. split; [done|]. intros other Ho. split; try done. apply state_of_map; intros r; cbn.
    + by destruct (bool_decide _).
    + intros Hr. by rewrite bool_decide_false by congruence.
  - intros [= <- <-]. split; [done|]. intros other Ho. split; try done. unfold witnesses_of, with_witnesses, update_where.
    cbn [cll_witnesses]. f_equal.
    assert (forall r, same_witness_key row r && (tr_attempts r =? att) = true -> tr_log_id r = log_id) as Hm.
    { intros r Hr. unfold same_witness_key in Hr. zbool. congruence. }
    rewrite filter_map_same.
    + rewrite <- map_id. apply map_ext_in. intros r [Hr _]%list_elem_of_In%list_elem_of_filter.
      destruct (_ && (_ =? att)) eqn:E; [|done]. apply Hm in E. congruence.
    + intros r. destruct (_ && (_ =? att)) eqn:E; [|done]. apply Hm in E. by rewrite E, Hs.
Qed.

Lemma run_scoped log_id {A} (p : sql A) db io a db' :
  scoped log_id p -> run_sql p db io = Ok (a, db') -> others_kept log_id db db'.
Proof.
  revert db io. induction p as [[x|e]|C s k IH]; intros db io Hp Hr; cbn [run_sql] in Hr.
  - injection Hr as <- <-. reflexivity.
  - done.
  - destruct Hp as [Hs Hk]. destruct (mjoin (head io)); [done|]. destruct (exec s db) as [[b db1]|] eqn:E; [|done].
    etransitivity; [by eapply exec_scoped|]. by eapply IH.
Qed.

Lemma scoped_lift log_id {A B} (r : result A) (f : A -> sql B) :
  (forall a, r = Ok a -> scoped log_id (f a)) -> scoped log_id (sql_bind (lift r) f).
Proof. destruct r; [intros H; by apply H|done]. Qed.

Lemma table_row_log log_id w row : Sql.table_row log_id w = Ok row -> tr_log_id row = log_id.
Proof. unfold Sql.table_row. intros H. by inv_result. Qed.

(** Every operation of [sql.py] only names its log. *)
Create HintDb scoped.
#[export] Hint Resolve table_row_log : scoped.
Ltac scope :=
  repeat first
    [ progress intros
    | apply scoped_lift
    | apply scoped_bind
    | match goal with |- scoped _ (match ?e with _ => _ end) => destruct e end
    | progress cbn [execute lift scoped about]
    | match goal with |- _ /\ _ => split | |- True => exact I end
    | solve [eauto with scoped] ].

Lemma load_state_scoped log_id for_update : scoped log_id (Sql.load_state log_id for_update).
Proof. unfold Sql.load_state, Sql.load_witnesses. scope. Qed.
Lemma append_scoped log_id input lock : scoped log_id (Sql.append log_id input lock).
Proof. unfold Sql.append, Sql.lock_log, Sql._find_entry. scope. Qed.
Lemma insert_nodes_scoped log_id p nodes : scoped log_id (Sql.insert_nodes log_id p nodes).
Proof. revert p. induction nodes; intros; cbn [Sql.insert_nodes]; scope. Qed.
Lemma insert_witnesses_scoped log_id ws : scoped log_id (Sql.insert_witnesses log_id ws).
Proof. induction ws; cbn [Sql.insert_witnesses]; scope. Qed.
#[export] Hint Resolve load_state_scoped insert_nodes_scoped insert_witnesses_scoped : scoped.
Lemma commit_cll_scoped log_id es ec next for_update : scoped log_id (Sql.commit_cll log_id es ec next for_update).
Proof. unfold Sql.commit_cll. scope. Qed.
Lemma commit_witness_scoped log_id ea next : scoped log_id (Sql.commit_witness log_id ea next).
Proof. unfold Sql.commit_witness, Sql.get_witness. scope. Qed.

(** ** One call *)

(** The program behind a mutation. *)
Definition mutation_sql (lock : bool) (log_id : pystr) (m : mutation) : sql (option AppendResult) :=
  match m with
  | MAppend input => let* r := Sql.append log_id input lock in lift (Ok (Some r))
  | MCommit size checkpoint next => let* _ := Sql.commit_cll log_id size checkpoint next lock in lift (Ok None)
  | MWitness attempts next => let* _ := Sql.commit_witness log_id attempts next in lift (Ok None)
  end.

Lemma run_sql_map {A B} (p : sql A) (f : A -> B) db io :
  run_sql (let* a := p in lift (Ok (f a))) db io = let! (a, db) := run_sql p db io in Ok (f a, db).
Proof.
  revert db io. induction p as [[a|e]|C s k IH]; intros db io; [done..|]. cbn [sql_bind run_sql].
  destruct (mjoin (head io)); [done|]. destruct (exec s db) as [[b db']|]; [apply IH|done].
Qed.

Lemma transaction_map {A B} (p : sql A) (f : A -> B) self db io :
  _transaction self db (let* a := p in lift (Ok (f a))) io =
  let '(self, db, r) := _transaction self db p io in (self, db, let! a := r in Ok (f a)).
Proof.
  unfold _transaction. destruct (sq_closed self); [done|]. destruct (in_transaction self); [done|].
  destruct (io_begin io); [done|]. rewrite run_sql_map.
  destruct (run_sql p db (io_statements io)) as [[a db']|e]; by destruct (io_end io) as [[? ?]|].
Qed.

Lemma sqlite_mutate_eq self db m io :
  sqlite_mutate self db m io = _transaction self db (mutation_sql false (_log_id self) m) io.
Proof.
  unfold sqlite_mutate, Sqlite.append, Sqlite.commit_cll, Sqlite.commit_witness. destruct m; cbn [mutation_sql];
    rewrite transaction_map; by destruct (_transaction _ _ _ _) as [[? ?] [|]].
Qed.

Lemma mutates_map {A B} log_id db (p : sql A) (f : A -> B) r :
  mutates log_id db p r -> mutates log_id db (let* a := p in lift (Ok (f a))) (let! (a, engine) := r in Ok (f a, engine)).
Proof.
  unfold mutates, run. rewrite run_sql_map. destruct r as [[a engine]|e].
  - intros (db' & -> & ?). by exists db'.
  - by intros ->.
Qed.

Lemma mutation_refines lock log_id db engine m :
  represents log_id db engine -> wf engine -> fits engine -> small m ->
  mutates log_id db (mutation_sql lock log_id m) (run_engine engine m).
Proof.
  intros Hrep Hwf Hfits Hsmall. destruct m as [input|es ec next|ea next]; cbn [mutation_sql run_engine].
  - exact (mutates_map _ _ _ Some _ (append_refines log_id db engine Hrep Hwf input lock)).
  - pose proof (commit_cll_refines log_id db engine Hrep Hwf es ec next lock) as H.
    apply (mutates_map _ _ _ (fun _ => @None AppendResult)) in H. { by destruct (Engine.commit_cll _ _ _ _). }
    intros engine' E. eapply (run_engine_fits engine (MCommit es ec next)); [done..|]. cbn [run_engine]. by rewrite E.
  - pose proof (commit_witness_refines log_id db engine Hrep Hwf ea next) as H.
    apply (mutates_map _ _ _ (fun _ => @None AppendResult)) in H. by destruct (Engine.commit_witness _ _ _).
Qed.

(** What a transaction is, for the program it runs without failures. *)
Lemma transaction_cases {A} (self : SqliteStore) db (p : sql A) io :
  match _transaction self db p io with
  | (self', db', Ok a) => self' = self /\ run p db = Ok (a, db')
  | (self', db', Raise e) => db' = db /\ _log_id self' = _log_id self /\ sq_closed self' = sq_closed self
  end.
Proof.
  unfold _transaction. destruct (sq_closed self) eqn:Ec; [done|]. destruct (in_transaction self); [done|].
  destruct (io_begin io); [done|]. destruct (run_faults p db (io_statements io)) as [->|(e & _ & ->)].
  - destruct (run p db) as [[a db']|e]; by destruct (io_end io) as [[? ?]|].
  - by destruct (io_end io) as [[? ?]|].
Qed.

Lemma transaction_clean {A} (self : SqliteStore) db (p : sql A) :
  sq_closed self = false -> in_transaction self = false ->
  _transaction self db p no_faults =
  match run p db with Ok (a, db') => (self, db', Ok a) | Raise e => (self, db, Raise (classified e)) end.
Proof. intros Hc Ht. unfold _transaction. rewrite Hc, Ht. cbn. unfold run. by destruct (run_sql p db []) as [[? ?]|]. Qed.

(** ** Several handles *)

(** Handle [i] of several on one database makes a call. *)
Fixpoint handle_calls (handles : list SqliteStore) (db : Database) (calls : list (nat * mutation * SqliteFaults))
  : list SqliteStore * Database * list (result (option AppendResult)) :=
  match calls with
  | [] => (handles, db, [])
  | (i, m, io) :: calls =>
      match handles !! i with
      | None => handle_calls handles db calls
      | Some self =>
          let '(self, db, r) := sqlite_mutate self db m io in
          let '(handles, db, rs) := handle_calls (<[i := self]> handles) db calls in
          (handles, db, r :: rs)
      end
  end.

(** The acknowledged mutations of the handles on one log, with their replies. *)
Fixpoint log_acknowledged (log_id : pystr) (handles : list SqliteStore) (db : Database)
    (calls : list (nat * mutation * SqliteFaults)) : list (mutation * option AppendResult) :=
  match calls with
  | [] => []
  | (i, m, io) :: calls =>
      match handles !! i with
      | None => log_acknowledged log_id handles db calls
      | Some self =>
          let '(self', db', r) := sqlite_mutate self db m io in
          let rest := log_acknowledged log_id (<[i := self']> handles) db' calls in
          match r with
          | Ok a => if bool_decide (_log_id self = log_id) then (m, a) :: rest else rest
          | Raise _ => rest
          end
      end
  end.

Lemma mutation_scoped lock log_id m : scoped log_id (mutation_sql lock log_id m).
Proof.
  destruct m; cbn [mutation_sql]; apply scoped_bind; try done;
    [apply append_scoped|apply commit_cll_scoped|apply commit_witness_scoped].
Qed.

Lemma call_others self db m io self' db' r :
  sqlite_mutate self db m io = (self', db', r) -> others_kept (_log_id self) db db' /\ _log_id self' = _log_id self.
Proof.
  rewrite sqlite_mutate_eq. pose proof (transaction_cases self db (mutation_sql false (_log_id self) m) io) as Hc. intros E.
  rewrite E in Hc. destruct r as [a|e].
  - destruct Hc as [-> Hr]. split; [|done]. eapply run_scoped; [apply mutation_scoped|exact Hr].
  - destruct Hc as (-> & -> & _). split; [reflexivity|done].
Qed.

(** [C16] The SQLite backend is linearizable per log, with any number of
    handles on any logs of one database, whatever statement, begin, commit or
    rollback fails for them, busy databases included: for every log whose
    tables represent an engine, the mutations that its handles acknowledged
    are a run of that engine, in order and with the engine's replies, and the
    tables represent the engine the run ends in, which extends the first. A
    failed call and the calls on other logs leave no trace. *)
Theorem sqlite_linearizable (log_id : pystr) (handles : list SqliteStore) (db : Database) (engine : Engine)
    (calls : list (nat * mutation * SqliteFaults)) :
  represents log_id db engine -> wf engine -> fits engine -> Forall (fun call => small call.1.2) calls ->
  exists engine', accepts engine (log_acknowledged log_id handles db calls) engine' /\
    represents log_id (handle_calls handles db calls).1.2 engine' /\ wf engine' /\ extends engine engine'.
Proof.
  intros Hrep Hwf Hfits Hsmall. assert (exists engine', accepts engine (log_acknowledged log_id handles db calls) engine' /\
    represents log_id (handle_calls handles db calls).1.2 engine') as (engine' & Ha & Hr).
  2: { exists engine'. destruct (steps_wf _ _ Hwf (accepts_steps _ _ _ Ha)). by split_and!. }
  revert handles db engine Hrep Hwf Hfits. induction Hsmall as [|[[i m] io] calls Hm Hsmall IH]; intros handles db engine Hrep Hwf Hfits.
  { by exists engine. }
  cbn [fst snd] in Hm. cbn [handle_calls log_acknowledged]. destruct (handles !! i) as [self|]; [|by apply IH].
  destruct (sqlite_mutate self db m io) as [[self' db'] r] eqn:E. pose proof (call_others _ _ _ _ _ _ _ E) as [Ho _].
  assert (forall e, represents log_id db' e -> wf e -> fits e -> exists engine',
    accepts e (log_acknowledged log_id (<[i:=self']> handles) db' calls) engine' /\
    represents log_id (let '(_, db, _) := handle_calls (<[i:=self']> handles) db' calls in db) engine') as Hrest.
  { intros e H1 H2 H3. destruct (IH (<[i:=self']> handles) db' e H1 H2 H3) as (e' & ? & Hr). exists e'. split; [done|].
    by destruct (handle_calls _ _ _) as [[? ?] ?]. }
  clear IH. destruct (handle_calls _ _ calls) as [[hs db''] rs]. cbn [fst snd] in *.
  destruct (decide (_log_id self = log_id)) as [Hl|Hne].
  2: { apply (represents_frame _ _ _ _ log_id Ho) in Hrep; [|done]. rewrite bool_decide_false by done.
       by destruct r; apply Hrest. }
  rewrite bool_decide_true by done. rewrite sqlite_mutate_eq, Hl in E.
  pose proof (transaction_cases self db (mutation_sql false log_id m) io) as Hc. rewrite E in Hc.
  destruct r as [a|e]; [|destruct Hc as (-> & _); by apply Hrest]. destruct Hc as [-> Hrun].
  pose proof (mutation_refines false log_id db engine m Hrep Hwf Hfits Hm) as Hmut. unfold mutates in Hmut.
  destruct (run_engine engine m) as [[a' e']|x] eqn:Er; [|congruence]. destruct Hmut as (db2 & Hrun2 & Hrep2 & _).
  rewrite Hrun in Hrun2. injection Hrun2 as -> ->.
  destruct (Hrest e') as (engine' & Ha & Hr); [done| |by eapply run_engine_fits|].
  { by destruct (step_wf engine e' Hwf (run_engine_step _ _ _ _ Er)). }
  exists engine'. split; [|done]. cbn [accepts]. by exists e'.
Qed.

(** What the engine raises is an error of the contract, not a driver's. *)
Definition contract_error {A} (r : result A) : Prop := match r with Ok _ => True | Raise e => is_cll_error e = true end.

Lemma run_engine_raise engine m e : wf engine -> run_engine engine m = Raise e -> is_cll_error e = true.
Proof.
  intros Hwf. destruct m as [input|es ec next|ea next]; cbn [run_engine].
  - rewrite append_eq by done. destruct (check_append input) as [[v t]|x] eqn:Ec.
    + pose proof (wf_find engine v Hwf) as Hf. destruct (_by_value engine !! v); [|by destruct (_ <=? _); [intros [= <-]|]].
      by destruct Hf as (? & -> & _).
    + assert (x = InvalidError) as ->; [|by intros [= <-]]. revert Ec. unfold check_append. destruct input as [a|]; [|by intros [= <-]].
      unfold check_value. destruct (or_raise _ _) eqn:E1; [|intros [= <-]; by eapply or_raise_Raise].
      destruct (normalize_time _ _) eqn:E2; [done|]. intros [= <-]. by eapply normalize_raise.
  - unfold Engine.commit_cll, apply_cll. pose proof (check_expected_eq (_state engine) es ec) as Hx.
    destruct (_check_expected _ _ _) as [|x]; [|intros [= <-]; by destruct Hx as [_ [[-> _]|[-> _]]]].
    destruct (validate_state next InvalidError) as [s|x] eqn:Ev; [|apply validate_state_raise in Ev as ->; by intros [= <-]].
    destruct (_ || _) eqn:Eo; [by intros [= <-]|].
    assert (cs_indexed_seq (_state engine) <= cs_indexed_seq s) as Hle by (zbool; lia).
    pose proof (added_witnesses_eq (_state engine) s (rows_keys _ (vm_rows _ _ _ (vs_metadata _ (wf_state _ Hwf)))) Hle) as Ha.
    destruct (added_witnesses _ _); [done|]. destruct Ha as [-> _]. by intros [= <-].
  - unfold Engine.commit_witness. pose proof (apply_witness_eq (cs_witnesses (_state engine)) ea next
      (rows_keys _ (vm_rows _ _ _ (vs_metadata _ (wf_state _ Hwf))))) as Ha.
    destruct (apply_witness _ _ _) as [[? ?]|x]; [done|]. intros [= <-]. by destruct x.
Qed.

Lemma get_entry_errors engine value : wf engine -> contract_error (Engine.get_entry engine value).
Proof.
  intros Hwf. unfold Engine.get_entry, check_value. destruct (or_raise _ _) as [v|x] eqn:E; [|by apply or_raise_Raise in E as ->].
  pose proof (wf_find engine v Hwf) as Hf. destruct (_by_value engine !! v); [by destruct Hf as (? & -> & _)|done].
Qed.

Lemma scan_entries_errors engine after_seq limit : contract_error (Engine.scan_entries engine after_seq limit).
Proof.
  unfold Engine.scan_entries, check_scan. destruct (or_raise (int_within after_seq _ _) _) eqn:E1; [|by apply or_raise_Raise in E1 as ->].
  destruct (or_raise (int_within limit _ _) _) eqn:E2; [done|by apply or_raise_Raise in E2 as ->].
Qed.

Lemma pending_errors engine witness_id now limit :
  wf engine -> contract_error (Engine.pending_witnesses engine now limit) /\
  contract_error (Engine.pending_witnesses_for engine witness_id now limit).
Proof.
  intros Hwf. unfold Engine.pending_witnesses, Engine.pending_witnesses_for, check_pending_for.
  assert (forall r e, check_pending now limit = r -> r = Raise e -> e = InvalidError) as Hc by (intros r e <-; apply check_pending_raise).
  assert (valid_rows (cs_witnesses (_state engine))) as Hr by apply (wf_state _ Hwf).
  destruct (check_pending now limit) as [[t n]|x]; [|rewrite (Hc _ x eq_refl eq_refl)]; split; try done.
  - by destruct (pending_first_due (cs_witnesses (_state engine)) t n None) as (? & -> & _).
  - destruct (as_str witness_id) as [id|]; [|done]. destruct (is_identifier id); [|done].
    by destruct (pending_first_due (cs_witnesses (_state engine)) t n (Some id)) as (? & -> & _).
  - destruct (as_str witness_id) as [id|]; [|done]. by destruct (is_identifier id).
Qed.

Lemma get_witness_errors engine witness_id checkpoint_size : contract_error (Engine.get_witness engine witness_id checkpoint_size).
Proof.
  unfold Engine.get_witness, check_witness_key. destruct (as_str witness_id); [|done]. destruct (int_within _ _ _); [|done].
  by destruct (is_identifier _).
Qed.

(** A read whose program is the engine's read, without failures. *)
Lemma read_exact {A} (self : SqliteStore) db (p : sql A) (r : result A) :
  sq_closed self = false -> in_transaction self = false ->
  run p db = (let! a := r in Ok (a, db)) -> contract_error r -> _transaction self db p no_faults = (self, db, r).
Proof. intros Hc Ht Hr Hb. rewrite transaction_clean, Hr by done. destruct r as [a|[]]; done. Qed.

(** Without failures the backend is exactly the engine: on tables that
    represent an engine, an open handle answers every mutation with the
    engine's reply or its exception, an exception leaving the database as it
    was; every read is the engine's read and changes nothing; and loading the
    state returns the engine's state up to the order of the witness rows. *)
Theorem sqlite_exact (self : SqliteStore) (db : Database) (engine : Engine) (m : mutation)
    (value after_seq limit now witness_id checkpoint_size : pyval) :
  represents (_log_id self) db engine -> wf engine -> fits engine -> small m ->
  sq_closed self = false -> in_transaction self = false ->
  match run_engine engine m with
  | Ok (r, engine') => exists db', sqlite_mutate self db m no_faults = (self, db', Ok r) /\
      represents (_log_id self) db' engine' /\ others_kept (_log_id self) db db'
  | Raise e => sqlite_mutate self db m no_faults = (self, db, Raise e)
  end /\
  Sqlite.get_entry self db no_faults value = (self, db, Engine.get_entry engine value) /\
  Sqlite.entry_count self db no_faults = (self, db, Ok (zlen (_entries engine))) /\
  Sqlite.scan_entries self db no_faults after_seq limit = (self, db, Engine.scan_entries engine after_seq limit) /\
  Sqlite.pending_witnesses self db no_faults now limit = (self, db, Engine.pending_witnesses engine now limit) /\
  Sqlite.pending_witnesses_for self db no_faults witness_id now limit =
    (self, db, Engine.pending_witnesses_for engine witness_id now limit) /\
  Sqlite.get_witness self db no_faults witness_id checkpoint_size =
    (self, db, Engine.get_witness engine witness_id checkpoint_size) /\
  exists s, Sqlite.load_cll self db no_faults = (self, db, Ok s) /\ same_index (_state engine) s /\
    cs_witnesses s ≡ₚ cs_witnesses (_state engine).
Proof.
  intros Hrep Hwf Hfits Hm Hc Ht. split_and!.
  - rewrite sqlite_mutate_eq, transaction_clean by done. pose proof (mutation_refines false _ _ _ _ Hrep Hwf Hfits Hm) as Hx.
    unfold mutates in Hx. destruct (run_engine engine m) as [[r engine']|e] eqn:Er.
    + destruct Hx as (db' & -> & ?). by exists db'.
    + rewrite Hx. apply run_engine_raise in Er; [|done]. by destruct e.
  - apply read_exact; [done|done|by apply run_get_entry|by apply get_entry_errors].
  - apply read_exact; [done|done|by apply run_entry_count|done].
  - apply read_exact; [done|done|by apply run_scan_entries|apply scan_entries_errors].
  - apply read_exact; [done|done|by apply run_pending_witnesses|by apply (pending_errors engine witness_id)].
  - apply read_exact; [done|done|by apply run_pending_witnesses_for|by apply pending_errors].
  - apply read_exact; [done|done|by apply run_get_witness|apply get_witness_errors].
  - destruct (read_rows _ _ _ Hrep Hwf) as (ws & Hr & Hp & _). exists (with_rows (_state engine) ws).
    split_and!; [|done|done]. apply read_exact; [done|done| |done]. by apply run_load_state.
Qed.
