(* ===== verification/SqliteOpen.v ===== *)
(** * Provisioning and opening a SQLite file

    [init] creates the tables and the metadata of a log, statement by
    statement, and may fail at any of them; [open] validates and writes
    nothing. *)
From S2P Require Import Prelude Bytes Text Py Cll Json Calendar Wire Engine EngineValid EngineProps EngineCommit EngineSteps Backend Sql SqlRows SqlProps SqlCommit Sqlite SqliteProps.
Open Scope Z_scope.

(** A database in which the log has no row, [n] tables or more created. *)
Record absent (log_id : pystr) (n : nat) (db : Database) : Prop := {
  ab_tables : (n <= created db <= 4)%nat;
  ab_entries : entries_of db log_id = [];
  ab_nodes : nodes_of db log_id = [];
  ab_witnesses : witnesses_of db log_id = [];
  ab_state : state_of db log_id = None
}.

(** What a file may hold before, during and after the provisioning of a log:
    the log, or, while its engine is the empty one, no trace of it. *)
Definition ready (log_id : pystr) (engine : Engine) (n : nat) (db : Database) : Prop :=
  engine = Engine.__init__ /\ absent log_id n db \/ represents log_id db engine.
Definition ready_file (log_id : pystr) (engine : Engine) (file : option Database) : Prop :=
  match file with None => engine = Engine.__init__ | Some db => ready log_id engine 0 db end.

(** Another log's rows, tables created meanwhile apart. *)
Definition others_same (log_id : pystr) (db db' : Database) : Prop :=
  (created db <= created db')%nat /\ forall other, other <> log_id -> same_log other db db'.

#[export] Instance others_same_preorder log_id : PreOrder (others_same log_id).
Proof.
  split; [by split|]. intros a b c [H1 H2] [H3 H4]. split; [lia|].
  intros other Ho. destruct (H2 other Ho), (H4 other Ho). split; congruence.
Qed.

Lemma absent_mono log_id n n' db : (n' <= n)%nat -> absent log_id n db -> absent log_id n' db.
Proof. intros Hle [H1 H2 H3 H4 H5]. split; try done. lia. Qed.

(** ** Statement by statement *)
Lemma run_auto_bind {A B} (p : sql A) (f : A -> sql B) db io :
  exists io', run_auto (sql_bind p f) db io =
  match run_auto p db io with (Ok a, db) => run_auto (f a) db io' | (Raise e, db) => (Raise e, db) end.
Proof.
  revert db io. induction p as [[a|e]|C s k IH]; intros db io; [by exists io|by exists io|]. cbn [sql_bind run_auto].
  destruct (mjoin (head io)); [by exists []|]. destruct (exec s db) as [[b db']|]; [apply IH|by exists []].
Qed.

(** Without failures the rest of the program meets none either. *)
Lemma run_auto_bind_clean {A B} (p : sql A) (f : A -> sql B) db :
  run_auto (sql_bind p f) db [] =
  match run_auto p db [] with (Ok a, db) => run_auto (f a) db [] | (Raise e, db) => (Raise e, db) end.
Proof.
  revert db. induction p as [[a|e]|C s k IH]; intros db; [done..|]. cbn.
  destruct (exec s db) as [[b db']|]; [apply IH|done].
Qed.

Lemma run_auto_execute {B} (s : stmt B) db io :
  run_auto (execute s) db io =
  match mjoin (head io) with
  | Some e => (Raise e, db)
  | None => match exec s db with Ok (b, db) => (Ok b, db) | Raise e => (Raise e, db) end
  end.
Proof. cbn. destruct (mjoin (head io)); [done|]. by destruct (exec s db) as [[b db']|]. Qed.

Lemma init_metadata : exists bs, metadata empty_state = Ok bs /\ reads_as (Blob bs) empty_state.
Proof. apply metadata_reads; [apply empty_state_valid|done]. Qed.

Lemma find_snoc {A} (P : A -> bool) l x :
  List.find P (l ++ [x]) = match List.find P l with Some y => Some y | None => if P x then Some x else None end.
Proof. induction l as [|y l IH]; [done|]. cbn. by destruct (P y). Qed.

Section provision.
Context (log_id : pystr) (engine : Engine).

(** Creating a table keeps a log ready. *)
Lemma create_table n db :
  ready log_id engine n db -> (n < 4)%nat ->
  exists db', exec (CreateTable n) db = Ok ((), db') /\ others_same log_id db db' /\ ready log_id engine (S n) db'.
Proof.
  intros H Hn. unfold exec. rewrite bool_decide_true by (cbn; lia). cbn [effect]. eexists. split; [done|].
  destruct H as [[He [H1 H2 H3 H4 H5]]|H].
  - case_bool_decide as E; (split; [split|left; split; [done|split; cbn; try done; lia]]); cbn; try lia; done.
  - rewrite bool_decide_false by (rewrite (rp_tables _ _ _ H); lia). split; [reflexivity|by right].
Qed.

(** The metadata row makes the tables of an absent log those of an empty engine. *)
Lemma insert_meta db bs :
  reads_as (Blob bs) empty_state -> ready log_id engine 4 db ->
  exists db', exec (InsertMetaOrIgnore log_id (Blob bs)) db = Ok ((), db') /\ others_same log_id db db' /\
    represents log_id db' engine.
Proof.
  intros Hbs H. assert (created db = 4%nat) as Hc.
  { destruct H as [[_ [? _ _ _ _]]|H]; [lia|apply H]. }
  destruct (exec (InsertMetaOrIgnore log_id (Blob bs)) db) as [[[] db']|] eqn:E.
  2: { rewrite exec_effect in E by done. discriminate E. }
  pose proof (exec_scoped log_id (InsertMetaOrIgnore log_id (Blob bs)) _ _ _ eq_refl E) as [Hcr Ho].
  exists db'. split; [done|]. split; [split; [lia|done]|].
  rewrite exec_effect in E by done. cbn [effect] in E. destruct H as [[-> [H1 H2 H3 H4 H5]]|H].
  - rewrite H5 in E. injection E as <-. split; try done.
    + exists []. split; [|done]. unfold rows_read. change (witnesses_of (with_meta _ _) log_id) with (witnesses_of db log_id).
      by rewrite H4.
    + exists (Blob bs). split; [|done]. unfold state_of, with_meta in *. cbn [cll_meta]. rewrite find_snoc.
      destruct (List.find _ _); [done|]. cbn. by rewrite bool_decide_true.
  - destruct (rp_state _ _ _ H) as (raw & Hraw & _). rewrite Hraw in E. by injection E as <-.
Qed.

(** One step of provisioning: a failure, or the rest of it. *)
Lemma step_auto {A} (s : stmt ()) (f : () -> sql A) db db' io :
  exec s db = Ok ((), db') ->
  (exists e, run_auto (sql_bind (execute s) f) db io = (Raise e, db)) \/
  exists io', run_auto (sql_bind (execute s) f) db io = run_auto (f ()) db' io'.
Proof.
  intros He. destruct (run_auto_bind (execute s) f db io) as [io' ->]. rewrite run_auto_execute.
  destruct (mjoin (head io)) as [e|]; [left; by exists e|]. rewrite He. right. by exists io'.
Qed.

(** The tables from the [n]th on, whatever follows. *)
Definition progress (db : Database) (n : nat) (db' : Database) : Prop :=
  ready log_id engine n db' /\ others_same log_id db db'.

Lemma progress_create db n db' : progress db n db' -> (n < 4)%nat ->
  exists db'', exec (CreateTable n) db' = Ok ((), db'') /\ progress db (S n) db''.
Proof.
  intros [H Ho] Hlt. destruct (create_table n db' H Hlt) as (db'' & ? & ? & ?). exists db''. split; [done|].
  split; [done|by etransitivity].
Qed.

Lemma progress_weaken db n db' : progress db n db' -> progress db 0 db'.
Proof. intros [[[He H]|H] Ho]; (split; [|done]); [left; split; [done|eapply absent_mono; [|done]; lia]|by right]. Qed.

(** A run that ends where the log is ready, or has made its tables. *)
Definition provisions (db : Database) (x : result () * Database) : Prop :=
  match x.1 with Ok _ => represents log_id x.2 engine /\ others_same log_id db x.2 | Raise _ => progress db 0 x.2 end.

Lemma provisions_step {A} (s : stmt ()) (f : () -> sql A) db n n' db' io (P : result A * Database -> Prop) :
  progress db n db' -> (exists db'', exec s db' = Ok ((), db'') /\ progress db n' db'') ->
  (forall x e, progress db 0 x -> P (Raise e, x)) -> (forall x io, progress db n' x -> P (run_auto (f ()) x io)) ->
  P (run_auto (sql_bind (execute s) f) db' io).
Proof.
  intros Hp (db'' & He & Hp') Hr Hf. destruct (step_auto s f db' db'' io He) as [[e ->]|[io' ->]]; [|by apply Hf].
  apply Hr. by eapply progress_weaken.
Qed.

Lemma provision_spec db io : ready log_id engine 0 db -> provisions db (run_auto (Sqlite.provision log_id) db io).
Proof.
  intros Hn. destruct init_metadata as (bs & Hbs & Hreads). unfold Sqlite.provision.
  assert (progress db 0 db) as H0 by done.
  eapply (provisions_step _ _ db 0 0); [done|by exists db|done|]. clear io H0. intros db0 io H0.
  eapply (provisions_step _ _ db 0 1); [done|by apply progress_create; [|lia]|done|]. clear io. intros db1 io H1.
  eapply (provisions_step _ _ db 1 2); [done|by apply progress_create; [|lia]|done|]. clear io. intros db2 io H2.
  eapply (provisions_step _ _ db 2 3); [done|by apply progress_create; [|lia]|done|]. clear io. intros db3 io H3.
  eapply (provisions_step _ _ db 3 4); [done|by apply progress_create; [|lia]|done|]. clear io. intros db4 io H4.
  rewrite Hbs. cbn [lift sql_bind]. rewrite run_auto_execute.
  destruct (mjoin (head io)); [by eapply progress_weaken|]. destruct H4 as [H4 Ho].
  destruct (insert_meta db4 bs Hreads H4) as (db5 & -> & Ho' & Hr). split; [done|by etransitivity].
Qed.

Lemma clean_step {A} (s : stmt ()) (f : () -> sql A) db n' db' (P : result A * Database -> Prop) :
  (exists db'', exec s db' = Ok ((), db'') /\ progress db n' db'') ->
  (forall x, progress db n' x -> P (run_auto (f ()) x [])) -> P (run_auto (sql_bind (execute s) f) db' []).
Proof. intros (db'' & He & Hp) Hf. rewrite run_auto_bind_clean, run_auto_execute. cbn [head mjoin option_join]. rewrite He. by apply Hf. Qed.

Lemma provision_clean db : ready log_id engine 0 db -> (run_auto (Sqlite.provision log_id) db []).1 = Ok ().
Proof.
  intros Hn. destruct init_metadata as (bs & Hbs & Hreads). unfold Sqlite.provision.
  assert (progress db 0 db) as H0 by done. pattern (run_auto (let* _ := execute Pragma in (let* _ := execute (CreateTable 0) in
    let* _ := execute (CreateTable 1) in let* _ := execute (CreateTable 2) in let* _ := execute (CreateTable 3) in
    let* state := lift (metadata empty_state) in execute (InsertMetaOrIgnore log_id (Blob state)))) db []).
  eapply (clean_step _ _ db 0); [by exists db|]. clear H0. intros db0 H0.
  eapply (clean_step _ _ db 1); [by apply progress_create; [|lia]|]. intros db1 H1.
  eapply (clean_step _ _ db 2); [by apply progress_create; [|lia]|]. intros db2 H2.
  eapply (clean_step _ _ db 3); [by apply progress_create; [|lia]|]. intros db3 H3.
  eapply (clean_step _ _ db 4); [by apply progress_create; [|lia]|]. intros db4 [H4 _].
  rewrite Hbs. cbn [lift sql_bind]. rewrite run_auto_execute. cbn [head mjoin option_join].
  by destruct (insert_meta db4 bs Hreads H4) as (db5 & -> & _).
Qed.
End provision.

(** ** Validation *)
Lemma check_widths_entries log_id entries n :
  (forall i e, entries !! i = Some e -> e_seq e = n + Z.of_nat i /\ zlen (e_value e) = ENTRY_BYTES /\ is_instant (e_appended_at e)) ->
  n + zlen entries - 1 <= MAX_PORTABLE_INTEGER ->
  check_widths n (map (fun r => (er_seq r, sql_length (er_value r), er_appended_at r)) (map (entry_row log_id) entries)) = Ok ().
Proof.
  revert n. induction entries as [|e entries IH]; intros n He Hm; [done|].
  destruct (He O e eq_refl) as (H1 & H2 & H3). rewrite zlen_cons in Hm. pose proof (zlen_nonneg entries).
  cbn [map check_widths entry_row er_seq er_value er_appended_at sql_length py_cell as_str].
  replace (e_seq e) with n by lia. rewrite Z.eqb_refl, H2, Z.eqb_refl. rw_bool (MAX_PORTABLE_INTEGER <? n) false.
  cbn [negb orb]. rewrite parse_iso by done. apply IH; [|lia]. intros i x Hx.
  destruct (He (S i) x Hx) as (? & ? & ?). split_and!; [lia|done|done].
Qed.

Lemma run_validate log_id db engine :
  represents log_id db engine -> wf engine -> run (Sqlite.validate log_id) db = Ok ((), db).
Proof.
  intros Hrep Hwf. unfold Sqlite.validate. rewrite run_bind. unfold Sql.validate_entries at 1.
  rewrite run_bind, run_execute, exec_effect by apply Hrep. cbn [effect]. rewrite (rp_entries _ _ _ Hrep), run_lift.
  rewrite check_widths_entries.
  - destruct (read_rows _ _ _ Hrep Hwf) as (ws & Hr & Hp & _). by rewrite run_bind, (run_load_state _ _ _ Hrep Hwf false ws).
  - intros i e He. destruct (wf_entries _ Hwf i e He) as [H1 H2 H3]. split_and!; [lia|done|done].
  - pose proof (rp_count _ _ _ Hrep). lia.
Qed.

(** A log without metadata does not validate. *)
Lemma absent_validate log_id n db io :
  absent log_id n db -> exists e, run_sql (Sqlite.validate log_id) db io = Raise e.
Proof.
  intros [H1 H2 H3 H4 H5]. destruct (run_faults (Sqlite.validate log_id) db io) as [->|(e & _ & ->)]; [|by exists e].
  unfold Sqlite.validate. rewrite run_bind. unfold Sql.validate_entries. rewrite run_bind, run_execute. unfold exec.
  destruct (bool_decide _) eqn:E; [|by eexists]. cbn [effect]. rewrite H2, run_lift. cbn [map check_widths].
  rewrite run_bind. unfold Sql.load_state. rewrite run_bind, run_execute. unfold exec.
  rewrite bool_decide_true by (zbool; cbn in *; lia). cbn [effect]. rewrite H5. by eexists.
Qed.

Definition new_handle (log_id : pystr) : SqliteStore := {| _log_id := log_id; in_transaction := false; sq_closed := false |}.

(** The validating transaction reads only. *)
Lemma validating log_id engine db io :
  ready log_id engine 0 db -> wf engine ->
  match _transaction (new_handle log_id) db (Sqlite.validate log_id) io with
  | (self, db', Ok _) => self = new_handle log_id /\ db' = db /\ represents log_id db engine
  | (self, db', Raise _) => db' = db
  end.
Proof.
  intros H Hwf. pose proof (transaction_cases (new_handle log_id) db (Sqlite.validate log_id) io) as Hc.
  destruct (_transaction _ _ _ _) as [[self db'] [[]|e]]; [|by destruct Hc]. destruct Hc as [-> Hr].
  destruct H as [[_ Ha]|Hrep].
  - destruct (absent_validate log_id 0 db [] Ha) as [e He]. unfold run in Hr. congruence.
  - rewrite (run_validate _ _ engine) in Hr by done. by injection Hr as <-.
Qed.

Lemma pragmas_db db io : exists r, run_auto (let* _ := execute Pragma in execute Pragma) db io = (r, db).
Proof.
  cbn. destruct (mjoin (head io)); [by eexists|]. unfold exec. rewrite bool_decide_true by (cbn; lia). cbn.
  destruct (mjoin (head (tail io))); by eexists.
Qed.

Lemma pragmas_clean db : run_auto (let* _ := execute Pragma in execute Pragma) db [] = (Ok (), db).
Proof. done. Qed.

Lemma guard_open (path log_id : pystr) {A} (a b : A) :
  path <> [] -> is_identifier log_id = true -> (if bool_decide (path = []) || negb (is_identifier log_id) then a else b) = b.
Proof. intros Hp Hi. by rewrite bool_decide_false, Hi by done. Qed.

(** [init] on a database where the log is ready. *)
Lemma init_spec db0 file path log_id engine io :
  path <> [] -> is_identifier log_id = true -> wf engine -> default Sqlite.empty_database file = db0 -> ready log_id engine 0 db0 ->
  match Sqlite.init file path log_id io with
  | (file', Ok _) => exists db', file' = Some db' /\ represents log_id db' engine /\ others_same log_id db0 db'
  | (file', Raise _) => file' = file \/ exists db', file' = Some db' /\ progress log_id engine db0 0 db'
  end.
Proof.
  intros Hp Hi Hwf Hdb Hr. unfold Sqlite.init, Sqlite._open. rewrite guard_open by done. rewrite Hdb.
  destruct (Sqlite.io_connect io); [by left|]. destruct (pragmas_db db0 (Sqlite.io_pragmas io)) as [r ->].
  assert (progress log_id engine db0 0 db0) as H0 by done.
  destruct r as [|e]; [|right; by exists db0]. cbn [fst].
  pose proof (provision_spec log_id engine db0 (Sqlite.io_provision io) Hr) as Hs. unfold provisions in Hs.
  destruct (run_auto (Sqlite.provision log_id) db0 (Sqlite.io_provision io)) as [[|e] db1]; [|right; by exists db1].
  destruct Hs as [Hrep Ho]. cbn [snd] in *.
  pose proof (validating log_id engine db1 (Sqlite.io_validate io) (or_intror Hrep) Hwf) as Hv. unfold new_handle in Hv.
  destruct (_transaction _ _ _ _) as [[self db2] [|e]].
  - destruct Hv as (_ & -> & _). by exists db1.
  - subst db2. right. exists db1. split; [done|]. split; [by right|done].
Qed.

Lemma init_clean db0 file path log_id engine :
  path <> [] -> is_identifier log_id = true -> wf engine -> default Sqlite.empty_database file = db0 -> ready log_id engine 0 db0 ->
  (Sqlite.init file path log_id Sqlite.no_open_faults).2 = Ok ().
Proof.
  intros Hp Hi Hwf Hdb Hr. unfold Sqlite.init, Sqlite._open. rewrite guard_open by done. rewrite Hdb. cbn [Sqlite.io_connect Sqlite.no_open_faults Sqlite.io_pragmas Sqlite.io_provision Sqlite.io_validate].
  rewrite pragmas_clean. cbn [fst]. pose proof (provision_clean log_id engine db0 Hr) as Hc.
  pose proof (provision_spec log_id engine db0 [] Hr) as Hs. unfold provisions in Hs.
  destruct (run_auto (Sqlite.provision log_id) db0 []) as [[[]|e] db1]; [|done]. destruct Hs as [Hrep _]. cbn [snd] in Hrep.
  rewrite transaction_clean by done. by rewrite (run_validate _ _ engine).
Qed.

(** [C19] Provisioning and opening. Whatever fails while [init] runs on a file
    that has no trace of a log, or on one that holds it, the file afterwards
    holds the log as before or is ready for the next [init], and a success
    leaves the tables of the log: of an empty one, or of the existing one,
    whose data is preserved. Without failures it succeeds. The rows of other
    logs stay. [open] never changes the file; it succeeds on a file that holds
    the log, short of a failure, and refuses a file that does not. *)
Theorem sqlite_init_open (file : option Database) (path log_id : pystr) (engine : Engine) (io : Sqlite.OpenFaults) :
  path <> [] -> is_identifier log_id = true -> wf engine -> ready_file log_id engine file ->
  let '(file', r) := Sqlite.init file path log_id io in
  match r with
  | Ok _ => exists db', file' = Some db' /\ represents log_id db' engine
  | Raise _ => ready_file log_id engine file'
  end /\
  match file, file' with
  | Some db, Some db' => others_same log_id db db'
  | Some _, None => False
  | None, _ => True
  end /\
  (Sqlite.init file path log_id Sqlite.no_open_faults).2 = Ok () /\
  (Sqlite.open file path log_id io).1 = file /\
  match file with
  | Some db => represents log_id db engine -> Sqlite.open file path log_id Sqlite.no_open_faults = (file, Ok (new_handle log_id))
  | None => exists e, Sqlite.open file path log_id io = (file, Raise e)
  end /\
  (forall db n, file = Some db -> absent log_id n db -> exists e, Sqlite.open file path log_id io = (file, Raise e)).
Proof.
  intros Hp Hi Hwf Hf.
  assert (ready log_id engine 0 (default Sqlite.empty_database file)) as Hr.
  { destruct file as [db|]; [exact Hf|]. left. split; [exact Hf|]. split; cbn; (lia || done). }
  pose proof (init_spec _ file path log_id engine io Hp Hi Hwf eq_refl Hr) as Hs.
  pose proof (init_clean _ file path log_id engine Hp Hi Hwf eq_refl Hr) as Hc.
  assert (forall db, file = Some db -> ready log_id engine 0 db) as Hdb by (by intros db ->).
  destruct (Sqlite.init file path log_id io) as [file' r] eqn:E. split; [|split; [|split; [exact Hc|]]].
  - destruct r as [|e]; [destruct Hs as (db' & -> & ? & _); by exists db'|].
    destruct Hs as [->|(db' & -> & ? & _)]; done.
  - destruct file as [db|]; [|done]. cbn [default] in Hs.
    destruct r; [destruct Hs as (? & -> & _ & ?)|destruct Hs as [->|(? & -> & _ & ?)]]; done.
  - clear Hs Hc E r file'. unfold Sqlite.open, Sqlite._open. rewrite !guard_open by done.
    destruct file as [db|]; cbn [default] in *.
    + split_and!.
      * destruct (Sqlite.io_connect io); [done|]. destruct (run_auto _ db (Sqlite.io_pragmas io)).1; [|done].
        pose proof (validating log_id engine db (Sqlite.io_validate io) Hr Hwf) as Hv. unfold new_handle in Hv.
        destruct (_transaction _ _ _ _) as [[self db2] [|e]]; [by destruct Hv as (_ & -> & _)|by subst].
      * intros Hrep. cbn [Sqlite.io_connect Sqlite.no_open_faults Sqlite.io_pragmas Sqlite.io_provision Sqlite.io_validate]. rewrite pragmas_clean. cbn [fst].
        rewrite transaction_clean by done. by rewrite (run_validate _ _ engine).
      * intros db' n [= <-] Ha. destruct (Sqlite.io_connect io) as [e|]; [by exists e|].
        destruct (run_auto _ db (Sqlite.io_pragmas io)).1 as [|e]; [|by exists e].
        pose proof (transaction_cases (new_handle log_id) db (Sqlite.validate log_id) (Sqlite.io_validate io)) as Hv. unfold new_handle in Hv.
        destruct (_transaction _ _ _ _) as [[self db2] [|e]]; [|destruct Hv as (-> & _); by exists e].
        destruct Hv as [_ Hv]. destruct (absent_validate log_id n db [] Ha) as [e He]. unfold run in Hv. congruence.
    + split_and!; [by destruct (Sqlite.io_connect io)|by destruct (Sqlite.io_connect io); eexists|done].
Qed.

(** ** A concrete database

    A file provisioned for one log, two handles on it and a few calls, one of
    which meets a busy database, used to apply the theorems. *)
Definition log0 : pystr := str "log-a".
Definition db0 : Database := default Sqlite.empty_database (Sqlite.init None (str "cll.db") log0 Sqlite.no_open_faults).1.

Lemma init0 : Sqlite.init None (str "cll.db") log0 Sqlite.no_open_faults = (Some db0, Ok ()).
Proof. vm_compute. reflexivity. Qed.

Lemma absent0 : ready_file log0 Engine.__init__ None.
Proof. reflexivity. Qed.

Lemma represents0 : represents log0 db0 Engine.__init__.
Proof.
  assert (ready log0 Engine.__init__ 0 Sqlite.empty_database) as Hr by (left; split; [done|]; split; cbn; (lia || done)).
  pose proof (init_spec _ None (str "cll.db") log0 Engine.__init__ Sqlite.no_open_faults ltac:(discriminate) eq_refl wf_init eq_refl Hr) as H.
  rewrite init0 in H. by destruct H as (db' & [= <-] & ? & _).
Qed.

Definition handles0 : list SqliteStore := [new_handle log0; new_handle log0].
Definition busy_commit : SqliteFaults := {| io_begin := None; io_statements := []; io_end := Some (SqliteBusy, false) |}.
Definition calls0 : list (nat * mutation * SqliteFaults) :=
  [(0%nat, MAppend input0, no_faults); (1%nat, MCommit (PInt 0) PNone (Inst (state_arg state1)), no_faults);
   (0%nat, MWitness (PInt 0) (Inst (witness_arg row1)), busy_commit);
   (1%nat, MWitness (PInt 0) (Inst (witness_arg row1)), no_faults)].

Lemma sqlite_linearizable_witness :
  length (log_acknowledged log0 handles0 db0 calls0) = 3%nat /\
  exists engine', accepts Engine.__init__ (log_acknowledged log0 handles0 db0 calls0) engine' /\
    represents log0 (handle_calls handles0 db0 calls0).1.2 engine' /\ wf engine' /\ extends Engine.__init__ engine'.
Proof.
  split; [vm_compute; reflexivity|].
  exact (sqlite_linearizable log0 handles0 db0 Engine.__init__ calls0 represents0 wf_init eq_refl ltac:(repeat constructor)).
Defined.

Lemma sqlite_exact_witness :
  exists db', sqlite_mutate (new_handle log0) db0 (MAppend input0) no_faults =
    (new_handle log0, db', Ok (Some {| ar_entry := entry0; ar_outcome := INSERTED |})) /\
    represents log0 db' engine1.
Proof.
  destruct (sqlite_exact (new_handle log0) db0 Engine.__init__ (MAppend input0) PNone PNone PNone PNone PNone PNone
    represents0 wf_init eq_refl I eq_refl eq_refl) as [H _].
  cbn [run_engine] in H. rewrite append0 in H. destruct H as (db' & H1 & H2 & _). exists db'. split; [exact H1|exact H2].
Defined.

Lemma sqlite_init_open_witness :
  exists db', Sqlite.init None (str "cll.db") log0 Sqlite.no_open_faults = (Some db', Ok ()) /\
    represents log0 db' Engine.__init__.
Proof.
  pose proof (sqlite_init_open None (str "cll.db") log0 Engine.__init__ Sqlite.no_open_faults ltac:(discriminate) eq_refl wf_init absent0) as H.
  rewrite init0 in H. destruct H as [(db' & E & Hr) _]. injection E as <-. exists db0. split; [exact init0|exact Hr].
Defined.
