(* ===== verification/Mysql.v ===== *)
(** * The MySQL backend

    [src/python/log/mysql.py]: the relational operations on a server that
    several connections use at once. A method is a client program: the
    requests it sends on its connection, and what it does with each answer.
    The server is a relation between a request and its possible answers; it
    follows InnoDB's documentation. The tables are declared without a
    collation, so how the server compares and orders texts is a parameter, the
    class [Collation]; only the theorems ask for a binary one. The value
    columns are [BINARY] and [LONGBLOB], of which [OCTET_LENGTH] is the number
    of bytes. *)
From S2P Require Import Prelude Bytes Text Py Cll Json PyJson Wire Engine Backend Sql Sqlite.
From stdpp Require Import sorting.
Open Scope Z_scope.

(** ** Client programs *)
Inductive beginning := StartTransaction | ConsistentSnapshotReadOnly.

Inductive request : Type -> Type :=
| Ping : request ()
| Connect : request ()
| CloseConnection : request ()
| Begin (b : beginning) : request ()
| Query {B : Type} (s : stmt B) : request B
| Commit : request ()
| Rollback : request ().

Inductive client (A : Type) : Type :=
| Return (r : result A)
| Ask {B : Type} (q : request B) (k : result B -> client A).
Arguments Return {A} r.
Arguments Ask {A B} q k.

Fixpoint client_bind {A B} (p : client A) (f : result A -> client B) : client B :=
  match p with
  | Return r => f r
  | Ask q k => Ask q (fun a => client_bind (k a) f)
  end.

(** Duplicate key, lock wait timeout, deadlock. *)
Definition _CONTENTION : list Z := [1062; 1205; 1213].

(** [_classified] *)
Definition mysql_classified (e : exn) : exn :=
  match e with
  | MySQLError n => if bool_decide (n ∈ _CONTENTION) then ContentionError else e
  | e => e
  end.

Definition classify {A} (r : result A) : result A :=
  match r with Ok a => Ok a | Raise e => Raise (mysql_classified e) end.

(** A handle on a log. *)
Record MysqlStore := { my_log_id : pystr; my_closed : bool }.

Section client.
Context {A : Type}.

(** The connection is replaced when the server dropped it. *)
Definition reconnect (k : client A) : client A :=
  Ask Connect (fun a => match a with Ok _ => k | Raise e => Return (Raise (mysql_classified e)) end).

Definition drop_connection (k : client A) : client A := Ask CloseConnection (fun _ => reconnect k).

Definition _ensure_connected (k : client A) : client A :=
  Ask Ping (fun a => match a with Ok _ => k | Raise _ => drop_connection k end).

(** The statements of an operation, one after the other. *)
Fixpoint body (p : sql A) (k : result A -> client A) : client A :=
  match p with
  | Done r => k r
  | Execute s f => Ask (Query s) (fun a => match a with Ok b => body (f b) k | Raise e => k (Raise e) end)
  end.

(** A failed rollback is discarded. *)
Definition _rollback (e : exn) : client A := Ask Rollback (fun _ => Return (Raise (mysql_classified e))).

Definition commit_with (a : A) : client A :=
  Ask Commit (fun c => match c with Ok _ => Return (Ok a) | Raise e => Return (Raise (mysql_classified e)) end).

Definition finish (r : result A) : client A :=
  match r with Ok a => commit_with a | Raise e => _rollback e end.

Definition begin_with (b : beginning) (p : sql A) : client A :=
  Ask (Begin b) (fun a => match a with Ok _ => body p finish | Raise e => Return (Raise (mysql_classified e)) end).

(** [None] runs autocommit reads. *)
Definition _transaction (self : MysqlStore) (begin : option beginning) (p : sql A) : client A :=
  if my_closed self then Return (Raise ClosedError)
  else
    _ensure_connected
      match begin with
      | None => body p (fun r => Return (classify r))
      | Some b => begin_with b p
      end.
End client.

Module Mysql.
Section operations.
Variable self : MysqlStore.

Definition append (input : arg Arg.AppendInput) : client AppendResult :=
  _transaction self (Some StartTransaction) (Sql.append (my_log_id self) input true).
Definition get_entry (value : pyval) : client Entry := _transaction self None (Sql.get_entry (my_log_id self) value).
Definition entry_count : client Z := _transaction self None (Sql.entry_count (my_log_id self)).
Definition scan_entries (after_seq limit : pyval) : client (list Entry) :=
  _transaction self None (Sql.scan_entries (my_log_id self) after_seq limit).
Definition load_cll : client CllState :=
  _transaction self (Some ConsistentSnapshotReadOnly) (Sql.load_state (my_log_id self) false).
Definition commit_cll (expected_size expected_checkpoint : pyval) (next : arg Arg.CllState) : client () :=
  _transaction self (Some StartTransaction) (Sql.commit_cll (my_log_id self) expected_size expected_checkpoint next true).
Definition pending_witnesses (now limit : pyval) : client (list WitnessState) :=
  _transaction self None (Sql.pending_witnesses (my_log_id self) now limit).
Definition pending_witnesses_for (witness_id now limit : pyval) : client (list WitnessState) :=
  _transaction self None (Sql.pending_witnesses_for (my_log_id self) witness_id now limit).
Definition get_witness (witness_id checkpoint_size : pyval) : client (option WitnessState) :=
  _transaction self None (Sql.get_witness (my_log_id self) witness_id checkpoint_size).
Definition commit_witness (expected_attempts : pyval) (next : arg Arg.WitnessState) : client () :=
  _transaction self (Some StartTransaction) (Sql.commit_witness (my_log_id self) expected_attempts next).

(** Closing again sends nothing; a failure to close is discarded. *)
Definition close : client MysqlStore :=
  if my_closed self then Return (Ok self)
  else Ask CloseConnection (fun _ => Return (Ok {| my_log_id := my_log_id self; my_closed := true |})).
End operations.

(** ** Opening *)
Definition SCHEMA_STATEMENTS : list (stmt ()) := [CreateTable 0; CreateTable 1; CreateTable 2; CreateTable 3].

Definition provision (log_id : pystr) : sql () :=
  fold_right (fun s p => let* _ := execute s in p)
    (let* state := lift (metadata empty_state) in execute (InsertMetaOrIgnore log_id (Blob state))) SCHEMA_STATEMENTS.

(** Closes the connection and goes on raising, unless closing raises. *)
Definition abandon {A} (e : exn) : client A :=
  Ask CloseConnection (fun a => match a with Ok _ => Return (Raise e) | Raise e' => Return (Raise e') end).

Definition validated (store : MysqlStore) : client MysqlStore :=
  client_bind (_transaction store (Some ConsistentSnapshotReadOnly) (Sqlite.validate (my_log_id store)))
    (fun r => match r with Ok _ => Return (Ok store) | Raise e => abandon e end).

(** [_open], once the URL has been parsed to connection arguments. *)
Definition _open (arguments : result ()) (log_id : pystr) (initialize : bool) : client MysqlStore :=
  if negb (is_identifier log_id) then Return (Raise InvalidError)
  else
    match arguments with
    | Raise e => Return (Raise e)
    | Ok _ =>
        let store := {| my_log_id := log_id; my_closed := false |} in
        Ask Connect (fun a => match a with
          | Raise e => Return (Raise e)
          | Ok _ =>
              if initialize then
                client_bind (body (provision log_id) Return)
                  (fun r => match r with Ok _ => validated store | Raise e => abandon (mysql_classified e) end)
              else validated store
          end)
    end.

Definition init (arguments : result ()) (log_id : pystr) : client () :=
  client_bind (_open arguments log_id true)
    (fun r => match r with
              | Ok store => client_bind (close store) (fun _ => Return (Ok ()))
              | Raise e => Return (Raise e)
              end).

Definition open (arguments : result ()) (log_id : pystr) : client MysqlStore := _open arguments log_id false.
End Mysql.

(** The mutations behind one function. *)
Definition client_map {A B} (f : A -> B) (p : client A) : client B :=
  client_bind p (fun r => Return (let! a := r in Ok (f a))).
Definition mysql_mutate (self : MysqlStore) (m : mutation) : client (option AppendResult) :=
  match m with
  | MAppend input => client_map Some (Mysql.append self input)
  | MCommit size checkpoint next => client_map (fun _ => None) (Mysql.commit_cll self size checkpoint next)
  | MWitness attempts next => client_map (fun _ => None) (Mysql.commit_witness self attempts next)
  end.

(** ** Collations

    How the server compares the texts of the [VARCHAR] columns, in [WHERE]
    clauses, keys and locks, and how it orders them. The statements of
    [SCHEMA_STATEMENTS] name no collation: it is the one the database was
    created with. *)
Class Collation := { same_text : pystr -> pystr -> bool; text_leb : pystr -> pystr -> bool }.

(** One that tells all texts apart and orders them by their code points. *)
Class BinaryCollation (CO : Collation) : Prop := {
  same_text_eq : forall a b, same_text a b = bool_decide (a = b);
  text_leb_eq : forall a b, text_leb a b = str_leb a b
}.

(** That of [utf8mb4_0900_bin], and that of a server that takes no notice of the case
    of ASCII letters. *)
Definition utf8mb4_0900_bin : Collation := {| same_text := fun a b => bool_decide (a = b); text_leb := str_leb |}.
Definition fold_case (s : pystr) : pystr := map (fun c => if (65 <=? c) && (c <=? 90) then c + 32 else c) s.
Definition ascii_case_ignored : Collation := {|
  same_text := fun a b => bool_decide (fold_case a = fold_case b);
  text_leb := fun a b => str_leb (fold_case a) (fold_case b)
|}.

Lemma utf8mb4_0900_bin_binary : BinaryCollation utf8mb4_0900_bin.
Proof. by split. Qed.

Module Collated.
Section statements.
Context {CO : Collation}.

Definition witness_le (a b : WitnessRow) : Prop :=
  Is_true (if same_text (tr_checkpoint_size a) (tr_checkpoint_size b) then text_leb (tr_witness_id a) (tr_witness_id b)
           else text_leb (tr_checkpoint_size a) (tr_checkpoint_size b)).
#[export] Instance collated_witness_le_dec a b : Decision (witness_le a b).
Proof. unfold witness_le. apply _. Defined.

Definition entries_of (db : Database) (id : pystr) : list EntryRow :=
  merge_sort entry_le (filter (fun r => same_text (er_log_id r) id = true) (cll_entries db)).
Definition nodes_of (db : Database) (id : pystr) : list NodeRow :=
  merge_sort node_le (filter (fun r => same_text (nr_log_id r) id = true) (cll_nodes db)).
Definition witnesses_of (db : Database) (id : pystr) : list WitnessRow :=
  merge_sort witness_le (filter (fun r => same_text (tr_log_id r) id = true) (cll_witnesses db)).
Definition state_of (db : Database) (id : pystr) : option cell :=
  snd <$> List.find (fun r => same_text r.1 id) (cll_meta db).

Definition same_entry_key (a b : EntryRow) : bool :=
  same_text (er_log_id a) (er_log_id b) && ((er_seq a =? er_seq b) || bool_decide (er_value a = er_value b)).
Definition same_node_key (a b : NodeRow) : bool :=
  same_text (nr_log_id a) (nr_log_id b) && (nr_position a =? nr_position b).
Definition same_witness_key (a b : WitnessRow) : bool :=
  same_text (tr_log_id a) (tr_log_id b) && same_text (tr_witness_id a) (tr_witness_id b)
  && same_text (tr_checkpoint_size a) (tr_checkpoint_size b).

(** [SET attempts=?,witness=?]: the keys of the row stay. *)
Definition set_witness (row r : WitnessRow) : WitnessRow :=
  {| tr_log_id := tr_log_id r; tr_witness_id := tr_witness_id r; tr_checkpoint_size := tr_checkpoint_size r;
     tr_attempts := tr_attempts row; tr_witness := tr_witness row |}.

(** [effect], with texts compared by the collation. *)
Definition effect {B} (s : stmt B) (db : Database) : result (B * Database) :=
  match s in stmt B return result (B * Database) with
  | SelectState id _ => Ok (state_of db id, db)
  | SelectWidths id =>
      Ok (map (fun r => (er_seq r, sql_length (er_value r), er_appended_at r)) (entries_of db id), db)
  | SelectNodes id => Ok (map (fun r => (nr_position r, nr_node r)) (nodes_of db id), db)
  | SelectWitnesses id None => Ok (map witness_columns (witnesses_of db id), db)
  | SelectWitnesses id (Some witness_id) =>
      Ok (map witness_columns (filter (fun r => same_text (tr_witness_id r) witness_id = true) (witnesses_of db id)), db)
  | SelectWitness id witness_id size =>
      Ok (witness_columns <$>
          List.find (fun r => same_text (tr_witness_id r) witness_id && same_text (tr_checkpoint_size r) size)
            (witnesses_of db id), db)
  | SelectEntry id value =>
      Ok (entry_columns <$> List.find (fun r => bool_decide (er_value r = Blob value)) (entries_of db id), db)
  | SelectEntries id after_seq limit =>
      Ok (take (Z.to_nat limit) (map entry_columns (filter (fun r => after_seq < er_seq r) (entries_of db id))), db)
  | SelectMaxSeq id => Ok (max_seq (entries_of db id), db)
  | InsertEntry row =>
      if existsb (same_entry_key row) (cll_entries db) then Raise IntegrityError
      else Ok ((), with_entries db (cll_entries db ++ [row]))
  | InsertNode row =>
      if existsb (same_node_key row) (cll_nodes db) then Raise IntegrityError
      else Ok ((), with_nodes db (cll_nodes db ++ [row]))
  | InsertWitness row =>
      if existsb (same_witness_key row) (cll_witnesses db) then Raise IntegrityError
      else Ok ((), with_witnesses db (cll_witnesses db ++ [row]))
  | InsertMetaOrIgnore id state =>
      Ok ((), match state_of db id with Some _ => db | None => with_meta db (cll_meta db ++ [(id, state)]) end)
  | UpdateState id state =>
      Ok ((), with_meta db (update_where (fun r => same_text r.1 id) (fun r => (r.1, state)) (cll_meta db)))
  | UpdateWitness row attempts =>
      let matches r := same_witness_key row r && (tr_attempts r =? attempts) in
      Ok (count_where matches (cll_witnesses db),
          with_witnesses db (update_where matches (set_witness row) (cll_witnesses db)))
  | CreateTable n => Ok ((), if bool_decide (n = created db) then with_tables db (S n) else db)
  | Pragma => Ok ((), db)
  end.

Definition exec {B} (s : stmt B) (db : Database) : result (B * Database) :=
  if bool_decide (needs s <= created db)%nat then effect s db else Raise SqliteError.
End statements.

(** With a binary collation the statements are those of [Sql]. *)
Section binary.
Context {CO : Collation} {BC : BinaryCollation CO}.

Lemma filter_same {A} (f : A -> pystr) id (l : list A) : filter (fun r => same_text (f r) id = true) l = filter (fun r => f r = id) l.
Proof.
  apply list_filter_iff. intros r. rewrite same_text_eq. split; [intros H; by zbool|intros ->; by apply bool_decide_eq_true].
Qed.

Lemma find_ext {A} (p q : A -> bool) l : (forall x, p x = q x) -> List.find p l = List.find q l.
Proof. intros H. induction l as [|x l IH]; [done|]. cbn. by rewrite H, IH. Qed.

Lemma existsb_ext {A} (p q : A -> bool) l : (forall x, p x = q x) -> existsb p l = existsb q l.
Proof. intros H. induction l as [|x l IH]; [done|]. cbn. by rewrite H, IH. Qed.

Lemma update_where_ext {A} (p q : A -> bool) f g l :
  (forall x, p x = q x) -> (forall x, q x = true -> f x = g x) -> update_where p f l = update_where q g l.
Proof. intros H Hf. apply map_ext. intros x. rewrite H. destruct (q x) eqn:E; [by apply Hf|done]. Qed.

Lemma merge_sort_ext {A} (R S : relation A) {HR : forall x y, Decision (R x y)} {HS : forall x y, Decision (S x y)} l :
  (forall x y, R x y <-> S x y) -> merge_sort R l = merge_sort S l.
Proof.
  intros H. assert (forall l1 l2, list_merge R l1 l2 = list_merge S l1 l2) as Hm.
  { intros l1. induction l1 as [|x l1 IH1]; intros l2; [by destruct l2|]. induction l2 as [|y l2 IH2]; [done|].
    cbn [list_merge]. destruct (decide (R x y)) as [Hr|Hr], (decide (S x y)) as [Hs|Hs]; [| | |].
    - by rewrite IH1.
    - by destruct Hs; apply H.
    - by destruct Hr; apply H.
    - f_equal. exact IH2. }
  assert (forall st k, merge_list_to_stack R st k = merge_list_to_stack S st k) as Hst
    by (intros st; induction st as [|[k'|] st IH]; intros k; cbn; [done|by rewrite Hm, IH|done]).
  assert (forall st, merge_stack R st = merge_stack S st) as Hk
    by (intros st; induction st as [|[k'|] st IH]; cbn; [done|by rewrite Hm, IH|done]).
  unfold merge_sort. generalize (@nil (option (list A))). induction l as [|x l IH]; intros st; cbn; [by rewrite Hk|].
  by rewrite Hst, IH.
Qed.

Lemma entries_of_eq db id : entries_of db id = Sql.entries_of db id.
Proof. unfold entries_of. by rewrite filter_same. Qed.
Lemma nodes_of_eq db id : nodes_of db id = Sql.nodes_of db id.
Proof. unfold nodes_of. by rewrite filter_same. Qed.
Lemma witnesses_of_eq db id : witnesses_of db id = Sql.witnesses_of db id.
Proof.
  unfold witnesses_of. rewrite filter_same. apply merge_sort_ext. intros a b. unfold witness_le, Sql.witness_le, witness_leb.
  by rewrite same_text_eq, !text_leb_eq.
Qed.
Lemma state_of_eq db id : state_of db id = Sql.state_of db id.
Proof. unfold state_of, Sql.state_of. f_equal. apply find_ext. intros r. apply same_text_eq. Qed.

Lemma same_entry_key_eq a b : same_entry_key a b = Sql.same_entry_key a b.
Proof. unfold same_entry_key. by rewrite same_text_eq. Qed.
Lemma same_node_key_eq a b : same_node_key a b = Sql.same_node_key a b.
Proof. unfold same_node_key. by rewrite same_text_eq. Qed.
Lemma same_witness_key_eq a b : same_witness_key a b = Sql.same_witness_key a b.
Proof. unfold same_witness_key. by rewrite !same_text_eq. Qed.

Lemma set_witness_row row r : Sql.same_witness_key row r = true -> set_witness row r = row.
Proof. unfold Sql.same_witness_key, set_witness. intros H. zbool. destruct row, r; cbn in *; by subst. Qed.

Lemma effect_eq {B} (s : stmt B) db : effect s db = Sql.effect s db.
Proof.
  destruct s as [id u|id|id|id [w|]|id w z|id v|id a l|id|row|row|row|id st|id st|row att|n| ]; cbn [effect Sql.effect];
    rewrite ?entries_of_eq, ?nodes_of_eq, ?witnesses_of_eq, ?state_of_eq; try done.
  - by rewrite filter_same.
  - do 3 f_equal. apply find_ext. intros r. by rewrite !same_text_eq.
  - by rewrite (existsb_ext _ _ _ (same_entry_key_eq row)).
  - by rewrite (existsb_ext _ _ _ (same_node_key_eq row)).
  - by rewrite (existsb_ext _ _ _ (same_witness_key_eq row)).
  - do 3 f_equal. apply update_where_ext; [|done]. intros r. apply same_text_eq.
  - assert (forall r, same_witness_key row r && (tr_attempts r =? att) = Sql.same_witness_key row r && (tr_attempts r =? att)) as H
      by (intros r; by rewrite same_witness_key_eq).
    do 2 f_equal; [unfold count_where; f_equal; apply list_filter_iff; intros r; by rewrite H|].
    f_equal. apply update_where_ext; [done|]. intros r Hr. apply set_witness_row. by apply andb_true_iff in Hr as [? _].
Qed.

Lemma exec_eq {B} (s : stmt B) db : exec s db = Sql.exec s db.
Proof. unfold exec. by rewrite effect_eq. Qed.
End binary.
End Collated.

(** ** The server

    A transaction keeps the snapshot its reads see, once one was taken, the
    rows it wrote, which nobody else sees, and the locks of those rows. *)
Inductive write :=
| PutEntry (row : EntryRow)
| PutNode (row : NodeRow)
| PutWitness (row : WitnessRow)
| ReplaceWitness (row : WitnessRow)
| SetState (log_id : pystr) (state : cell).

Inductive lock :=
| MetaLock (log_id : pystr)
| SeqLock (log_id : pystr) (seq : Z)
| ValueLock (log_id : pystr) (value : cell)
| NodeLock (log_id : pystr) (position : Z)
| WitnessLock (log_id : pystr) (key : pystr * pystr).

#[export] Instance lock_eq_dec : EqDecision lock.
Proof. solve_decision. Defined.

(** Locks are on index records, which the collation tells apart. *)
Section collated_rows.
Context {CO : Collation}.

Definition same_lock (a b : lock) : bool :=
  match a, b with
  | MetaLock i, MetaLock j => same_text i j
  | SeqLock i n, SeqLock j m => same_text i j && (n =? m)
  | ValueLock i v, ValueLock j w => same_text i j && bool_decide (v = w)
  | NodeLock i n, NodeLock j m => same_text i j && (n =? m)
  | WitnessLock i v, WitnessLock j w => same_text i j && same_text v.1 w.1 && same_text v.2 w.2
  | _, _ => false
  end.
Definition taken (others : list lock) (l : lock) : bool := existsb (same_lock l) others.

Definition apply_write (db : Database) (w : write) : Database :=
  match w with
  | PutEntry row => with_entries db (cll_entries db ++ [row])
  | PutNode row => with_nodes db (cll_nodes db ++ [row])
  | PutWitness row => with_witnesses db (cll_witnesses db ++ [row])
  | ReplaceWitness row =>
      with_witnesses db (update_where (Collated.same_witness_key row) (Collated.set_witness row) (cll_witnesses db))
  | SetState id state => with_meta db (update_where (fun r => same_text r.1 id) (fun r => (r.1, state)) (cll_meta db))
  end.
Definition apply_writes (ws : list write) (db : Database) : Database := fold_left apply_write ws db.
End collated_rows.

(** A consistent read sees the snapshot; a locking read or a write sees the
    last committed rows, and waits for the locks of others. *)
Definition consistent {B} (s : stmt B) : bool :=
  match s with
  | SelectState _ for_update => negb for_update
  | SelectWidths _ | SelectNodes _ | SelectWitnesses _ _ | SelectWitness _ _ _ | SelectEntry _ _ | SelectEntries _ _ _
  | SelectMaxSeq _ => true
  | _ => false
  end.

Definition locks_of {B} (s : stmt B) : list lock :=
  match s with
  | SelectState id true | InsertMetaOrIgnore id _ | UpdateState id _ => [MetaLock id]
  | InsertEntry row => [SeqLock (er_log_id row) (er_seq row); ValueLock (er_log_id row) (er_value row)]
  | InsertNode row => [NodeLock (nr_log_id row) (nr_position row)]
  | InsertWitness row | UpdateWitness row _ => [WitnessLock (tr_log_id row) (tr_witness_id row, tr_checkpoint_size row)]
  | _ => []
  end.

Definition writes_of {B} (s : stmt B) : B -> list write :=
  match s in stmt B return B -> list write with
  | InsertEntry row => fun _ => [PutEntry row]
  | InsertNode row => fun _ => [PutNode row]
  | InsertWitness row => fun _ => [PutWitness row]
  | UpdateState id state => fun _ => [SetState id state]
  | UpdateWitness row _ => fun count => if count =? 1 then [ReplaceWitness row] else []
  | _ => fun _ => []
  end.

Record Tx := { tx_view : option Database; tx_writes : list write; tx_locks : list lock }.
Definition new_tx (view : option Database) : Tx := {| tx_view := view; tx_writes := []; tx_locks := [] |}.

(** A connection; [Lost] is one that the client or the server closed. *)
Inductive connection := Lost | Idle | InTx (tx : Tx).
Definition in_tx (c : connection) : bool := match c with InTx _ => true | _ => false end.
Definition held (c : connection) : list lock := match c with InTx tx => tx_locks tx | _ => [] end.

Definition server_error (e : exn) : exn :=
  match e with IntegrityError => MySQLError 1062 | SqliteError => MySQLError 1146 | e => e end.
Definition reported {B} (r : result B) : result B := match r with Ok b => Ok b | Raise e => Raise (server_error e) end.

Section server.
Context {CO : Collation}.

(** A statement inside a transaction, with the locks of the others. *)
Definition query_tx (db : Database) (others : list lock) (tx : Tx) {B} (s : stmt B) (r : result B) (tx' : Tx) : Prop :=
  if consistent s then
    let view := default db (tx_view tx) in
    r = reported (let! (b, _) := Collated.exec s (apply_writes (tx_writes tx) view) in Ok b) /\
    tx' = {| tx_view := Some view; tx_writes := tx_writes tx; tx_locks := tx_locks tx |}
  else
    (forall l, l ∈ locks_of s -> taken others l = false) /\
    match Collated.exec s (apply_writes (tx_writes tx) db) with
    | Ok (b, _) =>
        r = Ok b /\
        tx' = {| tx_view := tx_view tx; tx_writes := tx_writes tx ++ writes_of s b; tx_locks := tx_locks tx ++ locks_of s |}
    | Raise e => r = Raise (server_error e) /\ tx' = tx
    end.

(** A statement by itself. *)
Definition query_auto (db : Database) (others : list lock) {B} (s : stmt B) (r : result B) (db' : Database) : Prop :=
  (forall l, l ∈ locks_of s -> taken others l = false) /\
  match Collated.exec s db with
  | Ok (b, db1) => r = Ok b /\ db' = db1
  | Raise e => r = Raise (server_error e) /\ db' = db
  end.

(** Any request may fail: its transaction goes on, is rolled back, or is lost
    with the connection. *)
Definition request_fails {B} (c : connection) (r : result B) (c' : connection) : Prop :=
  (exists n, r = Raise (MySQLError n)) /\ (c' = c \/ c' = Lost \/ c <> Lost /\ c' = Idle).

(** The end of a transaction: whether its rows were committed, which a client
    whose commit fails is not told. *)
Definition commit_answers (c : connection) (r : result ()) (applied : bool) (c' : connection) : Prop :=
  r = Ok () /\ c <> Lost /\ applied = true /\ c' = Idle
  \/ request_fails c r c' /\ in_tx c' = false /\ (applied = true -> c <> Lost).
Definition committed_by (db : Database) (c : connection) (applied : bool) : Database :=
  match c with InTx tx => if applied then apply_writes (tx_writes tx) db else db | _ => db end.

(** The answers to a request: the client's, the tables then committed, the
    connection. A transaction that is open is committed by the next one. *)
Definition answers (db : Database) (others : list lock) {B} (q : request B)
    : connection -> result B -> Database -> connection -> Prop :=
  match q in request B return connection -> result B -> Database -> connection -> Prop with
  | Ping => fun c r db' c' => db' = db /\ (c <> Lost /\ r = Ok () /\ c' = c \/ request_fails c r c' /\ (c' = c \/ c' = Lost))
  | Connect => fun c r db' c' => db' = db /\ (r = Ok () /\ c' = Idle \/ request_fails c r c' /\ c' = Lost)
  | CloseConnection => fun c r db' c' => db' = db /\ c' = Lost /\ (c <> Lost /\ r = Ok () \/ request_fails c r c')
  | Begin b => fun c r db' c' =>
      request_fails c r c' /\ db' = db \/
      r = Ok () /\ c <> Lost /\ db' = committed_by db c true /\
      c' = InTx (new_tx (match b with ConsistentSnapshotReadOnly => Some db' | StartTransaction => None end))
  | Query s => fun c r db' c' =>
      request_fails c r c' /\ db' = db \/
      match c with
      | Lost => False
      | Idle => query_auto db others s r db' /\ c' = Idle
      | InTx tx => exists tx', query_tx db others tx s r tx' /\ db' = db /\ c' = InTx tx'
      end
  | Commit => fun c r db' c' => exists applied, commit_answers c r applied c' /\ db' = committed_by db c applied
  | Rollback => fun c r db' c' => db' = db /\ (r = Ok () /\ c <> Lost /\ c' = Idle \/ request_fails c r c' /\ in_tx c' = false)
  end.

Definition is_commit {B} (q : request B) : bool := match q with Commit => true | _ => false end.

(** ** Handles at work

    Any number of handles, each with its connection, on the logs of one
    database. A handle serves one call at a time. *)
Record Handle := {
  h_store : MysqlStore; h_connection : connection; h_call : option (mutation * client (option AppendResult))
}.
Definition busy (h : Handle) (c : connection) (m : mutation) (p : client (option AppendResult)) : Handle :=
  {| h_store := h_store h; h_connection := c; h_call := Some (m, p) |}.
Definition free (h : Handle) : Handle := {| h_store := h_store h; h_connection := h_connection h; h_call := None |}.
Definition lost (h : Handle) : Handle := {| h_store := h_store h; h_connection := Lost; h_call := h_call h |}.

Record System := { committed : Database; handles : list Handle }.

Definition locks_but (i : nat) (hs : list Handle) : list lock :=
  concat (map (fun h => held (h_connection h)) (take i hs ++ drop (S i) hs)).

(** One answer to a client, and the end of its transaction. *)
Definition client_answers (db : Database) (others : list lock) (c : connection) {A} (p p' : client A)
    (db' : Database) (c' : connection) : Prop :=
  match p with
  | Return _ => False
  | Ask q k => is_commit q = false /\ exists r, answers db others q c r db' c' /\ p' = k r
  end.

Definition client_commits (c : connection) {A} (p p' : client A) (c' : connection) (applied : bool) (told : bool) : Prop :=
  match p with
  | Return _ => False
  | Ask q k =>
      match q in request B return (result B -> client A) -> Prop with
      | Commit => fun k => exists r, commit_answers c r applied c' /\ p' = k r /\ told = match r with Ok _ => true | Raise _ => false end
      | _ => fun _ => False
      end k
  end.

(** What the caller is told when its commit succeeds. *)
Definition reply_of {A} (p : client A) : option A :=
  match p with
  | Return _ => None
  | Ask q k =>
      match q in request B return (result B -> client A) -> option A with
      | Commit => fun k => match k (Ok ()) with Return (Ok a) => Some a | _ => None end
      | _ => fun _ => None
      end k
  end.

(** [Stored]: a commit took effect; [told] if the client learns of it. *)
Inductive event :=
| Called (i : nat) (log_id : pystr) (m : mutation)
| Stored (i : nat) (log_id : pystr) (m : mutation) (reply : option AppendResult) (told : bool)
| Returned (i : nat) (log_id : pystr) (m : mutation) (r : result (option AppendResult)).

Definition stored_event (i : nat) (h : Handle) (m : mutation) (p : client (option AppendResult)) (applied told : bool) : list event :=
  match applied, reply_of p with
  | true, Some a => [Stored i (my_log_id (h_store h)) m a told]
  | _, _ => []
  end.

Inductive acts (sys : System) : list event -> System -> Prop :=
| acts_call i h m :
    handles sys !! i = Some h -> h_call h = None ->
    acts sys [Called i (my_log_id (h_store h)) m]
      {| committed := committed sys; handles := <[i := busy h (h_connection h) m (mysql_mutate (h_store h) m)]> (handles sys) |}
| acts_answer i h m p p' db c :
    handles sys !! i = Some h -> h_call h = Some (m, p) ->
    client_answers (committed sys) (locks_but i (handles sys)) (h_connection h) p p' db c ->
    acts sys [] {| committed := db; handles := <[i := busy h c m p']> (handles sys) |}
| acts_commit i h m p p' c applied told :
    handles sys !! i = Some h -> h_call h = Some (m, p) -> client_commits (h_connection h) p p' c applied told ->
    acts sys (stored_event i h m p applied told)
      {| committed := committed_by (committed sys) (h_connection h) applied; handles := <[i := busy h c m p']> (handles sys) |}
| acts_return i h m r :
    handles sys !! i = Some h -> h_call h = Some (m, Return r) ->
    acts sys [Returned i (my_log_id (h_store h)) m r] {| committed := committed sys; handles := <[i := free h]> (handles sys) |}
| acts_lose i h :
    handles sys !! i = Some h ->
    acts sys [] {| committed := committed sys; handles := <[i := lost h]> (handles sys) |}.

(** What happened, in order. *)
Inductive history (sys : System) : list event -> System -> Prop :=
| history_nil : history sys [] sys
| history_snoc tr ev sys1 sys2 : history sys tr sys1 -> acts sys1 ev sys2 -> history sys (tr ++ ev) sys2.

(** ** An executable server

    It fails only where it has to: on a connection that is lost, and, as if
    the wait had timed out, on a statement that needs a lock another holds. *)
Definition waits (others : list lock) {B} (s : stmt B) : bool := existsb (taken others) (locks_of s).

Definition serve_query (db : Database) (others : list lock) (c : connection) {B} (s : stmt B) : result B * Database * connection :=
  match c with
  | Lost => (Raise (MySQLError 2006), db, Lost)
  | Idle =>
      if waits others s then (Raise (MySQLError 1205), db, Idle)
      else match Collated.exec s db with Ok (b, db) => (Ok b, db, Idle) | Raise e => (Raise (server_error e), db, Idle) end
  | InTx tx =>
      if consistent s then
        let view := default db (tx_view tx) in
        (reported (let! (b, _) := Collated.exec s (apply_writes (tx_writes tx) view) in Ok b), db,
         InTx {| tx_view := Some view; tx_writes := tx_writes tx; tx_locks := tx_locks tx |})
      else if waits others s then (Raise (MySQLError 1205), db, InTx tx)
      else
        match Collated.exec s (apply_writes (tx_writes tx) db) with
        | Ok (b, _) =>
            (Ok b, db, InTx {| tx_view := tx_view tx; tx_writes := tx_writes tx ++ writes_of s b; tx_locks := tx_locks tx ++ locks_of s |})
        | Raise e => (Raise (server_error e), db, InTx tx)
        end
  end.

Definition serve (db : Database) (others : list lock) (c : connection) {B} (q : request B) : result B * Database * connection :=
  match q in request B return result B * Database * connection with
  | Ping => match c with Lost => (Raise (MySQLError 2006), db, Lost) | _ => (Ok (), db, c) end
  | Connect => (Ok (), db, Idle)
  | CloseConnection => match c with Lost => (Raise (MySQLError 0), db, Lost) | _ => (Ok (), db, Lost) end
  | Begin b =>
      match c with
      | Lost => (Raise (MySQLError 2006), db, Lost)
      | _ => let db := committed_by db c true in
             (Ok (), db, InTx (new_tx (match b with ConsistentSnapshotReadOnly => Some db | StartTransaction => None end)))
      end
  | Query s => serve_query db others c s
  | Commit => match c with Lost => (Raise (MySQLError 2006), db, Lost) | _ => (Ok (), committed_by db c true, Idle) end
  | Rollback => match c with Lost => (Raise (MySQLError 2006), db, Lost) | _ => (Ok (), db, Idle) end
  end.

(** A client by itself. *)
Fixpoint run_client {A} (p : client A) (db : Database) (c : connection) : result A * Database * connection :=
  match p with
  | Return r => (r, db, c)
  | Ask q k => let '(a, db, c) := serve db [] c q in run_client (k a) db c
  end.

(** A schedule of several: a call, one request of a handle or its return, the
    loss of a connection. A move that is not possible is skipped. *)
Inductive move := Call (i : nat) (m : mutation) | Go (i : nat) | Drop (i : nat).

Definition go (sys : System) (i : nat) (h : Handle) : list event * System :=
  match h_call h with
  | None => ([], sys)
  | Some (m, Return r) =>
      ([Returned i (my_log_id (h_store h)) m r], {| committed := committed sys; handles := <[i := free h]> (handles sys) |})
  | Some (m, Ask q k) =>
      let '(r, db, c) := serve (committed sys) (locks_but i (handles sys)) (h_connection h) q in
      (if is_commit q
       then stored_event i h m (Ask q k) (match h_connection h with Lost => false | _ => true end)
              (match r with Ok _ => true | Raise _ => false end)
       else [],
       {| committed := db; handles := <[i := busy h c m (k r)]> (handles sys) |})
  end.

Definition play (sys : System) (mv : move) : list event * System :=
  match mv with
  | Call i m =>
      match handles sys !! i with
      | Some h =>
          match h_call h with
          | None => ([Called i (my_log_id (h_store h)) m],
              {| committed := committed sys; handles := <[i := busy h (h_connection h) m (mysql_mutate (h_store h) m)]> (handles sys) |})
          | Some _ => ([], sys)
          end
      | None => ([], sys)
      end
  | Go i => match handles sys !! i with Some h => go sys i h | None => ([], sys) end
  | Drop i =>
      match handles sys !! i with
      | Some h => ([], {| committed := committed sys; handles := <[i := lost h]> (handles sys) |})
      | None => ([], sys)
      end
  end.

Fixpoint plays (sys : System) (mvs : list move) : list event * System :=
  match mvs with
  | [] => ([], sys)
  | mv :: mvs =>
      let '(ev, sys) := play sys mv in
      let '(tr, sys) := plays sys mvs in
      (ev ++ tr, sys)
  end.
End server.

(** ** With a binary collation *)

(** The writes of a transaction, with texts compared as they are. *)
Definition put_write (db : Database) (w : write) : Database :=
  match w with
  | PutEntry row => with_entries db (cll_entries db ++ [row])
  | PutNode row => with_nodes db (cll_nodes db ++ [row])
  | PutWitness row => with_witnesses db (cll_witnesses db ++ [row])
  | ReplaceWitness row => with_witnesses db (update_where (same_witness_key row) (fun _ => row) (cll_witnesses db))
  | SetState id state => with_meta db (update_where (fun r => bool_decide (r.1 = id)) (fun r => (r.1, state)) (cll_meta db))
  end.
Definition put (ws : list write) (db : Database) : Database := fold_left put_write ws db.

Section binary.
Context {CO : Collation} {BC : BinaryCollation CO}.

Lemma apply_writes_eq ws db : apply_writes ws db = put ws db.
Proof.
  revert db. induction ws as [|w ws IH]; intros db; [done|].
  change (apply_writes ws (apply_write db w) = put ws (put_write db w)). rewrite IH. f_equal. destruct w as [row|row|row|row|id st]; cbn; try done.
  - f_equal. apply Collated.update_where_ext; [intros r; apply Collated.same_witness_key_eq|apply Collated.set_witness_row].
  - f_equal. apply Collated.update_where_ext; [|done]. intros r. apply same_text_eq.
Qed.

Lemma same_lock_eq a b : same_lock a b = true <-> a = b.
Proof.
  destruct a, b; cbn; try (split; [done|by intros [=]]); rewrite ?andb_true_iff, ?same_text_eq, ?Z.eqb_eq, ?bool_decide_eq_true;
    try (split; [intros H; destruct_and?; by subst|by intros [= -> ->]]).
  - split; [by intros ->|by intros [= ->]].
  - destruct key as [? ?], key0 as [? ?]. cbn. split; [intros H; destruct_and?; by subst|by intros [= -> -> ->]].
Qed.

Lemma taken_eq others l : taken others l = false <-> l ∉ others.
Proof.
  unfold taken. rewrite <- not_true_iff_false, existsb_exists. apply not_iff_compat. split.
  - intros (k & Hk & E). apply same_lock_eq in E as <-. by apply list_elem_of_In.
  - intros Hl. exists l. split; [by apply list_elem_of_In|by apply same_lock_eq].
Qed.

Lemma committed_by_eq db c applied :
  committed_by db c applied = match c with InTx tx => if applied then put (tx_writes tx) db else db | _ => db end.
Proof. unfold committed_by. destruct c; [done..|]. by rewrite apply_writes_eq. Qed.

Lemma query_tx_eq db others tx {B} (s : stmt B) r tx' :
  query_tx db others tx s r tx' <->
  if consistent s then
    let view := default db (tx_view tx) in
    r = reported (let! (b, _) := exec s (put (tx_writes tx) view) in Ok b) /\
    tx' = {| tx_view := Some view; tx_writes := tx_writes tx; tx_locks := tx_locks tx |}
  else
    (forall l, l ∈ locks_of s -> l ∉ others) /\
    match exec s (put (tx_writes tx) db) with
    | Ok (b, _) =>
        r = Ok b /\
        tx' = {| tx_view := tx_view tx; tx_writes := tx_writes tx ++ writes_of s b; tx_locks := tx_locks tx ++ locks_of s |}
    | Raise e => r = Raise (server_error e) /\ tx' = tx
    end.
Proof.
  unfold query_tx. rewrite !apply_writes_eq, !Collated.exec_eq. destruct (consistent s); [done|]. by setoid_rewrite taken_eq.
Qed.

Lemma query_auto_eq db others {B} (s : stmt B) r db' :
  query_auto db others s r db' <->
  (forall l, l ∈ locks_of s -> l ∉ others) /\
  match exec s db with
  | Ok (b, db1) => r = Ok b /\ db' = db1
  | Raise e => r = Raise (server_error e) /\ db' = db
  end.
Proof. unfold query_auto. rewrite !Collated.exec_eq. by setoid_rewrite taken_eq. Qed.

Lemma waits_eq others {B} (s : stmt B) : waits others s = false <-> forall l, l ∈ locks_of s -> l ∉ others.
Proof.
  unfold waits. rewrite <- not_true_iff_false, existsb_exists. split.
  - intros H l Hl. apply taken_eq, not_true_iff_false. intros Ht. apply H. exists l. by split; [apply list_elem_of_In|].
  - intros H (l & Hl & Ht). apply list_elem_of_In, H, taken_eq in Hl. congruence.
Qed.

Lemma serve_query_eq db others c {B} (s : stmt B) :
  serve_query db others c s =
  match c with
  | Lost => (Raise (MySQLError 2006), db, Lost)
  | Idle =>
      if waits others s then (Raise (MySQLError 1205), db, Idle)
      else match exec s db with Ok (b, db) => (Ok b, db, Idle) | Raise e => (Raise (server_error e), db, Idle) end
  | InTx tx =>
      if consistent s then
        let view := default db (tx_view tx) in
        (reported (let! (b, _) := exec s (put (tx_writes tx) view) in Ok b), db,
         InTx {| tx_view := Some view; tx_writes := tx_writes tx; tx_locks := tx_locks tx |})
      else if waits others s then (Raise (MySQLError 1205), db, InTx tx)
      else
        match exec s (put (tx_writes tx) db) with
        | Ok (b, _) =>
            (Ok b, db, InTx {| tx_view := tx_view tx; tx_writes := tx_writes tx ++ writes_of s b; tx_locks := tx_locks tx ++ locks_of s |})
        | Raise e => (Raise (server_error e), db, InTx tx)
        end
  end.
Proof. unfold serve_query. destruct c as [| |tx]; [done| |]; by rewrite ?apply_writes_eq, !Collated.exec_eq. Qed.
End binary.
