(* ===== verification/MysqlProps.v ===== *)
(** * The MySQL backend: correctness

    Transactions of several connections interleave statement by statement.
    [append] and [commit_cll] hold the lock of their log's metadata row from
    their first statement to the end, and [commit_witness] relies on its
    compare-and-set; either way a commit that takes effect is one mutation of
    the engine, in the order of the commits. *)
From Stdlib Require Import FunctionalExtensionality.
From stdpp Require Import sorting.
From S2P Require Import Prelude Bytes Text Py Cll Json Wire Engine EngineValid EngineProps EngineCommit EngineSteps Backend Sql SqlRows SqlProps SqlCommit Sqlite SqliteProps Mysql.
Open Scope Z_scope.

(** ** Programs *)

(** Every statement passes a test. *)
Fixpoint every (P : forall B, stmt B -> bool) {A} (p : sql A) : Prop :=
  match p with Done _ => True | Execute s k => P _ s = true /\ forall b, every P (k b) end.

Lemma every_bind P {A B} (p : sql A) (f : A -> sql B) : every P p -> (forall a, every P (f a)) -> every P (sql_bind p f).
Proof.
  intros Hp Hf. induction p as [[a|x]|C s k IH]; [by apply Hf|done|]. destruct Hp as [Hu Hk]. split; [done|]. intros c. by apply IH.
Qed.

Lemma body_map {A B} (f : A -> B) (p : sql A) k k' :
  (forall r, client_map f (k r) = k' (let! a := r in Ok (f a))) -> client_map f (body p k) = body (let* a := p in lift (Ok (f a))) k'.
Proof.
  intros Hk. induction p as [[a|x]|C s g IH]; [exact (Hk (Ok a))|exact (Hk (Raise x))|].
  unfold client_map in *. cbn [body client_bind sql_bind]. f_equal. apply functional_extensionality. intros [b|x]; [apply IH|exact (Hk (Raise x))].
Qed.

Lemma client_transaction_map {A B} (f : A -> B) self b (p : sql A) :
  client_map f (Mysql._transaction self (Some b) p) = Mysql._transaction self (Some b) (let* a := p in lift (Ok (f a))).
Proof.
  unfold Mysql._transaction. destruct (my_closed self); [done|].
  assert (client_map f (begin_with b p) = begin_with b (let* a := p in lift (Ok (f a)))) as E.
  { unfold begin_with, client_map. cbn [client_bind]. f_equal. apply functional_extensionality. intros [u|x]; [|done].
    apply (body_map f p finish finish). intros [a|x]; cbn [finish];
      unfold client_map, commit_with, _rollback; cbn [client_bind]; f_equal; apply functional_extensionality; by intros [|]. }
  unfold _ensure_connected, client_map at 1. cbn [client_bind]. f_equal. apply functional_extensionality.
  intros [u|x]; [exact E|]. unfold drop_connection, reconnect. cbn [client_bind]. f_equal. apply functional_extensionality. intros y.
  f_equal. apply functional_extensionality. intros [v|z]; [exact E|done].
Qed.

Lemma mysql_mutate_eq self m :
  mysql_mutate self m = Mysql._transaction self (Some StartTransaction) (mutation_sql true (my_log_id self) m).
Proof. destruct m; cbn [mysql_mutate]; exact (client_transaction_map _ _ _ _). Qed.

(** ** Engines that differ in the progress of deliveries *)
Definition ident (w : WitnessState) : pystr * Z * bytes := (witness_key w, ws_checkpoint w).

Record sim (e e' : Engine) : Prop := {
  sim_entries : _entries e' = _entries e;
  sim_state : _state e' = with_rows (_state e) (cs_witnesses (_state e'));
  sim_rows : map ident (cs_witnesses (_state e')) ≡ₚ map ident (cs_witnesses (_state e))
}.

#[export] Instance sim_equiv : Equivalence sim.
Proof.
  split.
  - intros e. split; [done|by destruct (_state e)|done].
  - intros e e' [H1 H2 H3]. split; [done| |done]. rewrite H2. by destruct (_state e).
  - intros a b c [H1 H2 H3] [H4 H5 H6]. split; [congruence| |by rewrite H6].
    rewrite H5. rewrite H2. by destruct (_state a).
Qed.

Lemma idents_valid l k : map ident l ≡ₚ map ident k -> NoDup (map witness_key k) -> NoDup (map witness_key l).
Proof.
  intros Hp. assert (forall l, map witness_key l = map fst (map ident l)) as E by (intros j; by rewrite map_map).
  by rewrite !E, Hp.
Qed.

(** The rows a commit adds depend on the keys and checkpoints of the others. *)
Lemma idents_lookup l k key :
  map ident l ≡ₚ map ident k -> NoDup (map witness_key k) ->
  ws_checkpoint <$> witness_map l !! key = ws_checkpoint <$> witness_map k !! key.
Proof.
  intros Hp Hk. pose proof (idents_valid l k Hp Hk) as Hl.
  pose proof (witness_map_lookup l key) as H1. pose proof (witness_map_lookup k key) as H2.
  assert (forall a b row, map ident a ≡ₚ map ident b -> row ∈ a -> exists row', row' ∈ b /\ ident row' = ident row) as Hin.
  { intros a b row Hab Hr. assert (ident row ∈ map ident b) as H; [|apply list_elem_of_fmap in H as (x & -> & ?); by exists x].
    rewrite <- Hab. apply list_elem_of_fmap. by exists row. }
  destruct (witness_map l !! key) as [r|], (witness_map k !! key) as [r'|]; [| | |done].
  - destruct H1 as [Hr E], H2 as [Hr' E']. destruct (Hin l k r Hp Hr) as (x & Hx & Ex). injection Ex as E1 E2 E3.
    assert (x = r') as ->; [|cbn; congruence]. apply (key_unique k); [done..|]. unfold witness_key in *. congruence.
  - exfalso. destruct H1 as [Hr E]. destruct (Hin l k r Hp Hr) as (x & Hx & Ex). apply H2. apply list_elem_of_fmap.
    exists x. split; [|done]. injection Ex as E1 E2 E3. unfold witness_key in *. congruence.
  - exfalso. destruct H2 as [Hr E]. destruct (Hin k l r' (symmetry Hp) Hr) as (x & Hx & Ex). apply H1. apply list_elem_of_fmap.
    exists x. split; [|done]. injection Ex as E1 E2 E3. unfold witness_key in *. congruence.
Qed.

Lemma added_rows_idents m m' rows acc :
  (forall k, ws_checkpoint <$> m !! k = ws_checkpoint <$> (m' !! k : option WitnessState)) ->
  added_rows m rows acc = added_rows m' rows acc.
Proof.
  intros H. revert acc. induction rows as [|row rows IH]; intros acc; [done|]. cbn [added_rows].
  specialize (H (witness_key row)) as E. destruct (m !! witness_key row) as [r|], (m' !! witness_key row) as [r'|]; try done.
  cbn in E. injection E as ->. by rewrite !IH.
Qed.

Lemma apply_cll_idents st ws es ec next :
  valid_state st -> map ident ws ≡ₚ map ident (cs_witnesses st) ->
  apply_cll (with_rows st ws) es ec next =
  let! u := apply_cll st es ec next in
  Ok (with_rows u (ws ++ drop (length (cs_witnesses st)) (cs_witnesses u))).
Proof.
  intros Hv Hp. unfold apply_cll. change (_check_expected (with_rows st ws) es ec) with (_check_expected st es ec).
  destruct (_check_expected st es ec); [|done]. destruct (validate_state next InvalidError) as [s|]; [|done].
  cbn [with_rows cs_size cs_indexed_seq cs_nodes cs_witnesses]. destruct (_ || _); [done|].
  assert (added_witnesses (with_rows st ws) s = added_witnesses st s) as ->.
  { unfold added_witnesses. cbn [with_rows cs_indexed_seq cs_checkpoint cs_witnesses]. destruct (_ <? _); [done|].
    destruct (check_checkpoints _ _); [|done]. apply added_rows_idents. intros k. apply idents_lookup; [done|apply Hv]. }
  destruct (added_witnesses st s) as [added|]; [|done]. cbn [cs_witnesses]. by rewrite drop_app_length.
Qed.

(** ** Runs in the company of others

    What a program may answer when each of its statements reads tables of an
    engine like [e]; its own rows are put on top. *)
Section log.
Variable log_id : pystr.

Definition similar (e : Engine) (v : Database) : Prop := exists ev, represents log_id v ev /\ wf ev /\ sim ev e.

Fixpoint may_run (e : Engine) {A} (p : sql A) (ws : list write) (a : A) (ws' : list write) : Prop :=
  match p with
  | Done r => r = Ok a /\ ws' = ws
  | Execute s k => exists v b d, similar e v /\ exec s (put ws v) = Ok (b, d) /\ may_run e (k b) (ws ++ writes_of s b) a ws'
  end.

Lemma may_run_sim e e' {A} (p : sql A) ws a ws' : sim e e' -> may_run e p ws a ws' -> may_run e' p ws a ws'.
Proof.
  intros Hs. revert ws. induction p as [r|B s k IH]; intros ws; [done|]. cbn [may_run].
  intros (v & b & d & (ev & Hr & Hw & He) & Hx & Hk). exists v, b, d. split; [|split; [done|by apply IH]].
  exists ev. split_and!; [done..|by etransitivity].
Qed.

Lemma may_run_bind e {A B} (p : sql A) (f : A -> sql B) ws b ws' :
  may_run e (sql_bind p f) ws b ws' -> exists a ws1, may_run e p ws a ws1 /\ may_run e (f a) ws1 b ws'.
Proof.
  revert ws. induction p as [[a|x]|C s k IH]; intros ws H; cbn [sql_bind may_run] in *.
  - by exists a, ws.
  - by destruct H as [H _].
  - destruct H as (v & c & d & Hv & Hx & H). destruct (IH c _ H) as (a & ws1 & H1 & H2). exists a, ws1.
    split; [|done]. by exists v, c, d.
Qed.

(** A first statement that only reads. *)
Lemma may_run_read e {A B} (s : stmt B) (k : B -> sql A) a ws :
  may_run e (Execute s k) [] a ws -> (forall b, writes_of s b = []) ->
  exists v ev b d, represents log_id v ev /\ wf ev /\ sim ev e /\ exec s v = Ok (b, d) /\ may_run e (k b) [] a ws.
Proof.
  intros (v & b & d & (ev & Hr & Hw & He) & Hx & Hk) Hs. rewrite Hs in Hk. by exists v, ev, b, d.
Qed.

(** ** Programs that only write *)
Definition unit_write {B} (s : stmt B) : bool :=
  match s with InsertEntry _ | InsertNode _ | InsertWitness _ | UpdateState _ _ => true | _ => false end.

Definition writer {A} (p : sql A) : Prop := every (@unit_write) p.

Lemma exec_put {B} (s : stmt B) db b d :
  unit_write s = true -> exec s db = Ok (b, d) -> d = put (writes_of s b) db /\ forall b', b' = b.
Proof.
  intros Hu. unfold exec. destruct (bool_decide _); [|done]. destruct s; try done; cbn [effect].
  1-3: destruct (existsb _ _); [done|].
  all: intros [= <- <-]; (split; [done|by intros []]).
Qed.

Lemma writer_runs e {A} (p : sql A) ws a ws' db a' db' :
  writer p -> may_run e p ws a ws' -> run p db = Ok (a', db') -> a' = a /\ exists ws1, ws' = ws ++ ws1 /\ db' = put ws1 db.
Proof.
  unfold run. revert ws db. induction p as [r|B s k IH]; intros ws db Hw H Hr.
  - destruct H as [-> ->]. injection Hr as <- <-. split; [done|]. exists []. by rewrite app_nil_r.
  - destruct Hw as [Hu Hk]. destruct H as (v & b & d & _ & Hx & H). cbn [run_sql head mjoin option_join tail] in Hr.
    destruct (exec s db) as [[b1 db1]|] eqn:E; [|done].
    destruct (exec_put s db b1 db1 Hu E) as [-> Hb]. rewrite (Hb b) in *.
    destruct (IH b1 (ws ++ writes_of s b1) _ (Hk b1) H Hr) as (-> & ws1 & -> & ->). split; [done|].
    exists (writes_of s b1 ++ ws1). split; [by rewrite app_assoc|]. unfold put. by rewrite fold_left_app.
Qed.

Lemma insert_nodes_writer position nodes : writer (Sql.insert_nodes log_id position nodes).
Proof. revert position. induction nodes as [|n nodes IH]; intros position; [done|]. cbn. split; [done|]. intros _. apply IH. Qed.

Lemma insert_witnesses_writer rows : writer (Sql.insert_witnesses log_id rows).
Proof.
  induction rows as [|w rows IH]; [done|]. cbn [Sql.insert_witnesses]. destruct (Sql.table_row log_id w); [|done]. cbn. by split.
Qed.

(** ** Appending *)
Section engine.
Context (db : Database) (e : Engine).
Context (Hrep : represents log_id db e) (Hwf : wf e).

(** What a program reads of the entries is the same for all of them. *)
Lemma entries_same v ev : represents log_id v ev -> sim ev e -> entries_of v log_id = entries_of db log_id.
Proof. intros Hr Hs. by rewrite (rp_entries _ _ _ Hr), (rp_entries _ _ _ Hrep), (sim_entries _ _ Hs). Qed.

Definition reads_entries {B} (s : stmt B) : Prop :=
  match s with SelectEntry id _ | SelectMaxSeq id => id = log_id | _ => False end.

Lemma run_reads_entries {A B} (s : stmt B) (k : B -> sql A) a ws :
  reads_entries s -> may_run e (Execute s k) [] a ws ->
  exists b, may_run e (k b) [] a ws /\ run (Execute s k) db = run (k b) db.
Proof.
  intros Hs H. apply may_run_read in H as (v & ev & b & d & Hr & _ & He & Hx & H); [|by destruct s]. exists b. split; [done|].
  unfold run. cbn [run_sql head mjoin option_join tail]. pose proof (entries_same v ev Hr He) as E.
  assert (exec s db = Ok (b, db)) as ->; [|done]. revert Hx. rewrite !exec_effect by (apply Hrep || apply Hr).
  destruct s; try done; cbn [reads_entries] in Hs; subst; cbn [effect]; rewrite E; by intros [= <- _].
Qed.

Lemma insert_entry_same v ev row b d :
  represents log_id v ev -> sim ev e -> er_log_id row = log_id -> exec (InsertEntry row) v = Ok (b, d) ->
  exec (InsertEntry row) db = Ok ((), put [PutEntry row] db).
Proof.
  intros Hr Hs Hl. rewrite !exec_effect by (apply Hrep || apply Hr). cbn [effect]. destruct (existsb _ (cll_entries v)) eqn:E; [done|].
  intros _. rewrite existsb_false; [done|]. intros r Hin. destruct (same_entry_key row r) eqn:Ek; [|done].
  assert (er_log_id r = log_id) as Hlr by (unfold same_entry_key in Ek; zbool; congruence).
  pose proof (entries_of_sub db log_id r Hin Hlr) as Hin'. rewrite <- (entries_same v ev Hr Hs) in Hin'.
  unfold entries_of in Hin'. rewrite (merge_sort_Permutation entry_le) in Hin'. apply list_elem_of_filter in Hin' as [_ Hin'].
  rewrite <- E. symmetry. apply existsb_exists. exists r. split; [by apply list_elem_of_In|done].
Qed.

Lemma append_runs input a ws :
  may_run e (Sql.append log_id input true) [] a ws -> run (Sql.append log_id input true) db = Ok (a, put ws db).
Proof.
  unfold Sql.append. destruct (check_append input) as [[value t]|x] eqn:Ec; cbn [sql_bind lift]; [|by intros [H _]].
  cbn [Sql.lock_log sql_bind execute]. intros H.
  apply may_run_read in H as (v & ev & b & d & Hr & _ & He & Hx & H); [|done].
  destruct (rp_state _ _ _ Hrep) as (raw & Hraw & _). destruct (rp_state _ _ _ Hr) as (raw' & Hraw' & _).
  rewrite exec_effect in Hx by apply Hr. cbn [effect] in Hx. injection Hx as <- _. rewrite Hraw' in H.
  unfold run. cbn [run_sql head mjoin option_join tail]. rewrite exec_effect by apply Hrep. cbn [effect]. rewrite Hraw.
  cbn [sql_bind lift Sql._find_entry execute] in *.
  apply run_reads_entries in H as (row & H & E); [|done]. unfold run in E. rewrite E. clear E.
  destruct row as [row|]; cbn [sql_bind lift] in *.
  { destruct (entry_from_row row) as [found|]; [|by destruct H]. destruct H as [[= <-] ->]. done. }
  apply run_reads_entries in H as (maximum & H & E); [|done]. unfold run in E. rewrite E. clear E.
  destruct (_ <? _); [by destruct H|]. destruct (Calendar.format_time _) as [text|]; [|by destruct H].
  destruct H as (v1 & b1 & d1 & (ev1 & Hr1 & _ & He1) & Hx1 & [[= <-] ->]). cbn [writes_of app].
  cbn [run_sql head mjoin option_join tail]. 
  rewrite (insert_entry_same v1 ev1 _ b1 d1 Hr1 He1); [done| |exact Hx1]. done.
Qed.

(** ** Committing a checkpoint *)
Lemma load_runs s ws :
  may_run e (Sql.load_state log_id true) [] s ws ->
  ws = [] /\ exists rows, s = with_rows (_state e) rows /\ map ident rows ≡ₚ map ident (cs_witnesses (_state e)).
Proof.
  unfold Sql.load_state. cbn [sql_bind execute]. intros H.
  apply may_run_read in H as (v1 & e1 & raw & d1 & Hr1 & Hw1 & Hs1 & Hx1 & H); [|done].
  rewrite exec_effect in Hx1 by apply Hr1. cbn [effect] in Hx1. injection Hx1 as <- _.
  destruct (rp_state _ _ _ Hr1) as (raw & Hraw & d & Hj & Hd). rewrite Hraw, Hj in H. cbn [sql_bind lift execute] in H.
  apply may_run_read in H as (v2 & e2 & nodes & d2 & Hr2 & Hw2 & Hs2 & Hx2 & H); [|done].
  rewrite exec_effect in Hx2 by apply Hr2. cbn [effect] in Hx2. injection Hx2 as <- _.
  rewrite (rp_nodes _ _ _ Hr2), node_rows_read in H by apply (wf_state _ Hw2). cbn [sql_bind lift] in H. rewrite Hd in H.
  cbn [sql_bind lift Sql.load_witnesses execute] in H.
  apply may_run_read in H as (v3 & e3 & rows & d3 & Hr3 & Hw3 & Hs3 & Hx3 & H); [|done].
  rewrite exec_effect in Hx3 by apply Hr3. cbn [effect] in Hx3. injection Hx3 as <- _.
  destruct (read_rows log_id v3 e3 Hr3 Hw3) as (rows & Hrows & Hp & Hvalid). unfold rows_read in Hrows. rewrite Hrows in H.
  rewrite bool_decide_true in H by apply Hvalid. cbn [sql_bind lift] in H.
  assert (map ident rows ≡ₚ map ident (cs_witnesses (_state e))) as Hids.
  { rewrite (sim_rows _ _ Hs3). by apply Permutation_map. }
  replace (header (_state e1) (cs_nodes (_state e2))) with (header (_state e) (cs_nodes (_state e))) in H
    by (rewrite (sim_state _ _ Hs1) at 1; by rewrite (sim_state _ _ Hs2)).
  destruct H as [H ->]. split; [done|]. exists rows. split; [|done].
  change (validate_state (Inst (state_arg (with_rows (_state e) rows))) CorruptError = Ok s) in H.
  rewrite validate_state_arg in H; [congruence|]. destruct (wf_state _ Hwf) as [[H1 H2 H3 H4 H5 H6] H7].
  split; [split|]; done.
Qed.

(** After loading, a commit does the same whatever the deliveries' progress. *)
Definition commit_rest (st u : CllState) : sql () :=
  let* encoded := lift (metadata u) in
  let* _ := execute (UpdateState log_id (Blob encoded)) in
  let* _ := Sql.insert_nodes log_id (zlen (cs_nodes st)) (drop (length (cs_nodes st)) (cs_nodes u)) in
  Sql.insert_witnesses log_id (drop (length (cs_witnesses st)) (cs_witnesses u)).

Lemma commit_rest_writer st u : writer (commit_rest st u).
Proof.
  unfold commit_rest. destruct (metadata u); [|done]. cbn. split; [done|]. intros _.
  apply every_bind; [apply insert_nodes_writer|]. intros _. apply insert_witnesses_writer.
Qed.

Lemma commit_rest_rows rows es ec next :
  map ident rows ≡ₚ map ident (cs_witnesses (_state e)) ->
  (let* updated := lift (apply_cll (with_rows (_state e) rows) es ec next) in commit_rest (with_rows (_state e) rows) updated) =
  (let* updated := lift (apply_cll (_state e) es ec next) in commit_rest (_state e) updated).
Proof.
  intros Hp. rewrite apply_cll_idents by (done || apply Hwf). destruct (apply_cll (_state e) es ec next) as [u|x]; [|done].
  cbn [sql_bind lift]. unfold commit_rest. change (metadata (with_rows u _)) with (metadata u).
  cbn [with_rows cs_nodes cs_witnesses]. by rewrite drop_app_length.
Qed.

Lemma commit_cll_runs es ec next ws :
  (forall engine', Engine.commit_cll e es ec next = Ok engine' -> fits engine') ->
  may_run e (Sql.commit_cll log_id es ec next true) [] () ws ->
  run (Sql.commit_cll log_id es ec next true) db = Ok ((), put ws db).
Proof.
  intros Hfits H. apply may_run_bind in H as (s & ws1 & Hl & H). apply load_runs in Hl as (-> & rows & -> & Hp).
  change (may_run e (let* updated := lift (apply_cll (with_rows (_state e) rows) es ec next) in
    commit_rest (with_rows (_state e) rows) updated) [] () ws) in H. rewrite commit_rest_rows in H by done.
  pose proof (commit_cll_refines log_id db e Hrep Hwf es ec next true Hfits) as Hm. unfold mutates, Engine.commit_cll in Hm.
  destruct (apply_cll (_state e) es ec next) as [u|x] eqn:Eu; cbn [sql_bind lift] in H; [|by destruct H].
  destruct Hm as (db' & Hrun & _). rewrite Hrun. do 2 f_equal.
  destruct (read_rows log_id db e Hrep Hwf) as (rows0 & Hr0 & Hp0 & _).
  unfold Sql.commit_cll in Hrun. rewrite run_bind, (run_load_state log_id db e Hrep Hwf true rows0 Hr0 Hp0) in Hrun.
  change (run (let* updated := lift (apply_cll (with_rows (_state e) rows0) es ec next) in
    commit_rest (with_rows (_state e) rows0) updated) db = Ok ((), db')) in Hrun.
  rewrite commit_rest_rows in Hrun by by apply Permutation_map. rewrite Eu in Hrun. cbn [sql_bind lift] in Hrun.
  destruct (writer_runs e _ [] () ws db () db' (commit_rest_writer _ _) H Hrun) as (_ & ws2 & -> & ->). done.
Qed.

(** ** Committing a delivery *)
Definition update_rest (rowcount : Z) : sql (option AppendResult) :=
  let* _ := (if negb (rowcount =? 1) then lift (Raise ContentionError) else lift (Ok ())) in lift (Ok None).
End engine.

(** A compare-and-set that is about to run: the row with its key is there. *)
Record pending_cas (e : Engine) (ea : pyval) (next : arg Arg.WitnessState) (w : WitnessState) (row : WitnessRow) (n : Z) : Prop := {
  pc_valid : validate_witness next InvalidError = Ok w;
  pc_attempts : check_expected_attempts ea = Ok n;
  pc_row : Sql.table_row log_id w = Ok row;
  pc_ident : ident w ∈ map ident (cs_witnesses (_state e))
}.

Lemma replaces_ident rows w n i : replaces rows i n w -> ident w ∈ map ident rows.
Proof.
  intros (r & Hr & Hk & _ & Hc). apply list_elem_of_fmap. exists r. split; [unfold ident; congruence|by eapply list_elem_of_lookup_2].
Qed.

Lemma witness_program ea next :
  (exists x, mutation_sql true log_id (MWitness ea next) = Done (Raise x)) \/
  exists id size k, mutation_sql true log_id (MWitness ea next) = Execute (SelectWitness log_id id size) k /\
    forall v e b d, represents log_id v e -> wf e -> exec (SelectWitness log_id id size) v = Ok (b, d) ->
      (exists x, k b = Done (Raise x)) \/
      exists w row n, k b = Execute (UpdateWitness row n) update_rest /\ pending_cas e ea next w row n.
Proof.
  cbn [mutation_sql]. unfold Sql.commit_witness.
  destruct (validate_witness next InvalidError) as [w|x] eqn:Ew; [|left; by exists x].
  destruct (check_expected_attempts ea) as [n|x] eqn:Ea; [|left; by exists x]. cbn [sql_bind lift].
  apply validate_witness_inv in Ew as Hw. unfold Sql.get_witness, check_witness_key. cbn [as_str].
  rewrite int_within_int, (vw_id _ Hw) by apply Hw. cbn [sql_bind lift execute]. right. eexists _, _, _. split; [done|].
  intros v e b d Hr Hwf Hx. rewrite exec_effect in Hx by apply Hr. cbn [effect] in Hx. injection Hx as <- _.
  destruct (read_rows log_id v e Hr Hwf) as (ws & Hrows & Hp & Hv).
  pose proof (rows_read_find _ _ (ws_witness_id w) (ws_checkpoint_size w) Hrows (vw_size _ Hw)) as Hf.
  destruct (List.find _ (witnesses_of v log_id)) as [r|]; [|left; by eexists].
  destruct Hf as (c & Hc & Hread & _). cbn [fmap option_fmap option_map]. rewrite Hread. cbn [sql_bind lift].
  unfold apply_witness. rewrite validate_witness_arg, Ea by done.
  pose proof (find_witness_eq [c] n w 0 ltac:(repeat constructor; set_solver)) as Hs.
  destruct (find_witness 0 [c] n w) as [[i w']|x]; [|left; by eexists]. destruct Hs as (-> & _ & Hs).
  cbn [sql_bind lift]. destruct (table_row_reads log_id w Hw) as (row & Hrow & _). rewrite Hrow. cbn [sql_bind lift execute].
  right. exists w, row, n. split; [done|]. constructor; [done..|].
  pose proof (replaces_ident _ _ _ _ Hs) as Hin. apply list_elem_of_singleton in Hin as ->. rewrite <- Hp.
  apply list_elem_of_fmap. exists c. split; [done|]. apply list_elem_of_In. by apply List.find_some in Hc as [? _].
Qed.

(** The rows of the table with a key are the engine's. *)
Lemma table_witness db e r :
  represents log_id db e -> wf e -> r ∈ cll_witnesses db -> tr_log_id r = log_id ->
  exists w, w ∈ cs_witnesses (_state e) /\ row_id r = key_columns w /\ tr_attempts r = ws_attempts w /\ valid_witness w.
Proof.
  intros Hr Hwf Hin Hl. destruct (read_rows log_id db e Hr Hwf) as (ws & Hrows & Hp & Hv).
  assert (r ∈ witnesses_of db log_id) as Hin' by (rewrite witnesses_of_perm; by apply list_elem_of_filter).
  destruct (rows_read_keys _ _ Hrows) as (Hids & Hatt & Hval). apply list_elem_of_lookup in Hin' as [i Hi].
  assert (map row_id (witnesses_of db log_id) !! i = Some (row_id r)) as H1 by (by rewrite list_lookup_fmap, Hi).
  assert (map tr_attempts (witnesses_of db log_id) !! i = Some (tr_attempts r)) as H2 by (by rewrite list_lookup_fmap, Hi).
  rewrite Hids, list_lookup_fmap in H1. rewrite Hatt, list_lookup_fmap in H2.
  destruct (ws !! i) as [w|] eqn:Ew; [|done]. exists w. cbn in H1, H2. split_and!; [|congruence|congruence|].
  - rewrite <- Hp. by eapply list_elem_of_lookup_2.
  - by eapply Forall_lookup_1.
Qed.

Lemma pending_row e ea next w row n :
  pending_cas e ea next w row n -> valid_witness w /\ tr_log_id row = log_id /\ row_id row = key_columns w.
Proof.
  intros [Hv _ Hrow _]. apply validate_witness_inv in Hv as Hw. split; [done|].
  destruct (table_row_reads log_id w Hw) as (row' & E & Hl & _ & Hid & _). rewrite Hrow in E. injection E as <-. by split.
Qed.

(** The rows with the key of the compare-and-set have the same attempts. *)
Lemma cas_rows db e ea next w row n i r :
  represents log_id db e -> wf e -> pending_cas e ea next w row n -> replaces (cs_witnesses (_state e)) i n w ->
  r ∈ cll_witnesses db -> same_witness_key row r = true -> tr_attempts r = n.
Proof.
  intros Hr Hwf Hp (x & Hx & Hk & Ha & _) Hin Hsame. destruct (pending_row _ _ _ _ _ _ Hp) as (Hw & Hl & Hid).
  unfold same_witness_key in Hsame. zbool. destruct (table_witness db e r Hr Hwf Hin ltac:(congruence)) as (y & Hy & Ey & -> & Hvy).
  assert (y = x) as ->; [|done]. apply (key_unique (cs_witnesses (_state e))); [apply (wf_state _ Hwf)|done|by eapply list_elem_of_lookup_2|].
  rewrite Hk. apply key_columns_inj; [done..|]. rewrite <- Ey, <- Hid. unfold row_id. congruence.
Qed.

(** The update counts one row exactly when the engine would replace it. *)
Lemma update_counts db e ea next w row n count d :
  represents log_id db e -> wf e -> pending_cas e ea next w row n -> exec (UpdateWitness row n) db = Ok (count, d) -> count = 1 ->
  exists i, replaces (cs_witnesses (_state e)) i n w.
Proof.
  intros Hr Hwf Hp Hx Hc. rewrite exec_effect in Hx by apply Hr. cbn [effect] in Hx. injection Hx as Hcount _. rewrite Hc in Hcount.
  unfold count_where in Hcount. destruct (filter _ (cll_witnesses db)) as [|r l] eqn:Ef; [done|].
  assert (r ∈ r :: l) as Hin by left. rewrite <- Ef in Hin. apply list_elem_of_filter in Hin as [Hm Hin].
  apply andb_prop in Hm as [Hm Ha]. destruct (pending_row _ _ _ _ _ _ Hp) as (Hw & Hl & Hid).
  unfold same_witness_key in Hm. zbool. destruct (table_witness db e r Hr Hwf Hin ltac:(congruence)) as (x & Hx & Ex & Hax & Hvx).
  assert (witness_key x = witness_key w) as Hk by (apply key_columns_inj; [done..|]; rewrite <- Ex, <- Hid; unfold row_id; congruence).
  apply list_elem_of_lookup in Hx as Hi. destruct Hi as [i Hi]. exists i, x. split_and!; [done|done|congruence|].
  pose proof (pc_ident _ _ _ _ _ _ Hp) as Hident. apply list_elem_of_fmap in Hident as (y & Ey & Hy). injection Ey as E1 E2 E3.
  assert (x = y) as ->; [|congruence]. apply (key_unique (cs_witnesses (_state e))); [apply (wf_state _ Hwf)|done|done|].
  unfold witness_key in *. congruence.
Qed.
End log.
