(* ===== verification/MysqlRuns.v ===== *)
(** * The MySQL backend: several handles at work

    What a commit that takes effect does to the engine of its log, the phases
    of a call, the invariant of all handles, and linearizability. *)
From stdpp Require Import sorting.
From S2P Require Import Prelude Bytes Text Py Cll Json Wire Engine EngineValid EngineProps EngineCommit EngineSteps Backend Sql SqlRows SqlProps SqlCommit Sqlite SqliteProps Mysql MysqlProps.
Open Scope Z_scope.

Section collated.
Context {CO : Collation} {BC : BinaryCollation CO}.

Section log.
Variable log_id : pystr.

(** ** What a commit does *)
Lemma replaces_unique rows i j n m w : NoDup (map witness_key rows) -> replaces rows i n w -> replaces rows j m w -> i = j.
Proof.
  intros Hnd (r & Hr & Hk & _) (r' & Hr' & Hk' & _).
  eapply (NoDup_lookup _ _ _ (witness_key w) Hnd); rewrite list_lookup_fmap; [by rewrite Hr; cbn; f_equal|by rewrite Hr'; cbn; f_equal].
Qed.

(** The engine with one delivery replaced. *)
Definition delivered (e : Engine) (i : nat) (w : WitnessState) : Engine := Engine.with_state e (with_row (_state e) i w).

Lemma replaced_sim e i n w : replaces (cs_witnesses (_state e)) i n w -> sim e (delivered e i w).
Proof.
  intros (r & Hr & Hk & _ & Hc). split; [done|done|]. cbn [delivered Engine.with_state _state with_row cs_witnesses].
  change (map ident) with (fmap (M := list) ident). rewrite list_fmap_insert, list_insert_id; [done|].
  rewrite list_lookup_fmap, Hr. cbn. unfold ident. by rewrite Hk, Hc.
Qed.

Lemma commit_witness_engine e ea next w row n i :
  wf e -> pending_cas log_id e ea next w row n -> replaces (cs_witnesses (_state e)) i n w ->
  Engine.commit_witness e ea next = Ok (delivered e i w).
Proof.
  intros Hwf [Hv Ha _ _] Hr. unfold Engine.commit_witness.
  pose proof (wf_state e Hwf) as Hs. apply vs_metadata, vm_rows, rows_keys in Hs as Hnd.
  pose proof (apply_witness_eq (cs_witnesses (_state e)) ea next Hnd) as Hx.
  unfold check_expected_attempts in Ha. apply or_raise_Ok in Ha.
  destruct (apply_witness _ _ _) as [[j w']|[]]; try done.
  - destruct Hx as (Hv' & n' & Ha' & Hr'). assert (w' = w /\ n' = n) as [-> ->] by (split; congruence).
    by rewrite (replaces_unique _ _ _ _ _ _ Hnd Hr' Hr).
  - destruct Hx; congruence.
  - destruct Hx as (w' & n' & Hv' & Ha' & Hno). assert (w' = w /\ n' = n) as [-> ->] by (split; congruence). by destruct (Hno i).
Qed.

(** The update replaces the row with its key. *)
Lemma cas_update db e ea next w row n i count d :
  represents log_id db e -> wf e -> pending_cas log_id e ea next w row n -> replaces (cs_witnesses (_state e)) i n w ->
  exec (UpdateWitness row n) db = Ok (count, d) -> d = put [ReplaceWitness row] db.
Proof.
  intros Hrep Hwf Hp Hr Hx. rewrite exec_effect in Hx by apply Hrep. cbn [effect] in Hx. injection Hx as _ <-.
  cbn. f_equal. apply map_ext_in. intros r Hin%list_elem_of_In. destruct (same_witness_key row r) eqn:Es; [|done].
  rewrite (cas_rows log_id db e ea next w row n i r) by done. by rewrite Z.eqb_refl.
Qed.

Lemma witness_runs db e ea next w row n i :
  represents log_id db e -> wf e -> pending_cas log_id e ea next w row n -> replaces (cs_witnesses (_state e)) i n w ->
  run_engine e (MWitness ea next) = Ok (None, delivered e i w) /\ represents log_id (put [ReplaceWitness row] db) (delivered e i w).
Proof.
  intros Hrep Hwf Hp Hr. pose proof (commit_witness_engine _ _ _ _ _ _ _ Hwf Hp Hr) as He. cbn [run_engine]. rewrite He. split; [done|].
  pose proof (commit_witness_refines log_id db e Hrep Hwf ea next) as Hm. rewrite He in Hm. unfold mutates in Hm. destruct Hm as (db' & Hrun & Hrep' & _).
  assert (run (mutation_sql true log_id (MWitness ea next)) db = Ok (None, db')) as Hrun'.
  { unfold run in *. pose proof (run_sql_map (Sql.commit_witness log_id ea next) (fun _ => @None AppendResult) db []) as Hx.
    rewrite Hrun in Hx. exact Hx. }
  destruct (witness_program log_id ea next) as [[x E]|(id & size & k & E & Hk)]; rewrite E in Hrun'; [done|].
  unfold run in Hrun'. cbn [run_sql head mjoin option_join tail] in Hrun'.
  destruct (exec (SelectWitness log_id id size) db) as [[b d]|] eqn:Ex; [|done].
  assert (d = db) as -> by (rewrite exec_effect in Ex by apply Hrep; by injection Ex as _ <-).
  destruct (Hk db e b db Hrep Hwf Ex) as [[x Ek]|(w' & row' & n' & Ek & Hp')]; rewrite Ek in Hrun'; [done|].
  assert (w' = w /\ row' = row /\ n' = n) as (-> & -> & ->) by (destruct Hp as [P1 P2 P3 P4], Hp' as [Q1 Q2 Q3 Q4]; split_and!; congruence).
  cbn [run_sql head mjoin option_join tail] in Hrun'. destruct (exec (UpdateWitness row n) db) as [[count d]|] eqn:Eu; [|done].
  rewrite (cas_update _ _ _ _ _ _ _ _ _ _ Hrep Hwf Hp Hr Eu) in Hrun'. unfold update_rest in Hrun'. destruct (negb _); [done|]. by injection Hrun' as <-.
Qed.

(** [append] and [commit_cll] hold the lock of the metadata row. *)
Definition locked (m : mutation) : bool := match m with MWitness _ _ => false | _ => true end.

Lemma locked_runs db e m a ws :
  represents log_id db e -> wf e -> fits e -> small m -> locked m = true -> may_run log_id e (mutation_sql true log_id m) [] a ws ->
  exists e', run_engine e m = Ok (a, e') /\ represents log_id (put ws db) e'.
Proof.
  intros Hrep Hwf Hfits Hsmall Hl Hmay. pose proof (mutation_refines true log_id db e m Hrep Hwf Hfits Hsmall) as Hm.
  assert (run (mutation_sql true log_id m) db = Ok (a, put ws db)) as Hrun.
  { destruct m as [input|es ec next|]; [| |done]; cbn [mutation_sql] in Hmay |- *;
      apply may_run_bind in Hmay as (r & ws1 & Hmay & [[= <-] Hws]); rewrite <- Hws in Hmay; rewrite run_bind.
    - by rewrite (append_runs log_id db e Hrep input r ws).
    - destruct r. rewrite (commit_cll_runs log_id db e Hrep Hwf es ec next ws); [done| |done]. intros e' E.
      eapply (run_engine_fits e (MCommit es ec next)); [done..|]. cbn [run_engine]. by rewrite E. }
  unfold mutates in Hm. destruct (run_engine e m) as [[a' e']|x]; [|by rewrite Hrun in Hm].
  destruct Hm as (db' & Hr & Hrep' & _). rewrite Hrun in Hr. injection Hr as -> ->. by exists e'.
Qed.

(** What a commit means for the transactions that go on. *)
Definition witness_lock (w : WitnessState) : lock := WitnessLock log_id (key_columns w).
Inductive moved (locks : list lock) (e : Engine) : Engine -> Prop :=
| moved_locked e' : MetaLock log_id ∈ locks -> cs_witnesses (_state e) `prefix_of` cs_witnesses (_state e') -> moved locks e e'
| moved_witness i n w : witness_lock w ∈ locks -> replaces (cs_witnesses (_state e)) i n w -> moved locks e (delivered e i w).

Lemma locked_moved locks e m a e' :
  wf e -> locked m = true -> MetaLock log_id ∈ locks -> run_engine e m = Ok (a, e') -> moved locks e e'.
Proof.
  intros Hwf Hl Hlock Hrun. apply moved_locked; [done|]. destruct m as [input|es ec next|]; [| |done]; cbn [run_engine] in Hrun.
  - destruct (Engine.append e input) as [[r s]|] eqn:E; [|done]. injection Hrun as _ <-. rewrite append_eq in E by done.
    destruct (check_append input) as [[v t]|]; [|done].
    destruct (_by_value e !! v); [destruct (py_index _ _); [|done]; by injection E as _ <-|].
    destruct (_ <=? _); [done|]. by injection E as _ <-.
  - unfold Engine.commit_cll in Hrun. destruct (apply_cll _ _ _ _) as [u|] eqn:E; [|done]. injection Hrun as _ <-.
    apply apply_cll_inv in E as (_ & s & _ & _ & _ & -> & _); [|by apply wf_state].
    cbn [Engine.with_state _state merged cs_witnesses]. by eexists.
Qed.

(** ** Transactions under way *)
Inductive body_ok (e : Engine) (m : mutation) : sql (option AppendResult) -> Tx -> Prop :=
| bo_start : body_ok e m (mutation_sql true log_id m) (new_tx None)
| bo_locked q tx :
    locked m = true -> MetaLock log_id ∈ tx_locks tx -> (forall v, tx_view tx = Some v -> similar log_id e v) ->
    (forall a ws, may_run log_id e q (tx_writes tx) a ws -> may_run log_id e (mutation_sql true log_id m) [] a ws) -> body_ok e m q tx
| bo_cas ea next w row n tx :
    m = MWitness ea next -> pending_cas log_id e ea next w row n -> tx_writes tx = [] ->
    body_ok e m (Execute (UpdateWitness row n) update_rest) tx
| bo_replaced ea next w row n i tx :
    m = MWitness ea next -> pending_cas log_id e ea next w row n -> replaces (cs_witnesses (_state e)) i n w ->
    tx_writes tx = [ReplaceWitness row] -> witness_lock w ∈ tx_locks tx -> body_ok e m (Done (Ok None)) tx
| bo_failed x tx : body_ok e m (Done (Raise x)) tx.

Lemma similar_self e db : represents log_id db e -> wf e -> similar log_id e db.
Proof. intros Hr Hw. exists e. split_and!; [done..|reflexivity]. Qed.

(** The first statement of a locked mutation takes the lock. *)
Lemma program_locks m :
  locked m = true ->
  match mutation_sql true log_id m with
  | Done r => exists x, r = Raise x
  | Execute s _ => consistent s = false /\ locks_of s = [MetaLock log_id] /\ forall b, writes_of s b = []
  end.
Proof.
  destruct m as [input| |]; [| |done]; intros _; [|done]. cbn [mutation_sql]. unfold Sql.append.
  destruct (check_append input) as [[v t]|x]; [done|by exists x].
Qed.

Lemma body_step db e m q tx others :
  represents log_id db e -> wf e -> body_ok e m q tx ->
  match q with
  | Done _ => True
  | Execute s k => forall b tx', query_tx db others tx s (Ok b) tx' -> body_ok e m (k b) tx'
  end.
Proof.
  intros Hrep Hwf Hb. assert (similar log_id e db) as Hsim by by apply similar_self.
  destruct Hb as [|q tx Hl Hlock Hview Hrun|ea next w row n tx -> Hp Hws|ea next w row n i tx _ _ _ _ _|x tx]; [| | |done|done].
  - destruct (locked m) eqn:El.
    + pose proof (program_locks m El) as Hp. destruct (mutation_sql true log_id m) as [r|B s k] eqn:Em; [done|].
      destruct Hp as (Hc & Hlk & Hws). intros b tx'. rewrite query_tx_eq. rewrite Hc, Hlk. cbn [new_tx tx_writes tx_view tx_locks app].
      intros [_ Hx]. destruct (exec s (put [] db)) as [[b' d]|x] eqn:Ex; [|by destruct Hx]. destruct Hx as [[= <-] ->]. rewrite Hws.
      apply bo_locked; cbn; [done|by left|done|]. rewrite Em. intros a ws Hk. exists db, b, d. rewrite Hws. by split_and!.
    + destruct m as [| |ea next]; [done..|].
      destruct (witness_program log_id ea next) as [[x ->]|(id & size & k & -> & Hk)]; [done|].
      intros b tx'. rewrite query_tx_eq. cbn [consistent new_tx tx_writes tx_view tx_locks default].
      destruct (exec (SelectWitness log_id id size) (put [] db)) as [[b' d]|x] eqn:Ex; [|by intros [[=] _]]. intros [[= <-] ->].
      destruct (Hk db e b d Hrep Hwf Ex) as [[x ->]|(w & row & n & -> & Hp)]; [by apply bo_failed|by eapply bo_cas].
  - destruct q as [r|B s k]; [done|]. intros b tx'. rewrite query_tx_eq. destruct (consistent s) eqn:Ec.
    + cbv zeta. set (v := default db (tx_view tx)).
      assert (similar log_id e v) as Hv by (unfold v; destruct (tx_view tx) as [v'|] eqn:E; [by apply Hview|done]).
      destruct (exec s (put (tx_writes tx) v)) as [[b' d]|x] eqn:Ex; [|by intros [[=] _]]. intros [[= <-] ->].
      apply bo_locked; cbn; [done|done|by intros v' [= <-]|]. intros a ws Hk. apply Hrun. exists v, b, d. split_and!; [done..|].
      assert (writes_of s b = []) as ->; [|by rewrite app_nil_r]. by destruct s.
    + intros [_ Hx]. destruct (exec s (put (tx_writes tx) db)) as [[b' d]|x] eqn:Ex; [|by destruct Hx]. destruct Hx as [[= <-] ->].
      apply bo_locked; cbn [tx_locks tx_view tx_writes]; [done|apply elem_of_app; by left|done|]. intros a ws Hk. apply Hrun. by exists db, b, d.
  - intros count tx'. rewrite query_tx_eq. cbn [consistent]. rewrite Hws. cbn [put fold_left]. intros [_ Hx].
    destruct (exec (UpdateWitness row n) db) as [[c d]|x] eqn:Ex; [|by destruct Hx]. destruct Hx as [[= <-] ->].
    unfold update_rest. cbn [writes_of]. destruct (Z.eqb_spec count 1) as [Hc|Hc]; cbn [negb sql_bind lift]; [|by apply bo_failed].
    destruct (update_counts log_id db e ea next w row n count d Hrep Hwf Hp Ex Hc) as [i Hi].
    eapply bo_replaced; [done..|]. cbn [tx_locks locks_of]. destruct (pending_row _ _ _ _ _ _ _ Hp) as (_ & Hl & Hid).
    unfold witness_lock. rewrite <- Hid, <- Hl. unfold row_id. apply elem_of_app. right. by left.
Qed.

(** What commits next is a mutation of the engine. *)
Lemma body_commit db e m a tx :
  represents log_id db e -> wf e -> fits e -> small m -> body_ok e m (Done (Ok a)) tx ->
  exists e', run_engine e m = Ok (a, e') /\ represents log_id (put (tx_writes tx) db) e' /\ moved (tx_locks tx) e e'.
Proof.
  intros Hrep Hwf Hfits Hsmall Hb. remember (Done (Ok a)) as q eqn:Eq.
  destruct Hb as [|q tx Hl Hlock _ Hrun|ea next w row n tx|ea next w row n i tx -> Hp Hr -> Hlock|x tx]; [| |done| |done].
  - destruct (locked m) eqn:El.
    + pose proof (program_locks m El) as Hp. rewrite Eq in Hp. by destruct Hp.
    + destruct m as [| |ea next]; [done..|]. destruct (witness_program log_id ea next) as [[x E]|(id & size & k & E & _)]; by rewrite E in Eq.
  - subst q. destruct (locked_runs db e m a (tx_writes tx)) as (e' & He & Hrep'); [done..|by apply Hrun|].
    exists e'. split_and!; [done..|by eapply locked_moved].
  - injection Eq as <-. destruct (witness_runs db e ea next w row n i Hrep Hwf Hp Hr) as [He Hrep'].
    exists (delivered e i w). split_and!; [done..|by eapply moved_witness].
Qed.

(** ** Transactions and the commits of others *)
Lemma moved_pending locks e e' ea next w row n :
  moved locks e e' -> pending_cas log_id e ea next w row n -> pending_cas log_id e' ea next w row n.
Proof.
  intros Hm [H1 H2 H3 H4]. split; [done..|]. destruct Hm as [e' _ [k Hk]|i m v _ Hr].
  - rewrite Hk, map_app. apply elem_of_app. by left.
  - by rewrite (sim_rows _ _ (replaced_sim _ _ _ _ Hr)).
Qed.

Lemma moved_body locks e e' m q tx :
  moved locks e e' -> (forall l, l ∈ tx_locks tx -> l ∉ locks) -> body_ok e m q tx -> body_ok e' m q tx.
Proof.
  intros Hm Hl Hb. destruct Hb as [|q tx H1 H2 H3 H4|ea next w row n tx H1 H2 H3|ea next w row n i tx H1 H2 H3 H4 H5|x tx].
  - apply bo_start.
  - destruct Hm as [e' Hlock _|i n w _ Hr]; [by destruct (Hl _ H2)|]. pose proof (replaced_sim _ _ _ _ Hr) as Hs.
    apply bo_locked; [done|done| |].
    + intros v Hv. destruct (H3 v Hv) as (ev & ? & ? & ?). exists ev. split_and!; [done..|]. etransitivity; [|done]. done.
    + intros a ws Hk. apply (may_run_sim _ _ _ _ _ _ _ Hs), H4. by apply (may_run_sim _ (delivered e i w)); [symmetry|].
  - eapply bo_cas; [done|by eapply moved_pending|done].
  - eapply (bo_replaced _ _ ea next w row n i); [done|by eapply moved_pending| |done..].
    destruct Hm as [e' _ [k Hk]|j m' v Hv Hr].
    + destruct H3 as (r & Hr & ?). exists r. split; [|done]. rewrite Hk. by apply lookup_app_l_Some.
    + destruct H3 as (r & Hi & Hkey & ?). exists r. split; [|done]. cbn [delivered Engine.with_state _state with_row cs_witnesses].
      rewrite list_lookup_insert_ne; [done|]. intros ->. destruct Hr as (r' & Hr' & Hkey' & _). assert (r' = r) as -> by congruence.
      apply (Hl _ H5). unfold witness_lock in *. replace (key_columns w) with (key_columns v); [done|].
      unfold key_columns. rewrite Hkey in Hkey'. by injection Hkey' as -> ->.
  - apply bo_failed.
Qed.

(** ** The phases of a call *)
Definition attempt (m : mutation) : client (option AppendResult) := begin_with StartTransaction (mutation_sql true log_id m).

Inductive phase (e : Engine) (m : mutation) : connection -> client (option AppendResult) -> Prop :=
| ph_ping c : in_tx c = false -> phase e m c (_ensure_connected (attempt m))
| ph_drop c : in_tx c = false -> phase e m c (drop_connection (attempt m))
| ph_reconnect c : in_tx c = false -> phase e m c (reconnect (attempt m))
| ph_begin c : in_tx c = false -> phase e m c (attempt m)
| ph_body q tx : body_ok e m q tx -> phase e m (InTx tx) (body q finish)
| ph_lost q : phase e m Lost (body q finish)
| ph_rollback x c : phase e m c (_rollback x)
| ph_return r c : in_tx c = false -> phase e m c (Return r).

Lemma phase_start e m c h :
  my_log_id h = log_id -> in_tx c = false -> phase e m c (mysql_mutate h m) /\ forall a, mysql_mutate h m <> Return (Ok a).
Proof.
  intros Hl Hc. rewrite mysql_mutate_eq. unfold Mysql._transaction. rewrite Hl. destruct (my_closed h); split; try done; [by apply ph_return|by apply ph_ping].
Qed.

Lemma phase_lost e m c p : phase e m c p -> phase e m Lost p.
Proof. intros []; by constructor. Qed.

Lemma phase_moved locks e e' m c p :
  moved locks e e' -> (forall l, l ∈ held c -> l ∉ locks) -> phase e m c p -> phase e' m c p.
Proof. intros Hm Hl Hp. destruct Hp; try by constructor. apply ph_body. by eapply moved_body. Qed.

Lemma phase_returned e m c r : phase e m c (Return r) -> in_tx c = false.
Proof.
  intros Hp. remember (Return r) as p eqn:Ep. destruct Hp as [| | | |q tx Hb| | |]; try done. by destruct q as [[]|].
Qed.

Lemma fails_raise {B} c (r : result B) c' : request_fails c r c' -> exists x, r = Raise x.
Proof. intros [[n ->] _]. by eexists. Qed.

Lemma fails_out {B} c (r : result B) c' : request_fails c r c' -> in_tx c = false -> in_tx c' = false.
Proof. by intros [_ [->|[->|[_ ->]]]]. Qed.

Lemma fails_lost {B} (r : result B) c' : request_fails Lost r c' -> c' = Lost.
Proof. by intros [_ [->|[->|[? _]]]]. Qed.

(** Every answer keeps the phase and, until the commit, the tables. *)
Lemma phase_answer db e m c p p' others db' c' :
  represents log_id db e -> wf e -> phase e m c p -> client_answers db others c p p' db' c' ->
  db' = db /\ phase e m c' p' /\ forall a, p' <> Return (Ok a).
Proof.
  intros Hrep Hwf Hp Ha. destruct Hp as [c Hc|c Hc|c Hc|c Hc|q tx Hb|q|x c|r c Hc]; [..|done].
  - destruct Ha as (_ & r & (-> & [(_ & -> & ->)|[Hf Hc']]) & ->); (split; [done|]).
    + split; [by apply ph_begin|done].
    + apply fails_raise in Hf as [x ->]. split; [|done]. apply ph_drop. by destruct Hc' as [->| ->].
  - destruct Ha as (_ & r & (-> & -> & _) & ->). split_and!; [done|by apply ph_reconnect|done].
  - destruct Ha as (_ & r & (-> & [[-> ->]|[Hf ->]]) & ->); [split_and!; [done|by apply ph_begin|done]|].
    apply fails_raise in Hf as [x ->]. split_and!; [done|by apply ph_return|done].
  - destruct Ha as (_ & r & [[Hf ->]|(-> & _ & -> & ->)] & ->).
    + pose proof (fails_out _ _ _ Hf Hc). apply fails_raise in Hf as [x ->]. split_and!; [done|by apply ph_return|done].
    + split; [by destruct c|]. split; [apply ph_body, bo_start|]. by destruct (mutation_sql true log_id m) as [[]|].
  - destruct q as [[a|x]|B s k]; cbn [body finish] in *.
    + by destruct Ha.
    + destruct Ha as (_ & r & (-> & Hr) & ->). split_and!; [done|apply ph_return|done].
      by destruct Hr as [(_ & _ & ->)|[_ ?]].
    + destruct Ha as (_ & r & [[Hf ->]|(tx' & Hq & -> & ->)] & ->).
      * apply fails_raise in Hf as [x ->]. split_and!; [done|apply ph_rollback|done].
      * split; [done|]. destruct r as [b|x]; [|split; [apply ph_rollback|done]].
        pose proof (body_step db e m _ tx others Hrep Hwf Hb) as Hs. cbn in Hs. specialize (Hs b tx' Hq).
        split; [by apply ph_body|]. by destruct (k b) as [[]|].
  - destruct q as [[a|x]|B s k]; cbn [body finish] in *.
    + by destruct Ha.
    + destruct Ha as (_ & r & (-> & Hr) & ->). split_and!; [done|apply ph_return|done].
      by destruct Hr as [(_ & ? & _)|[_ ?]].
    + destruct Ha as (_ & r & [[Hf ->]|[]] & ->). apply fails_raise in Hf as [x ->]. split_and!; [done|apply ph_rollback|done].
  - destruct Ha as (_ & r & (-> & Hr) & ->). split_and!; [done|apply ph_return|done].
    by destruct Hr as [(_ & _ & ->)|[_ ?]].
Qed.

(** A commit ends the call; it is a mutation of the engine, or nothing. *)
Lemma phase_commit db e m c p p' c' applied told :
  represents log_id db e -> wf e -> fits e -> small m -> phase e m c p -> client_commits c p p' c' applied told ->
  exists r, p' = Return r /\ in_tx c' = false /\
    ((applied = false /\ forall a, r <> Ok a) \/
     exists tx a e', c = InTx tx /\ applied = true /\ reply_of p = Some a /\ run_engine e m = Ok (a, e') /\
       represents log_id (put (tx_writes tx) db) e' /\ moved (tx_locks tx) e e' /\ forall a', r = Ok a' -> a' = a /\ told = true).
Proof.
  intros Hrep Hwf Hfits Hsmall Hp Ha.
  destruct Hp as [c Hc|c Hc|c Hc|c Hc|q tx Hb|q|x c|r c Hc]; try done; destruct q as [[a|x]|B s k]; try done;
    cbn [body finish commit_with client_commits] in Ha; destruct Ha as (r & Hr & -> & ->).
  - destruct (body_commit db e m a tx) as (e' & H1 & H2 & H3); [done..|].
    assert (in_tx c' = false) as Hc' by (by destruct Hr as [(_ & _ & _ & ->)|(_ & ? & _)]).
    destruct r as [[]|x]; (eexists; split; [done|]; split; [done|]).
    + right. destruct Hr as [(_ & _ & -> & _)|[Hf _]]; [|by apply fails_raise in Hf as [? ?]].
      exists tx, a, e'. split_and!; try done. by intros a' [= ->].
    + destruct applied; [right|by left]. exists tx, a, e'. by split_and!.
  - destruct Hr as [(_ & ? & _)|(Hf & Hc' & Happ)]; [done|]. apply fails_raise in Hf as [x ->].
    eexists. split; [done|]. split; [done|]. left. destruct applied; [by destruct Happ|done].
Qed.

(** ** The calls on other logs *)
Definition write_about (w : write) : Prop :=
  match w with
  | PutEntry row => er_log_id row = log_id
  | PutNode row => nr_log_id row = log_id
  | PutWitness row | ReplaceWitness row => tr_log_id row = log_id
  | SetState id _ => id = log_id
  end.

Lemma writes_about {B} (s : stmt B) b : about log_id s -> Forall write_about (writes_of s b).
Proof. intros Hs. destruct s; cbn in *; try (by repeat constructor). by destruct (b =? 1); repeat constructor. Qed.

Lemma put_others ws db : Forall write_about ws -> others_kept log_id db (put ws db).
Proof.
  intros Hw. revert db. induction Hw as [|w ws Hw _ IH]; intros db; [reflexivity|]. cbn [put fold_left].
  etransitivity; [|apply IH]. split; [by destruct w|]. intros other Ho. destruct w as [row|row|row|row|id state]; cbn in Hw; split; try done.
  - unfold entries_of. cbn. rewrite filter_snoc_other; [done|congruence].
  - unfold nodes_of. cbn. rewrite filter_snoc_other; [done|congruence].
  - unfold witnesses_of. cbn. rewrite filter_snoc_other; [done|congruence].
  - unfold witnesses_of. cbn. f_equal. unfold update_where.
    assert (forall r, same_witness_key row r = true -> tr_log_id r = log_id) as Hm by (intros r Hr; unfold same_witness_key in Hr; zbool; congruence).
    rewrite filter_map_same.
    + rewrite <- map_id. apply map_ext_in. intros r [Hr _]%list_elem_of_In%list_elem_of_filter.
      destruct (same_witness_key row r) eqn:E; [|done]. apply Hm in E. congruence.
    + intros r. destruct (same_witness_key row r) eqn:E; [|done]. apply Hm in E. by rewrite E, Hw.
  - apply state_of_map; intros r; cbn; [by destruct (bool_decide _)|]. intros Hr. by rewrite bool_decide_false by congruence.
Qed.

Definition request_about {B} (q : request B) : Prop := match q with Query s => about log_id s | _ => True end.
Fixpoint client_about {A} (p : client A) : Prop :=
  match p with Return _ => True | Ask q k => request_about q /\ forall a, client_about (k a) end.
Definition connection_about (c : connection) : Prop := match c with InTx tx => Forall write_about (tx_writes tx) | _ => True end.

Lemma body_about {A} (p : sql A) k : scoped log_id p -> (forall r, client_about (k r)) -> client_about (body p k : client A).
Proof.
  intros Hp Hk. induction p as [r|B s f IH]; [apply Hk|]. destruct Hp as [Hs Hf]. split; [done|]. intros [b|x]; [by apply IH|apply Hk].
Qed.

Lemma mutate_about h m : my_log_id h = log_id -> client_about (mysql_mutate h m).
Proof.
  intros Hl. rewrite mysql_mutate_eq. unfold Mysql._transaction. rewrite Hl. destruct (my_closed h); [done|].
  assert (client_about (begin_with StartTransaction (mutation_sql true log_id m))) as Hb.
  { split; [done|]. intros [|]; [|done]. apply body_about; [|intros [|]; (split; [done|]); by intros [|]].
    apply mutation_scoped. }
  split; [done|]. intros [|]; [done|]. split; [done|]. intros _. split; [done|]. by intros [|].
Qed.
End log.

Lemma answers_about log_id db others {B} (q : request B) c r db' c' :
  request_about log_id q -> connection_about log_id c -> answers db others q c r db' c' -> is_commit q = false ->
  others_kept log_id db db' /\ connection_about log_id c'.
Proof.
  intros Hq Hc Ha Hn.
  assert (forall C (x : result C), request_fails c x c' -> connection_about log_id c') as Hfail by (by intros C x [_ [->|[->|[_ ->]]]]).
  destruct q as [| | |b|B s| |]; cbn [answers is_commit] in *; try done.
  - destruct Ha as (-> & Ha). split; [reflexivity|]. destruct Ha as [(_ & _ & ->)|[Hf _]]; [done|by eapply Hfail].
  - destruct Ha as (-> & Ha). split; [reflexivity|]. by destruct Ha as [[_ ->]|[_ ->]].
  - destruct Ha as (-> & -> & _). by split.
  - destruct Ha as [[Hf ->]|(_ & _ & -> & ->)]; [split; [reflexivity|by eapply Hfail]|]. split; [|constructor].
    rewrite committed_by_eq. destruct c as [| |tx]; [reflexivity..|]. by apply put_others.
  - destruct Ha as [[Hf ->]|Ha]; [split; [reflexivity|by eapply Hfail]|]. destruct c as [| |tx]; [done| |].
    + destruct Ha as [Ha ->]. apply query_auto_eq in Ha as [_ Ha]. destruct (exec s db) as [[b d]|x] eqn:E; destruct Ha as [_ ->]; [|by split].
      split; [by eapply exec_scoped|done].
    + destruct Ha as (tx' & Ha & -> & ->). split; [reflexivity|]. apply query_tx_eq in Ha. destruct (consistent s); [by destruct Ha as [_ ->]|].
      destruct Ha as [_ Ha]. destruct (exec s (put (tx_writes tx) db)) as [[b d]|x]; destruct Ha as [_ ->]; [|done].
      cbn. apply Forall_app. split; [done|]. by apply writes_about.
  - destruct Ha as (-> & Ha). split; [reflexivity|]. destruct Ha as [(_ & _ & ->)|[Hf _]]; [done|by eapply Hfail].
Qed.

Lemma client_answers_about log_id db others c {A} (p p' : client A) db' c' :
  client_about log_id p -> connection_about log_id c -> client_answers db others c p p' db' c' ->
  others_kept log_id db db' /\ connection_about log_id c' /\ client_about log_id p'.
Proof.
  intros Hp Hc Ha. destruct p as [|B q k]; [done|]. destruct Ha as (Hn & r & Ha & ->). destruct Hp as [Hq Hk].
  destruct (answers_about log_id db others q c r db' c' Hq Hc Ha Hn). by split_and!.
Qed.

Lemma client_commits_about log_id c {A} (p p' : client A) c' applied told :
  client_about log_id p -> client_commits c p p' c' applied told -> in_tx c' = false /\ client_about log_id p'.
Proof.
  intros Hp Ha. destruct p as [|B q k]; [done|]. destruct q; try done. destruct Ha as (r & Hr & -> & _). destruct Hp as [_ Hk].
  split; [|done]. by destruct Hr as [(_ & _ & _ & ->)|(_ & ? & _)].
Qed.

Lemma locks_but_elem i j h hs l : i <> j -> hs !! j = Some h -> l ∈ held (h_connection h) -> l ∈ locks_but i hs.
Proof.
  intros Hne Hj Hl. unfold locks_but. apply list_elem_of_In, in_concat. exists (held (h_connection h)).
  split; [|by apply list_elem_of_In]. apply list_elem_of_In, list_elem_of_fmap. exists h. split; [done|].
  apply elem_of_app. destruct (decide (j < i)%nat).
  - left. apply elem_of_take. by exists j.
  - right. apply list_elem_of_lookup. exists (j - S i)%nat. rewrite lookup_drop. by replace (S i + (j - S i))%nat with j by lia.
Qed.

Lemma answers_locks db others c {A} (p p' : client A) db' c' l :
  client_answers db others c p p' db' c' -> l ∈ held c' -> l ∈ held c \/ l ∉ others.
Proof.
  intros Ha Hl. destruct p as [|B q k]; [done|]. destruct Ha as (_ & r & Ha & _).
  assert (forall C (x : result C), request_fails c x c' -> l ∈ held c) as Hfail.
  { intros C x [_ [->|[->|[_ ->]]]]; [done|by apply elem_of_nil in Hl..]. }
  destruct q as [| | |b|B s| |]; cbn [answers] in Ha.
  - destruct Ha as (_ & [(_ & _ & ->)|[Hf _]]); [by left|left; by eapply Hfail].
  - destruct Ha as (_ & [[_ ->]|[_ ->]]); by apply elem_of_nil in Hl.
  - destruct Ha as (_ & -> & _). by apply elem_of_nil in Hl.
  - destruct Ha as [[Hf _]|(_ & _ & _ & ->)]; [left; by eapply Hfail|]. by apply elem_of_nil in Hl.
  - destruct Ha as [[Hf _]|Ha]; [left; by eapply Hfail|]. destruct c as [| |tx]; [done|destruct Ha as [_ ->]; by apply elem_of_nil in Hl|].
    destruct Ha as (tx' & Ha & _ & ->). cbn [held] in *. apply query_tx_eq in Ha. destruct (consistent s).
    + destruct Ha as [_ ->]. by left.
    + destruct Ha as [Hn Ha]. destruct (exec s (put (tx_writes tx) db)) as [[b d]|x]; destruct Ha as [_ ->]; [|by left].
      cbn in Hl. apply elem_of_app in Hl as [?|?]; [by left|right; by apply Hn].
  - destruct Ha as (applied & [(_ & _ & _ & ->)|(Hf & _)] & _); [by apply elem_of_nil in Hl|left; by eapply Hfail].
  - destruct Ha as (_ & [(_ & _ & ->)|[Hf _]]); [by apply elem_of_nil in Hl|left; by eapply Hfail].
Qed.

(** ** All handles *)
Definition event_handle (ev : event) : nat := match ev with Called i _ _ | Stored i _ _ _ _ | Returned i _ _ _ => i end.

(** The last thing that happened to a handle. *)
Definition last_of (i : nat) (tr : list event) : option event := last (filter (fun ev => event_handle ev = i) tr).

(** The mutations that took effect on a log, with the engine's replies. *)
Definition stored_on (log_id : pystr) (tr : list event) : list (mutation * option AppendResult) :=
  omap (fun ev => match ev with Stored _ id m a _ => if bool_decide (id = log_id) then Some (m, a) else None | _ => None end) tr.

(** What came before an event of a log: its call took effect once, after it
    was made and before it returned. *)
Definition explained (log_id : pystr) (tr : list event) (ev : event) : Prop :=
  match ev with
  | Stored i id m _ _ => id = log_id -> last_of i tr = Some (Called i id m)
  | Returned i id m (Ok a) => id = log_id -> last_of i tr = Some (Stored i id m a true)
  | _ => True
  end.

Definition small_event (ev : event) : Prop := match ev with Called _ _ m => small m | _ => True end.

Lemma last_of_snoc i tr ev : last_of i (tr ++ [ev]) = if decide (event_handle ev = i) then Some ev else last_of i tr.
Proof.
  unfold last_of. rewrite filter_app, filter_cons, filter_nil. case_decide; [by rewrite last_snoc|by rewrite app_nil_r].
Qed.

Lemma accepts_app e l e' l' e'' : accepts e l e' -> accepts e' l' e'' -> accepts e (l ++ l') e''.
Proof.
  revert e. induction l as [|[m' a'] l IH]; intros e; cbn [accepts app]; [by intros ->|].
  intros (n & H1 & H2) H. exists n. split; [done|by apply IH].
Qed.

Lemma explained_snoc log_id tr ev :
  (forall tr1 x tr2, tr = tr1 ++ x :: tr2 -> explained log_id tr1 x) -> explained log_id tr ev ->
  forall tr1 x tr2, tr ++ [ev] = tr1 ++ x :: tr2 -> explained log_id tr1 x.
Proof.
  intros Hall Hev tr1 x tr2. destruct tr2 as [|y tr2 _] using rev_ind.
  - by intros [-> [= ->]]%app_inj_tail.
  - intros E. rewrite app_comm_cons, app_assoc in E. apply app_inj_tail in E as [-> _]. by eapply Hall.
Qed.

(** What a handle of the log was told so far. *)
Definition informed (log_id : pystr) (tr : list event) (i : nat) (m : mutation) (p : client (option AppendResult)) : Prop :=
  match p with
  | Return (Ok a) => last_of i tr = Some (Stored i log_id m a true)
  | Return (Raise _) => True
  | Ask _ _ => last_of i tr = Some (Called i log_id m)
  end.

Record handle_ok (log_id : pystr) (e : Engine) (tr : list event) (i : nat) (h : Handle) : Prop := {
  ho_about : connection_about (my_log_id (h_store h)) (h_connection h);
  ho_call : match h_call h with
            | None => my_log_id (h_store h) = log_id -> in_tx (h_connection h) = false
            | Some (m, p) => small m /\ client_about (my_log_id (h_store h)) p /\
                (my_log_id (h_store h) = log_id -> phase log_id e m (h_connection h) p /\ informed log_id tr i m p)
            end
}.

Record invariant (log_id : pystr) (sys : System) (tr : list event) (e : Engine) : Prop := {
  in_represents : represents log_id (committed sys) e;
  in_wf : wf e;
  in_fits : fits e;
  in_handles : forall i h, handles sys !! i = Some h -> handle_ok log_id e tr i h;
  in_locks : forall i j h k l, i <> j -> handles sys !! i = Some h -> handles sys !! j = Some k ->
    l ∈ held (h_connection h) -> l ∉ held (h_connection k)
}.

Section step.
Context (log_id : pystr) (sys : System) (tr : list event) (e : Engine) (Hinv : invariant log_id sys tr e).
Context (i : nat) (h : Handle) (Hi : handles sys !! i = Some h).

(** Handle [i] goes on; the others are left alone. *)
Lemma invariant_step db h' ev e' :
  my_log_id (h_store h') = my_log_id (h_store h) ->
  represents log_id db e' -> wf e' -> fits e' -> (e' = e \/ moved log_id (held (h_connection h)) e e') ->
  (forall x, x ∈ ev -> event_handle x = i) -> handle_ok log_id e' (tr ++ ev) i h' ->
  (forall l, l ∈ held (h_connection h') -> l ∈ held (h_connection h) \/ l ∉ locks_but i (handles sys)) ->
  invariant log_id {| committed := db; handles := <[i := h']> (handles sys) |} (tr ++ ev) e'.
Proof.
  intros Hlog Hrep Hwf Hfits Hm Hev Hh Hl. destruct Hinv as [_ _ _ Hhandles Hlocks]. split; cbn [committed handles]; [done..| |].
  - intros j k Hj. apply list_lookup_insert_Some in Hj as [(<- & <- & _)|[Hne Hj]]; [done|].
    destruct (Hhandles j k Hj) as [H1 H2]. split; [done|]. destruct (h_call k) as [[m p]|]; [|done].
    destruct H2 as (H2 & H3 & H4). split_and!; [done..|]. intros Hk. destruct (H4 Hk) as [Hp Hin]. split.
    + destruct Hm as [->|Hm]; [done|]. eapply phase_moved; [done| |done]. intros l Hlk. by eapply (Hlocks j i).
    + assert (last_of j (tr ++ ev) = last_of j tr) as E.
      { unfold last_of. rewrite filter_app, (filter_none _ ev), app_nil_r; [done|]. intros x Hx Ex. apply Hne. rewrite <- Ex. symmetry. by apply Hev. }
      unfold informed in *. destruct p as [[a|x]|]; by rewrite ?E.
  - assert (forall j k l, i <> j -> handles sys !! j = Some k -> l ∈ held (h_connection h') -> l ∈ held (h_connection k) -> False) as Hcross.
    { intros j k l Hne Hj H1 H2. destruct (Hl l H1) as [H|H]; [by eapply (Hlocks i j)|]. by eapply H, locks_but_elem. }
    intros j1 j2 k1 k2 l Hne H1 H2 Hl1 Hl2.
    apply list_lookup_insert_Some in H1 as [(<- & <- & _)|[Hn1 H1]], H2 as [(<- & <- & _)|[Hn2 H2]];
      [done|by eapply Hcross|by eapply Hcross|by eapply (Hlocks j1 j2)].
Qed.

Lemma no_locks {c} : in_tx c = false -> forall l, l ∈ held c -> l ∈ held (h_connection h) \/ l ∉ locks_but i (handles sys).
Proof. intros Hc l Hl. destruct c; [by apply elem_of_nil in Hl..|done]. Qed.

Lemma out_about id c : in_tx c = false -> connection_about id c.
Proof. by destruct c. Qed.

Lemma nobody (x : event) : x ∈ [] -> event_handle x = i.
Proof. by intros ?%elem_of_nil. Qed.
Lemma own ev : event_handle ev = i -> forall x, x ∈ [ev] -> event_handle x = i.
Proof. by intros Hx x ->%list_elem_of_singleton. Qed.

(** A handle at work on a call, of the log or of another one. *)
Definition call_ok (m : mutation) (p : client (option AppendResult)) : Prop :=
  small m /\ client_about (my_log_id (h_store h)) p /\
  (my_log_id (h_store h) = log_id -> phase log_id e m (h_connection h) p /\ informed log_id tr i m p).

Lemma call_invariant m :
  small m -> (my_log_id (h_store h) = log_id -> in_tx (h_connection h) = false) -> connection_about (my_log_id (h_store h)) (h_connection h) ->
  invariant log_id {| committed := committed sys; handles := <[i := busy h (h_connection h) m (mysql_mutate (h_store h) m)]> (handles sys) |}
    (tr ++ [Called i (my_log_id (h_store h)) m]) e.
Proof.
  intros Hsmall Hout Habout. destruct Hinv as [Hrep Hwf Hfits _ _].
  apply invariant_step; try done; [by left|by apply own| |by left].
  split; [done|]. cbn [busy h_call h_store h_connection]. split; [exact Hsmall|]. split; [by apply mutate_about|]. intros Hl.
  destruct (phase_start log_id e m (h_connection h) (h_store h) Hl (Hout Hl)) as [Hp Hne]. split; [done|].
  unfold informed. destruct (mysql_mutate _ _) as [[a|x]|]; [by destruct (Hne a)|done|]. by rewrite last_of_snoc, decide_True, Hl.
Qed.

Lemma answer_invariant m p p' db c :
  call_ok m p -> connection_about (my_log_id (h_store h)) (h_connection h) ->
  client_answers (committed sys) (locks_but i (handles sys)) (h_connection h) p p' db c ->
  invariant log_id {| committed := db; handles := <[i := busy h c m p']> (handles sys) |} (tr ++ []) e.
Proof.
  intros (Hm & Hab & Hok) Habout Ha. destruct Hinv as [Hrep Hwf Hfits _ _].
  destruct (client_answers_about _ _ _ _ _ _ _ _ Hab Habout Ha) as (Ho & Hc & Hab').
  assert (represents log_id db e /\ (my_log_id (h_store h) = log_id -> phase log_id e m c p' /\ informed log_id tr i m p')) as [Hrep' Hok'].
  { destruct (decide (my_log_id (h_store h) = log_id)) as [Hl|Hl]; [|split; [by eapply represents_frame|done]].
    destruct (Hok Hl) as [Hp Hin]. destruct (phase_answer _ _ _ _ _ _ _ _ _ _ Hrep Hwf Hp Ha) as (-> & Hp' & Hne).
    split; [done|]. intros _. split; [done|]. destruct p as [|B q k]; [done|]. destruct p' as [[a|x]|]; [by destruct (Hne a)|done|done]. }
  apply invariant_step; try done; [by left|apply nobody| |].
  - rewrite app_nil_r. split; cbn [busy h_call h_store h_connection]; [done|]. by split_and!.
  - intros l. cbn. by apply (answers_locks _ _ _ _ _ _ _ _ Ha).
Qed.

Lemma return_invariant m r :
  call_ok m (Return r) -> connection_about (my_log_id (h_store h)) (h_connection h) ->
  invariant log_id {| committed := committed sys; handles := <[i := free h]> (handles sys) |} (tr ++ [Returned i (my_log_id (h_store h)) m r]) e /\
  explained log_id tr (Returned i (my_log_id (h_store h)) m r).
Proof.
  intros (Hm & Hab & Hok) Habout. destruct Hinv as [Hrep Hwf Hfits _ _]. split.
  - apply invariant_step; try done; [by left|by apply own| |by left].
    split; [done|]. cbn [free h_call h_store h_connection]. intros Hl. destruct (Hok Hl) as [Hp _]. by eapply phase_returned.
  - destruct r as [a|x]; [|done]. cbn. intros Hl. destruct (Hok Hl) as [_ Hin]. cbn in Hin. by rewrite Hl.
Qed.

Lemma lose_invariant :
  invariant log_id {| committed := committed sys; handles := <[i := lost h]> (handles sys) |} (tr ++ []) e.
Proof.
  destruct Hinv as [Hrep Hwf Hfits Hhandles _]. destruct (Hhandles i h Hi) as [Habout Hok].
  apply invariant_step; try done; [by left|apply nobody| |by intros l ?%elem_of_nil].
  rewrite app_nil_r. split; cbn [lost h_call h_store h_connection]; [done|]. destruct (h_call h) as [[m p]|]; [|done].
  destruct Hok as (Hm & Hab & Hok). split_and!; [done..|]. intros Hl. destruct (Hok Hl) as [Hp ?]. split; [by eapply phase_lost|done].
Qed.

(** A commit of another log. *)
Lemma other_commit_invariant m p p' c applied told :
  my_log_id (h_store h) <> log_id -> call_ok m p -> connection_about (my_log_id (h_store h)) (h_connection h) ->
  client_commits (h_connection h) p p' c applied told ->
  invariant log_id {| committed := committed_by (committed sys) (h_connection h) applied; handles := <[i := busy h c m p']> (handles sys) |}
    (tr ++ stored_event i h m p applied told) e /\ stored_on log_id (stored_event i h m p applied told) = [].
Proof.
  intros Hl (Hm & Hab & _) Habout Ha. destruct Hinv as [Hrep Hwf Hfits _ _]. destruct (client_commits_about _ _ _ _ _ _ _ Hab Ha) as [Hc Hab'].
  split.
  - apply invariant_step; try done; [|by left| | |by apply no_locks].
    + eapply represents_frame; [|done..]. rewrite committed_by_eq. destruct (h_connection h) as [| |tx]; [done..|]. destruct applied; [|done]. by apply put_others.
    + unfold stored_event. destruct applied, (reply_of p); try exact nobody. by apply own.
    + split; cbn [busy h_call h_store h_connection]; [by apply out_about|]. by split_and!.
  - unfold stored_event. destruct applied, (reply_of p); try done. cbn. by rewrite bool_decide_false.
Qed.

(** A commit of the log. *)
Lemma commit_invariant m p p' c applied told :
  my_log_id (h_store h) = log_id -> call_ok m p -> client_commits (h_connection h) p p' c applied told ->
  exists e', invariant log_id {| committed := committed_by (committed sys) (h_connection h) applied; handles := <[i := busy h c m p']> (handles sys) |}
    (tr ++ stored_event i h m p applied told) e' /\ accepts e (stored_on log_id (stored_event i h m p applied told)) e'.
Proof.
  intros Hl (Hm & Hab & Hok) Ha. destruct Hinv as [Hrep Hwf Hfits _ _]. destruct (client_commits_about _ _ _ _ _ _ _ Hab Ha) as [Hc Hab'].
  destruct (Hok Hl) as [Hp Hin]. destruct (phase_commit _ _ _ _ _ _ _ _ _ _ Hrep Hwf Hfits Hm Hp Ha) as (r & -> & _ & Hr).
  destruct Hr as [[-> Hne]|(tx & a & e' & Htx & -> & Hreply & Hrun & Hrep' & Hmoved & Htold)].
  - exists e. change (stored_event i h m p false told) with (@nil event). split; [|done].
    apply invariant_step; try done; [by destruct (h_connection h)|by left|apply nobody| |by apply no_locks].
    split; cbn [busy h_call h_store h_connection]; [by apply out_about|]. split_and!; [done..|]. intros _. split; [by apply ph_return|].
    destruct r as [a|x]; [by destruct (Hne a)|done].
  - exists e'. unfold stored_event. rewrite Hreply, Hl, committed_by_eq, Htx. cbn [stored_on omap].
    split; [|cbn; rewrite bool_decide_true by done; by exists e'].
    apply invariant_step; try done; [by destruct (step_wf _ _ Hwf (run_engine_step _ _ _ _ Hrun))|by eapply run_engine_fits|
      right; by rewrite Htx|by apply own| |by apply no_locks].
    split; cbn [busy h_call h_store h_connection]; [by apply out_about|]. split_and!; [done..|]. intros _. split; [by apply ph_return|].
    destruct r as [a'|x]; [|done]. destruct (Htold a' eq_refl) as [-> ->]. cbn. by rewrite last_of_snoc, decide_True.
Qed.

Lemma stored_explained m p p' c applied told ev :
  call_ok m p -> client_commits (h_connection h) p p' c applied told -> ev ∈ stored_event i h m p applied told -> explained log_id tr ev.
Proof.
  intros (_ & _ & Hok) Ha. unfold stored_event. destruct applied, (reply_of p); try by intros ?%elem_of_nil.
  intros ->%list_elem_of_singleton. cbn. intros Hl. destruct (Hok Hl) as [_ Hin]. destruct p as [|B q k]; [done|]. rewrite Hl. exact Hin.
Qed.
End step.

(** One step: the engine accepts what took effect on its log. *)
Lemma acts_invariant log_id sys tr e ev sys' :
  invariant log_id sys tr e -> acts sys ev sys' -> Forall small_event ev ->
  exists e', invariant log_id sys' (tr ++ ev) e' /\ accepts e (stored_on log_id ev) e' /\
    (length ev <= 1)%nat /\ forall x, x ∈ ev -> explained log_id tr x.
Proof.
  intros Hinv Hacts Hsmall. pose proof (in_handles _ _ _ _ Hinv) as Hhandles.
  destruct Hacts as [i h m Hi Hcall|i h m p p' db c Hi Hcall Ha|i h m p p' c applied told Hi Hcall Ha|i h m r Hi Hcall|i h Hi];
    destruct (Hhandles i h Hi) as [Habout Hok]; rewrite ?Hcall in Hok.
  - exists e. apply Forall_cons in Hsmall as [Hsmall _]. split; [by apply call_invariant|]. split_and!; [done..|].
    by intros x ->%list_elem_of_singleton.
  - exists e. split; [by eapply answer_invariant|]. split_and!; [done|cbn; lia|by intros x ?%elem_of_nil].
  - assert (length (stored_event i h m p applied told) <= 1)%nat as Hlen by (unfold stored_event; destruct applied, (reply_of p); cbn; lia).
    assert (forall x, x ∈ stored_event i h m p applied told -> explained log_id tr x) as Hx by (intros x; by eapply stored_explained).
    destruct (decide (my_log_id (h_store h) = log_id)) as [Hl|Hl].
    + edestruct commit_invariant as (e' & H1 & H2); [done..|]. by exists e'.
    + exists e. edestruct other_commit_invariant as [H1 H2]; [done..|]. rewrite H2. by split_and!.
  - exists e. edestruct return_invariant as [H1 H2]; [done..|]. split; [exact H1|]. split_and!; [done|done|].
    by intros x ->%list_elem_of_singleton.
  - exists e. split; [by apply lose_invariant|]. split_and!; [done|cbn; lia|by intros x ?%elem_of_nil].
Qed.

End collated.

(** [C17] The MySQL backend is linearizable per log, in a database with a
    binary collation (the tables are declared without one, and identifiers
    have to be told apart). Any number of handles, on any logs of one database,
    run their calls at once, statement by statement; requests fail, time out, deadlock and lose their connections at any point,
    a commit among them whose client is not told. Then the mutations of a log
    that took effect are, in the order of their commits, a run of the engine
    its tables represented, with the engine's replies; the committed tables
    represent the engine the run ends in, which extends the first. Each took
    effect between its call and its return, at most once, and a call that
    returned a reply took effect with that reply. *)
Theorem mysql_linearizable {CO : Collation} {BC : BinaryCollation CO} (log_id : pystr) (sys sys' : System) (engine : Engine) (tr : list event) :
  represents log_id (committed sys) engine -> wf engine -> fits engine ->
  (forall h, h ∈ handles sys -> h_call h = None /\ in_tx (h_connection h) = false) ->
  history sys tr sys' -> Forall small_event tr ->
  (exists engine', accepts engine (stored_on log_id tr) engine' /\ represents log_id (committed sys') engine' /\
    wf engine' /\ extends engine engine') /\
  forall before ev after, tr = before ++ ev :: after -> explained log_id before ev.
Proof.
  intros Hrep Hwf Hfits Hfree Hh Hsmall. assert (exists e, invariant log_id sys' tr e /\ accepts engine (stored_on log_id tr) e /\
    forall before ev after, tr = before ++ ev :: after -> explained log_id before ev) as (e & Hi & Ha & Hx).
  2: { split; [|done]. exists e. destruct (steps_wf _ _ Hwf (accepts_steps _ _ _ Ha)). split_and!; try done. apply Hi. }
  induction Hh as [|tr ev sys1 sys2 Hh IH Hacts].
  - exists engine. split_and!; [|done|by intros []]. split; [done..| |].
    + intros i h Hi. destruct (Hfree h) as [Hc Hx]; [by eapply list_elem_of_lookup_2|].
      split; [by destruct (h_connection h)|by rewrite Hc].
    + intros i j h k l _ Hi _ Hl. destruct (Hfree h) as [_ Hx]; [by eapply list_elem_of_lookup_2|].
      destruct (h_connection h); [by apply elem_of_nil in Hl..|done].
  - apply Forall_app in Hsmall as [Hs1 Hs2]. destruct (IH Hs1) as (e & Hi & Ha & Hx).
    destruct (acts_invariant _ _ _ _ _ _ Hi Hacts Hs2) as (e' & Hi' & Ha' & Hlen & Hx'). exists e'. split; [done|]. split.
    + unfold stored_on in *. rewrite omap_app. by eapply accepts_app.
    + destruct ev as [|x [|]]; [by rewrite app_nil_r| |cbn in Hlen; lia]. apply explained_snoc; [done|]. apply Hx'. by left.
Qed.
