(* ===== verification/MysqlExact.v ===== *)
(** * The MySQL backend: the executable server

    The executable server is one of the servers of the model, so its schedules
    are histories; alone on it, without failures, a handle is the engine. *)
From S2P Require Import Prelude Bytes Text Py Cll Json Wire Engine EngineValid EngineProps EngineCommit EngineSteps Backend Sql SqlRows SqlProps SqlCommit Sqlite SqliteProps SqliteOpen Mysql MysqlProps MysqlRuns.
Open Scope Z_scope.

Section collated.
Context {CO : Collation}.

(** ** The executable server is a server *)
Lemma fails_at {B} c n : request_fails c (Raise (MySQLError n) : result B) c.
Proof. split; [by exists n|by left]. Qed.

Lemma waits_false others {B} (s : stmt B) : waits others s = false -> forall l, l ∈ locks_of s -> taken others l = false.
Proof.
  unfold waits. intros Hw l Hl. apply not_true_iff_false. intros Ht. apply not_true_iff_false in Hw. apply Hw, existsb_exists.
  exists l. by split; [apply list_elem_of_In|].
Qed.

Lemma serve_answers db others c {B} (q : request B) r db' c' :
  serve db others c q = (r, db', c') -> answers db others q c r db' c'.
Proof.
  destruct q as [| | |b|B s| |]; cbn [serve answers].
  - destruct c; intros [= <- <- <-]; split; try done; [right|left..]; try done. split; [apply fails_at|by left].
  - intros [= <- <- <-]. split; [done|by left].
  - destruct c; intros [= <- <- <-]; split_and!; try done; [right; apply fails_at|by left..].
  - destruct c; intros [= <- <- <-]; [left; split; [apply fails_at|done]|by right..].
  - destruct c as [| |tx]; cbn [serve_query].
    + intros [= <- <- <-]. left. split; [apply fails_at|done].
    + destruct (waits others s) eqn:Ew; [intros [= <- <- <-]; left; split; [apply fails_at|done]|]. pose proof (waits_false _ _ Ew).
      unfold query_auto. destruct (Collated.exec s db) as [[b d]|x]; intros [= <- <- <-]; by right.
    + unfold query_tx. destruct (consistent s) eqn:Ec; [intros [= <- <- <-]; right; eexists; by split_and!|].
      destruct (waits others s) eqn:Ew; [intros [= <- <- <-]; left; split; [apply fails_at|done]|]. pose proof (waits_false _ _ Ew).
      destruct (Collated.exec s (apply_writes (tx_writes tx) db)) as [[b d]|x]; intros [= <- <- <-]; right; eexists; by split_and!.
  - destruct c; intros [= <- <- <-]; [exists false|exists true..]; split; try done; [right|by left..].
    split; [apply fails_at|done].
  - destruct c; intros [= <- <- <-]; split; try done; [right|by left..]. split; [apply fails_at|done].
Qed.

(** A commit that is served: it takes effect unless the connection is lost. *)
Lemma serve_commit db others c r db' c' :
  serve db others c Commit = (r, db', c') ->
  let applied := match c with Lost => false | _ => true end in
  commit_answers c r applied c' /\ db' = committed_by db c applied.
Proof. destruct c; intros [= <- <- <-]; (split; [|done]); [right|by left..]. split; [apply fails_at|done]. Qed.

Lemma go_acts sys i h : handles sys !! i = Some h -> (go sys i h).1 = [] /\ (go sys i h).2 = sys \/ acts sys (go sys i h).1 (go sys i h).2.
Proof.
  intros Hi. unfold go. destruct (h_call h) as [[m [r|B q k]]|] eqn:Hc; [right; by apply acts_return| |by left].
  destruct (serve _ _ _ q) as [[r db] c] eqn:E. right. cbn [fst snd]. destruct (is_commit q) eqn:Hq.
  - destruct q; try done. apply serve_commit in E as [Ha ->]. eapply acts_commit; [done..|]. cbn. by exists r.
  - eapply acts_answer; [done..|]. split; [done|]. exists r. split; [by apply serve_answers|done].
Qed.

Lemma play_acts sys mv : (play sys mv).1 = [] /\ (play sys mv).2 = sys \/ acts sys (play sys mv).1 (play sys mv).2.
Proof.
  destruct mv as [i m|i|i]; cbn [play]; (destruct (handles sys !! i) as [h|] eqn:Hi; [|by left]).
  - destruct (h_call h) eqn:Hc; [by left|right]. by apply acts_call.
  - by apply go_acts.
  - right. by apply acts_lose.
Qed.

Lemma history_app sys tr1 sys1 tr2 sys2 : history sys tr1 sys1 -> history sys1 tr2 sys2 -> history sys (tr1 ++ tr2) sys2.
Proof.
  intros H1 H2. induction H2 as [|tr ev a b Ha IH Hb]; [by rewrite app_nil_r|]. rewrite app_assoc. by eapply history_snoc.
Qed.

Lemma plays_history sys mvs : history sys (plays sys mvs).1 (plays sys mvs).2.
Proof.
  revert sys. induction mvs as [|mv mvs IH]; intros sys; [apply history_nil|]. cbn [plays].
  pose proof (play_acts sys mv) as Hp. destruct (play sys mv) as [ev sys1]. specialize (IH sys1).
  destruct (plays sys1 mvs) as [tr sys2]. cbn [fst snd] in *. eapply history_app; [|done].
  destruct Hp as [[-> ->]|Hp]; [apply history_nil|]. change ev with ([] ++ ev). eapply history_snoc; [apply history_nil|done].
Qed.

Lemma play_small sys mv : match mv with Call _ m => small m | _ => True end -> Forall small_event (play sys mv).1.
Proof.
  intros Hm. destruct mv as [i m|i|i]; cbn [play]; (destruct (handles sys !! i) as [h|]; [|constructor]).
  - destruct (h_call h); [constructor|]. apply Forall_cons. by split; [|constructor].
  - unfold go. destruct (h_call h) as [[m [r|B q k]]|]; [by repeat constructor| |constructor].
    destruct (serve _ _ _ q) as [[r db] c]. cbn [fst]. destruct (is_commit q); [|constructor]. unfold stored_event.
    destruct (match h_connection h with Lost => false | _ => true end), (reply_of (Ask q k)); by repeat constructor.
  - constructor.
Qed.

Lemma plays_small sys mvs : Forall (fun mv => match mv with Call _ m => small m | _ => True end) mvs -> Forall small_event (plays sys mvs).1.
Proof.
  intros Hm. revert sys. induction Hm as [|mv mvs H _ IH]; intros sys; [constructor|]. cbn [plays].
  pose proof (play_small sys mv H) as Hp. destruct (play sys mv) as [ev sys1]. specialize (IH sys1).
  destruct (plays sys1 mvs) as [tr sys2]. by apply Forall_app.
Qed.

End collated.

(** ** A handle alone *)

(** Along the run, what each statement does to the tables is what it writes;
    past the last statement that matters the program raises. *)
Fixpoint replays {A} (p : sql A) (db : Database) : Prop :=
  match p with
  | Done _ => True
  | Execute s k =>
      match exec s db with
      | Ok (b, d) => (exists x, k b = Done (Raise x)) \/ d = put (writes_of s b) db /\ replays (k b) d
      | Raise _ => True
      end
  end.

Definition plain {B} (s : stmt B) : bool :=
  match s with UpdateWitness _ _ | InsertMetaOrIgnore _ _ | CreateTable _ => false | _ => true end.

Lemma exec_plain {B} (s : stmt B) db b d : plain s = true -> exec s db = Ok (b, d) -> d = put (writes_of s b) db.
Proof.
  intros Hp Hx. destruct (unit_write s) eqn:Hu; [by destruct (exec_put s db b d Hu Hx)|]. revert Hx. unfold exec.
  destruct (bool_decide _); [|done].
  destruct s as [| | |id [|]| | | | |row|row|row|id raw|id raw|row att| | ]; try done; cbn [effect]; by intros [= _ <-].
Qed.

Lemma plain_replays {A} (p : sql A) db : every (@plain) p -> replays p db.
Proof.
  revert db. induction p as [r|B s k IH]; intros db Hp; [done|]. destruct Hp as [Hs Hk]. cbn [replays].
  destruct (exec s db) as [[b d]|] eqn:E; [|done]. right. split; [by apply exec_plain|]. by apply IH.
Qed.

Lemma put_app ws ws' db : put (ws ++ ws') db = put ws' (put ws db).
Proof. apply fold_left_app. Qed.

Lemma waits_nobody {CO : Collation} {B} (s : stmt B) : waits [] s = false.
Proof. by apply existsb_false. Qed.

Section alone.
Context {CO : Collation} {BC : BinaryCollation CO}.

(** In a transaction the program runs as it does on the tables. *)
Lemma run_body {A} (p : sql A) (k : result A -> client A) db tx :
  replays p (put (tx_writes tx) db) -> default db (tx_view tx) = db ->
  match run p (put (tx_writes tx) db) with
  | Ok (a, d) => exists tx', run_client (body p k) db (InTx tx) = run_client (k (Ok a)) db (InTx tx') /\ d = put (tx_writes tx') db
  | Raise e => exists tx' e', run_client (body p k) db (InTx tx) = run_client (k (Raise e')) db (InTx tx') /\ (e' = e \/ e' = server_error e)
  end.
Proof.
  unfold run. revert tx. induction p as [[a|x]|B s f IH]; intros tx Hr Hv; [by exists tx|exists tx, x; split; [done|by left]|].
  cbn [replays] in Hr. cbn [run_sql head mjoin option_join tail body run_client].
  destruct (exec s (put (tx_writes tx) db)) as [[b d]|x] eqn:Ex.
  - assert (exists tx', serve db [] (InTx tx) (Query s) = (Ok b, db, InTx tx') /\ tx_writes tx' = tx_writes tx ++ writes_of s b /\
      default db (tx_view tx') = db) as (tx' & -> & Hw & Hv').
    { cbn [serve]. rewrite serve_query_eq. destruct (consistent s) eqn:Ec.
      - rewrite Hv. cbv zeta. rewrite Ex. eexists. split; [done|]. split; [|done]. assert (writes_of s b = []) as -> by by destruct s. by rewrite app_nil_r.
      - rewrite waits_nobody, Ex. eexists. by split_and!. }
    destruct Hr as [[x Hf]|[-> Hr]]; [rewrite Hf; exists tx', x; split; [done|by left]|].
    rewrite <- put_app, <- Hw in Hr |- *. by apply IH.
  - assert (exists tx', serve db [] (InTx tx) (Query s) = (Raise (server_error x), db, InTx tx')) as (tx' & ->).
    { cbn [serve]. rewrite serve_query_eq. destruct (consistent s) eqn:Ec; [rewrite Hv; cbv zeta; rewrite Ex; by eexists|].
      rewrite waits_nobody, Ex. by eexists. }
    exists tx', (server_error x). split; [done|by right].
Qed.

Lemma contract_classified e : is_cll_error e = true -> mysql_classified e = e /\ server_error e = e.
Proof. by destruct e. Qed.

Lemma contract_server e e' : is_cll_error e = true -> e' = e \/ e' = server_error e -> mysql_classified e' = e.
Proof. intros H [->| ->]; destruct (contract_classified e H) as [E1 E2]; by rewrite ?E2. Qed.

Lemma run_ensure {A} (k : client A) db c :
  in_tx c = false -> run_client (_ensure_connected k) db c = run_client k db Idle.
Proof. by destruct c. Qed.

Section handle.
Context (self : MysqlStore) (db : Database) (c : connection).
Context (Hopen : my_closed self = false) (Hc : in_tx c = false).

Lemma transaction_exact {A} b (p : sql A) :
  replays p db ->
  match run p db with
  | Ok (a, d) => run_client (Mysql._transaction self (Some b) p) db c = (Ok a, d, Idle)
  | Raise e => is_cll_error e = true -> run_client (Mysql._transaction self (Some b) p) db c = (Raise e, db, Idle)
  end.
Proof.
  intros Hr. unfold Mysql._transaction. rewrite Hopen, run_ensure by done. cbn [begin_with run_client serve committed_by].
  set (tx := new_tx _). pose proof (run_body p finish db tx Hr) as Hb. cbn [tx new_tx tx_writes tx_view put fold_left] in Hb.
  specialize (Hb ltac:(by destruct b)). destruct (run p db) as [[a d]|e].
  - destruct Hb as (tx' & -> & ->). cbn. by rewrite apply_writes_eq.
  - intros He. destruct Hb as (tx' & e' & -> & Hx). cbn. by rewrite (contract_server e e' He Hx).
Qed.

Lemma consistent_exec {B} (s : stmt B) b d : consistent s = true -> exec s db = Ok (b, d) -> d = db.
Proof.
  unfold exec. destruct (bool_decide _); [|done].
  destruct s as [id []| | |id [|]| | | | | | | | | | | | ]; try done; cbn [effect]; by intros _ [= _ <-].
Qed.

(** A read outside a transaction. *)
Lemma mysql_read_exact {A} (p : sql A) (r : result A) :
  every (@consistent) p -> run p db = (let! a := r in Ok (a, db)) -> contract_error r ->
  run_client (Mysql._transaction self None p) db c = (r, db, Idle).
Proof.
  intros Hp Hr He. unfold Mysql._transaction. rewrite Hopen, run_ensure by done. revert Hr. unfold run.
  induction p as [[a|x]|B s k IH]; cbn [run_sql body run_client head mjoin option_join tail classify].
  - destruct r; [by intros [= ->]|done].
  - destruct r; [done|]. intros [= ->]. by destruct (contract_classified _ He) as [-> _].
  - destruct Hp as [Hs Hk]. cbn [serve]. rewrite serve_query_eq, waits_nobody. destruct (exec s db) as [[b d]|x] eqn:E.
    + apply consistent_exec in E as ->; [|done]. by apply IH.
    + destruct r; [done|]. intros [= ->]. cbn [body run_client classify]. destruct (contract_classified _ He) as [E1 E2]. by rewrite E2, E1.
Qed.
End handle.
End alone.

(** ** The statements of the operations *)
Create HintDb each.
Ltac each :=
  repeat first
    [ progress intros
    | apply every_bind
    | match goal with |- every _ (match ?e with _ => _ end) => destruct e end
    | progress cbn [execute lift every plain consistent negb]
    | match goal with |- _ /\ _ => split | |- True => exact I | |- _ = _ => reflexivity end
    | solve [eauto with each] ].

Lemma find_entry_reads log_id value : every (@consistent) (Sql._find_entry log_id value).
Proof. unfold Sql._find_entry. each. Qed.
Lemma load_state_reads log_id : every (@consistent) (Sql.load_state log_id false).
Proof. unfold Sql.load_state, Sql.load_witnesses. each. Qed.

Lemma every_weaken (P Q : forall B, stmt B -> bool) {A} (p : sql A) :
  (forall B (s : stmt B), P B s = true -> Q B s = true) -> every P p -> every Q p.
Proof. intros H. induction p as [r|B s k IH]; [done|]. intros [Hs Hk]. split; [by apply H|]. intros b. by apply IH. Qed.

Lemma load_state_plain log_id for_update : every (@plain) (Sql.load_state log_id for_update).
Proof. unfold Sql.load_state, Sql.load_witnesses. each. Qed.
Lemma append_plain log_id input lock : every (@plain) (Sql.append log_id input lock).
Proof. unfold Sql.append, Sql.lock_log, Sql._find_entry. each. Qed.
Lemma commit_rest_plain log_id st u : every (@plain) (commit_rest log_id st u).
Proof. eapply every_weaken; [|apply commit_rest_writer]. by intros B []. Qed.
Lemma commit_cll_plain log_id es ec next for_update : every (@plain) (Sql.commit_cll log_id es ec next for_update).
Proof.
  apply every_bind; [apply load_state_plain|]. intros st. apply every_bind; [done|]. intros u. exact (commit_rest_plain log_id st u).
Qed.

(** A mutation writes what its statements do to the tables. *)
Lemma mutation_replays log_id db e m : represents log_id db e -> wf e -> replays (mutation_sql true log_id m) db.
Proof.
  intros Hrep Hwf. destruct m as [input|es ec next|ea next]; cbn [mutation_sql].
  - apply plain_replays, every_bind; [apply append_plain|done].
  - apply plain_replays, every_bind; [apply commit_cll_plain|done].
  - change (replays (mutation_sql true log_id (MWitness ea next)) db).
    destruct (witness_program log_id ea next) as [[x ->]|(id & size & k & -> & Hk)]; [done|]. cbn [replays].
    destruct (exec (SelectWitness log_id id size) db) as [[b d]|] eqn:Ex; [|done].
    assert (d = db) as -> by (rewrite exec_effect in Ex by apply Hrep; by injection Ex as _ <-).
    destruct (Hk db e b db Hrep Hwf Ex) as [Hf|(w & row & n & -> & Hp)]; [by left|right]. split; [done|]. cbn [replays].
    destruct (exec (UpdateWitness row n) db) as [[count d]|] eqn:Eu; [|done]. cbn [writes_of]. unfold update_rest.
    destruct (Z.eqb_spec count 1) as [Hc|Hc]; [right|left; by eexists]. split; [|done].
    destruct (update_counts log_id db e ea next w row n count d Hrep Hwf Hp Eu Hc) as [i Hi].
    exact (cas_update _ _ _ _ _ _ _ _ _ _ _ Hrep Hwf Hp Hi Eu).
Qed.

(** [C18] Without failures and with a binary collation the MySQL backend is
    exactly the engine: on tables that represent an engine, alone on a server
    that tells all texts apart, an open handle answers
    every mutation with the engine's reply or its exception, an exception
    leaving the tables as they were; every read is the engine's read and
    changes nothing; and loading the state returns the engine's state up to
    the order of the witness rows. A connection that was lost is replaced
    first. *)
Theorem mysql_exact {CO : Collation} {BC : BinaryCollation CO} (self : MysqlStore) (db : Database) (c : connection) (engine : Engine) (m : mutation)
    (value after_seq limit now witness_id checkpoint_size : pyval) :
  represents (my_log_id self) db engine -> wf engine -> fits engine -> small m ->
  my_closed self = false -> in_tx c = false ->
  match run_engine engine m with
  | Ok (r, engine') => exists db', run_client (mysql_mutate self m) db c = (Ok r, db', Idle) /\
      represents (my_log_id self) db' engine' /\ others_kept (my_log_id self) db db'
  | Raise e => run_client (mysql_mutate self m) db c = (Raise e, db, Idle)
  end /\
  run_client (Mysql.get_entry self value) db c = (Engine.get_entry engine value, db, Idle) /\
  run_client (Mysql.entry_count self) db c = (Ok (zlen (_entries engine)), db, Idle) /\
  run_client (Mysql.scan_entries self after_seq limit) db c = (Engine.scan_entries engine after_seq limit, db, Idle) /\
  run_client (Mysql.pending_witnesses self now limit) db c = (Engine.pending_witnesses engine now limit, db, Idle) /\
  run_client (Mysql.pending_witnesses_for self witness_id now limit) db c =
    (Engine.pending_witnesses_for engine witness_id now limit, db, Idle) /\
  run_client (Mysql.get_witness self witness_id checkpoint_size) db c =
    (Engine.get_witness engine witness_id checkpoint_size, db, Idle) /\
  exists s, run_client (Mysql.load_cll self) db c = (Ok s, db, Idle) /\ same_index (_state engine) s /\
    cs_witnesses s ≡ₚ cs_witnesses (_state engine).
Proof.
  intros Hrep Hwf Hfits Hm Ho Hc. split_and!.
  - rewrite mysql_mutate_eq. pose proof (mutation_refines true _ _ _ _ Hrep Hwf Hfits Hm) as Hx.
    pose proof (transaction_exact self db c Ho Hc StartTransaction _ (mutation_replays _ _ _ m Hrep Hwf)) as Ht.
    unfold mutates in Hx. destruct (run_engine engine m) as [[r engine']|e] eqn:Er.
    + destruct Hx as (db' & Hx & ?). rewrite Hx in Ht. by exists db'.
    + rewrite Hx in Ht. by apply Ht, (run_engine_raise engine m).
  - apply mysql_read_exact; [done|done|unfold Sql.get_entry, Sql._find_entry; each|by apply run_get_entry|by apply get_entry_errors].
  - apply mysql_read_exact; [done|done|unfold Sql.entry_count; each|by apply run_entry_count|done].
  - apply mysql_read_exact; [done|done|unfold Sql.scan_entries; each|by apply run_scan_entries|apply scan_entries_errors].
  - apply mysql_read_exact; [done|done|unfold Sql.pending_witnesses, Sql.load_witnesses; each|by apply run_pending_witnesses|by apply (pending_errors engine witness_id)].
  - apply mysql_read_exact; [done|done|unfold Sql.pending_witnesses_for, Sql.load_witnesses; each|by apply run_pending_witnesses_for|by apply pending_errors].
  - apply mysql_read_exact; [done|done|unfold Sql.get_witness; each|by apply run_get_witness|apply get_witness_errors].
  - destruct (read_rows _ _ _ Hrep Hwf) as (ws & Hr & Hp & _). exists (with_rows (_state engine) ws).
    split_and!; [|done|done].
    pose proof (transaction_exact self db c Ho Hc ConsistentSnapshotReadOnly _ (plain_replays _ _ (load_state_plain (my_log_id self) false))) as Ht.
    by rewrite (run_load_state _ _ _ Hrep Hwf false ws Hr Hp) in Ht.
Qed.

(** ** A concrete server

    A database created with a binary collation. Two handles on a log that
    [init] provisioned, and a schedule of their
    requests: an append, another that waits for its lock and gives up, a
    commit on a connection that was lost before, and two deliveries that race. *)
#[local] Existing Instances utf8mb4_0900_bin utf8mb4_0900_bin_binary.

Definition store0 : MysqlStore := {| my_log_id := log0; my_closed := false |}.
Definition handle0 : Handle := {| h_store := store0; h_connection := Idle; h_call := None |}.
Definition system0 : System := {| committed := db0; handles := [handle0; handle0] |}.

Lemma mysql_init0 : run_client (Mysql.init (Ok ()) log0) Sqlite.empty_database Lost = (Ok (), db0, Lost).
Proof. vm_compute. reflexivity. Qed.

Definition moves0 : list move :=
  [Call 0 (MAppend input0); Go 0; Go 0; Go 0; Call 1 (MAppend input0); Go 1; Go 1; Go 1; Go 0; Go 1; Go 1; Go 0; Go 0; Go 0; Go 0]
  ++ [Drop 1; Call 1 (MCommit (PInt 0) PNone (Inst (state_arg state1)))] ++ repeat (Go 1) 12
  ++ [Call 0 (MWitness (PInt 0) (Inst (witness_arg row1))); Call 1 (MWitness (PInt 0) (Inst (witness_arg row1)))]
  ++ concat (repeat [Go 0; Go 1] 8).

Lemma mysql_linearizable_witness :
  length (stored_on log0 (plays system0 moves0).1) = 3%nat /\ length (plays system0 moves0).1 = 13%nat /\
  (exists engine', accepts Engine.__init__ (stored_on log0 (plays system0 moves0).1) engine' /\
    represents log0 (committed (plays system0 moves0).2) engine' /\ wf engine' /\ extends Engine.__init__ engine').
Proof.
  split; [vm_compute; reflexivity|]. split; [vm_compute; reflexivity|].
  apply (mysql_linearizable log0 system0 (plays system0 moves0).2 Engine.__init__ (plays system0 moves0).1
    represents0 wf_init eq_refl).
  - intros h Hh. assert (h = handle0) as -> by (by repeat (apply elem_of_cons in Hh as [->|Hh]; [reflexivity|]); apply elem_of_nil in Hh).
    done.
  - apply plays_history.
  - apply plays_small. repeat constructor.
Defined.

Lemma mysql_exact_witness :
  exists db', run_client (mysql_mutate store0 (MAppend input0)) db0 Lost =
    (Ok (Some {| ar_entry := entry0; ar_outcome := INSERTED |}), db', Idle) /\ represents log0 db' engine1.
Proof.
  destruct (mysql_exact store0 db0 Lost Engine.__init__ (MAppend input0) PNone PNone PNone PNone PNone PNone
    represents0 wf_init eq_refl I eq_refl eq_refl) as [H _].
  cbn [run_engine] in H. rewrite append0 in H. destruct H as (db' & H1 & H2 & _). exists db'. split; [exact H1|exact H2].
Defined.

(** ** A server that takes no notice of case

    The tables are created with whatever collation the database has; the
    default of MySQL 8 takes no notice of case. Then two logs whose
    identifiers differ in case only are one: [init] of the second does nothing,
    and what is appended to the first is found in it. *)
Definition log0' : pystr := str "LOG-A".
Definition in_turn {A B} (p : client A) (q : client B) : result A * result B :=
  let '(a, db, c) := run_client (CO := ascii_case_ignored) p db0 Idle in
  (a, (run_client (CO := ascii_case_ignored) q db c).1.1).

Lemma mysql_logs_confused :
  is_identifier log0 = true /\ is_identifier log0' = true /\ log0 <> log0' /\
  run_client (CO := ascii_case_ignored) (Mysql.init (Ok ()) log0') db0 Lost = (Ok (), db0, Lost) /\
  in_turn (Mysql.append store0 input0) (Mysql.scan_entries {| my_log_id := log0'; my_closed := false |} (PInt 0) (PInt 10))
  = (Ok {| ar_entry := entry0; ar_outcome := INSERTED |}, Ok [entry0]).
Proof. split_and!; vm_compute; [reflexivity|reflexivity|congruence|reflexivity|reflexivity]. Qed.
