(* ===== verification/Signing.v ===== *)
(** * Local signing keys

    [src/python/signing.py]: the HMAC-SHA256 signer of application records and
    the fingerprint that names a key. [hmac] is the standard library's. *)
From S2P Require Import Prelude Bytes Text Json JsonProps PyJson Sha256.
Open Scope Z_scope.

Section signing.
Context {HL : Hashlib}.

(** ** [hmac.new(key, msg, hashlib.sha256).digest()] *)
Definition xor_pad (x : Z) (bs : bytes) : bytes := map (fun b => z2b (Z.lxor (b2z b) x)) bs.

Definition hmac_sha256 (key msg : bytes) : bytes :=
  let key := if 64 <? zlen key then sha256 key else key in
  let key := key ++ zeros (64 - length key) in
  sha256 (xor_pad 0x5C key ++ sha256 (xor_pad 0x36 key ++ msg)).

(** ** [LocalSigner] *)
Record LocalSigner := { signer_key_id : pystr; secret : bytes }.

(** [digest.encode("ascii")] *)
Definition encode_ascii (s : pystr) : result bytes :=
  if forallb (fun c => (0 <=? c) && (c <? 128)) s then Ok (map z2b s) else Raise UnicodeError.

Definition LocalSigner_sign (self : LocalSigner) (digest : pystr) : result pystr :=
  let! bs := encode_ascii digest in Ok (hex (hmac_sha256 (secret self) bs)).

(** ** [key_fingerprint] *)
Definition fingerprint_preimage (key_id : pystr) (secret : bytes) : result bytes :=
  match utf8_encode key_id with
  | Some bs => Ok (bs ++ [z2b 58] ++ secret)
  | None => Raise UnicodeError
  end.

Definition key_fingerprint (key_id : pystr) (secret : bytes) : result pystr :=
  let! bs := fingerprint_preimage key_id secret in Ok (hex (sha256 bs)).

(** ** What they promise *)
Lemma hex_inj bs cs : hex bs = hex cs -> bs = cs.
Proof. intros H. apply (f_equal fromhex) in H. rewrite !fromhex_hex in H. congruence. Qed.

Lemma utf8_encode_inj s t bs : utf8_encode s = Some bs -> utf8_encode t = Some bs -> s = t.
Proof. intros Hs%utf8_roundtrip Ht%utf8_roundtrip. congruence. Qed.

(** Two key ids over one secret have one fingerprint only by a collision. *)
Lemma fingerprint_binding k k' s f :
  key_fingerprint k s = Ok f -> key_fingerprint k' s = Ok f ->
  k = k' \/ exists x y, fingerprint_preimage k s = Ok x /\ fingerprint_preimage k' s = Ok y /\ collision x y.
Proof.
  unfold key_fingerprint. intros Hk Hk'.
  destruct (fingerprint_preimage k s) as [x|] eqn:Hx; [|done].
  destruct (fingerprint_preimage k' s) as [y|] eqn:Hy; [|done]. cbn in Hk, Hk'.
  destruct (decide (x = y)) as [->|Hne].
  - left. unfold fingerprint_preimage in Hx, Hy.
    destruct (utf8_encode k) as [bs|] eqn:Hbs; [|done]. destruct (utf8_encode k') as [cs|] eqn:Hcs; [|done].
    assert (bs = cs) as ->; [|by eapply utf8_encode_inj]. apply (app_inv_tail ([z2b 58] ++ s)). congruence.
  - right. exists x, y. split_and!; [done..|]. split; [done|]. apply hex_inj. congruence.
Qed.

(** The fingerprint does not fix where the key id ends. *)
Lemma fingerprint_ambiguous :
  key_fingerprint (str "a:b") (map z2b (str "c")) = key_fingerprint (str "a") (map z2b (str "b:c")).
Proof. reflexivity. Qed.
End signing.
