(* ===== verification/HmacCheckpoint.v ===== *)
(** * The ledger's own checkpoints

    [src/python/ledger/checkpoint.py]: the record of the MMR's peaks that an
    operator signs with HMAC-SHA256, its emission and verification, its
    registration by digest, and the files of [checkpoints/]. The classes have
    the names of those of [Emit]; their fields have names of their own. The
    Transparency Service's answers are a parameter. *)
From S2P Require Import Prelude Bytes Text Py Json JsonProps PyJson JsonBytes Sha256 MmrPos Mmr Index Cll Calendar Base64 Ed25519 Emit Signing.
Open Scope Z_scope.

(** ** Policy and records *)
Record LedgerConfig := { lcfg_ts_urls : list json; lcfg_cadence_entries : Z; lcfg_max_lag_entries : Z }.

Record LedgerWitness := {
  lw_ts_url : json; lw_entry_hash : json; lw_receipt_b64 : json; lw_leaf_index : Z; lw_tree_size : Z
}.

Record LedgerCheckpoint := {
  lc_v : Z; lc_kind : json; lc_mmr_size : Z; lc_root : json; lc_prev_size : Z; lc_prev_root : json;
  lc_key_id : json; lc_timestamp : json; lc_signature : json; lc_log_id : json; lc_witnesses : list LedgerWitness
}.

(** [LocalSigner] as a signer of digests. *)
Definition local_signer {HL : Hashlib} (self : LocalSigner) : Signer :=
  {| key_id := signer_key_id self; sign := LocalSigner_sign self |}.

Module LedgerConfig.
Section dicts.
Context {PI : Interp}.

Definition to_dict (self : LedgerConfig) : json :=
  JDict [(str "ts_urls", JList (lcfg_ts_urls self)); (str "cadence_entries", JInt (lcfg_cadence_entries self));
         (str "max_lag_entries", JInt (lcfg_max_lag_entries self))].

Definition from_dict (d : json) : result LedgerConfig :=
  let! urls := get_or d (str "ts_urls") (JList []) in
  let! urls := iterate urls in
  let! entries := get_or d (str "cadence_entries") (JInt 100) in
  let! entries := int_of entries in
  let! lag := get_or d (str "max_lag_entries") (JInt 200) in
  let! lag := int_of lag in
  Ok {| lcfg_ts_urls := urls; lcfg_cadence_entries := entries; lcfg_max_lag_entries := lag |}.
End dicts.
End LedgerConfig.

Module LedgerWitness.
Section dicts.
Context {PI : Interp}.

Definition to_dict (self : LedgerWitness) : json :=
  JDict [(str "ts_url", lw_ts_url self); (str "entry_hash", lw_entry_hash self);
         (str "receipt_b64", lw_receipt_b64 self); (str "leaf_index", JInt (lw_leaf_index self));
         (str "tree_size", JInt (lw_tree_size self))].

(** Also what a registration reads from the answer, which has no [ts_url]. *)
Definition with_url (ts_url : json) (body : json) : result LedgerWitness :=
  let! entry_hash := subscript body (str "entry_hash") in
  let! receipt_b64 := subscript body (str "receipt_b64") in
  let! leaf_index := subscript body (str "leaf_index") in
  let! leaf_index := int_of leaf_index in
  let! tree_size := subscript body (str "tree_size") in
  let! tree_size := int_of tree_size in
  Ok {| lw_ts_url := ts_url; lw_entry_hash := entry_hash; lw_receipt_b64 := receipt_b64;
        lw_leaf_index := leaf_index; lw_tree_size := tree_size |}.

Definition from_dict (d : json) : result LedgerWitness :=
  let! ts_url := subscript d (str "ts_url") in with_url ts_url d.
End dicts.
End LedgerWitness.

Module LedgerCheckpoint.
Section record.
Context {PI : Interp} {HL : Hashlib}.

(** The fields the signature covers. *)
Definition body_fields (self : LedgerCheckpoint) : list (pystr * json) :=
  [(str "v", JInt (lc_v self)); (str "kind", lc_kind self); (str "log_id", lc_log_id self);
   (str "mmr_size", JInt (lc_mmr_size self)); (str "root", lc_root self);
   (str "prev_size", JInt (lc_prev_size self)); (str "prev_root", lc_prev_root self);
   (str "key_id", lc_key_id self); (str "timestamp", lc_timestamp self)].

Definition signing_body (self : LedgerCheckpoint) : result pystr := dumps_sorted (JDict (body_fields self)).

Definition digest (self : LedgerCheckpoint) : result pystr :=
  let! body := signing_body self in
  let! bs := encode_text body in
  Ok (hex (sha256 bs)).

Definition to_dict (self : LedgerCheckpoint) : json :=
  JDict (body_fields self ++ [(str "signature", lc_signature self)]
         ++ match lc_witnesses self with
            | [] => []
            | ws => [(str "witnesses", JList (map LedgerWitness.to_dict ws))]
            end).

Definition from_dict (d : json) : result LedgerCheckpoint :=
  let! ws := get_or d (str "witnesses") (JList []) in
  let! ws := iterate ws in
  let! witnesses := map_result LedgerWitness.from_dict ws in
  let! v := subscript d (str "v") in
  let! v := int_of v in
  let! kind := subscript d (str "kind") in
  let! log_id := get_or d (str "log_id") (JStr []) in
  let! mmr_size := subscript d (str "mmr_size") in
  let! mmr_size := int_of mmr_size in
  let! root := subscript d (str "root") in
  let! prev_size := subscript d (str "prev_size") in
  let! prev_size := int_of prev_size in
  let! prev_root := get_or d (str "prev_root") (JStr []) in
  let! key_id := subscript d (str "key_id") in
  let! timestamp := subscript d (str "timestamp") in
  let! signature := subscript d (str "signature") in
  Ok {| lc_v := v; lc_kind := kind; lc_mmr_size := mmr_size; lc_root := root; lc_prev_size := prev_size;
        lc_prev_root := prev_root; lc_key_id := key_id; lc_timestamp := timestamp; lc_signature := signature;
        lc_log_id := log_id; lc_witnesses := witnesses |}.

Definition with_signature (self : LedgerCheckpoint) (signature : pystr) : LedgerCheckpoint :=
  {| lc_v := lc_v self; lc_kind := lc_kind self; lc_mmr_size := lc_mmr_size self; lc_root := lc_root self;
     lc_prev_size := lc_prev_size self; lc_prev_root := lc_prev_root self; lc_key_id := lc_key_id self;
     lc_timestamp := lc_timestamp self; lc_signature := JStr signature; lc_log_id := lc_log_id self;
     lc_witnesses := lc_witnesses self |}.
End record.
End LedgerCheckpoint.

Module Hmac.

(** ** Emission and verification *)
Section emit.
Context {PI : Interp} {HL : Hashlib} {L capsule St : Type} {LS : LogSource L capsule} {NS : NodeStore St}.
Implicit Types mmr : MmrLedger L St.

Definition _root_hex mmr (size : Z) : result pystr :=
  let! peak_positions := peaks size in
  let! hashes := map_result (ns_node (_node_store mmr)) peak_positions in
  let! root := root_from_peaks hashes in
  Ok (hex root).

(** The previous size and root, or the rollback. *)
Definition check_previous mmr (current_size : Z) (prev : option LedgerCheckpoint) : result (Z * json) :=
  match prev with
  | None => Ok (0, JStr [])
  | Some prev =>
      if current_size <=? lc_mmr_size prev then Raise RollbackError
      else
        let! actual_prev_root := _root_hex mmr (lc_mmr_size prev) in
        if negb (is_text (lc_root prev) actual_prev_root) then Raise RollbackError
        else Ok (lc_mmr_size prev, lc_root prev)
  end.

Definition emit_checkpoint mmr (signer : Signer) (prev : option LedgerCheckpoint) (timestamp : option pystr)
    (log_id : pystr) (now : instant) : result LedgerCheckpoint :=
  let timestamp := match timestamp with Some t => t | None => second_text now end in
  let current_size := Index.size mmr in
  if current_size =? 0 then Raise CheckpointError
  else
    let! (prev_size, prev_root) := check_previous mmr current_size prev in
    let! root_hex := _root_hex mmr current_size in
    let cp := {| lc_v := 1; lc_kind := JStr (str "mmr_checkpoint"); lc_mmr_size := current_size;
                 lc_root := JStr root_hex; lc_prev_size := prev_size; lc_prev_root := prev_root;
                 lc_key_id := JStr (key_id signer); lc_timestamp := JStr timestamp; lc_signature := JStr [];
                 lc_log_id := JStr log_id; lc_witnesses := [] |} in
    let! digest := LedgerCheckpoint.digest cp in
    let! sig := sign signer digest in
    Ok (LedgerCheckpoint.with_signature cp sig).

Definition verify_checkpoint_signature (cp : LedgerCheckpoint) (signer : Signer) : bool :=
  catch_false (let! digest := LedgerCheckpoint.digest cp in
               let! expected := sign signer digest in
               Ok (is_text (lc_signature cp) expected)).

Definition verify_checkpoint_consistency (prev current : LedgerCheckpoint) mmr : bool :=
  catch_false
    (if negb (lc_prev_size current =? lc_mmr_size prev) then Ok false
     else if lc_mmr_size current <=? lc_mmr_size prev then Ok false
     else let! actual := _root_hex mmr (lc_mmr_size prev) in Ok (is_text (lc_prev_root current) actual)).
End emit.

(** ** The Transparency Service *)

(** An answer, an error status, or none. *)
Inductive ts_reply := TsAnswer (body : bytes) | TsStatus (code : Z) (detail : bytes) | TsFailed.

(** Why a receipt is not accepted. *)
Inductive receipt_issue := NotInstalled | NotVerified (errors : list pystr) | NotChecked (e : exn).

Section service.
Context {PI : Interp} {HL : Hashlib}.

Definition rstrip_slash (s : pystr) : pystr := rev (rstrip_slash_rev (rev s)).

Definition _fetch_ts_authority_pubkey (get : pystr -> ts_reply) (ts_base_url : json) : result bytes :=
  match ts_base_url with
  | JStr url =>
      match get (rstrip_slash url ++ str "/anchor/authority-pubkey") with
      | TsAnswer body =>
          let! body := loads_bytes body in
          let! hex_key := subscript body (str "pubkey_hex") in
          fromhex_of hex_key
      | _ => Raise OSError
      end
  | _ => Raise AttributeError
  end.

(** [json.dumps({"capsule_id": digest}).encode()]; a digest is hexadecimal. *)
Definition registration (digest : pystr) : bytes :=
  map z2b ([123; 34] ++ str "capsule_id" ++ [34; 58; 32; 34] ++ digest ++ [34; 125]).

Definition register_checkpoint (post : pystr -> bytes -> ts_reply) (cp : LedgerCheckpoint) (ts_url : pystr)
  : result LedgerWitness :=
  let! digest := LedgerCheckpoint.digest cp in
  match post (rstrip_slash ts_url ++ str "/v1/digest") (registration digest) with
  | TsAnswer body => let! body := loads_bytes body in LedgerWitness.with_url (JStr ts_url) body
  | TsStatus _ _ => Raise CheckpointError
  | TsFailed => Raise OSError
  end.

(** [installed] tells that [scitt_cose] can be imported; [room] bounds the
    reader of [Ed25519]. *)
Definition verify_receipt_offline {CR : Crypto} {CB : Cbor2} {SR : ScittReceipts} (room : nat) (installed : bool)
    (get : pystr -> ts_reply) (witness : LedgerWitness) (ts_pubkey_pem : option bytes) (ts_base_url : option json)
  : bool * list receipt_issue :=
  if negb installed then (false, [NotInstalled]) else
  match (let! pem :=
           match ts_pubkey_pem with
           | Some pem => Ok pem
           | None =>
               let! raw := _fetch_ts_authority_pubkey get (match ts_base_url with Some url => url | None => lw_ts_url witness end) in
               ed25519_pem raw
           end in
         let! s := b64_argument (lw_receipt_b64 witness) in
         let! receipt_bytes := b64_lenient s 0 0 0 in
         match lw_entry_hash witness with
         | JStr entry_hash => verify_receipt room receipt_bytes entry_hash pem
         | _ => Raise TypeError
         end) with
  | Ok r => (rr_ok r, match rr_errors r with [] => [] | errors => [NotVerified errors] end)
  | Raise e => (false, [NotChecked e])
  end.
End service.

(** ** Storage

    [checkpoints/], once it is made: its JSON files, each the value it holds,
    and the keys cached as [ts_pubkey_*.pem]. *)
Record Dir := { json_files : gmap pystr json; pem_files : gmap pystr bytes }.
Definition Root : Type := option Dir.

(** [mkdir(parents=True, exist_ok=True)] *)
Definition made (root : Root) : Dir := match root with Some d => d | None => {| json_files := ∅; pem_files := ∅ |} end.

Section storage.
Context {PI : Interp} {HL : Hashlib}.
Implicit Types root : Root.

Definition write_json (name : pystr) (v : json) root : Root :=
  Some {| json_files := <[name := v]> (json_files (made root)); pem_files := pem_files (made root) |}.
Definition read_json (name : pystr) root : option json := root ≫= fun d => json_files d !! name.

Definition _CONFIG_FILE : pystr := str "config.json".

(** [f"{mmr_size:020d}.json"]: the sign counts among the twenty. *)
Definition _checkpoint_name (mmr_size : Z) : pystr :=
  (if mmr_size <? 0 then [45] ++ pad 19 (- mmr_size) else pad 20 mmr_size) ++ str ".json".

Definition save_config root (cfg : LedgerConfig) : Root := write_json _CONFIG_FILE (LedgerConfig.to_dict cfg) root.

Definition load_config root : result (option LedgerConfig) :=
  match read_json _CONFIG_FILE root with
  | None => Ok None
  | Some v => let! cfg := LedgerConfig.from_dict v in Ok (Some cfg)
  end.

Definition save_checkpoint root (cp : LedgerCheckpoint) : Root :=
  write_json (_checkpoint_name (lc_mmr_size cp)) (LedgerCheckpoint.to_dict cp) root.

Definition load_checkpoint root (mmr_size : Z) : result (option LedgerCheckpoint) :=
  match read_json (_checkpoint_name mmr_size) root with
  | None => Ok None
  | Some v => let! cp := LedgerCheckpoint.from_dict v in Ok (Some cp)
  end.

(** The stem of a file of [glob("*.json")]. *)
Definition json_stem (name : pystr) : option pystr :=
  if bool_decide (drop (length name - 5) name = str ".json") && (5 <=? zlen name)
  then Some (take (length name - 5) name) else None.

Definition size_of_name (name : pystr) : option Z :=
  if bool_decide (name = _CONFIG_FILE) then None
  else match json_stem name with
       | Some stem => match int_of_text stem with Ok n => Some n | Raise _ => None end
       | None => None
       end.

(** [sorted] of integers. *)
Fixpoint insert_size (n : Z) (l : list Z) : list Z :=
  match l with
  | [] => [n]
  | m :: l => if n <=? m then n :: m :: l else m :: insert_size n l
  end.
Definition sort_sizes : list Z -> list Z := fold_right insert_size [].

Definition list_checkpoints root : list Z :=
  match root with
  | None => []
  | Some d => sort_sizes (omap size_of_name (map fst (map_to_list (json_files d))))
  end.

Definition load_latest_checkpoint root : result (option LedgerCheckpoint) :=
  match last (list_checkpoints root) with
  | None => Ok None
  | Some size => load_checkpoint root size
  end.

(** [.replace("://", "_").replace("/", "_").replace(".", "_")] *)
Fixpoint replace_scheme (s : pystr) : pystr :=
  match s with
  | 58 :: 47 :: 47 :: s => 95 :: replace_scheme s
  | c :: s => c :: replace_scheme s
  | [] => []
  end.
Definition safe_name (ts_url : pystr) : pystr :=
  map (fun c => if bool_decide (c ∈ [47; 46]) then 95 else c) (replace_scheme (rstrip_slash ts_url)).
Definition pubkey_file (ts_url : pystr) : pystr := str "ts_pubkey_" ++ safe_name ts_url ++ str ".pem".

Definition cache_ts_pubkey {CR : Crypto} (get : pystr -> ts_reply) root (ts_url : pystr) : Root * result bytes :=
  match (let! raw := _fetch_ts_authority_pubkey get (JStr ts_url) in ed25519_pem raw) with
  | Raise e => (root, Raise e)
  | Ok pem =>
      (Some {| json_files := json_files (made root); pem_files := <[pubkey_file ts_url := pem]> (pem_files (made root)) |}, Ok pem)
  end.

Definition load_ts_pubkey root (ts_url : pystr) : option bytes := root ≫= fun d => pem_files d !! pubkey_file ts_url.
End storage.
End Hmac.
