(* ===== verification/HmacCheckpointProps.v ===== *)
(** * What the ledger's checkpoints guarantee

    They are the checkpoints of [Emit] field for field, so its emission
    carries over; the operator's signature fixes the signed fields; and the
    files of [checkpoints/] hold a chain that only a log that grew extends. *)
From S2P Require Import Prelude Bytes Text Py Json JsonProps PyJson JsonBytes Sha256 MmrPos Mmr MmrSpec MmrPath Inclusion Index Cll Calendar Base64 Ed25519 Emit EmitProps Signing HmacCheckpoint Range.
From stdpp Require Import sorting.
Open Scope Z_scope.

Module HmacProps.

(** ** The two records *)
Section wire.
Context {PI : Interp} {HL : Hashlib}.
Implicit Types cp : LedgerCheckpoint.

Definition as_witness (w : LedgerWitness) : WitnessRecord :=
  {| w_ts_url := lw_ts_url w; w_entry_hash := lw_entry_hash w; w_receipt_b64 := lw_receipt_b64 w;
     w_leaf_index := lw_leaf_index w; w_tree_size := lw_tree_size w; w_is_stub := false |}.

Definition as_emit cp : CheckpointRecord :=
  {| c_v := lc_v cp; c_kind := lc_kind cp; c_log_id := lc_log_id cp; c_mmr_size := lc_mmr_size cp;
     c_root := lc_root cp; c_prev_size := lc_prev_size cp; c_prev_root := lc_prev_root cp;
     c_key_id := lc_key_id cp; c_timestamp := lc_timestamp cp; c_signature := lc_signature cp;
     c_witnesses := map as_witness (lc_witnesses cp) |}.

Lemma digest_as_emit cp : CheckpointRecord.digest (as_emit cp) = LedgerCheckpoint.digest cp.
Proof. reflexivity. Qed.

Lemma witness_dict w : WitnessRecord.to_dict (as_witness w) = LedgerWitness.to_dict w.
Proof. unfold WitnessRecord.to_dict, LedgerWitness.to_dict. cbn [w_is_stub as_witness]. by rewrite app_nil_r. Qed.

Lemma to_dict_as_emit cp : CheckpointRecord.to_dict (as_emit cp) = LedgerCheckpoint.to_dict cp.
Proof.
  unfold CheckpointRecord.to_dict, LedgerCheckpoint.to_dict. cbn [c_witnesses as_emit].
  destruct (lc_witnesses cp) as [|w ws]; [done|]. cbn [map]. rewrite witness_dict, map_map.
  by rewrite (map_ext _ _ witness_dict).
Qed.

Lemma ledger_witness_roundtrip w : LedgerWitness.from_dict (LedgerWitness.to_dict w) = Ok w.
Proof. by destruct w. Qed.

Lemma witness_as_emit w : WitnessRecord.from_dict (LedgerWitness.to_dict w) = Ok (as_witness w).
Proof. reflexivity. Qed.

Lemma map_result_ok {A B C} (f : B -> result C) (g : A -> B) (h : A -> C) l :
  (forall x, f (g x) = Ok (h x)) -> map_result f (map g l) = Ok (map h l).
Proof. intros H. induction l as [|x l IH]; [done|]. cbn [map map_result]. by rewrite H, IH. Qed.

Lemma ledger_checkpoint_roundtrip cp : LedgerCheckpoint.from_dict (LedgerCheckpoint.to_dict cp) = Ok cp.
Proof.
  pose proof (map_result_ok LedgerWitness.from_dict LedgerWitness.to_dict id (lc_witnesses cp) ledger_witness_roundtrip) as E.
  rewrite map_id in E. destruct cp as [v k n r pn pr ki t s l [|w ws]]; [reflexivity|].
  cbn [lc_witnesses] in E. unfold LedgerCheckpoint.from_dict, LedgerCheckpoint.to_dict.
  change (get_or _ (str "witnesses") (JList [])) with (Ok (JList (map LedgerWitness.to_dict (w :: ws)))).
  cbn [iterate]. rewrite E. reflexivity.
Qed.

Lemma emit_reads cp : CheckpointRecord.from_dict (LedgerCheckpoint.to_dict cp) = Ok (as_emit cp).
Proof.
  pose proof (map_result_ok WitnessRecord.from_dict LedgerWitness.to_dict as_witness (lc_witnesses cp) witness_as_emit) as E.
  destruct cp as [v k n r pn pr ki t s l [|w ws]]; [reflexivity|].
  cbn [lc_witnesses] in E. unfold CheckpointRecord.from_dict, LedgerCheckpoint.to_dict.
  change (get_or _ (str "witnesses") (JList [])) with (Ok (JList (map LedgerWitness.to_dict (w :: ws)))).
  cbn [iterate]. rewrite E. reflexivity.
Qed.

(** What [Emit] reads, the ledger reads as well. *)
Lemma witness_reads d w : WitnessRecord.from_dict d = Ok w -> is_ok (LedgerWitness.from_dict d) = true.
Proof. unfold WitnessRecord.from_dict, LedgerWitness.from_dict, LedgerWitness.with_url. intros H. by inv_result. Qed.

Lemma witnesses_read ds ws :
  map_result WitnessRecord.from_dict ds = Ok ws -> exists lws, map_result LedgerWitness.from_dict ds = Ok lws.
Proof.
  revert ws. induction ds as [|d ds IH]; intros ws; [by eexists|]. cbn [map_result].
  destruct (WitnessRecord.from_dict d) as [w|] eqn:E; [|done]. apply witness_reads in E.
  destruct (LedgerWitness.from_dict d); [|done]. destruct (map_result WitnessRecord.from_dict ds) as [ws'|]; [|done].
  destruct (IH ws' eq_refl) as [lws ->]. by eexists.
Qed.

Lemma subscript_get d k v default : subscript d k = Ok v -> get_or d k default = Ok v.
Proof. destruct d; try done. cbn [subscript get_or]. destruct (find_key _ _); [|done]. by intros [= ->]. Qed.

Lemma ledger_reads d r :
  CheckpointRecord.from_dict d = Ok r ->
  exists cp, LedgerCheckpoint.from_dict d = Ok cp /\ LedgerCheckpoint.body_fields cp = CheckpointRecord.body_fields r /\
             lc_signature cp = c_signature r.
Proof.
  unfold CheckpointRecord.from_dict, LedgerCheckpoint.from_dict. intros H.
  destruct (get_or d (str "witnesses") (JList [])) as [ws|]; [|done]. destruct (iterate ws) as [ds|]; [|done].
  destruct (map_result WitnessRecord.from_dict ds) as [es|] eqn:E; [|done]. apply witnesses_read in E as [lws ->].
  destruct (subscript d (str "log_id")) as [log_id|] eqn:El; [|by inv_result].
  rewrite (subscript_get _ _ _ _ El). inv_result. by eexists.
Qed.
End wire.

(** ** Emission *)
Section emission.
Context {PI : Interp} {HL : Hashlib} {L capsule St : Type} {LS : LogSource L capsule}
  {NS : NodeStore St} {NSL : NodeStoreLaws St}.
Implicit Types (mmr : MmrLedger L St) (cp : LedgerCheckpoint).

Lemma root_hex_emit mmr size : Hmac._root_hex mmr size = Emit._root_hex mmr size.
Proof.
  unfold Hmac._root_hex, Emit._root_hex, Index.root_at, Index.peak_hashes_at.
  destruct (peaks size) as [ps|]; [|done]. by destruct (map_result _ ps).
Qed.

(** The checkpoint of a log of [bodies] after [prev], before it is signed. *)
Definition unsigned (bodies : list bytes) (signer : Signer) (log_id timestamp : pystr) (prev : option LedgerCheckpoint)
  : LedgerCheckpoint :=
  {| lc_v := 1; lc_kind := JStr (str "mmr_checkpoint"); lc_mmr_size := nc (zlen bodies);
     lc_root := JStr (hex (mmr_root (map lh bodies)));
     lc_prev_size := match prev with Some p => lc_mmr_size p | None => 0 end;
     lc_prev_root := match prev with Some p => lc_root p | None => JStr [] end;
     lc_key_id := JStr (key_id signer); lc_timestamp := JStr timestamp; lc_signature := JStr [];
     lc_log_id := JStr log_id; lc_witnesses := [] |}.

Definition signed (signer : Signer) cp : result LedgerCheckpoint :=
  let! digest := LedgerCheckpoint.digest cp in
  let! sig := sign signer digest in
  Ok (LedgerCheckpoint.with_signature cp sig).

Definition emission (bodies : list bytes) (signer : Signer) (log_id timestamp : pystr) (prev : option LedgerCheckpoint)
    (k : Z) : result LedgerCheckpoint :=
  if zlen bodies =? 0 then Raise CheckpointError
  else
    match prev with
    | None => signed signer (unsigned bodies signer log_id timestamp None)
    | Some p =>
        if zlen bodies <=? k then Raise RollbackError
        else if is_text (lc_root p) (hex (mmr_root (map lh (take (Z.to_nat k) bodies))))
        then signed signer (unsigned bodies signer log_id timestamp prev)
        else Raise RollbackError
    end.

Lemma emission_eq mmr signer prev timestamp log_id now k :
  indexed mmr -> nc (zlen (_body_digests mmr)) < MAX_MMR_SIZE ->
  (forall p, prev = Some p -> 0 <= k /\ lc_mmr_size p = nc k) ->
  Hmac.emit_checkpoint mmr signer prev timestamp log_id now =
  emission (_body_digests mmr) signer log_id (default (second_text now) timestamp) prev k.
Proof.
  intros Hi Hmax Hprev. set (n := zlen (_body_digests mmr)) in *. pose proof (zlen_nonneg (_body_digests mmr) : 0 <= n) as Hn.
  unfold Hmac.emit_checkpoint, emission. rewrite Emission.size_eq by done. fold n. rewrite Emission.nc_zero by done.
  destruct (n =? 0) eqn:E0; [done|]. zbool. unfold Hmac.check_previous. rewrite !root_hex_emit.
  assert (_root_hex mmr (nc n) = Ok (hex (mmr_root (map lh (_body_digests mmr))))) as Eroot by by apply Emission.root_hex_all.
  destruct prev as [p|]; [|rewrite Eroot; by destruct timestamp].
  destruct (Hprev p eq_refl) as [Hk Ek]. rewrite Ek. destruct (n <=? k) eqn:Enk; zbool.
  { pose proof (nc_mono n k ltac:(lia)). by rw_bool (nc n <=? nc k) true. }
  pose proof (nc_lt k n ltac:(lia)). rw_bool (nc n <=? nc k) false.
  rewrite root_hex_emit, Emission.root_hex_eq by (done || lia). destruct (is_text (lc_root p) _); cbn [negb]; [|done].
  rewrite Eroot. unfold signed, unsigned. rewrite Ek. by destruct timestamp.
Qed.

Lemma signed_spec signer cp cp' :
  signed signer cp = Ok cp' ->
  exists s, cp' = LedgerCheckpoint.with_signature cp s /\ Hmac.verify_checkpoint_signature cp' signer = true.
Proof.
  unfold signed, Hmac.verify_checkpoint_signature. destruct (LedgerCheckpoint.digest cp) as [d|] eqn:Ed; [|done].
  destruct (sign signer d) as [s|] eqn:Es; [|done]. intros [= <-]. exists s. split; [done|].
  change (LedgerCheckpoint.digest (LedgerCheckpoint.with_signature cp s)) with (LedgerCheckpoint.digest cp).
  rewrite Ed, Es. cbn. by rewrite bool_decide_true.
Qed.
End emission.

(** ** The names of the files *)
Section names.
Context {PI : Interp}.
#[local] Abbreviation digits s := (Forall (fun c => is_digit c = true) s).

Lemma lstrip_digits s : digits s -> lstrip s = s.
Proof.
  intros Hs. destruct s as [|c s]; [done|]. apply Forall_cons in Hs as [Hc _]. apply digit_range in Hc.
  cbn [lstrip]. assert (space_char c = false) as ->; [|done]. unfold space_char, is_space.
  lia.
Qed.

Lemma strip_digits s : digits s -> strip s = s.
Proof.
  intros Hs. unfold strip. rewrite (lstrip_digits s), (lstrip_digits (rev s)), rev_involutive; [done| |done].
  by apply Forall_rev.
Qed.

Lemma int_digits_digits s under :
  digits s -> s <> [] \/ under = true -> int_digits s under = Some (map (fun c => c - 48) s).
Proof.
  revert under. induction s as [|c s IH]; intros under Hs Hu; [destruct Hu as [?| ->]; done|].
  apply Forall_cons in Hs as [Hc Hs]. cbn [int_digits map]. pose proof Hc as Hr. apply digit_range in Hr.
  rewrite (proj2 (Z.eqb_neq c 95)) by lia. unfold digit_of. rewrite Hc, IH by (done || by right). done.
Qed.

Lemma int_of_digits s : digits s -> s <> [] -> zlen s <= MAX_STR_DIGITS -> int_of_text s = Ok (dec_value s).
Proof.
  intros Hs Hne Hl. unfold int_of_text. rewrite strip_digits by done. destruct s as [|c s]; [done|].
  pose proof Hs as Hs'. apply Forall_cons in Hs' as [Hc _]. apply digit_range in Hc.
  rewrite !(proj2 (Z.eqb_neq c _)) by lia. rewrite int_digits_digits by (done || by left).
  rewrite zlen_map. rw_bool (MAX_STR_DIGITS <? zlen (c :: s)) false. f_equal. unfold dec_value.
  rewrite Z.mul_1_l. generalize 0. clear. induction (c :: s) as [|d l IH]; intros z; [done|]. cbn [map fold_left]. apply IH.
Qed.

Lemma checkpoint_name_eq n : 0 <= n -> Hmac._checkpoint_name n = pad 20 n ++ str ".json".
Proof. intros Hn. unfold Hmac._checkpoint_name. by rw_bool (n <? 0) false. Qed.

Lemma size_of_checkpoint_name n : 0 <= n < 10 ^ 20 -> Hmac.size_of_name (Hmac._checkpoint_name n) = Some n.
Proof.
  intros Hn. destruct (pad_spec 20 n Hn ltac:(lia)) as (Hl & Hd & Hv). rewrite checkpoint_name_eq by lia.
  unfold Hmac.size_of_name, Hmac.json_stem. rewrite bool_decide_false; cycle 1.
  { intros E. apply (f_equal length) in E. rewrite length_app, Hl in E. by vm_compute in E. }
  rewrite length_app, Hl. change (20 + length (str ".json") - 5)%nat with 20%nat.
  rewrite (drop_app_length' (pad 20 n)) by done. rewrite (take_app_length' (pad 20 n)) by done.
  rewrite bool_decide_true by done. rewrite zlen_app. change (zlen (str ".json")) with 5. unfold zlen at 1. rewrite Hl. cbn [andb Z.leb].
  change (5 <=? Z.of_nat 20 + 5) with true. cbn [andb].
  rewrite int_of_digits; [by rewrite Hv|done|by destruct (pad 20 n)|]. unfold zlen. rewrite Hl. vm_compute. congruence.
Qed.

Lemma checkpoint_name_inj n m :
  0 <= n < 10 ^ 20 -> 0 <= m < 10 ^ 20 -> Hmac._checkpoint_name n = Hmac._checkpoint_name m -> n = m.
Proof. intros Hn Hm E. apply (f_equal Hmac.size_of_name) in E. rewrite !size_of_checkpoint_name in E by done. congruence. Qed.

Lemma checkpoint_name_config n : 0 <= n < 10 ^ 20 -> Hmac._checkpoint_name n <> Hmac._CONFIG_FILE.
Proof.
  intros Hn E. apply (f_equal Hmac.size_of_name) in E. rewrite size_of_checkpoint_name in E by done.
  unfold Hmac.size_of_name in E. by rewrite bool_decide_true in E.
Qed.
End names.

(** ** Sorted sizes *)
Lemma insert_size_perm n l : Hmac.insert_size n l ≡ₚ n :: l.
Proof.
  induction l as [|m l IH]; [done|]. cbn [Hmac.insert_size]. destruct (n <=? m); [done|]. rewrite IH. constructor.
Qed.

Lemma insert_size_sorted n l : StronglySorted Z.le l -> StronglySorted Z.le (Hmac.insert_size n l).
Proof.
  induction 1 as [|m l Hl IH Hm]; [by repeat constructor|]. cbn [Hmac.insert_size]. destruct (n <=? m) eqn:E; zbool.
  - constructor; [by constructor|]. constructor; [done|]. eapply Forall_impl; [exact Hm|]. cbn. lia.
  - constructor; [done|]. rewrite insert_size_perm. constructor; [lia|done].
Qed.

Lemma sort_sizes_perm l : Hmac.sort_sizes l ≡ₚ l.
Proof. induction l as [|n l IH]; [done|]. cbn [Hmac.sort_sizes fold_right]. by rewrite insert_size_perm, IH. Qed.

Lemma sort_sizes_sorted l : StronglySorted Z.le (Hmac.sort_sizes l).
Proof. induction l as [|n l IH]; [constructor|]. by apply insert_size_sorted. Qed.

Lemma sort_sizes_eq l k : StronglySorted Z.lt k -> l ≡ₚ k -> Hmac.sort_sizes l = k.
Proof.
  intros Hk Hp. apply (StronglySorted_unique Z.le); [apply sort_sizes_sorted| |by rewrite sort_sizes_perm].
  clear Hp. induction Hk as [|x k Hk IH Hx]; constructor; [done|]. eapply Forall_impl; [exact Hx|]. cbn. lia.
Qed.

Lemma sorted_NoDup l : StronglySorted Z.lt l -> NoDup l.
Proof.
  induction 1 as [|x l Hl IH Hx]; constructor; [|done]. intros Hin. rewrite Forall_forall in Hx. specialize (Hx x Hin). lia.
Qed.

Lemma NoDup_omap_inj {A B} (f : A -> option B) (l : list A) :
  NoDup l -> (forall x y z, x ∈ l -> y ∈ l -> f x = Some z -> f y = Some z -> x = y) -> NoDup (omap f l).
Proof.
  induction 1 as [|x l Hx Hl IH]; intros Hf; [constructor|]. cbn.
  assert (NoDup (omap f l)) as Hd by (apply IH; intros; eapply Hf; (done || by right)).
  destruct (f x) as [z|] eqn:E; [|done]. constructor; [|done]. intros (y & Hy & Ey)%list_elem_of_omap.
  assert (x = y) as -> by (eapply Hf; [left|by right|done|done]). done.
Qed.

(** ** The files *)
Section storage.
Context {PI : Interp} {HL : Hashlib}.
Implicit Types (root : Hmac.Root) (cps : list LedgerCheckpoint).

(** The JSON files are those of [cps], in the order of their sizes, and
    perhaps [config.json]. *)
Record stored root cps : Prop := {
  st_sizes : Forall (fun cp => 0 <= lc_mmr_size cp < 10 ^ 20) cps;
  st_sorted : StronglySorted Z.lt (map lc_mmr_size cps);
  st_files : forall name v, name <> Hmac._CONFIG_FILE ->
    Hmac.read_json name root = Some v <->
    exists cp, cp ∈ cps /\ name = Hmac._checkpoint_name (lc_mmr_size cp) /\ v = LedgerCheckpoint.to_dict cp
}.

Lemma stored_none : stored None [].
Proof.
  constructor; [constructor|constructor|]. intros name v _. split; [done|]. by intros (cp & Hcp%not_elem_of_nil & _).
Qed.

Lemma stored_load root cps cp : stored root cps -> cp ∈ cps -> Hmac.load_checkpoint root (lc_mmr_size cp) = Ok (Some cp).
Proof.
  intros [Hs _ Hf] Hcp. unfold Hmac.load_checkpoint. rewrite Forall_forall in Hs.
  rewrite (proj2 (Hf _ (LedgerCheckpoint.to_dict cp) (checkpoint_name_config _ (Hs _ Hcp)))) by eauto.
  by rewrite ledger_checkpoint_roundtrip.
Qed.

Lemma stored_name root cps name n :
  stored root cps -> Hmac.size_of_name name = Some n -> is_Some (Hmac.read_json name root) ->
  exists cp, cp ∈ cps /\ n = lc_mmr_size cp /\ name = Hmac._checkpoint_name n.
Proof.
  intros [Hs _ Hf] Hn [v Hv]. assert (name <> Hmac._CONFIG_FILE) as Hc.
  { intros ->. unfold Hmac.size_of_name in Hn. by rewrite bool_decide_true in Hn. }
  apply (Hf name v Hc) in Hv as (cp & Hcp & -> & _). exists cp. rewrite Forall_forall in Hs.
  rewrite size_of_checkpoint_name in Hn by auto. by injection Hn as <-.
Qed.

Lemma stored_list root cps : stored root cps -> Hmac.list_checkpoints root = map lc_mmr_size cps.
Proof.
  intros H. pose proof H as [Hs Hsort Hf]. destruct root as [d|]; cbn [Hmac.list_checkpoints].
  2:{ destruct cps as [|cp cps]; [done|]. apply Forall_cons in Hs as [Hcp _].
      pose proof (proj2 (Hf _ (LedgerCheckpoint.to_dict cp) (checkpoint_name_config _ Hcp))
        ltac:(exists cp; split; [left|done])) as E. done. }
  apply sort_sizes_eq; [done|].
  assert (Hin : forall name, name ∈ map fst (map_to_list (Hmac.json_files d)) <-> is_Some (Hmac.read_json name (Some d))).
  { intros name. unfold Hmac.read_json. cbn. rewrite list_elem_of_fmap. split.
    - intros ([k v] & -> & Hkv%elem_of_map_to_list). by exists v.
    - intros [v Hv]. exists (name, v). split; [done|]. by apply elem_of_map_to_list. }
  apply NoDup_Permutation.
  - apply NoDup_omap_inj; [apply NoDup_fst_map_to_list|]. intros x y n Hx Hy Ex Ey.
    apply Hin in Hx, Hy. destruct (stored_name _ _ _ _ H Ex Hx) as (_ & _ & _ & ->), (stored_name _ _ _ _ H Ey Hy) as (_ & _ & _ & ->).
    done.
  - by apply sorted_NoDup.
  - intros n. rewrite list_elem_of_omap, list_elem_of_fmap. split.
    + intros (name & Hname%Hin & En). destruct (stored_name _ _ _ _ H En Hname) as (cp & Hcp & -> & _). by exists cp.
    + intros (cp & -> & Hcp). rewrite Forall_forall in Hs. specialize (Hs _ Hcp). exists (Hmac._checkpoint_name (lc_mmr_size cp)).
      split; [|by apply size_of_checkpoint_name]. apply Hin. exists (LedgerCheckpoint.to_dict cp).
      apply (Hf _ _ (checkpoint_name_config _ Hs)). by exists cp.
Qed.

Lemma stored_latest root cps : stored root cps -> Hmac.load_latest_checkpoint root = Ok (last cps).
Proof.
  intros H. unfold Hmac.load_latest_checkpoint. rewrite (stored_list root cps) by done.
  destruct cps as [|cp cps _] using rev_ind; [done|]. rewrite map_app. cbn [map]. rewrite !last_snoc.
  eapply stored_load; [done|]. apply elem_of_app. right. left.
Qed.

Lemma stored_save root cps cp :
  stored root cps -> 0 <= lc_mmr_size cp < 10 ^ 20 -> Forall (fun p => lc_mmr_size p < lc_mmr_size cp) cps ->
  stored (Hmac.save_checkpoint root cp) (cps ++ [cp]).
Proof.
  intros [Hs Hsort Hf] Hcp Hlt. constructor.
  - apply Forall_app_2; [done|]. by constructor.
  - rewrite map_app. apply StronglySorted_app_2; [|done|repeat constructor].
    intros x y (p & -> & Hp)%list_elem_of_fmap Hy. cbn in Hy. apply list_elem_of_singleton in Hy as ->.
    rewrite Forall_forall in Hlt. by apply Hlt.
  - intros name v Hc. unfold Hmac.save_checkpoint, Hmac.write_json, Hmac.read_json. cbn.
    assert (Hmac.json_files (Hmac.made root) !! name = Hmac.read_json name root) as E by by destruct root.
    destruct (decide (name = Hmac._checkpoint_name (lc_mmr_size cp))) as [->|Hne].
    + rewrite lookup_insert_eq. split.
      * intros [= <-]. exists cp. split; [apply elem_of_app; right; left|done].
      * intros (p & Hp & En & ->). apply elem_of_app in Hp as [Hp|Hp]; [|by apply list_elem_of_singleton in Hp as ->].
        rewrite Forall_forall in Hs, Hlt. apply checkpoint_name_inj in En; [|done|by apply Hs]. specialize (Hlt _ Hp). lia.
    + rewrite lookup_insert_ne by done. rewrite E, Hf by done. split; intros (p & Hp & En & ->).
      * exists p. split; [by apply elem_of_app; left|done].
      * apply elem_of_app in Hp as [Hp|Hp]; [by exists p|]. apply list_elem_of_singleton in Hp as ->. done.
Qed.

Lemma stored_config root cps cfg : stored root cps -> stored (Hmac.save_config root cfg) cps.
Proof.
  intros [Hs Hsort Hf]. constructor; [done|done|]. intros name v Hc. rewrite <- Hf by done.
  unfold Hmac.save_config, Hmac.write_json, Hmac.read_json. cbn. rewrite lookup_insert_ne by done. by destruct root.
Qed.
End storage.

(** ** The chain *)
Section chain.
Context {PI : Interp} {HL : Hashlib}.
Implicit Types (cp : LedgerCheckpoint) (cps : list LedgerCheckpoint) (bodies : list bytes).

(** [cp] names the first [k] records of [bodies]. *)
Definition names bodies cp (k : Z) : Prop :=
  0 < k <= zlen bodies /\ lc_mmr_size cp = nc k /\ lc_root cp = JStr (hex (mmr_root (map lh (take (Z.to_nat k) bodies)))).
Definition of_log bodies cp : Prop := exists k, names bodies cp k.

(** Each checkpoint names the size and the root of the one before. *)
Definition follows (p : option LedgerCheckpoint) cp : Prop :=
  match p with
  | Some p => lc_prev_size cp = lc_mmr_size p /\ lc_prev_root cp = lc_root p /\ lc_mmr_size p < lc_mmr_size cp
  | None => lc_prev_size cp = 0 /\ lc_prev_root cp = JStr []
  end.

Definition linked cps : Prop :=
  forall i cp, cps !! i = Some cp -> follows (match i with O => None | S j => cps !! j end) cp.

Lemma linked_snoc cps cp : linked cps -> follows (last cps) cp -> linked (cps ++ [cp]).
Proof.
  intros Hl Hf i c Hc. destruct (decide (i < length cps)%nat) as [Hi|Hi].
  - rewrite lookup_app_l in Hc by done. specialize (Hl i c Hc). destruct i as [|j]; [done|].
    by rewrite lookup_app_l by lia.
  - rewrite lookup_app_r in Hc by lia. apply list_lookup_singleton_Some in Hc as [Ei ->].
    assert (i = length cps) as -> by lia. destruct cps as [|x cps _] using rev_ind; [done|].
    rewrite last_snoc in Hf. rewrite length_app. cbn [length]. rewrite Nat.add_1_r.
    by rewrite lookup_app_l, lookup_app_r, Nat.sub_diag by (rewrite ?length_app; cbn; lia).
Qed.

Lemma names_take bodies bodies' cp k m :
  names bodies cp k -> k <= m -> m <= zlen bodies' -> take (Z.to_nat m) bodies' = take (Z.to_nat m) bodies -> names bodies' cp k.
Proof.
  intros (Hk & Hs & Hr) Hm Hlen E. split; [lia|]. split; [done|]. apply (f_equal (take (Z.to_nat k))) in E.
  rewrite !take_take, !Nat.min_l in E by lia. by rewrite Hr, E.
Qed.

Lemma names_before bodies bodies' cps last_cp m :
  StronglySorted Z.lt (map lc_mmr_size cps) -> last cps = Some last_cp -> Forall (of_log bodies) cps ->
  names bodies last_cp m -> m <= zlen bodies' -> take (Z.to_nat m) bodies' = take (Z.to_nat m) bodies ->
  Forall (of_log bodies') cps.
Proof.
  intros Hsort Hlast Ho Hm Hlen E. apply Forall_forall. intros cp Hcp. rewrite Forall_forall in Ho.
  destruct (Ho cp Hcp) as [k Hk]. exists k. eapply names_take; [exact Hk| |done|done].
  destruct (decide (k <= m)) as [|Hlt]; [done|]. exfalso.
  destruct cps as [|x cps _] using rev_ind; [done|]. rewrite last_snoc in Hlast. injection Hlast as ->.
  destruct Hk as (? & Ek & _), Hm as (? & Em & _). pose proof (nc_lt m k ltac:(lia)).
  apply elem_of_app in Hcp as [Hcp|Hcp]; [|apply list_elem_of_singleton in Hcp as ->; lia].
  rewrite map_app in Hsort. assert (lc_mmr_size cp < lc_mmr_size last_cp); [|lia].
  eapply (StronglySorted_app_1_elem_of Z.lt); [exact Hsort| |cbn; left]. by apply list_elem_of_fmap_2.
Qed.
End chain.

(** ** The operator's signature *)
Section signature.
Context {PI : Interp} {HL : Hashlib}.
Implicit Types (cp : LedgerCheckpoint) (s : LocalSigner).

(** The signed fields have their declared types. *)
Definition typed cp : Prop := Emission.typed_record (as_emit cp).

Definition signed_bytes cp : result bytes := Emission.signed_bytes (as_emit cp).

Lemma digest_total cp : typed cp -> exists x, signed_bytes cp = Ok x /\ LedgerCheckpoint.digest cp = Ok (hex (sha256 x)).
Proof.
  intros Ht. destruct (Emission.signed_bytes_total (as_emit cp) Ht) as (_ & x & _ & _ & E). exists x.
  split; [exact E|]. rewrite <- digest_as_emit, Emission.digest_eq. by rewrite E.
Qed.

(** What HMAC hashes: the inner string and the outer one. *)
Definition hmac_key (key : bytes) : bytes :=
  let key := if 64 <? zlen key then sha256 key else key in key ++ zeros (64 - length key).
Definition hmac_inner (key msg : bytes) : bytes := xor_pad 0x36 (hmac_key key) ++ msg.
Definition hmac_outer (key msg : bytes) : bytes := xor_pad 0x5C (hmac_key key) ++ sha256 (hmac_inner key msg).

Lemma hmac_eq key msg : hmac_sha256 key msg = sha256 (hmac_outer key msg).
Proof. reflexivity. Qed.

(** A message under one key is fixed by its HMAC, or SHA-256 collides on
    what HMAC hashes. *)
Lemma hmac_binding key msg msg' :
  hmac_sha256 key msg = hmac_sha256 key msg' ->
  msg = msg' \/ collides [hmac_inner key msg; hmac_outer key msg] [hmac_inner key msg'; hmac_outer key msg'].
Proof.
  rewrite !hmac_eq. intros E. destruct (decide (hmac_outer key msg = hmac_outer key msg')) as [Eo|Hne].
  - unfold hmac_outer in Eo. apply app_inv_head in Eo.
    destruct (decide (hmac_inner key msg = hmac_inner key msg')) as [Ei|Hne].
    + left. by apply app_inv_head in Ei.
    + right. exists (hmac_inner key msg), (hmac_inner key msg'). split_and!; [left|left|done].
  - right. exists (hmac_outer key msg), (hmac_outer key msg'). split_and!; [right; left|right; left|done].
Qed.

Lemma encode_hex bs : encode_ascii (hex bs) = Ok (map z2b (hex bs)).
Proof.
  unfold encode_ascii. assert (forallb (fun c => (0 <=? c) && (c <? 128)) (hex bs) = true) as ->; [|done].
  apply forallb_forall. intros c Hc%list_elem_of_In. pose proof (hex_ascii bs) as H. unfold ascii in H. rewrite Forall_forall in H.
  specialize (H c Hc). cbn in H. lia.
Qed.

Lemma encode_inj bs cs : map z2b (hex bs) = map z2b (hex cs) -> bs = cs.
Proof.
  intros E. apply hex_inj. pose proof (hex_ascii bs) as Hb. pose proof (hex_ascii cs) as Hc. unfold ascii in *.
  revert E Hb Hc. generalize (hex bs) (hex cs). clear. intros l. induction l as [|x l IH]; intros [|y k] E Hb Hc; try done.
  cbn in E. injection E as Ex El. apply Forall_cons in Hb as [Hx Hb], Hc as [Hy Hc].
  apply (f_equal b2z) in Ex. rewrite !b2z_small in Ex by lia. f_equal; [done|by apply IH].
Qed.

Lemma local_sign s x : sign (local_signer s) (hex x) = Ok (hex (hmac_sha256 (secret s) (map z2b (hex x)))).
Proof. cbn. unfold LocalSigner_sign. by rewrite encode_hex. Qed.

Lemma verified_signature cp s x :
  signed_bytes cp = Ok x -> Hmac.verify_checkpoint_signature cp (local_signer s) = true ->
  lc_signature cp = JStr (hex (hmac_sha256 (secret s) (map z2b (hex (sha256 x))))).
Proof.
  intros Ex. unfold Hmac.verify_checkpoint_signature. rewrite <- digest_as_emit, Emission.digest_eq.
  change (Emission.signed_bytes (as_emit cp)) with (signed_bytes cp). rewrite Ex, local_sign. cbn [catch_false].
  unfold is_text. destruct (lc_signature cp); try done. intros H. zbool. by subst.
Qed.

(** Every string that SHA-256 is given to check the signature of [cp]. *)
Definition signature_preimages s (x : bytes) : list bytes :=
  let msg := map z2b (hex (sha256 x)) in [x; hmac_inner (secret s) msg; hmac_outer (secret s) msg].

(** A checkpoint that is emitted is signed: its fields are texts. *)
Definition texts s (log_id timestamp : pystr) : Prop := text (signer_key_id s) /\ text log_id /\ text timestamp.

Lemma ledger_unsigned_typed bodies s log_id timestamp prev :
  texts s log_id timestamp -> nc (zlen bodies) < MAX_MMR_SIZE ->
  (forall p, prev = Some p -> 0 <= lc_mmr_size p < 2 ^ 64 /\ exists r, lc_root p = JStr (hex r)) ->
  typed (unsigned bodies (local_signer s) log_id timestamp prev).
Proof.
  intros (Hk & Hl & Ht) Hmax Hp. unfold typed.
  replace (as_emit (unsigned bodies (local_signer s) log_id timestamp prev)) with
    (Emission.unsigned bodies (local_signer s) log_id timestamp (option_map as_emit prev)) by by destruct prev.
  apply Emission.unsigned_typed; [done..|]. intros q Hq. destruct prev as [p|]; [|done]. injection Hq as <-. by apply Hp.
Qed.

Lemma ledger_signed_total cp s : typed cp -> exists cp', signed (local_signer s) cp = Ok cp'.
Proof.
  intros Ht. destruct (digest_total cp Ht) as (x & _ & E). unfold signed. rewrite E, local_sign. by eexists.
Qed.

Lemma typed_signed cp sig : typed cp -> typed (LedgerCheckpoint.with_signature cp sig).
Proof. intros [Ht Hc]. by constructor. Qed.
End signature.

(** ** The next checkpoint *)
Section next.
Context {PI : Interp} {HL : Hashlib} {L capsule St : Type} {LS : LogSource L capsule}
  {NS : NodeStore St} {NSL : NodeStoreLaws St}.
Implicit Types (mmr : MmrLedger L St) (cp : LedgerCheckpoint) (cps : list LedgerCheckpoint).

Lemma last_greatest cps p cp :
  StronglySorted Z.lt (map lc_mmr_size cps) -> last cps = Some p -> lc_mmr_size p < lc_mmr_size cp ->
  Forall (fun q => lc_mmr_size q < lc_mmr_size cp) cps.
Proof.
  intros Hs Hp Hlt. apply Forall_forall. intros q Hq. destruct cps as [|x cps _] using rev_ind; [done|].
  rewrite last_snoc in Hp. injection Hp as ->. apply elem_of_app in Hq as [Hq|Hq]; [|by apply list_elem_of_singleton in Hq as ->].
  rewrite map_app in Hs. assert (lc_mmr_size q < lc_mmr_size p); [|lia].
  eapply (StronglySorted_app_1_elem_of Z.lt); [exact Hs| |cbn; left]. by apply list_elem_of_fmap_2.
Qed.

Lemma next_stored root cps cp :
  stored root cps -> linked cps -> 0 <= lc_mmr_size cp < 10 ^ 20 -> follows (last cps) cp ->
  stored (Hmac.save_checkpoint root cp) (cps ++ [cp]) /\ linked (cps ++ [cp]) /\
  Hmac.load_latest_checkpoint (Hmac.save_checkpoint root cp) = Ok (Some cp).
Proof.
  intros Hst Hl Hs Hf. assert (stored (Hmac.save_checkpoint root cp) (cps ++ [cp])) as H.
  { apply stored_save; [done|done|]. destruct (last cps) as [p|] eqn:Ep.
    - eapply last_greatest; [apply Hst|exact Ep|apply Hf].
    - apply last_None in Ep as ->. constructor. }
  split; [done|]. split; [by apply linked_snoc|]. erewrite stored_latest by done. by rewrite last_snoc.
Qed.

Lemma names_all bodies cp :
  bodies <> [] -> lc_mmr_size cp = nc (zlen bodies) -> lc_root cp = JStr (hex (mmr_root (map lh bodies))) ->
  names bodies cp (zlen bodies).
Proof.
  intros Hne Hs Hr. pose proof (zlen_nonneg bodies). split.
  - destruct bodies; [done|]. unfold zlen in *. cbn [length] in *. lia.
  - split; [done|]. unfold zlen. by rewrite Nat2Z.id, take_ge.
Qed.

(** The records that the last checkpoint named are those of this log. *)
Lemma names_same old bodies cps p k :
  StronglySorted Z.lt (map lc_mmr_size cps) -> last cps = Some p -> Forall (of_log old) cps -> names old p k ->
  k <= zlen bodies -> mmr_root (map lh (take (Z.to_nat k) old)) = mmr_root (map lh (take (Z.to_nat k) bodies)) ->
  Forall (of_log bodies) cps \/ exists k, collides (mmr_preimages (take k old)) (mmr_preimages (take k bodies)).
Proof.
  intros Hs Hp Ho Hk Hlen Hr. destruct Hk as (Hk & Hsz & Hroot). apply root_binding_core in Hr as [E|Hc].
  - left. eapply (names_before old); [done|done|done|by split|done|done].
  - right. by exists (Z.to_nat k).
  - unfold zlen in *. rewrite !length_take. lia.
Qed.

(** The cases of emission after the chain. *)
Lemma chain_cases mmr s root cps old log_id timestamp now :
  stored root cps -> Forall (of_log old) cps -> indexed mmr -> nc (zlen (_body_digests mmr)) < MAX_MMR_SIZE ->
  (exists k, (forall p, last cps = Some p -> names old p k) /\
   (let! prev := Hmac.load_latest_checkpoint root in
    Hmac.emit_checkpoint mmr (local_signer s) prev timestamp log_id now) =
   emission (_body_digests mmr) (local_signer s) log_id (default (second_text now) timestamp) (last cps) k).
Proof.
  intros Hst Ho Hi Hmax. rewrite (stored_latest root cps) by done. destruct (last cps) as [p|] eqn:Ep.
  - assert (of_log old p) as [k Hk].
    { rewrite Forall_forall in Ho. apply Ho. destruct cps as [|x cps _] using rev_ind; [done|].
      rewrite last_snoc in Ep. injection Ep as ->. apply elem_of_app. right. left. }
    exists k. split; [by intros ? [= <-]|]. apply emission_eq; [done|done|]. intros ? [= <-]. destruct Hk as (? & ? & _). split; [lia|done].
  - exists 0. split; [done|]. by apply emission_eq.
Qed.

Lemma consistency_next mmr p cp k :
  indexed mmr -> 0 <= k < zlen (_body_digests mmr) -> nc (zlen (_body_digests mmr)) < MAX_MMR_SIZE ->
  lc_mmr_size p = nc k -> lc_mmr_size cp = nc (zlen (_body_digests mmr)) ->
  lc_prev_size cp = lc_mmr_size p -> lc_prev_root cp = JStr (hex (mmr_root (map lh (take (Z.to_nat k) (_body_digests mmr))))) ->
  Hmac.verify_checkpoint_consistency p cp mmr = true.
Proof.
  intros Hi Hk Hmax Ep Ec Es Er. unfold Hmac.verify_checkpoint_consistency. rewrite Es, Z.eqb_refl, Ec, Ep. cbn [negb].
  pose proof (nc_lt k (zlen (_body_digests mmr)) ltac:(lia)). rw_bool (nc (zlen (_body_digests mmr)) <=? nc k) false.
  rewrite root_hex_emit, Emission.root_hex_eq by (done || lia). rewrite Er. cbn. by rewrite bool_decide_true.
Qed.
End next.
End HmacProps.

(** The operator's signature fixes what it signs: when two checkpoints
    carry one signature and both verify with the local signer, every signed
    field is the same, or two strings hashed on the way to the two signatures
    collide. *)
Theorem operator_signature_binding {PI : Interp} {HL : Hashlib} (s : LocalSigner) (cp cp' : LedgerCheckpoint) :
  HmacProps.typed cp -> HmacProps.typed cp' ->
  Hmac.verify_checkpoint_signature cp (local_signer s) = true ->
  Hmac.verify_checkpoint_signature cp' (local_signer s) = true ->
  lc_signature cp = lc_signature cp' ->
  exists x y, HmacProps.signed_bytes cp = Ok x /\ HmacProps.signed_bytes cp' = Ok y /\
    (LedgerCheckpoint.body_fields cp = LedgerCheckpoint.body_fields cp' \/
     collides (HmacProps.signature_preimages s x) (HmacProps.signature_preimages s y)).
Proof.
  intros Ht Ht' Hv Hv' E. destruct (HmacProps.digest_total cp Ht) as (x & Ex & _), (HmacProps.digest_total cp' Ht') as (y & Ey & _).
  exists x, y. split; [done|]. split; [done|].
  rewrite (HmacProps.verified_signature cp s x Ex Hv), (HmacProps.verified_signature cp' s y Ey Hv') in E.
  injection E as E%hex_inj. apply HmacProps.hmac_binding in E as [E%HmacProps.encode_inj|E].
  - destruct (decide (x = y)) as [->|Hne].
    + left. apply (Emission.signed_bytes_inj (HmacProps.as_emit cp) (HmacProps.as_emit cp') y Ht Ht' Ex Ey).
    + right. exists x, y. split_and!; [left|left|done].
  - right. eapply collides_mono; [| |exact E]; intros z Hz; by right.
Qed.

(** [C33] The checkpoints in [checkpoints/] form a chain, each naming the one
    before, and the next one extends it. After the stored chain of a log [old],
    emitting from any index either stores a checkpoint of all its records,
    which verifies and is the latest, and then every stored checkpoint is of
    this log, unless hashes collide; or is refused, and then the index is
    empty, has no more records than the last checkpoint, or lost its records. *)
Theorem checkpoint_chain {PI : Interp} {HL : Hashlib} {L capsule St} {LS : LogSource L capsule}
    {NS : NodeStore St} {NSL : NodeStoreLaws St} (mmr : MmrLedger L St) (s : LocalSigner)
    (root : Hmac.Root) (cps : list LedgerCheckpoint) (old : list bytes)
    (log_id : pystr) (timestamp : option pystr) (now : instant) :
  HmacProps.stored root cps -> HmacProps.linked cps -> Forall (HmacProps.of_log old) cps ->
  indexed mmr -> nc (zlen (_body_digests mmr)) < MAX_MMR_SIZE -> nc (zlen old) < MAX_MMR_SIZE ->
  HmacProps.texts s log_id (default (second_text now) timestamp) ->
  match (let! prev := Hmac.load_latest_checkpoint root in
         Hmac.emit_checkpoint mmr (local_signer s) prev timestamp log_id now) with
  | Ok cp =>
      HmacProps.stored (Hmac.save_checkpoint root cp) (cps ++ [cp]) /\ HmacProps.linked (cps ++ [cp]) /\
      Hmac.load_latest_checkpoint (Hmac.save_checkpoint root cp) = Ok (Some cp) /\
      Hmac.verify_checkpoint_signature cp (local_signer s) = true /\
      (forall p, last cps = Some p -> Hmac.verify_checkpoint_consistency p cp mmr = true) /\
      HmacProps.names (_body_digests mmr) cp (zlen (_body_digests mmr)) /\
      (Forall (HmacProps.of_log (_body_digests mmr)) (cps ++ [cp]) \/
       exists k, collides (mmr_preimages (take k old)) (mmr_preimages (take k (_body_digests mmr))))
  | Raise e =>
      e = CheckpointError /\ _body_digests mmr = [] \/
      e = RollbackError /\ exists p k, last cps = Some p /\ HmacProps.names old p k /\
        (zlen (_body_digests mmr) <= k \/ take (Z.to_nat k) (_body_digests mmr) <> take (Z.to_nat k) old)
  end.
Proof.
  intros Hst Hl Ho Hi Hmax Hmaxo Ht. set (bodies := _body_digests mmr) in *.
  destruct (HmacProps.chain_cases mmr s root cps old log_id timestamp now Hst Ho Hi Hmax) as (k & Hk & ->). fold bodies.
  unfold HmacProps.emission. destruct (zlen bodies =? 0) eqn:E0; zbool.
  { left. split; [done|]. by destruct bodies. }
  assert (bodies <> []) as Hne by (intros ->; done). assert (MAX_MMR_SIZE < 10 ^ 20) as Hm by (vm_compute; done).
  pose proof (nc_ge (zlen bodies) (zlen_nonneg bodies)). pose proof (zlen_nonneg bodies).
  assert (forall cp' cp, HmacProps.signed (local_signer s) cp = Ok cp' -> exists sig, cp' = LedgerCheckpoint.with_signature cp sig /\
    Hmac.verify_checkpoint_signature cp' (local_signer s) = true) as Hsig by (intros; by eapply HmacProps.signed_spec).
  destruct (last cps) as [p|] eqn:Ep.
  - destruct (Hk p eq_refl) as (Hkr & Esz & Er). destruct (zlen bodies <=? k) eqn:Ek; zbool.
    { right. split; [done|]. exists p, k. split; [done|]. split; [exact (Hk p eq_refl)|by left]. }
    rewrite Er. cbn [is_text]. case_bool_decide as Eb; [|right; split; [done|]; exists p, k; split; [done|]; split; [exact (Hk p eq_refl)|right; congruence]].
    apply hex_inj in Eb.
    destruct (HmacProps.ledger_signed_total (HmacProps.unsigned bodies (local_signer s) log_id (default (second_text now) timestamp) (Some p)) s)
      as [cp Hcp].
    { apply HmacProps.ledger_unsigned_typed; [done|done|]. intros ? [= <-]. pose proof (nc_lt k (zlen bodies) ltac:(lia)).
      pose proof (nc_ge k ltac:(lia)). split; [rewrite Esz; unfold MAX_MMR_SIZE in *; lia|]. by eexists. }
    rewrite Hcp. destruct (Hsig _ _ Hcp) as (sig & -> & Hv). set (cp := LedgerCheckpoint.with_signature _ _) in *.
    destruct (HmacProps.next_stored root cps cp Hst Hl) as (H1 & H2 & H3).
    { cbn. lia. }
    { rewrite Ep. cbn. split_and!; [done|done|]. rewrite Esz. apply nc_lt. lia. }
    split; [exact H1|]. split; [exact H2|]. split; [exact H3|]. split; [exact Hv|]. split; [|split].
    + intros q [= <-]. eapply (HmacProps.consistency_next mmr p cp k); [exact Hi|fold bodies; lia|exact Hmax|exact Esz|reflexivity|reflexivity|].
      cbn [cp lc_prev_root LedgerCheckpoint.with_signature HmacProps.unsigned]. by rewrite Er, Eb.
    + by apply HmacProps.names_all.
    + destruct (HmacProps.names_same old bodies cps p k (HmacProps.st_sorted _ _ Hst) Ep Ho (Hk p eq_refl) ltac:(lia) Eb) as [Hf|Hc];
        [|by right].
      left. apply Forall_app_2; [done|]. constructor; [|constructor]. exists (zlen bodies). by apply HmacProps.names_all.
  - destruct (HmacProps.ledger_signed_total (HmacProps.unsigned bodies (local_signer s) log_id (default (second_text now) timestamp) None) s)
      as [cp Hcp]; [apply HmacProps.ledger_unsigned_typed; [done|done|by intros ? [=]]|].
    rewrite Hcp. destruct (Hsig _ _ Hcp) as (sig & -> & Hv). set (cp := LedgerCheckpoint.with_signature _ _) in *.
    destruct (HmacProps.next_stored root cps cp Hst Hl) as (H1 & H2 & H3); [cbn; lia|rewrite Ep; split; reflexivity|].
    split; [exact H1|]. split; [exact H2|]. split; [exact H3|]. split; [exact Hv|]. split; [by intros ? [=]|].
    split; [by apply HmacProps.names_all|]. left. apply last_None in Ep as ->.
    constructor; [|constructor]. exists (zlen bodies). by apply HmacProps.names_all.
Qed.

(** The two kinds of checkpoint have one wire form: a checkpoint of the
    ledger is written, digested and read back as the record of [Emit] with the
    same fields, and whatever [Emit] reads the ledger reads, with the same
    digest and signature. *)
Theorem ledger_wire_identical {PI : Interp} {HL : Hashlib} (cp : LedgerCheckpoint) :
  CheckpointRecord.to_dict (HmacProps.as_emit cp) = LedgerCheckpoint.to_dict cp /\
  CheckpointRecord.digest (HmacProps.as_emit cp) = LedgerCheckpoint.digest cp /\
  LedgerCheckpoint.from_dict (LedgerCheckpoint.to_dict cp) = Ok cp /\
  CheckpointRecord.from_dict (LedgerCheckpoint.to_dict cp) = Ok (HmacProps.as_emit cp) /\
  forall d r, CheckpointRecord.from_dict d = Ok r ->
    exists cp', LedgerCheckpoint.from_dict d = Ok cp' /\ LedgerCheckpoint.digest cp' = CheckpointRecord.digest r /\
                lc_signature cp' = c_signature r.
Proof.
  split; [apply HmacProps.to_dict_as_emit|]. split; [apply HmacProps.digest_as_emit|].
  split; [apply HmacProps.ledger_checkpoint_roundtrip|]. split; [apply HmacProps.emit_reads|].
  intros d r H. destruct (HmacProps.ledger_reads d r H) as (cp' & H1 & H2 & H3). exists cp'.
  split; [done|]. split; [|done]. unfold LedgerCheckpoint.digest, LedgerCheckpoint.signing_body. by rewrite H2.
Qed.

(** ** Examples *)
Module DemoHmac.
#[export] Existing Instance Sha256.hashlib.
#[export] Existing Instance plain_interp.
#[export] Existing Instance DemoIndex.list_log.

Definition operator : LocalSigner := {| signer_key_id := str "op"; secret := map z2b (str "key") |}.
Definition emitted (r : result LedgerCheckpoint) : LedgerCheckpoint :=
  match r with Ok cp => cp | Raise _ => HmacProps.unsigned [] (local_signer operator) [] [] None end.

(** The checkpoint of five records, alone in its directory. *)
Definition first_cp : LedgerCheckpoint := Eval vm_compute in
  emitted (Hmac.emit_checkpoint DemoEmit.index (local_signer operator) None (Some DemoEmit.time) [] 0).
Definition root1 : Hmac.Root := Hmac.save_checkpoint None first_cp.

Lemma first_stored : HmacProps.stored root1 [first_cp] /\ HmacProps.linked [first_cp].
Proof.
  destruct (HmacProps.next_stored None [] first_cp HmacProps.stored_none) as (H1 & H2 & _).
  - intros i cp Hi. by rewrite lookup_nil in Hi.
  - split; [vm_compute; congruence|vm_compute; reflexivity].
  - split; reflexivity.
  - split; [exact H1|exact H2].
Qed.

Lemma first_named : HmacProps.names (_body_digests DemoEmit.index) first_cp 5.
Proof. split; [by vm_compute|]. split; vm_compute; reflexivity. Qed.

Lemma ascii_texts : HmacProps.texts operator [] DemoEmit.time.
Proof. split_and!; eexists; vm_compute; reflexivity. Qed.

Lemma first_typed : HmacProps.typed first_cp.
Proof.
  assert (first_cp = LedgerCheckpoint.with_signature
            (HmacProps.unsigned (_body_digests DemoEmit.index) (local_signer operator) [] DemoEmit.time None)
            (match lc_signature first_cp with JStr sig => sig | _ => [] end)) as E by (vm_compute; reflexivity).
  rewrite E. apply HmacProps.typed_signed, HmacProps.ledger_unsigned_typed; [exact ascii_texts|by vm_compute|by intros ? [=]].
Qed.

(** Two services with one cached key. *)
Example pubkey_cache_collision :
  Hmac.pubkey_file (str "https://ts.example") = Hmac.pubkey_file (str "https://ts/example").
Proof. vm_compute. reflexivity. Qed.

(** Emission does not compare log ids. *)
Example foreign_previous :
  match Hmac.emit_checkpoint DemoEmit.later (local_signer operator) (Some first_cp) (Some DemoEmit.time) (str "other") 0 with
  | Ok cp => lc_log_id cp = JStr (str "other") /\ lc_log_id first_cp = JStr [] /\ lc_prev_root cp = lc_root first_cp /\
             Hmac.verify_checkpoint_consistency first_cp cp DemoEmit.later = true
  | Raise _ => False
  end.
Proof. vm_compute. repeat split. Qed.
End DemoHmac.

Lemma checkpoint_chain_witness :
  let HL := Sha256.hashlib in let PI := plain_interp in let LS := DemoIndex.list_log in
  exists cp, (let! prev := Hmac.load_latest_checkpoint DemoHmac.root1 in
              Hmac.emit_checkpoint DemoEmit.later (local_signer DemoHmac.operator) prev (Some DemoEmit.time) [] 0) = Ok cp /\
    HmacProps.linked [DemoHmac.first_cp; cp] /\ Hmac.load_latest_checkpoint (Hmac.save_checkpoint DemoHmac.root1 cp) = Ok (Some cp).
Proof.
  intros HL PI LS. destruct DemoHmac.first_stored as [Hs Hl].
  pose proof (checkpoint_chain DemoEmit.later DemoHmac.operator DemoHmac.root1 [DemoHmac.first_cp] (_body_digests DemoEmit.index)
    [] (Some DemoEmit.time) 0 Hs Hl (Forall_cons_2 _ _ _ (ex_intro _ 5 DemoHmac.first_named) (Forall_nil_2 _))
    (proj1 DemoEmit.later_extends) ltac:(by vm_compute) ltac:(by vm_compute) DemoHmac.ascii_texts) as H.
  assert (is_ok (let! prev := Hmac.load_latest_checkpoint DemoHmac.root1 in
              Hmac.emit_checkpoint DemoEmit.later (local_signer DemoHmac.operator) prev (Some DemoEmit.time) [] 0) = true) as E
    by (vm_compute; reflexivity).
  destruct (let! prev := _ in _) as [cp|e]; [|discriminate E]. exists cp. split; [reflexivity|]. split; apply H.
Defined.

Lemma operator_signature_binding_witness :
  let HL := Sha256.hashlib in let PI := plain_interp in
  exists x y, HmacProps.signed_bytes DemoHmac.first_cp = Ok x /\ HmacProps.signed_bytes DemoHmac.first_cp = Ok y /\
    (LedgerCheckpoint.body_fields DemoHmac.first_cp = LedgerCheckpoint.body_fields DemoHmac.first_cp \/
     collides (HmacProps.signature_preimages DemoHmac.operator x) (HmacProps.signature_preimages DemoHmac.operator y)).
Proof.
  intros HL PI.
  pose proof DemoHmac.first_typed as Ht.
  apply (operator_signature_binding DemoHmac.operator); [exact Ht|exact Ht|vm_compute; reflexivity..|reflexivity].
Defined.
