(* ===== verification/Admission.v ===== *)
(** * Admission to the ledger

    [src/python/ledger/admission.py] and [records.py]: the three-state
    contract of an append, dispatched on the mode the request declares, and
    the record an append returns. The package [agent_action_capsule] computes
    capsule ids and verifies producer envelopes; it is third-party code. *)
From S2P Require Import Prelude Bytes Text Json JsonProps PyJson Sha256 Ed25519 Emit.
Open Scope Z_scope.

(** ** Third-party code *)
Record EnvelopeResult := { er_ok : bool; er_public_key : option bytes }.

Class AgentActionCapsule := {
  compute_capsule_id : json -> result pystr;
  verify_producer_envelope : pystr -> bytes -> result EnvelopeResult
}.

(** ** Requests *)
Definition UNSIGNED : pystr := str "unsigned".
Definition SIGNED : pystr := str "signed".
Definition ADMISSION_MODES : list pystr := [UNSIGNED; SIGNED].
Definition AUTHENTICITY_UNSIGNED : pystr := str "unsigned".
Definition AUTHENTICITY_SIGNED : pystr := str "signed".

Record ProducerEnvelope := { envelope : json; env_key_id : json }.
Record AdmissionRequest := { mode : pystr; envelopes : list ProducerEnvelope }.

(** [__post_init__] *)
Definition make_request (mode : pystr) (envelopes : list ProducerEnvelope) : result AdmissionRequest :=
  if negb (bool_decide (mode ∈ ADMISSION_MODES)) then Raise ValueError
  else if bool_decide (mode = UNSIGNED) && (0 <? zlen envelopes) then Raise ValueError
  else Ok {| mode := mode; envelopes := envelopes |}.

Definition as_bundled (self : ProducerEnvelope) : json :=
  JDict [(str "envelope", envelope self); (str "key_id", env_key_id self)].

Record _Resolution := {
  authenticity : pystr; verified_envelopes : list ProducerEnvelope; resolved_id : option pystr
}.

(** The record of [records.py]. *)
Record LedgerRecord := {
  lr_seq : Z; lr_capsule_id : pystr; lr_capsule : json; lr_segment : pystr; lr_consequential : bool;
  lr_authenticity : pystr; lr_envelopes : list ProducerEnvelope
}.

(** ** The contract *)
Section admission.
Context {HL : Hashlib} {AC : AgentActionCapsule}.

Definition is_str (v : json) : bool := match v with JStr _ => true | _ => false end.

Definition _candidate_envelopes (capsule : json) (request : AdmissionRequest) : result (list ProducerEnvelope) :=
  let candidates := envelopes request in
  let! embedded := get_or capsule (str "signature") JNull in
  let! embedded_kid := get_or capsule (str "key_id") JNull in
  Ok (if is_str embedded && is_str embedded_kid
      then candidates ++ [{| envelope := embedded; env_key_id := embedded_kid |}]
      else candidates).

(** [ValueError] with its subclass [UnicodeError], or [TypeError]. *)
Definition value_or_type_error (e : exn) : bool := bool_decide (e ∈ [ValueError; UnicodeError; TypeError]).

(** [result.ok and result.public_key == bytes.fromhex(key_id)], over the
    envelope decoded from its text. *)
Definition check_envelope (capsule_id : pystr) (env : ProducerEnvelope) : result bool :=
  let! raw := fromhex_of (envelope env) in
  let! checked := verify_producer_envelope capsule_id raw in
  if er_ok checked then
    let! key := fromhex_of (env_key_id env) in
    Ok (bool_decide (er_public_key checked = Some key))
  else Ok false.

Definition false_on_error (r : result bool) : result bool :=
  match r with
  | Raise e => if value_or_type_error e then Ok false else Raise e
  | Ok b => Ok b
  end.

Definition _verifies (capsule_id : pystr) (env : ProducerEnvelope) : result bool :=
  false_on_error (check_envelope capsule_id env).

Definition resolve_admission (capsule : json) (request : AdmissionRequest) : result _Resolution :=
  if bool_decide (mode request = UNSIGNED) then
    Ok {| authenticity := AUTHENTICITY_UNSIGNED; verified_envelopes := []; resolved_id := None |}
  else
    let! capsule_id := compute_capsule_id capsule in
    let! candidates := _candidate_envelopes capsule request in
    match candidates with
    | [] => Raise (AdmissionRejected envelope_missing)
    | _ =>
        let! verified := filter_result (_verifies capsule_id) candidates in
        match verified with
        | [] => Raise (AdmissionRejected envelope_invalid)
        | _ => Ok {| authenticity := AUTHENTICITY_SIGNED; verified_envelopes := verified;
                     resolved_id := Some capsule_id |}
        end
    end.
End admission.

(** ** A capsule package for examples

    Ids are the digest of the sorted text of the fields but the local ones;
    an envelope is a key of one byte followed by the id it signs. *)
Module DemoAac.
#[export] Existing Instance Sha256.hashlib.
#[export] Existing Instance plain_interp.

Definition local_fields : list pystr := [str "capsule_id"; str "signature"; str "key_id"].

Definition digest_fields (d : list (pystr * json)) : list (pystr * json) :=
  List.filter (fun kv => negb (bool_decide (kv.1 ∈ local_fields))) d.

Definition id_of (capsule : json) : result pystr :=
  match capsule with
  | JDict d => let! t := dumps_sorted (JDict (digest_fields d)) in Ok (hex (sha256 (map z2b t)))
  | _ => Raise TypeError
  end.

#[export] Instance aac : AgentActionCapsule := {|
  compute_capsule_id := id_of;
  verify_producer_envelope := fun cid raw =>
    match raw with
    | [] => Raise ValueError
    | k :: rest => Ok {| er_ok := bool_decide (rest = map z2b cid); er_public_key := Some [k] |}
    end
|}.

Definition sign (k : byte) (cid : pystr) : ProducerEnvelope :=
  {| envelope := JStr (hex (k :: map z2b cid)); env_key_id := JStr (hex [k]) |}.

(** The laws of [StoreAppend] and [StoreRecover] hold of it. *)
Lemma digest_fields_set d k v : k ∈ local_fields -> digest_fields (dict_set d k v) = digest_fields d.
Proof.
  intros Hk. unfold digest_fields. induction d as [|[k' v'] d IH]; cbn [dict_set].
  - cbn [List.filter fst]. by rewrite bool_decide_true.
  - case_bool_decide as E; cbn [List.filter fst]; [subst k'; by rewrite bool_decide_true|]. by rewrite IH.
Qed.

Lemma envelope_excluded d x y cid :
  id_of (JDict d) = Ok cid -> id_of (JDict (dict_set (dict_set d (str "signature") x) (str "key_id") y)) = Ok cid.
Proof. unfold id_of. rewrite !digest_fields_set; [done| |]; unfold local_fields; set_solver. Qed.

Lemma id_errors v e : id_of v = Raise e -> value_or_type_error e = true.
Proof.
  unfold id_of. destruct v; try (by intros [= <-]). unfold dumps_sorted. destruct (dumps_ascii _) eqn:E; [done|].
  intros [= <-]. by apply dumps_ascii_raise in E as ->.
Qed.
End DemoAac.
