(* ===== verification/Revocation.v ===== *)
(** * Time-fenced key revocation

    [src/python/revocation.py]: the windows of signing keys, rebuilt from the
    key rotations recorded in a ledger, and the check of a capsule's claimed
    key and time against them. A field of a capsule may hold any JSON value. *)
From S2P Require Import Prelude Bytes Text Json JsonProps PyJson Cll Calendar.
Open Scope Z_scope.

Definition ROTATION_EVENT : pystr := str "key_rotation".

(** [None] is [JNull]; the key of a window is its key in the map. *)
Record KeyWindow := { activated_at : json; revoked_at : json }.

(** [ok], and the values the reason names. *)
Record RevocationFinding := { rf_ok : bool; rf_reason : option (pystr * pystr * json) }.

Section revocation.
Context {PI : Interp}.

(** [v.get(key) or {}] *)
Definition get_or_empty (v : json) (key : pystr) : result json :=
  let! x := get_or v key JNull in
  Ok (if truthy x then x else JDict []).

(** A rotation: the outgoing key, the incoming key, the time it names. *)
Record Rotation := { old_id : json; new_id : json; rotated_at : json }.

Definition rotation_of (capsule : json) : result (option Rotation) :=
  let! payload := get_or_empty capsule (str "asg_payload") in
  let! event := get_or payload (str "event") JNull in
  if negb (is_text event ROTATION_EVENT) then Ok None
  else
    let! detail := get_or_empty payload (str "detail") in
    let! old_id := get_or detail (str "old_key_id") JNull in
    let! new_id := get_or detail (str "new_key_id") JNull in
    let! rotated_at := get_or detail (str "rotated_at") JNull in
    Ok (Some {| old_id := old_id; new_id := new_id; rotated_at := rotated_at |}).

Notation timeline := (gmap pystr KeyWindow).

Definition retire (windows : timeline) (r : Rotation) : timeline :=
  match old_id r with
  | JStr k =>
      match windows !! k with
      | None => <[k := {| activated_at := JNull; revoked_at := rotated_at r |}]> windows
      | Some {| activated_at := a; revoked_at := JNull |} =>
          <[k := {| activated_at := a; revoked_at := rotated_at r |}]> windows
      | Some _ => windows
      end
  | _ => windows
  end.

Definition activate (windows : timeline) (r : Rotation) : timeline :=
  match new_id r with
  | JStr k =>
      let revoked := match windows !! k with Some w => revoked_at w | None => JNull end in
      <[k := {| activated_at := rotated_at r; revoked_at := revoked |}]> windows
  | _ => windows
  end.

Definition rotate (windows : timeline) (r : Rotation) : timeline := activate (retire windows r) r.

Fixpoint timeline_from (windows : timeline) (capsules : list json) : result timeline :=
  match capsules with
  | [] => Ok windows
  | capsule :: capsules =>
      let! r := rotation_of capsule in
      timeline_from (match r with Some r => rotate windows r | None => windows end) capsules
  end.

(** Over the capsules of [ledger.scan()]. *)
Definition build_key_timeline (capsules : list json) : result timeline := timeline_from ∅ capsules.

Definition check_time_fenced_revocation (capsule : json) (windows : timeline) : result RevocationFinding :=
  let fine := {| rf_ok := true; rf_reason := None |} in
  let! sig := get_or_empty capsule (str "asg_signature") in
  let! key_id := get_or sig (str "key_id") JNull in
  let! timestamp := get_or capsule (str "timestamp") JNull in
  match key_id, timestamp with
  | JStr k, JStr t =>
      match windows !! k with
      | None => Ok fine
      | Some w =>
          match revoked_at w with
          | JNull => Ok fine
          | JStr revoked =>
              if negb (str_leb t revoked)
              then Ok {| rf_ok := false; rf_reason := Some (k, t, JStr revoked) |}
              else Ok fine
          | _ => Raise TypeError
          end
      end
  | _, _ => Ok fine
  end.

(** ** What the timeline holds

    A reference reading of the rotations [rs] of a ledger, in its order. *)
Fixpoint rotations (capsules : list json) : result (list Rotation) :=
  match capsules with
  | [] => Ok []
  | capsule :: capsules =>
      let! r := rotation_of capsule in
      let! rs := rotations capsules in
      Ok (match r with Some r => r :: rs | None => rs end)
  end.

Definition names (v : json) (k : pystr) : bool := is_text v k.

(** The first time given by a rotation away from [k]. *)
Fixpoint first_revoked (k : pystr) (rs : list Rotation) : json :=
  match rs with
  | [] => JNull
  | r :: rs =>
      if names (old_id r) k then match rotated_at r with JNull => first_revoked k rs | t => t end
      else first_revoked k rs
  end.

(** The time given by the last rotation to [k]. *)
Definition last_activated (k : pystr) (rs : list Rotation) : json :=
  fold_left (fun t r => if names (new_id r) k then rotated_at r else t) rs JNull.

Definition touched (k : pystr) (rs : list Rotation) : bool :=
  existsb (fun r => names (old_id r) k || names (new_id r) k) rs.

Definition window_of (k : pystr) (rs : list Rotation) : option KeyWindow :=
  if touched k rs then Some {| activated_at := last_activated k rs; revoked_at := first_revoked k rs |} else None.

(** [t] unless it is [None], else [u]. *)
Definition or_else (t u : json) : json := match t with JNull => u | _ => t end.

Lemma first_revoked_snoc k rs r :
  first_revoked k (rs ++ [r]) =
  or_else (first_revoked k rs) (if names (old_id r) k then rotated_at r else JNull).
Proof.
  induction rs as [|r' rs IH]; cbn.
  - destruct (names (old_id r) k), (rotated_at r); done.
  - destruct (names (old_id r') k); [|done]. destruct (rotated_at r'); done.
Qed.

Lemma last_activated_snoc k rs r :
  last_activated k (rs ++ [r]) = if names (new_id r) k then rotated_at r else last_activated k rs.
Proof. unfold last_activated. by rewrite fold_left_app. Qed.

Lemma touched_snoc k rs r : touched k (rs ++ [r]) = touched k rs || (names (old_id r) k || names (new_id r) k).
Proof. unfold touched. rewrite existsb_app. cbn. by rewrite orb_false_r. Qed.

Lemma untouched k rs : touched k rs = false -> first_revoked k rs = JNull /\ last_activated k rs = JNull.
Proof.
  induction rs as [|r rs IH] using rev_ind; [done|].
  rewrite touched_snoc, first_revoked_snoc, last_activated_snoc.
  intros (H & Ho & Hn)%orb_false_iff%(fun p => conj (proj1 p) (proj1 (orb_false_iff _ _) (proj2 p))).
  destruct (IH H) as [-> ->]. by rewrite Ho, Hn.
Qed.

Lemma names_str k k' : names (JStr k) k' = bool_decide (k = k').
Proof. done. Qed.

Lemma rotate_window windows rs r :
  (forall k, windows !! k = window_of k rs) -> forall k, rotate windows r !! k = window_of k (rs ++ [r]).
Proof.
  intros H k. unfold rotate.
  assert (Hret : forall j, retire windows r !! j =
    if names (old_id r) j
    then Some {| activated_at := last_activated j rs; revoked_at := or_else (first_revoked j rs) (rotated_at r) |}
    else window_of j rs).
  { intros j. unfold retire. destruct (old_id r) as [| | | | o | |] eqn:Ho; try exact (H j).
    rewrite names_str. destruct (decide (o = j)) as [->|Hne].
    - rewrite bool_decide_eq_true_2, H by done. unfold window_of at 1. destruct (touched j rs) eqn:Ht.
      + destruct (first_revoked j rs) eqn:Hf; cbn; rewrite ?lookup_insert_eq; try done;
          rewrite H; unfold window_of; by rewrite Ht, Hf.
      + destruct (untouched j rs Ht) as [-> ->]. by rewrite lookup_insert_eq.
    - rewrite bool_decide_eq_false_2 by done.
      destruct (windows !! o) as [[a []]|]; rewrite ?lookup_insert_ne; done. }
  unfold window_of at 1. rewrite touched_snoc, first_revoked_snoc, last_activated_snoc. unfold activate.
  destruct (new_id r) as [| | | | n | |] eqn:Hn.
  5: destruct (decide (n = k)) as [->|Hne].
  5: { rewrite lookup_insert_eq, names_str, bool_decide_eq_true_2 by done. rewrite !orb_true_r. f_equal. f_equal.
       rewrite Hret. destruct (names (old_id r) k); [done|]. unfold window_of.
       destruct (touched k rs) eqn:Ht; [by destruct (first_revoked k rs)|]. by destruct (untouched k rs Ht) as [-> _]. }
  5: rewrite lookup_insert_ne, names_str, bool_decide_eq_false_2 by done.
  all: cbn [names is_text]; rewrite Hret, ?orb_false_r; destruct (names (old_id r) k);
    [by rewrite orb_true_r|rewrite orb_false_r; unfold window_of; destruct (touched k rs); [|done];
     by destruct (first_revoked k rs)].
Qed.

Lemma timeline_windows capsules windows rs0 :
  (forall k, windows !! k = window_of k rs0) ->
  match timeline_from windows capsules, rotations capsules with
  | Ok w, Ok rs => forall k, w !! k = window_of k (rs0 ++ rs)
  | Raise e, Raise e' => e = e'
  | _, _ => False
  end.
Proof.
  revert windows rs0. induction capsules as [|c cs IH]; intros windows rs0 H; cbn.
  { intros k. by rewrite app_nil_r. }
  destruct (rotation_of c) as [[r|]|e]; cbn; [| |done].
  - specialize (IH _ _ (rotate_window windows rs0 r H)).
    destruct (timeline_from (rotate windows r) cs), (rotations cs); cbn in *; try done.
    intros k. by rewrite IH, <- app_assoc.
  - specialize (IH _ _ H). by destruct (timeline_from windows cs), (rotations cs).
Qed.
End revocation.

(** ** What time-fenced revocation enforces

    Portable times compare as text in the order of time, the timeline is the
    reference reading of the rotations, and the fence of a key is set by the
    first rotation away from it, for good. *)
(** ** The order of portable times *)
Lemma str_leb_app p q s t :
  length p = length q ->
  str_leb (p ++ s) (q ++ t) = if bool_decide (p = q) then str_leb s t else str_leb p q.
Proof.
  revert q. induction p as [|c p IH]; intros [|d q] Hl; try done.
  cbn in Hl |- *. rewrite IH by lia.
  destruct (Z.ltb_spec c d), (Z.eqb_spec c d) as [->|]; cbn; repeat case_bool_decide; (lia || congruence).
Qed.

Lemma str_leb_digits s k :
  Forall (fun c => is_digit c = true) s -> Forall (fun c => is_digit c = true) k ->
  length s = length k -> str_leb s k = (dec_value s <=? dec_value k).
Proof.
  intros Hs. revert k. induction Hs as [|c s Hc Hs IH]; intros [|d k] Hk Hl; try done.
  apply Forall_cons in Hk as [Hd Hk]. cbn [str_leb]. rewrite IH by (done || (cbn in Hl; lia)).
  change (c :: s) with ([c] ++ s). change (d :: k) with ([d] ++ k). rewrite !dec_value_app.
  change (dec_value [c]) with (c - 48). change (dec_value [d]) with (d - 48).
  pose proof (dec_value_range s Hs). pose proof (dec_value_range k Hk).
  assert (zlen s = zlen k) as Hz by (unfold zlen; cbn in Hl; lia). rewrite Hz in *.
  destruct (Z.ltb_spec c d), (Z.eqb_spec c d), (Z.leb_spec (dec_value s) (dec_value k)); cbn; symmetry;
    first [apply Z.leb_le; nia | apply Z.leb_gt; nia].
Qed.

(** The lexicographic step of a comparison: [a] before [b], or equal and [rest]. *)
Definition then_by (a b : Z) (rest : bool) : bool := (a <? b) || (a =? b) && rest.

Lemma str_leb_pad k a b s t :
  0 <= a < 10 ^ Z.of_nat k -> 0 <= b < 10 ^ Z.of_nat k -> (0 < k)%nat ->
  str_leb (pad k a ++ s) (pad k b ++ t) = then_by a b (str_leb s t).
Proof.
  intros Ha Hb Hk. destruct (pad_spec k a Ha Hk) as (Hla & Hda & Hva), (pad_spec k b Hb Hk) as (Hlb & Hdb & Hvb).
  rewrite str_leb_app, (str_leb_digits (pad k a)), Hva, Hvb by (done || congruence). unfold then_by.
  destruct (Z.eqb_spec a b) as [->|Hne].
  - rewrite Z.ltb_irrefl. by case_bool_decide.
  - case_bool_decide as Heq; [apply (f_equal dec_value) in Heq; congruence|].
    destruct (Z.leb_spec a b), (Z.ltb_spec a b); (done || lia).
Qed.

Lemma str_leb_sep c s t : str_leb ([c] ++ s) ([c] ++ t) = str_leb s t.
Proof. cbn. by rewrite Z.ltb_irrefl, Z.eqb_refl. Qed.

(** Splitting a number into a block and a place inside it keeps the order. *)
Lemma then_by_split X Y i j x y rest :
  (i < j -> X < Y) -> (j < i -> Y < X) -> (i = j -> X - Y = x - y) ->
  then_by X Y rest = then_by i j (then_by x y rest).
Proof.
  intros H1 H2 H3. unfold then_by.
  destruct (Z.ltb_spec X Y), (Z.eqb_spec X Y), (Z.ltb_spec i j), (Z.eqb_spec i j),
    (Z.ltb_spec x y), (Z.eqb_spec x y); cbn; (done || lia).
Qed.

Lemma then_by_leb x y : then_by x y true = (x <=? y).
Proof. unfold then_by. destruct (Z.ltb_spec x y), (Z.eqb_spec x y), (Z.leb_spec x y); (done || lia). Qed.

Lemma month_before y m d m' d' :
  valid_date y m d = true -> valid_date y m' d' = true -> m < m' -> date_days y m d < date_days y m' d'.
Proof.
  intros (_ & Hm & Hd)%valid_date_spec (_ & Hm' & Hd')%valid_date_spec Hlt. unfold date_days.
  pose proof (months_mono y (S (Z.to_nat (m - 1))) (Z.to_nat (m' - 1)) ltac:(lia)) as H.
  cbn [days_before_month] in H. replace (Z.of_nat (Z.to_nat (m - 1)) + 1) with m in H by lia. lia.
Qed.

Lemma date_order y m d y' m' d' rest :
  valid_date y m d = true -> valid_date y' m' d' = true ->
  then_by (date_days y m d) (date_days y' m' d') rest = then_by y y' (then_by m m' (then_by d d' rest)).
Proof.
  intros H H'. destruct (date_days_range y m d H) as [Hr _], (date_days_range y' m' d' H') as [Hr' _].
  rewrite (then_by_split _ _ y y' (date_days y m d - days_before_year y) (date_days y' m' d' - days_before_year y')).
  - destruct (Z.eq_dec y y') as [<-|Hne].
    + f_equal. apply then_by_split.
      * intros Hm. pose proof (month_before _ _ _ _ _ H H' Hm). lia.
      * intros Hm. pose proof (month_before _ _ _ _ _ H' H Hm). lia.
      * intros <-. unfold date_days. lia.
    + unfold then_by. by rewrite (proj2 (Z.eqb_neq y y') Hne), !andb_false_l.
  - intros Hy. pose proof (year_mono (y + 1) y' ltac:(lia)). lia.
  - intros Hy. pose proof (year_mono (y' + 1) y ltac:(lia)). lia.
  - intros <-. lia.
Qed.

Lemma div_order k x y rest :
  0 < k -> then_by x y rest = then_by (x / k) (y / k) (then_by (x mod k) (y mod k) rest).
Proof.
  intros Hk. pose proof (Z.div_mod x k ltac:(lia)). pose proof (Z.div_mod y k ltac:(lia)).
  pose proof (Z.mod_pos_bound x k Hk). pose proof (Z.mod_pos_bound y k Hk).
  apply then_by_split; nia.
Qed.

Lemma clock_order r r' rest :
  0 <= r -> 0 <= r' ->
  then_by r r' rest =
  then_by (r / 3600000) (r' / 3600000)
    (then_by (r / 60000 mod 60) (r' / 60000 mod 60)
      (then_by (r / 1000 mod 60) (r' / 1000 mod 60) (then_by (r mod 1000) (r' mod 1000) rest))).
Proof.
  intros Hr Hr'.
  assert (Hd : forall x, x / 60000 = x / 1000 / 60 /\ x / 3600000 = x / 1000 / 60 / 60)
    by (intros x; rewrite !Z.div_div by lia; done).
  destruct (Hd r) as [-> ->], (Hd r') as [-> ->].
  rewrite (div_order 1000 r r'), (div_order 60 (r / 1000)), (div_order 60 (r / 1000 / 60)) by lia. done.
Qed.

(** The fields of a portable time are in the ranges of their widths. *)
Lemma instant_fields t : is_instant t ->
  0 <= t mod DAY /\ 0 <= t mod DAY / 3600000 < 10 ^ Z.of_nat 2 /\ 0 <= t mod DAY / 60000 mod 60 < 10 ^ Z.of_nat 2
  /\ 0 <= t mod DAY / 1000 mod 60 < 10 ^ Z.of_nat 2 /\ 0 <= t mod DAY mod 1000 < 10 ^ Z.of_nat 3
  /\ exists y m d, days_date (t / DAY) = (y, (m, d)) /\ valid_date y m d = true /\ date_days y m d = t / DAY
     /\ 0 <= y < 10 ^ Z.of_nat 4 /\ 0 <= m < 10 ^ Z.of_nat 2 /\ 0 <= d < 10 ^ Z.of_nat 2.
Proof.
  unfold is_instant, MAX_INSTANT. intros Ht. assert (0 <= t / DAY < DAYS) as Hd.
  { unfold DAY, DAYS. split; [apply Z.div_pos|apply Z.div_lt_upper_bound]; lia. }
  pose proof (Z.mod_pos_bound t DAY ltac:(done)) as Hr. set (r := t mod DAY) in *. unfold DAY in Hr.
  assert (0 <= r / 3600000 < 24) by (split; [apply Z.div_pos|apply Z.div_lt_upper_bound]; lia).
  pose proof (Z.mod_pos_bound (r / 60000) 60 ltac:(lia)). pose proof (Z.mod_pos_bound (r / 1000) 60 ltac:(lia)).
  pose proof (Z.mod_pos_bound r 1000 ltac:(lia)).
  destruct (days_date_spec _ Hd) as (y & m & d & E & Hv & Heq).
  pose proof (proj1 (valid_date_spec _ _ _) Hv) as (Hy & Hm & Hdd). pose proof (month_pos y m).
  change (10 ^ Z.of_nat 2) with 100. change (10 ^ Z.of_nat 3) with 1000. change (10 ^ Z.of_nat 4) with 10000.
  split_and!; try lia. exists y, m, d. split_and!; (done || lia).
Qed.

(** Times in the portable form are ordered as their texts. *)
Lemma str_leb_iso t u : is_instant t -> is_instant u -> str_leb (iso t) (iso u) = (t <=? u).
Proof.
  intros Ht Hu.
  destruct (instant_fields t Ht) as (Hr & ? & ? & ? & ? & y & m & d & Hd & Hv & He & ? & ? & ?).
  destruct (instant_fields u Hu) as (Hr' & ? & ? & ? & ? & y' & m' & d' & Hd' & Hv' & He' & ? & ? & ?).
  unfold iso. rewrite Hd, Hd'.
  rewrite str_leb_pad, str_leb_sep, str_leb_pad, str_leb_sep, str_leb_pad, str_leb_sep, str_leb_pad, str_leb_sep,
    str_leb_pad, str_leb_sep, str_leb_pad, str_leb_sep, str_leb_pad by (done || lia).
  change (str_leb [90] [90]) with true.
  rewrite <- clock_order, <- date_order by done. rewrite He, He', <- then_by_leb.
  symmetry. by apply div_order.
Qed.

(** ** The timeline and the fence *)
Section fence.
Context {PI : Interp}.

(** The key and the time a capsule claims. *)
Definition claims (capsule : json) (k t : pystr) : Prop :=
  exists sig, get_or_empty capsule (str "asg_signature") = Ok sig /\ get_or sig (str "key_id") JNull = Ok (JStr k)
  /\ get_or capsule (str "timestamp") JNull = Ok (JStr t).

Lemma rotations_app cs ds :
  rotations (cs ++ ds) = let! rs := rotations cs in let! ss := rotations ds in Ok (rs ++ ss).
Proof.
  induction cs as [|c cs IH]; cbn; [by destruct (rotations ds)|].
  rewrite IH. destruct (rotation_of c) as [[]|], (rotations cs), (rotations ds); done.
Qed.

Lemma first_revoked_app k rs ss :
  first_revoked k (rs ++ ss) = or_else (first_revoked k rs) (first_revoked k ss).
Proof.
  induction rs as [|r rs IH]; cbn; [done|]. destruct (names (old_id r) k); [|done]. by destruct (rotated_at r).
Qed.

Lemma first_revoked_touched k rs : first_revoked k rs <> JNull -> touched k rs = true.
Proof. intros H. destruct (touched k rs) eqn:Ht; [done|]. by destruct (untouched k rs Ht). Qed.

Lemma build_key_timeline_spec capsules :
  match build_key_timeline capsules with
  | Ok w => exists rs, rotations capsules = Ok rs /\ forall k, w !! k = window_of k rs
  | Raise e => rotations capsules = Raise e
  end.
Proof.
  pose proof (timeline_windows capsules ∅ [] (fun k => lookup_empty k)) as H. unfold build_key_timeline.
  destruct (timeline_from ∅ capsules), (rotations capsules); try done; [by eauto|by rewrite H].
Qed.

(** [build_key_timeline] is the reference reading of the rotations a
    ledger records: a key has a window exactly when a rotation names it, its
    [revoked_at] is the first time given by a rotation away from it, its
    [activated_at] the time given by the last rotation to it; and it raises
    exactly when a capsule cannot be read. *)
Theorem timeline_correct capsules k :
  match build_key_timeline capsules with
  | Ok w => exists rs, rotations capsules = Ok rs /\ w !! k = window_of k rs
  | Raise e => rotations capsules = Raise e
  end.
Proof.
  pose proof (build_key_timeline_spec capsules) as H. destruct (build_key_timeline capsules) as [w|e]; [|done].
  destruct H as (rs & Hrs & Hw). eauto.
Qed.

(** Once a ledger records a rotation away from a key, a capsule claiming
    that key is accepted exactly when its time is not after the time of the
    first such rotation, whatever is recorded later: no later rotation moves
    or lifts the fence. *)
Theorem fence_permanent capsules rs more w capsule k t r :
  rotations capsules = Ok rs -> first_revoked k rs = JStr (iso r) ->
  build_key_timeline (capsules ++ more) = Ok w ->
  claims capsule k (iso t) -> is_instant t -> is_instant r ->
  check_time_fenced_revocation capsule w =
  Ok (if t <=? r then {| rf_ok := true; rf_reason := None |}
      else {| rf_ok := false; rf_reason := Some (k, iso t, JStr (iso r)) |}).
Proof.
  intros Hrs Hf Hw (sig & Hsig & Hk & Ht) It Ir.
  pose proof (build_key_timeline_spec (capsules ++ more)) as H. rewrite Hw in H. destruct H as (rs' & Hrs' & H).
  rewrite rotations_app, Hrs in Hrs'. destruct (rotations more) as [ss|]; [|done]. cbn in Hrs'. injection Hrs' as <-.
  assert (first_revoked k (rs ++ ss) = JStr (iso r)) as Hr by (by rewrite first_revoked_app, Hf).
  unfold check_time_fenced_revocation. rewrite Hsig, Hk, Ht, H. unfold window_of.
  rewrite (first_revoked_touched k (rs ++ ss)) by congruence. cbn [revoked_at]. rewrite Hr, str_leb_iso by done.
  by destruct (t <=? r).
Qed.
End fence.

(** ** A ledger with rotations *)
Module DemoRevocation.
#[local] Existing Instance plain_interp.

Definition rotation (old new at_ : pystr) : json :=
  JDict [(str "asg_payload", JDict [(str "event", JStr ROTATION_EVENT);
    (str "detail", JDict [(str "old_key_id", JStr old); (str "new_key_id", JStr new); (str "rotated_at", JStr at_)])])].

Definition capsule (k t : pystr) : json :=
  JDict [(str "asg_signature", JDict [(str "key_id", JStr k)]); (str "timestamp", JStr t)].

Definition k1 : pystr := str "k1".
Definition k2 : pystr := str "k2".
Definition day (n : Z) : instant := 63870000000000 + n * DAY.

Definition ledger : list json := [capsule k1 (iso (day 0)); rotation k1 k2 (iso (day 1))].
Definition later : list json := [rotation k2 k1 (iso (day 2)); rotation k1 k2 (iso (day 3))].

Lemma fence_permanent_witness :
  exists w, build_key_timeline (ledger ++ later) = Ok w
  /\ check_time_fenced_revocation (capsule k1 (iso (day 2))) w =
     Ok {| rf_ok := false; rf_reason := Some (k1, iso (day 2), JStr (iso (day 1))) |}
  /\ check_time_fenced_revocation (capsule k1 (iso (day 1))) w = Ok {| rf_ok := true; rf_reason := None |}.
Proof.
  destruct (build_key_timeline (ledger ++ later)) as [w|] eqn:Hw; [|vm_compute in Hw; discriminate].
  exists w. split; [reflexivity|].
  assert (Hclaims : forall t, claims (capsule k1 t) k1 t).
  { intros t. exists (JDict [(str "key_id", JStr k1)]). repeat split. }
  split.
  - rewrite (fence_permanent ledger _ later w _ k1 (day 2) (day 1) eq_refl);
      first [reflexivity | exact Hw | exact (Hclaims _) | split; vm_compute; congruence].
  - rewrite (fence_permanent ledger _ later w _ k1 (day 1) (day 1) eq_refl);
      first [reflexivity | exact Hw | exact (Hclaims _) | split; vm_compute; congruence].
Defined.

(** The window of a key that is activated twice begins at the later time. *)
Lemma activated_at_is_last :
  match build_key_timeline (ledger ++ later) with
  | Ok w => w !! k2 = Some {| activated_at := JStr (iso (day 3)); revoked_at := JStr (iso (day 2)) |}
  | Raise _ => False
  end.
Proof. vm_compute. reflexivity. Qed.

(** Two spellings of times that text compares the wrong way: the capsule is
    half a second after the rotation, and passes. *)
Lemma fence_compares_text :
  match build_key_timeline [rotation k1 k2 (str "2026-01-01T00:00:00Z")] with
  | Ok w => check_time_fenced_revocation (capsule k1 (str "2026-01-01T00:00:00.5Z")) w
            = Ok {| rf_ok := true; rf_reason := None |}
  | Raise _ => False
  end.
Proof. vm_compute. reflexivity. Qed.
End DemoRevocation.
