(* ===== verification/LogLedger.v ===== *)
(** * Ledger adapters

    [src/python/log/ledger.py]: the entry-log interface over a ledger. A
    record is read by attribute, so its fields are values of any type
    ([PNone] for an absent one). The ledger behind an adapter is a class. *)
From S2P Require Import Prelude Bytes Text Py Json JsonProps PyJson MmrPos Cll Engine EngineValid EngineProps Calendar EngineCommit EngineSteps.
Open Scope Z_scope.

(** A record: [getattr] of [seq] and [capsule_id], and [capsule] when it is a
    JSON value. *)
Record SourceRecord := { sr_seq : pyval; sr_capsule_id : pyval; sr_capsule : option json }.

(** ** Times of records *)
Section time.
Context {PI : Interp}.

(** [n] digits, and what follows them. *)
Definition digits (n : nat) (s : pystr) : option (Z * pystr) :=
  let d := take n s in
  if (zlen d =? Z.of_nat n) && forallb is_digit d then Some (dec_value d, drop n s) else None.

Definition one_of (cs : list Z) (s : pystr) : option pystr :=
  match s with
  | c :: s => if bool_decide (c ∈ cs) then Some s else None
  | [] => None
  end.

Notation "'let?' x ':=' e 'in' k" :=
  (match e with Some x => k | None => None end)
  (at level 10, x pattern, e at level 100, k at level 200, only parsing).

(** [[0-9]{4}-[0-9]{2}-[0-9]{2}] *)
Definition match_date (s : pystr) : option (Z * Z * Z * pystr) :=
  let? (y, s) := group 4 45 s in
  let? (m, s) := group 2 45 s in
  let? (d, s) := digits 2 s in
  Some (y, m, d, s).

(** [[0-9]{2}:[0-9]{2}:[0-9]{2}] *)
Definition match_clock (s : pystr) : option (Z * Z * Z * pystr) :=
  let? (h, s) := group 2 58 s in
  let? (mi, s) := group 2 58 s in
  let? (sec, s) := digits 2 s in
  Some (h, mi, sec, s).

(** [(?:\.([0-9]+))?], as microseconds: six digits, padded or cut. *)
Definition match_fraction (s : pystr) : option (Z * pystr) :=
  match one_of [46] s with
  | None => Some (0, s)
  | Some s =>
      let '(ds, s) := span_digits s in
      if 0 <? zlen ds then Some (dec_value (take 6 (ds ++ repeat 48 6)), s) else None
  end.

(** [([Zz]|[+-][0-9]{2}:[0-9]{2})?] up to the end, as minutes. *)
Definition match_offset (s : pystr) : option Z :=
  match s with
  | [] => Some 0
  | [c] => if bool_decide (c ∈ [90; 122]) then Some 0 else None
  | c :: s =>
      if bool_decide (c ∈ [43; 45]) then
        let? (h, s) := group 2 58 s in
        let? (m, s) := digits 2 s in
        match s with [] => Some ((if c =? 45 then -1 else 1) * (h * 60 + m)) | _ => None end
      else None
  end.

(** [_instant]: what [datetime.fromisoformat] makes of the matched parts; it
    wants a date of the calendar, a time of day and an offset within a day. *)
Definition _instant (value : pystr) : option pyval :=
  let? (y, m, d, s) := match_date (strip value) in
  let? s := one_of [84; 116; 32] s in
  let? (h, mi, sec, s) := match_clock s in
  let? (micros, s) := match_fraction s in
  let? offset := match_offset s in
  if valid_date y m d && (h <? 24) && (mi <? 60) && (sec <? 60) && (Z.abs offset <? 1440)
  then Some (PDatetime (Datetime ((date_days y m d * DAY + clock_millis h mi sec 0) * 1000 + micros)
                                 (Some (offset * 60000000))))
  else None.

Definition capsule_timestamp (record : SourceRecord) : result pyval :=
  let value := match sr_capsule record with Some (JDict d) => find_key d (str "timestamp") | _ => None end in
  match value with
  | Some (JStr (c :: s)) =>
      match _instant (c :: s) with
      | Some t => let! t := normalize_time t CorruptError in Ok (utc_datetime t)
      | None => Raise CorruptError
      end
  | _ => Raise CorruptError
  end.
End time.

(** ** Records as entries *)
Definition record_entry (record : SourceRecord) (appended_at : SourceRecord -> result pyval) : result Entry :=
  match as_strict_int (sr_seq record) with
  | Some seq =>
      if seq <? 1 then Raise CorruptError
      else
        let value := match sr_capsule_id record with
                     | PStr s => match fromhex s with Ok bs => bs | Raise _ => [] end
                     | _ => []
                     end in
        if negb (zlen value =? ENTRY_BYTES) || negb (py_eq (sr_capsule_id record) (PStr (hex value)))
        then Raise CorruptError
        else
          let! t := appended_at record in
          let! t := normalize_time t CorruptError in
          Ok {| e_seq := seq; e_value := value; e_appended_at := t |}
  | None => Raise CorruptError
  end.

(** ** [LogSourceEntries]

    A source yields records one at a time and may raise after the last one it
    yields; what comes after the entry that fills [limit] is never read. *)
Class RecordSource (L : Type) := source_scan : L -> list SourceRecord * option exn.

Module LogSourceEntries.
Section entries.
Context {L : Type} {LS : RecordSource L}.
Variables (source : L) (appended_at : SourceRecord -> result pyval).

Fixpoint scan_from (expected after_seq limit : Z) (records : list SourceRecord) (last : option exn)
  : result (list Entry) :=
  match records with
  | [] => match last with Some e => Raise e | None => Ok [] end
  | record :: records =>
      if negb (py_eq (sr_seq record) (PInt expected)) then Raise CorruptError
      else if expected <=? after_seq then scan_from (expected + 1) after_seq limit records last
      else
        let! entry := record_entry record appended_at in
        if limit =? 1 then Ok [entry]
        else
          let! rest := scan_from (expected + 1) after_seq (limit - 1) records last in
          Ok (entry :: rest)
  end.

Definition scan_entries (after_seq limit : pyval) : result (list Entry) :=
  let! (after_seq, limit) := check_scan after_seq limit in
  let '(records, last) := source_scan source in
  scan_from 1 after_seq limit records last.
End entries.
End LogSourceEntries.

(** ** [LedgerEntryStore]

    The ledger's lookups may change its own state (they drop a broken index),
    so each returns it. *)
Class LedgerLookups (L : Type) := {
  by_seq_range : L -> Z -> Z -> L * result (list SourceRecord);
  by_digest : L -> pystr -> L * result (option SourceRecord);
  close_ledger : L -> L
}.

Record LedgerEntryStore (L : Type) := { les_store : L; les_owns_store : bool; les_closed : bool }.
Arguments les_store {L}.
Arguments les_owns_store {L}.
Arguments les_closed {L}.
Arguments Build_LedgerEntryStore {L}.

Module LedgerEntryStore.
Section store.
Context {L : Type} {LL : LedgerLookups L}.
Variable appended_at : SourceRecord -> result pyval.
Implicit Types self : LedgerEntryStore L.

Definition __init__ (store : L) (owns_store : bool) : LedgerEntryStore L :=
  Build_LedgerEntryStore store owns_store false.

Definition with_store self (store : L) : LedgerEntryStore L :=
  Build_LedgerEntryStore store (les_owns_store self) (les_closed self).

Definition _require_open self : result () := if les_closed self then Raise ClosedError else Ok ().

Fixpoint dense (seq : Z) (entries : list Entry) : bool :=
  match entries with
  | [] => true
  | entry :: entries => (e_seq entry =? seq) && dense (seq + 1) entries
  end.

Definition scan_entries self (after_seq limit : pyval) : LedgerEntryStore L * result (list Entry) :=
  match (let! _ := _require_open self in check_scan after_seq limit) with
  | Raise e => (self, Raise e)
  | Ok (after_seq, limit) =>
      let '(store, records) := by_seq_range (les_store self) (after_seq + 1) (after_seq + limit) in
      (with_store self store,
       let! records := records in
       let! entries := map_result (fun r => record_entry r appended_at) records in
       if dense (after_seq + 1) entries then Ok entries else Raise CorruptError)
  end.

Definition get_entry self (value : pyval) : LedgerEntryStore L * result Entry :=
  match (let! _ := _require_open self in check_value value) with
  | Raise e => (self, Raise e)
  | Ok value =>
      let '(store, record) := by_digest (les_store self) (hex value) in
      (with_store self store,
       let! record := record in
       match record with
       | None => Raise NotFoundError
       | Some record => record_entry record appended_at
       end)
  end.

Definition append self (input : arg Arg.AppendInput) : LedgerEntryStore L * result AppendResult :=
  match (let! _ := _require_open self in check_append input) with
  | Raise e => (self, Raise e)
  | Ok (value, _) =>
      let '(store, record) := by_digest (les_store self) (hex value) in
      (with_store self store,
       let! record := record in
       match record with
       | None => Raise UnsupportedError
       | Some record =>
           let! entry := record_entry record appended_at in
           Ok {| ar_entry := entry; ar_outcome := IDEMPOTENT |}
       end)
  end.

Definition close self : LedgerEntryStore L :=
  if les_closed self then self
  else Build_LedgerEntryStore (if les_owns_store self then close_ledger (les_store self) else les_store self)
         (les_owns_store self) true.
End store.
End LedgerEntryStore.

(** ** The adapters show the ledger's entries

    A ledger whose records are the entries of an engine answers, through the
    adapters, as that engine does; only an append of a new value differs. *)
(** What a ledger that is in order promises: its records, whatever lookups do
    to its indexes; a range selects by sequence number, a digest the first
    match. A sequence number fits a signed word, a digest is text. *)
Definition seq_within (first last : Z) (r : SourceRecord) : bool :=
  match sr_seq r with PInt n => (first <=? n) && (n <=? last) | _ => false end.

Definition has_digest (digest : pystr) (r : SourceRecord) : bool := py_eq (sr_capsule_id r) (PStr digest).

Class LedgerLaws (L : Type) `{LedgerLookups L} := {
  ledger_ok : L -> Prop;
  ledger_records : L -> list SourceRecord;
  by_seq_range_eq : forall l a b, ledger_ok l -> 0 <= a < 2 ^ 63 -> 0 <= b < 2 ^ 63 -> exists l',
    by_seq_range l a b = (l', Ok (List.filter (seq_within a b) (ledger_records l)))
    /\ ledger_ok l' /\ ledger_records l' = ledger_records l;
  by_digest_eq : forall l d, ledger_ok l -> text d -> exists l',
    by_digest l d = (l', Ok (find (has_digest d) (ledger_records l)))
    /\ ledger_ok l' /\ ledger_records l' = ledger_records l
}.

(** ** Records that are entries *)
Section records.
Variable appended_at : SourceRecord -> result pyval.
Notation entry_of := (fun r => record_entry r appended_at).

Lemma record_entry_inv r e :
  record_entry r appended_at = Ok e -> sr_seq r = PInt (e_seq e) /\ sr_capsule_id r = PStr (hex (e_value e)).
Proof.
  unfold record_entry. destruct (sr_seq r) as [| |n| | | | | | | | | | | | |]; try done.
  cbn. destruct (n <? 1); [done|].
  set (value := match sr_capsule_id r with PStr s => _ | _ => [] end).
  destruct (negb (zlen value =? ENTRY_BYTES)); [done|]. cbn [orb].
  destruct (py_eq (sr_capsule_id r) (PStr (hex value))) eqn:Heq; [|done]. cbn.
  destruct (appended_at r) as [t|]; [|done]. destruct (normalize_time t CorruptError); [|done]. intros [= <-]. cbn.
  split; [done|]. clearbody value. destruct (sr_capsule_id r) as [| | | |s| | | | | | | | | | |]; try done.
  rewrite py_eq_str in Heq. apply bool_decide_eq_true in Heq. by subst s.
Qed.

Lemma entries_filter rs es a b :
  map_result entry_of rs = Ok es ->
  map_result entry_of (List.filter (seq_within a b) rs) = Ok (filter (fun e => a <= e_seq e <= b) es).
Proof.
  revert es. induction rs as [|r rs IH]; intros es H; [by injection H as <-|].
  apply map_result_cons_Ok in H as (e & es' & He & H & ->). specialize (IH es' H).
  destruct (record_entry_inv r e He) as [Hs _]. cbn [List.filter]. unfold seq_within at 1. rewrite Hs.
  destruct (Z.leb_spec a (e_seq e)), (Z.leb_spec (e_seq e) b); cbn [andb];
    first [rewrite filter_cons_True by lia; cbn [map_result]; rewrite He, IH; done
          |rewrite filter_cons_False by lia; done].
Qed.

Lemma has_digest_entry r e v :
  record_entry r appended_at = Ok e -> has_digest (hex v) r = bool_decide (e_value e = v).
Proof.
  intros He. destruct (record_entry_inv r e He) as [_ Hc]. unfold has_digest. rewrite Hc, py_eq_str.
  apply bool_decide_ext. split; [|congruence]. intros H. apply (f_equal fromhex) in H.
  rewrite !fromhex_hex in H. congruence.
Qed.

Lemma find_entry rs es v :
  map_result entry_of rs = Ok es ->
  match find (has_digest (hex v)) rs with
  | Some r => exists e, record_entry r appended_at = Ok e /\ e ∈ es /\ e_value e = v
  | None => v ∉ map e_value es
  end.
Proof.
  revert es. induction rs as [|r rs IH]; intros es H; [injection H as <-; apply not_elem_of_nil|].
  apply map_result_cons_Ok in H as (e & es' & He & H & ->). cbn [find]. rewrite (has_digest_entry r e v He).
  case_bool_decide as Hv.
  - exists e. split_and!; [done|by left|done].
  - specialize (IH es' H). destruct (find _ rs) as [r'|].
    + destruct IH as (e' & ? & ? & ?). exists e'. split_and!; [done|by right|done].
    + cbn. intros [->|Hin]%elem_of_cons; [done|]. exact (IH Hin).
Qed.

Lemma dense_filter es n a b :
  (forall i e, es !! i = Some e -> e_seq e = n + Z.of_nat i) ->
  LedgerEntryStore.dense (Z.max n a) (filter (fun e => a <= e_seq e <= b) es) = true.
Proof.
  revert n. induction es as [|e es IH]; intros n H; [done|].
  pose proof (H O e eq_refl) as He. assert (Hes : forall i e', es !! i = Some e' -> e_seq e' = n + 1 + Z.of_nat i).
  { intros i e' Hi. rewrite (H (S i) e' Hi). lia. }
  specialize (IH (n + 1) Hes). destruct (decide (a <= e_seq e <= b)).
  - rewrite filter_cons_True by done. cbn. apply andb_true_iff. split; [apply Z.eqb_eq; lia|].
    by replace (Z.max n a + 1) with (Z.max (n + 1) a) by lia.
  - rewrite filter_cons_False by done. destruct (Z.ltb_spec (e_seq e) a).
    + by replace (Z.max n a) with (Z.max (n + 1) a) by lia.
    + rewrite (filter_none _ es); [done|]. intros x [i Hi]%list_elem_of_lookup. rewrite (Hes i x Hi). lia.
Qed.

Lemma scan_from_spec rs es n a k last :
  map_result entry_of rs = Ok es -> (forall i e, es !! i = Some e -> e_seq e = n + Z.of_nat i) -> 0 < k ->
  0 <= a -> 1 <= n ->
  LogSourceEntries.scan_from appended_at n a k rs last =
    let out := take (Z.to_nat k) (drop (Z.to_nat (a + 1 - n)) es) in
    if zlen out =? k then Ok out else match last with Some e => Raise e | None => Ok out end.
Proof.
  revert es n k. induction rs as [|r rs IH]; intros es n k H Hs Hk Ha Hn; cbn zeta.
  { injection H as <-. rewrite drop_nil, take_nil, zlen_nil. by destruct (Z.eqb_spec 0 k); [lia|]. }
  apply map_result_cons_Ok in H as (e & es' & He & H & ->). destruct (record_entry_inv r e He) as [Hr _].
  pose proof (Hs O e eq_refl) as Hse. assert (Hes : forall i e', es' !! i = Some e' -> e_seq e' = n + 1 + Z.of_nat i).
  { intros i e' Hi. rewrite (Hs (S i) e' Hi). lia. }
  cbn [LogSourceEntries.scan_from]. rewrite Hr, py_eq_int. rewrite (proj2 (Z.eqb_eq (e_seq e) n)) by lia. cbn [negb].
  destruct (Z.leb_spec n a).
  - rewrite (IH es') by (done || lia). cbn zeta. replace (a + 1 - n) with (Z.succ (a + 1 - (n + 1))) by lia.
    rewrite Z2Nat.inj_succ by lia. done.
  - replace (Z.to_nat (a + 1 - n)) with O by lia. rewrite He. cbn [drop]. destruct (Z.eqb_spec k 1) as [->|Hk1].
    + destruct es'; done.
    + rewrite (IH es') by (done || lia). cbn zeta. replace (Z.to_nat (a + 1 - (n + 1))) with O by lia. rewrite drop_0.
      replace (Z.to_nat k) with (S (Z.to_nat (k - 1))) by lia. cbn [take]. rewrite zlen_cons.
      destruct (Z.eqb_spec (zlen (take (Z.to_nat (k - 1)) es')) (k - 1)), (Z.eqb_spec (1 + zlen (take (Z.to_nat (k - 1)) es')) k);
        try lia; [done|]. by destruct last.
Qed.
End records.

Lemma check_scan_bound after_seq limit a n : check_scan after_seq limit = Ok (a, n) -> 0 <= a /\ 1 <= n /\ a + n < 2 ^ 63.
Proof.
  unfold check_scan, int_within, or_raise. destruct (as_strict_int after_seq) as [x|]; [|done].
  destruct (_ && _) eqn:E; [|done]. destruct (as_strict_int limit) as [y|]; [|done].
  destruct (_ && _) eqn:E' in |- *; [|done]. intros [= <- <-]. zbool. unfold MAX_PORTABLE_INTEGER, MAX_SCAN_LIMIT in *. lia.
Qed.

(** ** The adapters *)
Section adapters.
Context {L : Type} {LL : LedgerLookups L} {Laws : LedgerLaws L}.
Variable appended_at : SourceRecord -> result pyval.
Notation entry_of := (fun r => record_entry r appended_at).

(** The ledger [l] holds the entries of [engine]. *)
Definition holds_entries (l : L) (engine : Engine) : Prop :=
  wf engine /\ ledger_ok l /\ map_result entry_of (ledger_records l) = Ok (_entries engine).

Lemma holds_other l l' engine :
  ledger_ok l' -> ledger_records l' = ledger_records l -> holds_entries l engine -> holds_entries l' engine.
Proof. intros Hok E (Hwf & _ & H). split_and!; [done|done|]. by rewrite E. Qed.

Lemma found l engine v l' r :
  holds_entries l engine -> by_digest l (hex v) = (l', r) ->
  holds_entries l' engine /\
  match _by_value engine !! v with
  | Some i => exists rec e, r = Ok (Some rec) /\ record_entry rec appended_at = Ok e /\ py_index (_entries engine) i = Ok e
  | None => r = Ok None
  end.
Proof.
  intros Hl. pose proof Hl as (Hwf & Hok & Hes).
  destruct (by_digest_eq l (hex v) Hok (hex_text v)) as (l1 & -> & Hok1 & E). intros [= <- <-].
  split; [by apply (holds_other l)|].
  pose proof (find_entry appended_at _ _ v Hes) as Hf. pose proof (wf_find engine v Hwf) as Hw.
  destruct (_by_value engine !! v) as [i|].
  - destruct Hw as (e & Hi & He & Hv). destruct (find _ _) as [rec|].
    + destruct Hf as (e' & Hr & He' & Hv'). exists rec, e. split_and!; [done| |done]. rewrite Hr. f_equal.
      apply (wf_unique engine); try done. congruence.
    + exfalso. apply Hf, list_elem_of_fmap. by exists e.
  - destruct (find _ _) as [rec|]; [|done]. destruct Hf as (e & _ & He & <-). exfalso. apply Hw, list_elem_of_fmap.
    by exists e.
Qed.

(** Behind the adapter a ledger is the entry log of the engine that has
    its entries: lookups and scans answer as the engine's, errors included,
    an append of a value the ledger holds returns its entry as idempotent, an
    append of another value is unsupported, every call leaves the entries as
    they are, and a closed adapter refuses all of them. *)
Theorem ledger_adapter_refines (self : LedgerEntryStore L) engine value input after_seq limit :
  holds_entries (les_store self) engine ->
  let answers {A} (call : LedgerEntryStore L * result A) (expected : result A) : Prop :=
    holds_entries (les_store call.1) engine /\ les_closed call.1 = les_closed self /\
    call.2 = (if les_closed self then Raise ClosedError else expected) in
  answers (LedgerEntryStore.get_entry appended_at self value) (Engine.get_entry engine value)
  /\ answers (LedgerEntryStore.scan_entries appended_at self after_seq limit)
             (Engine.scan_entries engine after_seq limit)
  /\ answers (LedgerEntryStore.append appended_at self input)
       (let! (v, _) := check_append input in
        match Engine.get_entry engine (PBytes v) with
        | Ok entry => Ok {| ar_entry := entry; ar_outcome := IDEMPOTENT |}
        | Raise _ => Raise UnsupportedError
        end).
Proof.
  intros Hl answers. split_and!.
  - subst answers. unfold LedgerEntryStore.get_entry, LedgerEntryStore._require_open.
    destruct (les_closed self) eqn:Hc; [done|]. unfold Engine.get_entry. destruct (check_value value) as [v|e]; [|done].
    destruct (by_digest (les_store self) (hex v)) as [l' r] eqn:Hd. destruct (found _ _ _ _ _ Hl Hd) as [Hl' Hf].
    split_and!; [done|done|]. cbn [snd]. destruct (_by_value engine !! v); [|by subst r].
    destruct Hf as (rec & e & -> & He & Hi). by rewrite Hi.
  - subst answers. unfold LedgerEntryStore.scan_entries, LedgerEntryStore._require_open.
    destruct (les_closed self) eqn:Hc; [done|].
    destruct (reads_correct engine value after_seq limit (proj1 Hl)) as [_ Hr].
    destruct (check_scan after_seq limit) as [[a n]|e] eqn:Hcs; [|by destruct Hr as [-> ->]].
    destruct Hr as (Ha & Hn & ->). pose proof (check_scan_bound _ _ _ _ Hcs) as (_ & _ & Hmax).
    destruct (by_seq_range_eq (les_store self) (a + 1) (a + n)) as (l' & -> & Hok & E); [apply Hl|lia..|].
    split_and!; [by apply (holds_other (les_store self))|done|]. cbn [snd].
    rewrite (entries_filter appended_at _ (_entries engine)) by apply Hl.
    assert (Hs : forall i e, _entries engine !! i = Some e -> e_seq e = 1 + Z.of_nat i).
    { intros i e Hi. rewrite (ea_seq _ _ (wf_entries engine (proj1 Hl) i e Hi)). lia. }
    pose proof (dense_filter (_entries engine) 1 (a + 1) (a + n) Hs) as Hd. rewrite Z.max_r in Hd by lia. rewrite Hd.
    f_equal. apply filter_agree. intros x _. lia.
  - subst answers. unfold LedgerEntryStore.append, LedgerEntryStore._require_open.
    destruct (les_closed self) eqn:Hc; [done|]. destruct (check_append input) as [[v t]|e] eqn:Ha; [|done].
    destruct (by_digest (les_store self) (hex v)) as [l' r] eqn:Hd. destruct (found _ _ _ _ _ Hl Hd) as [Hl' Hf].
    split_and!; [done|done|]. cbn [snd]. unfold Engine.get_entry.
    assert (check_value (PBytes v) = Ok v) as ->.
    { unfold check_append in Ha. destruct input as [input|]; [|done]. destruct (check_value (Arg.value input)) as [v'|] eqn:Hv; [|done].
      cbn in Ha. destruct (normalize_time _ _); [|done]. injection Ha as -> _.
      unfold check_value in *. apply or_raise_Ok, width_Some in Hv as [_ Hv]. by apply or_raise_Ok, width_bytes. }
    destruct (_by_value engine !! v); [|by subst r]. destruct Hf as (rec & e & -> & He & Hi). by rewrite Hi, He.
Qed.

(** A source that yields the entries of an engine scans as it does. *)
Lemma log_source_refines {S} `{RecordSource S} (source : S) engine after_seq limit records :
  wf engine -> source_scan source = (records, None) -> map_result entry_of records = Ok (_entries engine) ->
  LogSourceEntries.scan_entries source appended_at after_seq limit = Engine.scan_entries engine after_seq limit.
Proof.
  intros Hwf Hs Hr. unfold LogSourceEntries.scan_entries, Engine.scan_entries.
  destruct (check_scan after_seq limit) as [[a n]|e] eqn:Hc; [|done]. rewrite Hs.
  destruct (reads_correct engine PNone after_seq limit Hwf) as [_ Hb]. rewrite Hc in Hb. destruct Hb as (Ha & Hn & _).
  rewrite (scan_from_spec _ _ (_entries engine)) by (done || lia || (intros i e Hi; rewrite (ea_seq _ _ (wf_entries engine Hwf i e Hi)); lia)).
  cbn zeta. unfold py_slice. replace (a + 1 - 1) with a by lia. replace (a + n - a) with n by lia. by destruct (_ =? _).
Qed.
End adapters.

(** ** A ledger of one record behind the adapter

    A list of records is a ledger whose lookups change nothing; its only
    record is the entry of [EngineExamples], dated by its timestamp. *)
Module DemoLedger.
#[local] Existing Instance plain_interp.

#[export] Instance lookups : LedgerLookups (list SourceRecord) := {|
  by_seq_range := fun l a b => (l, Ok (List.filter (seq_within a b) l));
  by_digest := fun l d => (l, Ok (find (has_digest d) l));
  close_ledger := fun l => l
|}.

#[export] Instance laws : LedgerLaws (list SourceRecord).
Proof.
  refine {| ledger_ok := fun _ => True; ledger_records := fun l => l |}; intros; eexists; by split_and!.
Defined.

Definition record0 : SourceRecord :=
  {| sr_seq := PInt 1; sr_capsule_id := PStr (hex value0);
     sr_capsule := Some (JDict [(str "timestamp", JStr (str "0001-01-01 01:00:00.0057+01:00"))]) |}.

Definition store0 : LedgerEntryStore (list SourceRecord) := LedgerEntryStore.__init__ [record0] true.

Lemma ledger_adapter_refines_witness :
  holds_entries capsule_timestamp (les_store store0) engine1
  /\ (LedgerEntryStore.get_entry capsule_timestamp store0 (PBytes value0)).2 = Ok entry0
  /\ (LedgerEntryStore.append capsule_timestamp store0 input0).2
     = Ok {| ar_entry := entry0; ar_outcome := IDEMPOTENT |}.
Proof.
  assert (Hl : holds_entries capsule_timestamp (les_store store0) engine1).
  { split; [exact wf1|]. split; [exact I|]. vm_compute. reflexivity. }
  split; [exact Hl|].
  destruct (ledger_adapter_refines capsule_timestamp store0 engine1 (PBytes value0) input0 (PInt 0) (PInt 1) Hl)
    as ((_ & _ & Hg) & _ & (_ & _ & Ha)).
  split; [rewrite Hg|rewrite Ha]; vm_compute; reflexivity.
Defined.

(** Time zones, fraction digits and letters as the pattern takes them; a day
    that is not in the calendar is no time. *)
Example instant_forms :
  map (fun s => match _instant (str s) with Some t => normalize_time t CorruptError | None => Raise ValueError end)
    ["0001-01-01T00:00:00Z"; " 0001-01-02t00:00:00.1234567-00:30 "; "0001-02-29T00:00:00Z"; "0001-01-01"]
  = [Ok 0; Ok (DAY + 1800123); Raise ValueError; Raise ValueError].
Proof. vm_compute. reflexivity. Qed.
End DemoLedger.
