(* ===== verification/Segments.v ===== *)
(** * Ledger segments

    [src/python/ledger/segments.py]: the manifest a segment is closed with,
    the store's list of segments, the checkpointer of the package, and the
    standalone verification of one segment from its bytes and its manifest.
    A field read from a stored manifest may hold any JSON value. *)
From S2P Require Import Prelude Bytes Text Py Json JsonProps PyJson Sha256 MmrPos Mmr Range Index Ed25519 Emit CoseWire Bundle Admission JsonBytes MmrSpec MmrProof MmrPath Inclusion Consistency.
Open Scope Z_scope.

Definition DEFAULT_MAX_SEGMENT_BYTES : Z := 256 * 1024 * 1024.

(** ** Manifests *)
Record SegmentManifest := {
  sm_log_id : json; sm_first_seq : Z; sm_last_seq : Z; sm_first_ts : json; sm_last_ts : json;
  sm_checkpoint_root : json; sm_mmr_size : Z; sm_bytes : Z; sm_record_count : Z;
  sm_sha256_of_segment : json; sm_range_proof : SeqRangeProof
}.

Record SegmentEntry := {
  se_name : json; se_mounted : bool; se_manifest : json; se_checkpoint_root : json; se_mmr_size : json
}.

Record StoreManifest := { st_log_id : json; st_active_segment : json; st_segments : list SegmentEntry }.

(** [SegmentEntry(name=name, mounted=True)] *)
Definition new_entry (name : pystr) : SegmentEntry :=
  {| se_name := JStr name; se_mounted := true; se_manifest := JNull; se_checkpoint_root := JNull; se_mmr_size := JNull |}.

Definition manifest_filename (log_id : pystr) (mmr_size : Z) : pystr :=
  log_id ++ str "-" ++ str_int mmr_size ++ str ".manifest.json".

Section dicts.
Context {PI : Interp}.

Definition _range_proof_to_dict (p : SeqRangeProof) : result pyval :=
  let! witness := list_of (srp_witness p) in
  Ok (PDict [(text_key "from_seq", srp_from_seq p); (text_key "to_seq", srp_to_seq p);
             (text_key "size", srp_size p); (text_key "from_index", srp_from_index p);
             (text_key "to_index", srp_to_index p); (text_key "witness", witness)]).

Definition _range_proof_from_dict (d : json) : result SeqRangeProof :=
  let! from_seq := int_field d "from_seq" in
  let! to_seq := int_field d "to_seq" in
  let! size := int_field d "size" in
  let! from_index := int_field d "from_index" in
  let! to_index := int_field d "to_index" in
  let! witness := tuple_field d "witness" in
  Ok {| srp_from_seq := from_seq; srp_to_seq := to_seq; srp_size := size;
        srp_from_index := from_index; srp_to_index := to_index; srp_witness := witness |}.

Definition manifest_to_dict (self : SegmentManifest) : result pyval :=
  let! range_proof := _range_proof_to_dict (sm_range_proof self) in
  Ok (PDict [(text_key "log_id", json_py (sm_log_id self)); (text_key "first_seq", PInt (sm_first_seq self));
             (text_key "last_seq", PInt (sm_last_seq self)); (text_key "first_ts", json_py (sm_first_ts self));
             (text_key "last_ts", json_py (sm_last_ts self));
             (text_key "checkpoint_root", json_py (sm_checkpoint_root self));
             (text_key "mmr_size", PInt (sm_mmr_size self)); (text_key "bytes", PInt (sm_bytes self));
             (text_key "record_count", PInt (sm_record_count self));
             (text_key "sha256_of_segment", json_py (sm_sha256_of_segment self));
             (text_key "range_proof", range_proof)]).

Definition manifest_from_dict (d : json) : result SegmentManifest :=
  let! log_id := get_or d (str "log_id") (JStr []) in
  let! first_seq := subscript d (str "first_seq") in
  let! first_seq := int_of first_seq in
  let! last_seq := subscript d (str "last_seq") in
  let! last_seq := int_of last_seq in
  let! first_ts := get_or d (str "first_ts") JNull in
  let! last_ts := get_or d (str "last_ts") JNull in
  let! checkpoint_root := subscript d (str "checkpoint_root") in
  let! mmr_size := subscript d (str "mmr_size") in
  let! mmr_size := int_of mmr_size in
  let! nbytes := subscript d (str "bytes") in
  let! nbytes := int_of nbytes in
  let! record_count := subscript d (str "record_count") in
  let! record_count := int_of record_count in
  let! sha := subscript d (str "sha256_of_segment") in
  let! range_proof := subscript d (str "range_proof") in
  let! range_proof := _range_proof_from_dict range_proof in
  Ok {| sm_log_id := log_id; sm_first_seq := first_seq; sm_last_seq := last_seq; sm_first_ts := first_ts;
        sm_last_ts := last_ts; sm_checkpoint_root := checkpoint_root; sm_mmr_size := mmr_size;
        sm_bytes := nbytes; sm_record_count := record_count; sm_sha256_of_segment := sha;
        sm_range_proof := range_proof |}.

Definition entry_to_dict (self : SegmentEntry) : json :=
  JDict [(str "name", se_name self); (str "mounted", JBool (se_mounted self)); (str "manifest", se_manifest self);
         (str "checkpoint_root", se_checkpoint_root self); (str "mmr_size", se_mmr_size self)].

Definition entry_from_dict (d : json) : result SegmentEntry :=
  let! name := subscript d (str "name") in
  let! mounted := get_or d (str "mounted") (JBool true) in
  let! manifest := get_or d (str "manifest") JNull in
  let! checkpoint_root := get_or d (str "checkpoint_root") JNull in
  let! mmr_size := get_or d (str "mmr_size") JNull in
  Ok {| se_name := name; se_mounted := truthy mounted; se_manifest := manifest;
        se_checkpoint_root := checkpoint_root; se_mmr_size := mmr_size |}.

Definition store_to_dict (self : StoreManifest) : json :=
  JDict [(str "log_id", st_log_id self); (str "active_segment", st_active_segment self);
         (str "segments", JList (map entry_to_dict (st_segments self)))].

Definition store_from_dict (d : json) : result StoreManifest :=
  let! log_id := get_or d (str "log_id") (JStr []) in
  let! active_segment := get_or d (str "active_segment") JNull in
  let! segments := get_or d (str "segments") (JList []) in
  let! segments := iterate segments in
  let! segments := map_result entry_from_dict segments in
  Ok {| st_log_id := log_id; st_active_segment := active_segment; st_segments := segments |}.

(** [StoreManifest.entry] *)
Definition store_entry (self : StoreManifest) (name : pystr) : option SegmentEntry :=
  find (fun s => is_text (se_name s) name) (st_segments self).
End dicts.

(** ** The checkpointer

    What [checkpoint()] returns to a store, and the package's own
    [MmrCheckpointer]. A checkpointer wraps the store that calls it: it is
    given what the store's [scan()] yields at the time of the call. *)
Definition scanned : Type := result (list LogRecord).

Class Checkpointer (C : Type) := {
  take_checkpoint : C -> scanned -> C * result (json * Z);
  take_range_proof : C -> Z -> Z -> C * result SeqRangeProof
}.

(** The store as the log of an index: [MmrLedger] only scans it here. *)
#[export] Instance scanned_log : LogSource scanned json := {|
  ls_append := fun l _ => (l, Raise ClosedError);
  ls_scan := fun l => l
|}.

Record MmrCheckpointer (L St : Type) := {
  mc_mmr : MmrLedger L St; mc_signer : Signer; mc_log_id : pystr; mc_prev : option CheckpointRecord
}.
Arguments mc_mmr {L St}.
Arguments mc_signer {L St}.
Arguments mc_log_id {L St}.
Arguments mc_prev {L St}.

Module MmrCheckpointer.
Section checkpointer.
Context {PI : Interp} {HL : Hashlib} {L capsule St : Type} {LS : LogSource L capsule} {NS : NodeStore St}.
Variable now : Z.

Definition with_mmr (self : MmrCheckpointer L St) (mmr : MmrLedger L St) (prev : option CheckpointRecord)
  : MmrCheckpointer L St :=
  {| mc_mmr := mmr; mc_signer := mc_signer self; mc_log_id := mc_log_id self; mc_prev := prev |}.

Definition checkpoint (self : MmrCheckpointer L St) : MmrCheckpointer L St * result CheckpointRecord :=
  let '(mmr, synced) := Index.sync (mc_mmr self) in
  let self := with_mmr self mmr (mc_prev self) in
  match (let! _ := synced in emit_checkpoint mmr (mc_signer self) (mc_log_id self) (mc_prev self) None now) with
  | Raise e => (self, Raise e)
  | Ok cp => (with_mmr self mmr (Some cp), Ok cp)
  end.

Definition range_proof (self : MmrCheckpointer L St) (from_seq to_seq : Z) : result SeqRangeProof :=
  Index.range_proof (mc_mmr self) from_seq to_seq.

End checkpointer.

(** As a store uses it: [cp.root] and [cp.mmr_size]. *)
Section store.
Context {PI : Interp} {HL : Hashlib} {St : Type} {NS : NodeStore St}.
Variable now : Z.

Definition over (self : MmrCheckpointer scanned St) (log : scanned) : MmrCheckpointer scanned St :=
  with_mmr self {| _ledger := log; _node_store := _node_store (mc_mmr self); _body_digests := _body_digests (mc_mmr self) |}
    (mc_prev self).

Definition checkpointer : Checkpointer (MmrCheckpointer scanned St) := {|
  take_checkpoint := fun self log =>
    let '(self, r) := checkpoint now (over self log) in (self, let! cp := r in Ok (c_root cp, c_mmr_size cp));
  take_range_proof := fun self from_seq to_seq => (self, range_proof self from_seq to_seq)
|}.
End store.
End MmrCheckpointer.

(** ** Verification *)

(** [str.splitlines()] *)
Definition line_end (c : Z) : bool :=
  bool_decide (c ∈ [10; 11; 12; 13; 28; 29; 30; 0x85; 0x2028; 0x2029]).

Fixpoint splitlines_from (line s : pystr) : list pystr :=
  match s with
  | [] => match line with [] => [] | _ => [rev line] end
  | c :: s =>
      if line_end c then
        rev line :: match s with
                    | 10 :: s' => if c =? 13 then splitlines_from [] s' else splitlines_from [] s
                    | _ => splitlines_from [] s
                    end
      else splitlines_from (c :: line) s
  end.
Definition splitlines (s : pystr) : list pystr := splitlines_from [] s.

Inductive segment_issue :=
| BytesChanged (digest : pystr)
| WrongCount (lines : Z)
| WrongRange
| RangeNotProved
| VerifyError (e : exn).

Section verify.
Context {PI : Interp} {HL : Hashlib} {AC : AgentActionCapsule}.

(** [bytes.fromhex(record.get(id_field) or compute_capsule_id(record))] *)
Definition body_digest_of (id_field : pystr) (record : json) : result bytes :=
  let! id := get_or record id_field JNull in
  if truthy id then fromhex_of id
  else let! id := compute_capsule_id record in fromhex id.

Definition verify_segment_body (segment_bytes : bytes) (manifest : SegmentManifest) (id_field : pystr)
  : result (option segment_issue) :=
  let digest := hex (sha256 segment_bytes) in
  if negb (is_text (sm_sha256_of_segment manifest) digest) then Ok (Some (BytesChanged digest)) else
  let! text := match utf8_decode segment_bytes with Some text => Ok text | None => Raise UnicodeError end in
  let lines := List.filter (fun line => 0 <? zlen (strip line)) (splitlines text) in
  if negb (zlen lines =? sm_record_count manifest) then Ok (Some (WrongCount (zlen lines))) else
  if negb (sm_last_seq manifest - sm_first_seq manifest + 1 =? sm_record_count manifest) then Ok (Some WrongRange) else
  let! records := map_result loads lines in
  let! body_digests := map_result (body_digest_of id_field) records in
  let! root := fromhex_of (sm_checkpoint_root manifest) in
  if Index.verify_range (PBytes root) (PInt (sm_first_seq manifest)) (PInt (sm_last_seq manifest))
       (PList (map PBytes body_digests)) (Some (sm_range_proof manifest))
  then Ok None else Ok (Some RangeNotProved).

Definition verify_segment (segment_bytes : bytes) (manifest : SegmentManifest) (id_field : pystr)
  : bool * list segment_issue :=
  match verify_segment_body segment_bytes manifest id_field with
  | Ok None => (true, [])
  | Ok (Some issue) => (false, [issue])
  | Raise e => (false, [VerifyError e])
  end.
End verify.

(** ** What a closed segment proves

    A segment that verifies under the root of a log holds the log's records
    of its range, every one of them; the segment a store closes verifies; the
    store's list of segments is read back as it was written. *)
Section manifests.
Context {PI : Interp}.

Lemma segment_entry_roundtrip e : entry_from_dict (entry_to_dict e) = Ok e.
Proof. by destruct e. Qed.

Lemma store_roundtrip m : store_from_dict (store_to_dict m) = Ok m.
Proof.
  change (store_from_dict (store_to_dict m)) with
    (let! segments := map_result entry_from_dict (map entry_to_dict (st_segments m)) in
     Ok {| st_log_id := st_log_id m; st_active_segment := st_active_segment m; st_segments := segments |}).
  rewrite map_result_map. rewrite (map_result_Ok _ (fun e => e)) by (intros e _; apply segment_entry_roundtrip).
  rewrite map_id. by destruct m.
Qed.
End manifests.

Section binding.
Context {PI : Interp} {HL : Hashlib} {AC : AgentActionCapsule}.

(** The records of a segment's text, with the body digests they name. *)
Record segment_records (segment_bytes : bytes) (id_field : pystr) (records : list json) (ds : list bytes) : Prop := {
  sr_text : exists text, utf8_decode segment_bytes = Some text
    /\ map_result loads (List.filter (fun line => 0 <? zlen (strip line)) (splitlines text)) = Ok records;
  sr_digests : map_result (body_digest_of id_field) records = Ok ds
}.

Lemma map_PBytes_inv ds ds' : map as_bytes (map PBytes ds) = map Some ds' -> ds = ds'.
Proof.
  rewrite map_map. cbn. revert ds'. induction ds as [|d ds IH]; intros [|d' ds'] H; try done.
  injection H as -> H. f_equal. by apply IH.
Qed.

(** [C34] A segment that verifies under the root of a log that ends with it
    holds exactly the log's records of its range: its bytes have the sealed
    digest, its lines are as many as declared, and their body digests are
    those of the log from [first_seq] to its end, every one of them, unless
    two different hashed strings collide. *)
Theorem segment_binding segment_bytes manifest id_field issues bodies :
  fromhex_of (sm_checkpoint_root manifest) = Ok (mmr_root (map lh bodies)) ->
  sm_last_seq manifest = zlen bodies ->
  verify_segment segment_bytes manifest id_field = (true, issues) ->
  sm_sha256_of_segment manifest = JStr (hex (sha256 segment_bytes))
  /\ exists records ds,
       segment_records segment_bytes id_field records ds
       /\ zlen records = sm_record_count manifest /\ 1 <= sm_first_seq manifest <= zlen bodies
       /\ (ds = drop (Z.to_nat (sm_first_seq manifest - 1)) bodies
           \/ collides (mmr_preimages bodies)
                (range_preimages (nc (zlen bodies)) (sm_first_seq manifest - 1) (zlen bodies - 1) ds
                   (core_range_proof (sm_range_proof manifest)))).
Proof.
  intros Hroot Hlast. unfold verify_segment, verify_segment_body.
  destruct (is_text (sm_sha256_of_segment manifest) _) eqn:Hsha; [|done]. cbn [negb].
  destruct (utf8_decode segment_bytes) as [text|] eqn:Htext; [|done].
  destruct (_ =? sm_record_count manifest) eqn:Hcount; [|done]. cbn [negb].
  destruct (_ =? sm_record_count manifest) eqn:Hrange in |- *; [|done]. cbn [negb].
  destruct (map_result loads _) as [records|] eqn:Hrec; [|done].
  destruct (map_result (body_digest_of id_field) records) as [ds|] eqn:Hds; [|done]. rewrite Hroot.
  destruct (Index.verify_range _ _ _ _ _) eqn:Hv; [|done]. intros _. rewrite Hlast in Hv.
  split.
  { destruct (sm_sha256_of_segment manifest) as [| | | |s| |]; try done. cbn in Hsha.
    apply bool_decide_eq_true in Hsha. by subst s. }
  destruct (ledger_range_binding bodies (PBytes (mmr_root (map lh bodies))) _ _ _ eq_refl Hv)
    as (vs & ds' & Hfirst & Hvs & Hds' & Hor).
  injection Hvs as <-. apply map_PBytes_inv in Hds' as <-. exists records, ds. apply Z.eqb_eq in Hcount.
  split_and!; [split; eauto| |lia|lia|done]. rewrite <- Hcount. unfold zlen. f_equal.
  symmetry. by apply map_result_length in Hrec.
Qed.
End binding.

(** ** The text of a segment *)

(** One line for each record, as [append] writes them. *)
Definition line_text (t : pystr) : pystr := t ++ [10].
Definition segment_text (ts : list pystr) : pystr := concat (map line_text ts).

Lemma ascii_no_line_end t : ascii t -> Forall (fun c => line_end c = false) t.
Proof.
  intros H. eapply Forall_impl; [exact H|]. intros c Hc. apply bool_decide_eq_false.
  cbn in Hc. rewrite !not_elem_of_cons. split_and!; try lia. apply not_elem_of_nil.
Qed.

Lemma splitlines_line line t rest :
  Forall (fun c => line_end c = false) t ->
  splitlines_from line (t ++ 10 :: rest) = (rev line ++ t) :: splitlines_from [] rest.
Proof.
  intros Ht. revert line. induction Ht as [|c t Hc Ht IH]; intros line.
  - cbn [app splitlines_from]. change (line_end 10) with true. cbn iota. rewrite app_nil_r.
    change (10 =? 13) with false. destruct rest as [|x rest]; [done|]. by do 6 (destruct x as [|x|x]; try done).
  - cbn [app splitlines_from]. rewrite Hc, IH. cbn [rev]. by rewrite <- app_assoc.
Qed.

Lemma splitlines_segment ts : Forall ascii ts -> splitlines (segment_text ts) = ts.
Proof.
  unfold splitlines, segment_text. induction 1 as [|t ts Ht Hts IH]; [done|]. cbn [map concat]. unfold line_text at 1.
  rewrite <- app_assoc. change ([10] ++ ?r) with (10 :: r).
  rewrite splitlines_line by by apply ascii_no_line_end. by rewrite IH.
Qed.

Lemma decode_segment ts : Forall ascii ts -> utf8_decode (map z2b (segment_text ts)) = Some (segment_text ts).
Proof.
  intros H. apply utf8_roundtrip, utf8_encode_ascii. unfold segment_text. induction H as [|t ts Ht Hts IH]; [constructor|].
  cbn [map concat]. apply Forall_app_2; [|done]. apply Forall_app_2; [|by repeat constructor].
  eapply Forall_impl; [exact Ht|]. cbn. lia.
Qed.

Section strip.
Context {PI : Interp}.

Lemma strip_nonempty c t : space_char c = false -> 0 <? zlen (strip (c :: t)) = true.
Proof.
  intros Hc. unfold strip. cbn [lstrip]. rewrite Hc. apply Z.ltb_lt. unfold zlen. rewrite length_rev.
  cbn [rev]. assert (forall s, lstrip (s ++ [c]) <> []) as H.
  { induction s as [|x s IH]; cbn; [by rewrite Hc|]. by destruct (space_char x). }
  specialize (H (rev t)). destruct (lstrip _); [done|]. cbn. lia.
Qed.

(** The text of an object begins with a brace. *)
Lemma dumps_dict_brace d t : dumps_ascii (JDict d) = Ok t -> exists r, t = 123 :: r.
Proof.
  unfold dumps_ascii. cbn [dumps_with]. destruct (map_result _ d); [|done]. intros [= <-]. by eexists.
Qed.
End strip.

Section complete.
Context {PI : Interp} {HL : Hashlib} {AC : AgentActionCapsule} {L capsule St : Type} {LS : LogSource L capsule}
  {NS : NodeStore St} {NSL : NodeStoreLaws St}.

(** The manifest that closes the segment with these bytes, holding the
    records [first .. last] of an index. *)
Record closes (self : MmrLedger L St) (first last : Z) (bs : bytes) (manifest : SegmentManifest) : Prop := {
  cl_first : sm_first_seq manifest = first;
  cl_last : sm_last_seq manifest = last;
  cl_count : sm_record_count manifest = last - first + 1;
  cl_sha : sm_sha256_of_segment manifest = JStr (hex (sha256 bs));
  cl_root : exists root, Index.root_at self (nc last) = Ok root /\ sm_checkpoint_root manifest = JStr (hex root);
  cl_proof : Index.range_proof self first last = Ok (sm_range_proof manifest)
}.

(** The segment a store closes verifies on its own: when its lines are
    the texts of the records [first .. last] of an index and its manifest was
    made from that index, [verify_segment] accepts the bytes. *)
Theorem segment_complete (self : MmrLedger L St) first last records ts manifest id_field :
  indexed self -> 1 <= first <= last -> last <= Index.leaf_count self -> nc last < MAX_MMR_SIZE ->
  Forall (fun r => writable r /\ exists d, r = JDict d) records -> map_result dumps_ascii records = Ok ts ->
  map_result (body_digest_of id_field) records = Ok (py_slice (_body_digests self) (first - 1) last) ->
  closes self first last (map z2b (segment_text ts)) manifest ->
  verify_segment (map z2b (segment_text ts)) manifest id_field = (true, []).
Proof.
  intros Hi Hf Hl Hmax Hw Hts Hds [Ef El Ec Es (root & Hroot & Er) Hp].
  assert (Hlines : Forall (fun t => ascii t /\ exists r, t = 123 :: r) ts /\ map_result loads ts = Ok records).
  { clear - Hw Hts. revert ts Hts. induction Hw as [|r rs [Hr [d ->]] Hw IH]; intros ts Hts; [by injection Hts as <-|].
    apply map_result_cons_Ok in Hts as (t & ts' & Ht & Hts & ->). destruct (IH ts' Hts) as [H1 H2]. split.
    - constructor; [|done]. split; [|by eapply dumps_dict_brace].
      destruct (dumps_ascii_total _ Hr) as (t' & Ht' & Ha). congruence.
    - cbn [map_result]. by rewrite (loads_dumps_ascii _ _ Hr Ht), H2. }
  destruct Hlines as [Hlines Hloads].
  assert (Ha : Forall ascii ts) by (eapply Forall_impl; [exact Hlines|]; naive_solver).
  unfold verify_segment, verify_segment_body. rewrite Es. cbn [is_text]. rewrite bool_decide_eq_true_2 by done.
  cbn [negb]. rewrite decode_segment, splitlines_segment by done.
  assert (List.filter (fun line => 0 <? zlen (strip line)) ts = ts) as ->.
  { clear - Hlines. induction Hlines as [|t ts [_ [r ->]] _ IH]; [done|]. cbn [List.filter].
    rewrite strip_nonempty by done. by rewrite IH. }
  assert (zlen ts = last - first + 1) as Hn.
  { apply map_result_length in Hloads, Hds. unfold py_slice, Index.leaf_count, zlen in *.
    rewrite length_take, length_drop in Hds. lia. }
  rewrite Hn, Ec, El, Ef, !Z.eqb_refl. cbn [negb].
  rewrite Hloads, Hds, Er. cbn [fromhex_of]. rewrite fromhex_hex.
  destruct (ledger_range_verifies self first last Hi Hf Hl Hmax) as (root' & proof & Hroot' & Hp' & Hv).
  rewrite Hroot in Hroot'. injection Hroot' as <-. rewrite Hp in Hp'. injection Hp' as <-. by rewrite Hv.
Qed.
End complete.

(** ** The segment of three records

    Records two to four of [DemoIndex], as a store writes and closes them,
    and the theorems above on that segment. *)
Module DemoSegment.
#[export] Existing Instance Sha256.hashlib.
#[export] Existing Instance plain_interp.
#[export] Existing Instance DemoAac.aac.

Definition record (body : bytes) : json := JDict [(str "capsule_id", JStr (hex body))].
Definition records : list json := Eval vm_compute in map record (py_slice Demo.bodies 1 4).
Definition texts : list pystr := Eval vm_compute in
  match map_result dumps_ascii records with Ok ts => ts | Raise _ => [] end.
Definition segment : bytes := Eval vm_compute in map z2b (segment_text texts).
Definition proof : SeqRangeProof := Eval vm_compute in
  match Index.range_proof DemoIndex.ledger 2 4 with
  | Ok p => p
  | Raise _ => Build_SeqRangeProof PNone PNone PNone PNone PNone PNone
  end.
Definition root : bytes := Eval vm_compute in mmr_root (take 4 Demo.leaves).

Definition manifest : SegmentManifest :=
  {| sm_log_id := JStr []; sm_first_seq := 2; sm_last_seq := 4; sm_first_ts := JNull; sm_last_ts := JNull;
     sm_checkpoint_root := JStr (hex root); sm_mmr_size := 7; sm_bytes := zlen segment; sm_record_count := 3;
     sm_sha256_of_segment := JStr (hex (sha256 segment)); sm_range_proof := proof |}.

Definition codes_ok (s : pystr) : Prop := forallb (fun c => (0 <=? c) && (c <? 128)) s = true.

Lemma codes_text s : codes_ok s -> text s.
Proof.
  intros H. apply text_ascii, Forall_forall. intros c Hc. unfold codes_ok in H. rewrite forallb_forall in H.
  specialize (H c (proj1 (list_elem_of_In _ _) Hc)). lia.
Qed.

Lemma record_writable s : codes_ok s -> writable (JDict [(str "capsule_id", JStr s)]).
Proof.
  intros H. apply w_dict; [apply NoDup_singleton|]. apply Forall_singleton. split; [by apply codes_text|].
  apply w_str, codes_text, H.
Qed.
End DemoSegment.
Import DemoSegment.

Lemma segment_complete_witness :
  let HL := Sha256.hashlib in let PI := plain_interp in let AC := DemoAac.aac in
  verify_segment DemoSegment.segment DemoSegment.manifest (str "capsule_id") = (true, []).
Proof.
  intros HL PI AC.
  apply (segment_complete (LS := DemoIndex.list_log) DemoIndex.ledger 2 4 DemoSegment.records DemoSegment.texts
    DemoSegment.manifest (str "capsule_id")).
  - apply DemoIndex.ledger_indexed.
  - lia.
  - vm_compute. congruence.
  - reflexivity.
  - assert (W : forall r, r ∈ DemoSegment.records -> exists s, r = JDict [(str "capsule_id", JStr s)] /\ codes_ok s).
    { intros r Hr. unfold DemoSegment.records in Hr.
      repeat (apply elem_of_cons in Hr as [->|Hr]; [eexists; split; [reflexivity|vm_compute; reflexivity]|]).
      by apply not_elem_of_nil in Hr. }
    apply Forall_forall. intros r Hr. destruct (W r Hr) as (s & -> & Hs). split; [by apply record_writable|by eexists].
  - vm_compute. reflexivity.
  - vm_compute. reflexivity.
  - split; try reflexivity. exists DemoSegment.root. split; vm_compute; reflexivity.
Defined.

Lemma segment_binding_witness :
  let HL := Sha256.hashlib in let PI := plain_interp in let AC := DemoAac.aac in
  let bodies := take 4 Demo.bodies in
  exists records ds,
    segment_records DemoSegment.segment (str "capsule_id") records ds /\ zlen records = 3 /\
    (ds = drop 1 bodies
     \/ collides (mmr_preimages bodies)
          (range_preimages (nc (zlen bodies)) (2 - 1) (zlen bodies - 1) ds (core_range_proof DemoSegment.proof))).
Proof.
  intros HL PI AC bodies.
  destruct (segment_binding DemoSegment.segment DemoSegment.manifest (str "capsule_id") [] bodies)
    as (_ & records & ds & Hr & Hn & _ & Hor).
  - vm_compute. reflexivity.
  - reflexivity.
  - vm_compute. reflexivity.
  - exists records, ds. split; [exact Hr|]. split; [exact Hn|exact Hor].
Defined.
