(* ===== verification/Lookup.v ===== *)
(** * The lookup index

    [src/python/ledger/lookup.py]: a table of record positions and a table of
    correlation ids, both derived from a ledger's segments. A connection sees
    its own writes; what it has not committed is lost with it. *)
From S2P Require Import Prelude Bytes Text Json JsonProps PyJson.
Open Scope Z_scope.

(** ** Values bound to [TEXT] columns

    SQLite stores numbers bound to such a column as text; [real_text] is its
    text of a double ([None] for a NaN, which it stores as [NULL]). *)
Section bind.
Variable real_text : pystr -> option pystr.

Definition bind_str (s : pystr) : result pystr :=
  match utf8_encode s with Some _ => Ok s | None => Raise UnicodeError end.

Definition bind (v : json) : result (option pystr) :=
  match v with
  | JNull => Ok None
  | JBool b => Ok (Some (str_int (Z.b2z b)))
  | JInt n => if (- 2 ^ 63 <=? n) && (n <? 2 ^ 63) then Ok (Some (str_int n)) else Raise OverflowError
  | JFloat literal => Ok (real_text literal)
  | JStr s => let! s := bind_str s in Ok (Some s)
  | JList _ | JDict _ => Raise SqliteError
  end.
End bind.

(** ** Correlation ids *)
Fixpoint split_on (c : Z) (part s : pystr) : list pystr :=
  match s with
  | [] => [rev part]
  | x :: s => if x =? c then rev part :: split_on c [] s else split_on c (x :: part) s
  end.

Fixpoint walk_path (value : json) (parts : list pystr) : json :=
  match parts with
  | [] => value
  | part :: parts =>
      match value with
      | JDict d => walk_path (match find_key d part with Some v => v | None => JNull end) parts
      | _ => JNull
      end
  end.

Definition field_ids (record : json) (field_name : pystr) : list pystr :=
  match walk_path record (split_on 46 [] field_name) with
  | JStr s => [s]
  | JList l => omap (fun v => match v with JStr s => Some s | _ => None end) l
  | _ => []
  end.

Definition extract_correlation_ids (record : json) (correlation_fields : list pystr) : list pystr :=
  concat (map (field_ids record) correlation_fields).

(** ** Tables *)
Record LookupRow := {
  lk_seq : Z; lk_ts : option pystr; lk_digest : pystr; lk_segment : pystr; lk_offset : Z
}.

(** Rows in the order of [seq], the primary key. *)
Record LookupDb := { lk_records : list LookupRow; lk_correlations : list (pystr * Z) }.

Definition no_lookup : LookupDb := {| lk_records := []; lk_correlations := [] |}.

(** A connection: what it sees, and what is committed. *)
Record LookupIndex := { li_view : LookupDb; li_committed : LookupDb; li_fields : list pystr }.

(** [INSERT OR REPLACE] by [seq]. *)
Fixpoint put_row (row : LookupRow) (l : list LookupRow) : list LookupRow :=
  match l with
  | [] => [row]
  | r :: l =>
      if lk_seq row <? lk_seq r then row :: r :: l
      else if lk_seq row =? lk_seq r then row :: l
      else r :: put_row row l
  end.

(** One row of [rebuild]: the record, its digest and where it is. *)
Record LookupInput := {
  in_seq : Z; in_ts : json; in_digest : json; in_segment : pystr; in_offset : Z; in_capsule : json
}.

Module LookupIndex.
Definition with_view (self : LookupIndex) (view : LookupDb) : LookupIndex :=
  {| li_view := view; li_committed := li_committed self; li_fields := li_fields self |}.
Definition commit (self : LookupIndex) : LookupIndex :=
  {| li_view := li_view self; li_committed := li_view self; li_fields := li_fields self |}.

(** Over the tables as the file holds them. *)
Definition open_index (file : LookupDb) (correlation_fields : list pystr) : LookupIndex :=
  {| li_view := file; li_committed := file; li_fields := correlation_fields |}.

Section index.
Variable real_text : pystr -> option pystr.

(** The row of a record. *)
Definition lookup_row (seq : Z) (ts : json) (record_digest : json) (segment : pystr) (byte_offset : Z)
  : result LookupRow :=
  let! ts := bind real_text ts in
  let! digest := bind real_text record_digest in
  let! digest := match digest with Some d => Ok d | None => Raise SqliteError end in
  Ok {| lk_seq := seq; lk_ts := ts; lk_digest := digest; lk_segment := segment; lk_offset := byte_offset |}.

(** The insertions of a record's correlation ids, up to one that cannot be
    bound. *)
Fixpoint insert_ids (db : LookupDb) (ids : list pystr) (seq : Z) : LookupDb * result () :=
  match ids with
  | [] => (db, Ok ())
  | cid :: ids =>
      match bind_str cid with
      | Raise e => (db, Raise e)
      | Ok cid =>
          insert_ids {| lk_records := lk_records db; lk_correlations := lk_correlations db ++ [(cid, seq)] |} ids seq
      end
  end.

Definition record (self : LookupIndex) (seq : Z) (ts record_digest : json) (segment : pystr) (byte_offset : Z)
    (capsule : json) : LookupIndex * result () :=
  match lookup_row seq ts record_digest segment byte_offset with
  | Raise e => (self, Raise e)
  | Ok row =>
      let db := {| lk_records := put_row row (lk_records (li_view self));
                   lk_correlations := List.filter (fun cs => negb (cs.2 =? seq)) (lk_correlations (li_view self)) |} in
      match insert_ids db (extract_correlation_ids capsule (li_fields self)) seq with
      | (db, Raise e) => (with_view self db, Raise e)
      | (db, Ok _) => (commit (with_view self db), Ok ())
      end
  end.

(** [(COUNT, MAX)] of the rows, and every [seq]. *)
Definition seqs_summary (self : LookupIndex) : Z * Z :=
  (zlen (lk_records (li_view self)), fold_right Z.max 0 (map lk_seq (lk_records (li_view self)))).
Definition seqs (self : LookupIndex) : list Z := map lk_seq (lk_records (li_view self)).

Fixpoint rebuild_rows (db : LookupDb) (fields : list pystr) (rows : list LookupInput) : LookupDb * result () :=
  match rows with
  | [] => (db, Ok ())
  | r :: rows =>
      match lookup_row (in_seq r) (in_ts r) (in_digest r) (in_segment r) (in_offset r) with
      | Raise e => (db, Raise e)
      | Ok row =>
          if existsb (fun row' => lk_seq row' =? lk_seq row) (lk_records db) then (db, Raise SqliteError) else
          let db := {| lk_records := put_row row (lk_records db); lk_correlations := lk_correlations db |} in
          match insert_ids db (extract_correlation_ids (in_capsule r) fields) (in_seq r) with
          | (db, Raise e) => (db, Raise e)
          | (db, Ok _) => rebuild_rows db fields rows
          end
      end
  end.

Definition rebuild (self : LookupIndex) (rows : list LookupInput) : LookupIndex * result () :=
  match rebuild_rows no_lookup (li_fields self) rows with
  | (db, Raise e) => (with_view self db, Raise e)
  | (db, Ok _) => (commit (with_view self db), Ok ())
  end.

(** ** Queries: [(seq, segment, byte_offset)], in the order of [seq] *)
Definition hit_of (r : LookupRow) : Z * pystr * Z := (lk_seq r, lk_segment r, lk_offset r).

(** [ts >= start AND ts <= end]; a [NULL] satisfies no comparison. *)
Definition ts_within (start end_ : option pystr) (r : LookupRow) : bool :=
  match lk_ts r with
  | Some t =>
      match start with Some s => str_leb s t | None => true end && match end_ with Some e => str_leb t e | None => true end
  | None => match start, end_ with None, None => true | _, _ => false end
  end.

Definition bind_bound (b : option pystr) : result () :=
  match b with Some s => let! _ := bind_str s in Ok () | None => Ok () end.

Definition by_time (self : LookupIndex) (start end_ : option pystr) : result (list (Z * pystr * Z)) :=
  let! _ := bind_bound start in
  let! _ := bind_bound end_ in
  Ok (map hit_of (List.filter (ts_within start end_) (lk_records (li_view self)))).

Definition by_digest (self : LookupIndex) (record_digest : pystr) : result (option (Z * pystr * Z)) :=
  let! d := bind_str record_digest in
  Ok (option_map hit_of (find (fun r => bool_decide (lk_digest r = d)) (lk_records (li_view self)))).

(** The join has one row for each pair of a record and a correlation. *)
Definition by_correlation (self : LookupIndex) (correlation_id : pystr) : result (list (Z * pystr * Z)) :=
  let! cid := bind_str correlation_id in
  let matches r := List.filter (fun cs => bool_decide (cs.1 = cid) && (cs.2 =? lk_seq r)) (lk_correlations (li_view self)) in
  Ok (concat (map (fun r => map (fun _ => hit_of r) (matches r)) (lk_records (li_view self)))).

Definition bind_int (n : Z) : result Z :=
  if (- 2 ^ 63 <=? n) && (n <? 2 ^ 63) then Ok n else Raise OverflowError.

Definition by_seq_range (self : LookupIndex) (first last : Z) : result (list (Z * pystr * Z)) :=
  let! first := bind_int first in
  let! last := bind_int last in
  Ok (map hit_of (List.filter (fun r => (first <=? lk_seq r) && (lk_seq r <=? last)) (lk_records (li_view self)))).
End index.
End LookupIndex.

(** ** Properties of the lookup index

    Writing a row always succeeds for a value that JSON can write, and the
    table of rows is a map by [seq]. *)
(** ** Correlation ids have an encoding *)
Lemma find_key_in d k v : find_key d k = Some v -> (k, v) ∈ d.
Proof.
  induction d as [|[k' v'] d IH]; [done|]. cbn [find_key]. case_bool_decide as E.
  - subst. intros [= ->]. by left.
  - intros H. right. by apply IH.
Qed.

Lemma find_key_writable d k v : writable (JDict d) -> find_key d k = Some v -> writable v.
Proof.
  intros Hw Hf%find_key_in. inversion Hw as [| | | | |? _ Hd]; subst. rewrite Forall_forall in Hd.
  by apply (Hd _ Hf).
Qed.

Lemma walk_path_writable v parts : writable v -> writable (walk_path v parts).
Proof.
  revert v. induction parts as [|p parts IH]; intros v Hw; [done|]. cbn [walk_path].
  destruct v as [| | | | | |d]; try constructor. apply IH. destruct (find_key d p) eqn:E; [|constructor].
  by eapply find_key_writable.
Qed.

Lemma correlation_ids_text v fields : writable v -> Forall text (extract_correlation_ids v fields).
Proof.
  intros Hw. unfold extract_correlation_ids. apply Forall_concat, Forall_map, Forall_forall. intros f _.
  unfold field_ids. pose proof (walk_path_writable v (split_on 46 [] f) Hw) as Hp.
  destruct (walk_path _ _) as [| | | |s|l|]; try by constructor.
  - inversion Hp; subst. by repeat constructor.
  - inversion Hp as [| | | |? Hl|]; subst. apply Forall_forall. intros s (x & Hx & Hs)%list_elem_of_omap.
    rewrite Forall_forall in Hl. specialize (Hl x Hx). destruct x; simplify_eq. by inversion Hl.
Qed.

Lemma insert_ids_text db ids seq :
  Forall text ids ->
  LookupIndex.insert_ids db ids seq =
  ({| lk_records := lk_records db; lk_correlations := lk_correlations db ++ map (fun c => (c, seq)) ids |}, Ok ()).
Proof.
  revert db. induction ids as [|c ids IH]; intros db Ht; cbn [LookupIndex.insert_ids map].
  - rewrite app_nil_r. by destruct db.
  - apply Forall_cons in Ht as [[bs Hc] Ht]. unfold bind_str. rewrite Hc, IH by done. cbn. by rewrite <- app_assoc.
Qed.

(** What the tables hold once a row is written. *)
Definition put (li : LookupIndex) (row : LookupRow) (v : json) : LookupDb :=
  {| lk_records := put_row row (lk_records (li_view li));
     lk_correlations := List.filter (fun cs => negb (cs.2 =? lk_seq row)) (lk_correlations (li_view li))
                        ++ map (fun c => (c, lk_seq row)) (extract_correlation_ids v (li_fields li)) |}.

Lemma record_writes real_text li seq ts digest seg off v row :
  writable v -> LookupIndex.lookup_row real_text seq ts digest seg off = Ok row ->
  LookupIndex.record real_text li seq ts digest seg off v =
  (LookupIndex.commit (LookupIndex.with_view li (put li row v)), Ok ()).
Proof.
  intros Hw Hr. unfold LookupIndex.record. rewrite Hr, insert_ids_text by by apply correlation_ids_text.
  assert (lk_seq row = seq) as <-; [|done]. unfold LookupIndex.lookup_row in Hr. inv_result. by subst.
Qed.
