(* ===== verification/Store.v ===== *)
(** * The ledger store: writing and recovery

    [src/python/ledger/store.py]: capsules in JSONL segments, the source of
    truth, and the two indexes derived from them. The disk is the state a
    process leaves behind; the operating system and SQLite answer each of the
    store's steps from a list of faults, and a step may be the process's last. *)
From S2P Require Import Prelude Bytes Text Py Json JsonProps PyJson JsonBytes Sha256 MmrPos Mmr Index Calendar Ed25519 Emit CoseWire Bundle Admission Segments Lookup.
From S2P Require Import Jsonl.
Open Scope Z_scope.

(** ** The disk *)

(** A segment file; its first [durable] bytes have been synced. *)
Record File := { data : bytes; durable : nat }.

(** A row of the records index. Rows are in the order of [seq]. *)
Record Row := {
  r_seq : Z; r_capsule_id : pystr; r_segment : pystr; r_offset : Z;
  r_timestamp : option pystr; r_operator : option pystr; r_developer : option pystr;
  r_action_type : option pystr; r_verdict_class : option pystr;
  r_parent_capsule_id : option pystr; r_chain_relation : option pystr;
  r_consequential : bool; r_authenticity : pystr
}.

(** [segments/] and [segments/.archived/] by name, the manifests of closed
    segments, [manifest.json], the two databases as they are committed, and
    [lookup_config.json] ([Some None] when it does not read back). A JSON file
    is the value it holds. *)
Record Disk := {
  segments : gmap pystr File; archived : gmap pystr File; closed : gmap pystr json;
  manifest_json : option json; records : list Row; lookup_file : LookupDb;
  lookup_config : option (option (list pystr))
}.

(** ** The instance *)
Record Config := {
  rotate_at_checkpoint : bool; segment_max_records : Z; max_segment_bytes : Z; store_log_id : pystr
}.

(** What the instance keeps besides the disk; [write_segment] is the segment
    its write handle is open on. *)
Record Memory (C : Type) := {
  manifest : option StoreManifest; lookup_index : option LookupIndex; correlation_fields : list pystr;
  write_segment : option pystr; needs_recover : bool; read_only_unmanaged : bool; attached : option C
}.
Arguments manifest {C}.
Arguments lookup_index {C}.
Arguments correlation_fields {C}.
Arguments write_segment {C}.
Arguments needs_recover {C}.
Arguments read_only_unmanaged {C}.
Arguments attached {C}.
Arguments Build_Memory {C}.

(** What a step meets: nothing, an error, or the end of the process. A write
    that does not complete has written the given number of bytes; any other
    step that ends the process has taken effect unless the number is zero. *)
Inductive fault := Fine | Fails (n : nat) | Dies (n : nat).

Record LedgerStore (C : Type) := { cfg : Config; disk : Disk; mem : Memory C; faults : list fault }.
Arguments cfg {C}.
Arguments disk {C}.
Arguments mem {C}.
Arguments faults {C}.
Arguments Build_LedgerStore {C}.

(** The exceptions that carry a value a caller reads. *)
Inductive raised :=
| Exn (e : exn)
| Duplicate (capsule_id : pystr) (record : option LedgerRecord)
| Unmounted (checkpoint_root mmr_size : json) (segment : pystr).

Inductive outcome (A : Type) := Done (a : A) | Raised (r : raised) | Died.
Arguments Done {A}.
Arguments Raised {A}.
Arguments Died {A}.

(** ** Steps *)
Definition M (C A : Type) : Type := LedgerStore C -> LedgerStore C * outcome A.

Section monad.
Context {C : Type}.
Notation M := (M C).

Definition ret {A} (a : A) : M A := fun self => (self, Done a).
Definition throw {A} (r : raised) : M A := fun self => (self, Raised r).
Definition die {A} : M A := fun self => (self, Died).
Definition bind {A B} (m : M A) (k : A -> M B) : M B := fun self =>
  match m self with
  | (self, Done a) => k a self
  | (self, Raised r) => (self, Raised r)
  | (self, Died) => (self, Died)
  end.
Definition get : M (LedgerStore C) := fun self => (self, Done self).
Definition update (f : LedgerStore C -> LedgerStore C) : M () := fun self => (f self, Done ()).
Definition lift {A} (r : result A) : M A := match r with Ok a => ret a | Raise e => throw (Exn e) end.

(** [try: m except ...: h], where [h] may raise again or return. *)
Definition catch {A} (m : M A) (h : raised -> M A) : M A := fun self =>
  match m self with
  | (self, Raised r) => h r self
  | other => other
  end.

Definition set_disk (f : Disk -> Disk) (self : LedgerStore C) : LedgerStore C :=
  Build_LedgerStore (cfg self) (f (disk self)) (mem self) (faults self).
Definition set_mem (f : Memory C -> Memory C) (self : LedgerStore C) : LedgerStore C :=
  Build_LedgerStore (cfg self) (disk self) (f (mem self)) (faults self).

(** The fault the next step meets. *)
Definition next_fault : M fault := fun self =>
  match faults self with
  | [] => (self, Done Fine)
  | f :: fs => (Build_LedgerStore (cfg self) (disk self) (mem self) fs, Done f)
  end.
End monad.

Declare Scope store_scope.
Delimit Scope store_scope with store.
Notation "'let%' x ':=' m 'in' k" := (bind m (fun x => k))
  (at level 10, x pattern, m at level 100, k at level 200, only parsing) : store_scope.
Open Scope store_scope.

(** ** Fields *)
Definition with_segments (m : gmap pystr File) (d : Disk) : Disk :=
  {| segments := m; archived := archived d; closed := closed d; manifest_json := manifest_json d;
     records := records d; lookup_file := lookup_file d; lookup_config := lookup_config d |}.
Definition with_archived (m : gmap pystr File) (d : Disk) : Disk :=
  {| segments := segments d; archived := m; closed := closed d; manifest_json := manifest_json d;
     records := records d; lookup_file := lookup_file d; lookup_config := lookup_config d |}.
Definition with_closed (m : gmap pystr json) (d : Disk) : Disk :=
  {| segments := segments d; archived := archived d; closed := m; manifest_json := manifest_json d;
     records := records d; lookup_file := lookup_file d; lookup_config := lookup_config d |}.
Definition with_manifest_json (v : json) (d : Disk) : Disk :=
  {| segments := segments d; archived := archived d; closed := closed d; manifest_json := Some v;
     records := records d; lookup_file := lookup_file d; lookup_config := lookup_config d |}.
Definition with_records (l : list Row) (d : Disk) : Disk :=
  {| segments := segments d; archived := archived d; closed := closed d; manifest_json := manifest_json d;
     records := l; lookup_file := lookup_file d; lookup_config := lookup_config d |}.
Definition with_lookup_file (db : LookupDb) (d : Disk) : Disk :=
  {| segments := segments d; archived := archived d; closed := closed d; manifest_json := manifest_json d;
     records := records d; lookup_file := db; lookup_config := lookup_config d |}.
Definition with_lookup_config (c : list pystr) (d : Disk) : Disk :=
  {| segments := segments d; archived := archived d; closed := closed d; manifest_json := manifest_json d;
     records := records d; lookup_file := lookup_file d; lookup_config := Some (Some c) |}.

Section fields.
Context {C : Type}.
Implicit Types m : Memory C.

Definition with_manifest (v : option StoreManifest) m : Memory C :=
  Build_Memory v (lookup_index m) (correlation_fields m) (write_segment m) (needs_recover m) (read_only_unmanaged m) (attached m).
Definition with_lookup (v : option LookupIndex) m : Memory C :=
  Build_Memory (manifest m) v (correlation_fields m) (write_segment m) (needs_recover m) (read_only_unmanaged m) (attached m).
Definition with_write_segment (v : option pystr) m : Memory C :=
  Build_Memory (manifest m) (lookup_index m) (correlation_fields m) v (needs_recover m) (read_only_unmanaged m) (attached m).
Definition with_needs_recover (v : bool) m : Memory C :=
  Build_Memory (manifest m) (lookup_index m) (correlation_fields m) (write_segment m) v (read_only_unmanaged m) (attached m).
Definition with_attached (v : C) m : Memory C :=
  Build_Memory (manifest m) (lookup_index m) (correlation_fields m) (write_segment m) (needs_recover m) (read_only_unmanaged m) (Some v).
End fields.

(** ** System calls *)
Section calls.
Context {C : Type}.
Notation M := (M C).

(** A step that takes effect as a whole or not at all. *)
Definition atomic (e : exn) (f : LedgerStore C -> LedgerStore C) : M () :=
  let% met := next_fault in
  match met with
  | Fine => update f
  | Fails _ => throw (Exn e)
  | Dies O => die
  | Dies (S _) => let% _ := update f in die
  end.

Definition append_file (bs : bytes) (f : option File) : option File :=
  match f with
  | Some f => Some {| data := data f ++ bs; durable := durable f |}
  | None => Some {| data := bs; durable := 0 |}
  end.

Definition append_to (name : pystr) (bs : bytes) (self : LedgerStore C) : LedgerStore C :=
  set_disk (fun d => with_segments (partial_alter (append_file bs) name (segments d)) d) self.

(** [fh.write(text); fh.flush()]: a failed flush leaves a first part of the
    text in the file, and closing the handle may add more of it. *)
Definition write_file (name : pystr) (bs : bytes) : M () :=
  let% met := next_fault in
  match met with
  | Fine => update (append_to name bs)
  | Fails n => let% _ := update (append_to name (take n bs)) in throw (Exn OSError)
  | Dies n => let% _ := update (append_to name (take n bs)) in die
  end.

Definition on_file (name : pystr) (f : File -> File) (self : LedgerStore C) : LedgerStore C :=
  set_disk (fun d => with_segments (alter f name (segments d)) d) self.

(** [os.fsync] of a segment. *)
Definition synced (f : File) : File := {| data := data f; durable := length (data f) |}.
Definition sync_file (name : pystr) : M () := atomic OSError (on_file name synced).

Definition cut (n : nat) (f : File) : File := {| data := take n (data f); durable := Nat.min n (durable f) |}.
Definition truncate_file (name : pystr) (n : Z) : M () := atomic OSError (on_file name (cut (Z.to_nat n))).

(** [path.touch()], and opening a handle to append. *)
Definition touched (name : pystr) (self : LedgerStore C) : LedgerStore C := append_to name [] self.
Definition touch (name : pystr) : M () := atomic OSError (touched name).
Definition open_append (name : pystr) : M () :=
  update (fun self => set_mem (with_write_segment (Some name)) (touched name self)).

(** [_atomic_write_text]: the file has its old content or the new. The sync of
    the directory, after the rename, is a step that may fail as well. *)
Definition _atomic_write_text (f : Disk -> Disk) : M () :=
  let% _ := atomic OSError (set_disk f) in
  atomic OSError (fun self => self).
End calls.

(** ** Lines *)
Definition SEGMENT_GLOB (name : pystr) : bool :=
  bool_decide (take 4 name = str "seg-") && bool_decide (drop (length name - 6) name = str ".jsonl")
  && (10 <=? zlen name).

(** [sorted(p.name for p in segments_dir.glob("seg-*.jsonl"))] *)
Fixpoint insert_sorted (s : pystr) (l : list pystr) : list pystr :=
  match l with
  | [] => [s]
  | t :: l => if str_leb s t then s :: t :: l else t :: insert_sorted s l
  end.
Definition _existing_segments (d : Disk) : list pystr :=
  fold_right insert_sorted [] (List.filter SEGMENT_GLOB (map fst (map_to_list (segments d)))).

(** [f"seg-{index:06d}.jsonl"] *)
Definition segment_name (index : Z) : pystr := str "seg-" ++ pad 6 index ++ str ".jsonl".

(** A line of a file read from an offset: up to and with its newline. *)
Fixpoint raw_line (bs : bytes) : bytes :=
  match bs with
  | [] => []
  | b :: bs => if bool_decide (b = Byte.x0a) then [b] else b :: raw_line bs
  end.

(** [readline()] of a handle in text mode: a carriage return also ends it,
    and the end is given as a newline. *)
Fixpoint text_line (bs : bytes) : bytes :=
  match bs with
  | [] => []
  | b :: bs => if bool_decide (b ∈ [Byte.x0a; Byte.x0d]) then [Byte.x0a] else b :: text_line bs
  end.

Definition read_text (f : File) (offset : Z) : result json :=
  match utf8_decode (text_line (drop (Z.to_nat offset) (data f))) with
  | Some text => loads text
  | None => Raise UnicodeError
  end.

Definition is_none_json (v : json) : bool := match v with JNull => true | _ => false end.

(** [_line_id_problem]: the [capsule_id] member, if any, names an entry. *)
Definition _line_id_problem (line : json) : result bool :=
  match line with
  | JDict d =>
      Ok match find_key d (str "capsule_id") with
         | None => false
         | Some (JStr (_ :: _)) => false
         | Some _ => true
         end
  | _ => Raise TypeError
  end.

(** [a or b] of a value and a computation. *)
Definition given_or {PI : Interp} (v : json) (compute : result pystr) : result json :=
  if truthy v then Ok v else let! s := compute in Ok (JStr s).

(** [v.get(key) or {}] *)
Definition object_or_empty {PI : Interp} (v : json) (key : string) : result json :=
  let! x := get_or v (str key) JNull in
  Ok (if truthy x then x else JDict []).

Record RecoveryReport := {
  truncated_bytes : Z; indexed_seqs : list Z; skipped_offsets : list Z; lookup_seqs : list Z
}.
Definition report_changed (self : RecoveryReport) : bool :=
  negb (truncated_bytes self =? 0) || (0 <? zlen (indexed_seqs self)) || (0 <? zlen (lookup_seqs self)).

Module LedgerStore.
Section store.
Context {PI : Interp} {HL : Hashlib} {AC : AgentActionCapsule} {C : Type} {CK : Checkpointer C}.
Variable real_text : pystr -> option pystr.
Notation M := (M C).
Implicit Types self : LedgerStore C.

(** ** Segments *)
Definition save_store_manifest (m : StoreManifest) : M () :=
  _atomic_write_text (with_manifest_json (store_to_dict m)).

Definition _save_store_manifest : M () :=
  let% self := get in
  match manifest (mem self) with
  | Some m => save_store_manifest m
  | None => throw (Exn AttributeError)
  end.

Definition _new_segment_name (m : StoreManifest) : pystr := segment_name (zlen (st_segments m) + 1).

Definition set_manifest (m : StoreManifest) : M () := update (set_mem (with_manifest (Some m))).

(** A new active segment, listed and saved. *)
Definition add_segment (m : StoreManifest) (name : pystr) : StoreManifest :=
  {| st_log_id := st_log_id m; st_active_segment := JStr name; st_segments := st_segments m ++ [new_entry name] |}.

Definition start_segment : M () :=
  let% self := get in
  match manifest (mem self) with
  | None => throw (Exn AttributeError)
  | Some m =>
      let name := _new_segment_name m in
      let% _ := touch name in
      let% _ := set_manifest (add_segment m name) in
      _save_store_manifest
  end.

Definition point_at (name : pystr) : M () :=
  let% self := get in
  if bool_decide (write_segment (mem self) = Some name) then ret () else open_append name.

Definition _sync_write_segment_managed : M () :=
  let% self := get in
  let% _ := match manifest (mem self) with
            | Some m => if is_none_json (st_active_segment m) then start_segment else ret ()
            | None => throw (Exn AttributeError)
            end in
  let% self := get in
  match option_map st_active_segment (manifest (mem self)) with
  | Some (JStr name) => point_at name
  | _ => throw (Exn TypeError)
  end.

Definition _segment_record_count (d : Disk) (name : pystr) : Z :=
  zlen (List.filter (fun r => bool_decide (r_segment r = name)) (records d)).

Definition _sync_write_segment : M () :=
  let% self := get in
  if rotate_at_checkpoint (cfg self) then _sync_write_segment_managed
  else
    let names := _existing_segments (disk self) in
    match last names with
    | Some name =>
        if segment_max_records (cfg self) <=? _segment_record_count (disk self) name then
          let next := segment_name (zlen names + 1) in
          let% _ := touch next in
          point_at next
        else point_at name
    | None =>
        let next := segment_name 1 in
        let% _ := touch next in
        point_at next
    end.

(** [_resolve_segment_path] and what is there. *)
Definition segment_entry self (segment : pystr) : option SegmentEntry :=
  if rotate_at_checkpoint (cfg self) then
    match manifest (mem self) with Some m => store_entry m segment | None => None end
  else None.

Definition is_unmounted self (segment : pystr) : bool :=
  match segment_entry self segment with Some e => negb (se_mounted e) | None => false end.

Definition segment_file self (segment : pystr) : option File :=
  if is_unmounted self segment then archived (disk self) !! segment else segments (disk self) !! segment.

Definition _require_mounted (segment : pystr) : M () :=
  let% self := get in
  match segment_entry self segment with
  | Some e => if se_mounted e then ret () else throw (Unmounted (se_checkpoint_root e) (se_mmr_size e) segment)
  | None => ret ()
  end.

Definition _get_fh (segment : pystr) : M File :=
  let% self := get in
  match segment_file self segment with Some f => ret f | None => throw (Exn OSError) end.

(** ** Reading one record *)
Definition _bundled_envelopes (capsule : json) (authenticity : pystr) : result (list ProducerEnvelope) :=
  if negb (bool_decide (authenticity = AUTHENTICITY_SIGNED)) then Ok []
  else
    let! sig := get_or capsule (str "signature") JNull in
    let! kid := get_or capsule (str "key_id") JNull in
    Ok (if is_str sig && is_str kid then [{| envelope := sig; env_key_id := kid |}] else []).

Definition _row_to_record (row : Row) : M LedgerRecord :=
  let% _ := _require_mounted (r_segment row) in
  let% fh := _get_fh (r_segment row) in
  let% capsule := lift (read_text fh (r_offset row)) in
  let% envelopes := lift (_bundled_envelopes capsule (r_authenticity row)) in
  ret {| lr_seq := r_seq row; lr_capsule_id := r_capsule_id row; lr_capsule := capsule;
         lr_segment := r_segment row; lr_consequential := r_consequential row;
         lr_authenticity := r_authenticity row; lr_envelopes := envelopes |}.

Definition _existing_record (row : Row) : M (option LedgerRecord) :=
  catch (let% record := _row_to_record row in ret (Some record))
    (fun r => match r with Unmounted _ _ _ => ret None | _ => throw r end).

Definition find_row (d : Disk) (capsule_id : pystr) : option Row :=
  find (fun r => bool_decide (r_capsule_id r = capsule_id)) (records d).

Definition _record_row (capsule_id : pystr) : M (option Row) :=
  let% cid := lift (bind_str capsule_id) in
  let% self := get in
  ret (find_row (disk self) cid).

(** What [scan] yields with no query, as an index reads it. *)
Fixpoint map_M {A B} (f : A -> M B) (l : list A) : M (list B) :=
  match l with
  | [] => ret []
  | x :: l => let% y := f x in let% ys := map_M f l in ret (y :: ys)
  end.

Definition all_records : M (list LedgerRecord) :=
  let% self := get in map_M _row_to_record (records (disk self)).

Definition exn_of (r : raised) : exn :=
  match r with Exn e => e | Duplicate _ _ => DuplicateRecord | Unmounted _ _ _ => SegmentUnmounted end.

Definition scanned_records : M scanned :=
  catch (let% rs := all_records in
         ret (Ok (map (fun r => {| seq := lr_seq r; capsule_id := lr_capsule_id r |}) rs)))
    (fun r => ret (Raise (exn_of r))).

(** ** Rows *)

(** The re-derived state of an entry already written. *)
Definition _reindex_authenticity (capsule : json) : result pystr :=
  let! sig := get_or capsule (str "signature") JNull in
  let! kid := get_or capsule (str "key_id") JNull in
  if negb (is_str sig && is_str kid) then Ok AUTHENTICITY_UNSIGNED
  else
    let! ok := false_on_error (let! cid := compute_capsule_id capsule in
                               check_envelope cid {| envelope := sig; env_key_id := kid |}) in
    Ok (if ok : bool then AUTHENTICITY_SIGNED else AUTHENTICITY_UNSIGNED).

(** A value one SQLite binds, or [ValueError]. *)
Definition param (v : json) : result (option pystr) :=
  match Lookup.bind real_text v with Ok c => Ok c | Raise _ => Raise ValueError end.

Definition is_dict (v : json) : bool := match v with JDict _ => true | _ => false end.

(** The row of a line, its [seq] and its [capsule_id] still to be given. *)
Definition _record_params (to_store : json) (capsule_id : json) (segment : pystr) (offset : Z)
    (consequential : bool) (authenticity : pystr) : result (option pystr * (Z -> pystr -> Row)) :=
  let! chain := object_or_empty to_store "chain" in
  let! disposition := object_or_empty to_store "disposition" in
  if negb (is_dict chain && is_dict disposition) then Raise ValueError else
  let field key := get_or to_store (str key) JNull in
  let! timestamp := field "timestamp" in
  let! operator := field "operator" in
  let! developer := field "developer" in
  let! action_type := field "action_type" in
  let! verdict := get_or disposition (str "verdict_class") JNull in
  let! parent := get_or chain (str "parent_capsule_id") JNull in
  let! relation := get_or chain (str "relation") JNull in
  let! cid := param capsule_id in
  let! timestamp := param timestamp in
  let! operator := param operator in
  let! developer := param developer in
  let! action_type := param action_type in
  let! verdict := param verdict in
  let! parent := param parent in
  let! relation := param relation in
  Ok (cid, fun seq cid =>
    {| r_seq := seq; r_capsule_id := cid; r_segment := segment; r_offset := offset; r_timestamp := timestamp;
       r_operator := operator; r_developer := developer; r_action_type := action_type;
       r_verdict_class := verdict; r_parent_capsule_id := parent; r_chain_relation := relation;
       r_consequential := consequential; r_authenticity := authenticity |}).

(** [INSERT INTO records]: the next [seq], unless the id is null or taken. *)
Definition next_seq (rows : list Row) : Z := fold_right Z.max 0 (map r_seq rows) + 1.

Definition insert_row (rows : list Row) (params : option pystr * (Z -> pystr -> Row)) : result (list Row * Z) :=
  match params.1 with
  | None => Raise SqliteError
  | Some cid =>
      if existsb (fun r => bool_decide (r_capsule_id r = cid)) rows then Raise SqliteError
      else Ok (rows ++ [params.2 (next_seq rows) cid], next_seq rows)
  end.

Definition _insert_record (to_store capsule_id : json) (segment : pystr) (offset : Z)
    (consequential : bool) (authenticity : pystr) : M Z :=
  let% params := lift (_record_params to_store capsule_id segment offset consequential authenticity) in
  let% self := get in
  let% (rows, seq) := lift (insert_row (records (disk self)) params) in
  let% _ := atomic SqliteBusy (set_disk (with_records rows)) in
  ret seq.

(** [LookupIndex.record] as a step: it commits or, when SQLite fails, raises. *)
Definition set_lookup (li : option LookupIndex) : M () := update (set_mem (with_lookup li)).

Definition commit_lookup (li : LookupIndex) (self : LedgerStore C) : LedgerStore C :=
  set_mem (with_lookup (Some li)) (set_disk (with_lookup_file (li_committed li)) self).

Definition lookup_write (li : LookupIndex) (r : LookupIndex * result ()) : M bool :=
  match r with
  | (li', Ok _) =>
      catch (let% _ := atomic SqliteError (commit_lookup li') in ret true)
        (fun _ => let% _ := set_lookup None in ret false)
  | (li', Raise SqliteError) => let% _ := set_lookup None in ret false
  | (li', Raise e) => let% _ := set_lookup (Some li') in throw (Exn e)
  end.

Definition _lookup_record (seq : Z) (capsule : json) (capsule_id : pystr) (segment : pystr) (offset : Z) : M bool :=
  let% self := get in
  match lookup_index (mem self) with
  | None => ret false
  | Some li =>
      let% ts := lift (get_or capsule (str "timestamp") JNull) in
      lookup_write li (LookupIndex.record real_text li seq ts (JStr capsule_id) segment offset capsule)
  end.

(** The id of a row, once it is inserted. *)
Definition text_id (capsule_id : json) : pystr := match capsule_id with JStr s => s | _ => [] end.

Definition _index_line (to_store capsule_id : json) (segment : pystr) (offset : Z) (consequential : bool)
    (authenticity : pystr) : M Z :=
  let% seq := _insert_record to_store capsule_id segment offset consequential authenticity in
  let% _ := _lookup_record seq to_store (text_id capsule_id) segment offset in
  ret seq.

Definition _drop_write_handle : M () := update (set_mem (with_write_segment None)).

Definition _refuse_read_only_unmanaged : M () :=
  let% self := get in
  if read_only_unmanaged (mem self) then throw (Exn SegmentRotationError) else ret ().

(** ** Rotation *)

(** A dictionary as [json.dumps] writes it; no manifest holds a float. *)
Fixpoint py_json (v : pyval) : result json :=
  match v with
  | PNone => Ok JNull
  | PBool b => Ok (JBool b)
  | PInt n => Ok (JInt n)
  | PStr s => Ok (JStr s)
  | PList l | PTuple l => let! l := map_result py_json l in Ok (JList l)
  | PDict d =>
      let! d := map_result (fun kv => match kv with
                                      | (PStr k, v) => let! v := py_json v in Ok (k, v)
                                      | _ => Raise TypeError
                                      end) d in
      Ok (JDict d)
  | _ => Raise TypeError
  end.

Definition json_text (o : option pystr) : json := match o with Some s => JStr s | None => JNull end.

(** [MIN] and [MAX] of a column, which pass over [NULL]. *)
Definition text_min (a b : option pystr) : option pystr :=
  match a, b with Some s, Some t => Some (if str_leb s t then s else t) | None, x => x | x, None => x end.
Definition text_max (a b : option pystr) : option pystr :=
  match a, b with Some s, Some t => Some (if str_leb s t then t else s) | None, x => x | x, None => x end.

(** The entry of a segment once it is closed. *)
Definition close_entry (name : pystr) (path : pystr) (root : json) (mmr_size : Z) (e : SegmentEntry) : SegmentEntry :=
  if is_text (se_name e) name
  then {| se_name := se_name e; se_mounted := se_mounted e; se_manifest := JStr path;
          se_checkpoint_root := root; se_mmr_size := JInt mmr_size |}
  else e.

(** [next(...)] finds the first entry of the name; only that one changes. *)
Fixpoint first_entry (name : pystr) (f : SegmentEntry -> SegmentEntry) (l : list SegmentEntry) : list SegmentEntry :=
  match l with
  | [] => []
  | e :: l => if is_text (se_name e) name then f e :: l else e :: first_entry name f l
  end.

Definition update_entry (name : pystr) (f : SegmentEntry -> SegmentEntry) (m : StoreManifest) : StoreManifest :=
  {| st_log_id := st_log_id m; st_active_segment := st_active_segment m; st_segments := first_entry name f (st_segments m) |}.

Definition call_checkpointer {A} (f : C -> C * result A) : M A :=
  let% self := get in
  match attached (mem self) with
  | None => throw (Exn SegmentRotationError)
  | Some c =>
      let '(c, r) := f c in
      let% _ := update (set_mem (with_attached c)) in
      lift r
  end.

Definition _rotate_segment : M SegmentManifest :=
  let% self := get in
  let% name := match attached (mem self), write_segment (mem self) with
               | None, _ => throw (Exn SegmentRotationError)
               | Some _, Some name => ret name
               | Some _, None => throw (Exn AttributeError)
               end in
  let% _ := sync_file name in
  let% self := get in
  let rows := List.filter (fun r => bool_decide (r_segment r = name)) (records (disk self)) in
  match rows with
  | [] => throw (Exn SegmentRotationError)
  | r :: rest =>
      let first_seq := fold_right Z.min (r_seq r) (map r_seq rest) in
      let last_seq := fold_right Z.max (r_seq r) (map r_seq rest) in
      let first_ts := fold_right text_min None (map r_timestamp rows) in
      let last_ts := fold_right text_max None (map r_timestamp rows) in
      let% log := scanned_records in
      let% (root, mmr_size) := call_checkpointer (fun c => take_checkpoint c log) in
      let% range_proof := call_checkpointer (fun c => take_range_proof c first_seq last_seq) in
      if negb (py_eq (srp_size range_proof) (PInt mmr_size)) then throw (Exn SegmentRotationError) else
      let% self := get in
      let% f := match segments (disk self) !! name with Some f => ret f | None => throw (Exn OSError) end in
      let seg_manifest :=
        {| sm_log_id := JStr (store_log_id (cfg self)); sm_first_seq := first_seq; sm_last_seq := last_seq;
           sm_first_ts := json_text first_ts; sm_last_ts := json_text last_ts; sm_checkpoint_root := root;
           sm_mmr_size := mmr_size; sm_bytes := zlen (data f); sm_record_count := zlen rows;
           sm_sha256_of_segment := JStr (hex (sha256 (data f))); sm_range_proof := range_proof |} in
      let manifest_name := manifest_filename (store_log_id (cfg self)) mmr_size in
      let% text := lift (let! d := manifest_to_dict seg_manifest in py_json d) in
      let% _ := _atomic_write_text (fun d => with_closed (<[manifest_name := text]> (closed d)) d) in
      let% m := match manifest (mem self) with Some m => ret m | None => throw (Exn AttributeError) end in
      let% _ := match store_entry m name with Some _ => ret () | None => throw (Exn AttributeError) end in
      let% _ := set_manifest (update_entry name (close_entry name (str "segments/" ++ manifest_name) root mmr_size) m) in
      let% _ := _drop_write_handle in
      let% _ := start_segment in
      let% _ := _sync_write_segment in
      ret seg_manifest
  end.

(** ** Appending *)

(** What an append stores, and under which id. *)
Definition stored_capsule (capsule : json) (resolution : _Resolution) : result (json * json) :=
  if bool_decide (authenticity resolution = AUTHENTICITY_SIGNED) then
    match verified_envelopes resolution, capsule with
    | proof :: _, JDict d =>
        let to_store := JDict (dict_set (dict_set d (str "signature") (envelope proof)) (str "key_id") (env_key_id proof)) in
        let! cid := given_or (json_text (resolved_id resolution)) (compute_capsule_id to_store) in
        Ok (to_store, cid)
    | [], _ => Raise IndexError
    | _, _ => Raise TypeError
    end
  else
    let! given := get_or capsule (str "capsule_id") JNull in
    let! cid := given_or given (compute_capsule_id capsule) in
    Ok (capsule, cid).

(** The line may not name another id than the one it is indexed under. *)
Definition id_conflict (to_store capsule_id : json) : result bool :=
  let! problem := _line_id_problem to_store in
  if problem then Ok true
  else
    let! given := get_or to_store (str "capsule_id") JNull in
    Ok (negb (is_none_json given) && negb (json_eq given capsule_id)).

Definition line_bytes (line : pystr) : bytes := map z2b (line ++ [10]).

Definition file_size self (name : pystr) : Z :=
  match segments (disk self) !! name with Some f => zlen (data f) | None => 0 end.

(** The writes of one append; their failure leaves the line to [recover]. *)
Definition write_record (name : pystr) (line : pystr) (to_store capsule_id : json) (offset : Z)
    (consequential : bool) (auth : pystr) : M Z :=
  let% _ := write_file name (line_bytes line) in
  let% _ := if consequential then sync_file name else ret () in
  _insert_record to_store capsule_id name offset consequential auth.

(** [append] up to the rotation: the line, its row and its lookup row. *)
Definition store_record (capsule : json) (consequential : bool) (admission : option AdmissionRequest) : M LedgerRecord :=
  let% _ := _refuse_read_only_unmanaged in
  let% request := lift (match admission with Some r => Ok r | None => make_request UNSIGNED [] end) in
  let% resolution := lift (resolve_admission capsule request) in
  let% (to_store, capsule_id) := lift (stored_capsule capsule resolution) in
  let% self := get in
  if needs_recover (mem self) then throw (Exn LedgerCorrupt) else
  let% conflict := lift (id_conflict to_store capsule_id) in
  if conflict : bool then throw (Exn ValueError) else
  let cid := text_id capsule_id in
  let% existing := _record_row cid in
  match existing with
  | Some row => let% record := _existing_record row in throw (Duplicate cid record)
  | None =>
      let% _ := _sync_write_segment in
      let% self := get in
      let% name := match write_segment (mem self) with Some name => ret name | None => throw (Exn AttributeError) end in
      let offset := file_size self name in
      let% _ := lift (_record_params to_store capsule_id name offset consequential (authenticity resolution)) in
      let% line := lift (dumps_ascii to_store) in
      let% seq :=
        catch (write_record name line to_store capsule_id offset consequential (authenticity resolution))
          (fun r => let% _ := update (set_mem (with_needs_recover true)) in
                    let% _ := _drop_write_handle in
                    throw r) in
      let% _ := _lookup_record seq to_store cid name offset in
      let record := {| lr_seq := seq; lr_capsule_id := cid; lr_capsule := to_store; lr_segment := name;
                       lr_consequential := consequential; lr_authenticity := authenticity resolution;
                       lr_envelopes := verified_envelopes resolution |} in
      ret record
  end.

(** The segment that was written to is closed once it is large enough. *)
Definition rotate_if_due (name : pystr) : M () :=
  let% self := get in
  if rotate_at_checkpoint (cfg self) && (max_segment_bytes (cfg self) <=? file_size self name)
  then let% _ := _rotate_segment in ret ()
  else ret ().

Definition append (capsule : json) (consequential : bool) (admission : option AdmissionRequest) : M LedgerRecord :=
  let% record := store_record capsule consequential admission in
  let% _ := rotate_if_due (lr_segment record) in
  ret record.

(** [import_jsonl]: the lines of the file that are not blank, in order. *)
Fixpoint import_lines (lines : list pystr) (consequential : bool) (count : Z) : M Z :=
  match lines with
  | [] => ret count
  | line :: lines =>
      match strip line with
      | [] => import_lines lines consequential count
      | text =>
          let% capsule := lift (loads text) in
          let% _ := append capsule consequential None in
          import_lines lines consequential (count + 1)
      end
  end.
Definition import_jsonl (lines : list pystr) (consequential : bool) : M Z := import_lines lines consequential 0.

(** ** Recovery *)

(** A complete line as a record, or [LedgerCorrupt]; its id, or [None] when
    the id cannot be computed for another reason. *)
Definition corrupt_if (test : exn -> bool) {A} (r : result A) : result A :=
  match r with
  | Raise e => if test e then Raise LedgerCorrupt else Raise e
  | Ok a => Ok a
  end.

Definition is_value_error (e : exn) : bool := bool_decide (e ∈ [ValueError; UnicodeError]).

Definition _parse_line (raw : bytes) : result json :=
  let! line := corrupt_if is_value_error (loads_bytes raw) in
  if negb (is_dict line) then Raise LedgerCorrupt
  else
    let! problem := _line_id_problem line in
    if problem then Raise LedgerCorrupt
    else
      let! given := get_or line (str "capsule_id") JNull in
      if truthy given then Ok line
      else
        let! _ := corrupt_if value_or_type_error (compute_capsule_id line) in
        Ok line.

Definition line_id (line : json) : result json :=
  let! given := get_or line (str "capsule_id") JNull in
  given_or given (compute_capsule_id line).

(** [except (ValueError, TypeError, AttributeError)] around reading a row. *)
Definition unreadable (r : raised) : M (option LedgerRecord) :=
  match r with
  | Exn e => if value_or_type_error e || bool_decide (e = AttributeError) then throw (Exn LedgerCorrupt) else throw r
  | _ => throw r
  end.

Definition indexed_record (row : Row) : M (option LedgerRecord) :=
  catch (let% record := _existing_record row in
         match record with
         | Some rec => if is_dict (lr_capsule rec) then ret record else throw (Exn TypeError)
         | None => ret None
         end) unreadable.

Fixpoint catch_up_rows (rows : list Row) (present : list Z) (added : list Z) : M (list Z) :=
  match rows with
  | [] => ret added
  | row :: rows =>
      if bool_decide (r_seq row ∈ present) then catch_up_rows rows present added
      else
        let% record := indexed_record row in
        match record with
        | None => catch_up_rows rows present added
        | Some rec =>
            let% written := _lookup_record (r_seq row) (lr_capsule rec) (r_capsule_id row) (r_segment row) (r_offset row) in
            if written : bool then catch_up_rows rows present (added ++ [r_seq row]) else ret added
        end
  end.

Definition _catch_up_lookup : M (list Z) :=
  let% self := get in
  match lookup_index (mem self) with
  | None => ret []
  | Some li =>
      if bool_decide (LookupIndex.seqs_summary li = (zlen (records (disk self)), next_seq (records (disk self)) - 1))
      then ret []
      else catch_up_rows (records (disk self)) (LookupIndex.seqs li) []
  end.

(** The last indexed line of a segment, and where the unindexed tail begins. *)
Definition last_offset (d : Disk) (name : pystr) : option Z :=
  match map r_offset (List.filter (fun r => bool_decide (r_segment r = name)) (records d)) with
  | [] => None
  | o :: os => Some (fold_right Z.max o os)
  end.

Definition tail_start (d : Disk) (name : pystr) (file : bytes) : result Z :=
  match last_offset d name with
  | None => Ok 0
  | Some o =>
      let line := raw_line (drop (Z.to_nat o) file) in
      if (zlen file <=? o) || negb (bool_decide (List.last line Byte.x00 = Byte.x0a)) then Raise LedgerCorrupt
      else Ok (o + zlen line)
  end.

(** Indexing a complete line: a SQLite operation that fails is raised as it
    is, to be tried again; any other failure means the line is corrupt. *)
Definition index_failed (r : raised) : M Z :=
  match r with Exn SqliteBusy => throw r | _ => throw (Exn LedgerCorrupt) end.

Fixpoint index_tail (name : pystr) (lines : list bytes) (offset : Z) (indexed skipped : list Z)
  : M (list Z * list Z) :=
  match lines with
  | [] => ret (indexed, skipped)
  | raw :: lines =>
      let next := offset + zlen raw + 1 in
      let% line := lift (_parse_line raw) in
      let% capsule_id := lift (line_id line) in
      let cid := text_id capsule_id in
      let% known := catch (_record_row cid) (fun r => match r with
                                                      | Exn UnicodeError => throw (Exn LedgerCorrupt)
                                                      | _ => throw r
                                                      end) in
      match known with
      | Some _ => index_tail name lines next indexed (skipped ++ [offset])
      | None =>
          let% seq :=
            catch (let% auth := lift (_reindex_authenticity line) in
                   _index_line line capsule_id name offset true auth) index_failed in
          index_tail name lines next (indexed ++ [seq]) skipped
      end
  end.

Definition recover : M RecoveryReport :=
  let% self := get in
  if negb (rotate_at_checkpoint (cfg self)) then throw (Exn ValueError) else
  let% _ := update (set_mem (with_needs_recover true)) in
  let% _ := _sync_write_segment in
  let% self := get in
  let% name := match write_segment (mem self) with Some name => ret name | None => throw (Exn AttributeError) end in
  let% _ := _drop_write_handle in
  let% f := match segments (disk self) !! name with Some f => ret f | None => throw (Exn OSError) end in
  let% start := lift (tail_start (disk self) name (data f)) in
  let tail := drop (Z.to_nat start) (data f) in
  let% _ := match tail with [] => ret () | _ => sync_file name end in
  let% lookup_seqs := _catch_up_lookup in
  let '(lines, torn) := split_lines tail in
  let% (indexed, skipped) := index_tail name lines start [] [] in
  let% _ := match torn with
            | [] => ret ()
            | _ => let% _ := truncate_file name (start + zlen tail - zlen torn) in sync_file name
            end in
  let% _ := _sync_write_segment in
  let% _ := update (set_mem (with_needs_recover false)) in
  ret {| truncated_bytes := zlen torn; indexed_seqs := indexed; skipped_offsets := skipped; lookup_seqs := lookup_seqs |}.

(** ** Rebuilding the indexes *)

(** One line of a segment: where it is, its record and its id. *)
Record Leaf := { leaf_segment : pystr; leaf_offset : Z; leaf_record : json; leaf_id : json }.

(** What a set holds; a list or an object cannot be put in one. *)
Definition hashable (v : json) : bool := match v with JList _ | JDict _ => false | _ => true end.

(** The lines of a file, with their newlines; the last may have none. *)
Definition file_lines (file : bytes) : list bytes :=
  let '(lines, torn) := split_lines file in
  map (fun l => l ++ [Byte.x0a]) lines ++ match torn with [] => [] | _ => [torn] end.

(** The first line of each id, until one that cannot be read. *)
Fixpoint leaves_of (segment : pystr) (lines : list bytes) (offset : Z) (seen : list json)
  : list Leaf * list json * result () :=
  match lines with
  | [] => ([], seen, Ok ())
  | raw :: lines =>
      match (let! capsule := loads_bytes raw in
             let! cid := line_id capsule in
             if hashable cid then Ok (capsule, cid) else Raise TypeError) with
      | Raise e => ([], seen, Raise e)
      | Ok (capsule, cid) =>
          if existsb (json_eq cid) seen then leaves_of segment lines (offset + zlen raw) seen
          else
            let '(rest, seen, r) := leaves_of segment lines (offset + zlen raw) (seen ++ [cid]) in
            ({| leaf_segment := segment; leaf_offset := offset; leaf_record := capsule; leaf_id := cid |} :: rest, seen, r)
      end
  end.

(** Over several segments; what is yielded before an error is kept apart. *)
Fixpoint _leaves self (names : list pystr) (seen : list json) : list Leaf * result () :=
  match names with
  | [] => ([], Ok ())
  | name :: names =>
      match segment_file self name with
      | None => ([], Raise OSError)
      | Some f =>
          match leaves_of name (file_lines (data f)) 0 seen with
          | (ls, _, Raise e) => (ls, Raise e)
          | (ls, seen, Ok _) => let '(rest, r) := _leaves self names seen in (ls ++ rest, r)
          end
      end
  end.

(** The segments of the store, in order. *)
Definition all_segments self : result (list pystr) :=
  if rotate_at_checkpoint (cfg self) then
    match manifest (mem self) with
    | None => Raise AttributeError
    | Some m => map_result (fun e => match se_name e with JStr s => Ok s | _ => Raise TypeError end) (st_segments m)
    end
  else Ok (_existing_segments (disk self)).

(** [_insert_leaves]: the rows of the leaves, in one transaction. *)
Fixpoint _insert_leaves (rows : list Row) (leaves : list Leaf) : result (list Row) :=
  match leaves with
  | [] => Ok rows
  | l :: leaves =>
      let! auth := _reindex_authenticity (leaf_record l) in
      let! params := _record_params (leaf_record l) (leaf_id l) (leaf_segment l) (leaf_offset l) true auth in
      let! (rows, _) := insert_row rows params in
      _insert_leaves rows leaves
  end.

Fixpoint sync_existing (names : list pystr) : M () :=
  match names with
  | [] => ret ()
  | name :: names =>
      let% self := get in
      let% _ := match segment_file self name with
                | Some _ => if is_unmounted self name then atomic OSError (fun self => self) else sync_file name
                | None => ret ()
                end in
      sync_existing names
  end.

Definition reindex : M () :=
  let% _ := _refuse_read_only_unmanaged in
  let% self := get in
  let% names := lift (all_segments self) in
  let% _ := _drop_write_handle in
  let% _ := sync_existing names in
  let% self := get in
  let '(leaves, r) := _leaves self names [] in
  let% rows := lift (let! rows := _insert_leaves [] leaves in let! _ := r in Ok rows) in
  let% _ := atomic SqliteBusy (set_disk (with_records rows)) in
  update (set_mem (with_needs_recover false)).

(** [rebuild_lookup_index]: the file is removed and made again. *)
Fixpoint lookup_inputs (leaves : list Leaf) (seq : Z) : result (list LookupInput) :=
  match leaves with
  | [] => Ok []
  | l :: leaves =>
      let! ts := get_or (leaf_record l) (str "timestamp") JNull in
      let! rest := lookup_inputs leaves (seq + 1) in
      Ok ({| in_seq := seq; in_ts := ts; in_digest := leaf_id l; in_segment := leaf_segment l;
             in_offset := leaf_offset l; in_capsule := leaf_record l |} :: rest)
  end.

Definition rebuild_lookup_index : M () :=
  let% _ := _refuse_read_only_unmanaged in
  let% self := get in
  let li := LookupIndex.open_index no_lookup (correlation_fields (mem self)) in
  let% _ := update (fun self => set_mem (with_lookup (Some li)) (set_disk (with_lookup_file no_lookup) self)) in
  let% names := lift (all_segments self) in
  let '(leaves, r) := _leaves self names [] in
  let% inputs := lift (let! inputs := lookup_inputs leaves 1 in let! _ := r in Ok inputs) in
  match LookupIndex.rebuild real_text li inputs with
  | (li, Ok _) => atomic SqliteError (commit_lookup li)
  | (li, Raise e) => let% _ := set_lookup (Some li) in throw (Exn e)
  end.

(** ** Opening *)
Definition _resolve_correlation_fields (fields : list pystr) (d : Disk) : Disk * list pystr :=
  match fields with
  | [] => (d, match lookup_config d with Some (Some fs) => fs | _ => [] end)
  | _ => (with_lookup_config fields d, fields)
  end.

Definition opened (config : Config) (d : Disk) (m : option StoreManifest) (fs : list pystr) (lookup : option LookupIndex)
    (read_only : bool) (io : list fault) : LedgerStore C :=
  Build_LedgerStore config d
    {| manifest := m; lookup_index := lookup; correlation_fields := fs; write_segment := None; needs_recover := false;
       read_only_unmanaged := read_only; attached := None |} io.

(** The instance's manifest, or why it cannot open. *)
Definition load_manifest (config : Config) (d : Disk) : result (option StoreManifest) :=
  if rotate_at_checkpoint config then
    match manifest_json d, _existing_segments d with
    | Some v, _ => let! m := store_from_dict v in Ok (Some m)
    | None, _ :: _ => Raise SegmentRotationError
    | None, [] => Ok (Some {| st_log_id := JStr (store_log_id config); st_active_segment := JNull; st_segments := [] |})
    end
  else Ok None.

Definition __init__ (config : Config) (fields : list pystr) (lookup_opens : bool) (io : list fault) (d : Disk)
  : LedgerStore C * outcome () :=
  match load_manifest config d with
  | Raise e => (opened config d None [] None false io, Raised (Exn e))
  | Ok m =>
      let read_only := negb (rotate_at_checkpoint config)
                       && match manifest_json d with Some _ => true | None => false end in
      let '(d, fs) := _resolve_correlation_fields fields d in
      let lookup := if lookup_opens then Some (LookupIndex.open_index (lookup_file d) fs) else None in
      (if read_only then ret () else _sync_write_segment) (opened config d m fs lookup read_only io)
  end.

Definition set_checkpointer (c : C) : M () :=
  let% self := get in
  if negb (rotate_at_checkpoint (cfg self)) then throw (Exn ValueError)
  else update (set_mem (with_attached c)).
End store.
End LedgerStore.
