(* ===== verification/StoreReads.v ===== *)
(** * The ledger store: reading, archiving and verifying

    [src/python/ledger/store.py]: scans and fetches through the records index,
    lookups through the lookup index with their fallback to a scan, chain
    gaps, verification, and the mounting of closed segments. *)
From S2P Require Import Prelude Bytes Text Py Json JsonProps PyJson JsonBytes Sha256 MmrPos Mmr Index Cll Calendar Ed25519 Emit CoseWire Bundle Admission Revocation Segments Lookup.
From S2P Require Import LogLedger Store.
Open Scope Z_scope.
Open Scope store_scope.

(** ** Queries *)
Record ScanQuery := {
  q_agent : option pystr; q_since : option pystr; q_until : option pystr; q_counterparty : option pystr;
  q_verdict : option pystr; q_action_type : option pystr; q_limit : option Z
}.

Definition any_query : ScanQuery :=
  {| q_agent := None; q_since := None; q_until := None; q_counterparty := None; q_verdict := None;
     q_action_type := None; q_limit := None |}.

Section times.
Context {PI : Interp}.

(** [\d+] takes the digits of any script; only those within the first six
    are read, and must then be ASCII. *)
Fixpoint span_unicode_digits (s : pystr) : pystr * pystr :=
  match s with
  | c :: s' => match digit_of c with
               | Some _ => let '(ds, rest) := span_unicode_digits s' in (c :: ds, rest)
               | None => ([], s)
               end
  | [] => ([], [])
  end.

Definition read_fraction (s : pystr) : option (Z * pystr) :=
  match one_of [46] s with
  | None => Some (0, s)
  | Some s =>
      let '(ds, s) := span_unicode_digits s in
      let six := take 6 (ds ++ repeat 48 6) in
      if (0 <? zlen ds) && forallb is_digit six then Some (dec_value six, s) else None
  end.

(** [_instant(value, zoneless_is_utc=True)] *)
Definition instant_of (value : pystr) : option datetime :=
  match match_date (strip value) with
  | None => None
  | Some (y, m, d, s) =>
      match one_of [84; 116; 32] s with
      | None => None
      | Some s =>
          match match_clock s with
          | None => None
          | Some (h, mi, sec, s) =>
              match read_fraction s with
              | None => None
              | Some (micros, s) =>
                  match match_offset s with
                  | Some offset =>
                      if valid_date y m d && (h <? 24) && (mi <? 60) && (sec <? 60) && (Z.abs offset <? 1440)
                      then Some (Datetime ((date_days y m d * DAY + clock_millis h mi sec 0) * 1000 + micros)
                                          (Some (offset * 60000000)))
                      else None
                  | None => None
                  end
              end
          end
      end
  end.

(** [_bound_instant]: a date alone is its midnight in UTC. *)
Definition _bound_instant (value : pystr) : result datetime :=
  match match_date (strip value) with
  | Some (y, m, d, []) =>
      if valid_date y m d then Ok (Datetime (date_days y m d * DAY * 1000) (Some 0)) else Raise ValueError
  | _ => match instant_of value with Some t => Ok t | None => Raise ValueError end
  end.

(** Microseconds in UTC: how instants compare. *)
Definition utc_micros (t : datetime) : Z := dt_local t - match dt_offset t with Some o => o | None => 0 end.

Definition MICROS_PER_DAY : Z := DAY * 1000.

(** [(t + timedelta(days=n)).date().isoformat()] *)
Definition shifted_date (t : datetime) (n : Z) : result pystr :=
  let days := dt_local t / MICROS_PER_DAY + n in
  if (0 <=? days) && (days <? DAYS) then
    let '(y, (m, d)) := days_date days in Ok (pad 4 y ++ [45] ++ pad 2 m ++ [45] ++ pad 2 d)
  else Raise OverflowError.

Definition bound (b : option pystr) : result (option datetime) :=
  match b with Some s => let! t := _bound_instant s in Ok (Some t) | None => Ok None end.
Definition date_bound (b : option datetime) (n : Z) : result (option pystr) :=
  match b with Some t => let! s := shifted_date t n in Ok (Some s) | None => Ok None end.
End times.

(** [column = ?]; a [NULL] equals nothing. *)
Definition column_is (wanted : option pystr) (column : Row -> option pystr) (r : Row) : bool :=
  match wanted, column r with
  | Some w, Some c => bool_decide (w = c)
  | Some _, None => false
  | None, _ => true
  end.

Definition column_from (low : option pystr) (r : Row) : bool :=
  match low, r_timestamp r with Some l, Some t => str_leb l t | Some _, None => false | None, _ => true end.
Definition column_before (high : option pystr) (r : Row) : bool :=
  match high, r_timestamp r with Some h, Some t => negb (str_leb h t) | Some _, None => false | None, _ => true end.

(** [LIKE]: ASCII letters match in either case, [%] any text, [_] any
    character. *)
Definition fold_case (c : Z) : Z := if (65 <=? c) && (c <=? 90) then c + 32 else c.

Fixpoint like (pattern : pystr) : pystr -> bool :=
  match pattern with
  | [] => fun s => match s with [] => true | _ => false end
  | p :: pattern =>
      if p =? 37 then
        fix any (s : pystr) : bool := like pattern s || match s with [] => false | _ :: s => any s end
      else fun s =>
        match s with
        | c :: s => ((p =? 95) || (fold_case p =? fold_case c)) && like pattern s
        | [] => false
        end
  end.

(** ** Gaps and verification *)
Record ChainGap := {
  missing_parent_id : pystr; gap_child : LedgerRecord; gap_relation : option pystr;
  edge_before : option LedgerRecord; duration_micros : option Z
}.

(** Findings of the package's verifier, of the fence, and of a caller's
    checks. *)
Inductive finding :=
| Reported (code : pystr)
| KeyRevoked (reason : option (pystr * pystr * json))
| Extra (code : pystr).

Record VerificationResult := { vr_ok : bool; vr_findings : list finding }.

Definition add_finding (r : VerificationResult) (f : finding) : VerificationResult :=
  {| vr_ok := false; vr_findings := vr_findings r ++ [f] |}.

Module StoreReads.
Section reads.
Context {PI : Interp} {HL : Hashlib} {AC : AgentActionCapsule} {C : Type}.
Variable real_text : pystr -> option pystr.
Notation M := (M C).
Implicit Types self : LedgerStore C.
Import LedgerStore.

(** ** [scan] *)

(** The rows a query selects, before the limit. *)
Definition selected (q : ScanQuery) (low high : option pystr) (since until : option datetime) (r : Row) : bool :=
  column_is (q_agent q) r_developer r && column_is (q_counterparty q) r_operator r
  && column_is (q_verdict q) r_verdict_class r && column_is (q_action_type q) r_action_type r
  && column_from low r && column_before high r
  && match since, until with
     | None, None => true
     | _, _ =>
         match r_timestamp r with
         | None => false
         | Some s =>
             match instant_of s with
             | None => false
             | Some t =>
                 match since with Some b => utc_micros b <=? utc_micros t | None => true end
                 && match until with Some b => utc_micros t <=? utc_micros b | None => true end
             end
         end
     end.

(** [LIMIT] in SQL, and the loop's own limit of a timed scan. *)
Definition limited {A} (timed : bool) (limit : option Z) (l : list A) : list A :=
  match limit with
  | Some n => if n <? 0 then (if timed then [] else l) else take (Z.to_nat n) l
  | None => l
  end.

Definition bind_filters (q : ScanQuery) : result () :=
  let! _ := LookupIndex.bind_bound (q_agent q) in
  let! _ := LookupIndex.bind_bound (q_counterparty q) in
  let! _ := LookupIndex.bind_bound (q_verdict q) in
  LookupIndex.bind_bound (q_action_type q).

Definition scan (q : ScanQuery) : M (list LedgerRecord) :=
  let% since := lift (bound (q_since q)) in
  let% until := lift (bound (q_until q)) in
  let% low := lift (date_bound since (-1)) in
  let% high := lift (date_bound until 2) in
  let% _ := lift (bind_filters q) in
  let% self := get in
  let timed := match since, until with None, None => false | _, _ => true end in
  map_M _row_to_record
    (limited timed (q_limit q) (List.filter (selected q low high since until) (records (disk self)))).

(** ** [fetch] *)
Definition fetch_row (d : Disk) (capsule_id : pystr) : option Row :=
  match find_row d capsule_id with
  | Some row => Some row
  | None => find (fun r => like (capsule_id ++ [37]) (r_capsule_id r)) (records d)
  end.

Definition fetch (capsule_id : pystr) : M (option LedgerRecord) :=
  let% cid := lift (bind_str capsule_id) in
  let% self := get in
  match fetch_row (disk self) cid with
  | None => ret None
  | Some row => let% record := _row_to_record row in ret (Some record)
  end.

(** ** [verify] *)
Fixpoint extra_checks (record : LedgerRecord) (checks : list (LedgerRecord -> result (option pystr)))
    (r : VerificationResult) : result VerificationResult :=
  match checks with
  | [] => Ok r
  | check :: checks =>
      let! f := check record in
      extra_checks record checks (match f with Some code => add_finding r (Extra code) | None => r end)
  end.

Definition verify (_verify_capsule : json -> list pystr -> result VerificationResult)
    (extra_findings : list (LedgerRecord -> result (option pystr))) (capsule_id : pystr)
  : M (option VerificationResult) :=
  let% record := fetch capsule_id in
  match record with
  | None => ret None
  | Some record =>
      let% self := get in
      let% r := lift (_verify_capsule (lr_capsule record) (map r_capsule_id (records (disk self)))) in
      let% all := all_records in
      let% timeline := lift (build_key_timeline (map lr_capsule all)) in
      let% revocation := lift (check_time_fenced_revocation (lr_capsule record) timeline) in
      let r := if rf_ok revocation then r else add_finding r (KeyRevoked (rf_reason revocation)) in
      let% r := lift (extra_checks record extra_findings r) in
      ret (Some r)
  end.

(** ** [find_gaps]

    [fromisoformat] is the interpreter's reader of ISO times. *)
Definition _parse_ts (fromisoformat : pystr -> option datetime) (v : json) : result (option datetime) :=
  if negb (truthy v) then Ok None
  else match v with JStr s => Ok (fromisoformat s) | _ => Raise AttributeError end.

(** [(t_after - t_before)]: both aware or both naive. *)
Definition between (a b : option datetime) : result (option Z) :=
  match a, b with
  | Some a, Some b =>
      match dt_offset a, dt_offset b with
      | Some _, Some _ | None, None => Ok (Some (utc_micros b - utc_micros a))
      | _, _ => Raise TypeError
      end
  | _, _ => Ok None
  end.

Definition gap_of (fromisoformat : pystr -> option datetime) (row : Row) (parent : pystr) : M ChainGap :=
  let% child := _row_to_record row in
  let% self := get in
  let before := if 1 <? r_seq row then find (fun r => r_seq r =? r_seq row - 1) (records (disk self)) else None in
  let% edge := match before with Some b => let% r := _row_to_record b in ret (Some r) | None => ret None end in
  let% duration :=
    lift (match edge with
          | None => Ok None
          | Some edge =>
              let! before := get_or (lr_capsule edge) (str "timestamp") JNull in
              let! t_before := _parse_ts fromisoformat before in
              let! after := get_or (lr_capsule child) (str "timestamp") JNull in
              let! t_after := _parse_ts fromisoformat after in
              between t_before t_after
          end) in
  ret {| missing_parent_id := parent; gap_child := child; gap_relation := r_chain_relation row;
         edge_before := edge; duration_micros := duration |}.

(** The rows whose parent is not in the ledger. *)
Definition orphans (d : Disk) : list (Row * pystr) :=
  omap (fun r => match r_parent_capsule_id r with
                 | Some p => match find_row d p with Some _ => None | None => Some (r, p) end
                 | None => None
                 end) (records d).

Definition find_gaps (fromisoformat : pystr -> option datetime) : M (list ChainGap) :=
  let% self := get in
  map_M (fun rp => gap_of fromisoformat rp.1 rp.2) (orphans (disk self)).

(** ** Lookups *)
Definition _resolve_lookup_hit (hit : Z * pystr * Z) : M LedgerRecord :=
  let '(seq, segment, byte_offset) := hit in
  let% _ := _require_mounted segment in
  let% fh := _get_fh segment in
  let% capsule := lift (read_text fh byte_offset) in
  let% given := lift (get_or capsule (str "capsule_id") JNull) in
  let% capsule_id := lift (given_or given (compute_capsule_id capsule)) in
  let% authenticity := lift (_reindex_authenticity capsule) in
  let% envelopes := lift (_bundled_envelopes capsule authenticity) in
  ret {| lr_seq := seq; lr_capsule_id := text_id capsule_id; lr_capsule := capsule; lr_segment := segment;
         lr_consequential := true; lr_authenticity := authenticity; lr_envelopes := envelopes |}.

(** A query of the index; when SQLite fails, the index is dropped and the
    scan answers. *)
Definition through_index {A} (query : LookupIndex -> M A) (fallback : M A) : M A :=
  let% self := get in
  match lookup_index (mem self) with
  | None => fallback
  | Some li =>
      let% met := next_fault in
      match met with
      | Fine => query li
      | Fails _ => let% _ := set_lookup None in fallback
      | Dies _ => die
      end
  end.

(** [(r.capsule.get("timestamp") or "") >= start], and [<= end]. *)
Definition fallback_time (start end_ : option pystr) (r : LedgerRecord) : result bool :=
  let! ts := get_or (lr_capsule r) (str "timestamp") JNull in
  let ts := if truthy ts then ts else JStr [] in
  match start, end_, ts with
  | None, None, _ => Ok true
  | _, _, JStr t =>
      Ok (match start with Some s => str_leb s t | None => true end
          && match end_ with Some e => str_leb t e | None => true end)
  | _, _, _ => Raise TypeError
  end.

Definition by_time (start end_ : option pystr) : M (list LedgerRecord) :=
  through_index
    (fun li => let% hits := lift (LookupIndex.by_time li start end_) in map_M _resolve_lookup_hit hits)
    (let% rs := all_records in lift (filter_result (fallback_time start end_) rs)).

Definition by_digest (record_digest : pystr) : M (option LedgerRecord) :=
  through_index
    (fun li => let% hit := lift (LookupIndex.by_digest li record_digest) in
               match hit with Some hit => let% r := _resolve_lookup_hit hit in ret (Some r) | None => ret None end)
    (let% rs := all_records in ret (find (fun r => bool_decide (lr_capsule_id r = record_digest)) rs)).

Definition by_correlation (correlation_id : pystr) : M (list LedgerRecord) :=
  through_index
    (fun li => let% hits := lift (LookupIndex.by_correlation li correlation_id) in map_M _resolve_lookup_hit hits)
    (let% self := get in
     let% rs := all_records in
     ret (List.filter (fun r => bool_decide (correlation_id ∈ extract_correlation_ids (lr_capsule r) (correlation_fields (mem self)))) rs)).

Definition by_seq_range (first last : Z) : M (list LedgerRecord) :=
  through_index
    (fun li => let% hits := lift (LookupIndex.by_seq_range li first last) in map_M _resolve_lookup_hit hits)
    (let% rs := all_records in ret (List.filter (fun r => (first <=? lr_seq r) && (lr_seq r <=? last)) rs)).

(** ** Archival *)
Definition list_segments : M (list SegmentEntry) :=
  let% self := get in
  if negb (rotate_at_checkpoint (cfg self)) then throw (Exn ValueError)
  else match manifest (mem self) with Some m => ret (st_segments m) | None => throw (Exn AttributeError) end.

Definition set_mounted (b : bool) (e : SegmentEntry) : SegmentEntry :=
  {| se_name := se_name e; se_mounted := b; se_manifest := se_manifest e;
     se_checkpoint_root := se_checkpoint_root e; se_mmr_size := se_mmr_size e |}.

(** The file moves between [segments/] and [.archived/]. *)
Definition archive_file (name : pystr) (f : File) (d : Disk) : Disk :=
  with_archived (<[name := f]> (archived d)) (with_segments (delete name (segments d)) d).
Definition restore_file (name : pystr) (f : File) (d : Disk) : Disk :=
  with_archived (delete name (archived d)) (with_segments (<[name := f]> (segments d)) d).

Definition move_segment (name : pystr) (mounted : bool) (m : StoreManifest) : M () :=
  let% self := get in
  let% _ := match (if mounted then archived (disk self) else segments (disk self)) !! name with
            | Some f => atomic OSError (set_disk ((if mounted then restore_file else archive_file) name f))
            | None => throw (Exn OSError)
            end in
  let% _ := set_manifest (update_entry name (set_mounted mounted) m) in
  _save_store_manifest.

Definition managed : M StoreManifest :=
  let% self := get in
  match manifest (mem self) with Some m => ret m | None => throw (Exn AttributeError) end.

Definition unmount_segment (name : pystr) : M () :=
  let% m := managed in
  if is_text (st_active_segment m) name then throw (Exn ValueError)
  else match store_entry m name with
       | None => throw (Exn ValueError)
       | Some e => if negb (se_mounted e) then ret () else move_segment name false m
       end.

Definition mount_segment (name : pystr) : M () :=
  let% m := managed in
  match store_entry m name with
  | None => throw (Exn ValueError)
  | Some e => if se_mounted e then ret () else move_segment name true m
  end.

Inductive standalone := NoSuchSegment | NotClosed | ManifestMissing | FileMissing | Verified (ok : bool) (errors : list segment_issue).

(** The manifest's file: its path is [segments/] and a name. *)
Definition closed_manifest (d : Disk) (path : json) : option json :=
  match path with
  | JStr p => if bool_decide (take 9 p = str "segments/") then closed d !! drop 9 p else None
  | _ => None
  end.

Definition verify_segment_standalone (name : pystr) : M standalone :=
  let% m := managed in
  let% self := get in
  match store_entry m name with
  | None => ret NoSuchSegment
  | Some e =>
      if is_none_json (se_manifest e) then ret NotClosed
      else match closed_manifest (disk self) (se_manifest e) with
           | None => ret ManifestMissing
           | Some v =>
               let% seg_manifest := lift (manifest_from_dict v) in
               match segment_file self name with
               | None => ret FileMissing
               | Some f => let '(ok, errors) := verify_segment (data f) seg_manifest (str "capsule_id") in ret (Verified ok errors)
               end
           end
  end.
End reads.
End StoreReads.
