(* ===== verification/StoreLogic.v ===== *)
(** * Postconditions of the ledger store's programs

    A postcondition has a clause for each outcome: the program is done, it
    raised, or the process ended; each speaks of the state it leaves. *)
From S2P Require Import Prelude Bytes Text Json PyJson Lookup Admission Segments Store JsonProps JsonBytes Jsonl JsonlProps.
Open Scope store_scope.

Section logic.
Context {C : Type}.
Notation St := (LedgerStore C).
Implicit Types self : St.

Record post (A : Type) := { done : A -> St -> Prop; raises : raised -> St -> Prop; dies : St -> Prop }.
Arguments done {A}.
Arguments raises {A}.
Arguments dies {A}.
Arguments Build_post {A}.

Definition holds {A} (Q : post A) (r : St * outcome A) : Prop :=
  match r with
  | (self, Done a) => done Q a self
  | (self, Raised e) => raises Q e self
  | (self, Died) => dies Q self
  end.

Definition wp {A} (m : M C A) (Q : post A) self : Prop := holds Q (m self).

(** ** Rules *)
Lemma wp_ret {A} (a : A) Q self : done Q a self -> wp (ret a) Q self.
Proof. done. Qed.

Lemma wp_throw {A} e (Q : post A) self : raises Q e self -> wp (throw e) Q self.
Proof. done. Qed.

Lemma wp_get Q self : done Q self self -> wp get Q self.
Proof. done. Qed.

Lemma wp_update f Q self : done Q () (f self) -> wp (update f) Q self.
Proof. done. Qed.

Lemma wp_bind {A B} (m : M C A) (k : A -> M C B) Q self :
  wp m {| done := fun a => wp (k a) Q; raises := raises Q; dies := dies Q |} self -> wp (bind m k) Q self.
Proof. unfold wp, bind. by destruct (m self) as [s [a|e|]]. Qed.

Lemma wp_catch {A} (m : M C A) h Q self :
  wp m {| done := done Q; raises := fun e => wp (h e) Q; dies := dies Q |} self -> wp (catch m h) Q self.
Proof. unfold wp, catch. by destruct (m self) as [s [a|e|]]. Qed.

Lemma wp_lift {A} (r : result A) Q self :
  (forall a, r = Ok a -> done Q a self) -> (forall e, r = Raise e -> raises Q (Exn e) self) -> wp (lift r) Q self.
Proof. destruct r; [intros H _; by apply H|intros _ H; by apply H]. Qed.

Lemma wp_lift_ok {A} (r : result A) a Q self : r = Ok a -> done Q a self -> wp (lift r) Q self.
Proof. by intros ->. Qed.

Lemma wp_mono {A} (m : M C A) (P Q : post A) self :
  wp m P self ->
  (forall a s, done P a s -> done Q a s) -> (forall e s, raises P e s -> raises Q e s) ->
  (forall s, dies P s -> dies Q s) -> wp m Q self.
Proof. unfold wp. destruct (m self) as [s [a|e|]]; cbn; auto. Qed.

(** What an equation of a program says of it. *)
Lemma wp_eq {A} (m : M C A) Q self s o : m self = (s, o) -> wp m Q self -> holds Q (s, o).
Proof. unfold wp. by intros ->. Qed.

Lemma wp_runs {A} (m : M C A) a Q self self' : m self = (self', Done a) -> done Q a self' -> wp m Q self.
Proof. unfold wp. by intros ->. Qed.

(** ** Steps

    A step takes its fault from the list; nothing else depends on it. *)
Definition with_faults (fs : list fault) self : St := Build_LedgerStore (cfg self) (disk self) (mem self) fs.

Lemma wp_atomic e f Q self :
  (forall fs, (fs <> [] -> faults self <> []) -> done Q () (f (with_faults fs self))) ->
  (forall fs, faults self <> [] ->
     let s := with_faults fs self in raises Q (Exn e) s /\ dies Q s /\ dies Q (f s)) ->
  wp (atomic e f) Q self.
Proof.
  intros Hd Hf. unfold wp, atomic, bind, next_fault.
  destruct self as [c d m [|[|n|[|n]] fs]]; cbn; [by apply (Hd [])|by apply (Hd fs)|by apply (Hf fs)..].
Qed.

Lemma wp_write name bs Q self :
  (forall fs, (fs <> [] -> faults self <> []) -> done Q () (append_to name bs (with_faults fs self))) ->
  (forall fs n, faults self <> [] ->
     let s := append_to name (take n bs) (with_faults fs self) in raises Q (Exn OSError) s /\ dies Q s) ->
  wp (write_file name bs) Q self.
Proof.
  intros Hd Hf. unfold wp, write_file, bind, next_fault.
  destruct self as [c d m [|[|n|n] fs]]; cbn; [by apply (Hd [])|by apply (Hd fs)|by apply (Hf fs n)..].
Qed.
End logic.

Arguments done {C A}.
Arguments raises {C A}.
Arguments dies {C A}.
Arguments Build_post {C A}.

#[global] Arguments wp : simpl never.

Ltac wp_red := cbn beta iota zeta delta [done raises dies].

(** Steps through binds; what is left are the conditions of the code. *)
Ltac wp_step :=
  wp_red;
  lazymatch goal with
  | |- wp (bind _ _) _ _ => apply wp_bind
  | |- wp (ret _) _ _ => apply wp_ret
  | |- wp (throw _) _ _ => apply wp_throw
  | |- wp get _ _ => apply wp_get
  | |- wp (update _) _ _ => apply wp_update
  | |- wp (catch _ _) _ _ => apply wp_catch
  end; wp_red.

(** A call whose postcondition is known. *)
Tactic Notation "wp_call" uconstr(spec) := eapply wp_mono; [eapply spec|..]; wp_red.

(** ** Lines of a segment

    What [append] writes for a record is one line, whichever way it is read. *)
Open Scope Z_scope.

Lemma drop_zlen {A} (l k : list A) : drop (Z.to_nat (zlen l)) (l ++ k) = k.
Proof. unfold zlen. by rewrite Nat2Z.id, drop_app_length. Qed.

Section lines.
Context {PI : Interp}.
Implicit Types t : pystr.

(** [json.loads] passes over the newline. *)
Lemma loads_line v t : writable v -> dumps_ascii v = Ok t -> loads (t ++ [10]) = Ok v.
Proof.
  intros Hw. rewrite dumps_ascii_eq by done. intros Ht. unfold loads.
  pose proof (dumps_starts escape_ascii v t Ht) as Hs. rewrite skip_ws_starts by by apply starts_app.
  rewrite (scan_dumps escape_ascii scan_str_ascii v t) by (done || (rewrite length_app; cbn; lia)). done.
Qed.

Lemma dumps_ascii_ascii v t : writable v -> dumps_ascii v = Ok t -> ascii t.
Proof. intros Hw Ht. destruct (dumps_ascii_total v Hw) as (t' & Ht' & Ha). congruence. Qed.

Lemma line_narrow t : ascii t -> narrow (t ++ [10]).
Proof. intros H. apply Forall_app_2; [by apply ascii_narrow|]. by repeat constructor. Qed.

Lemma line_bytes_eq t : LedgerStore.line_bytes t = ascii_bytes t ++ [Byte.x0a].
Proof. unfold LedgerStore.line_bytes. by rewrite map_app. Qed.

Lemma ascii_no_end t : ascii t -> Forall (fun b => b <> Byte.x0a /\ b <> Byte.x0d) (ascii_bytes t).
Proof.
  unfold ascii_bytes. induction 1 as [|c t Hc Ht IH]; [constructor|]. cbn [map]. constructor; [|done].
  split; intros E; apply (f_equal b2z) in E; rewrite b2z_small in E by lia; change (b2z Byte.x0a) with 10 in E;
    change (b2z Byte.x0d) with 13 in E; lia.
Qed.

Lemma ascii_no_newline t : ascii t -> Byte.x0a ∉ ascii_bytes t.
Proof. intros H%ascii_no_end Hi. rewrite Forall_forall in H. by destruct (H _ Hi). Qed.

Lemma raw_line_line t rest : ascii t -> raw_line (LedgerStore.line_bytes t ++ rest) = LedgerStore.line_bytes t.
Proof.
  intros H%ascii_no_newline. rewrite line_bytes_eq. revert H. generalize (ascii_bytes t) as bs.
  induction bs as [|b bs IH]; [done|]. intros [Hb Hbs]%not_elem_of_cons. cbn [app raw_line].
  rewrite bool_decide_false by congruence. f_equal. by apply IH.
Qed.

Lemma text_line_line t rest : ascii t -> text_line (LedgerStore.line_bytes t ++ rest) = LedgerStore.line_bytes t.
Proof.
  intros H%ascii_no_end. rewrite line_bytes_eq. induction H as [|b bs [H1 H2] H IH]; [done|]. cbn [app text_line].
  rewrite bool_decide_false by set_solver. f_equal. exact IH.
Qed.

(** Reading a record at its offset. *)
Lemma read_text_line v t f off pre rest :
  writable v -> dumps_ascii v = Ok t -> data f = pre ++ LedgerStore.line_bytes t ++ rest -> off = zlen pre ->
  read_text f off = Ok v.
Proof.
  intros Hw Ht Hd ->. pose proof (dumps_ascii_ascii v t Hw Ht) as Ha. unfold read_text.
  rewrite Hd, drop_zlen, text_line_line by done.
  unfold LedgerStore.line_bytes. fold (ascii_bytes (t ++ [10])). rewrite utf8_decode_ascii by by apply line_narrow.
  by apply loads_line.
Qed.

(** Reading it as bytes, with its newline or without. *)
Lemma loads_bytes_text v t : writable v -> dumps_ascii v = Ok t -> loads_bytes (ascii_bytes t) = Ok v.
Proof.
  intros Hw Ht. rewrite loads_bytes_ascii by by apply ascii_narrow, (dumps_ascii_ascii v).
  by apply loads_dumps_ascii.
Qed.

Lemma loads_bytes_line v t : writable v -> dumps_ascii v = Ok t -> loads_bytes (LedgerStore.line_bytes t) = Ok v.
Proof.
  intros Hw Ht. unfold LedgerStore.line_bytes. fold (ascii_bytes (t ++ [10])).
  rewrite loads_bytes_ascii by by apply line_narrow, (dumps_ascii_ascii v). by apply loads_line.
Qed.

(** Splitting the bytes of lines. *)
Lemma split_lines_texts ts torn :
  Forall ascii ts -> Byte.x0a ∉ torn ->
  split_lines (concat (map LedgerStore.line_bytes ts) ++ torn) = (map ascii_bytes ts, torn).
Proof.
  intros Hts Hn. assert (split_lines (concat (map LedgerStore.line_bytes ts)) = (map ascii_bytes ts, [])) as H.
  { induction Hts as [|t ts Ht Hts IH]; [done|]. cbn [map concat]. rewrite split_lines_app, IH, line_bytes_eq.
    rewrite split_lines_line by by apply ascii_no_newline. by destruct (map ascii_bytes ts). }
  rewrite split_lines_app, H, split_lines_tail by done. by rewrite app_nil_l.
Qed.
End lines.
