(* ===== verification/StoreSpec.v ===== *)
(** * The ledger store as a list of entries

    An abstract ledger is a list of entries; a managed store represents it
    when its segments hold the entries' lines one after the other and its
    index holds their rows. Bytes of the active segment that no row names are
    its tail. *)
From S2P Require Import Prelude Bytes Text Json JsonProps PyJson JsonBytes Sha256 Ed25519 Emit Admission Segments Lookup Store StoreLogic Jsonl JsonlProps.
Open Scope Z_scope.
Open Scope store_scope.

(** ** Entries *)
Record Stored := {
  s_capsule : json; s_id : pystr; s_segment : pystr; s_offset : Z; s_consequential : bool;
  s_authenticity : pystr; s_line : pystr
}.

Definition line_of (s : Stored) : bytes := LedgerStore.line_bytes (s_line s).

Definition in_segment (name : pystr) (es : list Stored) : list Stored :=
  List.filter (fun s => bool_decide (s_segment s = name)) es.

(** The bytes of a segment. *)
Definition seg_bytes (name : pystr) (es : list Stored) : bytes := concat (map line_of (in_segment name es)).

(** Lines one after the other from an offset. *)
Fixpoint placed (offset : Z) (es : list Stored) : Prop :=
  match es with
  | [] => True
  | s :: es => s_offset s = offset /\ placed (offset + zlen (line_of s)) es
  end.

(** One bind or condition of a computation that returned a value. *)
Ltac inv_step H :=
  lazymatch type of H with
  | match ?e with Ok _ => _ | Raise _ => _ end = _ => let E := fresh "E" in destruct e eqn:E; [|discriminate H]
  | (if ?b then Raise _ else _) = _ => destruct b; [discriminate H|]
  | (if ?b then _ else Raise _) = _ => destruct b; [|discriminate H]
  end.

Section spec.
Context {PI : Interp} {HL : Hashlib} {AC : AgentActionCapsule} {C : Type}.
Variable real_text : pystr -> option pystr.
Implicit Types self : LedgerStore C.
Import LedgerStore.

(** The row of an entry. *)
Definition params_of (s : Stored) : result (option pystr * (Z -> pystr -> Row)) :=
  _record_params real_text (s_capsule s) (JStr (s_id s)) (s_segment s) (s_offset s) (s_consequential s) (s_authenticity s).

Definition row_at (seq : Z) (s : Stored) : result Row := let! p := params_of s in Ok (p.2 seq (s_id s)).

Fixpoint rows_at (seq : Z) (es : list Stored) : result (list Row) :=
  match es with
  | [] => Ok []
  | s :: es =>
      let! r := row_at seq s in
      let! rs := rows_at (seq + 1) es in
      Ok (r :: rs)
  end.

(** An entry whose line reads back. *)
Record stored_ok (s : Stored) : Prop := {
  so_writable : writable (s_capsule s);
  so_dict : is_dict (s_capsule s) = true;
  so_line : dumps_ascii (s_capsule s) = Ok (s_line s);
  so_id : line_id (s_capsule s) = Ok (JStr (s_id s));
  so_named : _line_id_problem (s_capsule s) = Ok false;
  so_row : exists r, row_at 0 s = Ok r
}.

(** [m] is the manifest and [name] its active segment. *)
Record represents (m : StoreManifest) (name : pystr) (es : list Stored) (tail : bytes) self : Prop := {
  rp_managed : rotate_at_checkpoint (cfg self) = true;
  rp_manifest : manifest (mem self) = Some m;
  rp_saved : manifest_json (disk self) = Some (store_to_dict m);
  rp_active : st_active_segment m = JStr name;
  rp_mounted : is_unmounted self name = false;
  rp_handle : write_segment (mem self) ∈ [None; Some name];
  rp_rows : rows_at 1 es = Ok (records (disk self));
  rp_ids : NoDup (map s_id es);
  rp_ok : Forall stored_ok es;
  rp_files : forall seg, seg ∈ name :: map s_segment es ->
    exists f, segment_file self seg = Some f
              /\ data f = seg_bytes seg es ++ (if bool_decide (seg = name) then tail else []);
  rp_placed : forall seg, placed 0 (in_segment seg es)
}.

(** ** Lists of entries *)
Lemma in_segment_app name es es' : in_segment name (es ++ es') = in_segment name es ++ in_segment name es'.
Proof. apply List.filter_app. Qed.

Lemma seg_bytes_app name es es' : seg_bytes name (es ++ es') = seg_bytes name es ++ seg_bytes name es'.
Proof. unfold seg_bytes. by rewrite in_segment_app, map_app, concat_app. Qed.

Lemma in_segment_one name s : in_segment name [s] = if bool_decide (s_segment s = name) then [s] else [].
Proof. done. Qed.

Lemma seg_bytes_one name s : seg_bytes name [s] = if bool_decide (s_segment s = name) then line_of s else [].
Proof. unfold seg_bytes. rewrite in_segment_one. case_bool_decide; cbn; [by rewrite app_nil_r|done]. Qed.

Lemma placed_app off es es' :
  placed off (es ++ es') <-> placed off es /\ placed (off + zlen (concat (map line_of es))) es'.
Proof.
  revert off. induction es as [|s es IH]; intros off; cbn [app placed map concat].
    rewrite zlen_nil, Z.add_0_r. tauto.
  - rewrite IH, zlen_app, Z.add_assoc. tauto.
Qed.

(** ** Rows *)
Lemma params_inv v cid seg off c a p :
  _record_params real_text v cid seg off c a = Ok p ->
  param real_text cid = Ok p.1 /\
  exists ts o, get_or v (str "timestamp") JNull = Ok ts /\ param real_text ts = Ok o /\
  forall seq id, let r := p.2 seq id in
    r_timestamp r = o /\ r_seq r = seq /\ r_capsule_id r = id /\ r_segment r = seg /\ r_offset r = off /\
    r_consequential r = c /\ r_authenticity r = a.
Proof.
  unfold _record_params. intros H. repeat inv_step H. injection H as <-. split; [done|].
  eexists _, _. split; [done|]. split; [eassumption|]. by repeat split.
Qed.

Lemma row_fields seq s r :
  row_at seq s = Ok r ->
  r_seq r = seq /\ r_capsule_id r = s_id s /\ r_segment r = s_segment s /\ r_offset r = s_offset s /\
  r_consequential r = s_consequential s /\ r_authenticity r = s_authenticity s.
Proof.
  unfold row_at. destruct (params_of s) as [p|] eqn:E; [|done]. intros [= <-].
  destruct (params_inv _ _ _ _ _ _ _ E) as (_ & ts & o & _ & _ & H). apply H.
Qed.

Lemma row_at_any seq seq' s r : row_at seq s = Ok r -> exists r', row_at seq' s = Ok r'.
Proof. unfold row_at. destruct (params_of s); [by eexists|done]. Qed.

Lemma param_str s o : param real_text (JStr s) = Ok o -> o = Some s /\ bind_str s = Ok s.
Proof. unfold param, Lookup.bind, bind_str. destruct (utf8_encode s); [|done]. by intros [= <-]. Qed.

Lemma rows_at_app seq es es' :
  rows_at seq (es ++ es') =
  (let! rs := rows_at seq es in let! rs' := rows_at (seq + zlen es) es' in Ok (rs ++ rs')).
Proof.
  revert seq. induction es as [|s es IH]; intros seq; cbn [app rows_at].
  - rewrite zlen_nil, Z.add_0_r. by destruct (rows_at seq es').
  - rewrite IH, zlen_cons, Z.add_assoc. destruct (row_at seq s); [|done].
    destruct (rows_at (seq + 1) es); [|done]. by destruct (rows_at _ es').
Qed.

Lemma rows_at_Forall2 seq es rs : rows_at seq es = Ok rs -> Forall2 (fun s r => exists i, row_at i s = Ok r) es rs.
Proof.
  revert seq rs. induction es as [|s es IH]; intros seq rs; cbn [rows_at]; [by intros [= <-]|]. intros H.
  inv_result. simplify_eq. constructor; [by eexists|by eapply IH].
Qed.

Lemma rows_entry seq es rs r : rows_at seq es = Ok rs -> r ∈ rs -> exists i s, s ∈ es /\ row_at i s = Ok r.
Proof.
  intros H%rows_at_Forall2 Hr. induction H as [|s r' es rs [i Hi] H IH]; [by apply not_elem_of_nil in Hr|].
  apply elem_of_cons in Hr as [->|Hr]; [exists i, s; split; [left|done]|].
  destruct (IH Hr) as (j & s' & Hs' & Hj). exists j, s'. split; [by right|done].
Qed.

Lemma rows_ids seq es rs : rows_at seq es = Ok rs -> map r_capsule_id rs = map s_id es.
Proof.
  intros H%rows_at_Forall2. induction H as [|s r es rs [i Hr] H IH]; [done|]. cbn [map]. rewrite IH. f_equal.
  by apply row_fields in Hr as (_ & -> & _).
Qed.

Lemma rows_length seq es rs : rows_at seq es = Ok rs -> zlen rs = zlen es.
Proof. intros H%rows_at_Forall2. unfold zlen. by rewrite (Forall2_length _ _ _ H). Qed.

Lemma rows_seqs seq es rs : rows_at seq es = Ok rs -> forall i r, rs !! i = Some r -> r_seq r = seq + Z.of_nat i.
Proof.
  revert seq rs. induction es as [|s es IH]; intros seq rs; cbn [rows_at]; [by intros [= <-] []|]. intros H.
  inv_result. simplify_eq. intros [|i] r; cbn [lookup list_lookup].
  - intros [= <-]. apply row_fields in E as (-> & _). lia.
  - intros Hr. rewrite (IH _ _ E0 i r Hr). lia.
Qed.

(** The next [seq] is one more than the number of rows. *)
Lemma rows_next es rs : rows_at 1 es = Ok rs -> next_seq rs = zlen es + 1.
Proof.
  intros H. unfold next_seq. f_equal. revert rs H. induction es as [|s es IH] using rev_ind; intros rs.
  - by intros [= <-].
  - rewrite rows_at_app. cbn [rows_at]. intros H. inv_result. simplify_eq. rewrite map_app, fold_right_app, zlen_app.
    cbn. apply row_fields in E1 as (-> & _). specialize (IH _ eq_refl). pose proof (rows_length _ _ _ E).
    assert (forall l z, fold_right Z.max (Z.max z 0) l = Z.max z (fold_right Z.max 0 l)) as Hm.
    { induction l as [|y l IHl]; intros z; cbn; [done|]. rewrite IHl. lia. }
    rewrite Hm, IH, zlen_cons, zlen_nil. pose proof (zlen_nonneg es). lia.
Qed.

Lemma find_None {A} (f : A -> bool) l : find f l = None <-> Forall (fun x => f x = false) l.
Proof.
  induction l as [|x l IH]; cbn; [by split; [constructor|]|]. rewrite Forall_cons. destruct (f x); [|tauto].
  split; [done|]. by intros [? _].
Qed.

Lemma find_row_entry es d cid r :
  rows_at 1 es = Ok (records d) -> find_row d cid = Some r ->
  exists i s, s ∈ es /\ row_at i s = Ok r /\ s_id s = cid.
Proof.
  intros H Hf. apply find_some in Hf as [Hr Hc%bool_decide_eq_true].
  destruct (rows_entry _ _ _ r H) as (i & s & Hs & Hi); [by apply list_elem_of_In|]. exists i, s.
  split_and!; [done|done|]. apply row_fields in Hi as (_ & <- & _). done.
Qed.

Lemma find_row_ids es d cid :
  rows_at 1 es = Ok (records d) -> (find_row d cid = None <-> cid ∉ map s_id es).
Proof.
  intros H. unfold find_row. rewrite <- (rows_ids _ _ _ H), find_None, Forall_forall. split.
  - intros Hn (r & -> & Hr)%list_elem_of_fmap. specialize (Hn r Hr). by rewrite bool_decide_true in Hn.
  - intros Hn r Hr. apply bool_decide_false. intros <-. apply Hn. by apply list_elem_of_fmap_2.
Qed.

Lemma insert_row_fresh es rs p cid :
  rows_at 1 es = Ok rs -> cid ∉ map s_id es -> p.1 = Some cid ->
  insert_row rs p = Ok (rs ++ [p.2 (zlen es + 1) cid], zlen es + 1).
Proof.
  intros H Hn Hp. unfold insert_row. rewrite Hp, (rows_next _ _ H).
  assert (existsb (fun r => bool_decide (r_capsule_id r = cid)) rs = false) as ->; [|done].
  apply not_true_iff_false. rewrite existsb_exists. intros (r & Hr & <-%bool_decide_eq_true). apply Hn.
  rewrite <- (rows_ids _ _ _ H). apply list_elem_of_fmap_2. by apply list_elem_of_In.
Qed.

(** ** Changing the disk *)
Lemma segment_file_update name g self seg :
  is_unmounted self name = false ->
  segment_file (set_disk (fun d => with_segments (partial_alter g name (segments d)) d) self) seg =
  if bool_decide (seg = name) then g (segments (disk self) !! name) else segment_file self seg.
Proof.
  intros Hm. unfold segment_file. change (is_unmounted (set_disk _ self)) with (is_unmounted self). cbn.
  case_bool_decide as E; [subst; by rewrite Hm, lookup_partial_alter_eq|].
  by rewrite lookup_partial_alter_ne.
Qed.

Section represented.
Context {m : StoreManifest} {name : pystr}.
#[local] Abbreviation represents := (represents m name).

(** Only these parts of a state matter. *)
Lemma represents_parts es tail self self' :
  represents es tail self -> cfg self' = cfg self -> manifest (mem self') = manifest (mem self) ->
  segments (disk self') = segments (disk self) -> archived (disk self') = archived (disk self) ->
  manifest_json (disk self') = manifest_json (disk self) -> records (disk self') = records (disk self) ->
  write_segment (mem self') ∈ [None; Some name] -> represents es tail self'.
Proof.
  intros H Hc Hm Hs Ha Hj Hr Hw. destruct self' as [c' d' m' io']. cbn in *. subst c'.
  assert (forall seg, segment_file (Build_LedgerStore (cfg self) d' m' io') seg = segment_file self seg) as Hf.
  { intros seg. unfold segment_file, is_unmounted, segment_entry. cbn. by rewrite Hm, Hs, Ha. }
  destruct H. constructor; cbn; try done; try (rewrite Hm; done); try (rewrite Hj; done); try (rewrite Hr; done).
  - revert rp_mounted0. unfold is_unmounted, segment_entry. cbn. by rewrite Hm.
  - intros seg Hseg. rewrite Hf. auto.
Qed.

Lemma represents_ext es tail self self' :
  represents es tail self -> cfg self' = cfg self -> manifest (mem self') = manifest (mem self) ->
  disk self' = with_lookup_file (lookup_file (disk self')) (disk self) ->
  write_segment (mem self') ∈ [None; Some name] -> represents es tail self'.
Proof. intros H Hc Hm Hd Hw. eapply represents_parts; try done; by rewrite Hd. Qed.

Lemma represents_faults es tail fs self : represents es tail self -> represents es tail (with_faults fs self).
Proof. intros H. eapply represents_ext; try done; [by destruct self as [? [] ? ?]|apply H]. Qed.

Lemma represents_active es tail self :
  represents es tail self ->
  exists f, segments (disk self) !! name = Some f /\ data f = seg_bytes name es ++ tail.
Proof.
  intros H. destruct (rp_files _ _ _ _ _ H name) as (f & Hf & Hd); [left|]. unfold segment_file in Hf.
  rewrite (rp_mounted _ _ _ _ _ H) in Hf. rewrite bool_decide_true in Hd by done. by exists f.
Qed.

(** The active segment's bytes after the lines of the entries change. *)
Lemma represents_update es tail tail' g self :
  represents es tail self ->
  (forall f, data f = seg_bytes name es ++ tail -> exists f', g (Some f) = Some f' /\ data f' = seg_bytes name es ++ tail') ->
  represents es tail' (set_disk (fun d => with_segments (partial_alter g name (segments d)) d) self).
Proof.
  intros H Hg. destruct (represents_active es tail self H) as (f & Hf & Hd). destruct H. constructor; try done.
  intros seg Hs. rewrite segment_file_update by done. case_bool_decide as E.
  - subst seg. rewrite Hf. apply Hg, Hd.
  - destruct (rp_files0 seg Hs) as (f0 & Hf0 & Hd0). exists f0. rewrite bool_decide_false in Hd0 by done. done.
Qed.

Lemma represents_append es tail bs self :
  represents es tail self -> represents es (tail ++ bs) (append_to name bs self).
Proof.
  intros H. apply (represents_update es tail); [done|]. intros f Hd. eexists. split; [done|].
  cbn. by rewrite Hd, app_assoc.
Qed.

Lemma represents_synced es tail self : represents es tail self -> represents es tail (on_file name synced self).
Proof.
  intros H. apply (represents_update es tail); [done|]. intros f Hd. by eexists.
Qed.

Lemma represents_cut es tail torn self :
  represents es (tail ++ torn) self ->
  represents es tail (on_file name (cut (length (seg_bytes name es) + length tail)) self).
Proof.
  intros H. apply (represents_update es (tail ++ torn)); [done|]. intros f Hd. eexists. split; [done|]. cbn.
  rewrite Hd, app_assoc, <- length_app. apply take_app_length.
Qed.

(** Indexing the first line of the tail. *)
Lemma represents_insert es s tail self r :
  represents es (line_of s ++ tail) self -> s_segment s = name -> s_offset s = zlen (seg_bytes name es) ->
  s_id s ∉ map s_id es -> stored_ok s -> row_at (zlen es + 1) s = Ok r ->
  represents (es ++ [s]) tail (set_disk (with_records (records (disk self) ++ [r])) self).
Proof.
  intros H Hseg Hoff Hid Hok Hrow. destruct H. constructor; try done.
  - rewrite rows_at_app, rp_rows0. cbn [rows_at]. rewrite (Z.add_comm 1), Hrow. done.
  - rewrite map_app. apply NoDup_app. split_and!; [done| |apply NoDup_singleton].
    intros x Hx Hx'. apply list_elem_of_singleton in Hx' as ->. done.
  - by apply Forall_app_2; [|constructor].
  - intros seg Hs. rewrite map_app in Hs. destruct (rp_files0 seg) as (f & Hf & Hd).
    { cbn [map] in Hs. rewrite Hseg in Hs. set_solver. }
    exists f. split; [done|]. rewrite Hd, seg_bytes_app, seg_bytes_one, Hseg.
    destruct (decide (seg = name)) as [->|Hne].
    + rewrite !bool_decide_true by done. by rewrite <- app_assoc.
    + rewrite !bool_decide_false by congruence. by rewrite !app_nil_r.
  - intros seg. rewrite in_segment_app, in_segment_one, Hseg. apply placed_app. split; [done|].
    case_bool_decide as E; [subst seg|done]. rewrite Z.add_0_l. cbn. done.
Qed.
End represented.

(** ** Reading an entry *)
Definition bundled (s : Stored) : list ProducerEnvelope :=
  match _bundled_envelopes (s_capsule s) (s_authenticity s) with Ok l => l | Raise _ => [] end.

Definition record_at (seq : Z) (s : Stored) : LedgerRecord :=
  {| lr_seq := seq; lr_capsule_id := s_id s; lr_capsule := s_capsule s; lr_segment := s_segment s;
     lr_consequential := s_consequential s; lr_authenticity := s_authenticity s; lr_envelopes := bundled s |}.

Lemma get_or_dict v k : is_dict v = true -> exists x, get_or v k JNull = Ok x.
Proof. destruct v; try done. intros _. by eexists. Qed.

Lemma bundled_ok s : is_dict (s_capsule s) = true -> _bundled_envelopes (s_capsule s) (s_authenticity s) = Ok (bundled s).
Proof.
  intros Hd. unfold bundled, _bundled_envelopes. case_match; [done|].
  destruct (get_or_dict _ (str "signature") Hd) as [x ->], (get_or_dict _ (str "key_id") Hd) as [y ->]. done.
Qed.

(** Where the line of an entry is. *)
Lemma entry_file m name es tail self s :
  represents m name es tail self -> s ∈ es ->
  exists f pre rest, segment_file self (s_segment s) = Some f /\ data f = pre ++ line_of s ++ rest
                     /\ s_offset s = zlen pre.
Proof.
  intros H Hs. destruct (rp_files _ _ _ _ _ H (s_segment s)) as (f & Hf & Hd).
  { right. by apply list_elem_of_fmap_2. }
  pose proof (rp_placed _ _ _ _ _ H (s_segment s)) as Hp.
  apply list_elem_of_split in Hs as (es1 & es2 & ->). rewrite in_segment_app in Hp.
  change (s :: es2) with ([s] ++ es2) in *. rewrite in_segment_app, in_segment_one, bool_decide_true in Hp by done.
  apply placed_app in Hp as [_ [Ho _]]. rewrite !seg_bytes_app, seg_bytes_one, bool_decide_true in Hd by done.
  exists f, (seg_bytes (s_segment s) es1), (seg_bytes (s_segment s) es2 ++ if bool_decide (s_segment s = name) then tail else []).
  split; [done|]. split; [|done]. by rewrite Hd, <- !app_assoc.
Qed.

(** What [_require_mounted] raises for a segment. *)
Definition unmounted self (seg : pystr) : raised :=
  match segment_entry self seg with
  | Some e => Unmounted (se_checkpoint_root e) (se_mmr_size e) seg
  | None => Unmounted JNull JNull seg
  end.

Lemma require_mounted_eq seg self :
  _require_mounted seg self = (self, if is_unmounted self seg then Raised (unmounted self seg) else Done ()).
Proof.
  unfold _require_mounted, is_unmounted, unmounted, bind, get. destruct (segment_entry self seg) as [e|]; [|done].
  by destruct (se_mounted e).
Qed.

Lemma read_entry m name es tail self seq s r :
  represents m name es tail self -> s ∈ es -> row_at seq s = Ok r ->
  _row_to_record r self =
  (self, if is_unmounted self (s_segment s) then Raised (unmounted self (s_segment s)) else Done (record_at seq s)).
Proof.
  intros H Hs Hr. destruct (entry_file m name es tail self s H Hs) as (f & pre & rest & Hf & Hd & Ho).
  pose proof (rp_ok _ _ _ _ _ H) as Hok. rewrite Forall_forall in Hok. specialize (Hok s Hs) as [Hw Hdict Hl _ _ _].
  apply row_fields in Hr as (Hseq & Hid & Hseg & Hoff & Hc & Ha).
  unfold _row_to_record, bind at 1. rewrite Hseg, require_mounted_eq. destruct (is_unmounted self (s_segment s)); [done|].
  unfold bind at 1, _get_fh, bind at 1, get. rewrite Hf. cbn [ret].
  rewrite (read_text_line (s_capsule s) (s_line s) f _ pre rest) by (done || congruence).
  unfold bind, lift, ret. rewrite Ha, bundled_ok by done. unfold record_at. by rewrite Hseq, Hid, Hc.
Qed.

Lemma existing_entry m name es tail self seq s r :
  represents m name es tail self -> s ∈ es -> row_at seq s = Ok r ->
  _existing_record r self = (self, Done (if is_unmounted self (s_segment s) then None else Some (record_at seq s))).
Proof.
  intros H Hs Hr. unfold _existing_record, catch, bind. rewrite (read_entry m name es tail self seq s r) by done.
  destruct (is_unmounted self (s_segment s)); [|done]. unfold unmounted. by destruct (segment_entry _ _).
Qed.
End spec.

(** ** What the lookup index holds for a list of entries *)
Section lookup.
Context {PI : Interp} {HL : Hashlib} {AC : AgentActionCapsule} {C : Type}.
Variable real_text : pystr -> option pystr.
Implicit Types self : LedgerStore C.
Import LedgerStore.
#[local] Abbreviation stored_ok := (stored_ok real_text).

(** The row of an entry in the lookup index. *)
Definition lookup_row_of (seq : Z) (s : Stored) : result LookupRow :=
  let! ts := get_or (s_capsule s) (str "timestamp") JNull in
  LookupIndex.lookup_row real_text seq ts (JStr (s_id s)) (s_segment s) (s_offset s).

Lemma lookup_row_ok seq s : stored_ok s -> exists row, lookup_row_of seq s = Ok row.
Proof.
  intros Hok. destruct (so_row _ _ Hok) as [r Hr]. unfold StoreSpec.row_at in Hr.
  destruct (params_of real_text s) as [p|] eqn:E; [|done].
  destruct (params_inv _ _ _ _ _ _ _ _ E) as (Hid & ts & o & Hts & Ho & _).
  unfold lookup_row_of. rewrite Hts. unfold LookupIndex.lookup_row. apply param_str in Hid as [_ Hid].
  unfold param in Ho. destruct (Lookup.bind real_text ts); [|done]. cbn [Lookup.bind]. rewrite Hid. by eexists.
Qed.

Lemma lookup_row_seq seq s row : lookup_row_of seq s = Ok row -> lk_seq row = seq.
Proof.
  unfold lookup_row_of, LookupIndex.lookup_row. destruct (get_or _ _ _) as [ts|]; [|done].
  destruct (Lookup.bind real_text ts); [|done]. destruct (Lookup.bind real_text _) as [[d|]|]; try done. by intros [= <-].
Qed.

(** ** The tables of a list of entries *)
Fixpoint lookup_rows_at (seq : Z) (es : list Stored) : result (list LookupRow) :=
  match es with
  | [] => Ok []
  | s :: es =>
      let! r := lookup_row_of seq s in
      let! rs := lookup_rows_at (seq + 1) es in
      Ok (r :: rs)
  end.

Fixpoint correlations_at (fields : list pystr) (seq : Z) (es : list Stored) : list (pystr * Z) :=
  match es with
  | [] => []
  | s :: es => map (fun c => (c, seq)) (extract_correlation_ids (s_capsule s) fields) ++ correlations_at fields (seq + 1) es
  end.

Definition lookup_of (fields : list pystr) (es : list Stored) : result LookupDb :=
  let! rows := lookup_rows_at 1 es in
  Ok {| lk_records := rows; lk_correlations := correlations_at fields 1 es |}.

(** The index, if there is one, holds every entry and nothing else. *)
Definition lookup_complete (es : list Stored) self : Prop :=
  match lookup_index (mem self) with
  | Some li => lookup_of (li_fields li) es = Ok (li_view li)
  | None => True
  end.

Lemma lookup_rows_app seq es es' :
  lookup_rows_at seq (es ++ es') =
  (let! rs := lookup_rows_at seq es in let! rs' := lookup_rows_at (seq + zlen es) es' in Ok (rs ++ rs')).
Proof.
  revert seq. induction es as [|s es IH]; intros seq; cbn [app lookup_rows_at].
  - rewrite zlen_nil, Z.add_0_r. by destruct (lookup_rows_at seq es').
  - rewrite IH, zlen_cons, Z.add_assoc. destruct (lookup_row_of seq s); [|done].
    destruct (lookup_rows_at (seq + 1) es); [|done]. by destruct (lookup_rows_at _ es').
Qed.

Lemma correlations_app fields seq es es' :
  correlations_at fields seq (es ++ es') = correlations_at fields seq es ++ correlations_at fields (seq + zlen es) es'.
Proof.
  revert seq. induction es as [|s es IH]; intros seq; cbn [app correlations_at].
  - by rewrite zlen_nil, Z.add_0_r.
  - by rewrite IH, zlen_cons, Z.add_assoc, app_assoc.
Qed.

Lemma lookup_rows_bound seq es rs : lookup_rows_at seq es = Ok rs -> Forall (fun r => seq <= lk_seq r < seq + zlen es) rs.
Proof.
  revert seq rs. induction es as [|s es IH]; intros seq rs; cbn [lookup_rows_at]; [intros [= <-]; constructor|].
  destruct (lookup_row_of seq s) as [r|] eqn:Hr; [|done]. destruct (lookup_rows_at (seq + 1) es) as [rs'|] eqn:Hrs; [|done].
  intros [= <-]. apply lookup_row_seq in Hr. rewrite zlen_cons. pose proof (zlen_nonneg es). constructor; [lia|].
  eapply Forall_impl; [by eapply IH|]. cbn. lia.
Qed.

Lemma correlations_bound fields seq es : Forall (fun cs => seq <= cs.2 < seq + zlen es) (correlations_at fields seq es).
Proof.
  revert seq. induction es as [|s es IH]; intros seq; cbn [correlations_at]; [constructor|].
  rewrite zlen_cons. pose proof (zlen_nonneg es). apply Forall_app_2.
  - apply Forall_map, Forall_forall. intros c _. cbn. lia.
  - eapply Forall_impl; [apply IH|]. cbn. lia.
Qed.

Lemma put_row_last row l : Forall (fun r => lk_seq r < lk_seq row) l -> put_row row l = l ++ [row].
Proof.
  induction 1 as [|r l Hr Hl IH]; [done|]. cbn [put_row app].
  rw_bool (lk_seq row <? lk_seq r) false. rewrite (proj2 (Z.eqb_neq _ _)) by lia. by rewrite IH.
Qed.

Lemma filter_all {A} (f : A -> bool) l : Forall (fun x => f x = true) l -> List.filter f l = l.
Proof. induction 1 as [|x l Hx Hl IH]; [done|]. cbn. by rewrite Hx, IH. Qed.

(** Writing the row of the next entry. *)
Lemma put_complete li es s row :
  lookup_of (li_fields li) es = Ok (li_view li) -> lookup_row_of (zlen es + 1) s = Ok row ->
  lookup_of (li_fields li) (es ++ [s]) = Ok (put li row (s_capsule s)).
Proof.
  unfold lookup_of. intros H Hr. destruct (lookup_rows_at 1 es) as [rs|] eqn:Hrs; [|done]. injection H as H.
  rewrite lookup_rows_app, correlations_app, Hrs, (Z.add_comm 1). cbn [lookup_rows_at correlations_at]. rewrite Hr.
  pose proof (lookup_row_seq _ _ _ Hr) as Hseq. unfold put. rewrite <- H. cbn. rewrite put_row_last, filter_all.
  - by rewrite Hseq, app_nil_r.
  - eapply Forall_impl; [apply correlations_bound|]. intros cs Hcs. cbn in Hcs. apply negb_true_iff, Z.eqb_neq. lia.
  - eapply Forall_impl; [by eapply lookup_rows_bound|]. cbn. lia.
Qed.
End lookup.
