(* ===== verification/StoreAppend.v ===== *)
(** * Appending to the ledger store

    Whatever the operating system answers, an append either stores its entry,
    or leaves the entries as they were, with at most an unindexed line or a
    part of one behind them. *)
From S2P Require Import Prelude Bytes Text Json JsonProps PyJson JsonBytes Sha256 Ed25519 Emit Admission Segments Lookup Store StoreLogic StoreSpec Jsonl JsonlProps.
Open Scope Z_scope.
Open Scope store_scope.

Section append.
Context {PI : Interp} {HL : Hashlib} {AC : AgentActionCapsule} {C : Type} {CK : Checkpointer C}.
Variable real_text : pystr -> option pystr.
Implicit Types self : LedgerStore C.
Import LedgerStore.
#[local] Abbreviation represents := (represents real_text).
#[local] Abbreviation stored_ok := (stored_ok real_text).
#[local] Abbreviation row_at := (row_at real_text).
#[local] Abbreviation lookup_row_of := (lookup_row_of real_text).
#[local] Abbreviation lookup_complete := (lookup_complete real_text).

(** ** Writing the lookup index *)

(** A step met a fault only if one was left. *)
Definition calm self (fs : list fault) : Prop := fs <> [] -> faults self <> [].

Lemma calm_refl self : calm self (faults self).
Proof. by intros ?. Qed.

Lemma calm_met self fs : faults self <> [] -> calm self fs.
Proof. by intros ? ?. Qed.

Lemma calm_none self fs : (fs <> [] -> faults self <> []) -> calm self fs.
Proof. done. Qed.

#[local] Hint Resolve calm_refl calm_met calm_none : core.

(** The state after the row is committed. *)
Definition looked_up (row : LookupRow) (v : json) self self' : Prop :=
  exists fs li, calm self fs /\ lookup_index (mem self) = Some li /\
    self' = with_faults fs (commit_lookup (LookupIndex.commit (LookupIndex.with_view li (put li row v))) self).

Lemma set_mem_same self m : m = mem self -> set_mem (fun _ => m) self = self.
Proof. intros ->. by destruct self. Qed.

Lemma no_lookup_same self : lookup_index (mem self) = None -> set_mem (with_lookup None) self = self.
Proof. destruct self as [c d [] io]. cbn. by intros ->. Qed.

Lemma lookup_record_wp seq s row self :
  stored_ok s -> lookup_row_of seq s = Ok row ->
  wp (_lookup_record real_text seq (s_capsule s) (s_id s) (s_segment s) (s_offset s))
    {| done := fun b self' => if b : bool then looked_up row (s_capsule s) self self'
                              else exists fs, calm self fs /\ self' = with_faults fs (set_mem (with_lookup None) self);
       raises := fun _ _ => False;
       dies := fun self' => faults self <> [] /\
                            (looked_up row (s_capsule s) self self' \/ exists fs, self' = with_faults fs self) |} self.
Proof.
  intros Hok Hrow. unfold _lookup_record. wp_step. wp_step. destruct (lookup_index (mem self)) as [li|] eqn:Hli.
  - unfold lookup_row_of in Hrow. destruct (get_or _ _ _) as [ts|] eqn:Hts; [|done]. wp_step.
    apply (wp_lift_ok _ ts); [done|]. cbn. rewrite (record_writes _ _ _ _ _ _ _ _ row) by (done || apply Hok).
    cbn [lookup_write]. wp_step. wp_step. apply wp_atomic.
    + intros fs Hfs. wp_step. by exists fs, li.
    + intros fs Hfs. wp_red. split_and!; [unfold set_lookup; wp_step; wp_step; wp_step; exists fs; auto|done|right; by exists fs|done|left; exists fs, li; auto].
  - wp_step. exists (faults self). rewrite no_lookup_same by done. split; [auto|by destruct self].
Qed.

(** Only the lookup index differs. *)
Record lookup_only self self' : Prop := {
  lo_cfg : cfg self' = cfg self;
  lo_mem : exists l, mem self' = with_lookup l (mem self);
  lo_disk : exists db, disk self' = with_lookup_file db (disk self);
  lo_faults : calm self (faults self')
}.

Lemma lookup_only_refl self : lookup_only self self.
Proof.
  constructor; [done| | |auto]; [exists (lookup_index (mem self)); by destruct (mem self)|].
  exists (lookup_file (disk self)); by destruct (disk self).
Qed.

Lemma lookup_only_wp seq s self :
  stored_ok s ->
  wp (_lookup_record real_text seq (s_capsule s) (s_id s) (s_segment s) (s_offset s))
    {| done := fun _ self' => lookup_only self self' /\
         (forall es, seq = zlen es + 1 -> lookup_complete es self -> lookup_complete (es ++ [s]) self');
       raises := fun _ _ => False;
       dies := fun self' => faults self <> [] /\ lookup_only self self' |} self.
Proof.
  intros Hok. destruct (lookup_row_ok real_text seq s Hok) as [row Hrow].
  assert (forall self', looked_up row (s_capsule s) self self' -> lookup_only self self') as Hl.
  { intros self' (fs & li & Hfs & Hli & ->). constructor; [done| | |auto]; by eexists. }
  eapply wp_mono; [by apply lookup_record_wp| |done|]; cbn.
  - intros [] self' H'.
    { split; [by apply Hl|]. intros es -> Hc. destruct H' as (fs & li & _ & Hli & ->). unfold lookup_complete in *.
      rewrite Hli in Hc. cbn. by apply put_complete. }
    destruct H' as (fs & Hfs & ->). split; [|done]. constructor; [done|by eexists|apply (lo_disk _ _ (lookup_only_refl self))|done].
  - intros self' [Hf [H|[fs ->]]]; (split; [done|]); [by apply Hl|]. destruct (lookup_only_refl self). constructor; auto.
Qed.

Lemma represents_lookup m name es tail self self' :
  represents m name es tail self -> lookup_only self self' -> represents m name es tail self'.
Proof.
  intros H [Hc [l Hm] [db Hd] _]. eapply represents_ext; [done|done|by rewrite Hm|by rewrite Hd|].
  rewrite Hm. apply H.
Qed.

(** ** The write handle *)
Lemma touched_same name f self : segments (disk self) !! name = Some f -> touched name self = self.
Proof.
  intros Hf. destruct self as [c [] me io]. unfold touched, append_to, set_disk, with_segments. cbn in *.
  assert (partial_alter (append_file []) name segments = segments) as ->; [|done].
  apply map_eq. intros i. destruct (decide (i = name)) as [->|Hne]; [|by rewrite lookup_partial_alter_ne].
  rewrite lookup_partial_alter_eq, Hf. cbn. rewrite app_nil_r. by destruct f.
Qed.

Definition with_handle name self : LedgerStore C := set_mem (with_write_segment (Some name)) self.

Lemma sync_write_eq m name es tail self :
  represents m name es tail self -> _sync_write_segment self = (with_handle name self, Done ()).
Proof.
  intros H. destruct (represents_active real_text es tail self H) as (f & Hf & _). destruct H.
  unfold _sync_write_segment, bind at 1, get. rewrite rp_managed. unfold _sync_write_segment_managed, bind, get, ret.
  rewrite rp_manifest, rp_active. cbn. rewrite rp_manifest. cbn. rewrite rp_active. unfold point_at, bind, get, ret.
  case_bool_decide as E.
  - unfold with_handle. f_equal. destruct self as [c d [] io]. cbn in *. by subst.
  - unfold open_append, update. by rewrite (touched_same name f).
Qed.

Lemma represents_mem m name es tail self f :
  represents m name es tail self -> manifest (f (mem self)) = manifest (mem self) ->
  write_segment (f (mem self)) ∈ [None; Some name] -> represents m name es tail (set_mem f self).
Proof. intros H Hm Hw. eapply represents_ext; try done. cbn. by destruct (disk self). Qed.

Lemma represents_handle m name es tail self :
  represents m name es tail self -> represents m name es tail (with_handle name self).
Proof. intros H. apply represents_mem; [done..|]. right. left. Qed.

Lemma file_size_eq m name es tail self :
  represents m name es tail self -> file_size self name = zlen (seg_bytes name es) + zlen tail.
Proof.
  intros H. destruct (represents_active real_text es tail self H) as (f & Hf & Hd). unfold file_size.
  by rewrite Hf, Hd, zlen_app.
Qed.

(** ** Lines no row names *)

(** Complete lines that [recover] can index, after the bytes [off]. *)
Record awaiting (name : pystr) (off : Z) (ids : list pystr) (pend : list Stored) : Prop := {
  pd_ok : Forall stored_ok pend;
  pd_segment : Forall (fun s => s_segment s = name) pend;
  pd_placed : placed off pend;
  pd_ids : NoDup (ids ++ map s_id pend)
}.

(** The tail is such lines and a part of another. *)
Record recoverable (m : StoreManifest) (name : pystr) (es pend : list Stored) (torn : bytes) self : Prop := {
  rc_represents : represents m name es (concat (map line_of pend) ++ torn) self;
  rc_pending : awaiting name (zlen (seg_bytes name es)) (map s_id es) pend;
  rc_torn : Byte.x0a ∉ torn
}.

(** An entry that can be appended. *)
Definition appendable (name : pystr) (es : list Stored) (s : Stored) : Prop :=
  awaiting name (zlen (seg_bytes name es)) (map s_id es) [s].

Lemma appendable_intro m name es self s :
  represents m name es [] self -> stored_ok s -> s_segment s = name -> s_offset s = zlen (seg_bytes name es) ->
  s_id s ∉ map s_id es -> appendable name es s.
Proof.
  intros H Hok Hseg Hoff Hid. constructor; [by apply Forall_singleton..|done|].
  apply NoDup_app. split_and!; [apply H| |apply NoDup_singleton]. cbn. set_solver.
Qed.

(** A part of a line holds no newline, unless it is the whole line. *)
Lemma partial_line m name es s n self :
  represents m name es (take n (line_of s)) self -> appendable name es s ->
  exists pend torn, recoverable m name es pend torn self /\ (pend = [] \/ pend = [s]).
Proof.
  intros H Hs. pose proof (pd_ok _ _ _ _ Hs) as [Hok _]%Forall_cons.
  pose proof (dumps_ascii_ascii _ _ (so_writable _ _ Hok) (so_line _ _ Hok)) as Ha.
  destruct (decide (length (line_of s) <= n)%nat) as [Hn|Hn].
  - exists [s], []. split; [|by right]. rewrite take_ge in H by done. constructor; [|exact Hs|apply not_elem_of_nil].
    cbn. by rewrite !app_nil_r.
  - exists [], (take n (line_of s)). split; [|by left]. constructor; [done| |].
    + destruct Hs as [_ _ _ Hs]. constructor; try constructor. rewrite app_nil_r. by apply NoDup_app in Hs as [? _].
    + unfold line_of in *. rewrite line_bytes_eq in *. rewrite length_app in Hn. cbn in Hn.
      rewrite take_app_le by lia. intros Hi%elem_of_take. destruct Hi as (i & Hi & _).
      apply (ascii_no_newline _ Ha). by eapply list_elem_of_lookup_2.
Qed.

(** ** What the writes leave alone *)
Record frame (name : pystr) self self' : Prop := {
  fr_cfg : cfg self' = cfg self;
  fr_closed : closed (disk self') = closed (disk self);
  fr_archived : archived (disk self') = archived (disk self);
  fr_others : forall seg, seg <> name -> segments (disk self') !! seg = segments (disk self) !! seg
}.

Lemma frame_trans name self1 self2 self3 : frame name self1 self2 -> frame name self2 self3 -> frame name self1 self3.
Proof. intros [] []. constructor; [congruence..|]. intros seg Hs. by rewrite fr_others1, fr_others0. Qed.

Lemma frame_append name bs fs self : frame name self (append_to name bs (with_faults fs self)).
Proof. constructor; try done. intros seg Hs. cbn. by rewrite lookup_partial_alter_ne. Qed.

Lemma frame_synced name fs self : frame name self (on_file name synced (with_faults fs self)).
Proof. constructor; try done. intros seg Hs. cbn. by rewrite lookup_alter_ne. Qed.

Lemma frame_faults name fs self : frame name self (with_faults fs self).
Proof. done. Qed.

Lemma frame_lookup name self self' : lookup_only self self' -> frame name self self'.
Proof. intros [Hc _ [db Hd] _]. constructor; [done|by rewrite Hd..|intros; by rewrite Hd]. Qed.

(** ** The writes of an append *)
Lemma insert_record_wp m name es s tail self :
  represents m name es (line_of s ++ tail) self -> appendable name es s ->
  wp (_insert_record real_text (s_capsule s) (JStr (s_id s)) (s_segment s) (s_offset s) (s_consequential s) (s_authenticity s))
    {| done := fun seq self' => seq = zlen es + 1 /\ represents m name (es ++ [s]) tail self'
                                /\ cfg self' = cfg self /\ mem self' = mem self
                                /\ segments (disk self') = segments (disk self) /\ frame name self self' /\ calm self (faults self');
       raises := fun e self' => faults self <> [] /\ e = Exn SqliteBusy /\ exists fs, self' = with_faults fs self;
       dies := fun self' => faults self <> [] /\
                            (represents m name (es ++ [s]) tail self' \/ exists fs, self' = with_faults fs self) |} self.
Proof.
  intros H Hs. destruct Hs as [Hok Hseg [Hoff _] Hid]. apply Forall_cons in Hok as [Hok _], Hseg as [Hseg _].
  assert (s_id s ∉ map s_id es) as Hid'.
  { cbn in Hid. apply NoDup_app in Hid as (_ & Hid & _). intros Hi. apply (Hid _ Hi). left. }
  destruct (so_row _ _ Hok) as [r0 Hr0]. unfold StoreSpec.row_at, params_of in Hr0.
  unfold _insert_record. wp_step.
  destruct (_record_params _ _ _ _ _ _ _) as [p|] eqn:Hp; [|done].
  apply (wp_lift_ok _ p); [done|]. cbn. wp_step. wp_step. wp_step.
  assert (p.1 = Some (s_id s)) as Hp1.
  { destruct (params_inv _ _ _ _ _ _ _ _ Hp) as [Hi _]. by apply param_str in Hi as [-> _]. }
  apply (wp_lift_ok _ (records (disk self) ++ [p.2 (zlen es + 1) (s_id s)], zlen es + 1)).
  { apply (insert_row_fresh real_text es); [apply H|done|done]. }
  cbn. wp_step.
  assert (forall fs, represents m name (es ++ [s]) tail
            (set_disk (with_records (records (disk self) ++ [p.2 (zlen es + 1) (s_id s)])) (with_faults fs self))) as Hd.
  { intros fs. apply (represents_insert real_text es s tail (with_faults fs self)); try done; [by apply represents_faults|].
    unfold StoreSpec.row_at, params_of. by rewrite Hp. }
  apply wp_atomic; intros fs Hfs; wp_red; [wp_step; by split_and!|].
  split_and!; [done|done|by exists fs|done|right; by exists fs|done|by left].
Qed.

(** Every byte of the active segment is on the disk. *)
Definition all_durable (name : pystr) self : Prop :=
  exists f, segments (disk self) !! name = Some f /\ durable f = length (data f).

Lemma synced_durable m name es tail self : represents m name es tail self -> all_durable name (on_file name synced self).
Proof.
  intros H. destruct (represents_active real_text es tail self H) as (f & Hf & _). exists (synced f). split; [|done].
  unfold on_file. cbn. rewrite lookup_alter_eq, Hf. done.
Qed.

Lemma write_record_wp m name es s self :
  represents m name es [] self -> appendable name es s ->
  wp (write_record real_text name (s_line s) (s_capsule s) (JStr (s_id s)) (s_offset s) (s_consequential s) (s_authenticity s))
    {| done := fun seq self' => seq = zlen es + 1 /\ represents m name (es ++ [s]) [] self'
                                /\ cfg self' = cfg self /\ mem self' = mem self
                                /\ (s_consequential s = true -> all_durable name self') /\ frame name self self' /\ calm self (faults self');
       raises := fun _ self' => faults self <> [] /\ mem self' = mem self /\ exists n, represents m name es (take n (line_of s)) self';
       dies := fun self' => faults self <> [] /\
         (represents m name (es ++ [s]) [] self' \/ exists n, represents m name es (take n (line_of s)) self') |} self.
Proof.
  intros H Hs. pose proof (pd_segment _ _ _ _ Hs) as [Hseg _]%Forall_cons. subst name.
  assert (forall fs n, represents m (s_segment s) es (take n (line_of s)) (append_to (s_segment s) (take n (line_of s)) (with_faults fs self))) as Hpart.
  { intros fs n. by apply (represents_append real_text es []), represents_faults. }
  unfold write_record. wp_step. apply wp_write.
  2: { intros fs n Hf. wp_red. split_and!; [done|done|exists n; apply Hpart|done|right; exists n; apply Hpart]. }
  intros fs Hfs. wp_red. set (self1 := append_to _ _ _).
  assert (represents m (s_segment s) es (line_of s) self1) as H1 by (by apply (represents_append real_text es []), represents_faults).
  assert (mem self1 = mem self /\ cfg self1 = cfg self /\ calm self (faults self1)) as (Hmem & Hcfg & Hcalm) by done.
  assert (frame (s_segment s) self self1) as Hfr1 by apply frame_append. clearbody self1.
  assert (forall self2, represents m (s_segment s) es (line_of s) self2 -> exists n, represents m (s_segment s) es (take n (line_of s)) self2) as Hall.
  { intros self2 H2. exists (length (line_of s)). by rewrite take_ge by done. }
  assert (forall self2, represents m (s_segment s) es (line_of s) self2 -> mem self2 = mem self -> cfg self2 = cfg self -> calm self (faults self2) ->
    frame (s_segment s) self self2 ->
    (s_consequential s = true -> all_durable (s_segment s) self2) -> wp (_insert_record real_text (s_capsule s) (JStr (s_id s)) (s_segment s)
       (s_offset s) (s_consequential s) (s_authenticity s))
    {| done := fun seq self' => seq = zlen es + 1 /\ represents m (s_segment s) (es ++ [s]) [] self'
                                /\ cfg self' = cfg self /\ mem self' = mem self
                                /\ (s_consequential s = true -> all_durable (s_segment s) self')
                                /\ frame (s_segment s) self self' /\ calm self (faults self');
       raises := fun _ self' => faults self <> [] /\ mem self' = mem self /\ exists n, represents m (s_segment s) es (take n (line_of s)) self';
       dies := fun self' => faults self <> [] /\
         (represents m (s_segment s) (es ++ [s]) [] self' \/ exists n, represents m (s_segment s) es (take n (line_of s)) self') |} self2) as Hins.
  { intros self2 H2 Hm2 Hc2 Hcalm2 Hfr2 Hd2. eapply wp_mono; [apply (insert_record_wp m (s_segment s) es s [])|..]; cbn.
    - by rewrite app_nil_r.
    - done.
    - rewrite Hc2, Hm2. intros seq s' (-> & H' & Hc & Hm & Hf & Hfr & Hfs').
      split_and!; try done; [|by eapply frame_trans|intros Hne; by apply Hcalm2, Hfs']. intros Hc'.
      destruct (Hd2 Hc') as (f & Hf' & Hl). exists f. by rewrite Hf.
    - intros e s' (Hne & _ & fs' & ->). split_and!; [by apply Hcalm2|done|]. by apply Hall, represents_faults.
    - intros s' [Hne [H'|[fs' ->]]]; (split; [by apply Hcalm2|]); [by left|right]. by apply Hall, represents_faults. }
  wp_step. destruct (s_consequential s) eqn:Hc.
  - unfold sync_file. apply wp_atomic; intros fs' Hfs'; wp_red; pose proof (represents_faults real_text _ _ fs' _ H1) as H1'.
    + apply Hins; [by apply represents_synced|done|done|intros Hne; by apply Hcalm, Hfs'| |].
      { eapply frame_trans; [exact Hfr1|apply frame_synced]. }
      intros _. by eapply synced_durable.
    + apply Hcalm in Hfs'. split_and!; [done|done|by apply Hall|done|right; by apply Hall|done|].
      right. by apply Hall, represents_synced.
  - wp_step. by apply Hins.
Qed.
End append.

(** ** What an append does under any failure *)
(** A capsule's id does not depend on its embedded envelope. *)
Class CapsuleLaws `{AgentActionCapsule} := {
  envelope_excluded : forall d x y cid, compute_capsule_id (JDict d) = Ok cid ->
    compute_capsule_id (JDict (dict_set (dict_set d (str "signature") x) (str "key_id") y)) = Ok cid
}.

Section props.
Context {PI : Interp} {HL : Hashlib} {AC : AgentActionCapsule} {CL : CapsuleLaws} {C : Type} {CK : Checkpointer C}.
Variable real_text : pystr -> option pystr.
Implicit Types self : LedgerStore C.
Import LedgerStore.
#[local] Abbreviation represents := (represents real_text).
#[local] Abbreviation stored_ok := (stored_ok real_text).
#[local] Abbreviation appendable := (appendable real_text).
#[local] Abbreviation recoverable := (recoverable real_text).
#[local] Abbreviation lookup_complete := (lookup_complete real_text).

(** What an append is to store, its id and its state. *)
Definition submitted (capsule : json) (admission : option AdmissionRequest) : result (json * json * pystr) :=
  let! request := match admission with Some r => Ok r | None => make_request UNSIGNED [] end in
  let! resolution := resolve_admission capsule request in
  let! (v, id) := stored_capsule capsule resolution in
  Ok (v, id, authenticity resolution).

Lemma named_id v id : id_conflict v id = Ok false ->
  _line_id_problem v = Ok false /\ is_dict v = true /\
  (get_or v (str "capsule_id") JNull = Ok JNull \/
   exists c s, get_or v (str "capsule_id") JNull = Ok (JStr (c :: s)) /\ json_eq (JStr (c :: s)) id = true).
Proof.
  unfold id_conflict. destruct (_line_id_problem v) as [[]|] eqn:E; try done.
  destruct v as [| | | | | |d]; try done. unfold _line_id_problem in E. unfold get_or.
  destruct (find_key d (str "capsule_id")) as [w|]; [|intros _; split_and!; [done|done|by left]].
  destruct w as [| | | |[|c s]| |]; try done. intros [= H]. split_and!; try done. right. exists c, s.
  split; [done|]. exact (proj1 (negb_false_iff _) H).
Qed.

Lemma given_id given (compute : result pystr) id :
  given_or given compute = Ok id ->
  (given = JNull \/ exists c s, given = JStr (c :: s)) -> exists s, id = JStr s.
Proof.
  unfold given_or. intros H [->|(c & s & ->)].
  - cbn in H. destruct compute; [|done]. injection H as <-. by eexists.
  - cbn in H. injection H as <-. by eexists.
Qed.

(** Resolving a signed submission gives the recomputed id. *)
Lemma resolved_signed capsule request r :
  resolve_admission capsule request = Ok r -> authenticity r = AUTHENTICITY_SIGNED ->
  exists cid, compute_capsule_id capsule = Ok cid /\ resolved_id r = Some cid /\
    verified_envelopes r <> [] /\
    Forall (fun e => _verifies cid e = Ok true) (verified_envelopes r).
Proof.
  unfold resolve_admission. case_bool_decide as E; [by intros [= <-]|]. intros H _.
  destruct (compute_capsule_id capsule) as [cid|]; [|done]. destruct (_candidate_envelopes _ _) as [cs|]; [|done].
  destruct cs as [|x cs]; [done|]. destruct (filter_result _ _) as [ok|] eqn:Ef; [|done].
  destruct ok as [|y ok]; [done|]. injection H as <-. exists cid. split_and!; try done. cbn [verified_envelopes].
  revert Ef. generalize (x :: cs) as l, (y :: ok) as k. clear. induction l as [|x l IH]; intros k; cbn [filter_result].
  - by intros [= <-].
  - destruct (_verifies cid x) as [b|] eqn:Ex; [|done]. destruct (filter_result _ l) as [k'|] eqn:El; [|done].
    intros [= <-]. destruct b; [constructor; [done|]|]; by apply IH.
Qed.

(** The id of the line is the id it is stored under. *)
Lemma submitted_id capsule admission v id a :
  submitted capsule admission = Ok (v, id, a) -> id_conflict v id = Ok false ->
  exists s, id = JStr s /\ line_id v = Ok (JStr s).
Proof.
  unfold submitted. intros H Hc. destruct (match admission with Some _ => _ | None => _ end) as [request|]; [|done].
  destruct (resolve_admission capsule request) as [r|] eqn:Hr; [|done].
  destruct (stored_capsule capsule r) as [[v' id']|] eqn:Hs; [|done]. injection H as -> -> <-.
  destruct (named_id v id Hc) as (_ & Hd & Hn). unfold stored_capsule in Hs. case_bool_decide as E.
  - destruct (resolved_signed _ _ _ Hr E) as (cid & Hcid & Hres & _). rewrite Hres in Hs.
    destruct (verified_envelopes r) as [|proof rest]; [done|]. destruct capsule as [| | | | | |d]; try done.
    destruct (given_or _ _) as [id'|] eqn:Hg; [|done]. 
    assert (v = JDict (dict_set (dict_set d (str "signature") (envelope proof)) (str "key_id") (env_key_id proof)) /\ id' = id)
      as [-> ->] by (split; congruence). clear Hs.
    pose proof (envelope_excluded d (envelope proof) (env_key_id proof) cid Hcid) as He.
    assert (id = JStr cid) as ->.
    { rewrite He in Hg. unfold given_or, json_text in Hg. destruct (truthy (JStr cid)); congruence. }
    exists cid. split; [done|]. unfold line_id. destruct Hn as [->|(c & s & -> & Heq)].
    + unfold given_or. change (truthy JNull) with false. cbv beta iota. by rewrite He.
    + cbn in Heq. apply bool_decide_eq_true in Heq as ->. done.
  - destruct (get_or capsule _ JNull) as [given|] eqn:Hg; [|done].
    destruct (given_or given _) as [id'|] eqn:Hi; [|done]. injection Hs as -> ->.
    rewrite Hg in Hn. destruct (given_id _ _ _ Hi) as [s ->]; [naive_solver|]. exists s. split; [done|].
    unfold line_id. by rewrite Hg.
Qed.

Lemma submitted_ok capsule admission v id a t name off c p :
  submitted capsule admission = Ok (v, id, a) -> writable v -> id_conflict v id = Ok false ->
  _record_params real_text v id name off c a = Ok p -> dumps_ascii v = Ok t ->
  id = JStr (text_id id) /\
  stored_ok {| s_capsule := v; s_id := text_id id; s_segment := name; s_offset := off; s_consequential := c;
               s_authenticity := a; s_line := t |}.
Proof.
  intros Hs Hw Hc Hp Ht. destruct (submitted_id _ _ _ _ _ Hs Hc) as (s & -> & Hid). split; [done|].
  destruct (named_id v _ Hc) as (Hn & Hd & _). constructor; try done.
  unfold row_at, params_of. cbn. rewrite Hp. by eexists.
Qed.

(** ** The abstract append

    The entry that is added to a list of entries, or the exception. *)
Definition append_spec (name : pystr) (es : list Stored) (capsule : json) (consequential : bool)
    (admission : option AdmissionRequest) : result Stored :=
  let! (v, id, a) := submitted capsule admission in
  let! conflict := id_conflict v id in
  if conflict : bool then Raise ValueError else
  let! cid := bind_str (text_id id) in
  if bool_decide (cid ∈ map s_id es) then Raise DuplicateRecord else
  let offset := zlen (seg_bytes name es) in
  let! _ := _record_params real_text v id name offset consequential a in
  let! line := dumps_ascii v in
  Ok {| s_capsule := v; s_id := cid; s_segment := name; s_offset := offset; s_consequential := consequential;
        s_authenticity := a; s_line := line |}.

Section one.
Context (m : StoreManifest) (name : pystr) (es : list Stored) (capsule : json) (consequential : bool)
  (admission : option AdmissionRequest).
#[local] Abbreviation spec := (append_spec name es capsule consequential admission).

(** A value that is read as it is written: no float, no lone surrogate. *)
Definition storable : Prop := forall v id a, submitted capsule admission = Ok (v, id, a) -> writable v.
(** No rotation is due: there is none, or the segment has room. *)
Definition room self : Prop :=
  rotate_at_checkpoint (cfg self) = true ->
  forall s, spec = Ok s -> zlen (seg_bytes name es) + zlen (line_of s) < max_segment_bytes (cfg self).

(** The returned record is the entry, with all the envelopes that verified. *)
Definition returns_entry (s : Stored) (rec : LedgerRecord) : Prop :=
  lr_seq rec = zlen es + 1 /\ lr_capsule_id rec = s_id s /\ lr_capsule rec = s_capsule s /\
  lr_segment rec = s_segment s /\ lr_consequential rec = consequential /\ lr_authenticity rec = s_authenticity s.

(** The instance goes on as it was, its handle open on the segment. *)
Record same_instance self self' : Prop := {
  si_frame : frame name self self';
  si_attached : attached (mem self') = attached (mem self);
  si_handle : write_segment (mem self') = Some name;
  si_read_only : read_only_unmanaged (mem self') = read_only_unmanaged (mem self);
  si_faults : calm self (faults self')
}.

Definition stored_post self (rec : LedgerRecord) self' : Prop :=
  exists s, spec = Ok s /\ returns_entry s rec /\ represents m name (es ++ [s]) [] self' /\
            needs_recover (mem self') = false /\ (consequential = true -> all_durable name self') /\
            (lookup_complete es self -> lookup_complete (es ++ [s]) self') /\ same_instance self self'.

(** A refused append leaves the store as it was. *)
Definition unchanged_post self self' : Prop :=
  disk self' = disk self /\ represents m name es [] self' /\ needs_recover (mem self') = false /\
  cfg self' = cfg self /\ faults self' = faults self /\ attached (mem self') = attached (mem self) /\
  read_only_unmanaged (mem self') = read_only_unmanaged (mem self).

(** An entry's line, or a part of it, that no row names. *)
Definition unindexed self' : Prop :=
  exists s pend torn, spec = Ok s /\ (pend = [] \/ pend = [s]) /\ recoverable m name es pend torn self'.

Definition append_post self : post LedgerRecord := {|
  done := stored_post self;
  raises := fun r self' => spec = Raise (exn_of r) /\ unchanged_post self self'
                           \/ faults self <> [] /\ unindexed self' /\ needs_recover (mem self') = true;
  dies := fun self' => faults self <> [] /\
                       (unindexed self' \/ exists s, spec = Ok s /\ represents m name (es ++ [s]) [] self')
|}.

Lemma spec_appendable self s :
  represents m name es [] self -> storable -> spec = Ok s ->
  appendable name es s /\ s_consequential s = consequential /\
  submitted capsule admission = Ok (s_capsule s, JStr (s_id s), s_authenticity s).
Proof.
  intros H Hst. unfold append_spec. destruct (submitted capsule admission) as [[[v id] a]|] eqn:Hsub; [|done].
  destruct (id_conflict v id) as [[]|] eqn:Hconf; try done. destruct (bind_str (text_id id)) as [cid|] eqn:Hcid; [|done].
  assert (cid = text_id id) as -> by (unfold bind_str in Hcid; case_match; congruence).
  case_bool_decide as Hn; [done|]. destruct (_record_params _ _ _ _ _ _ _) as [p|] eqn:Hp; [|done].
  destruct (dumps_ascii v) as [t|] eqn:Ht; [|done]. intros [= <-]. cbn.
  destruct (submitted_ok _ _ _ _ _ t _ _ _ _ Hsub (Hst _ _ _ Hsub) Hconf Hp Ht) as [Hid Hok].
  split_and!; [|done|by rewrite <- Hid]. by apply (appendable_intro real_text m name es self).
Qed.

Lemma write_indexes_wp self0 self s resolution :
  represents m name es [] self -> write_segment (mem self) = Some name -> needs_recover (mem self) = false ->
  spec = Ok s -> storable -> authenticity resolution = s_authenticity s ->
  (faults self <> [] -> faults self0 <> []) -> lookup_index (mem self) = lookup_index (mem self0) -> frame name self0 self ->
  attached (mem self) = attached (mem self0) -> read_only_unmanaged (mem self) = read_only_unmanaged (mem self0) ->
  wp (let% seq :=
        catch (write_record real_text name (s_line s) (s_capsule s) (JStr (s_id s)) (s_offset s) consequential (authenticity resolution))
          (fun r => let% _ := update (set_mem (with_needs_recover true)) in
                    let% _ := _drop_write_handle in
                    throw r) in
      let% _ := _lookup_record real_text seq (s_capsule s) (s_id s) name (s_offset s) in
      let record := {| lr_seq := seq; lr_capsule_id := s_id s; lr_capsule := s_capsule s; lr_segment := name;
                       lr_consequential := consequential; lr_authenticity := authenticity resolution;
                       lr_envelopes := verified_envelopes resolution |} in
      ret record) (append_post self0) self.
Proof.
  intros H Hh Hn Hs Hst Ha Hcalm Hlk Hfr0 Hat0 Hro0. destruct (spec_appendable self s H Hst Hs) as (Happ & Hc & Hsub). rewrite Ha.
  pose proof (pd_segment _ _ _ _ _ Happ) as [Hseg _]%Forall_cons. pose proof (pd_ok _ _ _ _ _ Happ) as [Hok _]%Forall_cons.
  wp_step. wp_step. rewrite <- Hc. wp_call (write_record_wp real_text m name es s); [done|done|..].
  - intros seq self1 (-> & H1 & Hcfg & Hmem & Hdur & Hfr1 & Hcalm1). wp_step. rewrite <- Hseg.
    wp_call (lookup_only_wp real_text); [done| |done|].
    + intros b self2 [Hl Hcomp]. pose proof (represents_lookup real_text _ _ _ _ _ _ H1 Hl) as H2.
      pose proof (frame_lookup (s_segment s) _ _ Hl) as Hfr2. rewrite Hseg in Hfr2.
      destruct Hl as [Hcfg2 [l Hmem2] [db Hd2] Hcalm2]. wp_step. exists s. split_and!; try done.
      * by rewrite Hmem2, Hmem.
      * intros Hc'. rewrite <- Hc in Hc'. destruct (Hdur Hc') as (f & Hf & Hl). exists f. by rewrite Hd2.
      * intros Hc0. apply Hcomp; [done|]. unfold StoreSpec.lookup_complete in *. by rewrite Hmem, Hlk.
      * constructor; [|by rewrite Hmem2, Hmem..|intros Hne; by apply Hcalm, Hcalm1, Hcalm2].
        eapply frame_trans; [exact Hfr0|]. by eapply frame_trans.
    + intros self2 [Hf Hl]. split; [by apply Hcalm, Hcalm1|]. right. exists s. split; [done|]. by eapply represents_lookup.
  - intros e self1 (Hf & Hmem & n & H1). wp_step. wp_step. wp_step. unfold _drop_write_handle. wp_step. wp_step.
    right. split_and!; [by apply Hcalm| |done].
    destruct (partial_line real_text m name es s n self1 H1 Happ) as (pend & torn & Hr & Hpend).
    exists s, pend, torn. split_and!; [done|done|]. destruct Hr as [Hr Hpd Ht]. constructor; [|done|done].
    apply represents_mem; [apply represents_mem; [done|done|apply Hr]|done|left].
  - intros self1 [Hf [H1|[n H1]]]; (split; [by apply Hcalm|]); [right; by exists s|left].
    destruct (partial_line real_text m name es s n self1 H1 Happ) as (pend & torn & Hr & Hpend).
    by exists s, pend, torn.
Qed.

Lemma store_record_wp self :
  represents m name es [] self -> needs_recover (mem self) = false -> read_only_unmanaged (mem self) = false ->
  storable -> wp (store_record real_text capsule consequential admission) (append_post self) self.
Proof.
  intros H Hn Hro Hst.
  assert (forall r, spec = Raise (exn_of r) -> raises (append_post self) r self) as Hsame by (intros r E; left; by split_and!).
  unfold store_record. wp_step. unfold _refuse_read_only_unmanaged. wp_step. wp_step. rewrite Hro. wp_step. wp_step.
  apply wp_lift; [|intros e E; apply Hsame; unfold append_spec, submitted; by rewrite E]. intros request Hreq. wp_step.
  apply wp_lift; [|intros e E; apply Hsame; unfold append_spec, submitted; by rewrite Hreq, E]. intros resolution Hres. wp_step.
  apply wp_lift; [|intros e E; apply Hsame; unfold append_spec, submitted; by rewrite Hreq, Hres, E].
  intros [v id] Hsc. wp_step. wp_step. rewrite Hn.
  assert (submitted capsule admission = Ok (v, id, authenticity resolution)) as Hsub.
  { unfold submitted. by rewrite Hreq, Hres, Hsc. }
  clear Hreq Hres Hsc. assert (Hspec : spec = spec) by done. unfold append_spec at 2 in Hspec. rewrite Hsub in Hspec.
  wp_step. apply wp_lift; [|intros e E; apply Hsame; by rewrite Hspec, E].
  intros [] Hconf; rewrite Hconf in Hspec; [wp_step; by apply Hsame|].
  wp_step. unfold _record_row. wp_step. apply wp_lift; [|intros e E; apply Hsame; by rewrite Hspec, E].
  intros cid Hcid. rewrite Hcid in Hspec.
  assert (cid = text_id id) as -> by (unfold bind_str in Hcid; case_match; congruence).
  wp_step. wp_step. wp_step. pose proof (rp_rows _ _ _ _ _ _ H) as Hrows.
  destruct (find_row (disk self) (text_id id)) as [row|] eqn:Hf.
  { destruct (find_row_entry real_text es _ _ _ Hrows Hf) as (i & s & Hs & Hrow & Hsid).
    wp_step. eapply wp_runs; [by eapply existing_entry|]. wp_step. apply Hsame. rewrite Hspec, bool_decide_true; [done|].
    rewrite <- Hsid. by apply list_elem_of_fmap_2. }
  rewrite bool_decide_false in Hspec by by apply (find_row_ids real_text es (disk self)).
  pose proof (represents_handle real_text m name es [] self H) as H1.
  wp_step. eapply wp_runs; [by eapply sync_write_eq|]. wp_red.
  assert (forall r, spec = Raise (exn_of r) -> raises (append_post self) r (with_handle name self)) as Hsame1
    by (intros r E; left; by split_and!).
  wp_step. wp_step. wp_step. cbn [write_segment with_handle mem set_mem with_write_segment]. wp_step.
  rewrite (file_size_eq real_text m name es [] (with_handle name self) H1), zlen_nil, Z.add_0_r.
  wp_step. apply wp_lift; [|intros e E; apply Hsame1; by rewrite Hspec, E]. intros p Hp. rewrite Hp in Hspec.
  wp_step. apply wp_lift; [|intros e E; apply Hsame1; by rewrite Hspec, E]. intros t Ht. rewrite Ht in Hspec. wp_red.
  destruct (submitted_ok _ _ _ _ _ t _ _ _ _ Hsub (Hst _ _ _ Hsub) Hconf Hp Ht) as [Hid _]. rewrite Hid.
  by apply (write_indexes_wp self (with_handle name self) _ resolution H1 eq_refl Hn Hspec).
Qed.

(** With room in the segment there is no rotation. *)
Lemma append_wp self :
  represents m name es [] self -> needs_recover (mem self) = false -> read_only_unmanaged (mem self) = false ->
  storable -> room self -> wp (append real_text capsule consequential admission) (append_post self) self.
Proof.
  intros H Hn Hro Hst Hroom. unfold append. wp_step. wp_call store_record_wp; [done..| |done|done].
  intros rec self' Hp. pose proof Hp as (s & Hs & (_ & _ & _ & Hseg & _) & Hr & _ & _ & _ & Hsame).
  destruct (spec_appendable self s H Hst Hs) as (Happ & _). pose proof (pd_segment _ _ _ _ _ Happ) as [Hname _]%Forall_cons.
  wp_step. unfold rotate_if_due. wp_step. wp_step.
  assert (rotate_at_checkpoint (cfg self') && (max_segment_bytes (cfg self') <=? file_size self' (lr_segment rec)) = false) as ->.
  { rewrite (fr_cfg _ _ _ (si_frame _ _ Hsame)). destruct (rotate_at_checkpoint (cfg self)) eqn:Hrot; [|done].
    apply Z.leb_gt. rewrite Hseg, Hname, (file_size_eq real_text m name (es ++ [s]) [] self' Hr), zlen_nil.
    rewrite seg_bytes_app, seg_bytes_one, Hname, bool_decide_true, zlen_app by done.
    pose proof (Hroom Hrot _ Hs). lia. }
  wp_step. by wp_step.
Qed.

(** An instance that may not append refuses, with nothing changed. *)
Lemma append_refused self :
  read_only_unmanaged (mem self) = true \/ needs_recover (mem self) = true ->
  append real_text capsule consequential admission self =
  (self, Raised (Exn (if read_only_unmanaged (mem self) then SegmentRotationError
                      else match submitted capsule admission with Raise e => e | Ok _ => LedgerCorrupt end))).
Proof.
  intros H. unfold append, store_record, _refuse_read_only_unmanaged, submitted.
  generalize (match admission with Some r => Ok r | None => make_request UNSIGNED [] end). intros request. unfold bind, get.
  destruct (read_only_unmanaged (mem self)); [done|]. destruct H as [|H]; [done|]. cbn.
  destruct request as [request|e]; [|done]. cbn. destruct (resolve_admission capsule request) as [res|e]; [|done]. cbn.
  destruct (stored_capsule capsule res) as [[v id]|e]; [|done]. cbn. by rewrite H.
Qed.
End one.
End props.
