(* ===== verification/StoreRecover.v ===== *)
(** * Recovery of the ledger store

    [recover] indexes the complete lines the index lacks and cuts a torn one;
    when it is interrupted or fails, what is left is recovered by running it
    again. *)
From S2P Require Import Prelude Bytes Text Json JsonProps PyJson JsonBytes Sha256 Ed25519 Emit Admission Segments Lookup Store StoreLogic StoreSpec StoreAppend Jsonl JsonlProps.
Open Scope Z_scope.
Open Scope store_scope.

(** The package refuses what it cannot read with two kinds of error. *)
Class CapsuleErrors `{AgentActionCapsule} := {
  compute_errors : forall v e, compute_capsule_id v = Raise e -> value_or_type_error e = true;
  verify_errors : forall cid raw e, verify_producer_envelope cid raw = Raise e -> value_or_type_error e = true
}.

Section recover.
Context {PI : Interp} {HL : Hashlib} {AC : AgentActionCapsule} {CE : CapsuleErrors} {C : Type} {CK : Checkpointer C}.
Variable real_text : pystr -> option pystr.
Implicit Types self : LedgerStore C.
Import LedgerStore.
#[local] Abbreviation represents := (represents real_text).
#[local] Abbreviation stored_ok := (stored_ok real_text).
#[local] Abbreviation awaiting := (awaiting real_text).
#[local] Abbreviation recoverable := (recoverable real_text).

(** ** Entries as they are read back *)
Lemma fromhex_errors s e : fromhex s = Raise e -> e = ValueError.
Proof.
  induction s as [[|c s] IH] using (induction_ltof1 _ (@length Z)); unfold ltof in IH; cbn [fromhex]; [done|].
  destruct (is_space c); [apply IH; cbn; lia|]. destruct (hex_value c), s as [|d s]; try congruence.
  destruct (hex_value d); [|congruence]. intros H. apply (IH s); [cbn; lia|]. destruct (fromhex s); [done|congruence].
Qed.

Lemma fromhex_of_errors v e : fromhex_of v = Raise e -> value_or_type_error e = true.
Proof.
  unfold fromhex_of. destruct v as [| | | |s| |]; try (intros [= <-]; done).
  by intros ->%fromhex_errors.
Qed.

Lemma reindex_ok v : is_dict v = true -> exists a, _reindex_authenticity v = Ok a.
Proof.
  intros Hd. unfold _reindex_authenticity. destruct (get_or_dict v (str "signature") Hd) as [sig ->].
  destruct (get_or_dict v (str "key_id") Hd) as [kid ->]. destruct (negb _); [by eexists|].
  assert (exists b, false_on_error (let! cid := compute_capsule_id v in
            check_envelope cid {| envelope := sig; env_key_id := kid |}) = Ok b) as [b ->]; [|by destruct b; eexists].
  assert (forall r, (forall e, r = Raise e -> value_or_type_error e = true) -> exists b, false_on_error r = Ok b) as H.
  { intros [b|e] H; cbn; [by eexists|]. rewrite (H e eq_refl). by eexists. }
  apply H. intros e. destruct (compute_capsule_id v) as [cid|] eqn:Ec; [|intros [= <-]; by eapply compute_errors].
  unfold check_envelope. cbn [envelope env_key_id]. destruct (fromhex_of sig) as [raw|] eqn:Er; [|intros [= <-]; by eapply fromhex_of_errors].
  destruct (verify_producer_envelope cid raw) as [r|] eqn:Ev; [|intros [= <-]; by eapply verify_errors].
  destruct (er_ok r); [|done]. destruct (fromhex_of kid) as [key|] eqn:Ek; [done|].
  intros [= <-]; by eapply fromhex_of_errors.
Qed.

Definition reindexed (s : Stored) : Stored :=
  {| s_capsule := s_capsule s; s_id := s_id s; s_segment := s_segment s; s_offset := s_offset s; s_consequential := true;
     s_authenticity := match _reindex_authenticity (s_capsule s) with Ok a => a | Raise _ => [] end; s_line := s_line s |}.

Lemma params_any v cid seg off c a c' a' p :
  _record_params real_text v cid seg off c a = Ok p -> exists p', _record_params real_text v cid seg off c' a' = Ok p'.
Proof. unfold _record_params. intros H. repeat inv_step H. by eexists. Qed.

Lemma reindexed_ok s : stored_ok s -> stored_ok (reindexed s).
Proof.
  intros [Hw Hd Hl Hi Hn [r Hr]]. constructor; try done. unfold row_at, params_of in *. cbn.
  destruct (_record_params real_text _ _ _ _ (s_consequential s) _) as [p|] eqn:E; [|done].
  destruct (params_any _ _ _ _ _ _ true (s_authenticity (reindexed s)) _ E) as [p' Hp]. cbn in Hp. rewrite Hp. by eexists.
Qed.

Lemma reindexed_auth s : stored_ok s -> _reindex_authenticity (s_capsule s) = Ok (s_authenticity (reindexed s)).
Proof. intros Hs. cbn. by destruct (reindex_ok _ (so_dict _ _ Hs)) as [a ->]. Qed.

Lemma reindexed_ids es : map s_id (map reindexed es) = map s_id es.
Proof. by rewrite map_map. Qed.

Lemma reindexed_lines es : map line_of (map reindexed es) = map line_of es.
Proof. by rewrite map_map. Qed.

Lemma reindexed_segment name es : in_segment name (map reindexed es) = map reindexed (in_segment name es).
Proof.
  unfold in_segment. induction es as [|s es IH]; [done|]. cbn [map List.filter].
  change (s_segment (reindexed s)) with (s_segment s). case_bool_decide; cbn [map]; by rewrite IH.
Qed.

Lemma reindexed_bytes name es : seg_bytes name (map reindexed es) = seg_bytes name es.
Proof. unfold seg_bytes. by rewrite reindexed_segment, reindexed_lines. Qed.

Lemma reindexed_placed off es : placed off (map reindexed es) <-> placed off es.
Proof.
  revert off. induction es as [|s es IH]; intros off; [done|]. cbn [map placed].
  change (line_of (reindexed s)) with (line_of s). by rewrite IH.
Qed.

(** ** Where the tail begins *)
Lemma fold_max_spec o os x : x ∈ o :: os -> Forall (fun y => y <= x) (o :: os) -> fold_right Z.max o os = x.
Proof.
  intros Hx Hall. apply Z.le_antisymm.
  - clear Hx. apply Forall_cons in Hall as [Ho Hos]. induction Hos as [|y os Hy Hos IH]; cbn; lia.
  - clear Hall. induction os as [|y os IH]; cbn; [set_unfold; lia|].
    apply elem_of_cons in Hx as [->|[->|Hx]%elem_of_cons].
    + specialize (IH ltac:(left)). lia.
    + lia.
    + specialize (IH ltac:(by right)). lia.
Qed.

Lemma placed_bound off es s : placed off (es ++ [s]) -> Forall (fun y => off <= s_offset y <= s_offset s) (es ++ [s]).
Proof.
  revert off. induction es as [|x es IH]; intros off; cbn [app placed].
  - intros [Hs _]. constructor; [cbn; lia|constructor].
  - intros [Hx H]. pose proof (zlen_nonneg (line_of x)). specialize (IH _ H). constructor.
    + apply Forall_app in IH as [_ [Hs _]%Forall_cons]. cbn in *. lia.
    + eapply Forall_impl; [exact IH|]. cbn. lia.
Qed.

Lemma offsets_rows name es rs seq :
  rows_at real_text seq es = Ok rs ->
  map r_offset (List.filter (fun r => bool_decide (r_segment r = name)) rs) = map s_offset (in_segment name es).
Proof.
  intros H%rows_at_Forall2. unfold in_segment. induction H as [|s r es rs [i Hr] H IH]; [done|].
  apply row_fields in Hr as (_ & _ & Hs & Ho & _). cbn [List.filter]. rewrite Hs.
  case_bool_decide; [|done]. cbn [map]. by rewrite IH, Ho.
Qed.

Lemma tail_start_eq m name es tail self f :
  represents m name es tail self -> data f = seg_bytes name es ++ tail ->
  tail_start (disk self) name (data f) = Ok (zlen (seg_bytes name es)).
Proof.
  intros H Hd. unfold tail_start, last_offset. rewrite (offsets_rows name es _ _ (rp_rows _ _ _ _ _ _ H)).
  pose proof (rp_placed _ _ _ _ _ _ H name) as Hp. unfold seg_bytes in *.
  assert (Forall stored_ok (in_segment name es)) as Hok.
  { apply Forall_forall. intros s Hs. pose proof (rp_ok _ _ _ _ _ _ H) as Ha. rewrite Forall_forall in Ha. apply Ha.
    apply list_elem_of_In. by apply list_elem_of_In, List.filter_In in Hs as [Hs _]. }
  destruct (in_segment name es) as [|s es' _] using rev_ind; [done|].
  apply Forall_app in Hok as [_ [Hs _]%Forall_cons]. pose proof (placed_bound _ _ _ Hp) as Hb.
  apply placed_app in Hp as [_ [Ho _]]. rewrite Z.add_0_l in Ho.
  destruct (map s_offset (es' ++ [s])) as [|o os] eqn:E.
  { rewrite map_app in E. by destruct (map s_offset es'). }
  rewrite (fold_max_spec o os (s_offset s)).
  2: { rewrite <- E, map_app. apply elem_of_app. right. left. }
  2: { rewrite <- E. apply Forall_map. eapply Forall_impl; [exact Hb|]. cbn. lia. }
  rewrite map_app, concat_app in *. cbn [map concat] in *. rewrite app_nil_r in *.
  rewrite Hd, Ho, <- app_assoc. rewrite drop_zlen.
  pose proof (dumps_ascii_ascii _ _ (so_writable _ _ Hs) (so_line _ _ Hs)) as Ha.
  change (line_of s) with (LedgerStore.line_bytes (s_line s)).
  rewrite raw_line_line by done. rewrite line_bytes_eq, last_last. rewrite !zlen_app, bool_decide_true by done.
  change (zlen [Byte.x0a]) with 1. pose proof (zlen_nonneg (ascii_bytes (s_line s))). pose proof (zlen_nonneg tail).
  rw_bool (zlen (concat (map line_of es')) + (zlen (ascii_bytes (s_line s)) + 1 + zlen tail) <=? zlen (concat (map line_of es'))) false.
  cbn [orb negb]. done.
Qed.
End recover.

(** ** What [recover] does under any failure *)
Section recover.
Context {PI : Interp} {HL : Hashlib} {AC : AgentActionCapsule} {CE : CapsuleErrors} {C : Type} {CK : Checkpointer C}.
Variable real_text : pystr -> option pystr.
Implicit Types self : LedgerStore C.
Import LedgerStore.
#[local] Abbreviation represents := (represents real_text).
#[local] Abbreviation stored_ok := (stored_ok real_text).
#[local] Abbreviation awaiting := (awaiting real_text).
#[local] Abbreviation recoverable := (recoverable real_text).

(** ** The lookup index catches up *)
Lemma lookup_only_trans self1 self2 self3 : lookup_only self1 self2 -> lookup_only self2 self3 -> lookup_only self1 self3.
Proof.
  intros [Hc [l Hm] [db Hd] Hf] [Hc' [l' Hm'] [db' Hd'] Hf']. constructor; [by rewrite Hc'| | |].
  - exists l'. by rewrite Hm', Hm.
  - exists db'. by rewrite Hd', Hd.
  - intros Hn. by apply Hf, Hf'.
Qed.

Definition only_lookup {A} self : post A :=
  {| done := fun _ => lookup_only self; raises := fun _ _ => False;
     dies := fun self' => faults self <> [] /\ lookup_only self self' |}.

Lemma catch_up_rows_wp m name es tail rows self self' present added :
  represents m name es tail self' -> lookup_only self self' ->
  Forall (fun r => exists i s, s ∈ es /\ row_at real_text i s = Ok r) rows ->
  wp (catch_up_rows real_text rows present added) (only_lookup self) self'.
Proof.
  intros H Hl Hrows. revert self' H Hl added. induction Hrows as [|r rows (i & s & Hs & Hr) Hrows IH]; intros self' H Hl added;
    cbn [catch_up_rows]; [by wp_step|].
  case_bool_decide; [by apply IH|]. wp_step.
  assert (stored_ok s) as Hok.
  { pose proof (rp_ok _ _ _ _ _ _ H) as Ha. rewrite Forall_forall in Ha. by apply Ha. }
  apply (wp_runs _ (if is_unmounted self' (s_segment s) then None else Some (record_at i s)) _ _ self').
  { unfold indexed_record, catch, bind. rewrite (existing_entry real_text m name es tail self' i s r) by done.
    destruct (is_unmounted self' (s_segment s)); [done|]. cbn [record_at lr_capsule]. by rewrite (so_dict _ _ Hok). }
  wp_red. destruct (is_unmounted self' (s_segment s)); [by apply IH|]. wp_step. cbn [record_at lr_capsule].
  apply row_fields in Hr as (_ & -> & -> & -> & _).
  wp_call lookup_only_wp; [done| |done|].
  - intros b s' [Hs' _]. pose proof (lookup_only_trans _ _ _ Hl Hs') as Hl'. destruct b; [|by wp_step].
    apply IH; [by eapply represents_lookup|done].
  - intros s' [Hf Hs']. split; [by apply (lo_faults _ _ Hl)|]. by eapply lookup_only_trans.
Qed.

Lemma catch_up_wp m name es tail self :
  represents m name es tail self -> wp (_catch_up_lookup real_text) (only_lookup self) self.
Proof.
  intros H. unfold _catch_up_lookup. wp_step. wp_step. pose proof (lookup_only_refl self) as Hl.
  destruct (lookup_index (mem self)); [|by wp_step]. case_bool_decide; [by wp_step|].
  eapply catch_up_rows_wp; [done|done|]. apply Forall_forall. intros r Hr.
  eapply rows_entry; [apply H|done].
Qed.

(** ** Indexing the tail *)
Lemma parse_line_ok s : stored_ok s -> _parse_line (ascii_bytes (s_line s)) = Ok (s_capsule s).
Proof.
  intros [Hw Hd Hl Hi Hn _]. unfold _parse_line, corrupt_if. rewrite (loads_bytes_text _ _ Hw Hl), Hd, Hn. cbn [negb].
  unfold line_id in Hi. destruct (get_or _ _ JNull) as [given|]; [|done]. unfold given_or in Hi.
  destruct (truthy given); [done|]. by destruct (compute_capsule_id (s_capsule s)).
Qed.

Lemma pending_head name off ids s pend :
  awaiting name off ids (s :: pend) -> awaiting name off ids [s] /\
  awaiting name (off + zlen (line_of s)) (ids ++ [s_id s]) pend.
Proof.
  intros [[Hok Hoks]%Forall_cons [Hs Hss]%Forall_cons [Ho Hpl] Hn]. cbn [map] in Hn. split; constructor; try done.
  - by apply Forall_singleton.
  - by apply Forall_singleton.
  - cbn [map]. change (s_id s :: map s_id pend) with ([s_id s] ++ map s_id pend) in Hn. rewrite app_assoc in Hn.
    by apply NoDup_app in Hn as [? _].
  - by rewrite <- app_assoc.
Qed.

Lemma pending_reindexed name off ids pend : awaiting name off ids pend -> awaiting name off ids (map reindexed pend).
Proof.
  intros [Hok Hs Hp Hn]. constructor.
  - apply Forall_map. eapply Forall_impl; [exact Hok|]. intros s. apply reindexed_ok.
  - apply Forall_map. exact Hs.
  - by apply reindexed_placed.
  - by rewrite reindexed_ids.
Qed.

(** [n] sequence numbers from the first. *)
Fixpoint seqs_from (first : Z) (n : nat) : list Z :=
  match n with
  | O => []
  | S n => first :: seqs_from (first + 1) n
  end.

(** How far an interrupted recovery came. *)
Definition progress m name es pend torn self' : Prop :=
  exists d rest torn', pend = d ++ rest /\ (torn' = torn \/ rest = [] /\ torn' = []) /\
    recoverable m name (es ++ map reindexed d) rest torn' self'.

Definition same_flag self self' : Prop := needs_recover (mem self') = needs_recover (mem self).

Definition tail_post m name es pend torn self (indexed skipped : list Z) : post (list Z * list Z) := {|
  done := fun r self' => represents m name (es ++ map reindexed pend) torn self' /\ same_flag self self'
                         /\ calm self (faults self')
                         /\ r = (indexed ++ seqs_from (zlen es + 1) (length pend), skipped);
  raises := fun _ self' => faults self <> [] /\ progress m name es pend torn self' /\ same_flag self self';
  dies := fun self' => faults self <> [] /\ progress m name es pend torn self'
|}.

Lemma progress_cons m name es s pend torn self' :
  progress m name (es ++ [reindexed s]) pend torn self' -> progress m name es (s :: pend) torn self'.
Proof.
  intros (d & rest & torn' & -> & Ht & H). exists (s :: d), rest, torn'. split_and!; [done|done|].
  cbn [map]. by rewrite <- app_assoc in H.
Qed.

Lemma record_row_fresh m name es tail self cid :
  represents m name es tail self -> bind_str cid = Ok cid -> cid ∉ map s_id es -> _record_row cid self = (self, Done None).
Proof.
  intros H Hb Hn. unfold _record_row, bind, lift, ret, get. rewrite Hb.
  by rewrite (proj2 (find_row_ids real_text es (disk self) cid (rp_rows _ _ _ _ _ _ H)) Hn).
Qed.

Lemma index_tail_wp m name es pend torn self indexed skipped :
  recoverable m name es pend torn self ->
  wp (index_tail real_text name (map ascii_bytes (map s_line pend)) (zlen (seg_bytes name es)) indexed skipped)
     (tail_post m name es pend torn self indexed skipped) self.
Proof.
  revert es self indexed. induction pend as [|s pend IH]; intros es self indexed [H Hp Ht]; cbn [map index_tail].
  { wp_step. cbn [seqs_from map length]. split_and!; [by rewrite app_nil_r|done|by intros ?|by rewrite app_nil_r]. }
  cbn [map concat] in H. rewrite <- app_assoc in H.
  assert (forall fs, progress m name es (s :: pend) torn (with_faults fs self)) as Hfaults.
  { intros fs. exists [], (s :: pend), torn. rewrite app_nil_r. split_and!; [done|by left|].
    constructor; [cbn [map concat]; rewrite <- app_assoc; by apply represents_faults|done|done]. }
  destruct (pending_head _ _ _ _ _ Hp) as [Hs Hrest]. pose proof (pd_ok _ _ _ _ _ Hs) as [Hok _]%Forall_cons.
  pose proof (pd_segment _ _ _ _ _ Hs) as [Hseg _]%Forall_cons. subst name.
  pose proof (pending_reindexed _ _ _ _ Hs) as Hs'. cbn [map] in Hs'.
  wp_step. apply (wp_lift_ok _ (s_capsule s)); [by apply parse_line_ok|]. wp_step.
  apply (wp_lift_ok _ (JStr (s_id s))); [apply Hok|]. wp_red. cbn [text_id]. wp_step. wp_step.
  destruct (so_row _ _ Hok) as [r Hr]. unfold row_at, params_of in Hr.
  destruct (_record_params _ _ _ _ _ _ _) as [p|] eqn:E; [|done].
  destruct (params_inv _ _ _ _ _ _ _ _ E) as [Hb _]. apply param_str in Hb as [_ Hb].
  assert (s_id s ∉ map s_id es) as Hid.
  { destruct Hs as [_ _ _ Hn]. apply NoDup_app in Hn as (_ & Hn & _). intros Hi. apply (Hn _ Hi). left. }
  eapply wp_runs; [by eapply record_row_fresh|]. wp_red. wp_step. wp_step. wp_step.
  apply (wp_lift_ok _ (s_authenticity (reindexed s))); [by apply (reindexed_auth real_text)|]. wp_red.
  unfold _index_line. wp_step.
  change (s_capsule s) with (s_capsule (reindexed s)). change (JStr (s_id s)) with (JStr (s_id (reindexed s))).
  assert (s_offset (reindexed s) = zlen (seg_bytes (s_segment s) es)) as Hoff.
  { by destruct Hs as [_ _ [Ho _] _]. }
  rewrite <- Hoff. wp_call (insert_record_wp real_text m (s_segment s) es (reindexed s) (concat (map line_of pend) ++ torn)).
  { done. } { exact Hs'. }
  - intros sq self1 (-> & H1 & _ & Hmem & _ & Hc1). wp_step. cbn [text_id].
    assert (forall self2, represents m (s_segment s) (es ++ [reindexed s]) (concat (map line_of pend) ++ torn) self2 ->
      recoverable m (s_segment s) (es ++ [reindexed s]) pend torn self2) as Hrec.
    { intros self2 H2. constructor; [done| |done].
      rewrite seg_bytes_app, seg_bytes_one, bool_decide_true, zlen_app, map_app by done. exact Hrest. }
    wp_call (lookup_only_wp real_text _ (reindexed s)); [by apply reindexed_ok| |done|].
    + intros b self2 [Hl _]. wp_step. pose proof (represents_lookup real_text _ _ _ _ _ _ H1 Hl) as H2.
      assert (same_flag self self2) as Hfl by (destruct Hl as [_ [l Hm2] _ _]; unfold same_flag; by rewrite Hm2, Hmem).
      assert (calm self (faults self2)) as Hc2 by (intros Hn; by apply Hc1, (lo_faults _ _ Hl)).
      replace (s_offset (reindexed s) + zlen (ascii_bytes (s_line s)) + 1) with (zlen (seg_bytes (s_segment s) (es ++ [reindexed s]))).
      2: { rewrite Hoff, seg_bytes_app, seg_bytes_one, bool_decide_true, zlen_app by done.
           change (line_of (reindexed s)) with (line_bytes (s_line s)). rewrite line_bytes_eq, zlen_app. change (zlen [Byte.x0a]) with 1. lia. }
      wp_call (IH (es ++ [reindexed s])); [by apply Hrec|..].
      * intros [ix sk] self3 (H3 & Hfl3 & Hc3 & [= -> ->]). cbn [map length seqs_from]. rewrite <- app_assoc in H3.
        split_and!; [done|by unfold same_flag in *; congruence|intros Hn; by apply Hc2, Hc3|].
        rewrite <- app_assoc, zlen_app. cbn [app]. replace (zlen es + zlen [reindexed s] + 1) with (zlen es + 1 + 1) by (rewrite zlen_cons, zlen_nil; lia). done.
      * intros e self3 (Hn & H3 & Hfl3). split_and!; [by apply Hc2|by apply progress_cons|unfold same_flag in *; congruence].
      * intros self3 [Hn H3]. split; [by apply Hc2|by apply progress_cons].
    + intros self2 [Hn Hl]. split; [by apply Hc1|]. apply progress_cons. exists [], pend, torn. rewrite app_nil_r.
      split_and!; [done|by left|]. apply Hrec. by eapply represents_lookup.
  - intros e self1 (Hn & -> & fs & ->). cbn [index_failed]. wp_step. split_and!; [done|apply Hfaults|done].
  - intros self1 [Hn [H1|[fs ->]]]; (split; [done|]); [|by apply Hfaults]. apply progress_cons. exists [], pend, torn. rewrite app_nil_r.
    split_and!; [done|by left|]. constructor; [done| |done].
    rewrite seg_bytes_app, seg_bytes_one, bool_decide_true, zlen_app, map_app by done. exact Hrest.
Qed.

(** ** The whole of [recover] *)
Section run.
Context (m : StoreManifest) (name : pystr) (es pend : list Stored) (torn : bytes).
#[local] Abbreviation es' := (es ++ map reindexed pend).
#[local] Abbreviation progress := (progress m name es pend torn).

Definition recover_post self : post RecoveryReport := {|
  done := fun report self' =>
    represents m name es' [] self' /\ needs_recover (mem self') = false /\
    truncated_bytes report = zlen torn /\ indexed_seqs report = seqs_from (zlen es + 1) (length pend) /\
    skipped_offsets report = [];
  raises := fun _ self' => faults self <> [] /\ progress self' /\ needs_recover (mem self') = true;
  dies := fun self' => faults self <> [] /\ progress self'
|}.

Lemma progress_start self : recoverable m name es pend torn self -> progress self.
Proof. intros H. exists [], pend, torn. rewrite app_nil_r. split_and!; [done|by left|done]. Qed.

Lemma progress_end self torn' :
  represents m name es' torn' self -> torn' = torn \/ torn' = [] -> Byte.x0a ∉ torn -> progress self.
Proof.
  intros H Ht Hn. exists pend, [], torn'. rewrite app_nil_r. split_and!; [done|naive_solver|].
  constructor; [done| |].
  - constructor; try constructor. rewrite app_nil_r. apply H.
  - destruct Ht as [->| ->]; [done|apply not_elem_of_nil].
Qed.

Lemma pending_bytes ps : Forall (fun s => s_segment s = name) ps -> seg_bytes name ps = concat (map line_of ps).
Proof.
  unfold seg_bytes, in_segment. intros H. do 2 f_equal. induction H as [|s ps Hs H IH]; [done|]. cbn [List.filter].
  by rewrite bool_decide_true, IH.
Qed.

(** Cutting the torn line. *)
Lemma cut_torn_wp self n :
  represents m name es' torn self -> Byte.x0a ∉ torn -> n = zlen (seg_bytes name es') ->
  needs_recover (mem self) = true ->
  wp (match torn with [] => ret () | _ => let% _ := truncate_file name n in sync_file name end)
    {| done := fun _ self' => represents m name es' [] self' /\ needs_recover (mem self') = true;
       raises := fun _ self' => faults self <> [] /\ progress self' /\ needs_recover (mem self') = true;
       dies := fun self' => faults self <> [] /\ progress self' |} self.
Proof.
  intros H Hn -> Hf. destruct (decide (torn = [])) as [E|E]; [rewrite E in H |- *; by wp_step|].
  assert (forall A (x y : A), match torn with [] => x | _ => y end = y) as Hm by (intros A x y; by destruct torn).
  rewrite Hm. wp_step. unfold truncate_file, sync_file.
  assert (forall fs, represents m name es' [] (on_file name (cut (Z.to_nat (zlen (seg_bytes name es')))) (with_faults fs self))) as H2.
  { intros fs. pose proof (represents_cut real_text es' [] torn _ (represents_faults real_text _ _ fs _ H)) as H2. unfold zlen.
    rewrite Nat2Z.id. cbn [length] in H2. by rewrite Nat.add_0_r in H2. }
  assert (forall self', represents m name es' torn self' -> progress self') as Ht by (intros self' H'; apply (progress_end self' torn H'); auto).
  assert (forall self', represents m name es' [] self' -> progress self') as Hd by (intros self' H'; apply (progress_end self' [] H'); auto).
  apply wp_atomic; intros fs Hfs; wp_red.
  - apply wp_atomic; intros fs' Hfs'; wp_red; pose proof (represents_faults real_text _ _ fs' _ (H2 fs)) as H3;
      pose proof (represents_synced real_text _ _ _ H3) as H4; [done|]. cbn in Hfs'. apply Hfs in Hfs'.
    split_and!; auto.
  - pose proof (represents_faults real_text _ _ fs _ H) as H1. split_and!; auto.
Qed.

(** The part of [recover] after it has read the tail. *)
Definition recover_tail (start : Z) (tail : bytes) : M C RecoveryReport :=
  let% _ := match tail with [] => ret () | _ => sync_file name end in
  let% lookup_seqs := _catch_up_lookup real_text in
  let '(lines, torn) := split_lines tail in
  let% (indexed, skipped) := index_tail real_text name lines start [] [] in
  let% _ := match torn with
            | [] => ret ()
            | _ => let% _ := truncate_file name (start + zlen tail - zlen torn) in sync_file name
            end in
  let% _ := _sync_write_segment in
  let% _ := update (set_mem (with_needs_recover false)) in
  ret {| truncated_bytes := zlen torn; indexed_seqs := indexed; skipped_offsets := skipped; lookup_seqs := lookup_seqs |}.

Lemma sync_tail_wp self (tail bs : bytes) :
  represents m name es bs self -> needs_recover (mem self) = true ->
  wp (match tail with [] => ret () | _ => sync_file name end)
    {| done := fun _ self' => represents m name es bs self' /\ needs_recover (mem self') = true /\ calm self (faults self');
       raises := fun _ self' => faults self <> [] /\ represents m name es bs self' /\ needs_recover (mem self') = true;
       dies := fun self' => faults self <> [] /\ represents m name es bs self' |} self.
Proof.
  intros H Hf. destruct tail as [|b tail]; [wp_step; by split_and!; [..|intros ?]|]. unfold sync_file. apply wp_atomic; intros fs Hfs; wp_red;
    pose proof (represents_faults real_text _ _ fs _ H) as H1; pose proof (represents_synced real_text _ _ _ H1) as H2;
    split_and!; done || exact Hfs.
Qed.

Lemma recover_tail_wp self :
  recoverable m name es pend torn self -> needs_recover (mem self) = true ->
  wp (recover_tail (zlen (seg_bytes name es)) (concat (map line_of pend) ++ torn)) (recover_post self) self.
Proof.
  intros [H Hp Ht] Hf. set (bs := concat (map line_of pend) ++ torn) in *.
  assert (forall self', represents m name es bs self' -> progress self') as Hsame.
  { intros self' H'. by apply progress_start. }
  unfold recover_tail. wp_step. wp_call (sync_tail_wp self bs bs H Hf); [|naive_solver|naive_solver].
  intros _ self1 (H1 & Hf1 & Hc1). wp_step. wp_call (catch_up_wp m name es bs self1 H1); [|done|].
  2: { intros self2 [Hn Hl]. split; [by apply Hc1|]. apply Hsame. by eapply represents_lookup. }
  intros lookups self2 Hl. pose proof (represents_lookup real_text _ _ _ _ _ _ H1 Hl) as H2.
  assert (needs_recover (mem self2) = true) as Hf2 by (destruct Hl as [_ [l ->] _ _]; done).
  assert (calm self (faults self2)) as Hc2 by (intros Hn; by apply Hc1, (lo_faults _ _ Hl)). clear Hl H H1 Hc1 Hf Hf1 self1.
  assert (split_lines bs = (map ascii_bytes (map s_line pend), torn)) as Hsplit.
  { unfold bs, line_of. rewrite <- (map_map s_line). apply split_lines_texts; [|done]. apply Forall_map.
    eapply Forall_impl; [exact (pd_ok _ _ _ _ _ Hp)|]. intros s [Hw _ Hl _ _ _]. by eapply dumps_ascii_ascii. }
  rewrite Hsplit. wp_step. wp_call (index_tail_wp m name es pend torn self2 [] []); [by constructor|..].
  - intros r self3 (H3 & Hf3 & Hc3 & ->). cbn [app]. unfold same_flag in Hf3. rewrite Hf2 in Hf3. wp_step.
    wp_call (cut_torn_wp self3 (zlen (seg_bytes name es) + zlen bs - zlen torn) H3 Ht).
    { rewrite seg_bytes_app, reindexed_bytes. unfold bs. rewrite !zlen_app. rewrite (pending_bytes pend); [lia|apply Hp]. }
    { done. }
    + intros _ self4 [H4 Hf4]. wp_step. eapply wp_runs; [by eapply sync_write_eq|]. wp_step. wp_step. wp_step.
      split_and!; try done. apply represents_mem; [by apply represents_handle|done|right; left].
    + intros e self4 (Hn & H4). split; [by apply Hc2, Hc3|done].
    + intros self4 (Hn & H4). split; [by apply Hc2, Hc3|done].
  - intros e self3 (Hn & H3 & Hf3). unfold same_flag in Hf3. split_and!; [by apply Hc2|done|congruence].
  - intros self3 [Hn H3]. split; [by apply Hc2|done].
Qed.

Lemma recover_wp self :
  recoverable m name es pend torn self -> wp (recover real_text) (recover_post self) self.
Proof.
  intros [H Hp Ht]. unfold recover. wp_step. wp_step. rewrite (rp_managed _ _ _ _ _ _ H). cbn [negb]. wp_step. wp_step.
  set (self1 := set_mem (with_needs_recover true) self).
  assert (represents m name es (concat (map line_of pend) ++ torn) self1) as H1.
  { apply represents_mem; [done|done|apply H]. }
  wp_step. eapply wp_runs; [by eapply sync_write_eq|]. wp_red. pose proof (represents_handle real_text _ _ _ _ _ H1) as H2.
  wp_step. wp_step. wp_step. cbn [write_segment with_handle mem set_mem with_write_segment]. wp_step. wp_step.
  unfold _drop_write_handle. wp_step.
  set (self3 := set_mem (with_write_segment None) (with_handle name self1)).
  assert (represents m name es (concat (map line_of pend) ++ torn) self3) as H3.
  { apply represents_mem; [done|done|left]. }
  destruct (represents_active real_text _ _ _ H3) as (f & Hf & Hd).
  change (disk (with_handle name self1)) with (disk self3).
  wp_step. rewrite Hf. wp_step. wp_step. rewrite (tail_start_eq real_text m name es _ self3 f H3 Hd).
  apply (wp_lift_ok _ (zlen (seg_bytes name es))); [done|]. wp_red.
  rewrite Hd, drop_zlen.
  assert (needs_recover (mem self3) = true /\ faults self3 = faults self) as [Hfl Hfs] by done. clearbody self3. clear self1 H1 H2 f Hf Hd H.
  change (wp (recover_tail (zlen (seg_bytes name es)) (concat (map line_of pend) ++ torn)) (recover_post self) self3).
  assert (recover_post self = recover_post self3) as -> by (unfold recover_post; by rewrite Hfs).
  by apply recover_tail_wp.
Qed.
End run.
End recover.
