(* ===== verification/StoreReindex.v ===== *)
(** * Rebuilding the records index

    [reindex] reads every segment and gives the rows that the appends had
    given, but for what a line does not carry. *)
From S2P Require Import Prelude Bytes Text Json JsonProps PyJson JsonBytes Sha256 Ed25519 Emit Admission Segments Lookup Store StoreLogic StoreSpec StoreAppend StoreRecover.
From S2P Require Import Jsonl JsonlProps.
Open Scope Z_scope.
Open Scope store_scope.

Section reindex.
Context {PI : Interp} {HL : Hashlib} {AC : AgentActionCapsule} {CE : CapsuleErrors} {C : Type} {CK : Checkpointer C}.
Variable real_text : pystr -> option pystr.
Implicit Types self : LedgerStore C.
Import LedgerStore.
#[local] Abbreviation represents := (represents real_text).
#[local] Abbreviation stored_ok := (stored_ok real_text).

(** ** The leaves of the segments *)
Definition leaf_of (s : Stored) : Leaf :=
  {| leaf_segment := s_segment s; leaf_offset := s_offset s; leaf_record := s_capsule s; leaf_id := JStr (s_id s) |}.

Definition json_ids (es : list Stored) : list json := map (fun s => JStr (s_id s)) es.

Lemma seen_false cid es : cid ∉ map s_id es -> existsb (json_eq (JStr cid)) (json_ids es) = false.
Proof.
  intros Hn. apply not_true_iff_false. rewrite existsb_exists. intros (x & Hx & He).
  apply in_map_iff in Hx as (s & <- & Hs). cbn in He. apply bool_decide_eq_true in He as ->.
  apply Hn, list_elem_of_fmap_2. by apply list_elem_of_In.
Qed.

Lemma leaves_of_lines name es old off :
  Forall stored_ok es -> Forall (fun s => s_segment s = name) es -> placed off es ->
  NoDup (map s_id (old ++ es)) ->
  leaves_of name (map line_of es) off (json_ids old) = (map leaf_of es, json_ids (old ++ es), Ok ()).
Proof.
  intros Hok. revert old off. induction Hok as [|s es Hs Hok IH]; intros old off Hseg Hp Hn; cbn [map leaves_of].
  { by rewrite app_nil_r. }
  apply Forall_cons in Hseg as [Hname Hseg]. destruct Hp as [Ho Hp]. unfold line_of at 1.
  rewrite (loads_bytes_line _ _ (so_writable _ _ Hs) (so_line _ _ Hs)), (so_id _ _ Hs). cbn [hashable].
  assert (s_id s ∉ map s_id old) as Hid.
  { rewrite map_app in Hn. apply NoDup_app in Hn as (_ & Hn & _). intros Hi. apply (Hn _ Hi). left. }
  rewrite seen_false by done. change (json_ids old ++ [JStr (s_id s)]) with (json_ids old ++ json_ids [s]).
  assert (json_ids old ++ json_ids [s] = json_ids (old ++ [s])) as -> by (unfold json_ids; by rewrite map_app).
  change (s :: es) with ([s] ++ es) in Hn |- *. rewrite app_assoc in Hn |- *.
  change (zlen (LedgerStore.line_bytes (s_line s))) with (zlen (line_of s)). rewrite IH by done. unfold leaf_of at 2.
  by rewrite Hname, Ho.
Qed.

Lemma in_segment_all name es : Forall (fun s => s_segment s = name) (in_segment name es).
Proof.
  apply Forall_forall. intros s Hs. apply list_elem_of_In, List.filter_In in Hs as [_ Hs]. by apply bool_decide_eq_true in Hs.
Qed.

Lemma in_segment_ok name es : Forall stored_ok es -> Forall stored_ok (in_segment name es).
Proof.
  rewrite !Forall_forall. intros H s Hs. apply H. apply list_elem_of_In. by apply list_elem_of_In, List.filter_In in Hs as [Hs _].
Qed.

Lemma file_lines_bytes name es : Forall stored_ok es -> file_lines (seg_bytes name es) = map line_of (in_segment name es).
Proof.
  intros H%(in_segment_ok name). unfold file_lines, seg_bytes, line_of. rewrite <- (map_map s_line), <- (app_nil_r (concat _)).
  rewrite split_lines_texts; [|apply Forall_map|apply not_elem_of_nil].
  - rewrite app_nil_r, map_map. apply map_ext. intros t. by rewrite line_bytes_eq.
  - eapply Forall_impl; [exact H|]. intros s [Hw _ Hl _ _ _]. by eapply dumps_ascii_ascii.
Qed.

Lemma leaves_segments m name es self names old :
  represents m name es [] self -> Forall (fun n => n ∈ name :: map s_segment es) names ->
  NoDup (map s_id (old ++ concat (map (fun n => in_segment n es) names))) ->
  _leaves self names (json_ids old) = (map leaf_of (concat (map (fun n => in_segment n es) names)), Ok ()).
Proof.
  intros H Hns. revert old. induction Hns as [|n names Hn Hns IH]; intros old Hnd; cbn [_leaves map concat]; [done|].
  destruct (rp_files _ _ _ _ _ _ H n Hn) as (f & -> & Hd).
  assert (data f = seg_bytes n es) as -> by (rewrite Hd; case_bool_decide; by rewrite app_nil_r).
  cbn [map concat] in Hnd. rewrite app_assoc in Hnd.
  rewrite file_lines_bytes, (leaves_of_lines n (in_segment n es) old 0).
  - rewrite IH by done. by rewrite map_app.
  - by apply in_segment_ok, H.
  - apply in_segment_all.
  - apply H.
  - rewrite map_app in Hnd. by apply NoDup_app in Hnd as [? _].
  - apply H.
Qed.

(** ** Their rows *)
Lemma insert_leaves_rows es1 es2 rows :
  rows_at real_text 1 es1 = Ok rows -> Forall stored_ok es2 -> NoDup (map s_id (es1 ++ es2)) ->
  exists rows', _insert_leaves real_text rows (map leaf_of es2) = Ok rows' /\ rows_at real_text 1 (es1 ++ map reindexed es2) = Ok rows'.
Proof.
  intros H Hok. revert es1 rows H. induction Hok as [|s es2 Hs Hok IH]; intros es1 rows H Hn; cbn [map _insert_leaves].
  { exists rows. by rewrite app_nil_r. }
  cbn [leaf_of leaf_record leaf_id leaf_segment leaf_offset]. rewrite (reindexed_auth real_text _ Hs).
  pose proof (reindexed_ok real_text s Hs) as [_ _ _ _ _ [r Hr]]. unfold row_at, params_of in Hr. cbn in Hr.
  cbn [s_authenticity reindexed]. destruct (_record_params _ _ _ _ _ _ _) as [p|] eqn:E; [|done].
  assert (s_id s ∉ map s_id es1) as Hid.
  { rewrite map_app in Hn. apply NoDup_app in Hn as (_ & Hn & _). intros Hi. apply (Hn _ Hi). left. }
  destruct (params_inv _ _ _ _ _ _ _ _ E) as [Hp _]. apply param_str in Hp as [Hp _].
  rewrite (insert_row_fresh real_text es1 rows p (s_id s)) by done.
  destruct (IH (es1 ++ [reindexed s]) (rows ++ [p.2 (zlen es1 + 1) (s_id s)])) as (rows' & Hi & Hr').
  - rewrite rows_at_app, H. cbn [rows_at]. unfold row_at, params_of. cbn. rewrite E. by rewrite (Z.add_comm 1).
  - rewrite <- app_assoc, !map_app in *. cbn in *. done.
  - exists rows'. split; [done|]. by rewrite <- app_assoc in Hr'.
Qed.

(** ** Reading a state whose rows were rebuilt *)
Lemma represents_reindexed m name es self rows :
  represents m name es [] self -> rows_at real_text 1 (map reindexed es) = Ok rows ->
  represents m name (map reindexed es) [] (set_disk (with_records rows) self).
Proof.
  intros H Hr. pose proof (rp_ok _ _ _ _ _ _ H) as Hok. pose proof (rp_files _ _ _ _ _ _ H) as Hfiles.
  destruct H. constructor; try done.
  - by rewrite reindexed_ids.
  - apply Forall_map. eapply Forall_impl; [exact Hok|]. intros s. apply reindexed_ok.
  - intros seg Hs. assert (map s_segment (map reindexed es) = map s_segment es) as E by by rewrite map_map.
    rewrite E in Hs. destruct (Hfiles seg Hs) as (f & Hf & Hd). exists f. by rewrite reindexed_bytes.
  - intros seg. rewrite reindexed_segment. by apply reindexed_placed.
Qed.

(** Syncing any segment that is in its place. *)
Lemma represents_sync_any m name es tail self seg :
  represents m name es tail self -> is_unmounted self seg = false -> represents m name es tail (on_file seg synced self).
Proof.
  intros H Hm. pose proof (rp_files _ _ _ _ _ _ H) as Hfiles. destruct H. constructor; try done.
  intros seg' Hs. destruct (Hfiles seg' Hs) as (f & Hf & Hd).
  change (on_file seg synced self) with (set_disk (fun d => with_segments (partial_alter (fmap synced) seg (segments d)) d) self).
  rewrite (segment_file_update seg) by done.
  destruct (decide (seg' = seg)) as [->|E]; [rewrite bool_decide_true by done|rewrite bool_decide_false by done; by exists f].
  unfold segment_file in Hf. rewrite Hm in Hf. rewrite Hf. by eexists.
Qed.

Lemma sync_existing_wp m name es names self self0 :
  represents m name es [] self -> calm self0 (faults self) ->
  wp (sync_existing names)
    {| done := fun _ self' => represents m name es [] self' /\ calm self0 (faults self') /\ mem self' = mem self /\ cfg self' = cfg self;
       raises := fun _ self' => faults self0 <> [] /\ represents m name es [] self';
       dies := fun self' => faults self0 <> [] /\ represents m name es [] self' |} self.
Proof.
  intros H Hc. revert self H Hc. induction names as [|n names IH]; intros self H Hc; cbn [sync_existing]; [by wp_step|].
  assert (forall self1, represents m name es [] self1 -> calm self0 (faults self1) -> mem self1 = mem self -> cfg self1 = cfg self ->
    wp (sync_existing names)
    {| done := fun _ self' => represents m name es [] self' /\ calm self0 (faults self') /\ mem self' = mem self /\ cfg self' = cfg self;
       raises := fun _ self' => faults self0 <> [] /\ represents m name es [] self';
       dies := fun self' => faults self0 <> [] /\ represents m name es [] self' |} self1) as Hnext.
  { intros self1 H1 Hc1 Hm1 Hg1. wp_call (IH self1 H1 Hc1); [|done|done]. rewrite Hm1, Hg1. done. }
  wp_step. wp_step. wp_step. destruct (segment_file self n); [|wp_step; by apply Hnext].
  destruct (is_unmounted self n) eqn:Hm; unfold sync_file; apply wp_atomic; intros fs Hfs; wp_red;
    pose proof (represents_faults real_text _ _ fs _ H) as H1.
  - apply Hnext; [done| |done|done]. intros Hn. by apply Hc, Hfs.
  - apply Hc in Hfs. done.
  - apply Hnext; [by apply represents_sync_any| |done|done]. intros Hn. by apply Hc, Hfs.
  - apply Hc in Hfs. split_and!; try done. by apply represents_sync_any.
Qed.

(** ** The whole of [reindex] *)

(** The segments of the manifest hold the entries in order. *)
Definition in_order (m : StoreManifest) (name : pystr) (es : list Stored) (names : list pystr) : Prop :=
  map_result (fun e => match se_name e with JStr s => Ok s | _ => Raise TypeError end) (st_segments m) = Ok names /\
  Forall (fun n => n ∈ name :: map s_segment es) names /\ concat (map (fun n => in_segment n es) names) = es.

Lemma reindex_wp m name es names self :
  represents m name es [] self -> in_order m name es names -> read_only_unmanaged (mem self) = false ->
  wp (reindex real_text)
    {| done := fun _ self' => represents m name (map reindexed es) [] self' /\ needs_recover (mem self') = false;
       raises := fun _ self' => faults self <> [] /\ represents m name es [] self';
       dies := fun self' => faults self <> [] /\ (represents m name es [] self' \/ represents m name (map reindexed es) [] self') |} self.
Proof.
  intros H (Hns & Hin & Hcat) Hro. unfold reindex, _refuse_read_only_unmanaged. wp_step. wp_step. wp_step. rewrite Hro. wp_step.
  wp_step. wp_step. wp_step. apply (wp_lift_ok _ names).
  { unfold all_segments. by rewrite (rp_managed _ _ _ _ _ _ H), (rp_manifest _ _ _ _ _ _ H). }
  wp_step. unfold _drop_write_handle. wp_step. set (self1 := set_mem (with_write_segment None) self).
  assert (represents m name es [] self1) as H1 by (apply represents_mem; [done|done|left]).
  wp_step. wp_call (sync_existing_wp m name es names self1 self H1); [by intros ?| |done|naive_solver].
  intros _ self2 (H2 & Hc2 & Hm2 & Hg2). wp_step. wp_step.
  assert (NoDup (map s_id ([] ++ concat (map (fun n => in_segment n es) names)))) as Hnd by (cbn [app]; rewrite Hcat; apply H).
  pose proof (leaves_segments m name es self2 names [] H2 Hin Hnd) as Hl. change (json_ids []) with (@nil json) in Hl.
  rewrite Hl, Hcat. clear Hl.
  destruct (insert_leaves_rows [] es []) as (rows & Hi & Hr); [done|apply H|apply H|].
  wp_step. apply (wp_lift_ok _ rows); [by rewrite Hi|]. wp_step.
  pose proof (fun fs => represents_reindexed m name es _ rows (represents_faults real_text _ _ fs _ H2) Hr) as H3.
  apply wp_atomic; intros fs Hfs; wp_red.
  - wp_step. split; [|done]. apply represents_mem; [apply H3|done|apply H2].
  - apply Hc2 in Hfs. split_and!; try done; [by apply represents_faults|left; by apply represents_faults|right; apply H3].
Qed.

(** ** Rebuilding the lookup index *)
Lemma lookup_inputs_of es seq :
  Forall stored_ok es -> exists inputs, lookup_inputs (map leaf_of es) seq = Ok inputs /\
    Forall2 (fun i (sq : Z * Stored) => in_seq i = sq.1 /\ in_digest i = JStr (s_id sq.2) /\ Lookup.in_segment i = s_segment sq.2 /\
               in_offset i = s_offset sq.2 /\ in_capsule i = s_capsule sq.2 /\
               get_or (s_capsule sq.2) (str "timestamp") JNull = Ok (in_ts i))
            inputs (zip (seqs_from seq (length es)) es).
Proof.
  intros Hok. revert seq. induction Hok as [|s es Hs Hok IH]; intros seq; cbn [map lookup_inputs length seqs_from zip];
    [exists []; by split; [|constructor]|].
  destruct (get_or_dict (s_capsule s) (str "timestamp") (so_dict _ _ Hs)) as [ts Hts].
  cbn [leaf_of leaf_record leaf_id leaf_segment leaf_offset]. rewrite Hts. destruct (IH (seq + 1)) as (inputs & -> & Hin).
  eexists. split; [done|]. constructor; [|exact Hin]. by split_and!.
Qed.

Lemma rebuild_rows_spec fields es2 inputs es1 db :
  Forall stored_ok es2 -> lookup_of real_text fields es1 = Ok db ->
  Forall2 (fun i (sq : Z * Stored) => in_seq i = sq.1 /\ in_digest i = JStr (s_id sq.2) /\ Lookup.in_segment i = s_segment sq.2 /\
             in_offset i = s_offset sq.2 /\ in_capsule i = s_capsule sq.2 /\
             get_or (s_capsule sq.2) (str "timestamp") JNull = Ok (in_ts i))
          inputs (zip (seqs_from (zlen es1 + 1) (length es2)) es2) ->
  exists db', LookupIndex.rebuild_rows real_text db fields inputs = (db', Ok ()) /\ lookup_of real_text fields (es1 ++ es2) = Ok db'.
Proof.
  intros Hok. revert es1 db inputs. induction Hok as [|s es2 Hs Hok IH]; intros es1 db inputs Hdb; cbn [length seqs_from zip].
  { intros H. inversion H. exists db. by rewrite app_nil_r. }
  intros H. inversion H as [|i ? inputs' ? (Hseq & Hd & Hseg & Hoff & Hv & Hts) Hin]; subst. cbn [fst snd] in *.
  destruct (lookup_row_ok real_text (zlen es1 + 1) s Hs) as [row Hrow]. pose proof (lookup_row_seq real_text _ _ _ Hrow) as Hrs.
  cbn [LookupIndex.rebuild_rows]. unfold lookup_row_of in Hrow. rewrite Hts in Hrow. rewrite Hseq, Hd, Hseg, Hoff, Hrow, Hv.
  pose proof Hdb as Hdb'. unfold lookup_of in Hdb'. destruct (lookup_rows_at real_text 1 es1) as [rs|] eqn:Hr1; [|done]. injection Hdb' as <-.
  pose proof (lookup_rows_bound real_text _ _ _ Hr1) as Hb. cbn [lk_records lk_correlations].
  assert (existsb (fun r => lk_seq r =? lk_seq row) rs = false) as ->.
  { apply not_true_iff_false. rewrite existsb_exists. intros (r & Hr & He%Z.eqb_eq). rewrite Forall_forall in Hb.
    specialize (Hb r ltac:(by apply list_elem_of_In)). lia. }
  rewrite put_row_last by (eapply Forall_impl; [exact Hb|]; cbn; lia).
  rewrite insert_ids_text by apply correlation_ids_text, (so_writable _ _ Hs). cbn [lk_records lk_correlations].
  change (s :: es2) with ([s] ++ es2). rewrite app_assoc. apply IH.
  - unfold lookup_of. rewrite lookup_rows_app, correlations_app, Hr1, (Z.add_comm 1). cbn [lookup_rows_at correlations_at].
    unfold lookup_row_of. rewrite Hts, Hrow. by rewrite app_nil_r.
  - rewrite zlen_app. change (zlen [s]) with 1. exact Hin.
Qed.

(** The index a rebuilding commits. *)
Definition rebuilt fields es self' : Prop :=
  exists li, lookup_index (mem self') = Some li /\ li_fields li = fields /\
    lookup_of real_text fields es = Ok (li_view li) /\ li_committed li = li_view li /\ lookup_file (disk self') = li_view li.

Lemma rebuild_wp m name es names self :
  represents m name es [] self -> in_order m name es names -> read_only_unmanaged (mem self) = false ->
  wp (rebuild_lookup_index real_text)
    {| done := fun _ self' => represents m name es [] self' /\ rebuilt (correlation_fields (mem self)) es self';
       raises := fun _ self' => faults self <> [] /\ represents m name es [] self';
       dies := fun self' => faults self <> [] /\ represents m name es [] self' |} self.
Proof.
  intros H (Hns & Hin & Hcat) Hro. unfold rebuild_lookup_index, _refuse_read_only_unmanaged. wp_step. wp_step. wp_step. rewrite Hro. wp_step.
  wp_step. wp_step. wp_step. wp_step. set (self1 := set_mem _ _).
  assert (represents m name es [] self1) as H1 by (eapply represents_parts; try done; apply H).
  wp_step. apply (wp_lift_ok _ names).
  { unfold all_segments. by rewrite (rp_managed _ _ _ _ _ _ H), (rp_manifest _ _ _ _ _ _ H). }
  wp_red. assert (NoDup (map s_id ([] ++ concat (map (fun n => in_segment n es) names)))) as Hnd by (cbn [app]; rewrite Hcat; apply H).
  pose proof (leaves_segments m name es self names [] H Hin Hnd) as Hl. change (json_ids []) with (@nil json) in Hl.
  rewrite Hl, Hcat. clear Hl. destruct (lookup_inputs_of es 1) as (inputs & Hi & Hin2); [apply H|].
  wp_step. apply (wp_lift_ok _ inputs); [by rewrite Hi|]. wp_red. unfold LookupIndex.rebuild.
  destruct (rebuild_rows_spec (correlation_fields (mem self)) es inputs [] no_lookup) as (db & Hdb & Hlk); [apply H|done|done|].
  cbn [li_fields LookupIndex.open_index] in *. rewrite Hdb.
  apply wp_atomic; intros fs Hfs; wp_red.
  - split; [eapply represents_parts; try done; apply H|]. eexists. split; [done|]. by split_and!.
  - split_and!; try done; eapply represents_parts; try done; apply H.
Qed.
End reindex.
