(* ===== verification/StoreReadsProps.v ===== *)
(** * Reading the ledger store

    Lookups through the index and through a scan agree, rebuilding the index
    gives what the appends wrote, and the store is a ledger as the adapters of
    [LogLedger] want it. *)
From S2P Require Import Prelude Bytes Text Py Json JsonProps PyJson JsonBytes Sha256 Ed25519 Emit Admission Revocation Segments Lookup LogLedger Store StoreReads StoreLogic StoreSpec StoreAppend StoreRecover StoreReindex.
Open Scope Z_scope.
Open Scope store_scope.

Section reads.
Context {PI : Interp} {HL : Hashlib} {AC : AgentActionCapsule} {CE : CapsuleErrors} {C : Type} {CK : Checkpointer C}.
Variable real_text : pystr -> option pystr.
Implicit Types self : LedgerStore C.
Import LedgerStore StoreReads.
#[local] Abbreviation represents := (represents real_text).
#[local] Abbreviation stored_ok := (stored_ok real_text).
#[local] Abbreviation lookup_complete := (lookup_complete real_text).

(** A store in order: it represents the entries, all its segments are in
    place, its lookup index, if any, is complete, and no step fails. *)
Record live (es : list Stored) self : Prop := {
  live_represents : exists m name, represents m name es [] self;
  live_mounted : Forall (fun s => is_unmounted self (s_segment s) = false) es;
  live_lookup : lookup_complete es self;
  live_faults : faults self = []
}.

Lemma live_ok es self s : live es self -> s ∈ es -> stored_ok s.
Proof. intros [(m & name & H) _ _ _] Hs. pose proof (rp_ok _ _ _ _ _ _ H) as Ha. rewrite Forall_forall in Ha. by apply Ha. Qed.

Lemma live_in_place es self s : live es self -> s ∈ es -> is_unmounted self (s_segment s) = false.
Proof. intros [_ H _ _] Hs. rewrite Forall_forall in H. by apply H. Qed.

(** ** Scans *)
Fixpoint records_from (seq : Z) (es : list Stored) : list LedgerRecord :=
  match es with
  | [] => []
  | s :: es => record_at seq s :: records_from (seq + 1) es
  end.

Lemma map_M_same {A B} (f : A -> M C B) self l l' :
  Forall2 (fun x y => f x self = (self, Done y)) l l' -> map_M f l self = (self, Done l').
Proof.
  induction 1 as [|x y l l' Hx H IH]; [done|]. cbn [map_M]. unfold bind at 1. rewrite Hx. unfold bind. by rewrite IH.
Qed.

Lemma scan_rows m name es self es' seq rs :
  represents m name es [] self -> Forall (fun s => is_unmounted self (s_segment s) = false) es ->
  (forall s, s ∈ es' -> s ∈ es) -> rows_at real_text seq es' = Ok rs ->
  Forall2 (fun r y => _row_to_record r self = (self, Done y)) rs (records_from seq es').
Proof.
  intros H Hm. revert seq rs. induction es' as [|s es' IH]; intros seq rs Hin; cbn [rows_at records_from]; [by intros [= <-]|].
  destruct (row_at real_text seq s) as [r|] eqn:Hr; [|done]. destruct (rows_at real_text (seq + 1) es') as [rs'|] eqn:Hrs; [|done].
  intros [= <-]. assert (s ∈ es) as Hs by (apply Hin; left). constructor.
  - rewrite (read_entry real_text m name es [] self seq s r) by done. rewrite Forall_forall in Hm. by rewrite Hm.
  - apply IH; [|done]. intros s' Hs'. apply Hin. by right.
Qed.

Lemma represented_records m name es self :
  represents m name es [] self -> Forall (fun s => is_unmounted self (s_segment s) = false) es ->
  all_records self = (self, Done (records_from 1 es)).
Proof.
  intros H Hm. unfold all_records, bind, get. apply map_M_same. apply (scan_rows m name es self es 1); [done|done|auto|apply H].
Qed.

Lemma all_records_eq es self : live es self -> all_records self = (self, Done (records_from 1 es)).
Proof. intros [(m & name & H) Hm _ _]. by eapply represented_records. Qed.

(** ** Hits of the lookup index *)
Lemma resolve_hit_eq es self seq s row :
  live es self -> s ∈ es -> lookup_row_of real_text seq s = Ok row ->
  _resolve_lookup_hit (LookupIndex.hit_of row) self = (self, Done (record_at seq (reindexed s))).
Proof.
  intros H Hs Hrow. pose proof (live_ok es self s H Hs) as Hok. pose proof (live_in_place es self s H Hs) as Hm.
  destruct (live_represents _ _ H) as (m & name & Hr). destruct (entry_file real_text m name es [] self s Hr Hs) as (f & pre & rest & Hf & Hd & Ho).
  pose proof (lookup_row_seq real_text _ _ _ Hrow) as Hseq. unfold lookup_row_of in Hrow. destruct (get_or _ _ _) as [ts|]; [|done].
  assert (lk_segment row = s_segment s /\ lk_offset row = s_offset s) as [Hseg Hoff].
  { unfold LookupIndex.lookup_row in Hrow. destruct (Lookup.bind real_text ts); [|done].
    destruct (Lookup.bind real_text _) as [[d|]|]; try done. by injection Hrow as <-. }
  unfold _resolve_lookup_hit, LookupIndex.hit_of. rewrite Hseq, Hseg, Hoff. unfold bind at 1. rewrite require_mounted_eq, Hm.
  unfold bind at 1, _get_fh, bind at 1, get. rewrite Hf. cbn [ret].
  rewrite (read_text_line (s_capsule s) (s_line s) f _ pre rest) by (apply Hok || done).
  unfold bind, lift, ret. pose proof (so_id _ _ Hok) as Hid. unfold line_id in Hid. destruct (get_or _ _ JNull) as [given|]; [|done].
  rewrite Hid, (reindexed_auth real_text s Hok). change (s_capsule s) with (s_capsule (reindexed s)).
  by rewrite bundled_ok by apply Hok.
Qed.

Lemma resolve_hits es self seq es' rows :
  live es self -> (forall s, s ∈ es' -> s ∈ es) -> lookup_rows_at real_text seq es' = Ok rows ->
  Forall2 (fun r y => lk_seq r = lr_seq y /\ lk_digest r = lr_capsule_id y
                      /\ _resolve_lookup_hit (LookupIndex.hit_of r) self = (self, Done y))
          rows (records_from seq (map reindexed es')).
Proof.
  intros Hl. revert seq rows. induction es' as [|s es' IH]; intros seq rows Hin; cbn [lookup_rows_at records_from map]; [by intros [= <-]|].
  destruct (lookup_row_of real_text seq s) as [r|] eqn:Hr; [|done]. destruct (lookup_rows_at real_text (seq + 1) es') as [rs'|] eqn:Hrs; [|done].
  intros [= <-]. constructor; [|apply IH; [|done]; intros s' Hs'; apply Hin; by right].
  split_and!; [by apply (lookup_row_seq real_text _ _ _ Hr)| |eapply resolve_hit_eq; [done|apply Hin; left|done]].
  unfold lookup_row_of, LookupIndex.lookup_row in Hr. destruct (get_or _ _ _) as [ts|]; [|done]. destruct (Lookup.bind real_text ts); [|done].
  cbn in Hr. destruct (bind_str (s_id s)) as [i|] eqn:Hi; [|done]. injection Hr as <-. unfold bind_str in Hi. cbn. by case_match; simplify_eq.
Qed.

(** ** Lookups

    The index is asked when there is one; the answer does not depend on it,
    but for what the lines do not carry. *)
Definition source_of (r : LedgerRecord) : SourceRecord :=
  {| sr_seq := PInt (lr_seq r); sr_capsule_id := PStr (lr_capsule_id r); sr_capsule := Some (lr_capsule r) |}.

(** The entries as the index reads them, or as the rows have them. *)
Definition indexed_entries self (es : list Stored) : list Stored :=
  match lookup_index (mem self) with Some _ => map reindexed es | None => es end.

Definition visible self (es : list Stored) : list LedgerRecord := records_from 1 (indexed_entries self es).

Lemma through_index_eq {A} (query : LookupIndex -> M C A) fallback self :
  faults self = [] ->
  through_index query fallback self = match lookup_index (mem self) with Some li => query li self | None => fallback self end.
Proof.
  intros Hf. unfold through_index, bind at 1, get. destruct (lookup_index (mem self)); [|done].
  unfold bind, next_fault. by rewrite Hf.
Qed.

Lemma filter_Forall2 {A B} (f : A -> bool) (g : B -> bool) (P : A -> B -> Prop) l k :
  Forall2 P l k -> (forall x y, P x y -> f x = g y) -> Forall2 P (List.filter f l) (List.filter g k).
Proof.
  intros H Hfg. induction H as [|x y l k Hxy H IH]; [done|]. cbn [List.filter]. rewrite (Hfg x y Hxy). destruct (g y); [by constructor|done].
Qed.

Lemma find_Forall2 {A B} (f : A -> bool) (g : B -> bool) (P : A -> B -> Prop) l k :
  Forall2 P l k -> (forall x y, P x y -> f x = g y) ->
  match find f l, find g k with Some x, Some y => P x y | None, None => True | _, _ => False end.
Proof.
  intros H Hfg. induction H as [|x y l k Hxy H IH]; [done|]. cbn [find]. rewrite (Hfg x y Hxy). by destruct (g y).
Qed.

Lemma visible_rows es self li :
  live es self -> lookup_index (mem self) = Some li ->
  Forall2 (fun r y => lk_seq r = lr_seq y /\ lk_digest r = lr_capsule_id y
                      /\ _resolve_lookup_hit (LookupIndex.hit_of r) self = (self, Done y))
          (lk_records (li_view li)) (visible self es).
Proof.
  intros H Hli. pose proof (live_lookup _ _ H) as Hc. unfold StoreSpec.lookup_complete in Hc. rewrite Hli in Hc.
  unfold lookup_of in Hc. destruct (lookup_rows_at real_text 1 es) as [rows|] eqn:Hr; [|done]. injection Hc as <-.
  unfold visible, indexed_entries. rewrite Hli. by apply (resolve_hits es).
Qed.

Lemma by_seq_range_live es self first last :
  live es self -> 0 <= first < 2 ^ 63 -> 0 <= last < 2 ^ 63 ->
  StoreReads.by_seq_range first last self =
  (self, Done (List.filter (fun r => (first <=? lr_seq r) && (lr_seq r <=? last)) (visible self es))).
Proof.
  intros H Ha Hb. unfold StoreReads.by_seq_range. rewrite through_index_eq by apply H.
  destruct (lookup_index (mem self)) as [li|] eqn:Hli.
  - unfold LookupIndex.by_seq_range, LookupIndex.bind_int.
    rw_bool (- 2 ^ 63 <=? first) true. rw_bool (first <? 2 ^ 63) true. rw_bool (- 2 ^ 63 <=? last) true. rw_bool (last <? 2 ^ 63) true.
    cbn [andb]. unfold bind, lift, ret. apply map_M_same. apply Forall2_fmap_l.
    eapply Forall2_impl; [eapply filter_Forall2; [by apply visible_rows|]|].
    + intros x y (Hx & _). cbn. by rewrite Hx.
    + intros x y (_ & _ & Hx). exact Hx.
  - unfold bind. rewrite (all_records_eq es self H). unfold ret, visible, indexed_entries. by rewrite Hli.
Qed.

Lemma by_digest_live es self digest :
  live es self -> text digest ->
  StoreReads.by_digest digest self =
  (self, Done (find (fun r => bool_decide (lr_capsule_id r = digest)) (visible self es))).
Proof.
  intros H [bs Ht]. unfold StoreReads.by_digest. rewrite through_index_eq by apply H.
  destruct (lookup_index (mem self)) as [li|] eqn:Hli.
  - unfold LookupIndex.by_digest, bind_str. rewrite Ht. unfold bind, lift, ret.
    pose proof (find_Forall2 (fun r => bool_decide (lk_digest r = digest)) (fun r => bool_decide (lr_capsule_id r = digest)) _ _ _
      (visible_rows es self li H Hli) (fun x y Hxy => ltac:(by destruct Hxy as (_ & -> & _)))) as Hf.
    destruct (find _ (lk_records (li_view li))) as [r|], (find _ (visible self es)) as [y|]; try done.
    destruct Hf as (_ & _ & Hr). cbn [option_map]. by rewrite Hr.
  - unfold bind. rewrite (all_records_eq es self H). unfold ret, visible, indexed_entries. by rewrite Hli.
Qed.

(** ** The store behind the adapters *)
Section ledger.
Variable close_store : LedgerStore C -> LedgerStore C.

(** What a caller in the same process is given. *)
Definition returned {A} (o : outcome A) : result A :=
  match o with Done a => Ok a | Raised r => Raise (exn_of r) | Died => Raise OSError end.

Definition returned_map {A B} (f : A -> B) (r : LedgerStore C * outcome A) : LedgerStore C * result B :=
  (r.1, let! a := returned r.2 in Ok (f a)).

Definition store_lookups : LedgerLookups (LedgerStore C) := {|
  LogLedger.by_seq_range := fun self first last => returned_map (map source_of) (StoreReads.by_seq_range first last self);
  LogLedger.by_digest := fun self digest => returned_map (option_map source_of) (StoreReads.by_digest digest self);
  close_ledger := close_store
|}.

(** The records a scan yields, as the adapters read them. *)
Definition store_records self : list SourceRecord :=
  match all_records self with (_, Done rs) => map source_of rs | _ => [] end.

Lemma source_reindexed seq es : map source_of (records_from seq (map reindexed es)) = map source_of (records_from seq es).
Proof. revert seq. induction es as [|s es IH]; intros seq; [done|]. cbn [map records_from]. by rewrite IH. Qed.

Lemma source_visible self es : map source_of (visible self es) = map source_of (records_from 1 es).
Proof. unfold visible, indexed_entries. destruct (lookup_index (mem self)); [apply source_reindexed|done]. Qed.

Lemma store_records_eq es self : live es self -> store_records self = map source_of (records_from 1 es).
Proof. intros H. unfold store_records. by rewrite (all_records_eq es self H). Qed.

Lemma filter_map {A B} (f : B -> bool) (g : A -> B) l : List.filter f (map g l) = map g (List.filter (fun x => f (g x)) l).
Proof. induction l as [|x l IH]; [done|]. cbn. destruct (f (g x)); cbn; by rewrite IH. Qed.

Lemma find_map {A B} (f : B -> bool) (g : A -> B) l : find f (map g l) = option_map g (find (fun x => f (g x)) l).
Proof. induction l as [|x l IH]; [done|]. cbn. by destruct (f (g x)). Qed.

(** The store discharges what [LogLedger] asks of a ledger. *)
#[export] Instance store_laws : @LedgerLaws (LedgerStore C) store_lookups.
Proof.
  refine {| ledger_ok := fun self => exists es, live es self; ledger_records := store_records |}.
  - intros self a b [es H] Ha Hb. exists self. split_and!; [|by exists es|done].
    change (LogLedger.by_seq_range self a b) with (returned_map (map source_of) (StoreReads.by_seq_range a b self)).
    rewrite (by_seq_range_live es self a b H Ha Hb), (store_records_eq es self H), <- (source_visible self es), filter_map. done.
  - intros self d [es H] Hd. exists self. split_and!; [|by exists es|done].
    change (LogLedger.by_digest self d) with (returned_map (option_map source_of) (StoreReads.by_digest d self)).
    rewrite (by_digest_live es self d H Hd), (store_records_eq es self H), <- (source_visible self es), find_map.
    done.
Defined.
End ledger.
End reads.
