(* ===== verification/StoreProps.v ===== *)
(** * Appending, crashing and recovering *)
From S2P Require Import Prelude Bytes Text Json JsonProps PyJson JsonBytes Sha256 Ed25519 Emit Admission Segments Lookup Store StoreLogic StoreSpec StoreAppend StoreRecover StoreReindex StoreReads StoreReadsProps Py Revocation LogLedger.
Open Scope Z_scope.
Open Scope store_scope.

Section props.
Context {PI : Interp} {HL : Hashlib} {AC : AgentActionCapsule} {CL : CapsuleLaws} {CE : CapsuleErrors} {C : Type} {CK : Checkpointer C}.
Variable real_text : pystr -> option pystr.
Implicit Types self : LedgerStore C.
Import LedgerStore.
#[local] Abbreviation represents := (represents real_text).
#[local] Abbreviation recoverable := (recoverable real_text).
#[local] Abbreviation append_spec := (append_spec real_text).
#[local] Abbreviation unindexed := (unindexed real_text).


(** [C9] A recovery under any failure: when it returns, every complete line
    is an entry, in order, and the torn one is gone; when a step failed, what
    is left is recovered to the same entries by running it again. *)
Theorem recover_correct m name es pend torn self :
  recoverable m name es pend torn self ->
  match recover real_text self with
  | (self', Done report) =>
      represents m name (es ++ map reindexed pend) [] self' /\ needs_recover (mem self') = false /\
      truncated_bytes report = zlen torn /\ indexed_seqs report = seqs_from (zlen es + 1) (length pend) /\
      skipped_offsets report = []
  | (self', Raised _) => faults self <> [] /\ progress real_text m name es pend torn self' /\ needs_recover (mem self') = true
  | (self', Died) => faults self <> [] /\ progress real_text m name es pend torn self'
  end.
Proof.
  intros H. pose proof (recover_wp real_text m name es pend torn self H) as Hw. unfold wp in Hw.
  by destruct (recover _ _) as [self' [rec|r|]].
Qed.

(** ** Opening a store again *)
Definition reopens m name es tail config io self' : Prop :=
  represents m name es tail self' /\ needs_recover (mem self') = false /\ read_only_unmanaged (mem self') = false /\
  cfg self' = config /\ faults self' = io.

Lemma reopen m name es tail self fields lookup_opens io :
  represents m name es tail self ->
  exists self', __init__ (cfg self) fields lookup_opens io (disk self) = (self' : LedgerStore C, Done ())
                /\ reopens m name es tail (cfg self) io self'.
Proof.
  intros H. unfold __init__, load_manifest. rewrite (rp_managed _ _ _ _ _ _ H), (rp_saved _ _ _ _ _ _ H), store_roundtrip.
  cbn [negb andb]. set (rf := _resolve_correlation_fields fields (disk self)).
  assert (segments rf.1 = segments (disk self) /\ archived rf.1 = archived (disk self)
          /\ manifest_json rf.1 = manifest_json (disk self) /\ records rf.1 = records (disk self)) as (Hs & Ha & Hj & Hr).
  { subst rf. by destruct fields. }
  destruct rf as [d fs]. cbn [fst] in *. set (self1 := opened _ _ _ _ _ _ _).
  assert (represents m name es tail self1) as H1.
  { eapply represents_parts; try done; [by rewrite (rp_manifest _ _ _ _ _ _ H)|left]. }
  exists (with_handle name self1). split; [by eapply sync_write_eq|]. by split; [apply represents_handle|].
Qed.

Lemma recovers m name es pend torn self :
  recoverable m name es pend torn self -> faults self = [] ->
  exists self' report, recover real_text self = (self', Done report) /\ needs_recover (mem self') = false /\
    represents m name (es ++ map reindexed pend) [] self'.
Proof.
  intros H Hf. pose proof (recover_wp real_text m name es pend torn self H) as Hw. unfold wp in Hw.
  destruct (recover _ _) as [self' [rec|r|]]; [|by destruct Hw..]. destruct Hw as (Hr & Hn & _). by exists self', rec.
Qed.

Lemma represents_recoverable m name es self : represents m name es [] self -> recoverable m name es [] [] self.
Proof.
  intros H. constructor; [done| |apply not_elem_of_nil]. constructor; try constructor. rewrite app_nil_r. apply H.
Qed.

Lemma recoverable_reopen m name es pend torn self self' config io :
  recoverable m name es pend torn self -> reopens m name es (concat (map line_of pend) ++ torn) config io self' ->
  recoverable m name es pend torn self'.
Proof. intros [_ Hp Ht] [H _]. by constructor. Qed.

(** Opening the store again and recovering it gives these entries. *)
Definition comes_back m name fields lookup_opens self1 es' : Prop :=
  exists self2 self3 report,
    __init__ (cfg self1) fields lookup_opens [] (disk self1) = (self2 : LedgerStore C, Done ()) /\
    recover real_text self2 = (self3, Done report) /\
    represents m name es' [] self3 /\ needs_recover (mem self3) = false.

Lemma recoverable_comes_back m name es pend torn self1 fields lookup_opens :
  recoverable m name es pend torn self1 -> comes_back m name fields lookup_opens self1 (es ++ map reindexed pend).
Proof.
  intros Hr. destruct (reopen m name es _ self1 fields lookup_opens [] (rc_represents _ _ _ _ _ _ _ Hr)) as (self2 & Hi & Hr2).
  exists self2. destruct (recovers m name es pend torn self2) as (self3 & report & Hr3 & Hn3 & H3);
    [by eapply recoverable_reopen|apply Hr2|]. by exists self3, report.
Qed.

Lemma represents_comes_back m name es self1 fields lookup_opens :
  represents m name es [] self1 -> comes_back m name fields lookup_opens self1 es.
Proof.
  intros Hr. rewrite <- (app_nil_r es). change [] with (map reindexed []) at 1.
  by apply (recoverable_comes_back m name es [] []), represents_recoverable.
Qed.

(** [C6] An append to a managed store, of a capsule that JSON gives back as it
    is (no floats, no lone surrogates), when no rotation is due, that is
    interrupted or fails at any step, or that returns: opening the store again
    and running [recover] succeeds, and the entries are the old ones or those
    with the new entry; when it had returned, they are those with the new
    entry. *)
Theorem crash_reopen_recover m name es capsule consequential admission self self1 o fields lookup_opens :
  represents m name es [] self -> needs_recover (mem self) = false -> read_only_unmanaged (mem self) = false ->
  storable capsule admission -> room real_text name es capsule consequential admission self ->
  append real_text capsule consequential admission self = (self1, o) ->
  exists es', comes_back m name fields lookup_opens self1 es' /\
    (es' = es \/ exists s, append_spec name es capsule consequential admission = Ok s /\ (es' = es ++ [s] \/ es' = es ++ [reindexed s])) /\
    (forall rec, o = Done rec -> exists s, append_spec name es capsule consequential admission = Ok s /\ es' = es ++ [s]).
Proof.
  intros H Hn Hro Hst Hroom Ho. pose proof (append_wp real_text m name es capsule consequential admission self H Hn Hro Hst Hroom) as Hw.
  unfold wp in Hw. rewrite Ho in Hw.
  assert (unindexed m name es capsule consequential admission self1 -> exists es', comes_back m name fields lookup_opens self1 es' /\
    (es' = es \/ exists s, append_spec name es capsule consequential admission = Ok s /\ (es' = es ++ [s] \/ es' = es ++ [reindexed s]))) as Hun.
  { intros (s & pend & torn & Hs & Hp & Hr). exists (es ++ map reindexed pend). split; [by eapply recoverable_comes_back|].
    destruct Hp as [->| ->]; [left; by rewrite app_nil_r|right]. exists s. split; [done|by right]. }
  destruct o as [rec|r|]; cbn in Hw.
  - destruct Hw as (s & Hs & _ & Hr & _). exists (es ++ [s]). split_and!; [by apply represents_comes_back| |].
    + right. exists s. split; [done|by left].
    + intros ? _. by exists s.
  - destruct Hw as [(_ & _ & Hr & _)|(_ & Hu & _)].
    + exists es. split_and!; [by apply represents_comes_back|by left|done].
    + destruct (Hun Hu) as (es' & Hc & He). by exists es'.
  - destruct Hw as [_ [Hu|(s & Hs & Hr)]].
    + destruct (Hun Hu) as (es' & Hc & He). by exists es'.
    + exists (es ++ [s]). split_and!; [by apply represents_comes_back| |done]. right. exists s. split; [done|by left].
Qed.

(** [C31] [reindex] under any failure: when it returns, the rows are those of
    the same entries in the same order with the same sequence numbers, as the
    lines alone give them; otherwise the index is the old one or the new one. *)
Theorem reindex_correct m name es names self :
  represents m name es [] self -> in_order m name es names -> read_only_unmanaged (mem self) = false ->
  match reindex real_text self with
  | (self', Done _) =>
      rows_at real_text 1 (map reindexed es) = Ok (records (disk self')) /\
      represents m name (map reindexed es) [] self' /\ needs_recover (mem self') = false
  | (self', Raised _) => faults self <> [] /\ represents m name es [] self'
  | (self', Died) => faults self <> [] /\ (represents m name es [] self' \/ represents m name (map reindexed es) [] self')
  end.
Proof.
  intros H Ho Hro. pose proof (reindex_wp real_text m name es names self H Ho Hro) as Hw. unfold wp in Hw.
  destruct (reindex _ _) as [self' [[]|r|]]; try done. destruct Hw as [Hr Hn]. split; [apply Hr|done].
Qed.

(** [C32] [rebuild_lookup_index] gives exactly the index that the appends
    would have written one by one: over any index and under any failure, when
    it returns, the tables are those of the entries, committed. *)
Theorem rebuild_correct m name es names self :
  represents m name es [] self -> in_order m name es names -> read_only_unmanaged (mem self) = false ->
  match rebuild_lookup_index real_text self with
  | (self', Done _) =>
      represents m name es [] self' /\ lookup_complete real_text es self' /\ rebuilt real_text (correlation_fields (mem self)) es self'
  | (self', _) => faults self <> [] /\ represents m name es [] self'
  end.
Proof.
  intros H Ho Hro. pose proof (rebuild_wp real_text m name es names self H Ho Hro) as Hw. unfold wp in Hw.
  destruct (rebuild_lookup_index _ _) as [self' [[]|r|]]; try done. destruct Hw as [Hr Hb]. split_and!; [done| |done].
  destruct Hb as (li & Hli & Hf & Hlk & _). unfold lookup_complete. by rewrite Hli, Hf.
Qed.

(** A range of sequence numbers and a digest are answered with the
    entries that have them, in order, whether the lookup index is there or a
    scan stands in for it. *)
Theorem lookups_correct es self first last digest :
  live real_text es self -> 0 <= first < 2 ^ 63 -> 0 <= last < 2 ^ 63 -> text digest ->
  StoreReads.scan any_query self = (self, Done (records_from 1 es)) /\
  StoreReads.by_seq_range first last self =
    (self, Done (List.filter (fun r => (first <=? lr_seq r) && (lr_seq r <=? last)) (records_from 1 (indexed_entries self es)))) /\
  StoreReads.by_digest digest self =
    (self, Done (find (fun r => bool_decide (lr_capsule_id r = digest)) (records_from 1 (indexed_entries self es)))).
Proof.
  intros H Ha Hb Ht. split_and!; [|by apply (by_seq_range_live real_text es)|by apply (by_digest_live real_text es)].
  rewrite <- (all_records_eq real_text es self H). unfold StoreReads.scan, all_records, bind, lift, ret, get. cbn.
  by rewrite filter_all by by apply Forall_true.
Qed.
End props.

(** ** Archiving segments, and signed entries

    Taking a segment away and putting it back leaves the store as it was; in
    between its records are refused with the checkpoint that holds them. A
    signed entry proves itself from its stored line. *)
Section archive.
Context {PI : Interp} {HL : Hashlib} {AC : AgentActionCapsule} {CL : CapsuleLaws} {C : Type} {CK : Checkpointer C}.
Variable real_text : pystr -> option pystr.
Implicit Types self : LedgerStore C.
Import LedgerStore StoreReads.

(** ** The entry of a segment *)
Lemma first_entry_twice seg f g l :
  (forall e, se_name (g e) = se_name e) -> first_entry seg f (first_entry seg g l) = first_entry seg (fun e => f (g e)) l.
Proof.
  intros Hg. induction l as [|e l IH]; [done|]. cbn [first_entry]. destruct (is_text (se_name e) seg) eqn:E; cbn [first_entry].
  - by rewrite Hg, E.
  - by rewrite E, IH.
Qed.

Lemma first_entry_same seg f l e :
  find (fun s => is_text (se_name s) seg) l = Some e -> f e = e -> first_entry seg f l = l.
Proof.
  induction l as [|x l IH]; [done|]. cbn [find first_entry]. destruct (is_text (se_name x) seg); [by intros [= ->] ->|].
  intros H Hf. by rewrite (IH H Hf).
Qed.

Lemma find_first_entry seg f l e :
  (forall x, se_name (f x) = se_name x) -> find (fun s => is_text (se_name s) seg) l = Some e ->
  find (fun s => is_text (se_name s) seg) (first_entry seg f l) = Some (f e).
Proof.
  intros Hf. induction l as [|x l IH]; [done|]. cbn [find first_entry]. destruct (is_text (se_name x) seg) eqn:E; cbn [find].
  - intros [= ->]. by rewrite Hf, E.
  - intros H. rewrite E. by apply IH.
Qed.

Lemma set_mounted_same e : set_mounted (se_mounted e) e = e.
Proof. by destruct e. Qed.

Lemma remount m seg e :
  store_entry m seg = Some e -> se_mounted e = true ->
  update_entry seg (set_mounted true) (update_entry seg (set_mounted false) m) = m.
Proof.
  intros He Hm. unfold update_entry. cbn. rewrite first_entry_twice by done.
  rewrite (first_entry_same seg _ _ e He); [by destruct m|]. destruct e. cbn in *. by subst.
Qed.

(** A closed segment in its place. *)
Record archivable (m : StoreManifest) (seg : pystr) (e : SegmentEntry) (f : File) self : Prop := {
  ar_managed : rotate_at_checkpoint (cfg self) = true;
  ar_manifest : manifest (mem self) = Some m;
  ar_saved : manifest_json (disk self) = Some (store_to_dict m);
  ar_active : is_text (st_active_segment m) seg = false;
  ar_entry : store_entry m seg = Some e;
  ar_mounted : se_mounted e = true;
  ar_file : segments (disk self) !! seg = Some f;
  ar_free : archived (disk self) !! seg = None;
  ar_faults : faults self = []
}.

(** The store without the segment. *)
Definition taken_away m seg f self : LedgerStore C :=
  Build_LedgerStore (cfg self)
    (with_manifest_json (store_to_dict (update_entry seg (set_mounted false) m)) (archive_file seg f (disk self)))
    (with_manifest (Some (update_entry seg (set_mounted false) m)) (mem self)) [].

Lemma unmount_eq m seg e f self :
  archivable m seg e f self -> unmount_segment seg self = (taken_away m seg f self, Done ()).
Proof.
  intros [Hmg Hm Hs Ha He Hmt Hf Hfr Hfs]. destruct self as [c d me io]. cbn in *. subst io.
  unfold unmount_segment, managed, bind, get. cbn. rewrite Hm. cbn. rewrite Ha, He, Hmt. cbn.
  unfold move_segment, bind, get. cbn. rewrite Hf. cbn. done.
Qed.

Lemma mount_eq m seg e f self :
  archivable m seg e f self -> mount_segment seg (taken_away m seg f self) = (self, Done ()).
Proof.
  intros [Hmg Hm Hs Ha He Hmt Hf Hfr Hfs]. destruct self as [c d me io]. cbn in *. subst io.
  unfold mount_segment, managed, bind, get, taken_away.
  assert (store_entry (update_entry seg (set_mounted false) m) seg = Some (set_mounted false e)) as He'
    by (apply find_first_entry; done).
  cbn in He' |- *. rewrite He'. cbn. unfold move_segment, bind, get. cbn. rewrite lookup_insert_eq. cbn. rewrite (remount m seg e) by done.
  destruct d, me. cbn in *. subst.
  unfold restore_file, with_archived, with_segments, with_manifest_json, archive_file, set_disk, set_mem, with_manifest. cbn.
  rewrite delete_insert_id, insert_delete_id by done. done.
Qed.

(** Unmounting a closed segment and mounting it again gives the store
    back, byte for byte; in between, reading one of its records raises
    [SegmentUnmounted] with the root and size of the checkpoint that closed
    it, and unmounting again changes nothing. *)
Theorem unmount_mount m seg e f self row :
  archivable m seg e f self -> r_segment row = seg ->
  exists self1,
    unmount_segment seg self = (self1, Done ()) /\
    _row_to_record row self1 = (self1, Raised (Unmounted (se_checkpoint_root e) (se_mmr_size e) seg)) /\
    unmount_segment seg self1 = (self1, Done ()) /\
    mount_segment seg self1 = (self, Done ()).
Proof.
  intros H Hrow. exists (taken_away m seg f self). split; [by apply (unmount_eq m seg e f)|].
  assert (store_entry (update_entry seg (set_mounted false) m) seg = Some (set_mounted false e)) as He
    by (apply find_first_entry; [done|apply H]).
  split_and!; [| |by apply (mount_eq m seg e f)].
  - unfold _row_to_record, bind at 1. rewrite Hrow, require_mounted_eq. unfold is_unmounted, unmounted, segment_entry.
    cbn in He |- *. rewrite (ar_managed _ _ _ _ _ H), He. done.
  - unfold unmount_segment, managed, bind, get. cbn in He |- *. rewrite (ar_active _ _ _ _ _ H), He. done.
Qed.

(** ** Signed entries *)
Lemma find_key_set d k v : find_key (dict_set d k v) k = Some v.
Proof.
  induction d as [|[k' v'] d IH]; cbn [dict_set find_key]; [by rewrite bool_decide_true|].
  case_bool_decide as E; cbn [find_key]; [by rewrite bool_decide_true|]. by rewrite bool_decide_false.
Qed.

Lemma find_key_set_ne d k k' v : k <> k' -> find_key (dict_set d k v) k' = find_key d k'.
Proof.
  intros Hne. induction d as [|[k0 v0] d IH]; cbn [dict_set find_key]; [by rewrite bool_decide_false|].
  case_bool_decide as E; cbn [find_key]; [subst; by rewrite !bool_decide_false|]. by rewrite IH.
Qed.

Lemma verifies_str cid e : _verifies cid e = Ok true -> is_str (envelope e) = true /\ is_str (env_key_id e) = true.
Proof.
  unfold _verifies, false_on_error, check_envelope. destruct (fromhex_of (envelope e)) as [raw|] eqn:Hr; [|by case_match].
  destruct (verify_producer_envelope cid raw) as [r|]; [|by case_match]. destruct (er_ok r); [|done].
  destruct (fromhex_of (env_key_id e)) as [key|] eqn:Hk; [|by case_match]. intros _. split.
  - by destruct (envelope e).
  - by destruct (env_key_id e).
Qed.

(** An entry admitted as signed carries a proof of it: what is stored
    alone, read back by [reindex] or a lookup, verifies against the
    recomputed id, and is shown with the envelope that verified. *)
Theorem signed_reverifies name es capsule consequential admission s :
  append_spec real_text name es capsule consequential admission = Ok s ->
  s_authenticity s = AUTHENTICITY_SIGNED ->
  compute_capsule_id (s_capsule s) = Ok (s_id s) /\
  _reindex_authenticity (s_capsule s) = Ok AUTHENTICITY_SIGNED /\
  exists proof, bundled s = [proof] /\ _verifies (s_id s) proof = Ok true.
Proof.
  unfold append_spec, submitted. intros H Ha.
  destruct (match admission with Some _ => _ | None => _ end) as [request|]; [|done].
  destruct (resolve_admission capsule request) as [r|] eqn:Hr; [|done].
  destruct (stored_capsule capsule r) as [[v id]|] eqn:Hs; [|done]. destruct (id_conflict v id) as [[]|]; try done.
  destruct (bind_str (text_id id)) as [cid|] eqn:Hb; [|done]. case_bool_decide; [done|].
  destruct (_record_params _ _ _ _ _ _ _); [|done]. destruct (dumps_ascii v) as [t|]; [|done].
  apply Ok_inj in H as <-. cbn [s_authenticity s_capsule s_id] in *.
  destruct (resolved_signed _ _ _ Hr Ha) as (cid0 & Hc & Hres & Hne & Hall).
  unfold stored_capsule in Hs. rewrite bool_decide_true in Hs by done. rewrite Hres in Hs.
  destruct (verified_envelopes r) as [|proof rest]; [done|]. apply Forall_cons in Hall as [Hp _].
  destruct capsule as [| | | | | |d]; try done. destruct (given_or _ _) as [id'|] eqn:Hg; [|done].
  assert (v = JDict (dict_set (dict_set d (str "signature") (envelope proof)) (str "key_id") (env_key_id proof)) /\ id' = id)
    as [Ev ->] by (split; congruence). clear Hs.
  pose proof (envelope_excluded d (envelope proof) (env_key_id proof) cid0 Hc) as He. rewrite <- Ev in He.
  assert (id = JStr cid0) as ->.
  { rewrite <- Ev, He in Hg. unfold given_or, json_text in Hg. destruct (truthy (JStr cid0)); congruence. }
  assert (cid = cid0) as -> by (cbn in Hb; unfold bind_str in Hb; case_match; congruence).
  assert (get_or v (str "signature") JNull = Ok (envelope proof)) as Hsig.
  { rewrite Ev. unfold get_or. rewrite find_key_set_ne by (intros E; discriminate E). by rewrite find_key_set. }
  assert (get_or v (str "key_id") JNull = Ok (env_key_id proof)) as Hkid by (rewrite Ev; unfold get_or; by rewrite find_key_set).
  destruct (verifies_str _ _ Hp) as [Hs1 Hs2].
  assert ({| envelope := envelope proof; env_key_id := env_key_id proof |} = proof) as Epr by by destruct proof.
  split; [done|]. split.
  - unfold _reindex_authenticity. rewrite Hsig, Hkid, Hs1, Hs2, He. cbn [andb negb]. rewrite Epr.
    unfold _verifies in Hp. by rewrite Hp.
  - exists proof. split; [|done]. unfold bundled, _bundled_envelopes. cbn [s_authenticity s_capsule].
    rewrite Ha, bool_decide_true by done. cbn [negb]. by rewrite Hsig, Hkid, Hs1, Hs2, Epr.
Qed.
End archive.
