(* ===== verification/StoreExamples.v ===== *)
(** * A ledger store on an empty disk

    The theorems of the store at concrete states: an append that returns, one
    cut short in the middle of its line, and what follows. *)
From S2P Require Import Prelude Bytes Text Py Json JsonProps PyJson JsonBytes Sha256 MmrPos Mmr Index Calendar Ed25519 Emit Admission Segments Lookup Store StoreReads StoreLogic StoreSpec StoreAppend StoreRecover StoreReindex StoreReadsProps StoreProps.
Open Scope Z_scope.
Open Scope store_scope.

(** A test of [writable] for ASCII text. *)
Fixpoint plain (v : json) : bool :=
  let ascii_text s := forallb (fun c => (0 <=? c) && (c <? 128)) s in
  match v with
  | JNull | JBool _ => true
  | JInt n => (- 1000 <? n) && (n <? 1000)
  | JFloat _ => false
  | JStr s => ascii_text s
  | JList l => forallb plain l
  | JDict d => forallb (fun kv => ascii_text kv.1 && plain kv.2) d && bool_decide (NoDup (map fst d))
  end.

Lemma plain_text s : forallb (fun c => (0 <=? c) && (c <? 128)) s = true -> text s.
Proof.
  intros H. apply text_ascii, Forall_forall. intros c Hc. rewrite forallb_forall in H.
  specialize (H c (proj1 (list_elem_of_In _ _) Hc)). lia.
Qed.

Lemma plain_writable v : plain v = true -> writable v.
Proof.
  induction v as [| b | n | l | s | l IH | d IH] using json_nested_ind; cbn [plain]; intros H; try done; try constructor.
  - unfold zlen, MAX_STR_DIGITS. zbool. pose proof (str_nat_length (Z.abs n) 3 ltac:(lia)). lia.
  - by apply plain_text.
  - apply Forall_forall. intros x Hx. rewrite forallb_forall in H. rewrite Forall_forall in IH.
    apply IH; [done|]. apply H. by apply list_elem_of_In.
  - apply andb_prop in H as [_ H]. by apply bool_decide_eq_true in H.
  - apply andb_prop in H as [H _]. apply Forall_forall. intros [k x] Hx. rewrite forallb_forall in H. rewrite Forall_forall in IH.
    specialize (H (k, x) (proj1 (list_elem_of_In _ _) Hx)). apply andb_prop in H as [Hk Hv]. split; [by apply plain_text|].
    by apply (IH (k, x) Hx).
Qed.

Module DemoStore.
#[export] Existing Instance Sha256.hashlib.
#[export] Existing Instance plain_interp.
#[export] Existing Instance DemoAac.aac.

#[export] Instance capsule_laws : CapsuleLaws.
Proof. constructor. exact DemoAac.envelope_excluded. Defined.

#[export] Instance capsule_errors : CapsuleErrors.
Proof.
  constructor; [exact DemoAac.id_errors|]. intros cid [|b raw] e; [|done]. intros H. by injection H as <-.
Defined.

(** No checkpointer is needed below the size at which segments rotate. *)
#[export] Instance no_checkpointer : Checkpointer () := {|
  take_checkpoint := fun c _ => (c, Raise ValueError);
  take_range_proof := fun c _ _ => (c, Raise ValueError)
|}.

Definition real_text (literal : pystr) : option pystr := Some literal.

Definition config : Config :=
  {| rotate_at_checkpoint := true; segment_max_records := 20000; max_segment_bytes := 5000; store_log_id := str "log" |}.
Definition empty_disk : Store.Disk :=
  {| segments := ∅; archived := ∅; closed := ∅; manifest_json := None; records := []; lookup_file := no_lookup; lookup_config := None |}.
Definition fields : list pystr := [str "exchange_id"].

Definition open_with (io : list fault) : LedgerStore () := (LedgerStore.__init__ config fields true io empty_disk).1.
Definition name0 : pystr := segment_name 1.
Definition manifest0 : StoreManifest :=
  {| st_log_id := JStr (str "log"); st_active_segment := JStr name0; st_segments := [new_entry name0] |}.

(** Creating the first segment takes three steps, which succeed. *)
Definition after (io : list fault) : LedgerStore () := open_with (Fine :: Fine :: Fine :: io).

Lemma after_represents io : represents real_text manifest0 name0 [] [] (after io).
Proof.
  constructor; try reflexivity.
  - right. left.
  - constructor.
  - constructor.
  - intros seg Hs. apply elem_of_cons in Hs as [->|Hs]; [|by apply not_elem_of_nil in Hs]. eexists. split; reflexivity.
Qed.

Lemma after_ready io :
  needs_recover (mem (after io)) = false /\ read_only_unmanaged (mem (after io)) = false /\ faults (after io) = io.
Proof. done. Qed.

Definition capsule1 : json :=
  JDict [(str "exchange_id", JStr (str "x1")); (str "timestamp", JStr (str "2026-01-01T00:00:00Z")); (str "developer", JStr (str "d"))].

Definition entry1 : Stored := Eval vm_compute in
  match append_spec real_text name0 [] capsule1 true None with
  | Ok s => s
  | Raise _ => Build_Stored JNull [] [] 0 false [] []
  end.

Lemma spec1 : append_spec real_text name0 [] capsule1 true None = Ok entry1.
Proof. vm_compute. reflexivity. Qed.

Lemma storable1 : storable capsule1 None.
Proof.
  intros v id a H. assert (match submitted capsule1 None with Ok (v, _, _) => plain v | _ => true end = true) as Hp by (vm_compute; reflexivity).
  rewrite H in Hp. by apply plain_writable.
Qed.

Lemma room1 io : room real_text name0 [] capsule1 true None (after io).
Proof.
  intros _ s Hs. rewrite spec1 in Hs. injection Hs as <-. change (max_segment_bytes (cfg (after io))) with 5000. vm_compute. reflexivity.
Qed.

(** ** After the first append *)
Definition append1 (io : list fault) : LedgerStore () * outcome LedgerRecord :=
  LedgerStore.append real_text capsule1 true None (after io).

Lemma append1_holds io : holds (append_post real_text manifest0 name0 [] capsule1 true None (after io)) (append1 io).
Proof.
  destruct (after_ready io) as (Hn & Hr & _). unfold append1.
  pose proof (append_wp real_text manifest0 name0 [] capsule1 true None (after io) (after_represents io) Hn Hr storable1 (room1 io)) as H.
  unfold wp in H. exact H.
Qed.

Definition store1 : LedgerStore () := (append1 []).1.

Definition completed (r : LedgerStore () * outcome LedgerRecord) : bool := match r.2 with Done _ => true | _ => false end.

Lemma store1_represents :
  represents real_text manifest0 name0 [entry1] [] store1 /\ lookup_complete real_text [entry1] store1.
Proof.
  pose proof (append1_holds []) as H. assert (completed (append1 []) = true) as E by (vm_compute; reflexivity). unfold store1.
  destruct (append1 []) as [self [rec| |]]; try done. destruct H as (s & Hs & _ & Hr & _ & _ & Hl). rewrite spec1 in Hs.
  injection Hs as <-. split; [exact Hr|]. apply Hl. reflexivity.
Qed.

Lemma store1_ready : read_only_unmanaged (mem store1) = false /\ faults store1 = [].
Proof. split; vm_compute; reflexivity. Qed.

Lemma in_order1 : in_order manifest0 name0 [entry1] [name0].
Proof. split; [reflexivity|]. split; [apply Forall_singleton; left|]. vm_compute. reflexivity. Qed.

Lemma live1 : live real_text [entry1] store1.
Proof.
  assert (M : LedgerStore.is_unmounted store1 name0 = false) by (vm_compute; reflexivity).
  exact {| live_represents := ex_intro _ manifest0 (ex_intro _ name0 (proj1 store1_represents));
           live_mounted := Forall_cons_2 _ _ _ (M : LedgerStore.is_unmounted store1 (s_segment entry1) = false) (Forall_nil_2 _);
           live_lookup := proj2 store1_represents; live_faults := proj2 store1_ready |}.
Qed.

(** A line whose row was not written, and five bytes of another. *)
Definition torn1 : bytes := take 5 (line_of entry1).
Definition behind (io : list fault) : LedgerStore () := append_to name0 (line_of entry1 ++ torn1) (after io).

Lemma behind_recoverable io : recoverable real_text manifest0 name0 [] [entry1] torn1 (behind io).
Proof.
  constructor.
  - cbn [map concat]. rewrite app_nil_r. apply (represents_append real_text [] []), after_represents.
  - apply (spec_appendable real_text manifest0 name0 [] capsule1 true None (after io));
      [apply after_represents|apply storable1|apply spec1].
  - vm_compute. set_solver.
Qed.
End DemoStore.
Import DemoStore.


(** The process ends after five bytes of the line. *)
Lemma crash_reopen_recover_witness :
  (append1 [Dies 5]).2 = Died /\
  exists es', comes_back real_text manifest0 name0 [] true (append1 [Dies 5]).1 es'.
Proof.
  assert (E : (append1 [Dies 5]).2 = Died) by (vm_compute; reflexivity). split; [exact E|].
  destruct (crash_reopen_recover real_text manifest0 name0 [] capsule1 true None (after [Dies 5]) (append1 [Dies 5]).1
    (append1 [Dies 5]).2 [] true (after_represents _) eq_refl eq_refl storable1 (room1 _)) as (es' & H & _);
    [unfold append1; by destruct (LedgerStore.append _ _ _ _ _)|]. by exists es'.
Defined.

Lemma recover_correct_witness :
  recoverable real_text manifest0 name0 [] [entry1] torn1 (behind []) /\
  match LedgerStore.recover real_text (behind []) with
  | (_, Done report) => truncated_bytes report = 5 /\ indexed_seqs report = [1]
  | _ => False
  end.
Proof.
  split; [apply behind_recoverable|].
  pose proof (recover_correct real_text manifest0 name0 [] [entry1] torn1 (behind []) (behind_recoverable [])) as H.
  destruct (LedgerStore.recover _ _) as [self [report|r|]]; [|by destruct H as [H _]..].
  destruct H as (_ & _ & -> & -> & _). split; vm_compute; reflexivity.
Defined.

Lemma reindex_correct_witness :
  represents real_text manifest0 name0 [entry1] [] store1 /\ in_order manifest0 name0 [entry1] [name0] /\
  exists self', LedgerStore.reindex real_text store1 = (self', Done ()) /\ represents real_text manifest0 name0 [reindexed entry1] [] self'.
Proof.
  split; [exact (proj1 store1_represents)|]. split; [exact in_order1|].
  pose proof (reindex_correct real_text manifest0 name0 [entry1] [name0] store1 (proj1 store1_represents) in_order1 (proj1 store1_ready)) as H.
  destruct (LedgerStore.reindex _ _) as [self [[]|r|]]; [|by destruct H as [H _]; destruct (H (proj2 store1_ready))..].
  exists self. split; [done|]. apply H.
Defined.

Lemma rebuild_correct_witness :
  represents real_text manifest0 name0 [entry1] [] store1 /\ in_order manifest0 name0 [entry1] [name0] /\
  exists self', LedgerStore.rebuild_lookup_index real_text store1 = (self', Done ()) /\ lookup_complete real_text [entry1] self'.
Proof.
  split; [exact (proj1 store1_represents)|]. split; [exact in_order1|].
  pose proof (rebuild_correct real_text manifest0 name0 [entry1] [name0] store1 (proj1 store1_represents) in_order1 (proj1 store1_ready)) as H.
  destruct (LedgerStore.rebuild_lookup_index _ _) as [self [[]|r|]]; [|by destruct H as [H _]; destruct (H (proj2 store1_ready))..].
  exists self. split; [done|]. apply H.
Defined.

Lemma lookups_correct_witness :
  live real_text [entry1] store1 /\ text (s_id entry1) /\
  exists rec, StoreReads.by_digest (s_id entry1) store1 = (store1, Done (Some rec)) /\ lr_seq rec = 1.
Proof.
  assert (T : text (s_id entry1)) by (apply plain_text; vm_compute; reflexivity).
  split; [exact live1|]. split; [exact T|].
  destruct (lookups_correct real_text [entry1] store1 0 5 (s_id entry1) live1 ltac:(lia) ltac:(lia) T) as (_ & _ & H).
  eexists. split; [rewrite H; vm_compute; reflexivity|]. reflexivity.
Defined.

(** ** A closed segment *)
Module DemoClosed.
Definition name1 : pystr := segment_name 2.
Definition closed0 : SegmentEntry :=
  {| se_name := JStr name0; se_mounted := true; se_manifest := JStr (str "segments/log.json");
     se_checkpoint_root := JStr (str "00"); se_mmr_size := JInt 1 |}.
Definition manifest1 : StoreManifest :=
  {| st_log_id := JStr (str "log"); st_active_segment := JStr name1; st_segments := [closed0; new_entry name1] |}.
Definition file0 : File := {| data := line_of entry1; durable := length (line_of entry1) |}.

Definition disk1 : Store.Disk :=
  {| segments := {[ name0 := file0; name1 := {| data := []; durable := 0 |} ]}; archived := ∅; closed := ∅;
     manifest_json := Some (store_to_dict manifest1); records := records (disk store1); lookup_file := no_lookup; lookup_config := None |}.

Definition store2 : LedgerStore () := LedgerStore.opened config disk1 (Some manifest1) [] None false [].

Lemma archivable0 : archivable manifest1 name0 closed0 file0 store2.
Proof. constructor; reflexivity. Qed.

Definition signed_request : AdmissionRequest :=
  {| mode := SIGNED; envelopes := [DemoAac.sign Byte.x07 (s_id entry1)] |}.
Definition signed1 : Stored := Eval vm_compute in
  match append_spec real_text name0 [] capsule1 true (Some signed_request) with Ok s => s | Raise _ => entry1 end.
End DemoClosed.

Lemma unmount_mount_witness :
  archivable DemoClosed.manifest1 name0 DemoClosed.closed0 DemoClosed.file0 DemoClosed.store2 /\
  exists row self1, r_segment row = name0 /\
    StoreReads.unmount_segment name0 DemoClosed.store2 = (self1, Done ()) /\
    LedgerStore._row_to_record row self1 = (self1, Raised (Unmounted (JStr (str "00")) (JInt 1) name0)) /\
    StoreReads.mount_segment name0 self1 = (DemoClosed.store2, Done ()).
Proof.
  split; [exact DemoClosed.archivable0|].
  set (row := {| r_seq := 1; r_capsule_id := s_id entry1; r_segment := name0; r_offset := 0; r_timestamp := None; r_operator := None;
                 r_developer := None; r_action_type := None; r_verdict_class := None; r_parent_capsule_id := None;
                 r_chain_relation := None; r_consequential := true; r_authenticity := AUTHENTICITY_UNSIGNED |}).
  destruct (unmount_mount DemoClosed.manifest1 name0 DemoClosed.closed0 DemoClosed.file0 DemoClosed.store2 row
    DemoClosed.archivable0 eq_refl) as (self1 & Hu & Hr & _ & Hm).
  exists row, self1. split; [reflexivity|]. split; [exact Hu|]. split; [exact Hr|exact Hm].
Defined.

Lemma signed_reverifies_witness :
  append_spec real_text name0 [] capsule1 true (Some DemoClosed.signed_request) = Ok DemoClosed.signed1 /\
  LedgerStore._reindex_authenticity (s_capsule DemoClosed.signed1) = Ok AUTHENTICITY_SIGNED.
Proof.
  assert (E : append_spec real_text name0 [] capsule1 true (Some DemoClosed.signed_request) = Ok DemoClosed.signed1)
    by (vm_compute; reflexivity).
  split; [exact E|].
  destruct (signed_reverifies real_text name0 [] capsule1 true (Some DemoClosed.signed_request) DemoClosed.signed1 E)
    as (_ & H & _); [vm_compute; reflexivity|exact H].
Defined.

(** ** Runs of a store that rotates *)
Module StoreRuns.
#[export] Existing Instance Sha256.hashlib.
#[export] Existing Instance plain_interp.
#[export] Existing Instance DemoAac.aac.

Definition Ckpt : Type := MmrCheckpointer scanned MemoryNodeStore.
#[export] Instance rotating : Checkpointer Ckpt := MmrCheckpointer.checkpointer 0.

Definition real_text (literal : pystr) : option pystr := Some literal.
Definition signer : Signer := {| key_id := str "01"; sign := fun _ => Ok (str "02") |}.
Definition checkpointer0 : Ckpt :=
  {| mc_mmr := Build_MmrLedger (Ok []) MemoryNodeStore.__init__ []; mc_signer := signer; mc_log_id := str "log"; mc_prev := None |}.

Definition config (managed : bool) (bytes : Z) : Config :=
  {| rotate_at_checkpoint := managed; segment_max_records := 20000; max_segment_bytes := bytes; store_log_id := str "log" |}.
Definition empty_disk : Disk :=
  {| segments := ∅; archived := ∅; closed := ∅; manifest_json := None; records := []; lookup_file := no_lookup; lookup_config := None |}.

Definition fields : list pystr := [str "exchange_id"; str "peers"].
Definition open_on (c : Config) (io : list fault) (d : Disk) : LedgerStore Ckpt := (LedgerStore.__init__ c fields true io d).1.
Definition rotated (bytes : Z) (io : list fault) : LedgerStore Ckpt :=
  set_mem (with_attached checkpointer0) (open_on (config true bytes) io empty_disk).

Definition capsule_of (n : string) : json := JDict [(str "exchange_id", JStr (str n)); (str "timestamp", JStr (str "2026-01-01T00:00:00Z"))].
Definition append_ (capsule : json) : M Ckpt LedgerRecord := LedgerStore.append real_text capsule true None.

(** What a run ends with. *)
Definition raised_by {A} (r : LedgerStore Ckpt * outcome A) : option exn :=
  match r.2 with Raised e => Some (LedgerStore.exn_of e) | _ => None end.
Definition answer {A B} (f : A -> B) (r : LedgerStore Ckpt * outcome A) : option B :=
  match r.2 with Done a => Some (f a) | _ => None end.
Definition seqs_of (rs : list LedgerRecord) : list Z := map lr_seq rs.

(** The process ends and another opens the store. *)
Definition reopen (c : Config) (self : LedgerStore Ckpt) : LedgerStore Ckpt := open_on c [] (disk self).
End StoreRuns.

(** ** Where the ledger store does not do what it says

    Concrete runs of the definitions of [Store] and [StoreReads]: an archived
    segment and the next rotation, crashes of an unmanaged store, a rotation
    whose manifest is not saved, an envelope the producer declared unsigned,
    and lookups whose answers depend on whether the index is there. *)
Import StoreRuns.

(** ** Archiving and rotation

    A checkpoint scans every record of the store, the ones of archived
    segments too. Once a segment is unmounted, an append that crosses the
    threshold stores its record and then raises. *)
Example rotation_after_unmount :
  let first := (append_ (capsule_of "a") (rotated 1 [])).1 in
  let archived := (StoreReads.unmount_segment (segment_name 1) first).1 in
  let second := append_ (capsule_of "b") archived in
  answer lr_seq (append_ (capsule_of "a") (rotated 1 [])) = Some 1 /\
  answer lr_seq (append_ (capsule_of "b") first) = Some 2 /\
  raised_by second = Some SegmentUnmounted /\ length (records (disk second.1)) = 2%nat.
Proof. vm_compute. repeat split. Qed.

(** ** A manifest that is not saved

    The manifest in memory is replaced before the file is. Here the save at
    the end of a rotation fails: the next append goes to a segment the
    manifest on disk does not list, and once the store is opened again a
    reindex drops its record. *)
Definition save_fails : list fault :=
  (* opening: segment, manifest *) [Fine; Fine; Fine;
  (* line, sync, row, lookup row *) Fine; Fine; Fine; Fine;
  (* rotation: sync, closed manifest, new segment *) Fine; Fine; Fine; Fine;
  (* manifest *) Fails 0].

Example unsaved_manifest :
  let first := append_ (capsule_of "a long first record") (rotated 60 save_fails) in
  let second := append_ (capsule_of "b") first.1 in
  let reopened := reopen (config true 60) second.1 in
  raised_by first = Some OSError /\ answer lr_seq second = Some 2 /\
  map r_segment (records (disk second.1)) = [segment_name 1; segment_name 2] /\
  answer id (LedgerStore.reindex real_text reopened) = Some () /\
  map r_segment (records (disk (LedgerStore.reindex real_text reopened).1)) = [segment_name 1].
Proof. vm_compute. repeat split. Qed.

(** ** An unmanaged store

    Recovery is for managed stores. After a crash in the middle of a line an
    unmanaged store opens and writes behind the torn bytes; the record is
    served, and no reindex gets past the line. *)
Example unmanaged_torn_line :
  let crashed := (append_ (capsule_of "a") (open_on (config false 5000) [Fine; Dies 5] empty_disk)).1 in
  let reopened := reopen (config false 5000) crashed in
  let second := append_ (capsule_of "b") reopened in
  answer lr_seq second = Some 1 /\
  raised_by (LedgerStore.recover real_text reopened) = Some ValueError /\
  raised_by (LedgerStore.reindex real_text second.1) = Some ValueError.
Proof. vm_compute. repeat split. Qed.

(** ** Envelopes

    A capsule may carry [signature] and [key_id] of its own and be submitted
    with the mode UNSIGNED. It is recorded as unsigned, and its line is then
    indistinguishable from a signed one: a lookup through the index, and every
    reindex, call it signed. *)
Definition sealed : json :=
  match capsule_of "a" with
  | JDict d =>
      match DemoAac.id_of (JDict d) with
      | Ok cid => JDict (dict_set (dict_set d (str "signature") (envelope (DemoAac.sign Byte.x07 cid))) (str "key_id")
                                  (env_key_id (DemoAac.sign Byte.x07 cid)))
      | Raise _ => JNull
      end
  | v => v
  end.

Definition records_of {A} (r : LedgerStore Ckpt * outcome A) : list (Z * pystr) :=
  map (fun row => (r_seq row, r_authenticity row)) (records (disk r.1)).
Definition found (r : LedgerStore Ckpt * outcome (option LedgerRecord)) : option pystr :=
  match r.2 with Done (Some rec) => Some (lr_authenticity rec) | _ => None end.

Example declared_unsigned :
  let self := (append_ sealed (open_on (config true 5000) [] empty_disk)).1 in
  let cid := match DemoAac.id_of sealed with Ok cid => cid | Raise _ => [] end in
  found (StoreReads.fetch cid self) = Some AUTHENTICITY_UNSIGNED /\
  found (StoreReads.by_digest cid self) = Some AUTHENTICITY_SIGNED /\
  records_of (LedgerStore.reindex real_text self) = [(1, AUTHENTICITY_SIGNED)].
Proof. vm_compute. repeat split. Qed.

(** ** Lookups with and without the index

    A query that the index cannot answer is answered by a scan. The two do not
    agree on a record whose two correlation fields carry the same id, which
    the index returns twice, nor on a record without a timestamp when only an
    end is given. *)
Definition twice : json := JDict [(str "exchange_id", JStr (str "x")); (str "peers", JList [JStr (str "x")])].
Definition unindexed (self : LedgerStore Ckpt) : LedgerStore Ckpt := set_mem (with_lookup None) self.

Example correlation_twice :
  let self := (append_ twice (open_on (config true 5000) [] empty_disk)).1 in
  answer seqs_of (StoreReads.by_correlation (str "x") self) = Some [1; 1] /\
  answer seqs_of (StoreReads.by_correlation (str "x") (unindexed self)) = Some [1].
Proof. vm_compute. repeat split. Qed.

Example end_without_timestamp :
  let self := (append_ twice (open_on (config true 5000) [] empty_disk)).1 in
  answer seqs_of (StoreReads.by_time None (Some (str "2026")) self) = Some [] /\
  answer seqs_of (StoreReads.by_time None (Some (str "2026")) (unindexed self)) = Some [1].
Proof. vm_compute. repeat split. Qed.

(** ** Prefixes

    [fetch] returns the first record whose id begins with the text, however
    many do, and reads [%] and [_] as wildcards. *)
Definition two_records : LedgerStore Ckpt :=
  (append_ (capsule_of "b") (append_ (capsule_of "a") (open_on (config true 5000) [] empty_disk)).1).1.
Definition fetched (s : string) : option Z :=
  match (StoreReads.fetch (str s) two_records).2 with Done (Some rec) => Some (lr_seq rec) | _ => None end.

Example ambiguous_prefix : fetched "" = Some 1 /\ fetched "_" = Some 1 /\ fetched "%" = Some 1.
Proof. vm_compute. repeat split. Qed.

(** ** Correlation ids that are not text

    An id with a lone surrogate is committed to the records index and then
    refused by the lookup index: the append raises though the record is
    stored, and every recovery of the store opened again raises too. *)
Definition surrogate : json := JDict [(str "exchange_id", JStr [0xD800])].

Example surrogate_correlation :
  let first := append_ surrogate (open_on (config true 5000) [] empty_disk) in
  let reopened := reopen (config true 5000) first.1 in
  raised_by first = Some UnicodeError /\ length (records (disk first.1)) = 1%nat /\
  raised_by (LedgerStore.recover real_text reopened) = Some UnicodeError /\
  raised_by (LedgerStore.recover real_text (reopen (config true 5000) (LedgerStore.recover real_text reopened).1)) = Some UnicodeError.
Proof. vm_compute. repeat split. Qed.
