(* ===== verification/StoreRotation.v ===== *)
(** * Closing a segment

    A store whose checkpointer is the package's [MmrCheckpointer] over the
    store itself: when the active segment is large enough, the append that
    made it so signs a checkpoint of all the entries, writes the segment's
    manifest and goes on in a new segment. Every closed segment verifies. *)
From S2P Require Import Prelude Bytes Text Py Json JsonProps PyJson JsonBytes Sha256 MmrPos Mmr MmrSpec MmrProof MmrPath Inclusion Consistency Range Index Cll Calendar Ed25519 Emit EmitProps CoseWire Bundle Admission Segments Lookup Store StoreReads StoreLogic StoreSpec StoreAppend StoreRecover StoreReindex StoreReadsProps StoreExamples.
From S2P Require Import Jsonl JsonlProps.
Open Scope Z_scope.
Open Scope store_scope.

(** ** The checkpointer of a store *)
Section checkpointer.
Context {PI : Interp} {HL : Hashlib} {St : Type} {NS : NodeStore St} {NSL : NodeStoreLaws St}.
Variable now : Z.
Implicit Types (ck : MmrCheckpointer scanned St) (bodies : list bytes).

(** It has indexed some first records of the log, its last checkpoint covers
    at most [n] of them, and it can sign. *)
Record follows_log (bodies : list bytes) (n : Z) ck : Prop := {
  fl_count : 0 <= n;
  fl_indexed : indexed (mc_mmr ck);
  fl_prefix : _body_digests (mc_mmr ck) `prefix_of` bodies;
  fl_prev : forall p, mc_prev ck = Some p -> exists k, 0 <= k <= n /\ c_mmr_size p = nc k /\
    c_log_id p = JStr (mc_log_id ck) /\ c_root p = JStr (hex (mmr_root (map lh (take (Z.to_nat k) bodies))));
  fl_signs : Emission.signs (mc_signer ck);
  fl_texts : text (key_id (mc_signer ck)) /\ text (mc_log_id ck) /\ text (second_text now)
}.

Lemma follows_more bodies b n ck : n <= zlen bodies -> follows_log bodies n ck -> follows_log (bodies ++ [b]) n ck.
Proof.
  intros Hn [Hc Hi Hp Hprev Hs Ht]. constructor; try done; [by apply prefix_app_r|].
  intros p E. destruct (Hprev p E) as (k & Hk & H1 & H2 & H3). exists k. split_and!; try done; [lia..|].
  rewrite H3. rewrite take_app_le; [done|]. unfold zlen in *. lia.
Qed.

Definition all_root bodies : json := JStr (hex (mmr_root (map lh bodies))).

(** The checkpoint it takes of a log that grew. *)
Lemma take_checkpoint_eq bodies n ck :
  follows_log bodies n ck -> n < zlen bodies -> Forall is_digest bodies -> nc (zlen bodies) < MAX_MMR_SIZE ->
  exists ck',
    take_checkpoint (Checkpointer := MmrCheckpointer.checkpointer now) ck (Ok (Index.records_from 1 bodies))
      = (ck', Ok (all_root bodies, nc (zlen bodies))) /\
    _body_digests (mc_mmr ck') = bodies /\ follows_log bodies (zlen bodies) ck'.
Proof.
  intros [Hc Hi Hp Hprev Hs (Hk & Hl & Ht)] Hn Hd Hmax. cbn [take_checkpoint MmrCheckpointer.checkpointer].
  unfold MmrCheckpointer.checkpoint. set (ck0 := MmrCheckpointer.over ck _).
  destruct (sync_eq (LS := scanned_log) (mc_mmr ck0) bodies Hi Hp Hd Hmax eq_refl) as (mmr & -> & Hi' & Eb & El).
  assert (exists cp, emit_checkpoint mmr (mc_signer ck) (mc_log_id ck) (mc_prev ck) None now = Ok cp /\
    c_root cp = all_root bodies /\ c_mmr_size cp = nc (zlen bodies) /\ c_log_id cp = JStr (mc_log_id ck)) as (cp & Ec & Er & Ez & Elog).
  { assert (exists k, forall p, mc_prev ck = Some p -> 0 <= k <= n /\ c_mmr_size p = nc k /\
      c_log_id p = JStr (mc_log_id ck) /\ c_root p = JStr (hex (mmr_root (map lh (take (Z.to_nat k) bodies))))) as [k Hk'].
    { destruct (mc_prev ck) as [p|]; [|by exists 0]. destruct (Hprev p eq_refl) as (k & H). exists k. by intros ? [= <-]. }
    rewrite (Emission.emit_checkpoint_eq mmr _ _ _ _ _ k); [|done|by rewrite Eb|intros p E; destruct (Hk' p E) as (? & ? & _); split; [lia|done]].
    rewrite Eb. unfold Emission.emission. pose proof (zlen_nonneg bodies).
    destruct (Emission.signed_total (mc_signer ck) (Emission.unsigned bodies (mc_signer ck) (mc_log_id ck) (second_text now) (mc_prev ck)))
      as [cp Hcp]; [done| |].
    { apply Emission.unsigned_typed; try done. intros p E. destruct (Hk' p E) as (Hkn & -> & _ & ->).
      pose proof (nc_lt k (zlen bodies)). pose proof (nc_ge k). unfold MAX_MMR_SIZE in *. split; [lia|by eexists]. }
    assert (Emission.signed (mc_signer ck) (Emission.unsigned bodies (mc_signer ck) (mc_log_id ck) (second_text now) (mc_prev ck)) = Ok cp ->
      c_root cp = all_root bodies /\ c_mmr_size cp = nc (zlen bodies) /\ c_log_id cp = JStr (mc_log_id ck)) as Hf.
    { intros E%Emission.signed_fields. destruct E as (_ & -> & -> & -> & _). done. }
    exists cp. split; [|by apply Hf]. rewrite (proj2 (Z.eqb_neq (zlen bodies) 0)) by lia.
    change (default (second_text now) None) with (second_text now).
    destruct (mc_prev ck) as [p|] eqn:Ep; [|exact Hcp]. destruct (Hk' p eq_refl) as (Hkn & _ & El' & Er').
    rewrite El', Er'. cbn [is_text]. rewrite !bool_decide_true by done. cbn [negb]. by rw_bool (zlen bodies <=? k) false. }
  change (mc_signer (MmrCheckpointer.with_mmr ck0 mmr (mc_prev ck0))) with (mc_signer ck).
  cbn [MmrCheckpointer.with_mmr ck0 MmrCheckpointer.over mc_signer mc_log_id mc_prev]. rewrite Ec.
  eexists. split; [by rewrite Er, Ez|]. split; [exact Eb|]. constructor; try done.
  - apply zlen_nonneg.
  - change (_body_digests mmr `prefix_of` bodies). by rewrite Eb.
  - intros p [= <-]. exists (zlen bodies). split; [split; [apply zlen_nonneg|lia]|]. split; [done|]. split; [exact Elog|].
    unfold zlen. by rewrite Nat2Z.id, take_ge.
Qed.
End checkpointer.

(** ** The manifest of a closed segment *)
Section manifest.
Context {PI : Interp} {HL : Hashlib}.

Definition proof_of (first last size : Z) (out : list bytes) : SeqRangeProof :=
  {| srp_from_seq := PInt first; srp_to_seq := PInt last; srp_size := PInt size;
     srp_from_index := PInt (first - 1); srp_to_index := PInt (last - 1); srp_witness := hex_tuple out |}.

Lemma range_proof_shape {L capsule St} {LS : LogSource L capsule} {NS : NodeStore St} (self : MmrLedger L St) first last p :
  Index.range_proof self first last = Ok p -> 0 <= last -> nc last < MAX_MMR_SIZE ->
  exists out, p = proof_of first last (nc last) out.
Proof.
  unfold Index.range_proof, Range.range_proof. destruct (_ || _); [done|]. intros H Hl Hmax. rewrite node_count_nc in H by lia.
  cbn [as_strict_int] in H. destruct (last - 1 <? first - 1); [done|]. destruct (first - 1 <? 0); [done|].
  destruct (leaf_count _); [|done]. destruct (_ <=? _); [done|]. destruct (_ <? _); [done|]. destruct (peaks _); [|done].
  destruct (range_peaks _ _ _ _ _ _) as [out|]; [|done]. injection H as <-. by exists out.
Qed.

(** What is written is read back. *)
Lemma json_texts l : map_result LedgerStore.py_json (map (fun h => PStr (hex h)) l) = Ok (map (fun h => JStr (hex h)) l).
Proof. induction l as [|x l IH]; [done|]. cbn [map map_result LedgerStore.py_json]. by rewrite IH. Qed.

Definition proof_json (first last size : Z) (out : list bytes) : json :=
  JDict [(str "from_seq", JInt first); (str "to_seq", JInt last); (str "size", JInt size); (str "from_index", JInt (first - 1));
         (str "to_index", JInt (last - 1)); (str "witness", JList (map (fun h => JStr (hex h)) out))].

Lemma range_proof_roundtrip first last size out :
  (let! d := _range_proof_to_dict (proof_of first last size out) in LedgerStore.py_json d) = Ok (proof_json first last size out) /\
  _range_proof_from_dict (proof_json first last size out) = Ok (proof_of first last size out).
Proof.
  split.
  - unfold _range_proof_to_dict. cbn [srp_witness proof_of hex_tuple list_of py_iter LedgerStore.py_json map_result].
    cbn [srp_from_seq srp_to_seq srp_size srp_from_index srp_to_index proof_of text_key]. by rewrite json_texts.
  - assert (map json_py (map (fun h => JStr (hex h)) out) = map (fun h => PStr (hex h)) out) as E by (rewrite map_map; done).
    unfold _range_proof_from_dict, proof_json, tuple_field, tuple_of.
    change (subscript _ (str "witness")) with (Ok (JList (map (fun h => JStr (hex h)) out))). cbn [iterate]. rewrite E. reflexivity.
Qed.

Definition manifest_json_of (sm : SegmentManifest) (proof : json) : json :=
  JDict [(str "log_id", sm_log_id sm); (str "first_seq", JInt (sm_first_seq sm)); (str "last_seq", JInt (sm_last_seq sm));
         (str "first_ts", sm_first_ts sm); (str "last_ts", sm_last_ts sm); (str "checkpoint_root", sm_checkpoint_root sm);
         (str "mmr_size", JInt (sm_mmr_size sm)); (str "bytes", JInt (sm_bytes sm)); (str "record_count", JInt (sm_record_count sm));
         (str "sha256_of_segment", sm_sha256_of_segment sm); (str "range_proof", proof)].

(** A text or null is written as it is. *)
Definition plain_field (v : json) : Prop := LedgerStore.py_json (json_py v) = Ok v.

Lemma manifest_roundtrip sm first last size out :
  Forall plain_field [sm_log_id sm; sm_first_ts sm; sm_last_ts sm; sm_checkpoint_root sm; sm_sha256_of_segment sm] ->
  sm_range_proof sm = proof_of first last size out ->
  exists v, (let! d := manifest_to_dict sm in LedgerStore.py_json d) = Ok v /\ manifest_from_dict v = Ok sm.
Proof.
  intros Hf Hp. destruct (range_proof_roundtrip first last size out) as [H1 H2].
  exists (manifest_json_of sm (proof_json first last size out)).
  repeat (apply Forall_cons in Hf as [? Hf]). unfold plain_field in *. unfold manifest_to_dict. rewrite Hp. split.
  - destruct (_range_proof_to_dict (proof_of first last size out)) as [d|]; [|done].
    cbn [LedgerStore.py_json map_result text_key].
    repeat match goal with H : LedgerStore.py_json _ = Ok _ |- _ => rewrite H; clear H end. reflexivity.
  - destruct sm as [lg fs ls ft lt rt sz nb ct sh pr]. change (pr = proof_of first last size out) in Hp. subst pr.
    transitivity (let! p := _range_proof_from_dict (proof_json first last size out) in
      Ok (Build_SegmentManifest lg fs ls ft lt rt sz nb ct sh p)); [reflexivity|by rewrite H2].
Qed.

Lemma plain_text_field o : plain_field (LedgerStore.json_text o).
Proof. by destruct o. Qed.
End manifest.

(** ** Names and rows *)
Lemma pad_dec k n : 0 <= n -> dec_value (pad k n) = n.
Proof.
  intros Hn. unfold pad. rewrite dec_value_app, str_nat_value by done.
  assert (dec_value (repeat 48 (k - length (str_nat n))) = 0) as ->; [|lia].
  induction (k - length (str_nat n))%nat as [|j IH]; [done|]. change (repeat 48 (S j)) with ([48] ++ repeat 48 j).
  rewrite dec_value_app, IH. change (dec_value [48]) with 0. lia.
Qed.

(** The [i]th segment, from zero. *)
Definition seg_name (i : nat) : pystr := segment_name (Z.of_nat i + 1).

Lemma seg_name_inj i j : seg_name i = seg_name j -> i = j.
Proof.
  unfold seg_name, segment_name. intros E%app_inv_head%app_inv_tail. apply (f_equal dec_value) in E.
  rewrite !pad_dec in E by lia. lia.
Qed.

Lemma str_int_inj a b : 0 <= a -> 0 <= b -> str_int a = str_int b -> a = b.
Proof.
  intros Ha Hb. unfold str_int. rw_bool (a <? 0) false. rw_bool (b <? 0) false. intros E.
  apply (f_equal dec_value) in E. by rewrite !str_nat_value in E.
Qed.

Lemma manifest_filename_inj log a b : 0 <= a -> 0 <= b -> manifest_filename log a = manifest_filename log b -> a = b.
Proof. intros Ha Hb E%app_inv_head%app_inv_head%app_inv_tail. by apply str_int_inj. Qed.

Section rows.
Context {PI : Interp} {HL : Hashlib} {AC : AgentActionCapsule}.
Variable real_text : pystr -> option pystr.

Lemma in_segment_none name es : Forall (fun s => s_segment s <> name) es -> in_segment name es = [].
Proof.
  induction 1 as [|s es Hs _ IH]; [done|]. change (s :: es) with ([s] ++ es).
  by rewrite in_segment_app, in_segment_one, bool_decide_false, IH.
Qed.

Lemma in_segment_same name es : Forall (fun s => s_segment s = name) es -> in_segment name es = es.
Proof.
  induction 1 as [|s es Hs _ IH]; [done|]. change (s :: es) with ([s] ++ es).
  by rewrite in_segment_app, in_segment_one, bool_decide_true, IH.
Qed.

(** The rows of a segment. *)
Lemma filter_rows name seq es rs :
  rows_at real_text seq es = Ok rs ->
  (Forall (fun s => s_segment s <> name) es -> List.filter (fun r => bool_decide (r_segment r = name)) rs = []) /\
  (Forall (fun s => s_segment s = name) es -> List.filter (fun r => bool_decide (r_segment r = name)) rs = rs).
Proof.
  intros H%rows_at_Forall2. induction H as [|s r es rs [i Hr] _ IH]; [done|]. apply row_fields in Hr as (_ & _ & E & _).
  split; intros [Hs Hes]%Forall_cons; cbn [List.filter]; rewrite E.
  - rewrite bool_decide_false by done. by apply IH.
  - rewrite bool_decide_true by done. f_equal. by apply IH.
Qed.

Lemma segment_rows name before own rs :
  rows_at real_text 1 (before ++ own) = Ok rs ->
  Forall (fun s => s_segment s <> name) before -> Forall (fun s => s_segment s = name) own ->
  rows_at real_text (zlen before + 1) own = Ok (List.filter (fun r => bool_decide (r_segment r = name)) rs).
Proof.
  rewrite rows_at_app. intros H Hb Ho. destruct (rows_at real_text 1 before) as [r1|] eqn:E1; [|done].
  destruct (rows_at real_text (1 + zlen before) own) as [r2|] eqn:E2; [|done]. injection H as <-.
  rewrite List.filter_app, (proj1 (filter_rows name _ _ _ E1) Hb), (proj2 (filter_rows name _ _ _ E2) Ho).
  rewrite Z.add_comm. done.
Qed.

(** Their first and last sequence numbers. *)
Lemma rows_bounds seq es r rest :
  rows_at real_text seq es = Ok (r :: rest) ->
  fold_right Z.min (r_seq r) (map r_seq rest) = seq /\ fold_right Z.max (r_seq r) (map r_seq rest) = seq + zlen es - 1.
Proof.
  intros H. pose proof (rows_length real_text _ _ _ H) as Hl. pose proof (rows_seqs real_text _ _ _ H) as Hs. rewrite <- Hl. clear H Hl es.
  assert (r_seq r = seq) as Hr by (rewrite (Hs 0%nat r eq_refl); lia).
  assert (forall l n, (forall i x, l !! i = Some x -> r_seq x = seq + 1 + n + Z.of_nat i) -> 0 <= n ->
    fold_right Z.min seq (map r_seq l) = seq /\ fold_right Z.max seq (map r_seq l) = if zlen l =? 0 then seq else seq + n + zlen l) as H.
  { induction l as [|x l IH]; intros n Hx Hn; [done|]. cbn [map fold_right].
    destruct (IH (n + 1)) as [-> ->]; [|lia|].
    - intros i y Hi. rewrite (Hx (S i) y Hi). lia.
    - rewrite (Hx 0%nat x eq_refl), zlen_cons. pose proof (zlen_nonneg l). rewrite (proj2 (Z.eqb_neq (1 + zlen l) 0)) by lia.
      destruct (zlen l =? 0) eqn:E; zbool; lia. }
  rewrite Hr. destruct (H rest 0) as [-> ->]; [|lia|].
  - intros i x Hx. rewrite (Hs (S i) x Hx). lia.
  - split; [done|]. rewrite zlen_cons. destruct (zlen rest =? 0) eqn:E; zbool; lia.
Qed.
End rows.

(** ** What the manifest seals *)

(** An id that is the hexadecimal form of a digest. *)
Definition id_digest `{Hashlib} (s : Stored) (b : bytes) : Prop := is_digest b /\ s_id s = hex b.

Section seal.
Context {PI : Interp} {HL : Hashlib} {AC : AgentActionCapsule}.
Variable real_text : pystr -> option pystr.

Lemma own_digests own bs :
  Forall (stored_ok real_text) own -> Forall2 id_digest own bs ->
  map_result (body_digest_of (str "capsule_id")) (map s_capsule own) = Ok bs.
Proof.
  intros Hok H. induction H as [|s b own bs [_ Hs] H IH]; [done|]. apply Forall_cons in Hok as [Hok Hoks].
  cbn [map map_result]. rewrite IH by done. pose proof (so_id _ _ Hok) as Hid. unfold LedgerStore.line_id in Hid. unfold body_digest_of.
  destruct (get_or (s_capsule s) (str "capsule_id") JNull) as [given|]; [|done]. unfold given_or in Hid.
  destruct (truthy given).
  - injection Hid as ->. cbn [fromhex_of]. by rewrite Hs, fromhex_hex.
  - destruct (compute_capsule_id (s_capsule s)) as [id|]; [|done]. injection Hid as ->. by rewrite Hs, fromhex_hex.
Qed.

Lemma own_text own : concat (map line_of own) = map z2b (segment_text (map s_line own)).
Proof.
  unfold segment_text, line_of, LedgerStore.line_bytes. induction own as [|s own IH]; [done|]. cbn [map concat].
  rewrite (map_app z2b (line_text _)), <- IH. done.
Qed.

Lemma id_digests es bodies : Forall2 id_digest es bodies -> Forall is_digest bodies /\ zlen bodies = zlen es.
Proof.
  intros H. split.
  - induction H as [|s b es bodies [Hb _] H IH]; by constructor.
  - unfold zlen. by rewrite (Forall2_length _ _ _ H).
Qed.

Context {L capsule St : Type} {LS : LogSource L capsule} {NS : NodeStore St} {NSL : NodeStoreLaws St}.

Lemma closed_verifies (mmr : MmrLedger L St) before own bodies data sm :
  indexed mmr -> _body_digests mmr = bodies -> nc (zlen bodies) < MAX_MMR_SIZE ->
  Forall2 id_digest (before ++ own) bodies -> own <> [] -> Forall (stored_ok real_text) own -> data = concat (map line_of own) ->
  sm_first_seq sm = zlen before + 1 -> sm_last_seq sm = zlen bodies -> sm_record_count sm = zlen own ->
  sm_sha256_of_segment sm = JStr (hex (sha256 data)) -> sm_checkpoint_root sm = all_root bodies ->
  Index.range_proof mmr (zlen before + 1) (zlen bodies) = Ok (sm_range_proof sm) ->
  verify_segment data sm (str "capsule_id") = (true, []).
Proof.
  intros Hi Hb Hmax Hids Hne Hok -> Hf Hl Hc Hsha Hr Hp. pose proof (id_digests _ _ Hids) as [_ Hlen].
  apply Forall2_app_inv_l in Hids as (bs & ds & Hbs & Hds & E). rewrite zlen_app in Hlen.
  pose proof (zlen_nonneg before). assert (0 < zlen own) as Hpos by (destruct own; [done|]; rewrite zlen_cons; pose proof (zlen_nonneg own); lia).
  rewrite own_text in *.
  apply (segment_complete mmr (zlen before + 1) (zlen bodies) (map s_capsule own) (map s_line own)).
  - done.
  - lia.
  - unfold Index.leaf_count. by rewrite Hb.
  - done.
  - apply Forall_map. eapply Forall_impl; [exact Hok|]. intros s Hs. split; [apply Hs|]. pose proof (so_dict _ _ Hs).
    destruct (s_capsule s); try done. by eexists.
  - clear -Hok. induction Hok as [|s own Hs _ IH]; [done|]. cbn [map map_result]. by rewrite (so_line _ _ Hs), IH.
  - rewrite (own_digests own ds) by done. f_equal. rewrite Hb, E. unfold py_slice. apply Forall2_length in Hbs, Hds.
    rewrite zlen_app. unfold zlen in *. rewrite drop_app_length', take_ge by lia. done.
  - constructor; [done|done|lia|done| |done]. exists (mmr_root (map lh bodies)). split; [|done].
    rewrite root_at_eq by (done || rewrite Hb; lia). rewrite Hb. unfold zlen. by rewrite Nat2Z.id, take_ge.
Qed.
End seal.

(** ** The rotation *)
Section rotation.
Context {PI : Interp} {HL : Hashlib} {AC : AgentActionCapsule} {St : Type} {NS : NodeStore St} {NSL : NodeStoreLaws St}.
Variables (now : Z) (real_text : pystr -> option pystr).
#[local] Notation C := (MmrCheckpointer scanned St).
#[local] Instance own_checkpointer : Checkpointer C := MmrCheckpointer.checkpointer now.
Implicit Types self : LedgerStore C.
Import LedgerStore.
#[local] Abbreviation represents := (represents real_text).

(** A step that meets no fault. *)
Lemma wp_calm e f Q self : faults self = [] -> done Q () (f self) -> wp (atomic e f) Q self.
Proof. intros Hf Hd. unfold wp, atomic, bind, next_fault. by rewrite Hf. Qed.

Lemma wp_saved f Q self : faults self = [] -> done Q () (set_disk f self) -> wp (_atomic_write_text f) Q self.
Proof. intros Hf Hd. unfold _atomic_write_text. wp_step. apply wp_calm; [done|]. wp_red. by apply wp_calm. Qed.

(** The checkpointer answers and is replaced. *)
Lemma wp_checkpointer {A} (f : C -> C * result A) ck ck' a Q self :
  attached (mem self) = Some ck -> f ck = (ck', Ok a) -> done Q a (set_mem (with_attached ck') self) ->
  wp (call_checkpointer f) Q self.
Proof. intros Hat Hf Hd. unfold call_checkpointer. wp_step. wp_step. rewrite Hat, Hf. wp_step. wp_step. by eapply wp_lift_ok. Qed.

(** A store whose next segment is listed, saved and open. *)
Definition reopened (m : StoreManifest) (name : pystr) self : LedgerStore C :=
  set_mem (with_write_segment (Some name))
    (touched name (set_disk (with_manifest_json (store_to_dict (add_segment m name)))
      (set_mem (with_manifest (Some (add_segment m name))) (touched name self)))).

Lemma reopen_wp {A} (a : A) m Q self :
  manifest (mem self) = Some m -> faults self = [] -> rotate_at_checkpoint (cfg self) = true -> write_segment (mem self) = None ->
  done Q a (reopened m (_new_segment_name m) self) ->
  wp start_segment {| done := fun _ => wp (bind _sync_write_segment (fun _ => ret a)) Q; raises := raises Q; dies := dies Q |} self.
Proof.
  intros Hm Hf Hr Hw Hd. unfold start_segment. repeat wp_step. rewrite Hm. wp_step. apply wp_calm; [done|].
  unfold set_manifest, _save_store_manifest, save_store_manifest. repeat wp_step. cbn [set_mem mem with_manifest manifest].
  apply wp_saved; [done|]. wp_red. wp_step. unfold _sync_write_segment. repeat wp_step.
  cbn [cfg set_disk set_mem touched append_to]. rewrite Hr. unfold _sync_write_segment_managed. repeat wp_step.
  cbn [mem set_disk set_mem touched append_to with_manifest manifest add_segment st_active_segment is_none_json]. repeat wp_step.
  cbn [mem set_disk set_mem touched append_to with_manifest manifest add_segment st_active_segment option_map]. unfold point_at. repeat wp_step.
  cbn [mem set_disk set_mem touched append_to with_manifest write_segment]. rewrite Hw, bool_decide_false by done.
  unfold open_append. repeat wp_step. exact Hd.
Qed.

(** The entry of the closed segment. *)
Definition closed_entry (name fname : pystr) (root : json) (size : Z) : SegmentEntry :=
  {| se_name := JStr name; se_mounted := true; se_manifest := JStr (str "segments/" ++ fname);
     se_checkpoint_root := root; se_mmr_size := JInt size |}.

(** The store after the rotation. *)
Record turned (m : StoreManifest) (name name' fname : pystr) (v : json) (ck : C) self self' : Prop := {
  tu_cfg : cfg self' = cfg self;
  tu_faults : faults self' = [];
  tu_segments : segments (disk self') =
    partial_alter (append_file []) name' (partial_alter (append_file []) name' (alter synced name (segments (disk self))));
  tu_archived : archived (disk self') = archived (disk self);
  tu_closed : closed (disk self') = <[fname := v]> (closed (disk self));
  tu_saved : manifest_json (disk self') = Some (store_to_dict m);
  tu_records : records (disk self') = records (disk self);
  tu_lookup : lookup_file (disk self') = lookup_file (disk self);
  tu_mem : mem self' = Build_Memory (Some m) (lookup_index (mem self)) (correlation_fields (mem self)) (Some name')
                         (needs_recover (mem self)) (read_only_unmanaged (mem self)) (Some ck)
}.

Lemma scanned_eq m name es bodies self :
  represents m name es [] self -> Forall (fun s => is_unmounted self (s_segment s) = false) es -> Forall2 id_digest es bodies ->
  scanned_records self = (self, Done (Ok (Index.records_from 1 bodies))).
Proof.
  intros H Hm Hids. unfold scanned_records, catch, bind. rewrite (represented_records real_text m name es) by done.
  cbn [ret]. do 3 f_equal. clear H Hm. generalize 1. induction Hids as [|s b es bodies [_ Hs] _ IH]; intros n; [done|].
  cbn [records_from map Index.records_from]. rewrite IH. unfold record_at. cbn. by rewrite Hs.
Qed.

Lemma rotate_wp m name before own bodies ck e self :
  let size := nc (zlen bodies) in
  let fname := manifest_filename (store_log_id (cfg self)) size in
  let m1 := update_entry name (close_entry name (str "segments/" ++ fname) (all_root bodies) size) m in
  let name' := _new_segment_name m1 in
  represents m name (before ++ own) [] self -> faults self = [] -> write_segment (mem self) = Some name ->
  attached (mem self) = Some ck -> follows_log now bodies (zlen before) ck -> Forall2 id_digest (before ++ own) bodies ->
  own <> [] -> Forall (fun s => s_segment s <> name) before -> Forall (fun s => s_segment s = name) own ->
  Forall (fun s => is_unmounted self (s_segment s) = false) (before ++ own) ->
  nc (zlen bodies) < MAX_MMR_SIZE -> store_entry m name = Some e -> name' <> name ->
  wp _rotate_segment
    {| done := fun sm self' => exists ck' v,
         turned (add_segment m1 name') name name' fname v ck' self self' /\ follows_log now bodies (zlen bodies) ck' /\
         manifest_from_dict v = Ok sm /\ sm_first_seq sm = zlen before + 1 /\ sm_last_seq sm = zlen bodies /\
         sm_checkpoint_root sm = all_root bodies /\
         verify_segment (seg_bytes name (before ++ own)) sm (str "capsule_id") = (true, []);
       raises := fun _ _ => False; dies := fun _ => False |} self.
Proof.
  intros size fname m1 name' H Hf Hh Hat Hck Hids Hne Hbef Hown Hmt Hmax Hent Hfresh.
  pose proof (id_digests _ _ Hids) as [Hdig Hlen]. rewrite zlen_app in Hlen.
  assert (0 < zlen own) as Hpos by (destruct own; [done|]; rewrite zlen_cons; pose proof (zlen_nonneg own); lia).
  destruct (take_checkpoint_eq now bodies (zlen before) ck Hck ltac:(lia) Hdig Hmax) as (ck' & Htake & Hb' & Hck').
  pose proof (zlen_nonneg before).
  destruct (ledger_range_verifies (LS := scanned_log) (mc_mmr ck') (zlen before + 1) (zlen bodies)) as (root & proof & _ & Hproof & _);
    [apply Hck'|lia|unfold Index.leaf_count; rewrite Hb'; lia|done|].
  destruct (range_proof_shape _ _ _ _ Hproof ltac:(lia) Hmax) as [out Eproof].
  pose proof (represents_synced real_text _ _ _ H) as H1. set (self1 := on_file name synced self) in *.
  unfold _rotate_segment. wp_step. wp_step. wp_step. rewrite Hat, Hh. wp_step. wp_step. unfold sync_file. apply wp_calm; [done|]. wp_red.
  fold self1. wp_step. wp_step.
  pose proof (segment_rows real_text name before own (records (disk self1)) (rp_rows _ _ _ _ _ _ H1) Hbef Hown) as Hrows.
  pose proof (rows_length real_text _ _ _ Hrows) as Hcount.
  destruct (List.filter _ (records (disk self1))) as [|r rest]; [rewrite zlen_nil in Hcount; lia|].
  destruct (rows_bounds real_text _ _ _ _ Hrows) as [-> ->]. replace (zlen before + 1 + zlen own - 1) with (zlen bodies) by lia.
  wp_step. eapply wp_runs; [by eapply (scanned_eq m name (before ++ own) bodies self1)|]. wp_red.
  wp_step. eapply wp_checkpointer; [exact Hat|exact Htake|]. wp_red. wp_step.
  eapply wp_checkpointer; [done| |].
  { cbn [take_range_proof own_checkpointer MmrCheckpointer.checkpointer]. unfold MmrCheckpointer.range_proof. rewrite Hproof. reflexivity. }
  wp_red. rewrite Eproof. cbn [srp_size proof_of]. rewrite py_eq_int_refl. cbn [negb]. wp_step. wp_step.
  destruct (represents_active real_text _ _ _ H1) as (f & Hfile & Hdata). rewrite app_nil_r in Hdata.
  wp_step. change (segments (disk (set_mem _ (set_mem _ self1))) !! name) with (segments (disk self1) !! name). rewrite Hfile. wp_step. wp_step.
  match goal with |- context [manifest_to_dict ?s] => set (sm := s) end.
  destruct (manifest_roundtrip sm (zlen before + 1) (zlen bodies) (nc (zlen bodies)) out) as (v & Hv & Hback);
    [repeat constructor; apply plain_text_field|done|].
  eapply wp_lift_ok; [exact Hv|]. wp_red. wp_step. apply wp_saved; [done|]. wp_red. wp_step.
  change (manifest (mem (set_mem _ (set_mem _ self1)))) with (manifest (mem self)). rewrite (rp_manifest _ _ _ _ _ _ H). wp_step.
  repeat wp_step. rewrite Hent. unfold set_manifest, _drop_write_handle. repeat wp_step.
  match goal with |- wp start_segment _ ?s => set (self2 := s) end.
  match goal with |- wp start_segment {| done := fun _ => wp _ ?Q |} _ => apply (reopen_wp sm m1 Q self2) end; [done|done|apply (rp_managed _ _ _ _ _ _ H)|done|]. wp_red. exists ck', v.
  split; [constructor; first [exact Hf|reflexivity]|]. split; [exact Hck'|]. split; [exact Hback|]. do 3 (split; [reflexivity|]).
  apply (closed_verifies real_text (mc_mmr ck') before own bodies); try first [assumption|reflexivity].
  - apply Hck'.
  - by destruct (proj1 (Forall_app _ _ _) (rp_ok _ _ _ _ _ _ H)).
  - unfold seg_bytes. by rewrite in_segment_app, in_segment_none, in_segment_same.
  - rewrite <- Hdata. reflexivity.
  - rewrite Hproof, Eproof. reflexivity.
Qed.

(** ** Stores that rotate

    [parts] are the entries of the closed segments, [own] those of the active
    one, and [bodies] the digests that are their ids. A closed segment is on
    the disk, synced, and the manifest that the store kept of it verifies. *)
Definition sealed (name : pystr) (bodies : list bytes) (e : SegmentEntry) self : Prop :=
  let size := nc (zlen bodies) in
  let fname := manifest_filename (store_log_id (cfg self)) size in
  e = closed_entry name fname (all_root bodies) size /\
  exists f v sm, segments (disk self) !! name = Some f /\ durable f = length (data f) /\
    closed (disk self) !! fname = Some v /\ manifest_from_dict v = Ok sm /\ sm_last_seq sm = zlen bodies /\
    sm_checkpoint_root sm = all_root bodies /\ verify_segment (data f) sm (str "capsule_id") = (true, []).

Definition upto {A} (i : nat) (parts : list (list A)) : list A := concat (take i parts).

Record kept (parts : list (list Stored)) (own : list Stored) (bodies : list bytes) (m : StoreManifest) (ck : C) self : Prop := {
  kp_store : represents m (seg_name (length parts)) (concat parts ++ own) [] self;
  kp_calm : faults self = [];
  kp_ready : needs_recover (mem self) = false /\ read_only_unmanaged (mem self) = false;
  kp_ids : Forall2 id_digest (concat parts ++ own) bodies;
  kp_named : forall i p, (parts ++ [own]) !! i = Some p -> Forall (fun s => s_segment s = seg_name i) p;
  kp_nonempty : Forall (fun p => p <> []) parts;
  kp_free : forall i, (length parts < i)%nat -> segments (disk self) !! seg_name i = None;
  kp_entries : exists entries, st_segments m = entries ++ [new_entry (seg_name (length parts))] /\
    length entries = length parts /\
    forall i e, entries !! i = Some e -> sealed (seg_name i) (take (length (upto (S i) parts)) bodies) e self;
  kp_attached : attached (mem self) = Some ck;
  kp_follows : follows_log now bodies (zlen (concat parts)) ck
}.

Lemma all_mounted self m :
  manifest (mem self) = Some m -> Forall (fun e => se_mounted e = true) (st_segments m) -> forall seg, is_unmounted self seg = false.
Proof.
  intros Hm H seg. unfold is_unmounted, segment_entry. rewrite Hm.
  destruct (rotate_at_checkpoint _); [|done]. destruct (store_entry m seg) as [e|] eqn:E; [|done].
  apply find_some in E as [Hi%list_elem_of_In _]. rewrite Forall_forall in H. by rewrite (H e Hi).
Qed.

Lemma entries_mounted entries bodies name self :
  (forall i e, entries !! i = Some e -> sealed (seg_name i) (bodies i) e self) ->
  Forall (fun e => se_mounted e = true) (entries ++ [new_entry name]).
Proof.
  intros H. apply Forall_app_2; [|by repeat constructor]. apply Forall_lookup. intros i e He. by destruct (H i e He) as [-> _].
Qed.

Lemma kept_mounted parts own bodies m ck self : kept parts own bodies m ck self -> forall seg, is_unmounted self seg = false.
Proof.
  intros H. destruct (kp_entries _ _ _ _ _ _ H) as (entries & Em & _ & Hs). apply (all_mounted self m); [apply (kp_store _ _ _ _ _ _ H)|].
  rewrite Em. eapply (entries_mounted entries (fun i => take (length (upto (S i) parts)) bodies) _ self Hs).
Qed.

Lemma sealed_frame name bodies e self self' :
  sealed name bodies e self -> cfg self' = cfg self -> segments (disk self') !! name = segments (disk self) !! name ->
  (let fname := manifest_filename (store_log_id (cfg self)) (nc (zlen bodies)) in
   closed (disk self') !! fname = closed (disk self) !! fname) -> sealed name bodies e self'.
Proof.
  intros [He (f & v & sm & Hf & Hd & Hv & H)] Hc Hs Hcl. cbn in Hcl. unfold sealed. rewrite Hc, Hs, Hcl. split; [done|].
  by exists f, v, sm.
Qed.

Lemma upto_le {A} i (parts : list (list A)) : (length (upto i parts) <= length (concat parts))%nat.
Proof. unfold upto. rewrite <- (take_drop i parts) at 2. rewrite concat_app, length_app. lia. Qed.

(** An entry of one of some parts is in one of their segments. *)
Lemma not_named parts n :
  (forall i p, parts !! i = Some p -> Forall (fun s => s_segment s = seg_name i) p) -> (length parts <= n)%nat ->
  Forall (fun s => s_segment s <> seg_name n) (concat parts).
Proof.
  intros H Hn. apply Forall_concat, Forall_lookup. intros i p Hp. eapply Forall_impl; [by eapply H|].
  intros s -> E%seg_name_inj. apply lookup_lt_Some in Hp. lia.
Qed.

(** A record that is stored in the active segment. *)
Lemma kept_more parts own bodies m ck s b self self' :
  kept parts own bodies m ck self -> represents m (seg_name (length parts)) (concat parts ++ own ++ [s]) [] self' ->
  same_instance (seg_name (length parts)) self self' -> needs_recover (mem self') = false ->
  read_only_unmanaged (mem self') = false -> id_digest s b -> s_segment s = seg_name (length parts) ->
  kept parts (own ++ [s]) (bodies ++ [b]) m ck self'.
Proof.
  intros H Hr [[Hcfg Hclosed _ Hothers] Hat _ _ Hcalm] Hn Hro Hb Hs.
  pose proof (kp_ids _ _ _ _ _ _ H) as Hids. pose proof (Forall2_length _ _ _ Hids) as Hlen. rewrite length_app in Hlen.
  destruct (kp_entries _ _ _ _ _ _ H) as (entries & Em & Hel & Hsealed). constructor; try done.
  - destruct (faults self') eqn:E; [done|]. exfalso. apply Hcalm; [done|apply (kp_calm _ _ _ _ _ _ H)].
  - rewrite app_assoc. apply Forall2_app; [done|]. by constructor.
  - intros i p Hi. pose proof (kp_named _ _ _ _ _ _ H i) as Hp. destruct (decide (i < length parts)%nat) as [Hl|Hl].
    + rewrite lookup_app_l in Hi by done. apply Hp. by rewrite lookup_app_l.
    + rewrite lookup_app_r in Hi, Hp by lia. destruct (i - length parts)%nat as [|k] eqn:Ei; [|by destruct k]. injection Hi as <-.
      apply Forall_app_2; [by apply Hp|]. constructor; [|done]. rewrite Hs. f_equal. lia.
  - by apply H.
  - intros i Hi. rewrite Hothers by (intros E%seg_name_inj; lia). by apply (kp_free _ _ _ _ _ _ H).
  - exists entries. split_and!; [done|done|]. intros i e He. pose proof (upto_le (S i) parts). rewrite take_app_le by lia.
    apply (sealed_frame _ _ _ self); [by apply Hsealed|done| |by rewrite Hclosed].
    apply Hothers. intros E%seg_name_inj. apply lookup_lt_Some in He. lia.
  - rewrite Hat. apply H.
  - apply follows_more; [unfold zlen; lia|apply H].
Qed.

(** The manifest's entry of the active segment is its last. *)
Lemma find_new bodies entries self :
  (forall i e, entries !! i = Some e -> sealed (seg_name i) (bodies i) e self) ->
  let name := seg_name (length entries) in
  find (fun s => is_text (se_name s) name) (entries ++ [new_entry name]) = Some (new_entry name) /\
  forall f, first_entry name f (entries ++ [new_entry name]) = entries ++ [f (new_entry name)].
Proof.
  intros Hs name. assert (Forall (fun e => is_text (se_name e) name = false) entries) as H.
  { apply Forall_lookup. intros i e He. destruct (Hs i e He) as [-> _]. cbn [closed_entry se_name is_text].
    apply bool_decide_false. intros E%seg_name_inj. apply lookup_lt_Some in He. lia. }
  assert (is_text (se_name (new_entry name)) name = true) as Hn by by apply bool_decide_true.
  clear Hs. generalize dependent name. intros name H Hn. induction H as [|e entries He _ [IH1 IH2]]; cbn [app find first_entry].
  - by rewrite Hn.
  - rewrite He, IH1. split; [done|]. intros f. by rewrite IH2.
Qed.

(** The represented entries after the rotation. *)
Lemma represents_turned m1 parts own p fname v ck self self' m :
  represents m (seg_name (length parts)) (concat parts ++ own) [] self ->
  turned (add_segment m1 (seg_name (S (length parts)))) (seg_name (length parts)) (seg_name (S (length parts))) fname v ck self self' ->
  (forall seg, is_unmounted self seg = false) -> (forall seg, is_unmounted self' seg = false) ->
  segments (disk self) !! seg_name (S (length parts)) = None ->
  Forall (fun s => s_segment s <> seg_name (S (length parts))) (concat parts ++ own) -> p = own ->
  represents (add_segment m1 (seg_name (S (length parts)))) (seg_name (S (length parts))) (concat (parts ++ [p]) ++ []) [] self'.
Proof.
  intros H [Hcfg Hf Hseg Ha Hcl Hsaved Hrec Hlk Hmem] Hm Hm' Hfree Hne ->.
  rewrite app_nil_r, concat_app. cbn [concat]. rewrite app_nil_r. destruct H. constructor.
  - by rewrite Hcfg.
  - by rewrite Hmem.
  - done.
  - done.
  - apply Hm'.
  - rewrite Hmem. cbn. set_solver.
  - by rewrite Hrec.
  - done.
  - done.
  - intros seg Hi. unfold segment_file. rewrite Hm', Hseg. destruct (decide (seg = seg_name (S (length parts)))) as [->|Hn].
    + rewrite !lookup_partial_alter_eq, lookup_alter_ne, Hfree by (intros E%seg_name_inj; lia).
      eexists. split; [done|]. unfold seg_bytes. by rewrite in_segment_none, bool_decide_true.
    + rewrite !lookup_partial_alter_ne by done.
      destruct (rp_files seg) as (f & Hf0 & Hd).
      { apply elem_of_cons in Hi as [?|Hi]; [done|]. apply elem_of_cons. by right. }
      unfold segment_file in Hf0. rewrite Hm in Hf0. rewrite (bool_decide_false (seg = seg_name (S (length parts)))) by done.
      assert (data f = seg_bytes seg (concat parts ++ own) ++ []) as Hd' by (rewrite Hd; by case_bool_decide).
      destruct (decide (seg = seg_name (length parts))) as [->|Hn2].
      * rewrite lookup_alter_eq, Hf0. by eexists.
      * rewrite lookup_alter_ne by done. by exists f.
  - done.
Qed.

(** The segment that is closed. *)
Section turn.
Variables (parts : list (list Stored)) (own : list Stored) (bodies : list bytes) (m m1 : StoreManifest)
  (entries : list SegmentEntry) (ck ck0 : C) (fname : pystr) (v : json) (sm : SegmentManifest) (self self' : LedgerStore C).
#[local] Abbreviation size := (nc (zlen bodies)).
#[local] Abbreviation name := (seg_name (length parts)).
#[local] Abbreviation name' := (seg_name (S (length parts))).
#[local] Abbreviation closed_now := (closed_entry name fname (all_root bodies) size).
Hypotheses (H : kept parts own bodies m ck0 self) (Hne : own <> [])
  (Ef : fname = manifest_filename (store_log_id (cfg self)) size) (Em : st_segments m = entries ++ [new_entry name])
  (Em1 : st_segments m1 = entries ++ [closed_now]) (Ht : turned (add_segment m1 name') name name' fname v ck self self')
  (Hfol : follows_log now bodies (zlen bodies) ck) (Hsm : manifest_from_dict v = Ok sm)
  (Hlast : sm_last_seq sm = zlen bodies) (Hroot : sm_checkpoint_root sm = all_root bodies)
  (Hver : verify_segment (seg_bytes name (concat parts ++ own)) sm (str "capsule_id") = (true, [])).

Lemma parts_length : (length (concat parts) + length own)%nat = length bodies.
Proof. rewrite <- (Forall2_length _ _ _ (kp_ids _ _ _ _ _ _ H)). by rewrite length_app. Qed.

Lemma parts_snoc : length (parts ++ [own]) = S (length parts) /\ concat (parts ++ [own]) = concat parts ++ own.
Proof. rewrite length_app, concat_app. cbn. rewrite app_nil_r. split; [lia|done]. Qed.

(** An earlier segment's manifest has another name. *)
Lemma sealed_before i e :
  entries !! i = Some e -> (i < length parts)%nat -> sealed (seg_name i) (take (length (upto (S i) parts)) bodies) e self ->
  sealed (seg_name i) (take (length (upto (S i) parts)) bodies) e self'.
Proof.
  intros He Hi Hs. pose proof (upto_le (S i) parts). pose proof parts_length as Hlen.
  apply (sealed_frame _ _ _ self); [done|apply Ht| |].
  - rewrite (tu_segments _ _ _ _ _ _ _ _ Ht), !lookup_partial_alter_ne by (intros E%seg_name_inj; lia).
    apply lookup_alter_ne. intros E%seg_name_inj; lia.
  - cbn. rewrite (tu_closed _ _ _ _ _ _ _ _ Ht). apply lookup_insert_ne. rewrite Ef. intros E.
    assert (forall l : list bytes, 0 <= nc (zlen l)) as Hnc by (intros l; pose proof (nc_ge (zlen l) (zlen_nonneg l)); pose proof (zlen_nonneg l); lia).
    apply manifest_filename_inj, nc_inj in E; [|apply zlen_nonneg|apply zlen_nonneg|apply Hnc|apply Hnc].
    unfold zlen in E. rewrite length_take in E. destruct own; [done|]. cbn [length] in Hlen. lia.
Qed.

Lemma sealed_now : sealed name bodies closed_now self'.
Proof.
  split; [by rewrite Ef, (tu_cfg _ _ _ _ _ _ _ _ Ht)|].
  destruct (represents_active real_text _ _ _ (kp_store _ _ _ _ _ _ H)) as (f & Hf & Hd).
  exists (synced f), v, sm. rewrite (tu_segments _ _ _ _ _ _ _ _ Ht), (tu_closed _ _ _ _ _ _ _ _ Ht), (tu_cfg _ _ _ _ _ _ _ _ Ht).
  rewrite !lookup_partial_alter_ne, lookup_alter_eq, Hf, Ef, lookup_insert_eq by (intros E%seg_name_inj; lia).
  split_and!; try done. cbn [data synced]. by rewrite Hd, app_nil_r.
Qed.

Lemma sealed_turned i e :
  (entries ++ [closed_now]) !! i = Some e -> sealed (seg_name i) (take (length (upto (S i) (parts ++ [own]))) bodies) e self'.
Proof.
  destruct (kp_entries _ _ _ _ _ _ H) as (entries' & Em' & Hel & Hsealed). rewrite Em in Em'. apply app_inj_tail in Em' as [<- _].
  pose proof parts_length as Hlen. destruct parts_snoc as [El Ec]. unfold upto. intros [[Hi He]|[-> <-]]%lookup_snoc_Some.
  - rewrite take_app_le by lia. apply sealed_before; [done|lia|by apply Hsealed].
  - rewrite Hel, (take_ge (parts ++ [own])), Ec, length_app, Hlen, firstn_all by lia. exact sealed_now.
Qed.

Lemma kept_turned : kept (parts ++ [own]) [] bodies (add_segment m1 name') ck self'.
Proof.
  pose proof parts_length as Hlen. destruct parts_snoc as [El Ec]. pose proof (kp_named _ _ _ _ _ _ H) as Hnamed.
  pose proof (entries_mounted _ _ name' self' sealed_turned) as Hmt'.
  destruct (kp_entries _ _ _ _ _ _ H) as (entries' & Em' & Hel & _). rewrite Em in Em'. apply app_inj_tail in Em' as [<- _].
  constructor; rewrite ?El.
  - apply (represents_turned m1 parts own own fname v ck self self' m); [apply H|exact Ht|exact (kept_mounted _ _ _ _ _ _ H)| | | |done].
    + apply (all_mounted self' (add_segment m1 name')); [by rewrite (tu_mem _ _ _ _ _ _ _ _ Ht)|]. cbn. by rewrite Em1.
    + apply (kp_free _ _ _ _ _ _ H). lia.
    + rewrite <- Ec. apply not_named; [done|lia].
  - apply Ht.
  - rewrite (tu_mem _ _ _ _ _ _ _ _ Ht). apply H.
  - rewrite app_nil_r, Ec. apply H.
  - intros i p [[_ Hp]|[-> <-]]%lookup_snoc_Some; [by apply Hnamed|done].
  - apply Forall_app_2; [apply H|by repeat constructor].
  - intros i Hi. rewrite (tu_segments _ _ _ _ _ _ _ _ Ht), !lookup_partial_alter_ne, lookup_alter_ne by (intros E%seg_name_inj; lia).
    apply (kp_free _ _ _ _ _ _ H). lia.
  - exists (entries ++ [closed_now]). split_and!; [cbn; by rewrite Em1|rewrite length_app; cbn; lia|exact sealed_turned].
  - by rewrite (tu_mem _ _ _ _ _ _ _ _ Ht).
  - rewrite Ec. replace (zlen (concat parts ++ own)) with (zlen bodies); [done|]. unfold zlen. rewrite length_app. lia.
Qed.
End turn.

(** ** Verification of what was closed *)
Lemma find_sealed entries bodies last self i e n :
  (forall j x, entries !! j = Some x -> sealed (seg_name (n + j)) (bodies j) x self) -> entries !! i = Some e ->
  find (fun s => is_text (se_name s) (seg_name (n + i))) (entries ++ [last]) = Some e.
Proof.
  revert i bodies n. induction entries as [|x entries IH]; intros i bodies n Hs Hi; [done|]. cbn [app find].
  destruct (Hs 0%nat x eq_refl) as [-> _]. cbn [closed_entry se_name is_text]. destruct i as [|i].
  - rewrite bool_decide_true by done. by injection Hi as <-.
  - rewrite bool_decide_false by (intros E%seg_name_inj; lia). rewrite <- Nat.add_succ_comm.
    apply (IH i (fun j => bodies (S j)) (S n)); [|done]. intros j y Hy. rewrite Nat.add_succ_comm. by apply Hs.
Qed.

Definition all_verify (n : nat) self : Prop :=
  forall i, (i < n)%nat -> StoreReads.verify_segment_standalone (seg_name i) self = (self, Done (StoreReads.Verified true [])).

Lemma kept_verifies parts own bodies m ck self : kept parts own bodies m ck self -> all_verify (length parts) self.
Proof.
  intros H i Hi. destruct (kp_entries _ _ _ _ _ _ H) as (entries & Em & Hel & Hs).
  destruct (lookup_lt_is_Some_2 entries i) as [e He]; [lia|].
  pose proof (find_sealed entries _ (new_entry (seg_name (length parts))) self i e 0 Hs He) as Hfind. cbn [Nat.add] in Hfind. rewrite <- Em in Hfind.
  destruct (Hs i e He) as [-> (f & v & sm & Hf & _ & Hv & Hsm & _ & _ & Hver)].
  pose proof (kp_store _ _ _ _ _ _ H) as Hr. unfold StoreReads.verify_segment_standalone, StoreReads.managed, bind, get.
  cbn [ret]. rewrite (rp_manifest _ _ _ _ _ _ Hr). cbn [ret]. unfold store_entry. rewrite Hfind.
  cbn [closed_entry se_manifest is_none_json StoreReads.closed_manifest].
  set (fname := manifest_filename _ _) in *.
  change (take 9 (str "segments/" ++ fname)) with (str "segments/"). change (drop 9 (str "segments/" ++ fname)) with fname.
  rewrite bool_decide_true, Hv by done. rewrite Hsm. unfold lift, segment_file. cbn beta iota.
  rewrite (kept_mounted _ _ _ _ _ _ H), Hf. unfold ret at 1. by rewrite Hver.
Qed.

(** ** An append to such a store *)
Lemma kept_rotate parts own bodies m ck self :
  kept parts own bodies m ck self -> own <> [] -> write_segment (mem self) = Some (seg_name (length parts)) ->
  nc (zlen bodies) < MAX_MMR_SIZE ->
  wp _rotate_segment {| done := fun _ self' => exists m' ck', kept (parts ++ [own]) [] bodies m' ck' self';
                        raises := fun _ _ => False; dies := fun _ => False |} self.
Proof.
  intros H Hne Hh Hmax. destruct (kp_entries _ _ _ _ _ _ H) as (entries & Em & Hel & Hsealed).
  pose proof (kp_named _ _ _ _ _ _ H) as Hnamed. pose proof (Hnamed _ own (list_lookup_middle parts [] own _ eq_refl)) as Hown.
  destruct (find_new (fun i => take (length (upto (S i) parts)) bodies) entries self Hsealed) as [Hfind Hfirst]. rewrite Hel in Hfind, Hfirst.
  rewrite <- Em in Hfind, Hfirst.
  assert (Forall (fun s => s_segment s <> seg_name (length parts)) (concat parts)) as Hbef.
  { apply not_named; [|lia]. intros i p Hp. apply Hnamed. apply lookup_app_l_Some, Hp. }
  set (fname := manifest_filename (store_log_id (cfg self)) (nc (zlen bodies))).
  set (f := close_entry (seg_name (length parts)) (str "segments/" ++ fname) (all_root bodies) (nc (zlen bodies))).
  assert (_new_segment_name (update_entry (seg_name (length parts)) f m) = seg_name (S (length parts))) as En.
  { unfold _new_segment_name, update_entry. cbn [st_segments]. rewrite Hfirst. unfold seg_name. f_equal.
    rewrite zlen_app, zlen_cons, zlen_nil. unfold zlen. lia. }
  wp_call (rotate_wp m (seg_name (length parts)) (concat parts) own bodies ck); try done; try apply H.
  - apply Forall_forall. intros s _. apply (kept_mounted _ _ _ _ _ _ H).
  - fold fname f. rewrite En. intros E%seg_name_inj. lia.
  - fold fname f. rewrite En. intros sm self' (ck' & v & Ht & Hfol & Hsm & _ & Hlast & Hroot & Hver).
    eexists _, ck'. eapply (kept_turned parts own bodies m _ entries ck' ck fname v sm self self'); try done.
    unfold update_entry. cbn [st_segments]. rewrite Hfirst. unfold f, close_entry. cbn [new_entry se_name is_text].
    by rewrite bool_decide_true.
Qed.

Lemma kept_refused parts own bodies m ck self self' :
  kept parts own bodies m ck self -> unchanged_post real_text m (seg_name (length parts)) (concat parts ++ own) self self' ->
  read_only_unmanaged (mem self) = false -> kept parts own bodies m ck self'.
Proof.
  intros H (Hd & Hr & Hn & Hc & Hf & Hat & Hro) Hro0. destruct H. constructor; rewrite ?Hd, ?Hf, ?Hat; try done.
  - split; [done|]. by rewrite Hro.
  - destruct kp_entries0 as (entries & Em & Hel & Hs). exists entries. split_and!; [done|done|].
    intros i e He. apply (sealed_frame _ _ _ self); [by apply Hs|done|by rewrite Hd..].
Qed.

Context {CL : CapsuleLaws}.

(** The entry that an append makes, its id a digest. *)
Definition digest_ids (name : pystr) (es : list Stored) capsule consequential admission : Prop :=
  forall s, append_spec real_text name es capsule consequential admission = Ok s -> exists b, id_digest s b.

(** [C7] Appends to a store that rotates, when no step fails: the active
    segment is closed exactly when the append brings it to the threshold, and
    then the closed segment is on the disk, synced, its manifest is kept, and
    the next segment is open. Every closed segment verifies on its own, with
    the root of the checkpoint over the records up to its end.
    A refused append leaves the store as it was. *)
Theorem rotation_correct parts own bodies m ck capsule consequential admission self :
  let name := seg_name (length parts) in
  let spec := append_spec real_text name (concat parts ++ own) capsule consequential admission in
  kept parts own bodies m ck self -> storable capsule admission ->
  digest_ids name (concat parts ++ own) capsule consequential admission -> nc (zlen bodies + 1) < MAX_MMR_SIZE ->
  match append real_text capsule consequential admission self with
  | (self', Done rec) =>
      exists s b m' ck', spec = Ok s /\ returns_entry (concat parts ++ own) consequential s rec /\ id_digest s b /\
        if max_segment_bytes (cfg self) <=? zlen (concat (map line_of (own ++ [s])))
        then kept (parts ++ [own ++ [s]]) [] (bodies ++ [b]) m' ck' self' /\ all_verify (length parts + 1) self'
        else kept parts (own ++ [s]) (bodies ++ [b]) m' ck' self' /\ all_verify (length parts) self'
  | (self', Raised r) => spec = Raise (exn_of r) /\ disk self' = disk self /\ kept parts own bodies m ck self'
  | (self', Died) => False
  end.
Proof.
  intros name spec H Hst Hdig Hmax. pose proof (kp_ready _ _ _ _ _ _ H) as [Hn Hro].
  pose proof (store_record_wp real_text m name (concat parts ++ own) capsule consequential admission self (kp_store _ _ _ _ _ _ H) Hn Hro Hst) as Hw.
  enough (wp (append real_text capsule consequential admission) {|
    done := fun rec self' => exists s b m' ck', spec = Ok s /\ returns_entry (concat parts ++ own) consequential s rec /\ id_digest s b /\
      if max_segment_bytes (cfg self) <=? zlen (concat (map line_of (own ++ [s])))
      then kept (parts ++ [own ++ [s]]) [] (bodies ++ [b]) m' ck' self' /\ all_verify (length parts + 1) self'
      else kept parts (own ++ [s]) (bodies ++ [b]) m' ck' self' /\ all_verify (length parts) self';
    raises := fun r self' => spec = Raise (exn_of r) /\ disk self' = disk self /\ kept parts own bodies m ck self';
    dies := fun _ => False |} self) as H' by (clear Hw; revert H'; unfold wp; by destruct (append _ _ _ _ _) as [self' [rec|r|]]).
  unfold append. wp_step. eapply wp_mono; [exact Hw|..]; clear Hw; wp_red.
  2: { intros r self' [[E Hu]|[Hf _]]; [|by destruct Hf; apply H]. split_and!; [done|apply Hu|by eapply kept_refused]. }
  2: { intros self' [Hf _]. destruct Hf. apply H. }
  intros rec self' (s & Hs & Hrec & Hr & Hn' & _ & _ & Hsame). destruct (Hdig _ Hs) as [b Hb].
  destruct (spec_appendable real_text m name (concat parts ++ own) capsule consequential admission self s (kp_store _ _ _ _ _ _ H) Hst Hs) as (Happ & _).
  pose proof (pd_segment _ _ _ _ _ Happ) as [Hname _]%Forall_cons.
  rewrite <- app_assoc in Hr.
  assert (kept parts (own ++ [s]) (bodies ++ [b]) m ck self') as Hk
    by (eapply kept_more; try done; by rewrite (si_read_only _ _ _ Hsame)).
  assert (file_size self' (lr_segment rec) = zlen (concat (map line_of (own ++ [s])))) as Hsize.
  { replace (lr_segment rec) with name by (destruct Hrec as (_ & _ & _ & -> & _); done).
    rewrite (file_size_eq real_text m name _ [] self' Hr), zlen_nil, Z.add_0_r. unfold seg_bytes.
    pose proof (kp_named _ _ _ _ _ _ Hk) as Hnamed. rewrite in_segment_app, in_segment_none, in_segment_same; [done| |].
    - apply (Hnamed (length parts)), list_lookup_middle, eq_refl.
    - apply not_named; [|done]. intros i p Hp. by apply Hnamed, lookup_app_l_Some. }
  wp_step. unfold rotate_if_due. wp_step. wp_step. rewrite (rp_managed _ _ _ _ _ _ Hr), Hsize, (fr_cfg _ _ _ (si_frame _ _ _ Hsame)). cbn [andb].
  destruct (_ <=? _) eqn:Efull.
  - wp_step. wp_call (kept_rotate parts (own ++ [s]) (bodies ++ [b]) m ck); try done.
    + by destruct own.
    + apply Hsame.
    + by rewrite zlen_app.
    + intros _ self2 (m' & ck' & Hk'). wp_step. wp_step. exists s, b, m', ck'. rewrite Efull. split_and!; try done.
      pose proof (kept_verifies _ _ _ _ _ _ Hk') as Hv. by rewrite length_app in Hv.
  - wp_step. wp_step. exists s, b, m, ck. rewrite Efull. split_and!; try done. by eapply kept_verifies.
Qed.
End rotation.

(** ** A store with a threshold of one byte *)
Module DemoRotation.
Import StoreRuns.
Definition store0 : LedgerStore Ckpt := rotated 1 [].
Definition manifest0 : StoreManifest :=
  {| st_log_id := JStr (str "log"); st_active_segment := JStr (seg_name 0); st_segments := [new_entry (seg_name 0)] |}.

#[export] Instance capsule_laws : CapsuleLaws.
Proof. constructor. exact DemoAac.envelope_excluded. Defined.

Lemma follows0 : follows_log 0 [] 0 checkpointer0.
Proof.
  constructor; try done.
  - split; [exact represents_nil|constructor].
  - intros x. by eexists.
  - split_and!; apply plain_text; vm_compute; reflexivity.
Qed.

Lemma kept0 : kept 0 real_text [] [] [] manifest0 checkpointer0 store0.
Proof.
  constructor.
  - constructor; try reflexivity.
    + right. left.
    + constructor.
    + constructor.
    + intros seg Hs. apply elem_of_cons in Hs as [->|Hs]; [|by apply not_elem_of_nil in Hs]. eexists. split; reflexivity.
  - reflexivity.
  - split; reflexivity.
  - constructor.
  - intros [|i] p Hi; [|by destruct i]. injection Hi as <-. constructor.
  - constructor.
  - intros i Hi. change (segments (disk store0)) with ({[ seg_name 0 := {| data := []; durable := 0 |} ]} : gmap pystr File).
    apply lookup_singleton_ne. intros E%seg_name_inj. cbn in Hi. lia.
  - exists []. split_and!; [reflexivity..|]. intros i e Hi. by destruct i.
  - reflexivity.
  - exact follows0.
Qed.

Definition capsule0 : json := capsule_of "a".
Definition entry0 : Stored := Eval vm_compute in
  match append_spec real_text (seg_name 0) [] capsule0 true None with
  | Ok s => s
  | Raise _ => Build_Stored JNull [] [] 0 false [] []
  end.

Lemma spec0 : append_spec real_text (seg_name 0) [] capsule0 true None = Ok entry0.
Proof. vm_compute. reflexivity. Qed.

Lemma spec0_is r : append_spec real_text (seg_name (length (@nil (list Stored)))) (concat [] ++ []) capsule0 true None = r -> r = Ok entry0.
Proof. intros <-. exact spec0. Qed.

Lemma storable0 : storable capsule0 None.
Proof.
  intros v id a H. assert (match submitted capsule0 None with Ok (v, _, _) => plain v | _ => true end = true) as Hp by (vm_compute; reflexivity).
  rewrite H in Hp. by apply plain_writable.
Qed.

Lemma digest0 : digest_ids real_text (seg_name 0) [] capsule0 true None.
Proof.
  intros s Hs. rewrite spec0 in Hs. injection Hs as <-. exists (match fromhex (s_id entry0) with Ok b => b | Raise _ => [] end).
  split; vm_compute; reflexivity.
Qed.
End DemoRotation.
Import StoreRuns DemoRotation.

(** The first record closes its segment. *)
Lemma rotation_correct_witness :
  kept 0 StoreRuns.real_text [] [] [] DemoRotation.manifest0 StoreRuns.checkpointer0 DemoRotation.store0 /\
  exists rec b m' ck' self',
    LedgerStore.append StoreRuns.real_text DemoRotation.capsule0 true None DemoRotation.store0 = (self', Done rec) /\
    lr_seq rec = 1 /\ kept 0 StoreRuns.real_text [[DemoRotation.entry0]] [] [b] m' ck' self' /\ all_verify 1 self'.
Proof.
  split; [exact DemoRotation.kept0|].
  pose proof (rotation_correct 0 StoreRuns.real_text [] [] [] DemoRotation.manifest0 StoreRuns.checkpointer0
    DemoRotation.capsule0 true None DemoRotation.store0 DemoRotation.kept0 DemoRotation.storable0 DemoRotation.digest0 ltac:(vm_compute; reflexivity)) as H.
  destruct (LedgerStore.append _ _ _ _ _) as [self' [rec|r|]] eqn:Erun in H.
  - destruct H as (s & b & m' & ck' & Hs & (Hseq & _) & _ & Hk).
    apply DemoRotation.spec0_is in Hs. injection Hs as ->.
    exists rec, b, m', ck', self'. split; [exact Erun|]. split; [exact Hseq|].
    destruct (_ <=? _) eqn:E in Hk; [exact Hk|]. vm_compute in E. discriminate E.
  - destruct H as [Hs _]. apply DemoRotation.spec0_is in Hs. discriminate Hs.
  - destruct H.
Defined.
