(* ===== verification/Profile.v ===== *)
(** * The MMR profile's own pseudocode

    [src/cll-02-vectors/profile_main.py]: the algorithms of
    draft-bryce-cose-receipts-mmr-profile, transcribed from the draft without
    any code of the package. It is the independent side the package's vectors
    are built from; [ProfileProps] and [Cll02Props] prove that the package and
    this text agree. [pm] is the name the reference verifier imports it by. *)
From S2P Require Import Prelude Bytes Py Sha256 MmrPos Mmr.
Open Scope Z_scope.

(** [a << n]: a negative count raises. *)
Definition lshift (a n : Z) : result Z :=
  if n <? 0 then Raise ValueError else Ok (Z.shiftl a n).

(** [range(hi, lo, -1)] *)
Definition range_down (hi lo : Z) : list Z :=
  map (fun k => hi - Z.of_nat k) (seq 0 (Z.to_nat (hi - lo))).

Module pm.

(** ** Assumed bit primitives *)
Definition bit_length (pos : Z) : Z := if pos =? 0 then 0 else Z.log2 (Z.abs pos) + 1.
Definition log2floor (x : Z) : Z := bit_length x - 1.
Definition most_sig_bit (pos : Z) : result Z := lshift 1 (bit_length pos - 1).

Definition all_ones (pos : Z) : result bool :=
  let! msb := most_sig_bit pos in
  let mask := Z.shiftl msb 1 - 1 in
  Ok (pos =? mask).

Definition ones_count (x : Z) : Z := popcount x.

(** ** Essential supporting algorithms *)

(** The loop clears the most significant bit; the fuel is the bit length. *)
Fixpoint index_height_loop (fuel : nat) (pos : Z) : result Z :=
  let! ones := all_ones pos in
  if ones : bool then Ok (bit_length pos - 1)
  else
    match fuel with
    | O => Raise OutOfFuel
    | S fuel =>
        let! msb := most_sig_bit pos in
        index_height_loop fuel (pos - msb + 1)
    end.

Definition index_height (i : Z) : result Z :=
  let pos := i + 1 in
  index_height_loop (Z.to_nat (bit_length pos)) pos.

Fixpoint peaks_loop (fuel : nat) (s peak : Z) : result (list Z) :=
  if s =? 0 then Ok []
  else
    match fuel with
    | O => Raise OutOfFuel
    | S fuel =>
        let! top := lshift 1 (log2floor (s + 1)) in
        let highest_size := top - 1 in
        let peak := peak + highest_size in
        let! rest := peaks_loop fuel (s - highest_size) peak in
        Ok (peak - 1 :: rest)
    end.

Definition peaks (i : Z) : result (list Z) :=
  let s := i + 1 in
  peaks_loop (Z.to_nat (bit_length (s + 1))) s 0.

(** [peaksize] has one bit less after every pass. *)
Fixpoint leaf_count_loop (fuel : nat) (s peaksize peakmap : Z) : Z :=
  match fuel with
  | O => peakmap
  | S fuel =>
      if 0 <? peaksize then
        let peakmap := Z.shiftl peakmap 1 in
        if peaksize <=? s
        then leaf_count_loop fuel (s - peaksize) (Z.shiftr peaksize 1) (Z.lor peakmap 1)
        else leaf_count_loop fuel s (Z.shiftr peaksize 1) peakmap
      else peakmap
  end.

Definition leaf_count (i : Z) : Z :=
  let s := i + 1 in
  leaf_count_loop (Z.to_nat (bit_length s)) s (Z.shiftl 1 (bit_length s) - 1) 0.

Definition mmr_size_for_leaf_count (leaves : Z) : Z := 2 * leaves - ones_count leaves.

Definition is_complete (size : Z) : result bool :=
  if size =? 0 then Ok true else let! h := index_height size in Ok (h =? 0).

(** ** Node values *)
Section nodes.
Context {HL : Hashlib}.

(** [h.update] accepts buffers only. *)
Definition hash_pospair64 (pos : Z) (a b : pyval) : result bytes :=
  let! p := to_bytes pos 8 in
  match as_buffer a, as_buffer b with
  | Some a, Some b => Ok (sha256 (p ++ a ++ b))
  | _, _ => Raise TypeError
  end.

(** [ListDB]: a Python list; [append] returns the count after it. *)
Record ListDB := { nodes : list bytes }.

Definition append (db : ListDB) (entry : bytes) : Z * ListDB :=
  let db := {| nodes := nodes db ++ [entry] |} in (zlen (nodes db), db).

Definition get (db : ListDB) (index : Z) : result bytes := py_index (nodes db) index.

Fixpoint add_leaf_hash_loop (fuel : nat) (db : ListDB) (i g : Z) : result (Z * ListDB) :=
  let! h := index_height i in
  if g <? h then
    match fuel with
    | O => Raise OutOfFuel
    | S fuel =>
        let ileft := i - Z.shiftl 2 g in
        let iright := i - 1 in
        let! left_ := get db ileft in
        let! right_ := get db iright in
        let! parent := hash_pospair64 (i + 1) (PBytes left_) (PBytes right_) in
        let '(i, db) := append db parent in
        add_leaf_hash_loop fuel db i (g + 1)
    end
  else Ok (i, db).

Definition add_leaf_hash (db : ListDB) (f : bytes) : result (Z * ListDB) :=
  let g := 0 in
  let '(i, db) := append db f in
  add_leaf_hash_loop (Z.to_nat (bit_length i)) db i g.

(** ** Inclusion *)
Fixpoint inclusion_proof_path_loop (fuel : nat) (i c g : Z) : result (list Z) :=
  match fuel with
  | O => Raise OutOfFuel
  | S fuel =>
      let siblingoffset := Z.shiftl 2 g in
      let! h := index_height (i + 1) in
      let '(isibling, i) :=
        if g <? h then (i - siblingoffset + 1, i + 1)
        else (i + siblingoffset - 1, i + siblingoffset) in
      if c <? isibling then Ok []
      else
        let! path := inclusion_proof_path_loop fuel i c (g + 1) in
        Ok (isibling :: path)
  end.

Definition inclusion_proof_path (i c : Z) : result (list Z) :=
  let! g := index_height i in
  inclusion_proof_path_loop (Z.to_nat (bit_length (c + 2))) i c g.

(** One pass of the loop of [included_root], on [(i, g, root)]. *)
Definition included_step (st : Z * Z * bytes) (sibling : pyval) : result (Z * Z * bytes) :=
  let '(i, g, root) := st in
  let! h := index_height (i + 1) in
  if g <? h then
    let i := i + 1 in
    let! root := hash_pospair64 (i + 1) sibling (PBytes root) in
    Ok (i, g + 1, root)
  else
    let i := i + Z.shiftl 2 g in
    let! root := hash_pospair64 (i + 1) (PBytes root) sibling in
    Ok (i, g + 1, root).

Fixpoint included_loop (st : Z * Z * bytes) (proof : list pyval) : result (Z * Z * bytes) :=
  match proof with
  | [] => Ok st
  | sibling :: proof => let! st := included_step st sibling in included_loop st proof
  end.

Definition included_root (i : Z) (nodehash : bytes) (proof : pyval) : result bytes :=
  let! g := index_height i in
  let! proof := py_iter proof in
  let! st := included_loop (i, g, nodehash) proof in
  Ok st.2.

(** ** Consistency *)
Definition consistency_proof_paths (ifrom ito : Z) : result (list (list Z)) :=
  let! pks := peaks ifrom in
  map_result (fun i => inclusion_proof_path i ito) pks.

(** The two loops of [consistent_roots] over the bits of [leavesfrom]: the
    origin peaks above the split are peaks of the target, those below it lead
    to the one peak at the split. *)
Section loops.
Context (leavesfrom : Z) (accumulatorfrom : list bytes) (proofs : list pyval).

Definition absent (h : Z) : bool := Z.land (Z.shiftr leavesfrom h) 1 =? 0.

Fixpoint above_loop (hs : list Z) (roots : list bytes) (offset i : Z) : result (list bytes * Z * Z) :=
  match hs with
  | [] => Ok (roots, offset, i)
  | h :: hs =>
      if absent h then above_loop hs roots offset i
      else
        let! path := py_index proofs i in
        let! len := py_len path in
        if negb (len =? 0) then Raise ProofError
        else
          let! value := py_index accumulatorfrom i in
          above_loop hs (roots ++ [value]) (offset + (Z.shiftl 1 (h + 1) - 1)) (i + 1)
  end.

Fixpoint below_loop (hs : list Z) (split above : Z) (root : option bytes) (offset i : Z)
  : result (option bytes) :=
  match hs with
  | [] => Ok root
  | h :: hs =>
      if absent h then below_loop hs split above root offset i
      else
        let! path := py_index proofs i in
        let! len := py_len path in
        if negb (len =? split - h) then Raise ProofError
        else
          let subtree := Z.shiftl 1 (h + 1) - 1 in
          let! value := py_index accumulatorfrom i in
          let! proven := included_root (offset + subtree - 1) value path in
          if i =? above then below_loop hs split above (Some proven) (offset + subtree) (i + 1)
          else if bool_decide (Some proven = root)
          then below_loop hs split above root (offset + subtree) (i + 1)
          else Raise ProofError
  end.
End loops.

(** The roots, and how many peaks complete them. [root] is a value wherever
    it is appended: then a bit of [leavesfrom] is below the split. *)
Definition consistent_roots (sizefrom sizeto : Z) (accumulatorfrom : list bytes) (proofs : list pyval)
  : result (list bytes * Z) :=
  if sizeto <=? sizefrom then Raise ProofError else
  let leavesto := leaf_count (sizeto - 1) in
  if negb (mmr_size_for_leaf_count leavesto =? sizeto) then Raise ProofError else
  let leavesfrom := if 0 <? sizefrom then leaf_count (sizefrom - 1) else 0 in
  let n := ones_count leavesfrom in
  if negb (zlen accumulatorfrom =? n) then Raise ProofError else
  if negb (zlen proofs =? n) then Raise ProofError else
  let nto := ones_count leavesto in
  if n =? 0 then Ok ([], nto) else
  let split := bit_length (Z.lxor leavesfrom leavesto) - 1 in
  let! (roots, offset, i) :=
    above_loop leavesfrom accumulatorfrom proofs
      (range_down (bit_length leavesfrom - 1) split) [] 0 0 in
  let above := zlen roots in
  let! root :=
    below_loop leavesfrom accumulatorfrom proofs
      (range_down (split - 1) (-1)) split above None offset i in
  let roots :=
    if above <? n then match root with Some root => roots ++ [root] | None => roots end else roots in
  Ok (roots, nto - zlen roots).

(** [if len(v) != 32: raise ProofError] for every node value. *)
Fixpoint check_node_values (vs : list pyval) : result () :=
  match vs with
  | [] => Ok ()
  | v :: vs =>
      let! len := py_len v in
      if negb (len =? 32) then Raise ProofError else check_node_values vs
  end.

(** The proof is decoded data: nothing is known of its paths and peaks. *)
Definition verify_consistency_accumulator (tree_size_1 : Z) (accumulatorfrom : list bytes)
    (proof_content : Z * Z * list pyval * list pyval) : result (list pyval) :=
  let '(size1, size2, paths, right_) := proof_content in
  if negb (size1 =? tree_size_1) then Raise ProofError else
  let! values := map_result py_iter paths in
  let! _ := check_node_values (concat values ++ right_) in
  let! (roots, nright) := consistent_roots size1 size2 accumulatorfrom paths in
  if negb (zlen right_ =? nright) then Raise ProofError
  else Ok (map PBytes roots ++ right_).
End nodes.
End pm.

Example index_height_15 :
  map_result pm.index_height [0; 1; 2; 3; 4; 5; 6; 7; 8; 9; 10; 11; 12; 13; 14]
  = Ok [0; 0; 1; 0; 0; 1; 2; 0; 0; 1; 0; 0; 1; 2; 3].
Proof. reflexivity. Qed.
Example pm_peaks_38 : pm.peaks 38 = Ok [30; 37; 38].
Proof. reflexivity. Qed.
Example pm_leaf_count_38 : pm.leaf_count 38 = 21.
Proof. reflexivity. Qed.
Example pm_path_4 : pm.inclusion_proof_path 4 38 = Ok [3; 2; 13; 29].
Proof. reflexivity. Qed.
Example pm_paths : pm.consistency_proof_paths 10 38 = Ok [[13; 29]; [12; 6; 29]; [11; 9; 6; 29]].
Proof. reflexivity. Qed.
