(* ===== verification/ProfileProps.v ===== *)
(** * The package computes what the MMR profile says

    Position arithmetic, node store, inclusion paths and roots of
    [profile_main.py] ([Profile]) against those of [core.py]; then the
    receipt of consistency: it is complete for the accumulators of a log and
    binds the old accumulator to the prefix of the new one. *)
From S2P Require Import Prelude Bytes Py Sha256 MmrPos Mmr MmrSpec MmrProof MmrPath Inclusion Profile.
Open Scope Z_scope.

(** ** Bit primitives *)
Lemma lshift_nonneg a n : 0 <= n -> lshift a n = Ok (a * 2 ^ n).
Proof. intros. unfold lshift. rw_bool (n <? 0) false. by rewrite Z.shiftl_mul_pow2. Qed.

Lemma shiftl_times_p2 a (h : nat) : Z.shiftl a (Z.of_nat h) = a * p2 h.
Proof. by rewrite Z.shiftl_mul_pow2 by lia. Qed.

Lemma shiftl_p2_S a (h : nat) : Z.shiftl a (Z.of_nat h + 1) = a * p2 (S h).
Proof. rewrite <- shiftl_times_p2. f_equal. lia. Qed.

Lemma range_down_nil hi lo : hi <= lo -> range_down hi lo = [].
Proof. intros. unfold range_down. by replace (Z.to_nat (hi - lo)) with 0%nat by lia. Qed.

Lemma range_down_cons hi lo : lo < hi -> range_down hi lo = hi :: range_down (hi - 1) lo.
Proof.
  intros. unfold range_down. replace (Z.to_nat (hi - lo)) with (S (Z.to_nat (hi - 1 - lo))) by lia.
  cbn [seq map]. f_equal; [lia|]. rewrite <- seq_shift, map_map. apply map_ext. intros. lia.
Qed.

Lemma bit_length_p2 k p : p2 k <= p < p2 (S k) -> pm.bit_length p = Z.of_nat k + 1.
Proof.
  intros Hp. pose proof (p2_pos k). unfold pm.bit_length. replace (p =? 0) with false by (symmetry; apply Z.eqb_neq; lia).
  rewrite Z.abs_eq by lia. f_equal. apply Z.log2_unique; [lia|]. unfold p2 in Hp.
  by rewrite Nat2Z.inj_succ in Hp.
Qed.

Lemma bit_length_spec p : 0 < p -> exists k, p2 k <= p < p2 (S k) /\ pm.bit_length p = Z.of_nat k + 1.
Proof.
  intros Hp. pose proof (Z.log2_nonneg p). exists (Z.to_nat (Z.log2 p)).
  assert (p2 (Z.to_nat (Z.log2 p)) <= p < p2 (S (Z.to_nat (Z.log2 p)))) as Hb.
  { unfold p2. rewrite Nat2Z.inj_succ, Z2Nat.id by lia. by apply Z.log2_spec. }
  split; [done|by apply bit_length_p2].
Qed.

Lemma all_ones_p2 k p :
  p2 k <= p < p2 (S k) -> pm.most_sig_bit p = Ok (p2 k) /\ pm.all_ones p = Ok (p =? 2 * p2 k - 1).
Proof.
  intros Hp. assert (pm.most_sig_bit p = Ok (p2 k)) as Em.
  { unfold pm.most_sig_bit. rewrite (bit_length_p2 k p Hp), lshift_nonneg by lia.
    f_equal. rewrite Z.mul_1_l. unfold p2. f_equal. lia. }
  split; [done|]. unfold pm.all_ones. rewrite Em.
  rewrite Z.shiftl_mul_pow2 by lia. by rewrite Z.mul_comm.
Qed.

(** ** [index_height] is [height_at] *)
Lemma index_height_descend H fuel p :
  1 <= p <= 2 * p2 H - 1 -> (H <= fuel)%nat ->
  pm.index_height_loop fuel p = Ok (height_descend H p).
Proof.
  revert fuel p. induction H as [|H IH]; intros fuel p Hp Hfuel.
  { rewrite p2_0 in Hp. replace p with 1 by lia. by destruct fuel. }
  rewrite p2_S in Hp. pose proof (p2_pos H). cbn [height_descend]. rewrite p2_Z1, p2_Z, p2_S.
  destruct (decide (p < 2 * p2 H)) as [Hlow|Hhigh].
  { replace (p =? _) with false by (symmetry; apply Z.eqb_neq; lia).
    rw_bool (2 * p2 H - 1 <? p) false. apply IH; lia. }
  destruct (all_ones_p2 (S H) p) as [Em Ea]; [rewrite !p2_S; lia|]. rewrite p2_S in Em, Ea.
  destruct fuel as [|fuel]; [lia|]. cbn [pm.index_height_loop]. rewrite Ea.
  destruct (p =? 2 * (2 * p2 H) - 1) eqn:E; zbool.
  - f_equal. rewrite (bit_length_p2 (S H)) by (rewrite !p2_S; lia). lia.
  - rewrite Em. rw_bool (2 * p2 H - 1 <? p) true.
    replace (p - 2 * p2 H + 1) with (p - (2 * p2 H - 1)) by lia. apply IH; lia.
Qed.

Lemma index_height_height_at i : 0 <= i -> pm.index_height i = height_at i.
Proof.
  intros Hi. unfold height_at, _require_nonneg_int, pm.index_height. rw_bool (i <? 0) false.
  set (p := i + 1). destruct (height_climb_spec (Z.to_nat (Z.log2 p)) p 0) as (K & E & Hhi & Hlo);
    [unfold p; lia|pose proof (Z.log2_nonneg p); lia|intros; lia|].
  change 0 with (Z.of_nat 0). rewrite E, Nat2Z.id. apply index_height_descend; [unfold p in *; lia|].
  destruct (bit_length_spec p) as (k & Hk & ->); [unfold p; lia|].
  destruct (decide (K <= k)%nat) as [|Hgt]; [lia|].
  specialize (Hlo k ltac:(lia)). rewrite p2_S in Hk.
  destruct K as [|K]; [lia|]. destruct (decide (K = k)) as [->|]; [lia|].
  pose proof (p2_lt k (S K) ltac:(lia)). lia.
Qed.

Lemma index_height_node h s : aligned h s -> pm.index_height (node_pos h s) = Ok (Z.of_nat h).
Proof.
  intros Hal. pose proof (complete_pos (s + p2 h) h s (conj Hal (Z.le_refl _))) as [? _].
  rewrite index_height_height_at by done. by apply height_at_node_pos.
Qed.

Lemma index_height_leaf f : 0 <= f -> pm.index_height (nc f) = Ok 0.
Proof. intros. rewrite <- node_pos_leaf. apply (index_height_node 0). auto with cll. Qed.

(** The node after one is its parent when it is a right child, a leaf when
    it is a left child. *)
Lemma height_after_left h s : aligned (S h) s -> pm.index_height (node_pos h s + 1) = Ok 0.
Proof.
  intros Hal. pose proof (aligned_nonneg _ _ Hal). pose proof (p2_pos h).
  replace (node_pos h s + 1) with (nc (s + p2 h)); [apply index_height_leaf; lia|].
  rewrite nc_add_p2 by done. unfold node_pos. rewrite p2_S. lia.
Qed.

Lemma height_after_right h s :
  aligned (S h) s -> pm.index_height (node_pos h (s + p2 h) + 1) = Ok (Z.of_nat (S h)).
Proof. intros Hal. rewrite <- (merge_pos h (s + p2 h) s Hal eq_refl). by apply index_height_node. Qed.

(** ** [is_complete] *)
Lemma is_complete_nc f : 0 <= f -> pm.is_complete (nc f) = Ok true.
Proof.
  intros Hf. unfold pm.is_complete. destruct (nc f =? 0); [done|]. by rewrite index_height_leaf.
Qed.

Lemma is_complete_correct size :
  0 <= size ->
  exists b : bool, pm.is_complete size = Ok b /\ (b = true <-> exists f, 0 <= f /\ size = nc f).
Proof.
  intros Hs. unfold pm.is_complete. destruct (size =? 0) eqn:E0; zbool.
  { subst. exists true. split; [done|]. split; [|done]. intros _. by exists 0. }
  pose proof (nc_ge (size + 1) ltac:(lia)).
  destruct (node_pos_surj (size + 1) size) as (h & s & Hc & <-); [lia|lia|].
  rewrite index_height_node by apply Hc. eexists. split; [done|].
  pose proof (aligned_nonneg _ _ (proj1 Hc)). split.
  - intros E. zbool. assert (h = 0%nat) as -> by lia. exists s. split; [done|apply node_pos_leaf].
  - intros (f & Hf & E). rewrite <- node_pos_leaf in E.
    apply node_pos_inj in E as [-> _]; [done|apply Hc|auto with cll].
Qed.

(** ** [peaks] and [leaf_count] *)
Lemma pm_peaks_mts H f s fuel :
  0 <= f < p2 H -> aligned H s -> (H <= fuel)%nat ->
  pm.peaks_loop fuel (nc f) (nc s) = Ok (map peak_of (mts H f s)).
Proof.
  revert f s fuel. induction H as [|H IH]; intros f s fuel Hf Hal Hfuel.
  { rewrite p2_0 in Hf. replace f with 0 by lia. by destruct fuel. }
  pose proof (p2_pos H). rewrite p2_S in Hf. cbn [mts]. destruct (p2 H <=? f) eqn:E; zbool.
  2: apply IH; [lia|auto with cll|lia].
  destruct fuel as [|fuel]; [lia|]. cbn [pm.peaks_loop]. pose proof (nc_ge f ltac:(lia)).
  replace (nc f =? 0) with false by (symmetry; apply Z.eqb_neq; lia).
  pose proof (nc_bracket H f ltac:(lia)) as Hb. unfold pm.log2floor.
  rewrite (bit_length_p2 (S H)) by (rewrite !p2_S; lia).
  rewrite lshift_nonneg by lia. replace (Z.of_nat (S H) + 1 - 1) with (Z.of_nat (S H)) by lia.
  rewrite Z.mul_1_l, p2_Z, p2_S. assert (nc f = 2 * p2 H - 1 + nc (f - p2 H)) as Enc.
  { rewrite <- nc_p2, <- (nc_add H); [f_equal; lia|by apply aligned_p2|lia]. }
  replace (nc f - (2 * p2 H - 1)) with (nc (f - p2 H)) by lia.
  replace (nc s + (2 * p2 H - 1)) with (nc (s + p2 H)) by (rewrite nc_add_p2 by done; lia).
  rewrite IH; [|lia|auto with cll|lia]. cbn [map]. do 2 f_equal. unfold peak_of, node_pos. cbn [fst snd].
  rewrite nc_add_p2, p2_S by done. lia.
Qed.

Lemma bits_bit_length f n : 0 <= f <= n -> 0 < n -> f < p2 (Z.to_nat (pm.bit_length n)).
Proof.
  intros Hf Hn. destruct (bit_length_spec n Hn) as (k & Hk & ->).
  replace (Z.to_nat (Z.of_nat k + 1)) with (S k) by lia. lia.
Qed.

Lemma pm_peaks_nc f : 0 <= f -> pm.peaks (nc f - 1) = Ok (map peak_of (mountains f)).
Proof.
  intros Hf. pose proof (nc_ge f Hf). unfold pm.peaks.
  replace (nc f - 1 + 1) with (nc f) by lia. pose proof (bits_bit_length f (nc f + 1) ltac:(lia) ltac:(lia)).
  rewrite (mountains_mts (Z.to_nat (pm.bit_length (nc f + 1)))) by lia.
  apply (pm_peaks_mts _ f 0); [lia|apply aligned_0|lia].
Qed.

Lemma pm_leaf_count_loop n g m :
  0 <= g < p2 n -> pm.leaf_count_loop n (nc g) (p2 n - 1) m = m * p2 n + g.
Proof.
  revert g m. induction n as [|n IH]; intros g m Hg; cbn [pm.leaf_count_loop].
  { rewrite p2_0 in *. lia. }
  pose proof (p2_pos n). rewrite p2_S in *. rw_bool (0 <? 2 * p2 n - 1) true.
  assert (Z.shiftr (2 * p2 n - 1) 1 = p2 n - 1) as ->.
  { rewrite Z.shiftr_div_pow2 by lia. replace (2 * p2 n - 1) with (1 + (p2 n - 1) * 2 ^ 1) by lia.
    rewrite Z.div_add by lia. by change (1 / 2 ^ 1) with 0. }
  rewrite (Z.shiftl_mul_pow2 m 1) by lia. replace (m * 2 ^ 1) with (2 * m) by lia.
  destruct (decide (p2 n <= g)) as [Hge|Hlt].
  - pose proof (nc_bracket n g ltac:(lia)). rw_bool (2 * p2 n - 1 <=? nc g) true.
    assert (nc g = 2 * p2 n - 1 + nc (g - p2 n)) as ->.
    { rewrite <- nc_p2, <- (nc_add n); [f_equal; lia|by apply aligned_p2|lia]. }
    replace (2 * p2 n - 1 + nc (g - p2 n) - (2 * p2 n - 1)) with (nc (g - p2 n)) by lia.
    replace (Z.lor (2 * m) 1) with (2 * m + 1); [rewrite IH by lia; lia|].
    by destruct m as [|[]|[]].
  - pose proof (nc_lt g (p2 n) ltac:(lia)) as Hnc. rewrite nc_p2 in Hnc.
    rw_bool (2 * p2 n - 1 <=? nc g) false. rewrite IH by lia. lia.
Qed.

Lemma pm_leaf_count_nc f : 0 <= f -> pm.leaf_count (nc f - 1) = f.
Proof.
  intros Hf. pose proof (nc_ge f Hf). unfold pm.leaf_count. replace (nc f - 1 + 1) with (nc f) by lia.
  destruct (decide (f = 0)) as [->|]; [done|].
  destruct (bit_length_spec (nc f) ltac:(lia)) as (k & Hk & E). rewrite E.
  replace (Z.to_nat (Z.of_nat k + 1)) with (S k) by lia.
  replace (Z.shiftl 1 (Z.of_nat k + 1) - 1) with (p2 (S k) - 1) by (rewrite shiftl_p2_S; lia).
  rewrite pm_leaf_count_loop; lia.
Qed.

Lemma length_mts H f s : 0 <= f < p2 H -> zlen (mts H f s) = popcount f.
Proof.
  revert f s. induction H as [|H IH]; intros f s Hf; cbn [mts].
  { rewrite p2_0 in Hf. by replace f with 0 by lia. }
  rewrite p2_S in Hf. pose proof (p2_pos H). destruct (p2 H <=? f) eqn:E; zbool; [|apply IH; lia].
  rewrite zlen_cons, IH by lia. replace f with (1 * p2 H + (f - p2 H)) at 2 by lia.
  rewrite popcount_split by lia. done.
Qed.

Lemma length_mountains f : 0 <= f -> zlen (mountains f) = popcount f.
Proof. intros. apply length_mts. split; [done|by apply bits_spec]. Qed.

(** ** The node store *)
Section store.
Context {HL : Hashlib}.
Implicit Types leaves : list bytes.

Lemma to_bytes_small v : 0 <= v < 2 ^ 64 -> to_bytes v 8 = Ok (be_bytes 8 v).
Proof. intros. apply to_bytes_Ok. done. Qed.

Lemma hash_pospair64_ih a b p : 0 <= p < 2 ^ 64 - 1 -> pm.hash_pospair64 (p + 1) (PBytes a) (PBytes b) = Ok (ih a b p).
Proof. intros. unfold pm.hash_pospair64. by rewrite to_bytes_small by lia. Qed.

(** The package's interior hash is the profile's, errors included. *)
Lemma hash_pospair64_interior a b p :
  is_digest a -> is_digest b -> 0 <= p ->
  pm.hash_pospair64 (p + 1) (PBytes a) (PBytes b) = interior_hash a b p.
Proof.
  intros Ha Hb Hp. unfold pm.hash_pospair64, interior_hash, _require_nonneg_int.
  rewrite !assert_digest_digest by done. by rw_bool (p <? 0) false.
Qed.

Lemma new_nodes_last leaves f k :
  py_index (new_nodes_of leaves f (S k)) (Z.of_nat k) = Ok (node_hash leaves k (f + 1 - p2 k)).
Proof.
  rewrite py_index_nonneg, Nat2Z.id by lia. unfold new_nodes_of.
  by rewrite list_lookup_fmap, lookup_seq_lt by lia.
Qed.

Lemma zlen_new_nodes leaves f k : zlen (new_nodes_of leaves f k) = Z.of_nat k.
Proof. unfold new_nodes_of, zlen. by rewrite length_map, length_seq. Qed.

(** The merge loop with [k + 1] of the new nodes written, [n] to go. *)
Lemma add_leaf_hash_loop_spec nodes leaves leaf h1 s1 n k fuel :
  represents nodes leaves -> is_digest leaf -> nc (zlen leaves + 1) < 2 ^ 64 ->
  let f := zlen leaves in
  let leaves' := leaves ++ [leaf] in
  aligned (S h1) s1 -> s1 + p2 h1 = f + 1 -> (k + n = h1)%nat -> (n <= fuel)%nat ->
  pm.add_leaf_hash_loop fuel {| pm.nodes := nodes ++ new_nodes_of leaves' f (k + 1) |}
    (nc f + Z.of_nat (k + 1)) (Z.of_nat k) =
  Ok (nc (f + 1), {| pm.nodes := nodes ++ new_nodes_of leaves' f (h1 + 1) |}).
Proof.
  intros Hrep Hleaf Hmax f leaves' Hal Hend. fold f in Hmax. revert k fuel.
  pose proof (completed_pos f h1 s1 (aligned_pred _ _ Hal) Hend) as Hpos.
  induction n as [|n IH]; intros k fuel Hk Hfuel.
  - replace k with h1 by lia. replace (nc f + Z.of_nat (h1 + 1)) with (node_pos h1 s1 + 1) by lia.
    assert (node_pos h1 s1 + 1 = nc (f + 1)) as E.
    { rewrite <- Hend, nc_add_p2 by done. unfold node_pos. rewrite p2_S. lia. }
    assert (pm.index_height (node_pos h1 s1 + 1) = Ok 0) as Eh by by apply height_after_left.
    destruct fuel; cbn [pm.add_leaf_hash_loop]; rewrite Eh; rw_bool (Z.of_nat h1 <? 0) false; by rewrite E.
  - destruct fuel as [|fuel]; [lia|]. set (s0 := f + 1 - p2 (S k)).
    pose proof (p2_le (S k) h1 ltac:(lia)) as Hle. pose proof (p2_pos k). pose proof (aligned_nonneg _ _ Hal).
    assert (aligned (S k) s0) as Hal0.
    { unfold s0. rewrite <- Hend. apply aligned_sub; [|apply aligned_p2; lia|lia].
      apply (aligned_le (S k) h1); [lia|]. auto with cll. }
    assert (complete f k s0) as Hc by (unfold s0; split; [auto with cll|rewrite p2_S; lia]).
    pose proof (completed_pos f (S k) s0 Hal0 ltac:(unfold s0; lia)) as Hpar.
    pose proof (complete_pos (f + 1) (S k) s0 ltac:(split; [done|unfold s0; lia])) as Hbound.
    assert (node_pos (S k) s0 = node_pos k s0 + 2 * p2 k) as Hleft by (unfold node_pos; rewrite !p2_S; lia).
    replace (nc f + Z.of_nat (k + 1)) with (node_pos (S k) s0) by lia.
    cbn [pm.add_leaf_hash_loop]. rewrite index_height_node by done. rw_bool (Z.of_nat k <? Z.of_nat (S k)) true.
    rewrite shiftl_times_p2. unfold pm.get. cbn [pm.nodes].
    replace (node_pos (S k) s0 - 2 * p2 k) with (node_pos k s0) by lia.
    rewrite py_index_app_l by (rewrite (rep_size _ _ Hrep); by apply complete_pos).
    rewrite (rep_nodes _ _ Hrep) by done.
    rewrite py_index_app_r by (rewrite (rep_size _ _ Hrep); fold f; lia).
    rewrite (rep_size _ _ Hrep). fold f. replace (node_pos (S k) s0 - 1 - nc f) with (Z.of_nat k) by lia.
    rewrite (Nat.add_1_r k), new_nodes_last, hash_pospair64_ih by lia.
    assert (ih (node_hash leaves k s0) (node_hash leaves' k (f + 1 - p2 k)) (node_pos (S k) s0)
            = node_hash leaves' (S k) s0) as ->.
    { cbn [node_hash]. unfold leaves' at 2. rewrite node_hash_app by done.
      do 2 f_equal. unfold s0. rewrite p2_S. lia. }
    unfold pm.append. cbn [pm.nodes]. rewrite <- app_assoc. unfold s0.
    rewrite <- new_nodes_of_S, zlen_app, zlen_new_nodes, (rep_size _ _ Hrep). fold f.
    replace (Z.of_nat k + 1) with (Z.of_nat (S k)) by lia.
    specialize (IH (S k) fuel ltac:(lia) ltac:(lia)). by rewrite Nat.add_1_r in IH.
Qed.

(** [add_leaf_hash] appends a leaf and returns the new size. *)
Lemma add_leaf_hash_represents db leaves leaf :
  represents (pm.nodes db) leaves -> is_digest leaf -> nc (zlen leaves + 1) < 2 ^ 64 ->
  exists db', pm.add_leaf_hash db leaf = Ok (nc (zlen leaves + 1), db') /\
    represents (pm.nodes db') (leaves ++ [leaf]) /\ pm.nodes db `prefix_of` pm.nodes db'.
Proof.
  intros Hrep Hleaf Hmax. pose proof (zlen_nonneg leaves) as Hf. set (f := zlen leaves) in *.
  pose proof (tiles_mountains (f + 1) ltac:(lia)) as Ht. rewrite mountains_succ in Ht by done.
  destruct (carry (rev (mountains f)) 0 f) as [|[h1 s1] rest] eqn:Hcarry; [cbn in Ht; lia|].
  destruct Ht as (Hend & Hal & _). pose proof (nc_ge f Hf). pose proof (aligned_nonneg _ _ Hal).
  exists {| pm.nodes := pm.nodes db ++ new_nodes_of (leaves ++ [leaf]) f (h1 + 1) |}.
  split_and!; [|by apply (represents_snoc _ _ _ h1 s1 rest)|by eexists].
  unfold pm.add_leaf_hash, pm.append. cbn [pm.nodes]. rewrite zlen_app, zlen_cons, zlen_nil, (rep_size _ _ Hrep). fold f.
  replace (nc f + (1 + 0)) with (nc f + Z.of_nat (0 + 1)) by lia.
  replace (pm.nodes db ++ [leaf]) with (pm.nodes db ++ new_nodes_of (leaves ++ [leaf]) f (0 + 1)).
  2: unfold new_nodes_of; cbn [seq map node_hash Nat.add]; by rewrite p2_0, Z.add_simpl_r, leaf_at_snoc.
  apply (add_leaf_hash_loop_spec (pm.nodes db) leaves leaf h1 s1 h1 0); try done.
  pose proof (bits_bit_length (p2 h1) (nc f + Z.of_nat (0 + 1)) ltac:(pose proof (p2_pos h1); lia) ltac:(lia)) as Hb.
  destruct (decide (h1 <= Z.to_nat (pm.bit_length (nc f + Z.of_nat (0 + 1))))%nat) as [|n]; [done|].
  pose proof (p2_le _ h1 (Nat.lt_le_incl _ _ (proj1 (Nat.nle_gt _ _) n))). lia.
Qed.
End store.

(** ** Inclusion *)
Section inclusion.
Context {HL : Hashlib}.
Implicit Types leaves sibs : list bytes.

Lemma included_loop_app st l k :
  pm.included_loop st (l ++ k) = (let! st := pm.included_loop st l in pm.included_loop st k).
Proof.
  revert st. induction l as [|x l IH]; intros st; [done|]. cbn [app pm.included_loop].
  destruct (pm.included_step st x); [apply IH|done].
Qed.

Lemma included_step_left h s b sib :
  aligned (S h) s -> is_digest b -> is_digest sib ->
  pm.included_step (node_pos h s, Z.of_nat h, b) (PBytes sib) =
  (let! r := interior_hash b sib (node_pos (S h) s) in Ok (node_pos (S h) s, Z.of_nat (S h), r)).
Proof.
  intros Hal Hb Hs. unfold pm.included_step. rewrite height_after_left by done.
  rw_bool (Z.of_nat h <? 0) false. rewrite shiftl_times_p2.
  replace (node_pos h s + 2 * p2 h) with (node_pos (S h) s) by (unfold node_pos; rewrite !p2_S; lia).
  pose proof (complete_pos _ _ _ (conj Hal (Z.le_refl (s + p2 (S h))))).
  rewrite hash_pospair64_interior by (done || lia). by replace (Z.of_nat h + 1) with (Z.of_nat (S h)) by lia.
Qed.

Lemma included_step_right h s b sib :
  aligned (S h) s -> is_digest b -> is_digest sib ->
  pm.included_step (node_pos h (s + p2 h), Z.of_nat h, b) (PBytes sib) =
  (let! r := interior_hash sib b (node_pos (S h) s) in Ok (node_pos (S h) s, Z.of_nat (S h), r)).
Proof.
  intros Hal Hb Hs. unfold pm.included_step. rewrite height_after_right by done.
  rw_bool (Z.of_nat h <? Z.of_nat (S h)) true. rewrite <- (merge_pos h (s + p2 h) s Hal eq_refl).
  pose proof (complete_pos _ _ _ (conj Hal (Z.le_refl (s + p2 (S h))))).
  rewrite hash_pospair64_interior by (done || lia). by replace (Z.of_nat h + 1) with (Z.of_nat (S h)) by lia.
Qed.

(** [included_root] walks the path of the tree: it is [fold_path] of the
    package over [_locate_path], errors included. *)
Lemma included_loop_fold H s0 h s acc sibs :
  aligned H s0 -> aligned h s -> inside H s0 h s -> is_digest acc -> Forall is_digest sibs ->
  length sibs = length (td_path H s0 h s) ->
  pm.included_loop (node_pos h s, Z.of_nat h, acc) (map PBytes sibs) =
  (let! r := fold_path acc (rev (map step_of (td_path H s0 h s))) sibs in Ok (node_pos H s0, Z.of_nat H, r)).
Proof.
  intros Hal Hs Hin Hacc. revert s0 sibs Hal Hin. induction H as [|K IH]; intros s0 sibs Hal Hin Hsibs Hlen.
  { pose proof (inside_le _ _ _ _ Hin). replace h with 0%nat in * by lia. destruct Hin as [Hlo Hhi].
    rewrite p2_0 in Hhi. destruct sibs; [|done]. cbn. by replace s0 with s by lia. }
  cbn [td_path] in *. destruct (Nat.eqb_spec (S K) h) as [<-|Hne].
  { assert (s0 = s) as -> by (destruct Hin; lia). by destruct sibs. }
  pose proof (inside_child K s0 h s Hal Hs Hin ltac:(done)) as Hch.
  destruct (s + p2 h <=? s0 + p2 K); cbn [length] in Hlen;
    (destruct sibs as [|sib sibs _] using rev_ind; [done|]);
    rewrite length_app, Nat.add_1_r in Hlen; injection Hlen as Hlen;
    apply Forall_app in Hsibs as [Hsibs Hsib%Forall_inv]; cbn [map rev];
    rewrite map_app, included_loop_app, fold_path_snoc by (by rewrite length_rev, length_map);
    match goal with |- context [td_path K ?x h s] => rewrite (IH x) by auto with cll end;
    destruct (fold_path acc _ sibs) as [b|] eqn:Eb; try done;
    pose proof (fold_path_digest _ _ _ _ Hacc Eb);
    cbn [pm.included_loop map fold_path step_of target_is_right parent_pos fst snd];
    [rewrite included_step_left by done|rewrite included_step_right by done];
    change (peak_of (S K, s0)) with (node_pos (S K) s0); by destruct (interior_hash _ _ _).
Qed.

Lemma included_root_fold H s0 h s acc sibs :
  aligned H s0 -> aligned h s -> inside H s0 h s -> is_digest acc -> Forall is_digest sibs ->
  length sibs = length (td_path H s0 h s) ->
  pm.included_root (node_pos h s) acc (PList (map PBytes sibs)) =
  fold_path acc (rev (map step_of (td_path H s0 h s))) sibs.
Proof.
  intros. unfold pm.included_root. rewrite index_height_node by done. cbn [py_iter].
  rewrite (included_loop_fold H s0) by done. by destruct (fold_path _ _ _).
Qed.

(** *** The path *)
Lemma mts_elem_next K f s h t :
  0 <= f < p2 K -> (h, t) ∈ mts K f s -> s + f < t + p2 (S h).
Proof.
  revert f s. induction K as [|K IH]; intros f s Hf Hin; cbn [mts] in Hin; [by apply not_elem_of_nil in Hin|].
  rewrite p2_S in Hf. destruct (p2 K <=? f) eqn:E; zbool; [|apply IH; [lia|done]].
  apply elem_of_cons in Hin as [Heq|Hin]; [simplify_eq; rewrite p2_S; lia|].
  apply IH in Hin; lia.
Qed.

Lemma mountain_next f h t : 0 <= f -> (h, t) ∈ mountains f -> f < t + p2 (S h).
Proof. intros Hf Hin. apply (mts_elem_next (bits f) f 0); [|done]. split; [done|by apply bits_spec]. Qed.

Lemma path_step_left fuel h s c :
  aligned (S h) s ->
  pm.inclusion_proof_path_loop (S fuel) (node_pos h s) c (Z.of_nat h) =
  (if c <? node_pos h (s + p2 h) then Ok []
   else let! path := pm.inclusion_proof_path_loop fuel (node_pos (S h) s) c (Z.of_nat (S h)) in
        Ok (node_pos h (s + p2 h) :: path)).
Proof.
  intros Hal. cbn [pm.inclusion_proof_path_loop]. rewrite height_after_left by done.
  rw_bool (Z.of_nat h <? 0) false. rewrite shiftl_times_p2.
  replace (node_pos h s + 2 * p2 h) with (node_pos (S h) s) by (unfold node_pos; rewrite !p2_S; lia).
  replace (node_pos (S h) s - 1) with (node_pos h (s + p2 h))
    by (pose proof (merge_pos h (s + p2 h) s Hal eq_refl); lia).
  by replace (Z.of_nat h + 1) with (Z.of_nat (S h)) by lia.
Qed.

Lemma path_step_right fuel h s c :
  aligned (S h) s ->
  pm.inclusion_proof_path_loop (S fuel) (node_pos h (s + p2 h)) c (Z.of_nat h) =
  (if c <? node_pos h s then Ok []
   else let! path := pm.inclusion_proof_path_loop fuel (node_pos (S h) s) c (Z.of_nat (S h)) in
        Ok (node_pos h s :: path)).
Proof.
  intros Hal. cbn [pm.inclusion_proof_path_loop]. rewrite height_after_right by done.
  rw_bool (Z.of_nat h <? Z.of_nat (S h)) true. rewrite shiftl_times_p2.
  pose proof (merge_pos h (s + p2 h) s Hal eq_refl).
  replace (node_pos h (s + p2 h) - 2 * p2 h + 1) with (node_pos h s)
    by (unfold node_pos in *; rewrite !p2_S in *; lia).
  replace (node_pos h (s + p2 h) + 1) with (node_pos (S h) s) by lia.
  by replace (Z.of_nat h + 1) with (Z.of_nat (S h)) by lia.
Qed.

Definition sibling_at (x : (nat * Z) * bool * (nat * Z)) : Z := node_pos x.1.1.1 x.1.1.2.

Lemma path_loop_spec f H s0 h s fuel :
  complete f H s0 -> aligned h s -> inside H s0 h s ->
  pm.inclusion_proof_path_loop (length (td_path H s0 h s) + fuel) (node_pos h s) (nc f - 1) (Z.of_nat h) =
  (let! rest := pm.inclusion_proof_path_loop fuel (node_pos H s0) (nc f - 1) (Z.of_nat H) in
   Ok (map sibling_at (rev (td_path H s0 h s)) ++ rest)).
Proof.
  intros Hc Hs Hin. revert s0 fuel Hc Hin. induction H as [|K IH]; intros s0 fuel Hc Hin.
  { pose proof (inside_le _ _ _ _ Hin). replace h with 0%nat in * by lia. destruct Hin as [Hlo Hhi].
    rewrite p2_0 in Hhi. cbn [td_path length rev map app Nat.add]. replace s0 with s by lia. by case_match. }
  cbn [td_path]. destruct (Nat.eqb_spec (S K) h) as [<-|Hne].
  { assert (s0 = s) as -> by (destruct Hin; lia). cbn [length rev map app Nat.add]. by case_match. }
  pose proof (proj1 Hc) as Hal. pose proof (inside_child K s0 h s Hal Hs Hin ltac:(done)) as Hch.
  pose proof (complete_left _ _ _ Hc) as Hcl. pose proof (complete_right _ _ _ Hc) as Hcr.
  pose proof (complete_pos _ _ _ Hcl). pose proof (complete_pos _ _ _ Hcr).
  destruct (s + p2 h <=? s0 + p2 K); cbn [length rev]; rewrite plus_Sn_m, plus_n_Sm;
    match goal with |- context [td_path K ?x h s] => rewrite (IH x) by done end;
    [rewrite path_step_left by done|rewrite path_step_right by done];
    [rw_bool (nc f - 1 <? node_pos K (s0 + p2 K)) false|rw_bool (nc f - 1 <? node_pos K s0) false];
    destruct (pm.inclusion_proof_path_loop fuel _ _ _); try done;
    by rewrite map_app, <- app_assoc.
Qed.

Lemma path_at_mountain f H t fuel :
  0 <= f -> (H, t) ∈ mountains f ->
  pm.inclusion_proof_path_loop (S fuel) (node_pos H t) (nc f - 1) (Z.of_nat H) = Ok [].
Proof.
  intros Hf Hm. pose proof (mountains_elem f H t Hf Hm) as (Hal & Ht & _).
  pose proof (mountain_next f H t Hf Hm) as Hnext. rewrite p2_S in Hnext. pose proof (p2_pos H).
  rewrite path_step_left by done.
  pose proof (nc_mono f (t + p2 H + (p2 H - 1)) ltac:(lia)) as Hmono.
  rewrite (nc_add H), nc_pred_p2 in Hmono by (auto with cll || lia).
  replace (nc f - 1 <? node_pos H (t + p2 H)) with true; [done|].
  symmetry. apply Z.ltb_lt. unfold node_pos. rewrite p2_S. lia.
Qed.

(** [inclusion_proof_path] finds the siblings on the way to the peak: they
    are the positions the package's [_locate_path] names. *)
Lemma inclusion_proof_path_spec f H t h s :
  0 <= f -> (H, t) ∈ mountains f -> aligned h s -> inside H t h s ->
  pm.inclusion_proof_path (node_pos h s) (nc f - 1) = Ok (map sibling_at (rev (td_path H t h s))).
Proof.
  intros Hf Hm Hs Hin. unfold pm.inclusion_proof_path. rewrite index_height_node by done.
  replace (nc f - 1 + 2) with (nc f + 1) by lia. pose proof (mountains_elem f H t Hf Hm) as (Hal & _ & Hle).
  pose proof (nc_mono (t + p2 H) f ltac:(pose proof (aligned_nonneg _ _ Hal); pose proof (p2_pos H); lia)) as Hnc.
  pose proof (nc_add_p2_ge H t (aligned_pred _ _ Hal)). pose proof (nc_ge t (aligned_nonneg _ _ Hal)).
  pose proof (aligned_nonneg _ _ Hal). pose proof (p2_pos H).
  assert (length (td_path H t h s) <= H)%nat as Hlen.
  { clear. revert t. induction H as [|K IH]; intros t; cbn [td_path]; [done|].
    destruct (S K =? h)%nat; [cbn; lia|]. case_match; cbn [length]; [specialize (IH t)|specialize (IH (t + p2 K))]; lia. }
  destruct (bit_length_spec (nc f + 1)) as (k & Hk & ->); [lia|].
  assert (H < k)%nat as HHk.
  { destruct (decide (H < k)%nat) as [|n]; [done|]. pose proof (p2_le (S k) (S H) ltac:(lia)).
    rewrite (p2_S H) in *. lia. }
  replace (Z.to_nat (Z.of_nat k + 1)) with (length (td_path H t h s) + S (k - length (td_path H t h s)))%nat by lia.
  rewrite path_loop_spec by (done || by apply complete_mountain). rewrite path_at_mountain by done.
  by rewrite app_nil_r.
Qed.
End inclusion.

(** ** The split of two sizes

    The bits of [a] and [b] agree above the highest bit [K] where they
    differ: the mountains above are common, and those of [a] below it lie in
    the mountain [(K, A)] of [b]. *)
Lemma testbit_p2 q (h : nat) g :
  0 <= g < p2 (S h) -> Z.testbit (q * p2 (S h) + g) (Z.of_nat h) = (p2 h <=? g).
Proof.
  intros Hg. pose proof (p2_pos h). rewrite p2_S in *.
  pose proof (Z.testbit_spec' (q * (2 * p2 h) + g) (Z.of_nat h) ltac:(lia)) as Hb. rewrite p2_Z in Hb.
  replace (q * (2 * p2 h) + g) with (g + (2 * q) * p2 h) in Hb at 2 by lia. rewrite Z.div_add in Hb by lia.
  destruct (p2 h <=? g) eqn:E; zbool.
  - replace (g / p2 h) with 1 in Hb by (apply (Z.div_unique _ _ _ (g - p2 h)); lia).
    replace (1 + 2 * q) with (1 + q * 2) in Hb by lia. rewrite Z.mod_add in Hb by lia.
    by destruct (Z.testbit _ _).
  - rewrite Z.div_small in Hb by lia. replace (0 + 2 * q) with (0 + q * 2) in Hb by lia.
    rewrite Z.mod_add in Hb by lia. by destruct (Z.testbit _ _).
Qed.

Lemma absent_testbit a h : 0 <= h -> pm.absent a h = negb (Z.testbit a h).
Proof.
  intros Hh. unfold pm.absent. change 1 with (Z.ones 1). rewrite Z.land_ones, Z.shiftr_div_pow2 by lia.
  change (2 ^ 1) with 2. rewrite <- Z.testbit_spec' by done. by destruct (Z.testbit a h).
Qed.

(** With [s] the part of [a] already done, the next bit. *)
Lemma absent_p2 a s g (h : nat) :
  a = s + g -> aligned (S h) s -> 0 <= g < p2 (S h) -> pm.absent a (Z.of_nat h) = negb (p2 h <=? g).
Proof.
  intros -> (q & _ & ->) Hg. by rewrite absent_testbit, testbit_p2 by (done || lia).
Qed.

Record splits (a b : Z) (K : nat) (A al bl : Z) : Prop := {
  sp_log : pm.bit_length (Z.lxor a b) = Z.of_nat K + 1;
  sp_aligned : aligned (S K) A;
  sp_a : a = A + al; sp_al : 0 <= al < p2 K;
  sp_b : b = A + p2 K + bl; sp_bl : 0 <= bl < p2 K
}.

Lemma split_exists a b : 0 <= a < b -> exists K A al bl, splits a b K A al bl.
Proof.
  intros Hab. assert (0 < Z.lxor a b) as Hx.
  { pose proof (Z.lxor_nonneg a b) as Hn. assert (Z.lxor a b <> 0) by (intros E%Z.lxor_eq; lia).
    pose proof (proj2 Hn ltac:(lia)). lia. }
  destruct (bit_length_spec _ Hx) as (K & HK & Hlen). pose proof (p2_pos K).
  assert (Z.shiftr a (Z.of_nat (S K)) = Z.shiftr b (Z.of_nat (S K))) as Eq.
  { apply Z.lxor_eq. rewrite <- Z.shiftr_lxor. rewrite Z.shiftr_div_pow2, p2_Z by lia. apply Z.div_small. lia. }
  rewrite !Z.shiftr_div_pow2, !p2_Z in Eq by lia.
  pose proof (Z.div_mod a (p2 (S K)) ltac:(pose proof (p2_pos (S K)); lia)) as Ha.
  pose proof (Z.div_mod b (p2 (S K)) ltac:(pose proof (p2_pos (S K)); lia)) as Hb.
  pose proof (Z.mod_pos_bound a (p2 (S K)) (p2_pos _)) as Hra.
  pose proof (Z.mod_pos_bound b (p2 (S K)) (p2_pos _)) as Hrb. rewrite <- Eq in Hb.
  set (q := a / p2 (S K)) in *. set (ra := a mod p2 (S K)) in *. set (rb := b mod p2 (S K)) in *.
  assert (Z.testbit (Z.lxor a b) (Z.of_nat K) = true) as Hbit.
  { replace (Z.of_nat K) with (Z.log2 (Z.lxor a b)); [by apply Z.bit_log2|].
    unfold p2 in HK. apply Z.log2_unique; [lia|]. by rewrite Nat2Z.inj_succ in HK. }
  rewrite Z.lxor_spec in Hbit. rewrite Ha, Hb in Hbit. rewrite (Z.mul_comm _ q) in *.
  rewrite !testbit_p2 in Hbit by lia. rewrite p2_S in *.
  destruct (p2 K <=? ra) eqn:Ea, (p2 K <=? rb) eqn:Eb; try done; zbool; [lia|].
  assert (0 <= q) by (apply Z.div_pos; [lia|apply p2_pos]).
  exists K, (q * (2 * p2 K)), ra, (rb - p2 K). split; [done| |lia..]. exists q. rewrite p2_S. lia.
Qed.

(** The mountains of the bits from [K] up, and those below. *)
Lemma mts_app H K A r s :
  aligned K A -> 0 <= r < p2 K -> (K <= H)%nat -> 0 <= A + r < p2 H ->
  mts H (A + r) s = mts H A s ++ mts K r (s + A).
Proof.
  intros HA Hr. revert A s HA. induction H as [|H IH]; intros A s HA HK Hlt.
  { assert (K = 0%nat) as -> by lia. rewrite p2_0 in *. pose proof (aligned_nonneg _ _ HA).
    by replace A with 0 by lia. }
  destruct (decide (K = S H)) as [->|].
  { assert (A = 0) as ->.
    { destruct HA as (k & Hk & ->). pose proof (p2_pos (S H)).
      assert (k < 1) by (apply (Z.mul_lt_mono_pos_r (p2 (S H))); lia). by replace k with 0 by lia. }
    rewrite mts_0. cbn [app]. f_equal; lia. }
  pose proof (aligned_nonneg _ _ HA). pose proof (p2_pos H). cbn [mts].
  rewrite p2_S in Hlt. assert (aligned K (p2 H)) as HKH by (apply aligned_p2; lia).
  destruct (p2 H <=? A + r) eqn:E; zbool.
  - assert (p2 H <= A) as HH.
    { destruct (decide (p2 H <= A)) as [|Hno]; [done|].
      pose proof (aligned_lt_le K A (p2 H) HA HKH ltac:(lia)). lia. }
    rw_bool (p2 H <=? A) true. cbn [app]. f_equal.
    replace (A + r - p2 H) with (A - p2 H + r) by lia. rewrite IH; [|by apply aligned_sub|lia|lia].
    f_equal. f_equal. lia.
  - rw_bool (p2 H <=? A) false. rewrite IH by (done || lia). done.
Qed.

Lemma mountains_split a b K A al bl :
  splits a b K A al bl ->
  mountains a = mountains A ++ mts K al A /\
  mountains b = mountains A ++ (K, A) :: mts K bl (A + p2 K).
Proof.
  intros [_ HA -> Hal -> Hbl]. pose proof (aligned_nonneg _ _ HA).
  pose proof (bits_spec (A + p2 K + p2 K) ltac:(pose proof (p2_pos K); lia)) as Hbits.
  set (T := bits (A + p2 K + p2 K)) in *. pose proof (p2_pos K).
  assert (S K <= T)%nat as HK.
  { destruct (decide (S K <= T)%nat) as [|Hno]; [done|]. pose proof (p2_le T K ltac:(lia)). lia. }
  split.
  - rewrite !(mountains_mts T), (mts_app T K) by (auto with cll || lia). by rewrite Z.add_0_l.
  - replace (A + p2 K + bl) with (A + (p2 K + bl)) by lia.
    rewrite !(mountains_mts T), (mts_app T (S K)) by (done || rewrite ?p2_S; lia).
    f_equal. cbn [mts]. rw_bool (p2 K <=? p2 K + bl) true. by replace (p2 K + bl - p2 K) with bl by lia.
Qed.

(** ** The loops of [consistent_roots] *)
Section consistent.
Context {HL : Hashlib}.
Implicit Types vals : list bytes.
Implicit Types paths : list pyval.

Lemma py_index_at {A} (pre post : list A) x i : i = zlen pre -> py_index (pre ++ x :: post) i = Ok x.
Proof.
  intros ->. rewrite py_index_app_r, Z.sub_diag by lia. done.
Qed.

Lemma app_snoc_cons {A} (pre : list A) x rest : pre ++ x :: rest = (pre ++ [x]) ++ rest.
Proof. by rewrite <- app_assoc. Qed.

Lemma above_loop_spec a L d G al s pre post ppre ppost vals paths roots r :
  a = s + (G + al) -> aligned (L + d) s -> aligned L G -> 0 <= al < p2 L -> G + al < p2 (L + d) ->
  zlen pre = zlen ppre -> length vals = length (mts (L + d) G s) -> length paths = length vals ->
  pm.above_loop a (pre ++ vals ++ post) (ppre ++ paths ++ ppost)
    (range_down (Z.of_nat (L + d) - 1) (Z.of_nat L - 1)) roots (nc s) (zlen pre) = Ok r <->
  Forall (fun p => py_len p = Ok 0) paths /\ r = (roots ++ vals, nc (s + G), zlen pre + zlen vals).
Proof.
  intros Ha Hs HG Hal. revert G s pre ppre vals paths roots Ha Hs HG.
  induction d as [|d IH]; intros G s pre ppre vals paths roots Ha Hs HG Hlt Hpre Hv Hp.
  { assert (G = 0) as ->.
    { rewrite Nat.add_0_r in Hlt. destruct HG as (k & Hk & ->). pose proof (p2_pos L).
      assert (k < 1) by (apply (Z.mul_lt_mono_pos_r (p2 L)); lia). by replace k with 0 by lia. }
    rewrite range_down_nil by lia. rewrite mts_0 in Hv. destruct vals; [|done]. destruct paths; [|done].
    cbn [pm.above_loop]. rewrite app_nil_r, Z.add_0_r. change (zlen (@nil bytes)) with 0.
    rewrite (Z.add_0_r (zlen pre)). split; [intros [= <-]; by split|by intros [_ ->]]. }
  rewrite Nat.add_succ_r in *. pose proof (aligned_nonneg _ _ HG).
  rewrite range_down_cons by lia. replace (Z.of_nat (S (L + d)) - 1) with (Z.of_nat (L + d)) by lia.
  cbn [pm.above_loop]. rewrite (absent_p2 a s (G + al)) by (done || lia).
  assert ((p2 (L + d) <=? G + al) = (p2 (L + d) <=? G)) as ->.
  { destruct (p2 (L + d) <=? G) eqn:E; zbool; [by rw_bool (p2 (L + d) <=? G + al) true|].
    pose proof (aligned_lt_le L G (p2 (L + d)) HG (aligned_p2 L (L + d) ltac:(lia)) E).
    by rw_bool (p2 (L + d) <=? G + al) false. }
  cbn [mts] in Hv. rewrite p2_S in Hlt. destruct (p2 (L + d) <=? G) eqn:E; zbool; cbn [negb].
  2: { assert (G + al < p2 (L + d)) by (pose proof (aligned_lt_le L G (p2 (L + d)) HG (aligned_p2 L (L + d) ltac:(lia)) E); lia).
       apply IH; (done || auto with cll). }
  destruct vals as [|v vals]; [done|]. destruct paths as [|p paths]; [done|].
  cbn [length] in Hv, Hp. injection Hv as Hv. injection Hp as Hp. cbn [app].
  rewrite Hpre at 1. rewrite !py_index_at by done.
  destruct (py_len p) as [n|e] eqn:En.
  2: { split; [done|]. intros [Hf _]. apply Forall_cons in Hf as [Hf _]. congruence. }
  destruct (n =? 0) eqn:E0; zbool; cbn [negb].
  2: { split; [done|]. intros [Hf _]. apply Forall_cons in Hf as [Hf _]. congruence. }
  rewrite shiftl_p2_S, p2_S. replace (nc s + (1 * (2 * p2 (L + d)) - 1)) with (nc (s + p2 (L + d)))
    by (rewrite nc_add_p2 by done; lia).
  replace (zlen pre + 1) with (zlen (pre ++ [v])) by by rewrite zlen_app.
  rewrite (app_snoc_cons pre v), (app_snoc_cons ppre p).
  rewrite (IH (G - p2 (L + d)) (s + p2 (L + d)) (pre ++ [v]) (ppre ++ [p]) vals paths (roots ++ [v]));
    [|lia|auto with cll|apply aligned_sub; [done|apply aligned_p2; lia|lia]|lia|by rewrite !zlen_app, Hpre|done|done].
  replace (zlen (pre ++ [v]) + zlen vals) with (zlen pre + zlen (v :: vals))
    by (rewrite zlen_app, !zlen_cons; change (zlen (@nil bytes)) with 0; lia).
  replace (s + p2 (L + d) + (G - p2 (L + d))) with (s + G) by lia.
  rewrite Forall_cons, <- app_assoc. subst n. cbn [app]. tauto.
Qed.

(** A path of the right length from the origin peak to the value [R]. *)
Definition leads (split : Z) (R : bytes) (m : nat * Z) (v : bytes) (p : pyval) : Prop :=
  py_len p = Ok (split - Z.of_nat m.1) /\ pm.included_root (peak_of m) v p = Ok R.

Lemma below_step a H s g pre post ppre ppost v p split above root :
  a = s + g -> aligned (S H) s -> 0 <= g < p2 (S H) -> p2 H <= g -> zlen pre = zlen ppre ->
  pm.below_loop a (pre ++ v :: post) (ppre ++ p :: ppost) (range_down (Z.of_nat (S H) - 1) (-1))
    split above root (nc s) (zlen pre) =
  (let! len := py_len p in
   if negb (len =? split - Z.of_nat H) then Raise ProofError
   else
     let! proven := pm.included_root (node_pos H s) v p in
     if zlen pre =? above
     then pm.below_loop a (pre ++ v :: post) (ppre ++ p :: ppost) (range_down (Z.of_nat H - 1) (-1))
            split above (Some proven) (nc (s + p2 H)) (zlen (pre ++ [v]))
     else if bool_decide (Some proven = root)
     then pm.below_loop a (pre ++ v :: post) (ppre ++ p :: ppost) (range_down (Z.of_nat H - 1) (-1))
            split above root (nc (s + p2 H)) (zlen (pre ++ [v]))
     else Raise ProofError).
Proof.
  intros Ha Hs Hg Hbit Hpre. rewrite range_down_cons by lia.
  replace (Z.of_nat (S H) - 1) with (Z.of_nat H) by lia. cbn [pm.below_loop].
  rewrite (absent_p2 a s g) by done. rw_bool (p2 H <=? g) true. cbn [negb].
  rewrite Hpre at 1. rewrite !py_index_at by done. destruct (py_len p); [|done].
  destruct (negb _); [done|]. rewrite shiftl_p2_S.
  replace (nc s + (1 * p2 (S H) - 1) - 1) with (node_pos H s) by (unfold node_pos; lia).
  replace (nc s + (1 * p2 (S H) - 1)) with (nc (s + p2 H)) by (rewrite nc_add_p2, p2_S by done; lia).
  replace (zlen pre + 1) with (zlen (pre ++ [v])) by by rewrite zlen_app. done.
Qed.

Lemma below_skip a H s g acc proofs split above root i :
  a = s + g -> aligned (S H) s -> 0 <= g < p2 H ->
  pm.below_loop a acc proofs (range_down (Z.of_nat (S H) - 1) (-1)) split above root (nc s) i =
  pm.below_loop a acc proofs (range_down (Z.of_nat H - 1) (-1)) split above root (nc s) i.
Proof.
  intros Ha Hs Hg. rewrite range_down_cons by lia. replace (Z.of_nat (S H) - 1) with (Z.of_nat H) by lia.
  cbn [pm.below_loop]. rewrite (absent_p2 a s g) by (done || rewrite ?p2_S; lia). by rw_bool (p2 H <=? g) false.
Qed.

Lemma below_loop_some a H g s pre post ppre ppost vals paths split above R r :
  a = s + g -> aligned H s -> 0 <= g < p2 H -> above < zlen pre -> zlen pre = zlen ppre ->
  length vals = length (mts H g s) -> length paths = length vals ->
  pm.below_loop a (pre ++ vals ++ post) (ppre ++ paths ++ ppost) (range_down (Z.of_nat H - 1) (-1))
    split above (Some R) (nc s) (zlen pre) = Ok r <->
  Forall3 (leads split R) (mts H g s) vals paths /\ r = Some R.
Proof.
  revert g s pre ppre vals paths. induction H as [|H IH]; intros g s pre ppre vals paths Ha Hs Hg Hab Hpre Hv Hp.
  { cbn [mts] in *. destruct vals, paths; try done. rewrite range_down_nil by lia. cbn [pm.below_loop].
    split; [intros [= <-]; split; [constructor|done]|by intros [_ ->]]. }
  cbn [mts] in *. pose proof (p2_S H) as HS. destruct (p2 H <=? g) eqn:E; zbool.
  2: { rewrite (below_skip a H s g) by (done || lia). apply IH; (done || lia || auto with cll). }
  destruct vals as [|v vals]; [done|]. destruct paths as [|p paths]; [done|].
  cbn [length] in Hv, Hp. injection Hv as Hv. injection Hp as Hp. cbn [app].
  rewrite (below_step a H s g) by (done || lia).
  replace (zlen pre =? above) with false by (symmetry; apply Z.eqb_neq; lia).
  assert (Forall3 (leads split R) ((H, s) :: mts H (g - p2 H) (s + p2 H)) (v :: vals) (p :: paths) <->
    leads split R (H, s) v p /\ Forall3 (leads split R) (mts H (g - p2 H) (s + p2 H)) vals paths) as ->
    by (split; [by inversion_clear 1|by intros []; constructor]).
  unfold leads at 1. cbn [fst]. change (peak_of (H, s)) with (node_pos H s).
  destruct (py_len p) as [n|]; [|naive_solver].
  destruct (n =? split - Z.of_nat H) eqn:En; zbool; cbn [negb]; [|naive_solver].
  destruct (pm.included_root (node_pos H s) v p) as [R'|]; [|naive_solver].
  case_bool_decide as HR; [|naive_solver]. injection HR as ->.
  rewrite (app_snoc_cons pre v), (app_snoc_cons ppre p).
  rewrite (IH (g - p2 H) (s + p2 H) (pre ++ [v]) (ppre ++ [p]) vals paths);
    [|lia|auto with cll|lia|rewrite zlen_app; pose proof (zlen_nonneg [v]); lia|by rewrite !zlen_app, Hpre|done|done].
  subst n. tauto.
Qed.

Lemma below_loop_none a H g s pre post ppre ppost vals paths split r :
  a = s + g -> aligned H s -> 0 <= g < p2 H -> zlen pre = zlen ppre ->
  length vals = length (mts H g s) -> length paths = length vals ->
  pm.below_loop a (pre ++ vals ++ post) (ppre ++ paths ++ ppost) (range_down (Z.of_nat H - 1) (-1))
    split (zlen pre) None (nc s) (zlen pre) = Ok r <->
  (vals = [] /\ r = None) \/
  (exists R, vals <> [] /\ Forall3 (leads split R) (mts H g s) vals paths /\ r = Some R).
Proof.
  revert g s. induction H as [|H IH]; intros g s Ha Hs Hg Hpre Hv Hp.
  { cbn [mts] in *. destruct vals, paths; try done. rewrite range_down_nil by lia. cbn [pm.below_loop]. naive_solver. }
  cbn [mts] in *. pose proof (p2_S H) as HS. destruct (p2 H <=? g) eqn:E; zbool.
  2: { rewrite (below_skip a H s g) by (done || lia). apply IH; (done || lia || auto with cll). }
  destruct vals as [|v vals]; [done|]. destruct paths as [|p paths]; [done|].
  cbn [length] in Hv, Hp. injection Hv as Hv. injection Hp as Hp. cbn [app].
  rewrite (below_step a H s g), Z.eqb_refl by (done || lia).
  assert (forall R, Forall3 (leads split R) ((H, s) :: mts H (g - p2 H) (s + p2 H)) (v :: vals) (p :: paths) <->
    leads split R (H, s) v p /\ Forall3 (leads split R) (mts H (g - p2 H) (s + p2 H)) vals paths) as Hcons
    by (split; [by inversion_clear 1|by intros []; constructor]).
  setoid_rewrite Hcons. unfold leads at 1. cbn [fst]. change (peak_of (H, s)) with (node_pos H s).
  destruct (py_len p) as [n|]; [|naive_solver].
  destruct (n =? split - Z.of_nat H) eqn:En; zbool; cbn [negb]; [|naive_solver].
  destruct (pm.included_root (node_pos H s) v p) as [R'|]; [|naive_solver].
  rewrite (app_snoc_cons pre v), (app_snoc_cons ppre p).
  rewrite (below_loop_some a H (g - p2 H) (s + p2 H) (pre ++ [v]) post (ppre ++ [p]) ppost vals paths);
    [|lia|auto with cll|lia|rewrite zlen_app; change (zlen [v]) with 1; lia|by rewrite !zlen_app, Hpre|done|done].
  subst n. naive_solver.
Qed.
End consistent.

(** ** [consistent_roots] *)
Section roots.
Context {HL : Hashlib}.

Lemma consistent_roots_lengths a b acc proofs r :
  0 < a -> pm.consistent_roots (nc a) b acc proofs = Ok r ->
  zlen acc = popcount a /\ zlen proofs = popcount a.
Proof.
  intros Ha. unfold pm.consistent_roots. pose proof (nc_ge a ltac:(lia)).
  destruct (b <=? nc a); [done|]. destruct (negb _); [done|].
  rw_bool (0 <? nc a) true. rewrite pm_leaf_count_nc by lia. unfold pm.ones_count.
  destruct (negb (zlen acc =? _)) eqn:E1; [done|]. destruct (negb (zlen proofs =? _)) eqn:E2; [done|].
  by zbool.
Qed.

Lemma leads_unique split R R' ms vs ps :
  vs <> [] -> Forall3 (leads split R) ms vs ps -> Forall3 (leads split R') ms vs ps -> R = R'.
Proof.
  intros Hv Hl Hl'. inversion Hl as [|m v p ms' vs' ps' [_ HR]]; subst; [done|].
  inversion Hl'; subst. match goal with H : leads split R' m v p |- _ => destruct H as [_ HR'] end. congruence.
Qed.

(** The origin peaks above the split come back as they are, those below it
    all lead to one value, the peak of the target at the split. *)
Lemma consistent_roots_spec a b K A al bl v1 v2 p1 p2_ roots nright :
  splits a b K A al bl -> 0 < a ->
  length v1 = length (mountains A) -> length v2 = length (mts K al A) ->
  length p1 = length v1 -> length p2_ = length v2 ->
  pm.consistent_roots (nc a) (nc b) (v1 ++ v2) (p1 ++ p2_) = Ok (roots, nright) <->
  Forall (fun p => py_len p = Ok 0) p1 /\ nright = popcount b - zlen roots /\
  ((v2 = [] /\ roots = v1) \/
   (exists R, v2 <> [] /\ Forall3 (leads (Z.of_nat K) R) (mts K al A) v2 p2_ /\ roots = v1 ++ [R])).
Proof.
  intros Hsp Ha L1 L2 L3 L4. pose proof Hsp as [Hlog HA Ea Hal Eb Hbl]. pose proof (p2_pos K).
  pose proof (aligned_nonneg _ _ HA). assert (0 < b /\ nc a < nc b) as [Hb Hlt] by (split; [|apply nc_lt]; lia).
  pose proof (nc_ge a ltac:(lia)). pose proof (popcount_pos a Ha).
  assert (zlen v1 + zlen v2 = popcount a) as Hlen.
  { rewrite <- length_mountains by lia. rewrite (proj1 (mountains_split _ _ _ _ _ _ Hsp)), zlen_app.
    unfold zlen. lia. }
  unfold pm.consistent_roots. rw_bool (nc b <=? nc a) false. rewrite pm_leaf_count_nc by lia.
  change (pm.mmr_size_for_leaf_count b) with (nc b). rewrite Z.eqb_refl. cbn [negb].
  rw_bool (0 <? nc a) true. rewrite pm_leaf_count_nc by lia. unfold pm.ones_count.
  assert (zlen (v1 ++ v2) = popcount a /\ zlen (p1 ++ p2_) = popcount a) as [-> ->]
    by (rewrite !zlen_app; unfold zlen in *; lia).
  rewrite Z.eqb_refl. cbn [negb]. replace (popcount a =? 0) with false by (symmetry; apply Z.eqb_neq; lia).
  rewrite Hlog. replace (Z.of_nat K + 1 - 1) with (Z.of_nat K) by lia.
  destruct (bit_length_spec a Ha) as (T & HT & ->). replace (Z.of_nat T + 1 - 1) with (Z.of_nat T) by lia.
  set (d := (T - K)%nat).
  assert (range_down (Z.of_nat T) (Z.of_nat K) = range_down (Z.of_nat (S K + d) - 1) (Z.of_nat (S K) - 1)) as ->.
  { destruct (decide (K < T)%nat); [f_equal; unfold d; lia|]. rewrite !range_down_nil; [done|unfold d; lia..]. }
  assert (a < p2 (S K + d)) as HaT.
  { destruct (decide (K <= T)%nat); [replace (S K + d)%nat with (S T) by (unfold d; lia); lia|].
    pose proof (p2_le (S T) (S K + d) ltac:(lia)). lia. }
  assert (mts (S K + d) A 0 = mountains A) as HmA by (symmetry; apply mountains_mts; lia).
  pose proof (fun r => above_loop_spec a (S K) d A al 0 [] v2 [] p2_ v1 p1 [] r
    ltac:(lia) (aligned_0 _) HA ltac:(rewrite p2_S; lia) ltac:(lia) eq_refl ltac:(by rewrite HmA) L3) as Habove.
  cbn [app] in Habove. change (zlen (@nil bytes)) with 0 in Habove. rewrite nc_0, !Z.add_0_l in Habove.
  destruct (pm.above_loop _ _ _ _ _ _ _) as [[[rs off] i]|e] eqn:Eab.
  2: { split; [done|]. intros [Hf _]. by pose proof (proj2 (Habove _) (conj Hf eq_refl)). }
  destruct (proj1 (Habove _) eq_refl) as [Hf [= -> -> ->]]. clear Habove.
  replace (Z.of_nat K - 1) with (Z.of_nat K - 1) by lia.
  pose proof (fun r => below_loop_none a K al A v1 [] p1 [] v2 p2_ (Z.of_nat K) r
    ltac:(lia) (aligned_pred _ _ HA) Hal ltac:(unfold zlen; lia) L2 L4) as Hbelow.
  rewrite !app_nil_r in Hbelow.
  destruct (pm.below_loop _ _ _ _ _ _ _ _ _) as [root|e] eqn:Ebl.
  2: { split; [done|]. intros (_ & _ & [[Hv2 _]|(R & Hv2 & Hl & _)]).
       - by pose proof (proj2 (Hbelow None) (or_introl (conj Hv2 eq_refl))).
       - by pose proof (proj2 (Hbelow (Some R)) (or_intror (ex_intro _ R (conj Hv2 (conj Hl eq_refl))))). }
  destruct (proj1 (Hbelow _) eq_refl) as [[-> ->]|(R & Hv2 & Hl & ->)].
  - rewrite zlen_nil in Hlen. rw_bool (zlen v1 <? popcount a) false. naive_solver.
  - assert (0 < zlen v2) by (destruct v2; [done|rewrite zlen_cons; pose proof (zlen_nonneg v2); lia]).
    rw_bool (zlen v1 <? popcount a) true. split.
    + intros [= <- <-]. split_and!; [done|done|]. right. eauto.
    + intros (_ & -> & [[? _]|(R' & _ & Hl' & ->)]); [done|].
      destruct (leads_unique _ _ _ _ _ _ Hv2 Hl Hl'). done.
Qed.
End roots.

(** ** The receipt of consistency is complete *)
Lemma length_td_path H s0 h s :
  aligned H s0 -> aligned h s -> inside H s0 h s -> length (td_path H s0 h s) = (H - h)%nat.
Proof.
  intros Hal Hs Hin. revert s0 Hal Hin. induction H as [|K IH]; intros s0 Hal Hin; [done|].
  cbn [td_path]. destruct (Nat.eqb_spec (S K) h) as [<-|Hne]; [cbn [length]; lia|].
  pose proof (inside_child K s0 h s Hal Hs Hin ltac:(done)) as Hch. pose proof (inside_le _ _ _ _ Hin).
  destruct (s + p2 h <=? s0 + p2 K); cbn [length]; rewrite IH by auto with cll; lia.
Qed.

Section complete.
Context {HL : Hashlib}.
Implicit Types leaves : list bytes.

(** The mountains of [a] below the split lie in the mountain [(K, A)]. *)
Lemma below_inside K al A m :
  aligned (S K) A -> 0 <= al < p2 K -> m ∈ mts K al A ->
  (m.1 < K)%nat /\ aligned (S m.1) m.2 /\ inside K A m.1 m.2 /\ A <= m.2 /\ m.2 + p2 m.1 <= A + al.
Proof.
  intros HA Hal Hm. destruct m as [h t]. apply mts_elem in Hm as (? & ? & ? & ?); [|auto with cll|done].
  cbn [fst snd]. split_and!; try done. split; lia.
Qed.

Lemma td_path_self H s : td_path H s H s = [].
Proof. destruct H; [done|]. cbn [td_path]. by rewrite Nat.eqb_refl. Qed.

Definition path_positions (K : nat) (A : Z) (m : nat * Z) : list Z :=
  map sibling_at (rev (td_path K A m.1 m.2)).

Definition path_values leaves (K : nat) (A : Z) (m : nat * Z) : list bytes :=
  map (sibling_hash leaves) (rev (td_path K A m.1 m.2)).

Lemma consistency_proof_paths_spec a b K A al bl :
  splits a b K A al bl -> 0 < a ->
  pm.consistency_proof_paths (nc a - 1) (nc b - 1) =
  Ok (map (fun _ => []) (mountains A) ++ map (path_positions K A) (mts K al A)).
Proof.
  intros Hsp Ha. destruct (mountains_split _ _ _ _ _ _ Hsp) as [Ea Eb]. destruct Hsp as [_ HA Eqa Hal Eqb Hbl].
  pose proof (aligned_nonneg _ _ HA). pose proof (p2_pos K). assert (0 <= b) by lia.
  unfold pm.consistency_proof_paths. rewrite pm_peaks_nc, Ea, map_app by lia.
  apply map_result_app; rewrite map_result_map; apply map_result_Ok; intros m Hm.
  - assert (m ∈ mountains b) as Hmb by (rewrite Eb; apply elem_of_app; by left). destruct m as [h t].
    change (peak_of (h, t)) with (node_pos h t).
    rewrite (inclusion_proof_path_spec b h t h t); [by rewrite td_path_self|lia|done| |split; lia].
    apply mountains_elem in Hm as (? & _ & _); [auto with cll|lia].
  - destruct (below_inside K al A m HA Hal Hm) as (_ & Hm2 & Hin & _). destruct m as [h t].
    change (peak_of (h, t)) with (node_pos h t). cbn [fst snd] in *.
    rewrite (inclusion_proof_path_spec b K A h t); [done|lia| |auto with cll|done].
    rewrite Eb. apply elem_of_app. right. by left.
Qed.

Lemma read_path nodes leaves f H s0 m :
  represents nodes leaves -> f <= zlen leaves -> complete f H s0 ->
  map_result (py_index nodes) (path_positions H s0 m) = Ok (path_values leaves H s0 m).
Proof.
  intros Hrep Hf Hc. unfold path_positions, path_values. rewrite map_result_map. apply map_result_Ok.
  intros x Hx. apply (rep_nodes _ _ Hrep). apply (complete_mono f); [done|].
  eapply td_path_complete; [exact Hc|]. apply list_elem_of_In, in_rev. by apply list_elem_of_In.
Qed.

(** Honest values lead to the honest peak. *)
Lemma leads_honest leaves f K A m :
  Forall is_digest leaves -> f <= zlen leaves -> nc f < MAX_MMR_SIZE -> complete f K A ->
  aligned m.1 m.2 -> inside K A m.1 m.2 ->
  leads (Z.of_nat K) (node_hash leaves K A) m (node_hash leaves m.1 m.2)
    (PList (map PBytes (path_values leaves K A m))).
Proof.
  intros Hd Hf Hmax Hc Hm Hin. pose proof (inside_le _ _ _ _ Hin). split.
  - cbn [py_len]. unfold path_values. rewrite !zlen_map. unfold zlen.
    rewrite length_rev, length_td_path by (done || apply Hc). f_equal. lia.
  - assert (complete f m.1 m.2) as Hcm by (destruct Hc, Hin; split; [done|lia]).
    change (peak_of m) with (node_pos m.1 m.2).
    rewrite (included_root_fold K A); [by apply (fold_path_complete f)|apply Hc|done|done| | |].
    + apply node_hash_digest; [done|]. by apply (complete_mono f).
    + by apply (siblings_digest leaves f).
    + unfold path_values. by rewrite length_map, length_rev.
Qed.

Lemma check_node_values_Ok vs : Forall (fun v => py_len v = Ok 32) vs <-> pm.check_node_values vs = Ok ().
Proof.
  induction vs as [|v vs IH]; [split; [done|constructor]|]. rewrite Forall_cons. cbn [pm.check_node_values].
  destruct (py_len v) as [n|]; [|naive_solver]. destruct (n =? 32) eqn:E; zbool; cbn [negb]; [|naive_solver].
  subst. naive_solver.
Qed.

Lemma py_len_digest v : is_digest v -> py_len (PBytes v) = Ok 32.
Proof. unfold is_digest. cbn [py_len]. unfold zlen. intros ->. done. Qed.

(** The node values of some mountains, and the paths of a consistency proof. *)
Definition node_values leaves (ms : list (nat * Z)) : list bytes := map (fun m => node_hash leaves m.1 m.2) ms.

Definition bstr_list (l : list bytes) : pyval := PList (map PBytes l).

Definition honest_paths leaves (K : nat) (A al : Z) : list pyval :=
  map (fun _ => bstr_list []) (mountains A) ++
  map (fun m => bstr_list (path_values leaves K A m)) (mts K al A).

(** How many peaks of the target the paths reach. *)
Definition reached (K : nat) (A al : Z) : nat :=
  length (mountains A) + match mts K al A with [] => 0 | _ => 1 end.

Lemma node_values_digest leaves f ms :
  Forall is_digest leaves -> f <= zlen leaves -> Forall (fun m => complete f m.1 m.2) ms ->
  Forall is_digest (node_values leaves ms).
Proof.
  intros Hd Hf Hms. apply Forall_map. eapply Forall_impl; [exact Hms|]. intros m Hc.
  apply node_hash_digest; [done|]. by apply (complete_mono f).
Qed.

Lemma mountains_complete f : 0 <= f -> Forall (fun m => complete f m.1 m.2) (mountains f).
Proof. intros Hf. apply Forall_forall. intros [h t] Hm. by apply complete_mountain. Qed.

Lemma Forall3_map_same {A B C D} (P : B -> C -> D -> Prop) (f : A -> B) (g : A -> C) (h : A -> D) l :
  (forall x, x ∈ l -> P (f x) (g x) (h x)) -> Forall3 P (map f l) (map g l) (map h l).
Proof.
  induction l as [|x l IH]; intros Hl; [constructor|]. cbn [map]. constructor; [apply Hl; by left|].
  apply IH. intros y Hy. apply Hl. by right.
Qed.

Lemma consistent_roots_honest leaves a b K A al bl :
  splits a b K A al bl -> 0 < a -> Forall is_digest leaves -> b <= zlen leaves -> nc b < MAX_MMR_SIZE ->
  pm.consistent_roots (nc a) (nc b) (node_values leaves (mountains a)) (honest_paths leaves K A al) =
  Ok (node_values leaves (take (reached K A al) (mountains b)), popcount b - Z.of_nat (reached K A al)).
Proof.
  intros Hsp Ha Hd Hb Hmax. destruct (mountains_split _ _ _ _ _ _ Hsp) as [Ea Eb].
  pose proof Hsp as [_ HA Eqa Hal Eqb Hbl]. unfold node_values at 1. rewrite Ea, map_app.
  pose proof (aligned_nonneg _ _ HA). pose proof (p2_pos K).
  apply (consistent_roots_spec a b K A al bl); rewrite ?length_map; try done.
  assert (zlen (node_values leaves (take (reached K A al) (mountains b))) = Z.of_nat (reached K A al)) as ->.
  { unfold node_values, zlen. rewrite length_map, length_take, Eb, length_app. unfold reached. cbn [length].
    destruct (mts K al A); lia. }
  split_and!; [|done|].
  { apply Forall_map. apply Forall_forall. done. }
  unfold reached, node_values. rewrite Eb. destruct (mts K al A) as [|m0 ms] eqn:Em; [left|right].
  - by rewrite Nat.add_0_r, take_app_length.
  - exists (node_hash leaves K A). split_and!; [done| |].
    + rewrite <- Em. rewrite <- (map_id (mts K al A)) at 1. apply Forall3_map_same. intros m Hm.
      destruct (below_inside K al A m HA Hal Hm) as (_ & Hm2 & Hin & _).
      apply (leads_honest leaves b); auto with cll. split; [auto with cll|lia].
    + rewrite take_app_ge, Nat.add_sub' by lia. cbn [take]. by rewrite map_app.
Qed.

Lemma check_honest_paths leaves b K A al right_ :
  Forall is_digest leaves -> b <= zlen leaves -> complete b K A -> Forall is_digest right_ ->
  exists values, map_result py_iter (honest_paths leaves K A al) = Ok values /\
    pm.check_node_values (concat values ++ map PBytes right_) = Ok ().
Proof.
  intros Hd Hb Hc Hr.
  exists (map (fun _ => []) (mountains A) ++ map (fun m => map PBytes (path_values leaves K A m)) (mts K al A)).
  split.
  - apply map_result_app; rewrite map_result_map; by apply map_result_Ok.
  - apply check_node_values_Ok. apply Forall_app. split; [|apply Forall_map; eapply Forall_impl; [exact Hr|apply py_len_digest]].
    apply Forall_concat, Forall_app. split; apply Forall_map, Forall_forall; [constructor|].
    intros m _. apply Forall_map. eapply Forall_impl; [|apply py_len_digest].
    by apply (siblings_digest leaves b).
Qed.

(** What the verifier computes from the old peaks and an honest proof: the
    peaks at the new size. *)
Lemma verify_accumulator_honest leaves a b K A al bl :
  splits a b K A al bl -> 0 < a -> Forall is_digest leaves -> b <= zlen leaves -> nc b < MAX_MMR_SIZE ->
  pm.verify_consistency_accumulator (nc a) (node_values leaves (mountains a))
    (nc a, nc b, honest_paths leaves K A al,
     map PBytes (node_values leaves (drop (reached K A al) (mountains b)))) =
  Ok (map PBytes (node_values leaves (mountains b))).
Proof.
  intros Hsp Ha Hd Hb Hmax. pose proof Hsp as [_ HA Eqa Hal Eqb Hbl]. pose proof (aligned_nonneg _ _ HA).
  pose proof (p2_pos K). destruct (mountains_split _ _ _ _ _ _ Hsp) as [_ Eb].
  unfold pm.verify_consistency_accumulator. rewrite Z.eqb_refl. cbn [negb].
  destruct (check_honest_paths leaves b K A al (node_values leaves (drop (reached K A al) (mountains b))))
    as (values & Ev & Ec); [done|done|split; [auto with cll|lia]| |].
  { apply (node_values_digest leaves b); [done|done|]. apply Forall_drop, mountains_complete. lia. }
  rewrite Ev, Ec, (consistent_roots_honest leaves a b K A al bl) by done.
  assert (reached K A al <= length (mountains b))%nat as Hreach.
  { rewrite Eb, length_app. unfold reached. cbn [length]. destruct (mts K al A); lia. }
  rewrite <- length_mountains by lia. rewrite zlen_map. unfold node_values at 1, zlen.
  rewrite length_map, length_drop. rewrite (proj2 (Z.eqb_eq _ _)) by lia. cbn [negb].
  rewrite <- map_app. unfold node_values. by rewrite <- map_app, take_drop.
Qed.
End complete.

(** ** The receipt of consistency is binding *)

(** The strings [included_root] hashes, by the same loop. *)
Section strings.
Context {HL : Hashlib}.
Implicit Types leaves : list bytes.

Definition step_string (st : Z * Z * bytes) (sibling : pyval) : option bytes :=
  let '(i, g, root) := st in
  match pm.index_height (i + 1), as_buffer sibling with
  | Ok h, Some b =>
      Some (if g <? h then be_bytes 8 (i + 1 + 1) ++ b ++ root
            else be_bytes 8 (i + Z.shiftl 2 g + 1) ++ root ++ b)
  | _, _ => None
  end.

Fixpoint loop_strings (st : Z * Z * bytes) (proof : list pyval) : list bytes :=
  match proof with
  | [] => []
  | sibling :: proof =>
      match step_string st sibling, pm.included_step st sibling with
      | Some x, Ok st => x :: loop_strings st proof
      | _, _ => []
      end
  end.

Definition included_strings (i : Z) (nodehash : bytes) (proof : pyval) : list bytes :=
  match pm.index_height i, py_iter proof with
  | Ok g, Ok l => loop_strings (i, g, nodehash) l
  | _, _ => []
  end.

(** All the strings hashed for a receipt of consistency. *)
Definition consistency_strings (sizefrom : Z) (accumulatorfrom : list bytes) (proofs : list pyval) : list bytes :=
  match pm.peaks (sizefrom - 1) with
  | Ok pks => concat (map (fun x => included_strings x.1 x.2.1 x.2.2) (zip pks (zip accumulatorfrom proofs)))
  | Raise _ => []
  end.

Lemma included_step_buffer st x r :
  pm.included_step st x = Ok r ->
  exists b, as_buffer x = Some b /\ pm.included_step st (PBytes b) = Ok r /\ step_string st (PBytes b) = step_string st x.
Proof.
  destruct st as [[i g] root]. unfold pm.included_step, step_string, pm.hash_pospair64.
  destruct (pm.index_height (i + 1)) as [h|]; [|done]. cbn [as_buffer].
  destruct (g <? h), (to_bytes _ 8); try done; destruct (as_buffer x) as [b|] eqn:E; try done; eauto.
Qed.

Lemma included_loop_buffers st l r :
  pm.included_loop st l = Ok r ->
  exists sibs, Forall2 (fun x b => as_buffer x = Some b) l sibs /\
    pm.included_loop st (map PBytes sibs) = Ok r /\ loop_strings st (map PBytes sibs) = loop_strings st l.
Proof.
  revert st. induction l as [|x l IH]; intros st; cbn [pm.included_loop]; [by exists []|].
  destruct (pm.included_step st x) as [st'|] eqn:Ex; [|done].
  intros (sibs & Hf & Hl & Hs)%IH. destruct (included_step_buffer _ _ _ Ex) as (b & Hb & Eb & Es).
  exists (b :: sibs). cbn [map pm.included_loop loop_strings]. rewrite Eb, Es, Ex, Hs.
  split_and!; [by constructor|done|done].
Qed.

Lemma loop_strings_snoc st l x st' :
  pm.included_loop st l = Ok st' -> loop_strings st (l ++ [x]) = loop_strings st l ++ loop_strings st' [x].
Proof.
  revert st. induction l as [|y l IH]; intros st; cbn [pm.included_loop app]; [by intros [= <-]|].
  destruct (pm.included_step st y) as [st1|] eqn:Ey; [|done]. intros Hl.
  destruct (included_step_buffer _ _ _ Ey) as (b & Hb & _ & _).
  change (loop_strings st (y :: ?k)) with
    (match step_string st y, pm.included_step st y with Some x, Ok st => x :: loop_strings st k | _, _ => [] end).
  rewrite Ey, (IH _ Hl). unfold step_string, pm.included_step in *. destruct st as [[i g] root].
  destruct (pm.index_height (i + 1)); [|done]. by rewrite Hb.
Qed.

Lemma loop_strings_1 st x st' :
  pm.included_step st x = Ok st' -> loop_strings st [x] = match step_string st x with Some s => [s] | None => [] end.
Proof. intros E. cbn [loop_strings]. rewrite E. by destruct (step_string st x). Qed.

Lemma step_string_left h s b sib :
  aligned (S h) s -> step_string (node_pos h s, Z.of_nat h, b) (PBytes sib) = Some (interior_preimage b sib (node_pos (S h) s)).
Proof.
  intros Hal. unfold step_string. rewrite height_after_left by done. cbn [as_buffer].
  rw_bool (Z.of_nat h <? 0) false. rewrite shiftl_times_p2. unfold interior_preimage.
  by replace (node_pos h s + 2 * p2 h) with (node_pos (S h) s) by (unfold node_pos; rewrite !p2_S; lia).
Qed.

Lemma step_string_right h s b sib :
  aligned (S h) s ->
  step_string (node_pos h (s + p2 h), Z.of_nat h, b) (PBytes sib) = Some (interior_preimage sib b (node_pos (S h) s)).
Proof.
  intros Hal. unfold step_string. rewrite height_after_right by done. cbn [as_buffer].
  rw_bool (Z.of_nat h <? Z.of_nat (S h)) true. by rewrite <- (merge_pos h (s + p2 h) s Hal eq_refl).
Qed.

(** Along the path of the tree they are the strings of [fold_path]. *)
Lemma loop_strings_fold H s0 h s acc sibs r :
  aligned H s0 -> aligned h s -> inside H s0 h s -> is_digest acc -> Forall is_digest sibs ->
  length sibs = length (td_path H s0 h s) ->
  fold_path acc (rev (map step_of (td_path H s0 h s))) sibs = Ok r ->
  loop_strings (node_pos h s, Z.of_nat h, acc) (map PBytes sibs) =
  fold_preimages acc (rev (map step_of (td_path H s0 h s))) sibs.
Proof.
  intros Hal Hs Hin Hacc. revert s0 sibs r Hal Hin. induction H as [|K IH]; intros s0 sibs r Hal Hin Hsibs Hlen Hr.
  { by destruct sibs. }
  cbn [td_path] in *. destruct (Nat.eqb_spec (S K) h) as [<-|Hne]; [by destruct sibs|].
  pose proof (inside_child K s0 h s Hal Hs Hin ltac:(done)) as Hch.
  destruct (s + p2 h <=? s0 + p2 K); cbn [length] in Hlen;
    (destruct sibs as [|sib sibs _] using rev_ind; [done|]);
    rewrite length_app, Nat.add_1_r in Hlen; injection Hlen as Hlen;
    apply Forall_app in Hsibs as [Hsibs Hsib%Forall_inv]; cbn [rev map] in *;
    pose proof Hr as Hr0; apply fold_path_snoc_inv in Hr as (b & Hb & _ & Hpre);
    try (by rewrite length_rev, length_map);
    rewrite fold_path_snoc, Hb in Hr0 by (by rewrite length_rev, length_map);
    pose proof (fold_path_digest _ _ _ _ Hacc Hb) as Hbd; rewrite Hpre, map_app; cbn [map];
    match type of Hb with context [td_path K ?x h s] =>
      pose proof (included_loop_fold K x h s acc sibs ltac:(auto with cll) Hs Hch Hacc Hsibs Hlen) as Hloop;
      rewrite Hb in Hloop; erewrite loop_strings_snoc by exact Hloop;
      rewrite (IH x sibs b) by (done || auto with cll) end; f_equal;
    unfold step_preimage; cbn [fold_path step_of target_is_right parent_pos fst snd] in *;
    change (peak_of (S K, s0)) with (node_pos (S K) s0) in *;
    destruct (interior_hash _ _ _) as [c|] eqn:Ec; try done.
  - rewrite (loop_strings_1 _ _ (node_pos (S K) s0, Z.of_nat (S K), c)); [by rewrite step_string_left|].
    rewrite included_step_left by done. by rewrite Ec.
  - rewrite (loop_strings_1 _ _ (node_pos (S K) s0, Z.of_nat (S K), c)); [by rewrite step_string_right|].
    rewrite included_step_right by done. by rewrite Ec.
Qed.

(** A value that leads to the honest peak is the honest one, or a string the
    verifier hashed collides with one of the tree. *)
Lemma leads_sound leaves f K A m v p l :
  Forall is_digest leaves -> f <= zlen leaves -> complete f K A -> aligned m.1 m.2 -> inside K A m.1 m.2 ->
  is_digest v -> py_iter p = Ok l -> Forall (fun x => py_len x = Ok 32) l ->
  leads (Z.of_nat K) (node_hash leaves K A) m v p ->
  v = node_hash leaves m.1 m.2 \/
  collides (tree_preimages leaves K A) (included_strings (peak_of m) v p).
Proof.
  intros Hd Hf Hc Hm Hin Hv Hp Hl [Hlen Hroot]. pose proof (inside_le _ _ _ _ Hin).
  change (peak_of m) with (node_pos m.1 m.2) in *. unfold pm.included_root, included_strings in *.
  rewrite index_height_node, Hp in * by done.
  destruct (pm.included_loop _ l) as [r|] eqn:El; [|done]. injection Hroot as Hroot.
  apply included_loop_buffers in El as (sibs & Hsibs & El & <-).
  assert (zlen l = Z.of_nat K - Z.of_nat m.1) as Hzl.
  { assert (py_len p = Ok (zlen l)) as E; [|rewrite E in Hlen; by injection Hlen].
    destruct p; try done; cbn in *; injection Hp as <-; by rewrite ?zlen_map. }
  assert (length sibs = length (td_path K A m.1 m.2)) as Hls.
  { rewrite length_td_path by (done || apply Hc). apply Forall2_length in Hsibs. unfold zlen in Hzl. lia. }
  assert (Forall is_digest sibs) as Hsd.
  { clear -Hsibs Hl. revert Hl. induction Hsibs as [|x b l sibs Hx _ IH]; intros Hl; constructor.
    - apply Forall_inv in Hl. unfold is_digest. destruct x; try done; cbn in *; injection Hx as ->;
        injection Hl as Hl; unfold zlen in Hl; lia.
    - apply IH. by inversion Hl. }
  rewrite (included_loop_fold K A) in El by (done || apply Hc).
  destruct (fold_path v _ sibs) as [a|] eqn:Ef; [|done]. injection El as <-. cbn [snd] in Hroot. subst a.
  rewrite (loop_strings_fold K A _ _ _ _ _ (proj1 Hc) Hm Hin Hv Hsd Hls Ef).
  by apply (fold_path_sound f) in Ef.
Qed.

Lemma check_node_values_app l k : pm.check_node_values (l ++ k) = Ok () ->
  Forall (fun v => py_len v = Ok 32) l /\ Forall (fun v => py_len v = Ok 32) k.
Proof. intros H%check_node_values_Ok. by apply Forall_app in H. Qed.
Definition all_strings (ms : list (nat * Z)) (vs : list bytes) (ps : list pyval) : list bytes :=
  concat (map (fun x => included_strings x.1 x.2.1 x.2.2) (zip (map peak_of ms) (zip vs ps))).

Lemma all_leads_sound leaves f K A ms vs ps :
  Forall is_digest leaves -> f <= zlen leaves -> complete f K A ->
  Forall (fun m => aligned m.1 m.2 /\ inside K A m.1 m.2) ms -> Forall is_digest vs ->
  Forall (fun p => exists l, py_iter p = Ok l /\ Forall (fun x => py_len x = Ok 32) l) ps ->
  Forall3 (leads (Z.of_nat K) (node_hash leaves K A)) ms vs ps ->
  vs = node_values leaves ms \/ collides (tree_preimages leaves K A) (all_strings ms vs ps).
Proof.
  intros Hd Hf Hc Hms Hvs Hps Hl. induction Hl as [|m v p ms vs ps Hl Hrest IH]; [by left|].
  apply Forall_cons in Hms as [[Hm Hin] Hms], Hvs as [Hv Hvs], Hps as [(l & Hp & Hpl) Hps].
  unfold all_strings. cbn [map zip zip_with concat fst snd].
  destruct (leads_sound leaves f K A m v p l) as [->|Hcol]; try done.
  - destruct (IH Hms Hvs Hps) as [->|Hcol]; [by left|right].
    eapply collides_mono; [done| |exact Hcol]. unfold all_strings. set_solver.
  - right. eapply collides_mono; [done| |exact Hcol]. set_solver.
Qed.

Lemma map_Some_app_inv (l k : list bytes) (x : list (option bytes)) (y : list bytes) :
  map Some l ++ x = map Some (k ++ y) -> length l = length k -> l = k.
Proof.
  revert k. induction l as [|a l IH]; intros [|c k] E Hlen; try done.
  cbn in E. injection E as -> E. f_equal. apply IH; [done|]. by injection Hlen.
Qed.

(** The strings hashed to build the interior nodes of a log. *)
Definition node_preimages leaves : list bytes :=
  concat (map (fun m => tree_preimages leaves m.1 m.2) (mountains (zlen leaves))).

Lemma node_preimages_sub leaves m :
  m ∈ mountains (zlen leaves) -> tree_preimages leaves m.1 m.2 ⊆ node_preimages leaves.
Proof.
  intros Hm x Hx. apply list_elem_of_In, in_concat. exists (tree_preimages leaves m.1 m.2).
  split; [|by apply list_elem_of_In]. apply in_map_iff. exists m. split; [done|by apply list_elem_of_In].
Qed.

Lemma tree_preimages_inside leaves H s0 h s :
  aligned H s0 -> aligned h s -> inside H s0 h s -> tree_preimages leaves h s ⊆ tree_preimages leaves H s0.
Proof.
  intros Hal Hs. revert s0 Hal. induction H as [|K IH]; intros s0 Hal Hin.
  { pose proof (inside_le _ _ _ _ Hin). by replace h with 0%nat by lia. }
  destruct (decide (S K = h)) as [<-|Hne]; [by replace s with s0 by (destruct Hin; lia)|].
  pose proof (inside_child K s0 h s Hal Hs Hin ltac:(done)) as Hch. cbn [tree_preimages].
  destruct (s + p2 h <=? s0 + p2 K); [specialize (IH s0)|specialize (IH (s0 + p2 K))];
    intros x Hx; apply elem_of_cons; right; apply elem_of_app; [left|right]; apply IH; auto with cll.
Qed.

Lemma tree_preimages_app leaves k h s :
  complete (zlen leaves) h s -> tree_preimages (leaves ++ k) h s = tree_preimages leaves h s.
Proof.
  revert s. induction h as [|h IH]; intros s Hc; [done|]. cbn [tree_preimages].
  pose proof (complete_left _ _ _ Hc). pose proof (complete_right _ _ _ Hc).
  by rewrite !node_hash_app, !IH.
Qed.

(** A prefix of the log hashes nothing else. *)
Lemma node_preimages_app leaves k : node_preimages leaves ⊆ node_preimages (leaves ++ k).
Proof.
  intros x Hx. apply list_elem_of_In, in_concat in Hx as (l & Hl & Hx). apply in_map_iff in Hl as (m & <- & Hm).
  apply list_elem_of_In in Hm, Hx. pose proof (zlen_nonneg leaves). destruct m as [h t].
  pose proof (complete_mountain (zlen leaves) h t ltac:(lia) Hm) as Hc.
  rewrite <- (tree_preimages_app leaves k) in Hx by done. pose proof (zlen_nonneg (leaves ++ k)).
  assert (complete (zlen (leaves ++ k)) h t) as Hc'.
  { apply (complete_mono (zlen leaves)); [rewrite zlen_app; pose proof (zlen_nonneg k); lia|done]. }
  destruct (find_containing_peak_complete (zlen (leaves ++ k)) h t ltac:(lia) Hc') as (idx & H' & t' & _ & Hin & Hm' & _).
  apply (node_preimages_sub _ (H', t')); [done|]. cbn [fst snd].
  apply mountains_elem in Hm' as (Hal & _ & _); [|lia].
  apply (tree_preimages_inside _ H' t' h t); [auto with cll|apply Hc|done|done].
Qed.

(** If the verifier arrives at the peaks of a log, the old accumulator it
    started from is the accumulator of the log's prefix. *)
Lemma accumulator_sound leaves a acc paths right_ out :
  0 < a < zlen leaves -> Forall is_digest leaves -> Forall is_digest acc ->
  pm.verify_consistency_accumulator (nc a) acc (nc a, nc (zlen leaves), paths, right_) = Ok out ->
  map as_buffer out = map Some (peak_hashes leaves) ->
  acc = node_values leaves (mountains a) \/
  collides (node_preimages leaves) (consistency_strings (nc a) acc paths).
Proof.
  intros Ha Hd Hacc Hv Hout. set (b := zlen leaves) in *. assert (zlen leaves = b) as Hlen by done.
  destruct (split_exists a b) as (K & A & al & bl & Hsp); [lia|].
  destruct (mountains_split _ _ _ _ _ _ Hsp) as [Ea Eb]. pose proof Hsp as [_ HA Eqa Hal Eqb Hbl].
  pose proof (aligned_nonneg _ _ HA). pose proof (p2_pos K).
  unfold pm.verify_consistency_accumulator in Hv. rewrite Z.eqb_refl in Hv. cbn [negb] in Hv.
  destruct (map_result py_iter paths) as [values|] eqn:Ev; [|done].
  destruct (pm.check_node_values _) as [[]|] eqn:Ec; [|done]. apply check_node_values_app in Ec as [Hvals _].
  destruct (pm.consistent_roots _ _ _ _) as [[roots nright]|] eqn:Er; [|done].
  destruct (negb _); [done|]. injection Hv as <-.
  destruct (consistent_roots_lengths _ _ _ _ _ (proj1 Ha) Er) as [La Lp].
  rewrite <- length_mountains, Ea in La, Lp by lia. unfold zlen in La, Lp. rewrite length_app in La, Lp.
  set (n1 := length (mountains A)) in *.
  rewrite <- (take_drop n1 acc), <- (take_drop n1 paths) in Er.
  apply (consistent_roots_spec a b K A al bl) in Er; try done; try lia;
    rewrite ?length_take, ?length_drop; try (unfold n1 in *; lia).
  destruct Er as (_ & _ & Hcase). unfold peak_hashes in Hout. fold b in Hout. rewrite Eb, map_app in Hout.
  rewrite map_app, map_map in Hout. cbn [as_buffer] in Hout.
  assert (forall x, map Some (take n1 acc) ++ x =
    map Some (map (fun m => node_hash leaves m.1 m.2) (mountains A) ++
              map (fun m => node_hash leaves m.1 m.2) ((K, A) :: mts K bl (A + p2 K))) ->
    take n1 acc = node_values leaves (mountains A)) as Hv1.
  { intros x Hx. apply map_Some_app_inv in Hx; [done|]. rewrite length_take, length_map. unfold n1 in *. lia. }
  destruct Hcase as [[Hnil ->]|(R & Hne & Hl & ->)].
  { left. apply Hv1 in Hout. rewrite <- (take_drop n1 acc), Hnil, Hout, app_nil_r, Ea.
    apply (f_equal length) in Hnil. rewrite length_drop in Hnil. cbn [length] in Hnil.
    destruct (mts K al A); [by rewrite app_nil_r|cbn [length] in *; unfold n1 in *; lia]. }
  rewrite map_app, <- app_assoc in Hout. pose proof (Hv1 _ Hout) as E1. rewrite E1, map_app in Hout.
  apply app_inv_head in Hout. cbn [map app fst snd] in Hout. injection Hout as -> _.
  assert (complete b K A) as Hc by (split; [auto with cll|lia]).
  destruct (all_leads_sound leaves b K A (mts K al A) (drop n1 acc) (drop n1 paths)) as [E2|Hcol]; try done.
  - apply Forall_forall. intros m Hm. destruct (below_inside K al A m HA Hal Hm) as (_ & ? & ? & _). auto with cll.
  - by apply Forall_drop.
  - apply Forall_drop, Forall_forall. intros p Hp. apply list_elem_of_lookup_1 in Hp as [i Hi].
    destruct (map_result_lookup _ _ _ _ _ Ev Hi) as (l & Hl1 & Hl2). exists l. split; [done|].
    apply Forall_forall. intros x Hx. apply (proj1 (Forall_forall _ _) Hvals).
    apply list_elem_of_In, in_concat. exists l. split; apply list_elem_of_In; [by eapply list_elem_of_lookup_2|done].
  - left. by rewrite <- (take_drop n1 acc), E1, E2, Ea; unfold node_values; rewrite map_app.
  - right. eapply collides_mono; [| |exact Hcol].
    + apply (node_preimages_sub leaves (K, A)). fold b. rewrite Eb. set_solver.
    + unfold consistency_strings. rewrite pm_peaks_nc, Ea by lia. unfold all_strings.
      assert (zip acc paths = zip (take n1 acc) (take n1 paths) ++ zip (drop n1 acc) (drop n1 paths)) as ->
        by (rewrite <- zip_with_app by (rewrite !length_take; lia); by rewrite !take_drop).
      rewrite map_app, zip_with_app, map_app, concat_app; [set_solver|].
      rewrite length_map, length_zip_with, !length_take. unfold n1 in *. lia.
Qed.
End strings.
