(* ===== verification/Cll02.v ===== *)
(** * The -02 checkpoint: reference encoder and verifier

    [src/cll-02-vectors/cll02.py], written from the text of
    draft-mih-scitt-checkpointed-local-log-02 over [profile_main.py]
    ([Profile]): deterministic CBOR, the log and its commitment, the claims of
    a checkpoint, every check a verifier makes on them, and the registration
    policy of a transparency service; with the two loops of [generate.py] that
    drive them, the producer's chain and the service's registrations. *)
From S2P Require Import Prelude Bytes Text Py Sha256 MmrPos Mmr Commitment Profile.
From stdpp Require Import sorting.
Open Scope Z_scope.

Definition malformed {A} : result A := Raise (Draft02Error cbor_not_deterministic).

(** The text keys and values of dictionaries. *)
Definition tkey (key : string) : pyval := PStr (str key).

Module cll02.

Definition KIND : pystr := str "cll-checkpoint".
Definition HASH_LEN : Z := 32.

(** ** Deterministic CBOR *)

(** [for ai, width in ...]: the first width the number fits. *)
Fixpoint _head_loop (major n : Z) (forms : list (Z * nat)) : result bytes :=
  match forms with
  | [] => Raise ValueError
  | (ai, width) :: forms =>
      if n <? Z.shiftl 1 (8 * Z.of_nat width) then
        let! initial := bytes_of_ints [Z.lor (Z.shiftl major 5) ai] in
        let! argument := to_bytes n width in
        Ok (initial ++ argument)
      else _head_loop major n forms
  end.

Definition _head (major n : Z) : result bytes :=
  if n <? 24 then bytes_of_ints [Z.lor (Z.shiftl major 5) n]
  else _head_loop major n [(24, 1%nat); (25, 2%nat); (26, 4%nat); (27, 8%nat)].

(** Encoded entries in the order of tuples. *)
Definition entry_le (e f : bytes * bytes) : Prop :=
  (e.1 <> f.1 /\ bytes_leb e.1 f.1 = true) \/ (e.1 = f.1 /\ bytes_leb e.2 f.2 = true).
#[export] Instance entry_le_dec e f : Decision (entry_le e f).
Proof. unfold entry_le. apply _. Defined.

(** [isinstance] is strict on containers: tuples, bytearrays and the rest are
    refused, and so are [bool] and [None]. *)
Fixpoint cbor (v : pyval) : result bytes :=
  let fix cbor_list (l : list pyval) : result (list bytes) :=
    match l with
    | [] => Ok []
    | x :: l => let! b := cbor x in let! bs := cbor_list l in Ok (b :: bs)
    end in
  let fix cbor_entries (d : list (pyval * pyval)) : result (list (bytes * bytes)) :=
    match d with
    | [] => Ok []
    | (k, x) :: d =>
        let! kb := cbor k in
        let! xb := cbor x in
        let! es := cbor_entries d in
        Ok ((kb, xb) :: es)
    end in
  match v with
  | PInt n => if 0 <=? n then _head 0 n else _head 1 (-1 - n)
  | PBytes bs => let! h := _head 2 (zlen bs) in Ok (h ++ bs)
  | PStr s =>
      match utf8_encode s with
      | Some b => let! h := _head 3 (zlen b) in Ok (h ++ b)
      | None => Raise UnicodeError
      end
  | PList l => let! h := _head 4 (zlen l) in let! bs := cbor_list l in Ok (h ++ concat bs)
  | PDict d =>
      let! es := cbor_entries d in
      let items := merge_sort entry_le es in
      let! h := _head 5 (zlen items) in
      Ok (h ++ concat (map (fun '(k, x) => k ++ x) items))
  | _ => Raise TypeError
  end.

(** [out[k] = x] *)
Definition hashable (k : pyval) : bool :=
  match k with PList _ | PDict _ | PSet _ | PByteArray _ => false | _ => true end.

Fixpoint dict_put (d : list (pyval * pyval)) (k x : pyval) : list (pyval * pyval) :=
  match d with
  | [] => [(k, x)]
  | (k', x') :: d => if py_eq k' k then (k', x) :: d else (k', x') :: dict_put d k x
  end.

Definition dict_store (d : list (pyval * pyval)) (k x : pyval) : result (list (pyval * pyval)) :=
  if hashable k then Ok (dict_put d k x) else Raise TypeError.

(** The argument of a head and the offset after it; only the shortest form. *)
Definition dec_argument (b : bytes) (ib : byte) (i : Z) : result (Z * Z) :=
  let major := Z.shiftr (b2z ib) 5 in
  let ai := Z.land (b2z ib) 0x1F in
  if ai <? 24 then Ok (ai, i)
  else if bool_decide (ai ∈ [24; 25; 26; 27]) then
    let w := Z.shiftl 1 (ai - 24) in
    if zlen b <? i + w then malformed
    else
      let n := from_bytes (py_slice b i (i + w)) in
      let! shortest := _head major n in
      let! written := to_bytes n (Z.to_nat w) in
      if bool_decide (shortest = ib :: written) then Ok (n, i + w) else malformed
  else malformed.

(** The loops of an array and of a map over the decoder of an item. *)
Section loops.
Context (b : bytes) (dec : Z -> result (pyval * Z)).

Fixpoint dec_items (n : nat) (i : Z) (out : list pyval) : result (list pyval * Z) :=
  match n with
  | O => Ok (out, i)
  | S n => let! (x, i) := dec i in dec_items n i (out ++ [x])
  end.

Fixpoint dec_entries (n : nat) (i : Z) (out : list (pyval * pyval)) (prev : option bytes)
  : result (list (pyval * pyval) * Z) :=
  match n with
  | O => Ok (out, i)
  | S n =>
      let ks := i in
      let! (k, i) := dec i in
      let kb := py_slice b ks i in
      if match prev with Some prev => bytes_leb kb prev | None => false end then malformed
      else
        let! (x, i) := dec i in
        let! out := dict_store out k x in
        dec_entries n i out (Some kb)
  end.
End loops.

(** [room] is the depth Python's recursion may still reach. *)
Fixpoint _dec (room : nat) (b : bytes) (i : Z) : result (pyval * Z) :=
  match room with
  | O => Raise RecursionError
  | S room =>
      if zlen b <=? i then malformed
      else
        let! ib := py_index b i in
        let major := Z.shiftr (b2z ib) 5 in
        let! (n, i) := dec_argument b ib (i + 1) in
        if major =? 0 then Ok (PInt n, i)
        else if major =? 1 then Ok (PInt (-1 - n), i)
        else if bool_decide (major ∈ [2; 3]) then
          if zlen b <? i + n then malformed
          else
            let s := py_slice b i (i + n) in
            if major =? 2 then Ok (PBytes s, i + n)
            else match utf8_decode s with Some t => Ok (PStr t, i + n) | None => Raise UnicodeError end
        else if major =? 4 then
          let! (out, i) := dec_items (_dec room b) (Z.to_nat n) i [] in Ok (PList out, i)
        else if major =? 5 then
          let! (out, i) := dec_entries b (_dec room b) (Z.to_nat n) i [] None in Ok (PDict out, i)
        else malformed
  end.

Definition decode (room : nat) (b : bytes) : result pyval :=
  let! (v, end_) := _dec room b 0 in
  if negb (end_ =? zlen b) then malformed else Ok v.

(** ** The log *)
Section log.
Context {HL : Hashlib}.

Definition leaf_value (entry : bytes) : result bytes :=
  if negb (zlen entry =? HASH_LEN) then Raise ValueError else Ok (sha256 ([Byte.x00] ++ entry)).

Fixpoint build_loop (db : pm.ListDB) (sizes : list Z) (entries : list bytes) : result (pm.ListDB * list Z) :=
  match entries with
  | [] => Ok (db, sizes)
  | e :: entries =>
      let! leaf := leaf_value e in
      let! (size, db) := pm.add_leaf_hash db leaf in
      build_loop db (sizes ++ [size]) entries
  end.

Definition build_log (entries : list bytes) : result (list bytes * list Z) :=
  let! (db, sizes) := build_loop {| pm.nodes := [] |} [0] entries in
  Ok (pm.nodes db, sizes).

Definition accumulator (nodes : list bytes) (size : Z) : result (list bytes) :=
  if size =? 0 then Ok []
  else let! pks := pm.peaks (size - 1) in map_result (py_index nodes) pks.

Definition peak_count (size : Z) : Z :=
  if size =? 0 then 0 else pm.ones_count (pm.leaf_count (size - 1)).

(** [b"".join(peaks)] *)
Definition commitment (peaks : list pyval) : result bytes :=
  match mapM as_buffer peaks with Some l => Ok (concat l) | None => Raise TypeError end.

Definition split_commitment (c : bytes) : list bytes :=
  map (fun i => py_slice c (HASH_LEN * i) (HASH_LEN * i + HASH_LEN)) (seqZ 0 ((zlen c + 31) / 32)).

(** The producer's [tree-size-1, tree-size-2, consistency-paths,
    right-peaks]. *)
Definition consistency_proof_content (nodes : list bytes) (size1 size2 : Z)
  : result (Z * Z * list (list bytes) * list bytes) :=
  let! positions :=
    if size1 =? 0 then Ok [] else pm.consistency_proof_paths (size1 - 1) (size2 - 1) in
  let! paths := map_result (map_result (py_index nodes)) positions in
  let! acc1 := accumulator nodes size1 in
  let! (_, nright) := pm.consistent_roots size1 size2 acc1 (map (fun p => PList (map PBytes p)) paths) in
  let! acc2 := accumulator nodes size2 in
  let right_ := if nright =? 0 then [] else drop (Z.to_nat (zlen acc2 - nright)) acc2 in
  Ok (size1, size2, paths, right_).

(** ** Claims *)
Definition content_value (content : Z * Z * list (list bytes) * list bytes) : pyval :=
  let '(size1, size2, paths, right_) := content in
  PList [PInt size1; PInt size2; PList (map (fun p => PList (map PBytes p)) paths); PList (map PBytes right_)].

Definition claims_map (log_size : Z) (commit : bytes) (prev_size : Z) (prev_commit : bytes) (issued_at : pystr)
    (cadence leaf_count : option Z) (proof_content : option (Z * Z * list (list bytes) * list bytes))
  : result (list (pyval * pyval)) :=
  let! proof :=
    match proof_content with
    | Some content => let! b := cbor (content_value content) in Ok [(tkey "consistency_proof", PBytes b)]
    | None => Ok []
    end in
  Ok ([(tkey "kind", PStr KIND); (tkey "log_size", PInt log_size); (tkey "commitment", PBytes commit);
       (tkey "prev_size", PInt prev_size); (tkey "prev_commitment", PBytes prev_commit);
       (tkey "issued_at", PStr issued_at)]
      ++ match cadence with Some n => [(tkey "cadence", PInt n)] | None => [] end
      ++ match leaf_count with Some n => [(tkey "leaf_count", PInt n)] | None => [] end
      ++ proof).

(** [m.get(key)] *)
Definition get (m : list (pyval * pyval)) (key : string) : pyval :=
  match dict_find m (tkey key) with Some v => v | None => PNone end.

Definition has (m : list (pyval * pyval)) (key : string) : bool :=
  match dict_find m (tkey key) with Some _ => true | None => false end.

Definition _uint (m : list (pyval * pyval)) (k : string) : result Z :=
  match as_int (get m k) with
  | Some n => if n <? 0 then Raise (Draft02Error claim_type) else Ok n
  | None => Raise (Draft02Error claim_type)
  end.

Definition _bstr (m : list (pyval * pyval)) (k : string) : result bytes :=
  match get m k with PBytes b => Ok b | _ => Raise (Draft02Error claim_type) end.

(** A proof decoded to a list of two integers and two lists. *)
Definition proof_shape (v : pyval) : option (Z * Z * list pyval * list pyval) :=
  match v with
  | PList [size1; size2; PList paths; PList right_] =>
      match as_int size1, as_int size2 with
      | Some size1, Some size2 => Some (size1, size2, paths, right_)
      | _, _ => None
      end
  | _ => None
  end.

(** The part of [check_claims] about the proof, when the log grew. *)
Definition check_proof (room : nat) (m : list (pyval * pyval)) (log_size prev_size : Z) (c pc : bytes) : result () :=
  if negb (has m "consistency_proof") then Raise (Draft02Error proof_missing)
  else
    match get m "consistency_proof" with
    | PBytes raw =>
        let! content := decode room raw in
        match proof_shape content with
        | None => Raise (Draft02Error proof_not_profile_encoding)
        | Some (size1, size2, paths, right_) =>
            if negb (size1 =? prev_size) || negb (size2 =? log_size) then Raise (Draft02Error proof_sizes)
            else
              let! acc :=
                match pm.verify_consistency_accumulator prev_size (split_commitment pc) (size1, size2, paths, right_) with
                | Raise ProofError => Raise (Draft02Error proof_invalid)
                | r => r
                end in
              let! joined := commitment acc in
              if bool_decide (joined = c) then Ok () else Raise (Draft02Error proof_invalid)
        end
    | _ => Raise (Draft02Error proof_not_profile_encoding)
    end.

Definition check_complete (size : Z) : result () :=
  let! complete := pm.is_complete size in
  if complete : bool then Ok () else Raise (Draft02Error size_incomplete).

Definition check_claims (room : nat) (m : list (pyval * pyval)) : result () :=
  if negb (py_eq (get m "kind") (PStr KIND)) then Raise (Draft02Error wrong_kind) else
  let! log_size := _uint m "log_size" in
  let! prev_size := _uint m "prev_size" in
  let! c := _bstr m "commitment" in
  let! pc := _bstr m "prev_commitment" in
  let! _ := match get m "issued_at" with PStr _ => Ok () | _ => Raise (Draft02Error claim_type) end in
  let! _ := check_complete log_size in
  let! _ := check_complete prev_size in
  if log_size <? prev_size then Raise (Draft02Error size_decreased) else
  if negb (zlen c =? HASH_LEN * peak_count log_size) then Raise (Draft02Error commitment_length) else
  if negb (zlen pc =? HASH_LEN * peak_count prev_size) then Raise (Draft02Error prev_commitment_length) else
  let! _ :=
    if has m "leaf_count" then
      let! lc := _uint m "leaf_count" in
      if negb (lc =? (if log_size =? 0 then 0 else pm.leaf_count (log_size - 1)))
      then Raise (Draft02Error leaf_count_mismatch) else Ok ()
    else Ok () in
  let has_proof := has m "consistency_proof" in
  if (prev_size =? 0) || (prev_size =? log_size) then
    if has_proof : bool then Raise (Draft02Error proof_unexpected)
    else if (prev_size =? log_size) && negb (bool_decide (c = pc))
    then Raise (Draft02Error commitment_changed_without_growth)
    else Ok ()
  else check_proof room m log_size prev_size c pc.

End log.

(** ** The registration policy

    The service holds, per log identity (issuer, subject), the size and
    commitment it last registered. *)
Abbreviation identity := (pystr * pystr)%type.
Abbreviation registry := (gmap identity (pyval * pyval)).

Inductive continuity := first_seen | continuous.

(** [m[key]] *)
Definition item (m : list (pyval * pyval)) (key : string) : result pyval :=
  match dict_find m (tkey key) with Some v => Ok v | None => Raise KeyError end.

Definition registration_continuity (who : identity) (m : list (pyval * pyval)) (registered : registry)
  : result continuity :=
  match registered !! who with
  | None => Ok first_seen
  | Some last =>
      let! prev_size := item m "prev_size" in
      let! prev_commitment := item m "prev_commitment" in
      if py_eq prev_size last.1 && py_eq prev_commitment last.2 then Ok continuous
      else Raise (Draft02Error not_continuous)
  end.
End cll02.

(** ** The loops of [generate.py] *)
Module generate.
Definition CADENCE : Z := 3600.

Section generate.
Context {HL : Hashlib}.

(** One pass of the loop of [build]: the claims of the next checkpoint over
    the size and commitment of the one before, and their encoding. *)
Definition next_checkpoint (nodes : list bytes) (sizes : list Z) (prev : Z * bytes) (leaves : Z)
    (issued_at : pystr) (with_lc : bool) : result (list (pyval * pyval) * bytes * (Z * bytes)) :=
  let '(prev_size, prev_com) := prev in
  let! size := py_index sizes leaves in
  let! acc := cll02.accumulator nodes size in
  let! com := cll02.commitment (map PBytes acc) in
  let! content :=
    if (0 <? prev_size) && (prev_size <? size) then
      let! content := cll02.consistency_proof_content nodes prev_size size in Ok (Some content)
    else Ok None in
  let! claims := cll02.claims_map size com prev_size prev_com issued_at (Some CADENCE)
                   (if with_lc then Some leaves else None) content in
  let! payload := cll02.cbor (PDict claims) in
  Ok (claims, payload, (size, com)).

(** The loop of [build] over [CHAIN]: the payloads it signs. *)
Fixpoint build_chain (nodes : list bytes) (sizes : list Z) (prev : Z * bytes) (CHAIN : list (Z * pystr * bool))
  : result (list bytes) :=
  match CHAIN with
  | [] => Ok []
  | (leaves, issued_at, with_lc) :: CHAIN =>
      let! (_, payload, prev) := next_checkpoint nodes sizes prev leaves issued_at with_lc in
      let! payloads := build_chain nodes sizes prev CHAIN in
      Ok (payload :: payloads)
  end.

(** One pass of the loop of [manifest] over parsed checkpoints: the checks,
    the policy, and what the service then holds. *)
Definition register (room : nat) (registered : cll02.registry) (who : cll02.identity) (m : list (pyval * pyval))
  : result (cll02.continuity * cll02.registry) :=
  let! _ := cll02.check_claims room m in
  let! status := cll02.registration_continuity who m registered in
  let! log_size := cll02.item m "log_size" in
  let! commitment := cll02.item m "commitment" in
  Ok (status, <[who := (log_size, commitment)]> registered).

(** The loop itself, over the identities and payloads of the signed
    checkpoints; a payload that is no map has no claim to get. *)
Fixpoint registrations (room : nat) (registered : cll02.registry) (cps : list (cll02.identity * bytes))
  : result (list cll02.continuity * cll02.registry) :=
  match cps with
  | [] => Ok ([], registered)
  | (who, payload) :: cps =>
      let! v := cll02.decode room payload in
      match v with
      | PDict m =>
          let! (status, registered) := register room registered who m in
          let! (statuses, registered) := registrations room registered cps in
          Ok (status :: statuses, registered)
      | _ => Raise AttributeError
      end
  end.
End generate.
End generate.
