(* ===== verification/Cll02Cbor.v ===== *)
(** * The deterministic CBOR of the -02 reference

    [decode] accepts exactly the encodings [cbor] writes: every byte string it
    takes is the one encoding of the value it returns, and the encoding of
    every value it can return is taken back to that value. *)
From S2P Require Import Prelude Bytes Text Py Sha256 MmrPos Mmr Commitment Cbor Profile Cll02.
From stdpp Require Import sorting.
Open Scope Z_scope.

(** ** Heads *)
Lemma head_loop_eq major n :
  0 <= major < 8 -> 24 <= n ->
  cll02._head_loop major n [(24, 1%nat); (25, 2%nat); (26, 4%nat); (27, 8%nat)] =
  if n <? 2 ^ 64 then Ok (header major n) else Raise ValueError.
Proof.
  intros Hm Hn.
  assert (forall i, 0 <= i < 32 -> bytes_of_ints [Z.lor (Z.shiftl major 5) i] = Ok [z2b (32 * major + i)]) as Hb.
  { intros i Hi. rewrite lor_prefix by lia. unfold bytes_of_ints. cbn [forallb].
    rw_bool (0 <=? 32 * major + i) true. by rw_bool (32 * major + i <? 256) true. }
  assert (forall k, 0 <= n < 256 ^ Z.of_nat k -> to_bytes n k = Ok (be_bytes k n)) as Ht by (intros; by apply to_bytes_Ok).
  unfold header, info_of, width_of. rw_bool (n <? 24) false. cbn [cll02._head_loop].
  change (Z.shiftl 1 (8 * Z.of_nat 1)) with (2 ^ 8). change (Z.shiftl 1 (8 * Z.of_nat 2)) with (2 ^ 16).
  change (Z.shiftl 1 (8 * Z.of_nat 4)) with (2 ^ 32). change (Z.shiftl 1 (8 * Z.of_nat 8)) with (2 ^ 64).
  rewrite !Hb by lia.
  destruct (n <? 2 ^ 8) eqn:E1; zbool; [rw_bool (n <? 2 ^ 64) true; rewrite Ht by (cbn; lia); done|].
  destruct (n <? 2 ^ 16) eqn:E2; zbool; [rw_bool (n <? 2 ^ 64) true; rewrite Ht by (cbn; lia); done|].
  destruct (n <? 2 ^ 32) eqn:E3; zbool; [rw_bool (n <? 2 ^ 64) true; rewrite Ht by (cbn; lia); done|].
  destruct (n <? 2 ^ 64) eqn:E4; zbool; [rewrite Ht by (cbn; lia); done|done].
Qed.

Lemma head_eq major n :
  0 <= major < 8 -> 0 <= n ->
  cll02._head major n = if n <? 2 ^ 64 then Ok (header major n) else Raise ValueError.
Proof.
  intros Hm Hn. unfold cll02._head. destruct (n <? 24) eqn:E; zbool; [|by apply head_loop_eq].
  rw_bool (n <? 2 ^ 64) true. unfold header. destruct (info_small n ltac:(lia)) as [-> ->].
  rewrite lor_prefix by lia. unfold bytes_of_ints. cbn [forallb].
  rw_bool (0 <=? 32 * major + n) true. by rw_bool (32 * major + n <? 256) true.
Qed.

Lemma head_Ok major n : 0 <= major < 8 -> 0 <= n < 2 ^ 64 -> cll02._head major n = Ok (header major n).
Proof. intros. rewrite head_eq by lia. by rw_bool (n <? 2 ^ 64) true. Qed.

Lemma head_Ok_inv major n h :
  0 <= major < 8 -> 0 <= n -> cll02._head major n = Ok h -> h = header major n /\ n < 2 ^ 64.
Proof. intros Hm Hn. rewrite head_eq by done. destruct (n <? 2 ^ 64) eqn:E; zbool; [|done]. by intros [= <-]. Qed.

Lemma dec_argument_header data i major n r :
  0 <= i -> 0 <= major < 8 -> 0 <= n < 2 ^ 64 -> from data i = header major n ++ r ->
  exists ib, py_index data i = Ok ib /\ Z.shiftr (b2z ib) 5 = major /\
    cll02.dec_argument data ib (i + 1) = Ok (n, i + zlen (header major n)).
Proof.
  intros Hi Hm Hn E. destruct (from_header data i major n r Hi Hm Hn E) as (ib & Hib & Hmaj & Hinfo).
  exists ib. split_and!; [done|done|]. unfold cll02.dec_argument.
  change (Z.shiftr (b2z ib) 5) with (major_of (b2z ib)). change (Z.land (b2z ib) 0x1F) with (info_bits (b2z ib)).
  rewrite Hmaj, Hinfo. destruct (head_of_byte ib) as (Hhead & _ & _). rewrite Hmaj, Hinfo in Hhead.
  pose proof (from_end data i _ _ Hi E) as Hend.
  destruct (decide (n < 24)) as [Hs|Hs].
  { destruct (info_small n ltac:(lia)) as [Ei Ew]. rewrite Ei. rw_bool (n <? 24) true.
    unfold header. by rewrite Ei, Ew. }
  destruct (wide_exists n ltac:(lia)) as (k & least & Hw). destruct (wide_info n k least Hw) as (Ei & Ewid & _).
  pose proof Hw as (Hk & _ & _). rewrite Ei. rw_bool (24 + k <? 24) false.
  rewrite bool_decide_true by (assert (k = 0 \/ k = 1 \/ k = 2 \/ k = 3) as [->|[->|[->| ->]]] by lia; set_solver).
  replace (24 + k - 24) with k by lia. rewrite shiftl1, <- Ewid, Nat2Z.id by lia.
  unfold header in E, Hend. rewrite Ei in *. rewrite zlen_cons in Hend. unfold zlen in Hend at 1. rewrite length_be_bytes in Hend.
  rw_bool (zlen data <? i + 1 + Z.of_nat (width_of n)) false.
  pose proof (from_app data i [_] _ Hi E) as E1. change (zlen [_]) with 1 in E1.
  apply from_slice in E1; [|lia]. unfold zlen in E1 at 1. rewrite length_be_bytes in E1. rewrite E1.
  assert (0 <= n < 256 ^ Z.of_nat (width_of n)) as Hfit by (rewrite Ewid; destruct Hw; lia).
  rewrite from_be_bytes, head_Ok by done.
  rewrite (proj2 (to_bytes_Ok n (width_of n) _) (conj Hfit eq_refl)).
  unfold header. rewrite Ei, <- Hhead, bool_decide_true by done.
  rewrite zlen_cons. unfold zlen. rewrite length_be_bytes. do 2 f_equal. lia.
Qed.

(** An accepted head is the one the encoder writes. *)
Lemma dec_argument_inv data i ib n j :
  0 <= i -> py_index data i = Ok ib -> cll02.dec_argument data ib (i + 1) = Ok (n, j) ->
  let major := Z.shiftr (b2z ib) 5 in
  0 <= major < 8 /\ 0 <= n < 2 ^ 64 /\ from data i = header major n ++ from data j /\
  j = i + zlen (header major n) /\ j <= zlen data.
Proof.
  intros Hi Hib Hd major. destruct (head_of_byte ib) as (Hhead & Hm & Hr).
  change (major_of (b2z ib)) with major in *. destruct (from_index data i ib Hi Hib) as [E Hlt].
  unfold cll02.dec_argument in Hd. change (Z.shiftr (b2z ib) 5) with major in Hd.
  change (Z.land (b2z ib) 0x1F) with (info_bits (b2z ib)) in Hd. set (ai := info_bits (b2z ib)) in *.
  destruct (ai <? 24) eqn:Es; zbool.
  { injection Hd as <- <-. destruct (info_small ai ltac:(lia)) as [Ei Ew]. unfold header. rewrite Ei, Ew.
    cbn [be_bytes app]. rewrite <- Hhead. change (zlen [ib]) with 1. split_and!; (done || lia). }
  destruct (bool_decide _) eqn:Eai; [|done]. zbool. set (w := Z.shiftl 1 (ai - 24)) in *.
  destruct (zlen data <? i + 1 + w) eqn:El; [done|]. zbool.
  set (bs := py_slice data (i + 1) (i + 1 + w)) in *. pose proof (from_bytes_range bs).
  assert (24 <= ai <= 27) by set_solver by lia.
  assert (0 < w) by (unfold w; rewrite shiftl1 by lia; apply Z.pow_pos_nonneg; lia).
  destruct (cll02._head major (from_bytes bs)) as [h|] eqn:Eh; [|done].
  apply head_Ok_inv in Eh as [-> Hn64]; [|done|lia].
  destruct (to_bytes _ _) as [written|] eqn:Et; [|done]. apply to_bytes_Ok in Et as [_ ->].
  destruct (bool_decide _) eqn:Eq; [|done]. zbool. injection Hd as <- <-.
  destruct (slice_from data (i + 1) (i + 1 + w) ltac:(lia) El) as [Esl Hlen]. fold bs in Esl, Hlen.
  replace (i + 1 + w - (i + 1)) with w in Hlen by lia.
  rewrite Eq, E, Esl. replace (Z.to_nat w) with (length bs) by (unfold zlen in Hlen; lia). rewrite be_from_bytes.
  rewrite zlen_cons, Hlen. split_and!; (done || lia).
Qed.

(** ** Encoding of containers *)
Definition cbor_entry (e : pyval * pyval) : result (bytes * bytes) :=
  let! kb := cll02.cbor e.1 in let! xb := cll02.cbor e.2 in Ok (kb, xb).

Lemma cbor_list_eq l :
  cll02.cbor (PList l) =
  (let! h := cll02._head 4 (zlen l) in let! bs := map_result cll02.cbor l in Ok (h ++ concat bs)).
Proof.
  cbn [cll02.cbor]. destruct (cll02._head 4 (zlen l)); [|done].
  match goal with |- match ?f l with _ => _ end = _ => assert (f l = map_result cll02.cbor l) as ->; [|done] end.
  induction l as [|x l IH]; [done|]. cbn [map_result]. by rewrite <- IH.
Qed.

Lemma cbor_dict_eq d :
  cll02.cbor (PDict d) =
  (let! es := map_result cbor_entry d in
   let items := merge_sort cll02.entry_le es in
   let! h := cll02._head 5 (zlen items) in
   Ok (h ++ concat (map (fun e => e.1 ++ e.2) items))).
Proof.
  cbn [cll02.cbor].
  match goal with |- match ?f d with _ => _ end = _ => assert (f d = map_result cbor_entry d) as -> end.
  { induction d as [|[k x] d IH]; [done|]. cbn [map_result]. unfold cbor_entry at 1. cbn [fst snd].
    destruct (cll02.cbor k), (cll02.cbor x); try done. by rewrite <- IH. }
  destruct (map_result cbor_entry d) as [es|]; [|done]. cbv zeta. destruct (cll02._head _ _); [|done].
  do 3 f_equal. apply map_ext. by intros [].
Qed.

#[export] Instance entry_le_total : Total cll02.entry_le.
Proof.
  intros [k x] [l y]. unfold cll02.entry_le. cbn [fst snd]. destruct (decide (k = l)) as [->|Hne].
  - destruct (bytes_leb_total x y); tauto.
  - destruct (bytes_leb_total k l); [left|right]; left; (split; [congruence|done]).
Qed.
#[export] Instance entry_le_trans : Transitive cll02.entry_le.
Proof.
  intros [k x] [l y] [m z]. unfold cll02.entry_le. cbn [fst snd]. intros [[H1 H2]|[-> H2]] [[H3 H4]|[-> H4]].
  - left. split; [|by eapply bytes_leb_trans]. intros ->. by apply H1, bytes_leb_antisym.
  - by left.
  - by left.
  - right. split; [done|]. by eapply bytes_leb_trans.
Qed.
#[export] Instance entry_le_antisym : AntiSymm eq cll02.entry_le.
Proof.
  intros [k x] [l y]. unfold cll02.entry_le. cbn [fst snd]. intros [[H1 H2]|[-> H2]] [[H3 H4]|[H3 H4]]; try congruence.
  - destruct H1. by apply bytes_leb_antisym.
  - f_equal. by apply bytes_leb_antisym.
Qed.

(** [kb] comes strictly before [lb]. *)
Definition before (kb lb : bytes) : Prop := bytes_leb lb kb = false.

Lemma before_le kb lb : before kb lb -> kb <> lb /\ bytes_leb kb lb = true.
Proof.
  unfold before. intros H. destruct (bytes_leb_total kb lb) as [E|E]; [|congruence].
  split; [|done]. intros ->. congruence.
Qed.

Lemma before_trans kb lb mb : before kb lb -> before lb mb -> before kb mb.
Proof.
  intros H1 H2. unfold before. destruct (bytes_leb mb kb) eqn:E; [|done].
  pose proof (bytes_leb_trans mb kb lb E (proj2 (before_le _ _ H1))). unfold before in H2. congruence.
Qed.

Lemma sorted_entries es : StronglySorted before (map fst es) -> merge_sort cll02.entry_le es = es.
Proof.
  intros Hs. apply (StronglySorted_unique cll02.entry_le).
  - apply StronglySorted_merge_sort; apply _.
  - induction es as [|[k x] es IH]; [constructor|]. cbn [map] in Hs. inversion Hs as [|?? Hs' Hk]; subst.
    constructor; [by apply IH|]. apply Forall_forall. intros [l y] Hin.
    left. cbn [fst]. apply before_le. eapply Forall_forall; [exact Hk|]. apply list_elem_of_fmap. by exists (l, y).
  - apply merge_sort_Permutation.
Qed.

(** ** Canonical values

    What [decode] can return: dictionaries in the order of their encoded keys,
    all different, with keys Python can hash. *)
Inductive canonical : pyval -> Prop :=
| canonical_int n : canonical (PInt n)
| canonical_bytes bs : canonical (PBytes bs)
| canonical_str s : canonical (PStr s)
| canonical_list l : Forall canonical l -> canonical (PList l)
| canonical_dict d es :
    Forall (fun e => cll02.hashable e.1 = true /\ canonical e.1 /\ canonical e.2) d ->
    map_result cbor_entry d = Ok es -> StronglySorted before (map fst es) -> canonical (PDict d).

(** A value whose nesting stays within [room] levels. *)
Fixpoint fits (room : nat) (v : pyval) : Prop :=
  match room with
  | O => False
  | S room =>
      match v with
      | PList l => Forall (fits room) l
      | PDict d => Forall (fun e => fits room e.1 /\ fits room e.2) d
      | _ => True
      end
  end.

(** A canonical key equal to another by [==] is the same value. *)
Lemma key_eq k l :
  canonical k -> canonical l -> cll02.hashable k = true -> cll02.hashable l = true -> py_eq k l = true -> k = l.
Proof.
  intros Hk Hl Hhk Hhl E. destruct Hk, Hl; try done; cbn in Hhk, Hhl; try done.
  - rewrite py_eq_int in E. zbool. by subst.
  - cbn in E. zbool. by subst.
  - rewrite py_eq_str in E. zbool. by subst.
Qed.

Lemma dict_put_fresh d k x :
  Forall (fun e => py_eq e.1 k = false) d -> cll02.dict_put d k x = d ++ [(k, x)].
Proof. induction 1 as [|[k' x'] d He Hd IH]; [done|]. cbn [cll02.dict_put app fst] in *. by rewrite He, IH. Qed.

(** ** Reading what was written *)
Section complete.
Context (b : bytes) (dec : Z -> result (pyval * Z)) (ok : pyval -> Prop).
Hypothesis dec_ok : forall i v bs r,
  0 <= i -> ok v -> cll02.cbor v = Ok bs -> from b i = bs ++ r -> dec i = Ok (v, i + zlen bs).

Lemma dec_items_complete l bss i r out :
  0 <= i -> Forall ok l -> map_result cll02.cbor l = Ok bss -> from b i = concat bss ++ r ->
  cll02.dec_items dec (length l) i out = Ok (out ++ l, i + zlen (concat bss)).
Proof.
  intros Hi Hl. revert bss i out Hi. induction Hl as [|x l Hx Hl IH]; intros bss i out Hi Hb E.
  { injection Hb as <-. cbn. by rewrite app_nil_r, Z.add_0_r. }
  apply map_result_cons_Ok in Hb as (xb & bs & Hxb & Hbs & ->). cbn [concat] in *. rewrite <- app_assoc in E.
  cbn [length cll02.dec_items]. rewrite (dec_ok i x xb _ Hi Hx Hxb E). pose proof (zlen_nonneg xb).
  apply from_app in E; [|done]. rewrite (IH bs) by (done || lia).
  rewrite <- app_assoc, zlen_app. do 2 f_equal. lia.
Qed.

Lemma dec_entries_complete d es i r out prev :
  0 <= i ->
  Forall (fun e => cll02.hashable e.1 = true /\ canonical e.1 /\ ok e.1 /\ ok e.2) d ->
  map_result cbor_entry d = Ok es -> StronglySorted before (map fst es) ->
  Forall (fun e => cll02.hashable e.1 = true /\ canonical e.1 /\
    exists kb, cll02.cbor e.1 = Ok kb /\ Forall (before kb) (map fst es)) out ->
  match prev with Some p => Forall (before p) (map fst es) | None => True end ->
  from b i = concat (map (fun e => e.1 ++ e.2) es) ++ r ->
  cll02.dec_entries b dec (length d) i out prev = Ok (out ++ d, i + zlen (concat (map (fun e => e.1 ++ e.2) es))).
Proof.
  intros Hi Hd. revert es i out prev Hi. induction Hd as [|[k x] d (Hh & Hc & Hk & Hx) Hd IH];
    intros es i out prev Hi Hes Hs Hout Hprev E.
  { injection Hes as <-. cbn. by rewrite app_nil_r, Z.add_0_r. }
  apply map_result_cons_Ok in Hes as ([kb xb] & es' & He & Hes & ->). unfold cbor_entry in He. cbn [fst snd] in *.
  destruct (cll02.cbor k) as [kb'|] eqn:Ek; [|done]. destruct (cll02.cbor x) as [xb'|] eqn:Ex; [|done].
  injection He as -> ->. cbn [map concat fst snd] in *. rewrite <- !app_assoc in E.
  cbn [length cll02.dec_entries]. rewrite (dec_ok i k kb _ Hi Hk Ek E), (from_slice b i kb _ Hi E).
  replace (match prev with Some p => bytes_leb kb p | None => false end) with false
    by (destruct prev as [p|]; [by apply Forall_inv in Hprev|done]).
  pose proof (zlen_nonneg kb). pose proof (zlen_nonneg xb). apply from_app in E; [|done].
  rewrite (dec_ok (i + zlen kb) x xb _ ltac:(lia) Hx Ex E). apply from_app in E; [|lia].
  unfold cll02.dict_store. rewrite Hh. inversion Hs as [|?? Hs' Hafter]; subst.
  rewrite dict_put_fresh; cycle 1.
  { eapply Forall_impl; [exact Hout|]. intros e (Hhe & Hce & kb' & Hkb' & Hb).
    destruct (py_eq e.1 k) eqn:Eq; [|done]. apply key_eq in Eq as Eq'; [|done..]. apply Forall_inv in Hb.
    rewrite Eq', Ek in Hkb'. injection Hkb' as <-. by destruct (before_le _ _ Hb). }
  rewrite (IH es'); [| |done|done| |done|done].
  - rewrite <- app_assoc, !zlen_app. do 2 f_equal. lia.
  - lia.
  - apply Forall_app. split.
    + eapply Forall_impl; [exact Hout|]. intros e (? & ? & kb' & ? & Hb). split_and!; [done|done|].
      exists kb'. split; [done|]. by inversion Hb.
    + repeat constructor; [done|done|]. exists kb. done.
Qed.
End complete.

Lemma initial_offset major n : 0 <= n < 2 ^ 64 -> 1 <= zlen (header major n).
Proof. intros. apply zlen_header. Qed.

Lemma map_result_zlen {A B} (f : A -> result B) l k : map_result f l = Ok k -> zlen k = zlen l.
Proof. intros H%map_result_length. unfold zlen. lia. Qed.

Lemma dec_complete room b i v bs r :
  0 <= i -> fits room v -> canonical v -> cll02.cbor v = Ok bs -> from b i = bs ++ r ->
  cll02._dec room b i = Ok (v, i + zlen bs).
Proof.
  revert i v bs r. induction room as [|room IH]; intros i v bs r Hi Hfit Hcan Hbs E; [done|].
  assert (forall major n body, bs = header major n ++ body -> 0 <= major < 8 -> 0 <= n < 2 ^ 64 ->
    exists ib, (zlen b <=? i) = false /\ py_index b i = Ok ib /\ Z.shiftr (b2z ib) 5 = major /\
      cll02.dec_argument b ib (i + 1) = Ok (n, i + zlen (header major n)) /\
      from b (i + zlen (header major n)) = body ++ r /\ i + zlen (header major n) + zlen body <= zlen b /\
      zlen (header major n) + zlen body = zlen bs) as Hhead.
  { intros major n body -> Hm Hn. pose proof (from_end b i _ _ Hi E) as Hend. rewrite zlen_app in Hend.
    pose proof (zlen_header major n). pose proof (zlen_nonneg body). rewrite <- app_assoc in E.
    destruct (dec_argument_header b i major n _ Hi Hm Hn E) as (ib & Hib & Hmaj & Hd). exists ib.
    destruct (from_index b i ib Hi Hib) as [_ Hlt]. rw_bool (zlen b <=? i) false.
    split_and!; [done|done|done|done|by apply from_app in E|lia|by rewrite zlen_app]. }
  cbn [cll02._dec]. destruct Hcan as [n|s|s|l Hl|d es Hd Hes Hsort].
  - cbn [cll02.cbor] in Hbs. destruct (0 <=? n) eqn:En; zbool; apply head_Ok_inv in Hbs as [Hbs Hlt]; try lia.
    + destruct (Hhead 0 n [] ltac:(by rewrite app_nil_r) ltac:(lia) ltac:(lia)) as (ib & -> & -> & -> & -> & _ & _ & <-).
      by rewrite (Z.add_0_r (zlen _)).
    + destruct (Hhead 1 (-1 - n) [] ltac:(by rewrite app_nil_r) ltac:(lia) ltac:(lia)) as (ib & -> & -> & -> & -> & _ & _ & <-).
      rewrite (Z.add_0_r (zlen _)). cbn [Z.eqb]. by replace (-1 - (-1 - n)) with n by lia.
  - cbn [cll02.cbor] in Hbs. destruct (cll02._head 2 (zlen s)) as [h|] eqn:Eh; [|done]. injection Hbs as Hbs.
    apply head_Ok_inv in Eh as [-> Hlt]; [|lia|apply zlen_nonneg]. pose proof (zlen_nonneg s).
    destruct (Hhead 2 (zlen s) s (eq_sym Hbs) ltac:(lia) ltac:(lia)) as (ib & -> & -> & -> & -> & Er & Hend & <-).
    pose proof (zlen_header 2 (zlen s)). cbn [Z.eqb]. rewrite bool_decide_true by set_solver.
    pose proof Er as Hsl. apply from_slice in Hsl; [|lia].
    rw_bool (zlen b <? i + zlen (header 2 (zlen s)) + zlen s) false.
    rewrite Hsl. by rewrite Z.add_assoc.
  - cbn [cll02.cbor] in Hbs. destruct (utf8_encode s) as [t|] eqn:Et; [|done].
    destruct (cll02._head 3 (zlen t)) as [h|] eqn:Eh; [|done]. injection Hbs as Hbs.
    apply head_Ok_inv in Eh as [-> Hlt]; [|lia|apply zlen_nonneg]. pose proof (zlen_nonneg t).
    destruct (Hhead 3 (zlen t) t (eq_sym Hbs) ltac:(lia) ltac:(lia)) as (ib & -> & -> & -> & -> & Er & Hend & <-).
    pose proof (zlen_header 3 (zlen t)). cbn [Z.eqb Pos.eqb]. rewrite bool_decide_true by set_solver.
    pose proof Er as Hsl. apply from_slice in Hsl; [|lia].
    rw_bool (zlen b <? i + zlen (header 3 (zlen t)) + zlen t) false.
    rewrite Hsl, (utf8_roundtrip s t Et). by rewrite Z.add_assoc.
  - rewrite cbor_list_eq in Hbs. destruct (cll02._head 4 (zlen l)) as [h|] eqn:Eh; [|done].
    destruct (map_result cll02.cbor l) as [bss|] eqn:Ebss; [|done]. injection Hbs as Hbs.
    apply head_Ok_inv in Eh as [-> Hlt]; [|lia|apply zlen_nonneg]. pose proof (zlen_nonneg l).
    destruct (Hhead 4 (zlen l) (concat bss) (eq_sym Hbs) ltac:(lia) ltac:(lia)) as (ib & -> & -> & -> & -> & Er & Hend & <-).
    pose proof (zlen_header 4 (zlen l)). cbn [Z.eqb Pos.eqb]. rewrite bool_decide_false by set_solver.
    rewrite zlen_to_nat. cbn [fits] in Hfit.
    rewrite (dec_items_complete b (cll02._dec room b) (fun v => fits room v /\ canonical v) ltac:(naive_solver) l bss _ r []);
      [|lia|by apply Forall_and|done|done]. by rewrite Z.add_assoc.
  - rewrite cbor_dict_eq, Hes, sorted_entries in Hbs by done. cbv zeta in Hbs.
    destruct (cll02._head 5 (zlen es)) as [h|] eqn:Eh; [|done]. injection Hbs as Hbs.
    apply head_Ok_inv in Eh as [-> Hlt]; [|lia|apply zlen_nonneg]. pose proof (zlen_nonneg es).
    destruct (Hhead 5 (zlen es) _ (eq_sym Hbs) ltac:(lia) ltac:(lia)) as (ib & -> & -> & -> & -> & Er & Hend & <-).
    pose proof (zlen_header 5 (zlen es)). cbn [Z.eqb Pos.eqb]. rewrite bool_decide_false by set_solver.
    rewrite (map_result_zlen _ _ _ Hes), zlen_to_nat. rewrite (map_result_zlen _ _ _ Hes) in *. cbn [fits] in Hfit.
    rewrite (dec_entries_complete b (cll02._dec room b) (fun v => fits room v /\ canonical v) ltac:(naive_solver) d es _ r [] None);
      [by rewrite Z.add_assoc|lia| |done|done|constructor|done|done].
    apply Forall_forall. intros e He. rewrite Forall_forall in Hd, Hfit.
    destruct (Hd e He) as (? & ? & ?), (Hfit e He). split_and!; done.
Qed.

(** ** What was read is what would be written *)

(** [v] was read from [i] to [j]: the bytes there are its encoding. *)
Definition reads (b : bytes) (i j : Z) (bs : bytes) : Prop :=
  from b i = bs ++ from b j /\ j = i + zlen bs /\ j <= zlen b.

Lemma reads_slice b i j bs : 0 <= i -> reads b i j bs -> py_slice b i j = bs.
Proof. intros Hi (E & -> & _). by apply (from_slice b i bs (from b (i + zlen bs))). Qed.

Lemma reads_app b i j k x y : reads b i j x -> reads b j k y -> reads b i k (x ++ y).
Proof. intros (E1 & -> & _) (E2 & -> & ?). split_and!; [by rewrite E1, E2, app_assoc|rewrite zlen_app; lia|done]. Qed.

Lemma reads_nil b i : i <= zlen b -> reads b i i [].
Proof. intros. split_and!; [done|rewrite zlen_nil; lia|done]. Qed.

Section sound.
Context (b : bytes) (dec : Z -> result (pyval * Z)) (ok : pyval -> Prop).
Hypothesis dec_ok : forall i v j,
  0 <= i -> dec i = Ok (v, j) -> ok v /\ canonical v /\ exists bs, cll02.cbor v = Ok bs /\ reads b i j bs.

Lemma dec_items_sound n i out l j :
  0 <= i <= zlen b -> cll02.dec_items dec n i out = Ok (l, j) ->
  exists l' bss, l = out ++ l' /\ length l' = n /\ Forall ok l' /\ Forall canonical l' /\
    map_result cll02.cbor l' = Ok bss /\ reads b i j (concat bss).
Proof.
  revert i out. induction n as [|n IH]; intros i out Hi; cbn [cll02.dec_items].
  { intros [= <- <-]. exists [], []. rewrite app_nil_r.
    split_and!; [done|done|constructor|constructor|done|apply reads_nil; lia]. }
  destruct (dec i) as [[x k]|] eqn:Ed; [|done]. apply dec_ok in Ed as (Hx & Hcx & xb & Exb & Hr); [|lia].
  intros H. pose proof Hr as (_ & Hk & ?). pose proof (zlen_nonneg xb).
  apply IH in H as (l' & bss & -> & Hlen & Hl & Hcl & Eb & Hr'); [|lia].
  exists (x :: l'), (xb :: bss). rewrite <- app_assoc. cbn [map_result concat length]. rewrite Exb, Eb.
  split_and!; [done|lia|by constructor|by constructor|done|by eapply reads_app].
Qed.

(** The keys read so far come before [p] or end with it. *)
Definition up_to (p : option bytes) (e : pyval * pyval) : Prop :=
  cll02.hashable e.1 = true /\ canonical e.1 /\
  exists kb, cll02.cbor e.1 = Ok kb /\ match p with Some p => kb = p \/ before kb p | None => False end.

Lemma dec_entries_sound n i out prev d j :
  0 <= i <= zlen b -> Forall (up_to prev) out -> cll02.dec_entries b dec n i out prev = Ok (d, j) ->
  exists d' es, d = out ++ d' /\ length d' = n /\
    Forall (fun e => ok e.1 /\ ok e.2) d' /\
    Forall (fun e => cll02.hashable e.1 = true /\ canonical e.1 /\ canonical e.2) d' /\
    map_result cbor_entry d' = Ok es /\ StronglySorted before (map fst es) /\
    match prev with Some p => Forall (before p) (map fst es) | None => True end /\
    reads b i j (concat (map (fun e => e.1 ++ e.2) es)).
Proof.
  revert i out prev. induction n as [|n IH]; intros i out prev Hi Hout; cbn [cll02.dec_entries].
  { intros [= <- <-]. exists [], []. rewrite app_nil_r.
    split_and!; [done|done|constructor|constructor|done|constructor|by destruct prev|apply reads_nil; lia]. }
  destruct (dec i) as [[k i1]|] eqn:Ek; [|done]. apply dec_ok in Ek as (Hk & Hck & kb & Ekb & Hrk); [|lia].
  rewrite (reads_slice b i i1 kb) by (done || lia). pose proof Hrk as (_ & Hi1 & ?). pose proof (zlen_nonneg kb).
  destruct (match prev with Some p => bytes_leb kb p | None => false end) eqn:Eprev; [done|].
  destruct (dec i1) as [[x i2]|] eqn:Ex; [|done]. apply dec_ok in Ex as (Hx & Hcx & xb & Exb & Hrx); [|lia].
  unfold cll02.dict_store. destruct (cll02.hashable k) eqn:Ehash; [|done].
  assert (Forall (fun e => up_to (Some kb) e /\ py_eq e.1 k = false) out) as Hout'.
  { eapply Forall_impl; [exact Hout|]. intros e (Hhe & Hce & eb & Eeb & Hb).
    destruct prev as [p|]; [|done]. assert (before eb kb) as Hlt by (destruct Hb as [->|Hb]; [done|by eapply before_trans]).
    split; [split_and!; [done|done|eauto]|]. destruct (py_eq e.1 k) eqn:Eq; [|done].
    apply key_eq in Eq; [|done..]. rewrite Eq, Ekb in Eeb. injection Eeb as <-. by destruct (before_le _ _ Hlt). }
  apply Forall_and in Hout' as [Hup Hfresh]. rewrite dict_put_fresh by done. intros Hrest.
  pose proof Hrx as (_ & Hi2 & ?). pose proof (zlen_nonneg xb).
  apply IH in Hrest as (d' & es & -> & Hlen & Hd & Hc & Ees & Hs & Hp & Hr); [|lia|].
  2: { apply Forall_app. split; [done|]. repeat constructor; [done|done|eauto]. }
  exists ((k, x) :: d'), ((kb, xb) :: es). rewrite <- app_assoc. cbn [map_result concat map length fst snd].
  unfold cbor_entry at 1. cbn [fst snd]. rewrite Ekb, Exb, Ees.
  split_and!; [done|lia|by constructor|by constructor|done|by constructor| |].
  - destruct prev as [p|]; [|done]. constructor; [done|]. eapply Forall_impl; [exact Hp|].
    intros y Hy. by eapply before_trans.
  - eapply reads_app; [by eapply reads_app|done].
Qed.
End sound.

Lemma reads_header b i j k major n bs :
  from b i = header major n ++ from b k -> k = i + zlen (header major n) -> reads b k j bs ->
  reads b i j (header major n ++ bs).
Proof. intros E -> (E2 & -> & ?). split_and!; [by rewrite E, E2, app_assoc|rewrite zlen_app; lia|done]. Qed.

Lemma dec_sound room b i v j :
  0 <= i -> cll02._dec room b i = Ok (v, j) ->
  fits room v /\ canonical v /\ exists bs, cll02.cbor v = Ok bs /\ reads b i j bs.
Proof.
  revert i v j. induction room as [|room IH]; intros i v j Hi; cbn [cll02._dec]; [done|].
  destruct (zlen b <=? i); [done|]. destruct (py_index b i) as [ib|] eqn:Eib; [|done].
  destruct (cll02.dec_argument b ib (i + 1)) as [[n k]|] eqn:Ed; [|done].
  apply dec_argument_inv in Ed as (Hmaj & Hn & Eh & Hk & Hkb); [|done..].
  set (major := Z.shiftr (b2z ib) 5) in *. pose proof (zlen_header major n).
  assert (reads b i k (header major n)) as Hrh by (split_and!; done).
  destruct (Z.eqb_spec major 0) as [E0|E0].
  { intros [= <- <-]. split; [done|]. split; [constructor|]. exists (header 0 n). rewrite <- E0 at 2. split; [|done].
    cbn [cll02.cbor]. rw_bool (0 <=? n) true. by rewrite head_Ok by lia. }
  destruct (Z.eqb_spec major 1) as [E1|E1].
  { intros [= <- <-]. split; [done|]. split; [constructor|]. exists (header 1 n). rewrite <- E1 at 2. split; [|done].
    cbn [cll02.cbor]. rw_bool (0 <=? -1 - n) false. replace (-1 - (-1 - n)) with n by lia. by rewrite head_Ok by lia. }
  destruct (bool_decide (major ∈ [2; 3])) eqn:E23; zbool.
  { destruct (zlen b <? k + n) eqn:El; [done|]. zbool.
    destruct (slice_from b k (k + n) ltac:(lia) El) as [Es Hlen]. set (s := py_slice b k (k + n)) in *.
    replace (k + n - k) with n in Hlen by lia.
    assert (reads b i (k + n) (header major n ++ s)) as Hr.
    { eapply reads_header; [done|done|]. split_and!; [done|by rewrite Hlen|done]. }
    destruct (Z.eqb_spec major 2) as [E2|E2].
    - intros [= <- <-]. split; [done|]. split; [constructor|]. exists (header 2 n ++ s).
      cbn [cll02.cbor]. rewrite Hlen, head_Ok by lia. by rewrite E2 in Hr.
    - assert (major = 3) as E3 by set_solver. destruct (utf8_decode s) as [t|] eqn:Et; [|done].
      intros [= <- <-]. split; [done|]. split; [constructor|]. exists (header 3 n ++ s).
      cbn [cll02.cbor]. rewrite (utf8_decode_encode s t Et), Hlen, head_Ok by lia. by rewrite E3 in Hr. }
  destruct (Z.eqb_spec major 4) as [E4|E4].
  { destruct (cll02.dec_items _ _ _ _) as [[l j']|] eqn:El; [|done]. intros [= <- <-].
    apply (dec_items_sound b _ (fits room) IH) in El as (l' & bss & -> & Hlen & Hl & Hcl & Eb & Hr); [|lia].
    split; [done|]. split; [by constructor|]. exists (header 4 n ++ concat bss). cbn [app].
    rewrite cbor_list_eq. replace (zlen l') with n by (unfold zlen; lia). rewrite head_Ok, Eb by lia.
    split; [done|]. rewrite <- E4. by eapply reads_header. }
  destruct (Z.eqb_spec major 5) as [E5|E5]; [|done].
  destruct (cll02.dec_entries _ _ _ _ _ _) as [[d j']|] eqn:El; [|done]. intros [= <- <-].
  apply (dec_entries_sound b _ (fits room) IH) in El as (d' & es & -> & Hlen & Hd & Hc & Ees & Hs & _ & Hr);
    [|lia|constructor].
  split; [done|]. split; [by econstructor|]. exists (header 5 n ++ concat (map (fun e => e.1 ++ e.2) es)). cbn [app].
  rewrite cbor_dict_eq, Ees, sorted_entries by done. cbv zeta.
  replace (zlen es) with n by (rewrite (map_result_zlen _ _ _ Ees); unfold zlen; lia). rewrite head_Ok by lia.
  split; [done|]. rewrite <- E5. by eapply reads_header.
Qed.

(** [C38] The CBOR of the reference is a bijection: [decode] returns a value
    exactly when the bytes are the encoding [cbor] writes of it, the value is
    canonical (dictionaries in the order of their encoded keys, no two equal,
    keys hashable, texts and numbers in range) and its nesting is within what
    the recursion allows. So no value has two encodings, nothing else is
    accepted, and what is encoded is decoded to the same value. *)
Theorem draft02_cbor_canonical (room : nat) (b : bytes) (v : pyval) :
  cll02.decode room b = Ok v <-> canonical v /\ fits room v /\ cll02.cbor v = Ok b.
Proof.
  unfold cll02.decode. split.
  - destruct (cll02._dec room b 0) as [[w j]|] eqn:Ed; [|done]. destruct (negb _) eqn:Ej; [done|]. zbool.
    intros [= <-]. apply dec_sound in Ed as (Hf & Hc & bs & Ebs & E & Hj & _); [|done].
    split_and!; [done|done|]. rewrite Ebs. f_equal. rewrite from_0, Ej in E.
    assert (from b (zlen b) = []) as Hend.
    { unfold from, zlen. rewrite Nat2Z.id. apply drop_ge. lia. }
    by rewrite Hend, app_nil_r in E.
  - intros (Hc & Hf & Hb). rewrite (dec_complete room b 0 v b []) by (done || by rewrite from_0, app_nil_r).
    by rewrite Z.add_0_l, Z.eqb_refl.
Qed.

(** A map of a text to two integers, one of them negative. *)
Lemma draft02_cbor_canonical_witness :
  let b := map z2b [0xA1; 0x61; 0x6B; 0x82; 0x18; 0x2A; 0x20] in
  cll02.decode 3 b = Ok (PDict [(PStr (str "k"), PList [PInt 42; PInt (-1)])]).
Proof.
  intros b. apply draft02_cbor_canonical. split_and!; [|cbn; repeat constructor|reflexivity].
  apply (canonical_dict _ [(map z2b [0x61; 0x6B], map z2b [0x82; 0x18; 0x2A; 0x20])]).
  - repeat constructor.
  - reflexivity.
  - repeat constructor.
Defined.
