(* ===== verification/Cll02Props.v ===== *)
(** * The -02 checkpoint: what the producer writes and the verifier accepts

    Every checkpoint the producer of [generate.py] makes of a log is decoded,
    checked and registered; the registered checkpoints of a log identity are
    those of prefixes of one log, or a hash collision is exhibited; and the log
    is the one the package builds, with the same proofs. *)
From S2P Require Import Prelude Bytes Text Py Sha256 MmrPos Mmr MmrSpec MmrProof MmrPath Inclusion.
From S2P Require Import Consistency Commitment Cbor Profile ProfileProps Cll02 Cll02Cbor.
From stdpp Require Import sorting.
Open Scope Z_scope.

(** ** Commitments *)
Lemma digests_concat_inj (l k : list bytes) :
  Forall is_digest l -> Forall is_digest k -> concat l = concat k -> l = k.
Proof.
  intros Hl. revert k. induction Hl as [|x l Hx Hl IH]; intros k Hk E.
  { destruct Hk as [|y k Hy _]; [done|]. destruct y; done. }
  destruct Hk as [|y k Hy Hk]; [destruct x; done|]. cbn [concat] in E.
  apply app_inj_1 in E as [-> E]; [|unfold is_digest in *; congruence]. f_equal. by apply IH.
Qed.

Lemma zlen_concat_digests (l : list bytes) : Forall is_digest l -> zlen (concat l) = 32 * zlen l.
Proof.
  induction 1 as [|x l Hx Hl IH]; [done|]. cbn [concat]. rewrite zlen_app, zlen_cons, IH.
  unfold is_digest in Hx. unfold zlen at 1. rewrite Hx. lia.
Qed.

(** [split_commitment] cuts a commitment of the right length into digests. *)
Lemma split_commitment_spec (n : nat) c :
  zlen c = 32 * Z.of_nat n ->
  length (cll02.split_commitment c) = n /\ Forall is_digest (cll02.split_commitment c) /\
  concat (cll02.split_commitment c) = c.
Proof.
  intros Hc. unfold cll02.split_commitment, cll02.HASH_LEN.
  replace ((zlen c + 31) / 32) with (Z.of_nat n); cycle 1.
  { rewrite Hc. apply (Z.div_unique _ _ _ 31); lia. }
  split_and!.
  - by rewrite length_map, length_seqZ, Nat2Z.id.
  - apply Forall_map, Forall_forall. intros i Hi. apply elem_of_seqZ in Hi.
    destruct (slice_from c (32 * i) (32 * i + 32) ltac:(lia) ltac:(lia)) as [_ Hl].
    unfold is_digest. unfold zlen in Hl. lia.
  - assert (forall (m : nat) k, 0 <= k -> 32 * (k + Z.of_nat m) = zlen c ->
      concat (map (fun i => py_slice c (32 * i) (32 * i + 32)) (seqZ k (Z.of_nat m))) = from c (32 * k)) as Hgen.
    { induction m as [|m IH]; intros k Hk Hm.
      - unfold from. cbn. symmetry. apply drop_ge. unfold zlen in Hm. lia.
      - rewrite seqZ_cons by lia. cbn [map concat].
        destruct (slice_from c (32 * k) (32 * k + 32) ltac:(lia) ltac:(lia)) as [-> _]. f_equal.
        replace (Z.pred (Z.of_nat (S m))) with (Z.of_nat m) by lia. rewrite IH by lia. f_equal. lia. }
    rewrite Hgen by lia. apply from_0.
Qed.

Lemma split_commitment_concat l : Forall is_digest l -> cll02.split_commitment (concat l) = l.
Proof.
  intros Hl. destruct (split_commitment_spec (length l) (concat l)) as (_ & Hd & E).
  { rewrite zlen_concat_digests by done. done. }
  by apply digests_concat_inj.
Qed.

Lemma commitment_bytes l : cll02.commitment (map PBytes l) = Ok (concat l).
Proof.
  unfold cll02.commitment. assert (mapM as_buffer (map PBytes l) = Some l) as ->; [|done].
  induction l as [|x l IH]; [done|]. cbn [map mapM]. change (mapM as_buffer (map PBytes l)) with (mapM as_buffer (map PBytes l)).
  cbn. by rewrite IH.
Qed.

Lemma commitment_Ok_inv peaks c :
  cll02.commitment peaks = Ok c -> exists l, map as_buffer peaks = map Some l /\ c = concat l.
Proof.
  unfold cll02.commitment. destruct (mapM as_buffer peaks) as [l|] eqn:E; [|done]. intros [= <-]. exists l. split; [|done].
  apply mapM_Some in E. induction E as [|x y peaks l Hx _ IH]; [done|]. cbn [map]. by rewrite Hx, IH.
Qed.

(** ** The log *)
Section log.
Context {HL : Hashlib}.
Implicit Types leaves entries : list bytes.

Lemma leaf_value_digest entry : is_digest entry -> cll02.leaf_value entry = Ok (lh entry).
Proof.
  intros He. unfold cll02.leaf_value, cll02.HASH_LEN, lh. unfold is_digest in He. unfold zlen. by rewrite He.
Qed.

(** The sizes of all the prefixes of [n] entries. *)
Definition log_sizes (n : nat) : list Z := map (fun k => nc (Z.of_nat k)) (seq 0 (S n)).

Lemma log_sizes_S n : log_sizes (S n) = log_sizes n ++ [nc (Z.of_nat (S n))].
Proof. unfold log_sizes. rewrite (seq_S (S n)), map_app. done. Qed.

Lemma log_sizes_lookup n k : 0 <= k <= Z.of_nat n -> py_index (log_sizes n) k = Ok (nc k).
Proof.
  intros Hk. rewrite py_index_nonneg by lia. unfold log_sizes. rewrite list_lookup_fmap, lookup_seq_lt by lia.
  cbn. by rewrite Z2Nat.id by lia.
Qed.

Lemma build_loop_spec db leaves entries :
  represents (pm.nodes db) leaves -> Forall is_digest entries -> nc (zlen leaves + zlen entries) < 2 ^ 64 ->
  exists db', cll02.build_loop db (log_sizes (length leaves)) entries =
    Ok (db', log_sizes (length leaves + length entries)) /\
    represents (pm.nodes db') (leaves ++ map lh entries).
Proof.
  intros Hrep He. revert db leaves Hrep. induction He as [|e entries He Hes IH]; intros db leaves Hrep Hmax.
  { exists db. cbn [cll02.build_loop map length]. by rewrite app_nil_r, Nat.add_0_r. }
  pose proof (zlen_nonneg leaves). pose proof (zlen_nonneg entries). rewrite zlen_cons in Hmax.
  pose proof (nc_mono (zlen leaves + 1) (zlen leaves + (1 + zlen entries)) ltac:(lia)).
  cbn [cll02.build_loop]. rewrite leaf_value_digest by done.
  destruct (add_leaf_hash_represents db leaves (lh e) Hrep (lh_digest e) ltac:(lia)) as (db1 & -> & Hrep1 & _).
  destruct (IH db1 (leaves ++ [lh e]) Hrep1) as (db' & E & Hrep').
  { rewrite zlen_app. change (zlen [lh e]) with 1. by replace (zlen leaves + 1 + zlen entries) with (zlen leaves + (1 + zlen entries)) by lia. }
  exists db'. rewrite length_app, Nat.add_1_r, log_sizes_S in E. unfold zlen at 1.
  replace (Z.of_nat (length leaves) + 1) with (Z.of_nat (S (length leaves))) by lia. rewrite E. cbn [map length].
  rewrite <- app_assoc in Hrep'. by rewrite Nat.add_succ_comm.
Qed.

Lemma build_log_spec entries :
  Forall is_digest entries -> nc (zlen entries) < 2 ^ 64 ->
  exists nodes, cll02.build_log entries = Ok (nodes, log_sizes (length entries)) /\
    represents nodes (map lh entries).
Proof.
  intros He Hmax. destruct (build_loop_spec {| pm.nodes := [] |} [] entries represents_nil He Hmax) as (db & E & Hrep).
  exists (pm.nodes db). unfold cll02.build_log. change [0] with (log_sizes 0). cbn [length Nat.add app] in *. by rewrite E.
Qed.

Lemma read_node_values nodes leaves ms f :
  represents nodes leaves -> f <= zlen leaves -> Forall (fun m => complete f m.1 m.2) ms ->
  map_result (py_index nodes) (map peak_of ms) = Ok (node_values leaves ms).
Proof.
  intros Hrep Hf Hms. rewrite map_result_map. apply map_result_Ok. intros [h t] Hm. apply (rep_nodes _ _ Hrep).
  apply (complete_mono f); [done|]. by apply (proj1 (Forall_forall _ _) Hms (h, t)).
Qed.

Lemma accumulator_nc nodes leaves f :
  represents nodes leaves -> 0 <= f <= zlen leaves ->
  cll02.accumulator nodes (nc f) = Ok (node_values leaves (mountains f)).
Proof.
  intros Hrep Hf. unfold cll02.accumulator. destruct (nc f =? 0) eqn:E; zbool.
  { pose proof (nc_ge f ltac:(lia)). by replace f with 0 by lia. }
  rewrite pm_peaks_nc by lia. apply (read_node_values _ _ _ f); [done|lia|]. apply mountains_complete. lia.
Qed.

Lemma peak_count_nc f : 0 <= f -> cll02.peak_count (nc f) = popcount f.
Proof.
  intros Hf. unfold cll02.peak_count. destruct (nc f =? 0) eqn:E; zbool.
  - pose proof (nc_ge f Hf). by replace f with 0 by lia.
  - by rewrite pm_leaf_count_nc.
Qed.

(** The commitment of the first [f] entries. *)
Definition log_commitment leaves f : bytes := concat (node_values leaves (mountains f)).

Lemma mountain_values_digest leaves f :
  Forall is_digest leaves -> 0 <= f <= zlen leaves -> Forall is_digest (node_values leaves (mountains f)).
Proof. intros Hd Hf. apply (node_values_digest leaves f); [done|lia|]. apply mountains_complete. lia. Qed.

Lemma zlen_log_commitment leaves f :
  Forall is_digest leaves -> 0 <= f <= zlen leaves -> zlen (log_commitment leaves f) = 32 * popcount f.
Proof.
  intros Hd Hf. unfold log_commitment. rewrite zlen_concat_digests by by apply mountain_values_digest.
  unfold node_values. by rewrite zlen_map, length_mountains by lia.
Qed.

(** The lists of bytes the producer writes for the paths. *)
Definition path_bytes leaves (K : nat) (A al : Z) : list (list bytes) :=
  map (fun _ => []) (mountains A) ++ map (path_values leaves K A) (mts K al A).

Definition right_bytes leaves b (K : nat) (A al : Z) : list bytes :=
  node_values leaves (drop (reached K A al) (mountains b)).

Lemma path_bytes_values leaves K A al :
  map (fun p => PList (map PBytes p)) (path_bytes leaves K A al) = honest_paths leaves K A al.
Proof. unfold path_bytes, honest_paths. by rewrite map_app, !map_map. Qed.

Lemma consistency_proof_content_spec nodes leaves a b K A al bl :
  represents nodes leaves -> splits a b K A al bl -> 0 < a -> b <= zlen leaves -> nc b < MAX_MMR_SIZE ->
  cll02.consistency_proof_content nodes (nc a) (nc b) =
  Ok (nc a, nc b, path_bytes leaves K A al, right_bytes leaves b K A al).
Proof.
  intros Hrep Hsp Ha Hb Hmax. pose proof Hsp as [_ HA Eqa Hal Eqb Hbl]. pose proof (aligned_nonneg _ _ HA).
  pose proof (p2_pos K). pose proof (rep_leaves _ _ Hrep) as Hd. pose proof (nc_ge a ltac:(lia)).
  destruct (mountains_split _ _ _ _ _ _ Hsp) as [Ea Eb].
  unfold cll02.consistency_proof_content. replace (nc a =? 0) with false by (symmetry; apply Z.eqb_neq; lia).
  rewrite (consistency_proof_paths_spec a b K A al bl) by done.
  assert (map_result (map_result (py_index nodes))
    (map (fun _ => []) (mountains A) ++ map (path_positions K A) (mts K al A)) = Ok (path_bytes leaves K A al)) as ->.
  { apply map_result_app; rewrite map_result_map; apply map_result_Ok; [done|]. intros m Hm.
    apply (read_path nodes leaves b); [done|done|]. split; [auto with cll|lia]. }
  rewrite (accumulator_nc nodes leaves a), (accumulator_nc nodes leaves b) by (done || lia).
  rewrite path_bytes_values, (consistent_roots_honest leaves a b K A al bl) by done.
  do 2 f_equal. unfold right_bytes, node_values. rewrite zlen_map, length_mountains by lia.
  replace (popcount b - (popcount b - Z.of_nat (reached K A al))) with (Z.of_nat (reached K A al)) by lia.
  rewrite Nat2Z.id, <- skipn_map. destruct (_ =? 0) eqn:E; zbool; [|done].
  symmetry. apply drop_ge. rewrite length_map. rewrite <- length_mountains in E by lia. unfold zlen in E. lia.
Qed.
End log.

(** ** Encoding dictionaries whose keys are texts

    The producer writes a dictionary in the order it fills it; the encoding is
    that of the sorted dictionary the verifier decodes, which has the same
    entries. *)
Lemma map_result_perm_inv {A B} (f : A -> result B) l l' k' :
  map_result f l = Ok l' -> l' ≡ₚ k' -> exists k, l ≡ₚ k /\ map_result f k = Ok k'.
Proof.
  intros Hl Hp. revert l Hl. induction Hp as [|y l' k' Hp IH|x y l'|l' k' m' H1 IH1 H2 IH2]; intros l Hl.
  - by exists l.
  - destruct l as [|a l]; [done|]. apply map_result_cons_Ok in Hl as (b & bs & Ha & Hbs & [= -> ->]).
    destruct (IH l Hbs) as (k & Hk & E). exists (a :: k). split; [by constructor|]. cbn [map_result]. by rewrite Ha, E.
  - destruct l as [|a l]; [done|]. apply map_result_cons_Ok in Hl as (b & bs & Ha & Hbs & [= <- <-]).
    destruct l as [|c l]; [done|]. apply map_result_cons_Ok in Hbs as (d & ds & Hc & Hds & [= <- <-]).
    exists (c :: a :: l). split; [constructor|]. cbn [map_result]. by rewrite Hc, Ha, Hds.
  - destruct (IH1 l Hl) as (k & Hk & E). destruct (IH2 k E) as (m & Hm & E'). exists m. split; [by etransitivity|done].
Qed.

(** An encoding is of one canonical value. *)
Lemma cbor_inj room v w b :
  canonical v -> canonical w -> fits room v -> fits room w -> cll02.cbor v = Ok b -> cll02.cbor w = Ok b -> v = w.
Proof.
  intros Hv Hw Hfv Hfw Hbv Hbw.
  pose proof (dec_complete room b 0 v b [] ltac:(lia) Hfv Hv Hbv ltac:(by rewrite from_0, app_nil_r)) as Ev.
  pose proof (dec_complete room b 0 w b [] ltac:(lia) Hfw Hw Hbw ltac:(by rewrite from_0, app_nil_r)) as Ew.
  congruence.
Qed.

(** Dictionaries with different texts as keys. *)
Definition text_key (v : pyval) : Prop := match v with PStr _ => True | _ => False end.

Definition text_keys (d : list (pyval * pyval)) : Prop := Forall (fun e => text_key e.1) d /\ NoDup (map fst d).

Lemma text_keys_perm d d' : d ≡ₚ d' -> text_keys d -> text_keys d'.
Proof. intros Hp [H1 H2]. split; by rewrite <- Hp. Qed.

Lemma dict_find_text d s v : text_keys d -> dict_find d (PStr s) = Some v <-> (PStr s, v) ∈ d.
Proof.
  intros [Ht Hnd]. induction d as [|[k x] d IH]; [cbn; set_solver|].
  apply Forall_cons in Ht as [Hk Ht]. cbn [map fst] in Hnd. apply NoDup_cons in Hnd as [Hk' Hnd].
  cbn [fst] in Hk. assert (exists t, k = PStr t) as [t ->] by (destruct k; by eauto). cbn [dict_find]. rewrite py_eq_str, elem_of_cons.
  destruct (decide (t = s)) as [->|Hne]; [rewrite bool_decide_true by done|rewrite bool_decide_false by done].
  - split; [intros [= ->]; by left|]. intros [[= ->]|Hin]; [done|]. destruct Hk'.
    apply list_elem_of_fmap. by exists (PStr s, v).
  - rewrite IH by done. split; [by right|]. intros [[= -> ->]|?]; [done|done].
Qed.

Lemma dict_find_perm d d' s : d ≡ₚ d' -> text_keys d -> dict_find d' (PStr s) = dict_find d (PStr s).
Proof.
  intros Hp Ht. pose proof (text_keys_perm _ _ Hp Ht) as Ht'.
  apply option_eq. intros v. by rewrite !dict_find_text, Hp.
Qed.

Lemma sorted_before es :
  StronglySorted cll02.entry_le es -> NoDup (map fst es) -> StronglySorted before (map fst es).
Proof.
  induction 1 as [|[k x] es Hs IH Hall]; intros Hnd; [constructor|]. cbn [map fst] in *.
  apply NoDup_cons in Hnd as [Hk Hnd]. constructor; [by apply IH|]. apply Forall_forall. intros l Hl.
  apply list_elem_of_fmap in Hl as ([l' y] & -> & Hl). eapply Forall_forall in Hall; [|exact Hl].
  unfold before. cbn [fst]. destruct Hall as [[Hne Hle]|[E _]]; cbn [fst] in *.
  - destruct (bytes_leb l' k) eqn:E; [|done]. destruct Hne. by apply bytes_leb_antisym.
  - subst. destruct Hk. apply list_elem_of_fmap. by exists (l', y).
Qed.

Lemma map_result_keys d es :
  map_result cbor_entry d = Ok es -> map_result cll02.cbor (map fst d) = Ok (map fst es).
Proof.
  revert es. induction d as [|[k x] d IH]; intros es; [by intros [= <-]|].
  intros (y & ys & Hy & Hys & ->)%map_result_cons_Ok. unfold cbor_entry in Hy. cbn [fst snd map map_result] in *.
  destruct (cll02.cbor k); [|done]. destruct (cll02.cbor x); [|done]. injection Hy as <-. by rewrite (IH _ Hys).
Qed.

Lemma text_keys_encoded d es : text_keys d -> map_result cbor_entry d = Ok es -> NoDup (map fst es).
Proof.
  intros [Ht Hnd] Hes%map_result_keys. apply NoDup_alt. intros i j kb Hi Hj.
  assert (Forall text_key (map fst d)) as Hk by by apply Forall_map.
  assert (forall n kb, map fst es !! n = Some kb ->
    exists s, map fst d !! n = Some (PStr s) /\ cll02.cbor (PStr s) = Ok kb) as Hlook.
  { intros n kb' Hn. destruct (map fst d !! n) as [k|] eqn:Ek.
    - destruct (map_result_lookup _ _ _ _ _ Hes Ek) as (y & Hy & E). rewrite Hn in Hy. injection Hy as <-.
      eapply Forall_lookup_1 in Hk; [|exact Ek]. destruct k; try done. by eexists.
    - apply lookup_ge_None in Ek. apply lookup_lt_Some in Hn. apply map_result_length in Hes. lia. }
  destruct (Hlook _ _ Hi) as (s & Hs & Es), (Hlook _ _ Hj) as (t & Ht' & Et).
  assert (PStr s = PStr t) as Est by (apply (cbor_inj 1 _ _ kb); (done || constructor)).
  injection Est as ->. by apply (proj1 (NoDup_alt _) Hnd i j (PStr t)).
Qed.

(** The decoded form of an encoded dictionary. *)
Lemma cbor_dict_canonical room d b :
  text_keys d -> cll02.cbor (PDict d) = Ok b ->
  Forall (fun e => canonical e.2 /\ fits room e.2) d -> room <> O ->
  exists d', d ≡ₚ d' /\ cll02.decode (S room) b = Ok (PDict d').
Proof.
  intros Ht Hb Hd Hroom. rewrite cbor_dict_eq in Hb.
  destruct (map_result cbor_entry d) as [es|] eqn:Hes; [|done]. cbv zeta in Hb.
  pose proof (text_keys_encoded d es Ht Hes) as Hnd.
  assert (es ≡ₚ merge_sort cll02.entry_le es) as Hp by (symmetry; apply merge_sort_Permutation).
  destruct (map_result_perm_inv _ _ _ _ Hes Hp) as (d' & Hd' & Hes'). exists d'. split; [done|].
  set (es' := merge_sort cll02.entry_le es) in *.
  assert (StronglySorted before (map fst es')) as Hs.
  { apply sorted_before; [apply StronglySorted_merge_sort; apply _|]. by rewrite <- Hp. }
  pose proof (text_keys_perm _ _ Hd' Ht) as [Htext _]. rewrite Hd' in Hd.
  assert (cll02.cbor (PDict d') = Ok b) as Hb'.
  { rewrite cbor_dict_eq, Hes'. cbv zeta. by rewrite (sorted_entries es') by done. }
  unfold cll02.decode. rewrite (dec_complete (S room) b 0 (PDict d') b []).
  - by rewrite Z.add_0_l, Z.eqb_refl.
  - lia.
  - cbn [fits]. rewrite Forall_forall in *. intros e He. split; [|by apply Hd]. specialize (Htext e He).
    destruct room; [done|]. by destruct e.1.
  - apply (canonical_dict _ es'); [|done|done]. rewrite Forall_forall in *. intros e He.
    specialize (Htext e He). destruct e as [[]]; try done. split_and!; [done|constructor|by apply (Hd _ He)].
  - done.
  - by rewrite from_0, app_nil_r.
Qed.

(** ** Encoding of a proof *)
Definition encodes (c : Z) (v : pyval) : Prop := exists b, cll02.cbor v = Ok b /\ zlen b <= c.

Lemma zlen_header_9 major n : zlen (header major n) <= 9.
Proof. pose proof (length_header major n). unfold zlen. lia. Qed.

Lemma encodes_mono c e v : encodes c v -> c <= e -> encodes e v.
Proof. intros (b & Hb & Hc) He. exists b. split; [done|lia]. Qed.

Lemma encodes_int n : 0 <= n < 2 ^ 64 -> encodes 9 (PInt n).
Proof.
  intros Hn. exists (header 0 n). cbn [cll02.cbor]. rw_bool (0 <=? n) true. rewrite head_Ok by lia.
  split; [done|apply zlen_header_9].
Qed.

Lemma encodes_bytes bs : zlen bs < 2 ^ 64 -> encodes (9 + zlen bs) (PBytes bs).
Proof.
  intros Hn. pose proof (zlen_nonneg bs). exists (header 2 (zlen bs) ++ bs). cbn [cll02.cbor]. rewrite head_Ok by lia.
  split; [done|]. rewrite zlen_app. pose proof (zlen_header_9 2 (zlen bs)). lia.
Qed.

Lemma encodes_str s b : utf8_encode s = Some b -> zlen b < 2 ^ 64 -> encodes (9 + zlen b) (PStr s).
Proof.
  intros Hs Hn. pose proof (zlen_nonneg b). exists (header 3 (zlen b) ++ b). cbn [cll02.cbor].
  rewrite Hs, head_Ok by lia. split; [done|]. rewrite zlen_app. pose proof (zlen_header_9 3 (zlen b)). lia.
Qed.

Lemma encodes_list c l : zlen l < 2 ^ 64 -> Forall (encodes c) l -> encodes (9 + c * zlen l) (PList l).
Proof.
  intros Hn Hl. pose proof (zlen_nonneg l).
  assert (exists bs, map_result cll02.cbor l = Ok bs /\ zlen (concat bs) <= c * zlen l) as (bs & Hbs & Hc).
  { clear Hn H. induction Hl as [|x l (b & Hb & Hbc) Hl (bs & Hbs & Hc)];
      [exists []; unfold zlen; cbn; split; [done|lia]|].
    exists (b :: bs). cbn [map_result concat]. rewrite Hb, Hbs, zlen_app, zlen_cons. split; [done|lia]. }
  exists (header 4 (zlen l) ++ concat bs). rewrite cbor_list_eq, head_Ok, Hbs by lia. split; [done|].
  rewrite zlen_app. pose proof (zlen_header_9 4 (zlen l)). lia.
Qed.

Lemma encodes_dict c d :
  zlen d < 2 ^ 64 -> Forall (fun e => encodes c e.1 /\ encodes c e.2) d -> exists b, cll02.cbor (PDict d) = Ok b.
Proof.
  intros Hn Hd. rewrite cbor_dict_eq.
  destruct (map_result_total cbor_entry d) as [es Hes].
  { intros [k x] Hin. eapply Forall_forall in Hd; [|exact Hin]. destruct Hd as [(kb & Hk & _) (xb & Hx & _)].
    cbn [fst snd] in *. exists (kb, xb). unfold cbor_entry. cbn [fst snd]. by rewrite Hk, Hx. }
  rewrite Hes. cbv zeta.
  assert (zlen (merge_sort cll02.entry_le es) = zlen d) as ->.
  { unfold zlen. rewrite (Permutation_length (merge_sort_Permutation cll02.entry_le es)).
    by rewrite (map_result_length _ _ _ Hes). }
  pose proof (zlen_nonneg d). rewrite head_Ok by lia. by eexists.
Qed.

Lemma encodes_digests l : Forall is_digest l -> zlen l < 2 ^ 64 -> encodes (9 + 41 * zlen l) (PList (map PBytes l)).
Proof.
  intros Hl Hn. rewrite <- (zlen_map PBytes l) at 1. apply encodes_list; [by rewrite zlen_map|].
  apply Forall_map. eapply Forall_impl; [exact Hl|]. intros x Hx. unfold is_digest in Hx.
  assert (zlen x = 32) as Hz by (unfold zlen; lia). apply (encodes_mono (9 + zlen x)); [apply encodes_bytes|]; lia.
Qed.

Lemma canonical_bytes_list l : canonical (PList (map PBytes l)).
Proof. constructor. apply Forall_map, Forall_forall. intros. constructor. Qed.

Lemma content_canonical room size1 size2 paths right_ :
  let v := cll02.content_value (size1, size2, paths, right_) in canonical v /\ fits (4 + room) v.
Proof.
  cbn zeta. unfold cll02.content_value. split.
  - constructor. repeat constructor; [apply Forall_map, Forall_forall; intros p _|apply Forall_map, Forall_forall; intros p _; constructor].
    apply canonical_bytes_list.
  - cbn [fits Nat.add]. repeat constructor; apply Forall_map, Forall_forall; [|done]. intros p _.
    by apply Forall_map, Forall_forall.
Qed.

Section content.
Context {HL : Hashlib}.
Implicit Types leaves : list bytes.

Lemma path_bytes_digests leaves b K A al :
  Forall is_digest leaves -> b <= zlen leaves -> complete b K A -> 
  Forall (Forall is_digest) (path_bytes leaves K A al).
Proof.
  intros Hd Hb Hc. apply Forall_app. split; apply Forall_map, Forall_forall; [constructor|].
  intros m _. by apply (siblings_digest leaves b).
Qed.

Lemma path_bytes_short leaves K A al :
  aligned (S K) A -> 0 <= al < p2 K ->
  Forall (fun p => zlen p <= Z.of_nat K) (path_bytes leaves K A al).
Proof.
  intros HA Hal. apply Forall_app. split; apply Forall_map, Forall_forall.
  { intros _ _. change (zlen (@nil bytes)) with 0. lia. }
  intros m Hm. destruct (below_inside K al A m HA Hal Hm) as (? & ? & ? & _).
  unfold path_values. rewrite zlen_map. unfold zlen. rewrite length_rev, length_td_path by auto with cll. lia.
Qed.

Lemma honest_content leaves a b K A al bl room :
  splits a b K A al bl -> 0 < a -> Forall is_digest leaves -> b <= zlen leaves -> nc b < MAX_MMR_SIZE ->
  let v := cll02.content_value (nc a, nc b, path_bytes leaves K A al, right_bytes leaves b K A al) in
  exists raw, cll02.cbor v = Ok raw /\ zlen raw < 2 ^ 64 /\ cll02.decode (4 + room) raw = Ok v.
Proof.
  intros Hsp Ha Hd Hb Hmax v. pose proof Hsp as [_ HA Eqa Hal Eqb Hbl]. pose proof (aligned_nonneg _ _ HA).
  pose proof (p2_pos K). destruct (mountains_split _ _ _ _ _ _ Hsp) as [Ea _].
  pose proof (nc_ge a ltac:(lia)). pose proof (nc_ge b ltac:(lia)). pose proof (nc_mono a b ltac:(lia)).
  assert (MAX_MMR_SIZE = 2 ^ 50) as HM by done. assert (complete b K A) as Hc by (split; [auto with cll|lia]).
  assert (Z.of_nat K <= 50) as HK.
  { destruct (Z.le_gt_cases (Z.of_nat K) 50); [done|]. pose proof (Z.pow_lt_mono_r 2 50 (Z.of_nat K)). unfold p2 in *. lia. }
  pose proof (popcount_le a ltac:(lia)). pose proof (popcount_le b ltac:(lia)).
  assert (encodes (9 + 2059 * popcount a) (PList (map (fun p => PList (map PBytes p)) (path_bytes leaves K A al)))) as Hp.
  { assert (zlen (map (fun p => PList (map PBytes p)) (path_bytes leaves K A al)) = popcount a) as El.
    { rewrite zlen_map. unfold path_bytes. rewrite zlen_app, !zlen_map, <- length_mountains, Ea, zlen_app by lia. done. }
    rewrite <- El. apply encodes_list; [lia|]. apply Forall_map.
    pose proof (path_bytes_digests leaves b K A al Hd Hb Hc) as Hpd.
    pose proof (path_bytes_short leaves K A al HA Hal) as Hps. rewrite Forall_forall in *. intros p Hin.
    specialize (Hpd p Hin). specialize (Hps p Hin). cbn beta in H2. eapply encodes_mono; [apply encodes_digests; [done|]|]; lia. }
  assert (encodes (9 + 41 * popcount b) (PList (map PBytes (right_bytes leaves b K A al)))) as Hr.
  { assert (zlen (right_bytes leaves b K A al) <= popcount b) as El.
    { unfold right_bytes, node_values, zlen. rewrite length_map, length_drop. rewrite <- length_mountains by lia.
      unfold zlen. lia. }
    eapply encodes_mono; [apply encodes_digests|]; [|lia|lia].
    apply (node_values_digest leaves b); [done|done|]. apply Forall_drop, mountains_complete. lia. }
  destruct (encodes_list (18 + 41 * popcount b + 2059 * popcount a)
    [PInt (nc a); PInt (nc b); PList (map (fun p => PList (map PBytes p)) (path_bytes leaves K A al));
     PList (map PBytes (right_bytes leaves b K A al))]) as (raw & Hraw & Hlen).
  { done. }
  { pose proof (popcount_nonneg a). pose proof (popcount_nonneg b).
    repeat constructor; [apply (encodes_mono 9); [apply encodes_int; lia|lia]|apply (encodes_mono 9); [apply encodes_int; lia|lia]| |].
    - eapply encodes_mono; [exact Hp|lia].
    - eapply encodes_mono; [exact Hr|lia]. }
  change (zlen [_; _; _; _]) with 4 in Hlen. exists raw. split_and!; [done|lia|].
  destruct (content_canonical room (nc a) (nc b) (path_bytes leaves K A al) (right_bytes leaves b K A al)) as [Hcan Hfit].
  unfold cll02.decode. rewrite (dec_complete (4 + room) raw 0 v raw []) by (done || by rewrite from_0, app_nil_r).
  by rewrite Z.add_0_l, Z.eqb_refl.
Qed.
End content.

(** ** Honest checkpoints *)
Section checkpoints.
Context {HL : Hashlib}.
Implicit Types leaves : list bytes.

Lemma check_claims_ext room (m m' : list (pyval * pyval)) :
  (forall key, dict_find m' (tkey key) = dict_find m (tkey key)) -> cll02.check_claims room m' = cll02.check_claims room m.
Proof.
  intros E. unfold cll02.check_claims, cll02.check_proof, cll02._uint, cll02._bstr, cll02.get, cll02.has.
  by rewrite !E.
Qed.

Lemma register_ext room registered who (m m' : list (pyval * pyval)) :
  (forall key, dict_find m' (tkey key) = dict_find m (tkey key)) ->
  generate.register room registered who m' = generate.register room registered who m.
Proof.
  intros E. unfold generate.register, cll02.registration_continuity, cll02.item. by rewrite (check_claims_ext _ m), !E.
Qed.

(** The claims of the checkpoint of [b] leaves over the one of [a]. *)
Definition honest_claims leaves a b (issued_at : pystr) (with_lc : bool) (raw : option bytes) : list (pyval * pyval) :=
  [(tkey "kind", PStr cll02.KIND); (tkey "log_size", PInt (nc b)); (tkey "commitment", PBytes (log_commitment leaves b));
   (tkey "prev_size", PInt (nc a)); (tkey "prev_commitment", PBytes (log_commitment leaves a));
   (tkey "issued_at", PStr issued_at); (tkey "cadence", PInt generate.CADENCE)]
  ++ (if with_lc then [(tkey "leaf_count", PInt b)] else [])
  ++ match raw with Some raw => [(tkey "consistency_proof", PBytes raw)] | None => [] end.

Definition honest_proof leaves a b (raw : option bytes) : Prop :=
  if (0 <? a) && (a <? b) then
    exists K A al bl r, splits a b K A al bl /\ raw = Some r /\ zlen r < 2 ^ 64 /\
      forall room, cll02.decode (4 + room) r =
        Ok (cll02.content_value (nc a, nc b, path_bytes leaves K A al, right_bytes leaves b K A al))
  else raw = None.

Lemma nc_eqb a b : 0 <= a -> 0 <= b -> (nc a =? nc b) = (a =? b).
Proof.
  intros Ha Hb. destruct (Z.eqb_spec a b) as [->|]; [apply Z.eqb_refl|]. apply Z.eqb_neq.
  pose proof (nc_lt a b). pose proof (nc_lt b a). lia.
Qed.

Lemma nc_ltb a b : 0 <= a -> 0 <= b -> (nc a <? nc b) = (a <? b).
Proof.
  intros Ha Hb. destruct (a <? b) eqn:E; zbool; [apply Z.ltb_lt, nc_lt; lia|].
  apply Z.ltb_ge, nc_mono. lia.
Qed.

Lemma nc_eq0 a : 0 <= a -> (nc a =? 0) = (a =? 0).
Proof. intros Ha. apply (nc_eqb a 0 Ha). lia. Qed.

Lemma check_complete_nc f : 0 <= f -> cll02.check_complete (nc f) = Ok ().
Proof.
  intros Hf. unfold cll02.check_complete. pose proof (nc_ge f Hf).
  destruct (is_complete_correct (nc f) ltac:(lia)) as (b & -> & Hb).
  assert (b = true) as -> by (apply Hb; by exists f). done.
Qed.

Lemma check_complete_inv size : 0 <= size -> cll02.check_complete size = Ok () -> exists f, 0 <= f /\ size = nc f.
Proof.
  intros Hs. unfold cll02.check_complete. destruct (is_complete_correct size Hs) as (b & -> & Hb).
  destruct b; [|done]. intros _. by apply Hb.
Qed.

(** What a verifier reads in the honest claims. *)
Lemma honest_find leaves a b issued_at (with_lc : bool) raw :
  let find key := dict_find (honest_claims leaves a b issued_at with_lc raw) (tkey key) in
  find "kind" = Some (PStr cll02.KIND) /\ find "log_size" = Some (PInt (nc b)) /\
  find "commitment" = Some (PBytes (log_commitment leaves b)) /\ find "prev_size" = Some (PInt (nc a)) /\
  find "prev_commitment" = Some (PBytes (log_commitment leaves a)) /\ find "issued_at" = Some (PStr issued_at) /\
  find "leaf_count" = (if with_lc then Some (PInt b) else None) /\
  find "consistency_proof" = match raw with Some raw => Some (PBytes raw) | None => None end.
Proof. destruct with_lc, raw; split_and!; reflexivity. Qed.

Lemma nodup_texts (d : list (pyval * pyval)) (texts : list pystr) :
  map fst d = map PStr texts -> bool_decide (NoDup texts) = true -> text_keys d.
Proof.
  intros E Hnd%bool_decide_eq_true. assert (Inj eq eq PStr) by (by intros ?? [=]). split; [|rewrite E; by apply (NoDup_fmap_2 PStr)].
  apply (proj1 (Forall_map fst text_key d)). rewrite E. by apply Forall_map, Forall_forall.
Qed.

Lemma honest_text_keys leaves a b issued_at (with_lc : bool) raw :
  text_keys (honest_claims leaves a b issued_at with_lc raw).
Proof.
  apply (nodup_texts _ (map str (["kind"; "log_size"; "commitment"; "prev_size"; "prev_commitment"; "issued_at"; "cadence"]%string
    ++ (if with_lc then ["leaf_count"%string] else [])
    ++ match raw with Some _ => ["consistency_proof"%string] | None => [] end))); destruct with_lc, raw; reflexivity.
Qed.

Lemma check_claims_honest leaves a b issued_at with_lc raw room :
  Forall is_digest leaves -> 0 <= a <= b -> b <= zlen leaves -> nc b < MAX_MMR_SIZE -> honest_proof leaves a b raw ->
  cll02.check_claims (4 + room) (honest_claims leaves a b issued_at with_lc raw) = Ok ().
Proof.
  intros Hd Hab Hb Hmax Hraw. destruct (honest_find leaves a b issued_at with_lc raw) as (F1 & F2 & F3 & F4 & F5 & F6 & F7 & F8).
  pose proof (nc_ge a ltac:(lia)). pose proof (nc_ge b ltac:(lia)).
  unfold cll02.check_claims, cll02.check_proof, cll02._uint, cll02._bstr, cll02.get, cll02.has.
  rewrite F1, F2, F3, F4, F5, F6. cbn [as_int]. rewrite py_eq_str, bool_decide_true by done. cbn [negb].
  rw_bool (nc b <? 0) false. rw_bool (nc a <? 0) false. rewrite !check_complete_nc by lia.
  rewrite nc_ltb, !peak_count_nc, !zlen_log_commitment, !Z.eqb_refl by (done || lia). rw_bool (b <? a) false. cbn [negb].
  rewrite F7, nc_eq0, nc_eq0, nc_eqb, F8 by lia.
  assert ((if b =? 0 then 0 else pm.leaf_count (nc b - 1)) = b) as ->.
  { destruct (b =? 0) eqn:E; zbool; [done|]. apply pm_leaf_count_nc. lia. }
  match goal with |- match ?lc with _ => _ end = _ => assert (lc = Ok ()) as -> end.
  { destruct with_lc; [|done]. cbn [as_int]. rw_bool (b <? 0) false. by rewrite Z.eqb_refl. }
  unfold honest_proof in Hraw. destruct (0 <? a) eqn:E1; [destruct (a <? b) eqn:E2|]; cbn [andb] in Hraw; zbool.
  - destruct Hraw as (K & A & al & bl & r & Hsp & -> & _ & Hr).
    rewrite (proj2 (Z.eqb_neq a 0)), (proj2 (Z.eqb_neq a b)) by lia.
    cbn [orb negb]. rewrite (Hr room). unfold cll02.proof_shape, cll02.content_value. cbn [as_int].
    rewrite !Z.eqb_refl. cbn [negb orb]. unfold log_commitment at 1.
    rewrite split_commitment_concat by (apply mountain_values_digest; [done|lia]).
    rewrite path_bytes_values. unfold right_bytes.
    rewrite (verify_accumulator_honest leaves a b K A al bl) by (done || lia).
    by rewrite commitment_bytes, bool_decide_true.
  - assert (a = b) as <- by lia. subst raw. rewrite (proj2 (Z.eqb_neq a 0)) by lia. rewrite Z.eqb_refl. cbn [orb andb].
    by rewrite bool_decide_true.
  - assert (a = 0) as -> by lia. subst raw. rewrite Z.eqb_refl. cbn [orb]. destruct (decide (b = 0)) as [->|].
    + by rewrite Z.eqb_refl, bool_decide_true.
    + by rewrite (proj2 (Z.eqb_neq 0 b)) by lia.
Qed.
End checkpoints.

(** ** The producer's chain is registered *)
Section chain.
Context {HL : Hashlib}.
Implicit Types leaves entries : list bytes.

Lemma honest_proof_exists nodes leaves a b :
  represents nodes leaves -> 0 <= a <= b -> b <= zlen leaves -> nc b < MAX_MMR_SIZE ->
  exists raw, honest_proof leaves a b raw /\
    (let! content :=
       if (0 <? nc a) && (nc a <? nc b) then
         let! content := cll02.consistency_proof_content nodes (nc a) (nc b) in Ok (Some content)
       else Ok None in
     match content with
     | Some content => let! r := cll02.cbor (cll02.content_value content) in Ok [(tkey "consistency_proof", PBytes r)]
     | None => Ok []
     end) = Ok (match raw with Some r => [(tkey "consistency_proof", PBytes r)] | None => [] end) /\
    match raw with Some r => zlen r < 2 ^ 64 | None => True end.
Proof.
  intros Hrep Hab Hb Hmax. pose proof (rep_leaves _ _ Hrep) as Hd. unfold honest_proof.
  pose proof (nc_ltb 0 a ltac:(lia) ltac:(lia)) as E0. change (nc 0) with 0 in E0. rewrite E0, nc_ltb by lia.
  destruct ((0 <? a) && (a <? b)) eqn:E; [|by exists None]. apply andb_true_iff in E as [E1 E2]. zbool.
  destruct (split_exists a b ltac:(lia)) as (K & A & al & bl & Hsp).
  destruct (honest_content leaves a b K A al bl 0 Hsp ltac:(lia) Hd Hb Hmax) as (r & Hr & Hlen & _).
  exists (Some r). rewrite (consistency_proof_content_spec nodes leaves a b K A al bl), Hr by (done || lia).
  split_and!; [|done|done]. exists K, A, al, bl, r. split_and!; [done|done|done|]. intros room.
  destruct (honest_content leaves a b K A al bl room Hsp ltac:(lia) Hd Hb Hmax) as (r' & Hr' & _ & Hdec).
  rewrite Hr in Hr'. by injection Hr' as <-.
Qed.

(** Texts Python encodes, of a length CBOR can write. *)
Definition encodable (s : pystr) : Prop := exists b, utf8_encode s = Some b /\ zlen b < 2 ^ 64.

Lemma honest_claims_encode leaves a b issued_at with_lc raw :
  Forall is_digest leaves -> 0 <= a <= b -> b <= zlen leaves -> nc b < MAX_MMR_SIZE -> encodable issued_at ->
  match raw with Some r => zlen r < 2 ^ 64 | None => True end ->
  Forall (fun e => encodes (9 + 2 ^ 64) e.1 /\ encodes (9 + 2 ^ 64) e.2) (honest_claims leaves a b issued_at with_lc raw).
Proof.
  intros Hd Hab Hb Hmax (ib & Hib & Hiblen) Hraw.
  pose proof (nc_ge a ltac:(lia)). pose proof (nc_ge b ltac:(lia)). pose proof (nc_mono a b ltac:(lia)).
  assert (MAX_MMR_SIZE = 2 ^ 50) as HM by done.
  assert (forall n, 0 <= n < 2 ^ 64 -> encodes (9 + 2 ^ 64) (PInt n)) as Hint.
  { intros n Hn. apply (encodes_mono 9); [by apply encodes_int|lia]. }
  assert (forall bs, zlen bs < 2 ^ 64 -> encodes (9 + 2 ^ 64) (PBytes bs)) as Hbytes.
  { intros bs Hbs. apply (encodes_mono (9 + zlen bs)); [by apply encodes_bytes|lia]. }
  assert (forall s sb, utf8_encode s = Some sb -> zlen sb < 2 ^ 64 -> encodes (9 + 2 ^ 64) (PStr s)) as Hstr.
  { intros s sb Hs Hsb. apply (encodes_mono (9 + zlen sb)); [by apply encodes_str|lia]. }
  assert (forall key sb, utf8_encode (str key) = Some sb -> zlen sb < 2 ^ 64 -> encodes (9 + 2 ^ 64) (tkey key)) as Hkey.
  { intros key sb. apply Hstr. }
  assert (forall f, 0 <= f <= b -> zlen (log_commitment leaves f) < 2 ^ 64) as Hcom.
  { intros f Hf. rewrite zlen_log_commitment by (done || lia). pose proof (popcount_le f). lia. }
  unfold honest_claims. rewrite !Forall_app. split_and!.
  - repeat constructor; try (eapply Hkey; [reflexivity|done]).
    all: first [by eapply Hstr|eapply Hstr; [reflexivity|done]|apply Hint; unfold generate.CADENCE; lia|apply Hbytes, Hcom; lia].
  - destruct with_lc; repeat constructor; [eapply Hkey; [reflexivity|done]|apply Hint; lia].
  - destruct raw; repeat constructor; [eapply Hkey; [reflexivity|done]|by apply Hbytes].
Qed.

Lemma next_checkpoint_honest nodes leaves a b issued_at with_lc room :
  represents nodes leaves -> 0 <= a <= b -> b <= zlen leaves -> nc b < MAX_MMR_SIZE -> encodable issued_at ->
  exists raw payload d', honest_proof leaves a b raw /\
    generate.next_checkpoint nodes (log_sizes (length leaves)) (nc a, log_commitment leaves a) b issued_at with_lc =
      Ok (honest_claims leaves a b issued_at with_lc raw, payload, (nc b, log_commitment leaves b)) /\
    honest_claims leaves a b issued_at with_lc raw ≡ₚ d' /\ cll02.decode (4 + room) payload = Ok (PDict d').
Proof.
  intros Hrep Hab Hb Hmax Hiss. pose proof (rep_leaves _ _ Hrep) as Hd.
  destruct (honest_proof_exists nodes leaves a b Hrep Hab Hb Hmax) as (raw & Hraw & Econtent & Hrawlen).
  exists raw. pose proof (nc_ge a ltac:(lia)). pose proof (nc_ge b ltac:(lia)). pose proof (nc_mono a b ltac:(lia)).
  assert (MAX_MMR_SIZE = 2 ^ 50) as HM by done.
  destruct (encodes_dict (9 + 2 ^ 64) (honest_claims leaves a b issued_at with_lc raw)) as [payload Hpay]; [by destruct with_lc, raw|by apply honest_claims_encode|].
  exists payload.
  destruct (cbor_dict_canonical (3 + room) (honest_claims leaves a b issued_at with_lc raw) payload) as (d' & Hd' & Hdec);
    [apply honest_text_keys|done|destruct with_lc, raw; repeat constructor|done|].
  exists d'. split_and!; [done| |done|done].
  unfold generate.next_checkpoint. rewrite log_sizes_lookup by (unfold zlen in Hb; lia).
  rewrite (accumulator_nc nodes leaves b) by (done || lia).
  rewrite commitment_bytes. fold (log_commitment leaves b).
  match type of Econtent with (match ?c with _ => _ end) = _ => destruct c as [content|] end; [|done].
  unfold cll02.claims_map. rewrite Econtent.
  match goal with |- context [cll02.cbor (PDict ?l)] => replace l with (honest_claims leaves a b issued_at with_lc raw)
    by (destruct with_lc; reflexivity) end.
  by rewrite Hpay.
Qed.
End chain.

(** ** The chain *)
Section registered.
Context {HL : Hashlib}.
Implicit Types leaves entries : list bytes.

Lemma py_eq_bytes (b c : bytes) : py_eq (PBytes b) (PBytes c) = bool_decide (b = c).
Proof. done. Qed.

(** What the service holds after the checkpoint of [b] leaves. *)
Definition held leaves b : pyval * pyval := (PInt (nc b), PBytes (log_commitment leaves b)).

Definition status_after (registered : cll02.registry) (who : cll02.identity) : cll02.continuity :=
  match registered !! who with None => cll02.first_seen | Some _ => cll02.continuous end.

Lemma register_honest leaves a b issued_at with_lc raw room registered who d' :
  Forall is_digest leaves -> 0 <= a <= b -> b <= zlen leaves -> nc b < MAX_MMR_SIZE -> honest_proof leaves a b raw ->
  honest_claims leaves a b issued_at with_lc raw ≡ₚ d' ->
  (registered !! who = None \/ registered !! who = Some (held leaves a)) ->
  generate.register (4 + room) registered who d' =
    Ok (status_after registered who, <[who := held leaves b]> registered).
Proof.
  intros Hd Hab Hb Hmax Hraw Hp Hreg.
  rewrite (register_ext _ _ _ (honest_claims leaves a b issued_at with_lc raw));
    [|intros key; apply dict_find_perm; [done|apply honest_text_keys]].
  destruct (honest_find leaves a b issued_at with_lc raw) as (_ & F2 & F3 & F4 & F5 & _).
  unfold generate.register. rewrite check_claims_honest by done.
  unfold cll02.registration_continuity, cll02.item, status_after. rewrite F2, F3, F4, F5.
  destruct Hreg as [-> | ->]; [done|]. cbn [held fst snd]. by rewrite py_eq_int_refl, py_eq_bytes, bool_decide_true.
Qed.

(** A chain of checkpoints: the leaf counts do not decrease and stay within
    the log, the times are texts. *)
Fixpoint grows (n a : Z) (CHAIN : list (Z * pystr * bool)) : Prop :=
  match CHAIN with
  | [] => True
  | (b, issued_at, _) :: CHAIN => a <= b /\ b <= n /\ encodable issued_at /\ grows n b CHAIN
  end.

Definition final (a : Z) (CHAIN : list (Z * pystr * bool)) : Z :=
  match last CHAIN with Some (b, _, _) => b | None => a end.

Lemma chain_registered nodes leaves CHAIN a room registered who :
  represents nodes leaves -> nc (zlen leaves) < MAX_MMR_SIZE -> 0 <= a -> grows (zlen leaves) a CHAIN ->
  (registered !! who = None \/ registered !! who = Some (held leaves a)) ->
  exists payloads,
    generate.build_chain nodes (log_sizes (length leaves)) (nc a, log_commitment leaves a) CHAIN = Ok payloads /\
    generate.registrations (4 + room) registered (map (pair who) payloads) =
      Ok (match CHAIN with [] => [] | _ :: CHAIN => status_after registered who :: map (fun _ => cll02.continuous) CHAIN end,
          match CHAIN with [] => registered | _ => <[who := held leaves (final a CHAIN)]> registered end).
Proof.
  intros Hrep Hmax. revert a registered. induction CHAIN as [|[[b issued_at] with_lc] CHAIN IH]; intros a registered Ha Hg Hreg.
  { by exists []. }
  destruct Hg as (Hab & Hb & Hiss & Hg). pose proof (rep_leaves _ _ Hrep) as Hd.
  pose proof (nc_mono b (zlen leaves) ltac:(lia)) as Hmono.
  destruct (next_checkpoint_honest nodes leaves a b issued_at with_lc room) as (raw & payload & d' & Hraw & Hnext & Hp & Hdec);
    [done|lia|done|lia|done|].
  pose proof (register_honest leaves a b issued_at with_lc raw room registered who d' Hd ltac:(lia) Hb ltac:(lia) Hraw Hp Hreg) as Hr.
  destruct (IH b (<[who := held leaves b]> registered)) as (payloads & Hc & Hrs); [lia|done|by rewrite lookup_insert_eq; right|].
  exists (payload :: payloads). cbn [generate.build_chain map generate.registrations]. rewrite Hnext, Hc, Hdec, Hr, Hrs.
  split; [done|]. unfold status_after at 2. rewrite lookup_insert_eq. destruct CHAIN as [|c CHAIN]; [done|].
  rewrite insert_insert_eq. cbn [map]. unfold final. rewrite !last_cons. by destruct (last CHAIN).
Qed.
End registered.

(** ** What the checks establish *)
Section sound.
Context {HL : Hashlib}.
Implicit Types leaves : list bytes.

(** The strings the verifier hashes for the proof in the claims. *)
Definition proof_strings (room : nat) (m : list (pyval * pyval)) : list bytes :=
  match as_int (cll02.get m "prev_size"), cll02.get m "prev_commitment", cll02.get m "consistency_proof" with
  | Some prev_size, PBytes pc, PBytes raw =>
      match cll02.decode room raw with
      | Ok content =>
          match cll02.proof_shape content with
          | Some (_, _, paths, _) => consistency_strings prev_size (cll02.split_commitment pc) paths
          | None => []
          end
      | Raise _ => []
      end
  | _, _, _ => []
  end.

Lemma uint_inv m k n : cll02._uint m k = Ok n -> as_int (cll02.get m k) = Some n /\ 0 <= n.
Proof.
  unfold cll02._uint. destruct (as_int _) as [i|]; [|done]. destruct (i <? 0) eqn:E; [done|]. zbool. by intros [= <-].
Qed.

Lemma bstr_inv m k b : cll02._bstr m k = Ok b -> cll02.get m k = PBytes b.
Proof. unfold cll02._bstr. destruct (cll02.get m k); try done. by intros [= <-]. Qed.

(** The verifier's call of the receipt of consistency. *)
Definition proof_reaches room (m : list (pyval * pyval)) a b (c pc : bytes) : Prop :=
  exists paths right_ acc,
    pm.verify_consistency_accumulator (nc a) (cll02.split_commitment pc) (nc a, nc b, paths, right_) = Ok acc /\
    cll02.commitment acc = Ok c /\
    proof_strings room m = consistency_strings (nc a) (cll02.split_commitment pc) paths.

Lemma check_proof_inv room m a b c pc :
  as_int (cll02.get m "prev_size") = Some (nc a) -> cll02.get m "prev_commitment" = PBytes pc ->
  cll02.check_proof room m (nc b) (nc a) c pc = Ok () -> proof_reaches room m a b c pc.
Proof.
  intros Ha Hpc. unfold cll02.check_proof. destruct (negb _); [done|].
  destruct (cll02.get m "consistency_proof") as [] eqn:Eraw; try done.
  destruct (cll02.decode room _) as [content|] eqn:Ed; [|done].
  destruct (cll02.proof_shape content) as [[[[size1 size2] paths] right_]|] eqn:Es; [|done].
  destruct (negb (size1 =? nc a) || _) eqn:Esz; [done|]. apply orb_false_iff in Esz as [E1 E2]. zbool. subst size1 size2.
  destruct (pm.verify_consistency_accumulator _ _ _) as [acc|e] eqn:Ev; [|by destruct e].
  destruct (cll02.commitment acc) as [joined|] eqn:Ec; [|done]. case_bool_decide; [|done]. subst joined. intros _.
  exists paths, right_, acc. split_and!; [done|done|]. unfold proof_strings. by rewrite Ha, Hpc, Eraw, Ed, Es.
Qed.

Lemma check_claims_inv room m :
  cll02.check_claims room m = Ok () ->
  exists a b c pc, 0 <= a <= b /\
    as_int (cll02.get m "log_size") = Some (nc b) /\ cll02.get m "commitment" = PBytes c /\
    as_int (cll02.get m "prev_size") = Some (nc a) /\ cll02.get m "prev_commitment" = PBytes pc /\
    zlen c = 32 * popcount b /\ zlen pc = 32 * popcount a /\
    (a = 0 \/ (a = b /\ c = pc) \/ (0 < a < b /\ proof_reaches room m a b c pc)).
Proof.
  unfold cll02.check_claims. destruct (negb (py_eq _ _)); [done|].
  destruct (cll02._uint m "log_size") as [log_size|] eqn:E1; [|done]. apply uint_inv in E1 as [E1 H1].
  destruct (cll02._uint m "prev_size") as [prev_size|] eqn:E2; [|done]. apply uint_inv in E2 as [E2 H2].
  destruct (cll02._bstr m "commitment") as [c|] eqn:E3; [|done]. apply bstr_inv in E3.
  destruct (cll02._bstr m "prev_commitment") as [pc|] eqn:E4; [|done]. apply bstr_inv in E4.
  destruct (match cll02.get m "issued_at" with PStr _ => _ | _ => _ end) as [[]|]; [|done].
  destruct (cll02.check_complete log_size) as [[]|] eqn:E5; [|done].
  destruct (cll02.check_complete prev_size) as [[]|] eqn:E6; [|done].
  apply check_complete_inv in E5 as (b & Hb & ->), E6 as (a & Ha & ->); [|done|done].
  rewrite nc_ltb by done. destruct (b <? a) eqn:Eab; [done|]. zbool. change cll02.HASH_LEN with 32.
  rewrite !peak_count_nc by done.
  destruct (negb (zlen c =? _)) eqn:E7; [done|]. destruct (negb (zlen pc =? _)) eqn:E8; [done|]. zbool.
  destruct (if cll02.has m "leaf_count" then _ else _) as [[]|]; [|done]. rewrite nc_eq0, nc_eqb by done.
  intros H. exists a, b, c, pc. split_and!; try done. 
  destruct (a =? 0) eqn:E9; [zbool; by left|]. destruct (a =? b) eqn:E10; cbn [orb andb] in H; zbool; right.
  - left. destruct (cll02.has _ _); [done|]. case_bool_decide; [done|]. done.
  - right. split; [lia|]. by apply check_proof_inv.
Qed.

End sound.

(** ** The accumulator the verifier arrives at is of digests *)
Section digests.
Context {HL : Hashlib}.

Lemma included_step_digest st x st' : pm.included_step st x = Ok st' -> is_digest st'.2.
Proof.
  destruct st as [[i g] root]. unfold pm.included_step, pm.hash_pospair64.
  destruct (pm.index_height _); [|done]. destruct (g <? _), (to_bytes _ 8); try done; cbn [as_buffer];
    destruct (as_buffer x); try done; intros [= <-]; apply length_sha256.
Qed.

Lemma included_root_digest i nodehash proof r :
  is_digest nodehash -> pm.included_root i nodehash proof = Ok r -> is_digest r.
Proof.
  unfold pm.included_root. destruct (pm.index_height i) as [g|]; [|done]. destruct (py_iter proof) as [l|]; [|done].
  intros Hn. assert (is_digest (i, g, nodehash).2) as Hst by done. revert Hst. generalize (i, g, nodehash).
  induction l as [|x l IH]; intros st Hst; cbn [pm.included_loop]; [by intros [= <-]|].
  destruct (pm.included_step st x) as [st'|] eqn:E; [|done]. apply IH. by eapply included_step_digest.
Qed.

Lemma py_index_digest (l : list bytes) i v : Forall is_digest l -> py_index l i = Ok v -> is_digest v.
Proof.
  intros Hl. unfold py_index. destruct (_ <? 0); [done|]. destruct (l !! _) as [x|] eqn:E; [|done]. intros [= <-].
  by apply (Forall_lookup_1 _ _ _ _ Hl E).
Qed.

Lemma above_loop_digest lf acc proofs hs roots offset i r :
  Forall is_digest acc -> Forall is_digest roots ->
  pm.above_loop lf acc proofs hs roots offset i = Ok r -> Forall is_digest r.1.1.
Proof.
  intros Hacc. revert roots offset i. induction hs as [|h hs IH]; intros roots offset i Hr; cbn [pm.above_loop].
  { by intros [= <-]. }
  destruct (pm.absent lf h); [by apply IH|]. destruct (py_index proofs i); [|done]. destruct (py_len _); [|done].
  destruct (negb _); [done|]. destruct (py_index acc i) as [v|] eqn:Ev; [|done]. apply IH.
  apply Forall_app. split; [done|]. repeat constructor. exact (py_index_digest acc _ _ Hacc Ev).
Qed.

Lemma below_loop_digest lf acc proofs hs split above root offset i r :
  Forall is_digest acc -> (forall x, root = Some x -> is_digest x) ->
  pm.below_loop lf acc proofs hs split above root offset i = Ok r -> forall x, r = Some x -> is_digest x.
Proof.
  intros Hacc. revert root offset i. induction hs as [|h hs IH]; intros root offset i Hr; cbn [pm.below_loop].
  { by intros [= <-]. }
  destruct (pm.absent lf h); [by apply IH|]. destruct (py_index proofs i); [|done]. destruct (py_len _); [|done].
  destruct (negb _); [done|]. destruct (py_index acc i) as [v|] eqn:Ev; [|done].
  destruct (pm.included_root _ v _) as [proven|] eqn:Ep; [|done]. apply included_root_digest in Ep; [|exact (py_index_digest acc _ _ Hacc Ev)].
  destruct (i =? above); [apply IH; by intros x [= <-]|]. case_bool_decide; [by apply IH|done].
Qed.

Lemma consistent_roots_digest a b acc proofs roots nright :
  Forall is_digest acc -> pm.consistent_roots a b acc proofs = Ok (roots, nright) -> Forall is_digest roots.
Proof.
  intros Hacc. unfold pm.consistent_roots. cbv zeta.
  destruct (b <=? a); [done|]. destruct (negb _); [done|]. destruct (negb _); [done|]. destruct (negb _); [done|].
  destruct (_ =? 0); [by intros [= <- _]|].
  match goal with |- context [pm.above_loop ?lf ?acc ?ps ?hs ?rs ?o ?i] =>
    destruct (pm.above_loop lf acc ps hs rs o i) as [[[above offset] j]|] eqn:Ea; [|done] end.
  apply above_loop_digest in Ea; [|done|constructor]. cbn [fst] in Ea.
  match goal with |- context [pm.below_loop ?lf ?acc ?ps ?hs ?s ?ab ?r ?o ?i] =>
    destruct (pm.below_loop lf acc ps hs s ab r o i) as [root|] eqn:Eb; [|done] end.
  assert (forall x, root = Some x -> is_digest x) as Hroot by (eapply below_loop_digest; [exact Hacc| |exact Eb]; by intros ? [=]).
  intros [= <- _]. destruct (zlen above <? _); [|done]. destruct root as [root|]; [|done].
  apply Forall_app. split; [done|]. constructor; [by apply Hroot|constructor].
Qed.

Lemma buffers_digest (vs : list pyval) (l : list bytes) :
  Forall (fun v => py_len v = Ok 32) vs -> map as_buffer vs = map Some l -> Forall is_digest l.
Proof.
  intros Hvs. revert l. induction Hvs as [|v vs Hv _ IH]; intros [|x l] E; try done. cbn [map] in E.
  injection E as Ev E. constructor; [|by apply IH].
  unfold is_digest. destruct v; try done; cbn in *; injection Ev as ->; injection Hv as Hv; unfold zlen in Hv; lia.
Qed.

Lemma verify_digests a acc b paths right_ out l :
  Forall is_digest acc -> pm.verify_consistency_accumulator a acc (a, b, paths, right_) = Ok out ->
  map as_buffer out = map Some l -> Forall is_digest l.
Proof.
  intros Hacc Hv Hl. unfold pm.verify_consistency_accumulator in Hv. destruct (negb _); [done|].
  destruct (map_result py_iter paths) as [values|]; [|done].
  destruct (pm.check_node_values _) as [[]|] eqn:Ec; [|done]. apply check_node_values_app in Ec as [_ Hright].
  destruct (pm.consistent_roots _ _ _ _) as [[roots nright]|] eqn:Er; [|done].
  apply consistent_roots_digest in Er; [|done]. destruct (negb _); [done|]. injection Hv as <-.
  apply (buffers_digest (map PBytes roots ++ right_)); [|done]. apply Forall_app. split; [|done].
  apply Forall_map. eapply Forall_impl; [exact Er|apply py_len_digest].
Qed.
End digests.

(** ** The history of a log identity *)
Section history.
Context {HL : Hashlib}.
Implicit Types leaves : list bytes.

Lemma node_values_prefix leaves b f :
  0 <= f <= b -> b <= zlen leaves ->
  node_values (prefix_leaves b leaves) (mountains f) = node_values leaves (mountains f).
Proof.
  intros Hf Hb. unfold node_values. apply map_ext_in. intros m Hm%list_elem_of_In.
  apply node_hash_prefix; [lia|]. apply (complete_mono f); [lia|].
  exact (proj1 (Forall_forall _ _) (mountains_complete f ltac:(lia)) m Hm).
Qed.

(** The claims of a checkpoint that carries the commitment of a prefix of the
    log establish the same of its previous size and commitment. *)
Lemma previous_sound leaves room m b :
  Forall is_digest leaves -> 0 <= b <= zlen leaves -> cll02.check_claims room m = Ok () ->
  as_int (cll02.get m "log_size") = Some (nc b) -> cll02.get m "commitment" = PBytes (log_commitment leaves b) ->
  exists a, 0 <= a <= b /\ as_int (cll02.get m "prev_size") = Some (nc a) /\
    (cll02.get m "prev_commitment" = PBytes (log_commitment leaves a) \/
     collides (node_preimages leaves) (proof_strings room m)).
Proof.
  intros Hd Hb Hcheck Hsize Hcom.
  destruct (check_claims_inv room m Hcheck) as (a & b' & c & pc & Hab & Eb & Ec & Ea & Epc & _ & Hpc & Hcase).
  rewrite Hsize in Eb. injection Eb as Eb%nc_inj; [|lia|lia]. subst b'. rewrite Hcom in Ec. injection Ec as <-.
  exists a. split_and!; [lia|lia|done|]. rewrite Epc. destruct Hcase as [->|[[-> ->]|[Ha (paths & right_ & acc & Hv & Hacc & ->)]]].
  - left. change (popcount 0) with 0 in Hpc. destruct pc; [done|]. rewrite zlen_cons in Hpc. pose proof (zlen_nonneg pc). lia.
  - by left.
  - destruct (split_commitment_spec (Z.to_nat (popcount a)) pc) as (_ & Hold & Econcat).
    { pose proof (popcount_nonneg a). rewrite Hpc. lia. }
    apply commitment_Ok_inv in Hacc as (l & Hl & Econ).
    pose proof (verify_digests _ _ _ _ _ _ _ Hold Hv Hl) as Hld.
    assert (l = node_values leaves (mountains b)) as ->.
    { apply digests_concat_inj; [done|apply mountain_values_digest; (done || lia)|by rewrite <- Econ]. }
    set (log := prefix_leaves b leaves). assert (zlen log = b) as Hlog by (by apply zlen_prefix).
    destruct (accumulator_sound log a (cll02.split_commitment pc) paths right_ acc) as [E|Hcol].
    + lia.
    + by apply prefix_digests.
    + done.
    + by rewrite Hlog.
    + rewrite Hl. f_equal. unfold peak_hashes. rewrite Hlog. symmetry. apply (node_values_prefix leaves b b); lia.
    + left. rewrite <- Econcat, E. unfold log, log_commitment. rewrite node_values_prefix by lia. done.
    + right. eapply collides_mono; [|reflexivity|exact Hcol].
      pose proof (node_preimages_app log (drop (Z.to_nat b) leaves)) as Hsub. unfold log, prefix_leaves in *.
      by rewrite take_drop in Hsub.
Qed.
End history.

Section registrations.
Context {HL : Hashlib}.
Implicit Types leaves : list bytes.

(** What the service holds is of a prefix of the log. *)
Definition holds leaves f (v : pyval * pyval) : Prop :=
  as_int v.1 = Some (nc f) /\ v.2 = PBytes (log_commitment leaves f).

Definition registry_ok (registered : cll02.registry) : Prop :=
  forall who v, registered !! who = Some v -> exists n b, as_int v.1 = Some n /\ v.2 = PBytes b.

Lemma as_int_eq v w n k : as_int v = Some n -> as_int w = Some k -> py_eq v w = true -> n = k.
Proof.
  destruct v, w; cbn [as_int]; try done; intros Hn Hk; injection Hn as <-; injection Hk as <-; cbn [py_eq as_number];
    rewrite Qeq_bool_inject; intros E; by apply Z.eqb_eq in E.
Qed.

Lemma item_get m key v : cll02.item m key = Ok v -> cll02.get m key = v.
Proof. unfold cll02.item, cll02.get. destruct (dict_find _ _); [|done]. by intros [= ->]. Qed.

Lemma register_inv room registered who m status registered' :
  generate.register room registered who m = Ok (status, registered') ->
  cll02.check_claims room m = Ok () /\
  registered' = <[who := (cll02.get m "log_size", cll02.get m "commitment")]> registered /\
  (registered !! who = None \/
   exists v, registered !! who = Some v /\
     py_eq (cll02.get m "prev_size") v.1 = true /\ py_eq (cll02.get m "prev_commitment") v.2 = true).
Proof.
  unfold generate.register. destruct (cll02.check_claims room m) as [[]|]; [|done].
  destruct (cll02.registration_continuity who m registered) as [st|] eqn:Ec; [|done].
  destruct (cll02.item m "log_size") as [n|] eqn:E1; [|done]. destruct (cll02.item m "commitment") as [c|] eqn:E2; [|done].
  apply item_get in E1 as ->, E2 as ->. intros [= <- <-]. split_and!; [done|done|].
  unfold cll02.registration_continuity in Ec. destruct (registered !! who) as [v|]; [right|by left]. exists v.
  destruct (cll02.item m "prev_size") eqn:E3; [|done]. destruct (cll02.item m "prev_commitment") eqn:E4; [|done].
  apply item_get in E3 as ->, E4 as ->. split; [done|]. destruct (_ && _) eqn:E; [|done]. by apply andb_true_iff in E.
Qed.

(** The payloads of a log identity, and the strings hashed to check one. *)
Definition own (who : cll02.identity) (cps : list (cll02.identity * bytes)) : list bytes :=
  map snd (filter (fun cp => cp.1 = who) cps).

Definition payload_strings (room : nat) (payload : bytes) : list bytes :=
  match cll02.decode room payload with Ok (PDict m) => proof_strings room m | _ => [] end.

(** The payload is of a checkpoint of the first [f] entries. *)
Definition checkpoint_of (room : nat) leaves (payload : bytes) f : Prop :=
  exists m, cll02.decode room payload = Ok (PDict m) /\
    as_int (cll02.get m "log_size") = Some (nc f) /\ cll02.get m "commitment" = PBytes (log_commitment leaves f).

(** One registration, seen from the state after it. *)
Lemma register_back leaves room registered who m status registered' b :
  Forall is_digest leaves -> 0 <= b <= zlen leaves -> registry_ok registered ->
  generate.register room registered who m = Ok (status, registered') ->
  (exists v, registered' !! who = Some v /\ holds leaves b v) ->
  as_int (cll02.get m "log_size") = Some (nc b) /\ cll02.get m "commitment" = PBytes (log_commitment leaves b) /\
  (registered !! who = None \/
   (exists a v, 0 <= a <= b /\ registered !! who = Some v /\ holds leaves a v) \/
   collides (node_preimages leaves) (proof_strings room m)).
Proof.
  intros Hd Hb Hok Hr (v & Hv & H1 & H2). apply register_inv in Hr as (Hc & -> & Hlast).
  rewrite lookup_insert_eq in Hv. injection Hv as <-. cbn [fst snd] in *. split_and!; [done|done|].
  destruct Hlast as [|(w & Hw & E1 & E2)]; [by left|right].
  destruct (previous_sound leaves room m b) as (a & Ha & Eprev & [Epc|Hcol]); try done; [left|by right].
  destruct (Hok who w Hw) as (n & pc & Hn & Hpc). exists a, w. split_and!; [lia|lia|done|split].
  - by rewrite Hn, (as_int_eq _ _ _ _ Eprev Hn E1).
  - rewrite Hpc in *. rewrite Epc, py_eq_bytes in E2. by apply bool_decide_eq_true in E2 as ->.
Qed.

Lemma register_ok room registered who m status registered' :
  registry_ok registered -> generate.register room registered who m = Ok (status, registered') -> registry_ok registered'.
Proof.
  intros Hok Hr. apply register_inv in Hr as (Hc & -> & _).
  destruct (check_claims_inv _ _ Hc) as (a & b & c & pc & _ & E1 & E2 & _).
  intros w v. destruct (decide (w = who)) as [->|]; [rewrite lookup_insert_eq|rewrite lookup_insert_ne by done].
  - intros [= <-]. by exists (nc b), c.
  - apply Hok.
Qed.

Lemma history_from leaves room cps registered statuses registered' who f v :
  Forall is_digest leaves -> 0 <= f <= zlen leaves -> registry_ok registered ->
  generate.registrations room registered cps = Ok (statuses, registered') ->
  registered' !! who = Some v -> holds leaves f v ->
  collides (node_preimages leaves) (concat (map (payload_strings room) (own who cps))) \/
  exists fs, StronglySorted Z.le fs /\ Forall (fun g => 0 <= g <= f) fs /\
    Forall2 (checkpoint_of room leaves) (own who cps) fs /\
    (registered !! who = None \/
     exists a w, registered !! who = Some w /\ holds leaves a w /\ 0 <= a <= f /\ Forall (Z.le a) fs).
Proof.
  intros Hd Hf. revert registered statuses. induction cps as [|[id payload] cps IH]; intros registered statuses Hok Hr Hv Hh.
  { injection Hr as _ <-. right. exists []. split_and!; [constructor|constructor|constructor|right].
    exists f, v. split_and!; [done|done|lia|lia|constructor]. }
  cbn [generate.registrations] in Hr. destruct (cll02.decode room payload) as [u|] eqn:Edec; [|done].
  destruct u as [| | | | | | | | | | |m| | | |]; try done.
  destruct (generate.register room registered id m) as [[st reg1]|] eqn:Ereg; [|done].
  destruct (generate.registrations room reg1 cps) as [[sts reg2]|] eqn:Erest; [|done]. injection Hr as _ <-.
  assert (registry_ok reg1) as Hok1 by by eapply register_ok.
  destruct (IH reg1 sts Hok1 Erest Hv Hh) as [Hcol|(fs & Hs & Hr & Hc & Hlast)].
  - left. eapply collides_mono; [reflexivity| |exact Hcol]. unfold own. rewrite filter_cons. cbn [fst].
    destruct (decide _); cbn [map concat snd]; set_solver.
  - unfold own in *. rewrite filter_cons. cbn [fst]. destruct (decide (id = who)) as [->|Hne].
    + destruct Hlast as [Hnone|(b & w & Hw & Hwh & Hb & Hle)].
      { apply register_inv in Ereg as (_ & -> & _). by rewrite lookup_insert_eq in Hnone. }
      destruct (register_back leaves room registered who m st reg1 b) as (E1 & E2 & Hback); try done; [lia|by exists w|].
      cbn [map snd concat]. replace (payload_strings room payload) with (proof_strings room m)
        by (unfold payload_strings; by rewrite Edec).
      assert (checkpoint_of room leaves payload b) as Hcp by by exists m.
      assert (forall a, a <= b -> Forall (Z.le a) (b :: fs)) as Hmono.
      { intros a Hab. constructor; [done|]. eapply Forall_impl; [exact Hle|]. intros; lia. }
      destruct Hback as [Hnone|[(a & u & Ha & Hu & Huh)|Hcol]].
      * right. exists (b :: fs). split_and!; [by constructor|by constructor|by constructor|by left].
      * right. exists (b :: fs). split_and!; [by constructor|by constructor|by constructor|right].
        exists a, u. split_and!; [done|done|lia|lia|]. apply Hmono. lia.
      * left. eapply collides_mono; [reflexivity| |exact Hcol]. set_solver.
    + right. exists fs. split_and!; [done|done|done|].
      apply register_inv in Ereg as (_ & -> & _). by rewrite lookup_insert_ne in Hlast by done.
Qed.
End registrations.

(** ** The claims *)

(** [C36] A producer's chain is registered. For any entries and any chain of
    leaf counts that do not decrease, the reference producer builds the log,
    the proofs and the payload of every checkpoint; the transparency service
    decodes each payload, finds every check satisfied and registers it, the
    first as first seen and every other as continuous, and it ends up holding
    the size and the commitment of the last checkpoint. *)
Theorem draft02_chain_registered {HL : Hashlib} (entries : list bytes) (CHAIN : list (Z * pystr * bool))
    (who : cll02.identity) (room : nat) :
  Forall is_digest entries -> nc (zlen entries) < MAX_MMR_SIZE -> grows (zlen entries) 0 CHAIN -> (4 <= room)%nat ->
  exists nodes sizes payloads,
    cll02.build_log entries = Ok (nodes, sizes) /\
    generate.build_chain nodes sizes (0, []) CHAIN = Ok payloads /\
    generate.registrations room ∅ (map (pair who) payloads) =
      Ok (match CHAIN with [] => [] | _ :: CHAIN => cll02.first_seen :: map (fun _ => cll02.continuous) CHAIN end,
          match CHAIN with [] => ∅ | _ => {[who := held (map lh entries) (final 0 CHAIN)]} end).
Proof.
  intros He Hmax Hg Hroom. assert (MAX_MMR_SIZE < 2 ^ 64) as HM by done.
  destruct (build_log_spec entries He ltac:(lia)) as (nodes & Hlog & Hrep).
  rewrite <- (zlen_map lh) in Hmax, Hg. replace room with (4 + (room - 4))%nat by lia.
  destruct (chain_registered nodes (map lh entries) CHAIN 0 (room - 4) ∅ who Hrep Hmax ltac:(lia) Hg) as (payloads & Hc & Hr).
  { left. apply lookup_empty. }
  exists nodes, (log_sizes (length entries)), payloads. rewrite length_map in Hc. split_and!; [done|done|].
  rewrite Hr. unfold status_after. by rewrite lookup_empty.
Qed.

Lemma draft02_chain_registered_witness :
  let HL := Sha256.hashlib in
  let entries := map (fun k => repeat (z2b k) 32) [1; 2; 3] in
  let who := (str "iss", str "sub") in
  let CHAIN := [(1, str "t0", true); (3, str "t1", false)] in
  exists nodes sizes payloads,
    cll02.build_log entries = Ok (nodes, sizes) /\
    generate.build_chain nodes sizes (0, []) CHAIN = Ok payloads /\
    generate.registrations 4 ∅ (map (pair who) payloads) =
      Ok ([cll02.first_seen; cll02.continuous], {[who := held (map lh entries) 3]}).
Proof.
  intros HL entries who CHAIN.
  refine (draft02_chain_registered entries CHAIN who 4 _ _ _ _);
    [repeat constructor|done| |lia].
  cbn [grows CHAIN]. split_and!; try done; (eexists; split; [reflexivity|done]).
Defined.

(** [C35] The history of a log identity is that of one log. Whatever payloads
    the service has been given, of however many identities, if what it holds of
    an identity is the commitment of the first [f] entries of a log, then every
    checkpoint it registered for that identity is a checkpoint of a prefix of
    those entries, in order of growth; or a string it hashed to check one of
    their proofs collides with a string hashed to build the log. *)
Theorem draft02_history_binding {HL : Hashlib} (leaves : list bytes) (room : nat) (who : cll02.identity)
    (cps : list (cll02.identity * bytes)) (statuses : list cll02.continuity) (registered : cll02.registry) (f : Z) :
  Forall is_digest leaves -> 0 <= f <= zlen leaves ->
  generate.registrations room ∅ cps = Ok (statuses, registered) -> registered !! who = Some (held leaves f) ->
  (exists fs, StronglySorted Z.le fs /\ Forall (fun g => 0 <= g <= f) fs /\
    Forall2 (checkpoint_of room leaves) (own who cps) fs) \/
  collides (node_preimages leaves) (concat (map (payload_strings room) (own who cps))).
Proof.
  intros Hd Hf Hr Hheld.
  destruct (history_from leaves room cps ∅ statuses registered who f (held leaves f)) as [Hcol|(fs & Hs & Hall & Hc & _)]; try done.
  - by right.
  - left. by exists fs.
Qed.

Lemma registered_Ok {A} (r : result (A * cll02.registry)) who v :
  match r with Ok x => x.2 !! who | Raise _ => None end = Some v ->
  exists a registered, r = Ok (a, registered) /\ registered !! who = Some v.
Proof. destruct r as [[a registered]|]; [|done]. by exists a, registered. Qed.

(** Two checkpoints of one identity, and one of another between them. *)
Lemma draft02_history_binding_witness :
  let HL := Sha256.hashlib in
  let entries := map (fun k => repeat (z2b k) 32) [1; 2; 3] in
  let who := (str "iss", str "sub") in
  let payloads :=
    match cll02.build_log entries with
    | Ok (nodes, sizes) =>
        match generate.build_chain nodes sizes (0, []) [(1, str "t0", true); (3, str "t1", false)] with
        | Ok l => l | Raise _ => []
        end
    | Raise _ => []
    end in
  let cps := zip [who; (str "iss", str "other"); who] (take 1 payloads ++ payloads) in
  (exists fs, StronglySorted Z.le fs /\ Forall (fun g => 0 <= g <= 3) fs /\
    Forall2 (checkpoint_of 4 (map lh entries)) (own who cps) fs) \/
  collides (node_preimages (map lh entries)) (concat (map (payload_strings 4) (own who cps))).
Proof.
  intros HL entries who payloads cps.
  destruct (registered_Ok (generate.registrations 4 ∅ cps) who (held (map lh entries) 3)) as (statuses & registered & E & H).
  { vm_compute. reflexivity. }
  apply (draft02_history_binding (map lh entries) 4 who cps statuses registered 3); [..|exact E|exact H].
  - apply Forall_map, Forall_forall. intros x _. apply lh_digest.
  - vm_compute. split; discriminate.
Defined.

(** ** The reference log is the package's log *)
Section package.
Context {HL : Hashlib} {St} {NS : NodeStore St} {NSL : NodeStoreLaws St}.
Implicit Types leaves : list bytes.

Lemma mountain_higher f H t K A s :
  0 <= f -> (H, t) ∈ mountains f -> (K, A) ∈ mountains f -> t <= s -> s < A + p2 K -> (K <= H)%nat.
Proof.
  intros Hf Hm1 Hm2 Hs1 Hs2. destruct (Nat.le_gt_cases K H) as [|Hlt]; [done|].
  pose proof (mountains_elem f H t Hf Hm1) as (Ha1 & _ & _). pose proof (mountains_elem f K A Hf Hm2) as (Ha2 & _ & Hle).
  pose proof (mountain_next f H t Hf Hm1).
  pose proof (aligned_lt_le (S H) t (A + p2 K) Ha1) as Hgap.
  specialize (Hgap (aligned_le (S H) K _ Hlt (aligned_add _ _ (aligned_pred _ _ Ha2))) ltac:(lia)). lia.
Qed.

Lemma mountain_unique f H t K A s :
  0 <= f -> (H, t) ∈ mountains f -> (K, A) ∈ mountains f -> t <= s < t + p2 H -> A <= s < A + p2 K -> (H, t) = (K, A).
Proof.
  intros Hf Hm1 Hm2 Hs1 Hs2.
  assert (H = K) as -> by (apply Nat.le_antisymm; [eapply (mountain_higher f K A H t s)|eapply (mountain_higher f H t K A s)]; (done || lia)).
  pose proof (mountains_elem f K t Hf Hm1) as (Ha1 & _ & _). pose proof (mountains_elem f K A Hf Hm2) as (Ha2 & _ & _).
  pose proof (p2_S K). pose proof (p2_pos K). f_equal. destruct (Z.lt_trichotomy t A) as [Hlt|[->|Hlt]]; [|done|].
  - pose proof (aligned_lt_le _ _ _ Ha1 Ha2 Hlt). lia.
  - pose proof (aligned_lt_le _ _ _ Ha2 Ha1 Hlt). lia.
Qed.

(** The row of an old peak is the profile's path of it. *)
Lemma old_peak_witness_path (st : St) leaves g H t m :
  represents (ns_view st) leaves -> 0 <= g <= zlen leaves -> (H, t) ∈ mountains g ->
  aligned m.1 m.2 -> inside H t m.1 m.2 ->
  old_peak_witness st (map peak_of (mountains g)) (peak_of m) = Ok (node_hash leaves m.1 m.2, path_values leaves H t m).
Proof.
  destruct m as [h s]. cbn [fst snd]. intros Hrep Hg Hm Hal Hin.
  pose proof (complete_mountain g H t ltac:(lia) Hm) as [Haligned Hle]. destruct Hin as [Hin1 Hin2].
  assert (complete g h s) as Hc by (split; [done|lia]). pose proof (p2_pos h).
  destruct (containing_path g h s ltac:(lia) Hc) as (idx & H' & t' & El & Hm' & [Hin1' Hin2'] & Ef & Ep & Eh & Elp).
  assert ((H', t') = (H, t)) as [= -> ->] by (apply (mountain_unique g _ _ _ _ s); (done || lia)).
  change (peak_of (h, s)) with (node_pos h s). unfold old_peak_witness.
  rewrite (ns_node_complete st leaves); [|done|apply (complete_mono g); [lia|done]].
  rewrite Ef, idx_not_minus_one, Ep, Eh, Elp. by rewrite (read_siblings st leaves g).
Qed.

Lemma old_rows (st : St) leaves a b K A al bl :
  represents (ns_view st) leaves -> splits a b K A al bl -> 0 < a -> b <= zlen leaves ->
  map_result (old_peak_witness st (map peak_of (mountains b))) (map peak_of (mountains a)) =
  Ok (zip (node_values leaves (mountains a)) (path_bytes leaves K A al)).
Proof.
  intros Hrep Hsp Ha Hb. destruct (mountains_split _ _ _ _ _ _ Hsp) as [Ea Eb].
  pose proof Hsp as [_ HA Eqa Hal Eqb Hbl]. pose proof (aligned_nonneg _ _ HA). pose proof (p2_pos K).
  assert (forall ms (path : nat * Z -> list bytes),
    (forall m, m ∈ ms -> old_peak_witness st (map peak_of (mountains b)) (peak_of m) = Ok (node_hash leaves m.1 m.2, path m)) ->
    map_result (old_peak_witness st (map peak_of (mountains b))) (map peak_of ms) =
    Ok (zip (node_values leaves ms) (map path ms))) as Hrows.
  { intros ms path. induction ms as [|m ms IH]; intros Hms; [done|]. cbn [map map_result node_values zip zip_with].
    rewrite (Hms m) by (by left). rewrite IH; [done|]. intros m' Hm'. apply Hms. by right. }
  rewrite Ea. unfold path_bytes, node_values. rewrite !map_app.
  assert (forall (l1 l2 : list bytes) (k1 k2 : list (list bytes)), length l1 = length k1 ->
    zip (l1 ++ l2) (k1 ++ k2) = zip l1 k1 ++ zip l2 k2) as Hcomb.
  { induction l1 as [|x l1 IH]; intros l2 [|y k1] k2 El; try done. cbn. f_equal. apply IH. by injection El. }
  rewrite Hcomb by by rewrite !length_map. apply map_result_app; apply Hrows; intros [h s] Hm.
  - assert ((h, s) ∈ mountains b) as Hmb by (rewrite Eb; apply elem_of_app; by left).
    rewrite (old_peak_witness_path st leaves b h s (h, s)); [|done|lia|done|by apply complete_mountain in Hm as [? _]; [|lia]|split; cbn [fst snd]; lia].
    unfold path_values. cbn [fst snd]. by rewrite td_path_self.
  - destruct (below_inside K al A (h, s) HA Hal Hm) as (_ & ? & ? & _).
    apply (old_peak_witness_path st leaves b K A); [done|lia| |auto with cll|done]. rewrite Eb. set_solver.
Qed.
End package.

(** [C37] The reference of the -02 draft and the package build one log. Over a
    node store that represents some leaves, the reference's [add_leaf_hash]
    and the package's [add_leaf] append the same nodes and reach the same size;
    at every size their peaks and leaf counts agree; and the package's
    consistency proof between two sizes is the profile's one, losslessly: its
    witnesses are the consistency paths, and its new peaks end with the right
    peaks. *)
Theorem draft02_equals_package {HL : Hashlib} {St} {NS : NodeStore St} {NSL : NodeStoreLaws St}
    (st : St) (leaves : list bytes) :
  represents (ns_view st) leaves -> nc (zlen leaves) < MAX_MMR_SIZE ->
  (forall leaf, is_digest leaf ->
    exists pos new st' db,
      add_leaf st leaf = Ok ((pos, new), st') /\
      pm.add_leaf_hash {| pm.nodes := ns_view st |} leaf = Ok (ns_size st', db) /\ pm.nodes db = ns_view st') /\
  (forall f, 0 <= f <= zlen leaves ->
    leaf_count (nc f) = Ok (if nc f =? 0 then 0 else pm.leaf_count (nc f - 1)) /\
    (let! pks := peaks (nc f) in map_result (ns_node st) pks) = cll02.accumulator (ns_view st) (nc f)) /\
  (forall f g, 0 < f < g -> g <= zlen leaves ->
    exists proof paths right_ reached,
      consistency_proof st (nc f) (nc g) = Ok proof /\
      cll02.consistency_proof_content (ns_view st) (nc f) (nc g) = Ok (nc f, nc g, paths, right_) /\
      cp_witness proof = PTuple (map hex_tuple paths) /\ cp_new_peaks proof = hex_tuple (reached ++ right_)).
Proof.
  intros Hrep Hmax. pose proof (zlen_nonneg leaves). assert (MAX_MMR_SIZE = 2 ^ 50) as HM by done. split_and!.
  - intros leaf Hleaf. destruct (add_leaf_represents st leaves leaf Hrep Hleaf Hmax) as (new & Hadd & _ & Hrep').
    pose proof (nc_succ (zlen leaves)). pose proof (nc_ge (zlen leaves)). pose proof (nc_le (zlen leaves + 1)).
    destruct (add_leaf_hash_represents {| pm.nodes := ns_view st |} leaves leaf Hrep Hleaf ltac:(lia)) as (db & Hdb & Hrepdb & _).
    exists (nc (zlen leaves)), new, (ns_append_nodes st new), db. rewrite Hadd, Hdb, ns_size_view, ns_append_view.
    rewrite (rep_size _ _ Hrep'), zlen_app, (represents_unique _ _ _ Hrepdb Hrep'). done.
  - intros f Hf. pose proof (nc_mono f (zlen leaves) ltac:(lia)). rewrite leaf_count_nc, peaks_nc by lia.
    rewrite (accumulator_nc (ns_view st) leaves f), (read_peaks st leaves f (mountains f)) by (done || lia).
    split; [|done]. rewrite nc_eq0 by lia. destruct (f =? 0) eqn:E; zbool; [by subst|]. by rewrite pm_leaf_count_nc by lia.
  - intros f g Hf Hg. destruct (split_exists f g ltac:(lia)) as (K & A & al & bl & Hsp).
    pose proof (nc_mono g (zlen leaves) ltac:(lia)). pose proof (nc_mono f g ltac:(lia)). pose proof (nc_ge f ltac:(lia)).
    exists {| cp_v := PInt 1; cp_kind := PStr (str "consistency"); cp_size_a := PInt (nc f); cp_size_b := PInt (nc g);
      cp_old_peaks := hex_tuple (node_values leaves (mountains f));
      cp_witness := PTuple (map hex_tuple (path_bytes leaves K A al));
      cp_new_peaks := hex_tuple (node_values leaves (mountains g)) |}.
    exists (path_bytes leaves K A al), (right_bytes leaves g K A al), (take (reached K A al) (node_values leaves (mountains g))).
    split_and!; [|apply (consistency_proof_content_spec _ leaves f g K A al bl); (done || lia)|done|].
    + unfold consistency_proof. rewrite ns_size_view, (rep_size _ _ Hrep).
      rw_bool (nc f <? 0) false. rw_bool (nc g <? nc f) false. rw_bool (nc (zlen leaves) <? nc g) false.
      rewrite !peaks_nc by lia. rewrite (old_rows st leaves f g K A al bl) by (done || lia).
      rewrite (read_peaks st leaves g (mountains g)) by (done || lia). 
      assert (length (node_values leaves (mountains f)) = length (path_bytes leaves K A al)) as Hlen.
      { destruct (mountains_split _ _ _ _ _ _ Hsp) as [Ea _]. unfold path_bytes, node_values. by rewrite Ea, length_map, !length_app, !length_map. }
      do 2 f_equal.
      * rewrite <- (fst_zip (node_values leaves (mountains f)) (path_bytes leaves K A al)) at 2; [done|lia].
      * rewrite <- (snd_zip (node_values leaves (mountains f)) (path_bytes leaves K A al)) at 2; [|lia]. by rewrite map_map.
    + cbn [cp_new_peaks]. unfold right_bytes, node_values. by rewrite <- skipn_map, take_drop.
Qed.

Lemma draft02_equals_package_witness :
  let HL := Sha256.hashlib in
  exists proof paths right_ reached,
    consistency_proof Demo.store (nc 3) (nc 5) = Ok proof /\
    cll02.consistency_proof_content (ns_view Demo.store) (nc 3) (nc 5) = Ok (nc 3, nc 5, paths, right_) /\
    cp_witness proof = PTuple (map hex_tuple paths) /\ cp_new_peaks proof = hex_tuple (reached ++ right_).
Proof.
  intros HL. apply (draft02_equals_package Demo.store Demo.leaves); try done. apply Demo.store_represents.
Defined.

(** The first checkpoint of [vectors.json], byte for byte. *)
Example vectors_cp1 :
  let HL := Sha256.hashlib in
  (let! entries := map_result (fun h => fromhex (str h))
     ["d8fa7cfffb66161e792ea62aa84de7e0db8fa342ed5e71b09bbfff90b32a94f3";
      "f3ac81170c85f2ea679162feb7be3254823f2c0a9d73e7c538ad25c876851f3e";
      "bf1d688ba1823809e30394a6bd20ef13c275902a2bb788b74fb64f300b81cbc7"]%string in
   let! (nodes, sizes) := cll02.build_log entries in
   generate.build_chain nodes sizes (0, []) [(3, str "2026-10-13T00:00:00Z", false)]) =
  (let! payload := fromhex (str ("a7646b696e646e636c6c2d636865636b706f696e7467636164656e6365190e10686c6f675f73697a6504"
     ++ "696973737565645f617474323032362d31302d31335430303a30303a30305a69707265765f73697a65006a636f6d6d69746d656e74"
     ++ "5840643e9cb5b896b008a16c1333fecce044e510a94de8124c3798d3488277263324857277deb54352114b86f34f5ede1c50a8ab7d"
     ++ "e359acc5e362efc3c0a46ded4b6f707265765f636f6d6d69746d656e7440")) in Ok [payload]).
Proof. vm_compute. reflexivity. Qed.

(** A path given as an empty byte string passes where the profile has an
    array: one proof has two encodings, both accepted. *)
Definition with_proof {HL : Hashlib} (paths right_ : list pyval) (leaves : list bytes) : list (pyval * pyval) :=
  let raw := cll02.cbor (PList [PInt 3; PInt 4; PList paths; PList right_]) in
  honest_claims leaves 2 3 (str "t") false (match raw with Ok raw => Some raw | Raise _ => None end).

Example path_as_byte_string :
  let HL := Sha256.hashlib in
  let leaves := map (fun k => repeat (z2b k) 32) [1; 2; 3] in
  let right_ := [PBytes (repeat (z2b 3) 32)] in
  cll02.check_claims 4 (with_proof [PList []] right_ leaves) = Ok () /\
  cll02.check_claims 4 (with_proof [PBytes []] right_ leaves) = Ok ().
Proof. vm_compute. done. Qed.

(** A path that is a number raises [TypeError], not [CheckpointError]. *)
Example path_as_number :
  let HL := Sha256.hashlib in
  let leaves := map (fun k => repeat (z2b k) 32) [1; 2; 3] in
  cll02.check_claims 4 (with_proof [PInt 7] [PBytes (repeat (z2b 3) 32)] leaves) = Raise TypeError.
Proof. vm_compute. done. Qed.
